(* ===== verification/_CoqProject ===== *)
-Q . S2P
Prelude.v
Utf8.v
Float64.v
FloatOrder.v
JsNumber.v
Decimal.v
Types.v
ShpWire.v
ShpHeaders.v
ShpMessages.v
ShpFile.v
ShpCaps.v
ShpClaims.v
CryptoTypes.v
Identity.v
BindCert.v
ReplayWindow.v
Ratchet.v
ChannelFrame.v
Handshake.v
ChannelCrypto.v
ChannelSession.v
ChannelDelivery.v
SecureSession.v
Pairing.v
PeerAuth.v
Signaling.v
SignalServer.v
SignalClient.v
Stun.v
StunWire.v
NatSim.v
Candidate.v
IceAgent.v
IceSafety.v
IceConnect.v
Steering.v
Turn.v
TurnWire.v
TurnSafety.v
SessionSetup.v
Transport.v
Sdp.v
WebRtc.v
WebHost.v
Driver.v
CryptoWasm.v
WebClient.v
Clipboard.v
InputCore.v
RateLimit.v
Pacer.v
HostInput.v
Desktop.v
XTest.v
WinInject.v
MacInject.v
Platforms.v
HostClipboard.v
Packetize.v
Reassembly.v
HostVideo.v
WasmBridge.v
Media.v
Audio.v
Pipeline.v
InputHarness.v
Classifier.v
ModeSwitch.v
Negotiation.v
AvSync.v
RateAllocator.v
LossRecovery.v
Congestion.v
Gcc.v
Scream.v
Capabilities.v
Ugc.v
Authorizer.v
FileTransfer.v
