(* ===== verification/Prelude.v ===== *)
(** * Streamhaul: a verification library for the remote-desktop core

    Streamhaul (src/) streams a host's screen to a peer and carries the peer's input,
    clipboard and files back.  Its Rust crates form a stack, and this library follows it from
    the wire up:

    - [sh-types]: channel ids, transport kinds, bit rates;
    - [sh-protocol]: the SHP wire formats (datagram headers, input events, NACK feedback,
      control-stream frames, clipboard updates, file messages, capability messages);
    - [sh-crypto]: device identities and key stores, binding certificates, pairing (PAKE and
      short authentication strings), the Noise handshake driver, and the AEAD record layer of a
      session (frame headers, ratcheted per-channel keys, replay windows, epochs, kill-switch)
      on keys exported by the handshake;
    - [sh-signaling]: the rendezvous service through which two devices find each other
      (envelope, authentication, relay server, reconnecting client);
    - [sh-ice], [sh-transport]: connectivity (STUN, candidates, the ICE agent, TURN), and the
      channels over QUIC and WebRTC that carry the sessions;
    - [sh-core]: session establishment, packetization of video frames, the media pipelines,
      authorization of a peer's actions, file transfer; these call the layers below;
    - [sh-input], [sh-clipboard] and the Linux injector; bins/streamhaul-webrtc-host, the host
      that serves a browser;
    - [sh-media], [sh-codec-hw], [sh-adaptive]: frames, codecs and their negotiation, the
      encoder switch, playout scheduling, congestion control, loss recovery, the content
      classifier, and the division of the send budget among the channels.

    ** Files and the code they model

    - [Prelude.v]: Rust's [Result] with [?] as [let?], machine integers as [Z] with their
      ranges, wrap-around and saturating operations, big-endian conversion, slices that fail
      out of range ([get_range], [get_from]), [slice::sort_by_key] and the shared automation; and
      tokio's bounded [mpsc] channel as the class [Mpsc] with its documented laws [MpscLaws],
      which the relay and the host's input path are generic in, with a list as an instance.
    - [Utf8.v]: [str::from_utf8] as a decoder to scalar values, [char::is_control].
      [Float64.v]: [f64] as the Standard Library's executable binary64 ([spec_float] with
      precision 53), its comparison, [clamp] (which panics on inverted bounds: [None]) and
      conversions, and [Duration]s as nanoseconds.  [FloatOrder.v]: the results are canonical,
      on canonical numbers the comparison is that of the values, and a rounded sum or product is
      not below a representable number that the exact one reaches.  [JsNumber.v]: which of them
      are integers a JavaScript number holds exactly, and that those convert without rounding.
      [Decimal.v]: decimal and hexadecimal formatting.
    - [Types.v]: crates/sh-types/src/lib.rs ([ChannelId], [TransportKind], [Bitrate]).
    - [ShpWire.v]: error.rs and bits.rs of crates/sh-protocol/src, and the interface
      [WireCodec]/[WireCodecLaws] every fixed-size message implements: decoding an encoding
      followed by anything gives the value back, and whatever decodes is the encoding of what
      it decodes to.  [wire_prefix_iff] and the prefix lemmas are proved once against it.
    - [ShpHeaders.v]: common.rs, video.rs.  [ShpMessages.v]: input.rs, feedback.rs,
      control.rs, clipboard.rs (a Module each).  [ShpFile.v]: file.rs.  [ShpCaps.v]:
      capability.rs, transport_caps.rs.  [ShpClaims.v]: the theorems on these formats.
    - [CryptoTypes.v]: error.rs of crates/sh-crypto/src, [Direction], and the classes
      [CryptoPrims]/[CryptoLaws] and [SigPrims]/[SigLaws] for the crates outside the
      repository: HKDF-SHA256, ChaCha20-Poly1305, SHA-256 and ed25519.  The laws are their
      documented interface: output lengths, length limits, and that decryption under the same
      key, nonce and associated data inverts encryption.  Unforgeability is not assumed.
      The file ends with a concrete instance ([toy_prims]), so every theorem under
      them is applied to a concrete session.
    - [Identity.v]: identity.rs, signature.rs, keystore.rs, software_keystore.rs (the trait
      [Keystore] as a class, its documented laws, and the in-memory instance).  [BindCert.v]:
      bind_cert.rs.  [Pairing.v]: sas.rs and pairing.rs (class [Spake2] for the PAKE
      crate).  [PeerAuth.v]: peer_auth.rs.  [Handshake.v]: the driver of noise.rs (class
      [Snow] for the Noise crate).
    - [ReplayWindow.v], [Ratchet.v], [ChannelFrame.v], [ChannelCrypto.v]: the parts of
      crates/sh-crypto/src/channel_crypto.rs ([ReplayWindow], [RatchetChain],
      [ChannelFrameHeader], [SessionKeys]) and the key export of noise.rs.  A method with
      [&mut self] is a function that returns the new state next to the result, also on its
      error paths; [HashMap] and [BTreeMap] are [gmap]; the time read from the injected clock
      is an argument.  [ChannelSession.v] and [ChannelDelivery.v] hold the theorems on whole
      sessions; [SecureSession.v] composes handshake and record layer.
    - [Signaling.v]: envelope.rs, backoff.rs, auth.rs of crates/sh-signaling/src.
      [SignalServer.v]: server.rs as a transition system on connections, registry and queues
      (any [Mpsc]), whose events are what sockets and timers deliver.  [SignalClient.v]: client.rs.
    - crates/sh-ice/src: [Stun.v] is stun.rs and error.rs, with HMAC-SHA1 and CRC-32 as the class
      [StunPrims], and [StunWire.v] its proofs; [Candidate.v] is candidate.rs; [IceAgent.v]
      agent.rs, with the socket's datagrams and the clock as inputs, the generator as the class
      [Rng] and what is sent as a log; [IceSafety.v] its invariant under any input,
      [IceConnect.v] two honest agents; [Steering.v] is steering.rs; [Turn.v] is turn.rs (MD5 as
      the class [Md5]), [TurnWire.v] its codec, [TurnSafety.v] its client under any input;
      [NatSim.v] is transport.rs, the simulated network of sockets behind NATs.
    - Input and clipboard.  [Clipboard.v]: crates/sh-clipboard/src.  [InputCore.v]:
      crates/sh-input/src (injector trait, coordinates, rate limiter), with the limiter's bound
      in [RateLimit.v].  [HostInput.v] and [HostClipboard.v]: the input path (over any
      [Mpsc]), the clipboard task and the channel roles of bins/streamhaul-webrtc-host/src/lib.rs.  [Desktop.v] is the contract
      of an injector towards the desktop, a class, and the input session proved against it, with
      the injectors' table of button bits next to the documented one;
      [XTest.v], [WinInject.v] and [MacInject.v] are its instances, the injectors and key tables of
      crates/sh-platform-linux, -win and -mac, with x11rb, [SendInput] and CoreGraphics as the
      classes [XConn], [WinUser] and [CoreGraphics]; [Platforms.v] puts them together.
    - [SessionSetup.v]: crates/sh-core/src/session.rs, with the traits [SignalingChannel] and
      [TransportFactory] as classes.
    - crates/sh-transport/src: [Transport.v] is channel.rs and connection.rs; quinn's
      streams are the classes [SendStream] and [RecvStream], with what is documented of them as
      laws ([SendStreamLaws]: what was written, [RecvStreamLaws]: what is still to come and how
      the stream ends), and its connection answers from functions of the number of requests
      ([Quinn]).  [Sdp.v] holds the texts of webrtc.rs
      (channel labels, fingerprints of an offer), [WebRtc.v] its engine state, channels and SDP
      bridge, with str0m as the class [Str0m] and its events as inputs; a waiting loop reads a
      list of what happens between its wake-ups.  [Driver.v] is the drive loop of driver.rs over
      [WebRtc.v].
    - bins/streamhaul-webrtc-host/src/lib.rs: [WebHost.v] is the set-up of a session with a
      browser (handshake over signalling, offer, pin, answer), [HostVideo.v] the fragments,
      the baked source and the send loops.
    - The browser's side.  [WasmBridge.v]: crates/sh-wasm/src/lib.rs, the encoders and decoders
      a script calls, with numbers as [f64].  [CryptoWasm.v]: crates/sh-crypto-wasm/src/lib.rs, the
      key store and handshake objects a script holds; the clock and the entropy source of the
      browser are arguments.  [WebClient.v]: crates/sh-web-client/src/lib.rs, with the browser's
      peer connection as the class [RtcPeerConnection].
    - [Packetize.v]: crates/sh-core/src/packetize.rs; theorems in [Reassembly.v].
      [Pipeline.v]: pipeline.rs, stats.rs and the report of harness.rs there, with the capture,
      decode and sink traits, sinks and synthetic screen of crates/sh-media/src.
      [InputHarness.v]: input_harness.rs.
    - [Audio.v]: audio frames, traits and the synthetic source of crates/sh-media/src, and
      crates/sh-codec-hw/src/raw_audio.rs.
    - [Media.v]: frames and the [VideoEncoder] trait of crates/sh-media/src, as a class, and the
      raw codec of crates/sh-codec-hw/src/raw.rs, its instance; [ModeSwitch.v]: mode_switch.rs
      there, generic in the encoder and its factory; [Negotiation.v]: negotiation.rs there;
      [AvSync.v]: crates/sh-media/src/avsync.rs.
    - crates/sh-adaptive/src: [Classifier.v] is classifier.rs, [RateAllocator.v] allocator.rs,
      [LossRecovery.v] loss_recovery.rs, [Pacer.v] pacer.rs; [Congestion.v] is controller.rs, stats.rs and util.rs,
      with the trait as a class and its laws (the rate falls only at a recorded, gated
      decrease), and [Gcc.v] and [Scream.v] (gcc.rs, scream.rs)
      are its two instances.
    - [Capabilities.v], [Ugc.v], [Authorizer.v]: crates/sh-core/src/authz/ (the capability
      set and the [MinEpochStore] trait with its in-memory instance, the grant certificate,
      the session gate).  [Authorizer.v] is generic in the store, against the laws of the
      interface.  [Ugc.v] ends with what the signed documents have in common.
    - [FileTransfer.v]: crates/sh-core/src/file.rs.

    ** What the theorems show

    - Handshake and session.  [handshake_authenticates]: whatever bytes arrive, a completed
      handshake carries a peer certificate that verified against the live static key.
      [honest_session_end_to_end]: two honest sides complete, agree, and deliver.
    - Record layer.  [session_run] executes any list of seals, opens of arbitrary bytes,
      rekeys, grace-period ends and kills on a session made by [from_outcome].
      [no_nonce_reuse]: no two sealed frames share channel, epoch and nonce.
      [no_frame_opened_twice]: nothing is opened twice.  [open_failure_changes_nothing]: a
      rejected frame leaves the state alone.  [seal_outcome]: what is produced, and the only
      causes of failure.  [in_order_delivery]: the opposite session opens every frame to what
      was sealed, across ratchet steps and epoch changes, until the sender rekeys twice between
      two frames; from then on it refuses every frame.  They rest on [session_inv], which
      relates each channel state to the key sequence of its epoch and to the log of accepted
      frames.
    - Replay window and ratchet.  [replay_window_refines]: the bitmap and its word/bit slides
      implement the set of accepted numbers with a floor (a refinement, relation [Rep]).
      [ratchet_window_invariant] and [ratchet_paths_agree]: exactly the window of live keys,
      and the read-only receive derivation equals the mutating one.
    - Kill-switch.  [kill_denies_and_erases]: every action is denied from then on and no key
      material is left in the chains of the session.  Its two limits are the lemmas
      [killed_session_accepts_forged_frame] (the erased root key is still a usable key) and
      [kill_keeps_later_epochs].
    - Trust.  [bind_cert_verify_iff], [signed_documents_canonical]; [keystore_refines_policy]
      and [pairing_respects_revocation] for any key store that meets the interface;
      [pake_confirmation_binds], [pake_honest_confirms]; [sas_compares_codes]: the comparison and the
      displayed text are those of the code modulo a power of ten.
    - Signaling.  [relay_delivers_to_proven_identity], [relay_bounded] over every sequence of
      events; [honest_client_registers], [reconnect_terminates] for the client.
    - Connectivity.  [stun_messages_roundtrip], [stun_integrity_covers]: what a valid
      MESSAGE-INTEGRITY says about the decoded message, and the lemma
      [integrity_nomination_injected], what it does not.  [ice_nomination_authenticated] (behind every
      nomination is a message under the session's passwords) and [ice_path_survives_trickle] for
      every sequence of operations and datagrams;
      [ice_agents_connect] for two honest agents, with [distinct_ufrags_dropped] when their user
      fragments differ.  [nat_sim_as_documented] for the network it is tested on.
      [relay_choice_optimal], [turn_credentials_bind].
      [turn_allocation_authenticated] for every sequence of operations and datagrams and
      [turn_client_allocates] against an honest server; the lemmas [stale_nonce_never_retried],
      [no_second_allocation] and [unsolicited_success_accepted] are the client's limits.
    - Session establishment.  [session_transport_pinned]: the transport that is built carries
      the fingerprint the verified certificate commits to.  [session_peers_agree]: both sides
      choose the same transport.
    - Channels.  [stream_channel_delivers]: what one end of a reliable channel sends is what the
      other receives, in order, and a stream cut anywhere gives a prefix and an error.
      [webrtc_channel_fifo]: for every interleaving of engine events and calls, a data channel
      yields what arrived, in order, less what the full queue dropped and counted.
      [channel_label_roundtrip], [fingerprint_roundtrip]; [close_discards].  [driver_faithful]: the
      drive loop sends what the engine puts out, in order, and waits for its deadlines.
    - The browser host.  [webrtc_host_pins_browser]: whatever the signalling server delivers,
      the transport is pinned to the fingerprint that the certificate of this handshake commits
      to, not to the one in the offer; the host trusts whoever completes the handshake.  [host_video_delivered]: the frames of any source arrive whole at
      a reassembler, in order; [legacy_loop_same_video] for the loop that also reads input.
    - The browser.  [browser_handshake_sound]: a script gets at most one outcome out of a handshake
      object, for the identity that was verified, with the committed pin.
      [js_file_messages_exact]: no number is rounded between a script and the wire.
      [browser_and_host_agree]: input events, pasted and offered texts and video fragments are read
      as they were written.  [web_client_applies_pinned_only]: no remote description reaches the
      peer connection unless its first fingerprint is the pin.  The lemmas
      [first_pairing_revokes_nobody] and [later_fingerprint_not_checked] are the limits.
    - Input and clipboard.  [input_path_ordered] and [input_rate_bounded] for every byte sequence
      and interleaving, the second through the limiter's floating-point arithmetic
      ([rate_limiter_caps]); [input_session_leaves_nothing_held] composes them with the injector of
      each platform; its limits are the lemmas [right_button_presses_middle],
      [failed_modifier_latches_first], [dropped_release_latches] and [failed_keyup_latches].
      [key_tables_agree]: the platforms accept the same keys.  [input_rtt_ordered] for the harness.
       [pointer_mapping].  [sanitizer_exact],
      [clipboard_writes_safe].
    - Authorization.  [authorize_iff_all_sources]: exactly the intersection of the four
      sources; [ugc_verify_iff] for the certificate.
    - Media and adaptation.  [reassembly_any_order], [reassembler_bounded];
      [raw_video_path_lossless] composes raw encoding, packetization, arbitrary delivery,
      reassembly and decoding; [loopback_lossless] composes the two pipelines over a connection
      that carries datagrams, up to the report of the loopback harness;
      [raw_audio_decode_iff], [raw_audio_roundtrip] and [synthetic_audio_roundtrip] for audio; [mode_switch_keeps_sessions] for the encoder switch and the
      session limit; [codec_ladder_complete]; [allocator_waterfall] against a reference
      waterfall; [pacer_rate_bounded]: the file channel's bytes against its allocation, through the
      bucket's floating-point arithmetic, with [zero_wait_without_tokens] as its limit;
      [avsync_one_timeline]; [congestion_always_usable] for both controllers, in
      floating point: no panic, a target within its bounds, and a rate that falls at most once per
      smoothed round trip; [gap_reports_exact], [keyframe_requests_spaced],
      [mode_changes_need_dwell].
    - Files.  [transfer_completes], [receiver_bounded_and_verified].
    - Wire formats.  [datagram_headers_wire], [messages_wire_canonical],
      [transport_negotiation_agrees].

    ** Bounds and fuel

    The attribute loops of STUN and TURN ([decode_loop], [find_loop], [attrs_loop],
    [find_attr_loop]) and [lossy_loop] have one unit of
    fuel per byte plus one and consume at least one byte a turn ([decode_loop_fuel]: more fuel
    changes nothing).
    The ratchet's [while] loop is [advance_loop] with fuel [gen - max_gen], which is the number
    of its iterations: [advance_to_unfold] gives the loop's own equation, without fuel.  The
    transfer loop [drive] runs sender and receiver in turn with a fuel of one per byte plus
    one; [transfer_completes] proves that it is enough, since every chunk carries at least one
    byte.  [connect_with_retry] has one unit of fuel per attempt the backoff allows plus one;
    [reconnect_terminates] proves that it never runs out.  [parse_baked] has one unit per byte
    and consumes at least one a turn.  The host's send loops do not count a skipped frame, so
    they have fuel; [host_video_delivered] proves that one unit per frame is enough when the
    frames fit.  [recv_messages] has one unit per receive.  Handshakes, server runs, feedback
    histories and session runs are folds over lists of messages, events, reports and
    operations: no fuel.  Session theorems bound the number of operations by [2^64 - 1], where
    the saturating epoch counter would stop, and [in_order_delivery] by the ratchet's hard
    limit.
    [alloc_loop] of NatSim has 65,535 turns, the bound of the code's own [for] loop.


    ** What is not modelled

    The endpoint configuration and TLS set-up of sh-transport, with its socket wrappers; the
    bindings to OpenH264, to screen capture and to rendering; the command-line programs and the
    web page, whose work is I/O on what is modelled here.  Zeroization is modelled as the value left behind, not as a property of
    memory; constant-time comparison as equality; an atomic or a lock as the atomic steps the
    code performs on it.

    ** Plan

    The parts above are modelled and proved.  What could follow: the colour conversion around
    OpenH264 and the row handling of the screen capturers. *)

From stdpp Require Import base numbers list option gmap strings sorting.
From Stdlib Require Ascii String.

Global Open Scope Z_scope.

(** ** Results

    Rust's [Result<A, E>]; [?] is [let?], [map_err] keeps its name. *)

Inductive result (E A : Type) : Type :=
| Ok (a : A)
| Err (e : E).
Arguments Ok {E A} a.
Arguments Err {E A} e.

#[global] Instance result_eq_dec {E A} `{EqDecision E, EqDecision A} : EqDecision (result E A).
Proof. solve_decision. Defined.

Declare Scope shp_scope.
Delimit Scope shp_scope with shp.
Global Open Scope shp_scope.

Notation "'let?' x := m 'in' k" :=
  (match m with Ok x => k | Err e => Err e end)
  (at level 10, x pattern, m at level 100, k at level 200) : shp_scope.

Definition map_err {E F A} (f : E -> F) (m : result E A) : result F A :=
  match m with Ok a => Ok a | Err e => Err (f e) end.

Definition ok_or {E A} (o : option A) (e : E) : result E A :=
  match o with Some a => Ok a | None => Err e end.

(** [Result::ok]. *)
Definition ok {E A} (m : result E A) : option A :=
  match m with Ok a => Some a | Err _ => None end.

Definition is_ok {E A} (m : result E A) : bool :=
  match m with Ok _ => true | Err _ => false end.

Lemma Ok_inj {E A} (a b : A) : @Ok E A a = Ok b -> a = b.
Proof. congruence. Qed.

(** [bool] as an unsigned integer ([u8::from(bool)]). *)
Definition b2z (b : bool) : Z := if b then 1 else 0.

(** ** Machine integers, as [Z] with the wrap-around written out *)

Definition u8_max : Z := 255.
Definition u16_max : Z := 65535.
Definition u32_max : Z := 4294967295.
Definition u64_max : Z := 18446744073709551615.
(** [usize] on the 64-bit targets the program is built for. *)
Definition usize_max : Z := u64_max.
Definition i64_min : Z := -9223372036854775808.
Definition i64_max : Z := 9223372036854775807.

Definition is_u8 (z : Z) : Prop := 0 <= z < 256.
Definition is_u16 (z : Z) : Prop := 0 <= z < 65536.
Definition is_u32 (z : Z) : Prop := 0 <= z < 4294967296.
Definition is_u64 (z : Z) : Prop := 0 <= z < 18446744073709551616.
Definition is_i16 (z : Z) : Prop := -32768 <= z < 32768.
Definition is_i64 (z : Z) : Prop := i64_min <= z <= i64_max.

(** Unsigned saturating arithmetic at a maximum [m]. *)
Definition sat_add (m a b : Z) : Z := Z.min m (a + b).
Definition sat_sub (a b : Z) : Z := Z.max 0 (a - b).
Definition sat_mul (m a b : Z) : Z := Z.min m (a * b).
(** [i64] saturating arithmetic. *)
Definition i64_clamp (z : Z) : Z := Z.max i64_min (Z.min i64_max z).
Definition i64_sat_add (a b : Z) : Z := i64_clamp (a + b).
Definition i64_sat_sub (a b : Z) : Z := i64_clamp (a - b).

(** Two's complement reading of a [w]-bit pattern. *)
Definition to_signed (w z : Z) : Z :=
  if z <? 2 ^ (w - 1) then z else z - 2 ^ w.

(** ** Byte strings *)

Abbreviation bytes := (list Z).

Definition blen (l : bytes) : Z := Z.of_nat (length l).

Definition bytes_ok (l : bytes) : Prop := Forall is_u8 l.

Definition bytes_eqb (a b : bytes) : bool := bool_decide (a = b).

(** A byte-string literal [b"..."]. *)
Definition lit (s : string) : bytes :=
  map (fun c => Z.of_nat (Ascii.nat_of_ascii c)) (String.list_ascii_of_string s).

(** Big-endian integers: [to_be_bytes] and [from_be_bytes]. *)
Fixpoint to_be (n : nat) (z : Z) : bytes :=
  match n with
  | O => []
  | S n' => to_be n' (z / 256) ++ [z mod 256]
  end.

Definition from_be (l : bytes) : Z := fold_left (fun acc b => acc * 256 + b) l 0.

#[global] Arguments from_be : simpl never.

(** [slice.get(a..b)] and [slice.get(a..)]. *)
Definition get_range (l : bytes) (a b : Z) : option bytes :=
  if (0 <=? a) && (a <=? b) && (b <=? blen l)
  then Some (take (Z.to_nat (b - a)) (drop (Z.to_nat a) l))
  else None.

Definition get_from (l : bytes) (a : Z) : option bytes := get_range l a (blen l).

(** Copying a zero-filled buffer range by range, as [buf[a..b].copy_from_slice(src)]
    does; only used with [b - a = src.len()], where Rust does not panic. *)
Definition copy_at (buf : bytes) (a : Z) (src : bytes) : bytes :=
  take (Z.to_nat a) buf ++ src ++ drop (Z.to_nat a + length src) buf.

(** ** Lemmas *)

Lemma from_be_snoc l b : from_be (l ++ [b]) = from_be l * 256 + b.
Proof. unfold from_be. by rewrite fold_left_app. Qed.

Lemma to_be_length n z : length (to_be n z) = n.
Proof.
  revert z; induction n as [|n IH]; intros z; cbn [to_be]; [done|].
  rewrite length_app, IH; cbn; lia.
Qed.

Lemma to_be_ok n z : bytes_ok (to_be n z).
Proof.
  revert z; induction n as [|n IH]; intros z; cbn [to_be]; [constructor|].
  apply Forall_app; split; [apply IH|]. repeat constructor; apply Z.mod_pos_bound; lia.
Qed.

Lemma is_u8_mod z : is_u8 (z mod 256).
Proof. apply Z.mod_pos_bound. lia. Qed.

Lemma from_be_to_be n z : from_be (to_be n z) = z mod 256 ^ Z.of_nat n.
Proof.
  revert z; induction n as [|n IH]; intros z; cbn [to_be].
  { cbn. by rewrite Z.mod_1_r. }
  rewrite from_be_snoc, IH.
  replace (Z.of_nat (S n)) with (1 + Z.of_nat n) by lia.
  rewrite Z.pow_add_r, Z.pow_1_r by lia.
  rewrite Z.rem_mul_r by lia. lia.
Qed.

Lemma from_be_to_be_small n z :
  0 <= z < 256 ^ Z.of_nat n -> from_be (to_be n z) = z.
Proof. intros H. by rewrite from_be_to_be, Z.mod_small. Qed.

Lemma to_be_from_be l : bytes_ok l -> to_be (length l) (from_be l) = l.
Proof.
  induction l as [|b l IH] using rev_ind; intros H; [done|].
  apply Forall_app in H as [Hl Hb]. inversion Hb as [|?? Hu8 _]; subst.
  unfold is_u8 in Hu8. rewrite length_app, Nat.add_comm; cbn [length Nat.add to_be].
  rewrite from_be_snoc. rewrite Z.div_add_l, Z.div_small, Z.add_0_r by lia.
  rewrite Z.add_comm, Z.mod_add, Z.mod_small by lia. by rewrite IH.
Qed.

Lemma from_be_range l : bytes_ok l -> 0 <= from_be l < 256 ^ blen l.
Proof.
  unfold blen. induction l as [|b l IH] using rev_ind; intros H; [cbv; split; [discriminate|reflexivity]|].
  apply Forall_app in H as [Hl Hb]. inversion Hb as [|?? Hu8 _]; subst.
  unfold is_u8 in Hu8. rewrite from_be_snoc, length_app; cbn [length].
  rewrite Nat2Z.inj_add, Z.pow_add_r, Z.pow_1_r by lia.
  specialize (IH Hl). nia.
Qed.

Lemma to_be_inj n a b :
  0 <= a < 256 ^ Z.of_nat n -> 0 <= b < 256 ^ Z.of_nat n ->
  to_be n a = to_be n b -> a = b.
Proof.
  intros Ha Hb E. rewrite <- (from_be_to_be_small n a Ha), <- (from_be_to_be_small n b Hb).
  by rewrite E.
Qed.

Lemma land_shiftr_testbit m d : 0 <= d -> (Z.land (Z.shiftr m d) 1 =? 1) = Z.testbit m d.
Proof.
  intros Hd. change 1 with (Z.ones 1) at 1. rewrite Z.land_ones, Z.pow_1_r by lia.
  rewrite <- Z.bit0_mod, Z.shiftr_spec by lia. rewrite Z.add_0_l. by destruct (Z.testbit m d).
Qed.

Lemma lor_bound n x y :
  0 <= n -> 0 <= x < 2 ^ n -> 0 <= y < 2 ^ n -> 0 <= Z.lor x y < 2 ^ n.
Proof.
  intros Hn Hx Hy.
  assert (Z.lor x y = (Z.lor x y) mod 2 ^ n) as ->; [|apply Z.mod_pos_bound; lia].
  rewrite <- Z.land_ones, Z.land_lor_distr_l, !Z.land_ones by lia.
  by rewrite (Z.mod_small x), (Z.mod_small y) by lia.
Qed.

(** Exhaustive checks over a byte: a boolean test that holds at the 256 values holds at
    every byte. *)
Definition all_u8 (n : Z) (P : Z -> bool) : bool := forallb P (seqZ 0 n).

Lemma all_u8_spec n P : all_u8 n P = true -> forall z, 0 <= z < n -> P z = true.
Proof.
  unfold all_u8. rewrite forallb_forall. intros H z Hz. apply H.
  apply list_elem_of_In, elem_of_seqZ. lia.
Qed.

(** A boolean check that a list holds bytes. *)
Definition bytes_okb (l : bytes) : bool := forallb (fun b => (0 <=? b) && (b <? 256)) l.

Lemma bytes_okb_ok l : bytes_okb l = true -> bytes_ok l.
Proof.
  unfold bytes_okb, bytes_ok. rewrite forallb_forall, Forall_forall. intros H x Hx.
  specialize (H x). rewrite <- list_elem_of_In in H. specialize (H Hx).
  apply andb_true_iff in H as [H1 H2]. apply Z.leb_le in H1. apply Z.ltb_lt in H2. done.
Qed.

Lemma blen_app a b : blen (a ++ b) = blen a + blen b.
Proof. unfold blen. rewrite length_app. lia. Qed.

Lemma blen_nonneg a : 0 <= blen a.
Proof. unfold blen. lia. Qed.

Lemma blen_to_be n z : blen (to_be n z) = Z.of_nat n.
Proof. unfold blen. by rewrite to_be_length. Qed.

Lemma get_range_app_exact a b c :
  get_range (a ++ b ++ c) (blen a) (blen a + blen b) = Some b.
Proof.
  unfold get_range. rewrite !blen_app.
  pose proof (blen_nonneg a); pose proof (blen_nonneg b); pose proof (blen_nonneg c).
  repeat (rewrite (proj2 (Z.leb_le _ _)) by lia). cbn [andb].
  unfold blen. rewrite Nat2Z.id.
  replace (Z.to_nat (_ + _ - _)) with (length b) by lia.
  by rewrite drop_app_length, take_app_length.
Qed.

Lemma get_range_Some l a b r :
  get_range l a b = Some r ->
  0 <= a <= b /\ b <= blen l /\ blen r = b - a /\
  l = take (Z.to_nat a) l ++ r ++ drop (Z.to_nat b) l.
Proof.
  unfold get_range. intros H.
  destruct (_ && _) eqn:E; [|done].
  apply andb_true_iff in E as [[E1 E2]%andb_true_iff E3].
  apply Z.leb_le in E1, E2, E3. injection H as <-. unfold blen in *.
  rewrite length_take, length_drop. repeat split; try lia.
  rewrite <- (take_drop (Z.to_nat a) l) at 1. f_equal.
  rewrite <- (take_drop (Z.to_nat (b - a)) (drop (Z.to_nat a) l)) at 1.
  rewrite drop_drop. do 2 f_equal. lia.
Qed.

Lemma get_from_drop l a :
  0 <= a <= blen l -> get_from l a = Some (drop (Z.to_nat a) l).
Proof.
  intros H. unfold get_from, get_range.
  repeat (rewrite (proj2 (Z.leb_le _ _)) by lia). cbn [andb].
  by rewrite take_ge by (rewrite length_drop; unfold blen in *; lia).
Qed.

(** ** Automation *)

Create HintDb shp.
Create Rewrite HintDb shp.
#[export] Hint Resolve to_be_ok blen_nonneg : shp.
#[export] Hint Rewrite blen_app blen_to_be @length_app to_be_length : shp.

(** Folds [from_be [..; z mod 256]] back into [from_be (to_be n z)]. *)
Ltac refold_be :=
  repeat match goal with
  | |- context [from_be [?a; ?z mod 256]] =>
      progress change (from_be [a; z mod 256]) with (from_be (to_be 2 z))
  | |- context [from_be [0; ?b; ?c; ?z mod 256]] =>
      progress change (from_be [0; b; c; z mod 256]) with (from_be (to_be 3 z))
  | |- context [from_be [?a; ?b; ?c; ?z mod 256]] =>
      progress change (from_be [a; b; c; z mod 256]) with (from_be (to_be 4 z))
  | |- context [from_be [?a; ?b; ?c; ?d; ?e; ?f; ?g; ?z mod 256]] =>
      progress change (from_be [a; b; c; d; e; f; g; z mod 256]) with (from_be (to_be 8 z))
  end.

(** Splits on every boolean comparison and option/result scrutinee in the goal. *)
Ltac simplify_bool :=
  repeat match goal with
  | H : (_ <? _) = true |- _ => apply Z.ltb_lt in H
  | H : (_ <? _) = false |- _ => apply Z.ltb_ge in H
  | H : (_ <=? _) = true |- _ => apply Z.leb_le in H
  | H : (_ <=? _) = false |- _ => apply Z.leb_gt in H
  | H : (_ =? _) = true |- _ => apply Z.eqb_eq in H
  | H : (_ =? _) = false |- _ => apply Z.eqb_neq in H
  | H : _ && _ = true |- _ => apply andb_true_iff in H as [? ?]
  | H : _ || _ = false |- _ => apply orb_false_iff in H as [? ?]
  | H : negb _ = true |- _ => apply negb_true_iff in H
  | H : negb _ = false |- _ => apply negb_false_iff in H
  end.

(** Byte ranges of literal lists. *)
Ltac solve_bytes_ok :=
  unfold bytes_ok;
  repeat first [ apply to_be_ok | apply Forall_nil_2 | apply Forall_cons_2
               | apply Forall_app_2
               | apply Forall_drop | apply is_u8_mod
               | assumption | solve [auto with shp] | solve [unfold is_u8 in *; lia] ].

(** ** Byte layouts *)

Lemma to_signed_be z : is_i64 z -> to_signed 64 (from_be (to_be 8 z)) = z.
Proof.
  unfold is_i64, i64_min, i64_max. intros Hz. rewrite from_be_to_be.
  change (256 ^ Z.of_nat 8) with 18446744073709551616. unfold to_signed.
  change (2 ^ (64 - 1)) with 9223372036854775808. change (2 ^ 64) with 18446744073709551616.
  destruct (decide (0 <= z)).
  - rewrite Z.mod_small by lia. rewrite (proj2 (Z.ltb_lt _ _)) by lia. done.
  - rewrite <- (Z.mod_add z 1), Z.mod_small by lia. rewrite (proj2 (Z.ltb_ge _ _)) by lia. lia.
Qed.

Lemma be_to_signed l :
  bytes_ok l -> blen l = 8 ->
  is_i64 (to_signed 64 (from_be l)) /\ to_be 8 (to_signed 64 (from_be l)) = l.
Proof.
  intros Hb Hl. pose proof (from_be_range l Hb) as Hr. rewrite Hl in Hr.
  change (256 ^ 8) with 18446744073709551616 in Hr.
  assert (length l = 8%nat) as Hn by (unfold blen in Hl; lia).
  unfold to_signed, is_i64, i64_min, i64_max.
  change (2 ^ (64 - 1)) with 9223372036854775808. change (2 ^ 64) with 18446744073709551616.
  destruct (_ <? _) eqn:E; simplify_bool.
  - split; [lia|]. rewrite <- Hn at 1. by apply to_be_from_be.
  - split; [lia|]. rewrite <- (to_be_from_be l Hb) at 2. rewrite Hn.
    rewrite <- (from_be_to_be_small 8 (from_be l)) at 2 by (cbn; lia).
    rewrite <- (to_be_from_be (to_be 8 _)) by apply to_be_ok.
    rewrite !to_be_length, !from_be_to_be. f_equal.
    change (256 ^ Z.of_nat 8) with 18446744073709551616.
    rewrite <- (Z.mod_add _ 1) by lia. rewrite Z.mul_1_l, Z.sub_add. done.
Qed.

Lemma get_range_at l a b c lo hi :
  l = a ++ b ++ c -> blen a = lo -> lo + blen b = hi -> get_range l lo hi = Some b.
Proof. intros -> <- <-. apply get_range_app_exact. Qed.

Lemma get_from_at l a b lo : l = a ++ b -> blen a = lo -> get_from l lo = Some b.
Proof.
  intros -> <-. unfold get_from. apply (get_range_at _ a b []); [by rewrite app_nil_r|done|].
  by rewrite blen_app.
Qed.

Lemma split_blen (l : bytes) n m :
  blen l = n + m -> 0 <= n -> 0 <= m -> exists a b, l = a ++ b /\ blen a = n /\ blen b = m.
Proof.
  unfold blen. intros Hl Hn Hm. exists (take (Z.to_nat n) l), (drop (Z.to_nat n) l).
  rewrite take_drop, length_take, length_drop. split; [done|lia].
Qed.

Lemma singleton_blen (l : bytes) : blen l = 1 -> exists b, l = [b].
Proof. unfold blen. destruct l as [|b [|]]; cbn; try lia. eauto. Qed.

(** *** Fixed layouts

    A byte string cut into fields of given widths, and the reads of single fields. *)

Definition sumZ (l : list Z) : Z := foldr Z.add 0 l.

Lemma split_widths ws l :
  Forall (Z.le 0) ws -> blen l = sumZ ws -> exists ps, l = concat ps /\ map blen ps = ws.
Proof.
  revert l. induction ws as [|w ws IH]; intros l Hw Hl; cbn in Hl.
  - exists []. split; [|done]. destruct l; [done|unfold blen in Hl; cbn in Hl; lia].
  - inversion Hw as [|?? H0 Hws]; subst.
    assert (0 <= sumZ ws) as Hs.
    { clear -Hws. unfold sumZ. induction Hws; cbn; lia. }
    destruct (split_blen l w (sumZ ws) Hl H0 Hs) as (a & r & -> & Ha & Hr).
    destruct (IH r Hws Hr) as (ps & -> & <-). exists (a :: ps). cbn. by rewrite Ha.
Qed.

Lemma blen_concat ps : blen (concat ps) = sumZ (map blen ps).
Proof. induction ps as [|p ps IH]; cbn; [done|]. by rewrite blen_app, IH. Qed.

Lemma get_range_concat ps i p lo hi :
  ps !! i = Some p -> sumZ (map blen (take i ps)) = lo -> lo + blen p = hi ->
  get_range (concat ps) lo hi = Some p.
Proof.
  intros Hi <- <-. rewrite <- blen_concat.
  apply (get_range_at _ (concat (take i ps)) p (concat (drop (S i) ps))); [|done..].
  rewrite <- (take_drop_middle ps i p Hi) at 1. by rewrite concat_app.
Qed.

Lemma lookup_concat ps i b lo :
  ps !! i = Some [b] -> sumZ (map blen (take i ps)) = lo ->
  concat ps !! Z.to_nat lo = Some b.
Proof.
  intros Hi <-. rewrite <- blen_concat.
  assert (concat ps = concat (take i ps) ++ [b] ++ concat (drop (S i) ps)) as ->.
  { rewrite <- (take_drop_middle ps i [b] Hi) at 1. by rewrite concat_app. }
  unfold blen. rewrite Nat2Z.id. by rewrite lookup_app_r, Nat.sub_diag by done.
Qed.

Lemma to_be_from_be_len l n : bytes_ok l -> blen l = Z.of_nat n -> to_be n (from_be l) = l.
Proof.
  intros Hb Hn. replace n with (length l) by (unfold blen in Hn; lia). by apply to_be_from_be.
Qed.

(** ** [slice::sort_by_key]

    Rust's [sort_by_key] is stable, so its result is determined: elements in ascending order of
    their keys, elements with equal keys in their original order.  Insertion from the right
    computes it.  [std::cmp::Reverse] of an unsigned key is the key negated. *)

Section Sort.
Context {A : Type} (key : A -> Z).

Fixpoint insert_key (x : A) (l : list A) : list A :=
  match l with
  | [] => [x]
  | y :: l' => if key x <=? key y then x :: l else y :: insert_key x l'
  end.

Definition sort_by_key (l : list A) : list A := foldr insert_key [] l.

Lemma insert_key_perm x l : insert_key x l ≡ₚ x :: l.
Proof.
  induction l as [|y l IH]; cbn [insert_key]; [done|]. destruct (key x <=? key y); [done|].
  rewrite IH. apply perm_swap.
Qed.

Lemma sort_by_key_perm l : sort_by_key l ≡ₚ l.
Proof.
  induction l as [|x l IH]; [done|]. cbn [sort_by_key foldr]. fold (sort_by_key l).
  by rewrite insert_key_perm, IH.
Qed.

Lemma insert_key_sorted x l :
  StronglySorted (fun a b => key a <= key b) l -> StronglySorted (fun a b => key a <= key b) (insert_key x l).
Proof.
  induction 1 as [|y l Hs IH Hf]; cbn [insert_key]; [by repeat constructor|].
  destruct (Z.leb_spec (key x) (key y)).
  - constructor; [by constructor|]. constructor; [done|]. eapply list.Forall_impl; [done|]. cbn. lia.
  - constructor; [done|]. rewrite insert_key_perm. constructor; [lia|done].
Qed.

Lemma sort_by_key_sorted l : StronglySorted (fun a b => key a <= key b) (sort_by_key l).
Proof.
  induction l as [|x l IH]; [constructor|]. cbn [sort_by_key foldr]. by apply insert_key_sorted.
Qed.

(** Stability: the elements of one key keep their order. *)
Lemma insert_key_filter x l k :
  StronglySorted (fun a b => key a <= key b) l ->
  filter (fun y => key y = k) (insert_key x l) = filter (fun y => key y = k) (x :: l).
Proof.
  induction 1 as [|y l Hs IH Hf]; cbn [insert_key]; [done|].
  destruct (Z.leb_spec (key x) (key y)); [done|].
  rewrite filter_cons, IH, !filter_cons.
  destruct (decide (key y = k)), (decide (key x = k)); try done. lia.
Qed.

Lemma sort_by_key_stable l k :
  filter (fun y => key y = k) (sort_by_key l) = filter (fun y => key y = k) l.
Proof.
  induction l as [|x l IH]; [done|]. cbn [sort_by_key foldr]. fold (sort_by_key l).
  rewrite insert_key_filter by apply sort_by_key_sorted. by rewrite !filter_cons, IH.
Qed.

Lemma sort_by_key_length l : length (sort_by_key l) = length l.
Proof. by rewrite sort_by_key_perm. Qed.

End Sort.

(** ** [tokio::sync::mpsc]

    The bounded channel is third-party code: its operations are those of the class [Mpsc], and
    [MpscLaws] states the documented behaviour the repository relies on, in terms of what a
    channel holds.  [try_send] does not wait: it fails with [Full] when the buffer has no room
    and with [Closed] when the receiver is gone.  [recv] yields the oldest message; it waits on
    an empty channel, and ends when in addition every sender has been dropped. *)

Inductive TrySendError := Full | Closed.

Inductive Recv (A : Type) := Received (a : A) | Waiting | Ended.
Arguments Received {A} _.
Arguments Waiting {A}.
Arguments Ended {A}.

(** What is known of a channel: its buffered messages, the size of its buffer, and which of its
    ends are alive. *)
Record mpsc_view (A : Type) := MpscView {
  buffered : list A;
  max_capacity : Z;
  tx_alive : bool;
  rx_alive : bool;
}.
Arguments MpscView {A} _ _ _ _.
Arguments buffered {A} _.
Arguments max_capacity {A} _.
Arguments tx_alive {A} _.
Arguments rx_alive {A} _.

Class Mpsc (A Q : Type) := {
  mpsc_channel : Z -> Q;
  mpsc_try_send : Q -> A -> Q * result TrySendError unit;
  mpsc_recv : Q -> Q * Recv A;
  mpsc_drop_senders : Q -> Q;
  mpsc_drop_receiver : Q -> Q;
  mpsc_inspect : Q -> mpsc_view A;
}.

Class MpscLaws (A Q : Type) `{Mpsc A Q} : Prop := {
  channel_new cap : 0 < cap -> mpsc_inspect (mpsc_channel cap) = MpscView [] cap true true;
  try_send_room q x v : mpsc_inspect q = v -> rx_alive v = true ->
    Z.of_nat (length (buffered v)) < max_capacity v ->
    exists q', mpsc_try_send q x = (q', Ok tt) /\
      mpsc_inspect q' = MpscView (buffered v ++ [x]) (max_capacity v) (tx_alive v) true;
  try_send_full q x v : mpsc_inspect q = v -> rx_alive v = true ->
    max_capacity v <= Z.of_nat (length (buffered v)) ->
    exists q', mpsc_try_send q x = (q', Err Full) /\ mpsc_inspect q' = v;
  try_send_closed q x v : mpsc_inspect q = v -> rx_alive v = false ->
    exists q', mpsc_try_send q x = (q', Err Closed) /\ mpsc_inspect q' = v;
  recv_oldest q x rest cap tx : mpsc_inspect q = MpscView (x :: rest) cap tx true ->
    exists q', mpsc_recv q = (q', Received x) /\ mpsc_inspect q' = MpscView rest cap tx true;
  recv_empty q cap tx : mpsc_inspect q = MpscView [] cap tx true ->
    exists q', mpsc_recv q = (q', if tx then Waiting else Ended) /\
      mpsc_inspect q' = MpscView [] cap tx true;
  drop_senders_inspect q v : mpsc_inspect q = v ->
    mpsc_inspect (mpsc_drop_senders q) = MpscView (buffered v) (max_capacity v) false (rx_alive v);
  drop_receiver_inspect q v : mpsc_inspect q = v ->
    mpsc_inspect (mpsc_drop_receiver q) = MpscView [] (max_capacity v) (tx_alive v) false;
}.

Arguments mpsc_inspect {A Q _} _.

(** What [try_send] does, whatever the channel holds. *)
Definition has_room {A} (v : mpsc_view A) : bool :=
  rx_alive v && (Z.of_nat (length (buffered v)) <? max_capacity v).

Lemma try_send_cases `{MpscLaws A Q} (q : Q) (x : A) :
  let v := mpsc_inspect q in
  exists q' r, mpsc_try_send q x = (q', r) /\ is_ok r = has_room v /\
    mpsc_inspect q' = if has_room v then MpscView (buffered v ++ [x]) (max_capacity v) (tx_alive v) true else v.
Proof.
  cbn zeta. destruct (mpsc_inspect q) as [b cap tx rx] eqn:E. unfold has_room. cbn [rx_alive buffered max_capacity tx_alive].
  destruct rx; cbn [andb].
  - destruct (Z.ltb_spec (Z.of_nat (length b)) cap).
    + destruct (try_send_room q x _ E) as (q' & -> & Hq); [done|done|]. by eexists _, _.
    + destruct (try_send_full q x _ E) as (q' & -> & Hq); [done|done|]. by eexists _, _.
  - destruct (try_send_closed q x _ E) as (q' & -> & Hq); [done|]. by eexists _, _.
Qed.

(** A list with its bounds, which satisfies the laws. *)
Definition list_recv {A} (v : mpsc_view A) : mpsc_view A * Recv A :=
  match buffered v with
  | x :: rest => (MpscView rest (max_capacity v) (tx_alive v) (rx_alive v), Received x)
  | [] => (v, if tx_alive v then Waiting else Ended)
  end.

#[global] Instance list_mpsc A : Mpsc A (mpsc_view A) := {
  mpsc_channel cap := MpscView [] cap true true;
  mpsc_try_send v x :=
    if negb (rx_alive v) then (v, Err Closed) else
    if Z.of_nat (length (buffered v)) <? max_capacity v
    then (MpscView (buffered v ++ [x]) (max_capacity v) (tx_alive v) true, Ok tt) else (v, Err Full);
  mpsc_recv := list_recv;
  mpsc_drop_senders v := MpscView (buffered v) (max_capacity v) false (rx_alive v);
  mpsc_drop_receiver v := MpscView [] (max_capacity v) (tx_alive v) false;
  mpsc_inspect v := v;
}.

#[global] Instance list_mpsc_laws A : MpscLaws A (mpsc_view A).
Proof.
  split; cbn [mpsc_inspect mpsc_channel mpsc_try_send mpsc_recv mpsc_drop_senders mpsc_drop_receiver list_mpsc];
    try (by intros; subst).
  - intros q x v <- Hr Hl. rewrite Hr, (proj2 (Z.ltb_lt _ _) Hl). by eexists.
  - intros q x v <- Hr Hl. rewrite Hr, (proj2 (Z.ltb_ge _ _) Hl). by eexists.
  - intros q x v <- Hr. rewrite Hr. by eexists.
  - intros q x rest cap tx ->. by eexists.
  - intros q cap tx ->. by eexists.
Qed.
