(* ===== verification/Utf8.v ===== *)
(** * UTF-8, as [core::str] validates and iterates it

    The sources call [core::str::from_utf8], [str::chars] and [char::is_control] on bytes
    that come from the peer.  [utf8_decode] is the standard library's validation automaton
    (the width table and the ranges of the second byte), returning the scalar values that
    [str::chars] yields. *)

From stdpp Require Import base numbers list option.
From S2P Require Import Prelude.

(** A continuation byte: [(b as i8) < -64]. *)
Definition is_cont (b : Z) : bool := (0x80 <=? b) && (b <=? 0xBF).

(** The second byte allowed after the first byte of a three-byte sequence. *)
Definition second_of_3 (b0 b1 : Z) : bool :=
  if b0 =? 0xE0 then (0xA0 <=? b1) && (b1 <=? 0xBF)
  else if b0 =? 0xED then (0x80 <=? b1) && (b1 <=? 0x9F)
  else is_cont b1.

(** The second byte allowed after the first byte of a four-byte sequence. *)
Definition second_of_4 (b0 b1 : Z) : bool :=
  if b0 =? 0xF0 then (0x90 <=? b1) && (b1 <=? 0xBF)
  else if b0 =? 0xF4 then (0x80 <=? b1) && (b1 <=? 0x8F)
  else is_cont b1.

Fixpoint utf8_decode (l : bytes) : option (list Z) :=
  match l with
  | [] => Some []
  | b0 :: r0 =>
    if b0 <? 0x80 then cons b0 <$> utf8_decode r0
    else match r0 with
    | [] => None
    | b1 :: r1 =>
      if (0xC2 <=? b0) && (b0 <=? 0xDF) then
        if is_cont b1
        then cons ((b0 - 0xC0) * 64 + (b1 - 0x80)) <$> utf8_decode r1
        else None
      else match r1 with
      | [] => None
      | b2 :: r2 =>
        if (0xE0 <=? b0) && (b0 <=? 0xEF) then
          if second_of_3 b0 b1 && is_cont b2
          then cons ((b0 - 0xE0) * 4096 + (b1 - 0x80) * 64 + (b2 - 0x80))
                 <$> utf8_decode r2
          else None
        else match r2 with
        | [] => None
        | b3 :: r3 =>
          if (0xF0 <=? b0) && (b0 <=? 0xF4) then
            if second_of_4 b0 b1 && is_cont b2 && is_cont b3
            then cons ((b0 - 0xF0) * 262144 + (b1 - 0x80) * 4096
                       + (b2 - 0x80) * 64 + (b3 - 0x80)) <$> utf8_decode r3
            else None
          else None
        end
      end
    end
  end.

(** [core::str::from_utf8(b).is_ok()]. *)
Definition utf8_valid (l : bytes) : bool :=
  match utf8_decode l with Some _ => true | None => false end.

(** [char::is_control]: the general category [Cc]. *)
Definition is_control (c : Z) : bool :=
  (c <=? 0x1F) || ((0x7F <=? c) && (c <=? 0x9F)).

(** [str::as_bytes] of the string with these scalar values. *)
Definition utf8_encode_char (c : Z) : bytes :=
  if c <? 0x80 then [c]
  else if c <? 0x800 then [0xC0 + c / 64; 0x80 + c mod 64]
  else if c <? 0x10000 then
    [0xE0 + c / 4096; 0x80 + (c / 64) mod 64; 0x80 + c mod 64]
  else [0xF0 + c / 262144; 0x80 + (c / 4096) mod 64; 0x80 + (c / 64) mod 64;
        0x80 + c mod 64].

Definition utf8_encode (cs : list Z) : bytes := concat (map utf8_encode_char cs).

(** A Unicode scalar value ([char]). *)
Definition is_scalar (c : Z) : Prop :=
  0 <= c < 0xD800 \/ 0xE000 <= c < 0x110000.

Local Ltac arith := Z.div_mod_to_equations; lia.

Local Ltac decide_test :=
  match goal with
  | |- context [?a <? ?b] =>
      first [ rewrite (proj2 (Z.ltb_lt a b)) by arith
            | rewrite (proj2 (Z.ltb_ge a b)) by arith ]
  | |- context [?a <=? ?b] =>
      first [ rewrite (proj2 (Z.leb_le a b)) by arith
            | rewrite (proj2 (Z.leb_gt a b)) by arith ]
  | |- context [?a =? ?b] =>
      first [ rewrite (proj2 (Z.eqb_eq a b)) by arith
            | rewrite (proj2 (Z.eqb_neq a b)) by arith ]
  end; cbn [andb orb].

Lemma utf8_decode_char c r :
  is_scalar c -> utf8_decode (utf8_encode_char c ++ r) = cons c <$> utf8_decode r.
Proof.
  intros Hc. unfold utf8_encode_char.
  destruct (Z.ltb_spec c 0x80); [|destruct (Z.ltb_spec c 0x800);
    [|destruct (Z.ltb_spec c 0x10000)]]; cbn [app utf8_decode];
    unfold is_scalar in Hc.
  - repeat decide_test. done.
  - unfold is_cont. repeat decide_test. f_equal. f_equal. arith.
  - unfold second_of_3, is_cont.
    destruct (decide (c / 4096 = 0)) as [E|E];
      [|destruct (decide (c / 4096 = 13)) as [E'|E']]; repeat decide_test;
      do 2 f_equal; arith.
  - unfold second_of_4, is_cont.
    destruct (decide (c / 262144 = 0)) as [E|E];
      [|destruct (decide (c / 262144 = 4)) as [E'|E']]; repeat decide_test;
      do 2 f_equal; arith.
Qed.

(** Decoding recovers every string of scalar values: the validation accepts exactly what
    [as_bytes] produces and loses nothing. *)
Lemma utf8_decode_encode cs : Forall is_scalar cs -> utf8_decode (utf8_encode cs) = Some cs.
Proof.
  unfold utf8_encode. induction 1 as [|c cs Hc _ IH]; [done|].
  cbn [map concat]. by rewrite utf8_decode_char, IH.
Qed.

Lemma utf8_valid_Some l : utf8_valid l = true <-> exists cs, utf8_decode l = Some cs.
Proof.
  unfold utf8_valid. destruct (utf8_decode l); split; eauto; [done|].
  by intros [? [=]].
Qed.

(** ASCII bytes are their own characters. *)
Lemma utf8_decode_ascii l :
  Forall (fun b => 0 <= b < 0x80) l -> utf8_decode l = Some l.
Proof.
  induction 1 as [|b l Hb _ IH]; [done|]. cbn [utf8_decode].
  rewrite (proj2 (Z.ltb_lt _ _)) by lia. by rewrite IH.
Qed.

(** One decoding step: the first character and the bytes it takes. *)
Lemma utf8_decode_step l cs :
  utf8_decode l = Some cs -> l <> [] ->
  exists w c r cs', l = w ++ r /\ w <> [] /\ cs = c :: cs' /\ utf8_decode r = Some cs' /\
    (w = [c] /\ c < 0x80 \/ Forall (fun b => 0x80 <= b) w /\ 0x80 <= c).
Proof.
  intros Hd Hne. destruct l as [|b0 r0]; [done|]. cbn [utf8_decode] in Hd.
  destruct (b0 <? 0x80) eqn:E0.
  { simplify_bool. apply fmap_Some in Hd as (cs' & Hr & ->). exists [b0], b0, r0, cs'. auto 10. }
  destruct r0 as [|b1 r1]; [done|]. destruct (_ && (b0 <=? 0xDF)) eqn:E2.
  { unfold is_cont in Hd. destruct (_ && (b1 <=? 0xBF)) eqn:E2'; [|done]. simplify_bool.
    apply fmap_Some in Hd as (cs' & Hr & ->).
    eexists [b0; b1], _, r1, cs'. split_and!; try done. right.
    split; [repeat constructor; lia|lia]. }
  destruct r1 as [|b2 r2]; [done|]. destruct (_ && (b0 <=? 0xEF)) eqn:E3.
  { unfold second_of_3, is_cont in Hd. destruct (_ && (_ && (b2 <=? 0xBF))) eqn:E3'; [|done].
    apply fmap_Some in Hd as (cs' & Hr & ->).
    eexists [b0; b1; b2], _, r2, cs'. split_and!; try done. right. clear -E0 E2 E3 E3'.
    destruct (b0 =? 0xE0) eqn:?, (b0 =? 0xED) eqn:?; simplify_bool; (split; [repeat constructor; lia|lia]). }
  destruct r2 as [|b3 r3]; [done|]. destruct (_ && (b0 <=? 0xF4)) eqn:E4; [|done].
  unfold second_of_4, is_cont in Hd. destruct (_ && (_ && (b3 <=? 0xBF))) eqn:E4'; [|done].
  apply fmap_Some in Hd as (cs' & Hr & ->).
  eexists [b0; b1; b2; b3], _, r3, cs'. split_and!; try done. right. clear -E0 E2 E3 E4 E4'.
  destruct (b0 =? 0xF0) eqn:?, (b0 =? 0xF4) eqn:?; simplify_bool; (split; [repeat constructor; lia|lia]).
Qed.

(** On bytes, the first character of a valid string is a scalar value, and the bytes it takes are
    its encoding. *)
Lemma utf8_decode_first l cs :
  utf8_decode l = Some cs -> bytes_ok l -> l <> [] ->
  exists c r cs', l = utf8_encode_char c ++ r /\ is_scalar c /\ cs = c :: cs' /\ utf8_decode r = Some cs'.
Proof.
  intros Hd Hb Hne. destruct l as [|b0 r0]; [done|]. cbn [utf8_decode] in Hd.
  apply Forall_cons_1 in Hb as [B0 Hb]. unfold is_u8 in B0.
  destruct (b0 <? 0x80) eqn:E0; simplify_bool.
  { apply fmap_Some in Hd as (cs' & Hr & ->). exists b0, r0, cs'. unfold utf8_encode_char, is_scalar.
    decide_test. split_and!; try done. lia. }
  destruct r0 as [|b1 r1]; [done|]. apply Forall_cons_1 in Hb as [B1 Hb]. unfold is_u8 in B1.
  destruct (_ && (b0 <=? 0xDF)) eqn:E2.
  { unfold is_cont in Hd. destruct (_ && (b1 <=? 0xBF)) eqn:E2'; [|done]. simplify_bool.
    apply fmap_Some in Hd as (cs' & Hr & ->). eexists _, r1, cs'. unfold utf8_encode_char, is_scalar.
    split_and!; [| |done|done]; [|lia]. repeat decide_test. by repeat (apply (f_equal2 cons); [arith|]). }
  destruct r1 as [|b2 r2]; [done|]. apply Forall_cons_1 in Hb as [B2 Hb]. unfold is_u8 in B2.
  destruct (_ && (b0 <=? 0xEF)) eqn:E3.
  { unfold second_of_3, is_cont in Hd. destruct (_ && (_ && (b2 <=? 0xBF))) eqn:E3'; [|done].
    apply fmap_Some in Hd as (cs' & Hr & ->). eexists _, r2, cs'. unfold utf8_encode_char, is_scalar.
    destruct (b0 =? 0xE0) eqn:Ea, (b0 =? 0xED) eqn:Eb; simplify_bool; try lia;
      (split_and!; [| |done|done]; [repeat decide_test; by repeat (apply (f_equal2 cons); [arith|])|lia]). }
  destruct r2 as [|b3 r3]; [done|]. apply Forall_cons_1 in Hb as [B3 Hb]. unfold is_u8 in B3.
  destruct (_ && (b0 <=? 0xF4)) eqn:E4; [|done].
  unfold second_of_4, is_cont in Hd. destruct (_ && (_ && (b3 <=? 0xBF))) eqn:E4'; [|done].
  apply fmap_Some in Hd as (cs' & Hr & ->). eexists _, r3, cs'. unfold utf8_encode_char, is_scalar.
  destruct (b0 =? 0xF0) eqn:Ea, (b0 =? 0xF4) eqn:Eb; simplify_bool; try lia;
    (split_and!; [| |done|done]; [repeat decide_test; by repeat (apply (f_equal2 cons); [arith|])|lia]).
Qed.

Lemma utf8_encode_char_nonempty c : utf8_encode_char c <> [].
Proof. unfold utf8_encode_char. by repeat case_match. Qed.

(** A valid byte string is the encoding of its characters, which are scalar values. *)
Lemma utf8_encode_decode l cs :
  utf8_decode l = Some cs -> bytes_ok l -> utf8_encode cs = l /\ Forall is_scalar cs.
Proof.
  intros Hd Hb. remember (length l) as n eqn:Hn. revert l cs Hn Hd Hb.
  induction n as [n IH] using lt_wf_ind. intros l cs Hn Hd Hb.
  destruct (decide (l = [])) as [->|Hne]; [by injection Hd as <-|].
  destruct (utf8_decode_first l cs Hd Hb Hne) as (c & r & cs' & -> & Hc & -> & Hr).
  apply Forall_app in Hb as [_ Hb].
  destruct (IH (length r)) with (l := r) (cs := cs') as [He Hs]; try done.
  { rewrite Hn, length_app. pose proof (utf8_encode_char_nonempty c). destruct (utf8_encode_char c); [done|cbn; lia]. }
  unfold utf8_encode in *. cbn [map concat]. rewrite He. auto.
Qed.

(** The ASCII characters of a string are exactly its ASCII bytes. *)
Lemma utf8_ascii_iff l cs c :
  utf8_decode l = Some cs -> c < 0x80 -> c ∈ cs <-> c ∈ l.
Proof.
  intros Hd Hc. remember (length l) as n eqn:Hn. revert l cs Hn Hd.
  induction n as [n IH] using lt_wf_ind. intros l cs Hn Hd.
  destruct (decide (l = [])) as [->|Hne]; [by injection Hd as <-|].
  destruct (utf8_decode_step l cs Hd Hne) as (w & c0 & r & cs' & -> & Hw & -> & Hr & Hcase).
  assert (c ∈ cs' <-> c ∈ r) as Hrec.
  { apply (IH (length r)); [|done|done]. rewrite Hn, length_app. destruct w; [done|cbn; lia]. }
  rewrite elem_of_cons, elem_of_app, Hrec. destruct Hcase as [[-> _]|[Hf H0]].
  - by rewrite list_elem_of_singleton.
  - split; intros [H|H]; auto; [lia|]. apply list_elem_of_In in H. rewrite List.Forall_forall in Hf. specialize (Hf c H). lia.
Qed.

(** ** [String::from_utf8_lossy]

    The standard library walks the bytes in chunks: a well-formed character is kept, and the
    longest prefix of an ill-formed one that could still have become well formed is replaced by
    one U+FFFD.  [lossy_step] says which of the two comes next and how many bytes it takes;
    reading past the end gives 0, as [safe_get] there. *)
Definition REPLACEMENT : bytes := [0xEF; 0xBF; 0xBD].

Definition lossy_step (b0 : Z) (r : bytes) : bool * nat :=
  let b1 := nth 0 r 0 in
  let b2 := nth 1 r 0 in
  let b3 := nth 2 r 0 in
  if b0 <? 0x80 then (true, 1%nat)
  else if (0xC2 <=? b0) && (b0 <=? 0xDF) then
    if is_cont b1 then (true, 2%nat) else (false, 1%nat)
  else if (0xE0 <=? b0) && (b0 <=? 0xEF) then
    if second_of_3 b0 b1 then if is_cont b2 then (true, 3%nat) else (false, 2%nat)
    else (false, 1%nat)
  else if (0xF0 <=? b0) && (b0 <=? 0xF4) then
    if second_of_4 b0 b1 then
      if is_cont b2 then if is_cont b3 then (true, 4%nat) else (false, 3%nat) else (false, 2%nat)
    else (false, 1%nat)
  else (false, 1%nat).

(** Every chunk takes at least one byte, so one unit of fuel per byte is enough. *)
Fixpoint lossy_loop (fuel : nat) (l : bytes) : bytes :=
  match fuel, l with
  | O, _ | _, [] => []
  | S n, b0 :: r =>
      let '(good, w) := lossy_step b0 r in
      (if good then take w l else REPLACEMENT) ++ lossy_loop n (drop w l)
  end.

Definition from_utf8_lossy (l : bytes) : bytes := lossy_loop (length l) l.

Lemma lossy_loop_valid n l cs :
  (length l <= n)%nat -> utf8_decode l = Some cs -> lossy_loop n l = l.
Proof.
  revert l cs. induction n as [|n IH]; intros l cs Hn Hd; [by destruct l; cbn in Hn; [|lia]|].
  destruct l as [|b0 r0]; [done|]. cbn [lossy_loop utf8_decode length] in *.
  unfold lossy_step. destruct (b0 <? 0x80).
  { apply fmap_Some in Hd as (cs' & Hr & _). cbn. f_equal. eapply IH; [lia|done]. }
  destruct r0 as [|b1 r1]; [done|]. destruct (_ && (b0 <=? 0xDF)).
  { cbn [nth]. destruct (is_cont b1); [|done]. apply fmap_Some in Hd as (cs' & Hr & _).
    cbn in Hn |- *. do 2 f_equal. eapply IH; [lia|done]. }
  destruct r1 as [|b2 r2]; [done|]. destruct (_ && (b0 <=? 0xEF)).
  { cbn [nth]. destruct (second_of_3 b0 b1); [|done]. destruct (is_cont b2); [|done].
    apply fmap_Some in Hd as (cs' & Hr & _). cbn in Hn |- *. do 3 f_equal. eapply IH; [lia|done]. }
  destruct r2 as [|b3 r3]; [done|]. destruct (_ && (b0 <=? 0xF4)); [|done]. cbn [nth].
  destruct (second_of_4 b0 b1); [|done]. destruct (is_cont b2); [|done].
  destruct (is_cont b3); [|done]. apply fmap_Some in Hd as (cs' & Hr & _).
  cbn in Hn |- *. do 4 f_equal. eapply IH; [lia|done].
Qed.

(** Well-formed text is unchanged. *)
Lemma from_utf8_lossy_valid l : utf8_valid l = true -> from_utf8_lossy l = l.
Proof. intros [cs Hd]%utf8_valid_Some. by eapply lossy_loop_valid. Qed.
