(* ===== verification/Float64.v ===== *)
(** * [f64] and [Duration]

    Rust's [f64] is IEEE 754 binary64 with rounding to nearest even, which the Standard
    Library specifies as [spec_float] with its operations at precision 53 and maximal exponent
    1024.  This file fixes those parameters, adds what Rust's standard library builds on top
    ([max], [min], [clamp], the saturating casts) and the conversions between [f64] and
    [Duration].  A [Duration] is its number of nanoseconds, an [Instant] the number of
    nanoseconds since some origin.  A literal is a correctly rounded quotient of integers.

    The second part bounds results: [fin_le x B] says that [x] is finite, not negative and at
    most [B] (in units of [2^-1074], of which every finite [f64] is a multiple), and the lemmas
    carry such bounds through the rounded operations. *)

From Stdlib Require Import SpecFloat.
From stdpp Require Import base numbers list option.
From S2P Require Import Prelude.

Definition f64 : Type := spec_float.

Definition f_add : f64 -> f64 -> f64 := SFadd 53 1024.
Definition f_sub : f64 -> f64 -> f64 := SFsub 53 1024.
Definition f_mul : f64 -> f64 -> f64 := SFmul 53 1024.
Definition f_div : f64 -> f64 -> f64 := SFdiv 53 1024.
Definition f_lt : f64 -> f64 -> bool := SFltb.
Definition f_le : f64 -> f64 -> bool := SFleb.

Definition is_nan (x : f64) : bool := match x with S754_nan => true | _ => false end.

Definition f_is_finite (x : f64) : bool :=
  match x with S754_zero _ | S754_finite _ _ _ => true | _ => false end.

(** [z as f64] and literals [n / d]. *)
Definition f_of_Z (z : Z) : f64 := binary_normalize 53 1024 z 0 false.
Definition f_lit (n d : Z) : f64 := f_div (f_of_Z n) (f_of_Z d).
Definition f_zero : f64 := S754_zero false.
Definition f_one : f64 := f_of_Z 1.

(** [f64::max] and [f64::min] return the other argument when one is NaN. *)
Definition f_max (x y : f64) : f64 :=
  if is_nan x then y else if is_nan y then x else if f_lt x y then y else x.
Definition f_min (x y : f64) : f64 :=
  if is_nan x then y else if is_nan y then x else if f_lt y x then y else x.

(** [f64::clamp], which panics ([None]) unless [lo <= hi]; NaN stays NaN. *)
Definition f_clamp (x lo hi : f64) : option f64 :=
  if f_le lo hi
  then Some (let x := if f_lt x lo then lo else x in if f_lt hi x then hi else x)
  else None.

(** [x as u64]: truncation, saturating, NaN to zero. *)
Definition f_to_u64 (x : f64) : Z :=
  match x with
  | S754_nan | S754_zero _ => 0
  | S754_infinity s => if s then 0 else u64_max
  | S754_finite true _ _ => 0
  | S754_finite false m e =>
      Z.min u64_max (if 0 <=? e then Zpos m * 2 ^ e else Zpos m / 2 ^ (- e))
  end.

(** ** Durations in nanoseconds *)

Definition NANOS_PER_SEC : Z := 1000000000.
Definition DURATION_MAX : Z := (u64_max + 1) * NANOS_PER_SEC - 1.
Definition from_millis (n : Z) : Z := n * 1000000.
Definition from_micros (n : Z) : Z := n * 1000.
Definition from_secs (n : Z) : Z := n * NANOS_PER_SEC.

Definition as_secs_f64 (d : Z) : f64 :=
  f_add (f_of_Z (d / NANOS_PER_SEC)) (f_div (f_of_Z (d mod NANOS_PER_SEC)) (f_of_Z NANOS_PER_SEC)).

(** Nanoseconds of [m * 2^e] seconds, rounded to nearest, ties to even. *)
Definition round_nanos (m e : Z) : Z :=
  if 0 <=? e then m * 2 ^ e * NANOS_PER_SEC else
  let d := 2 ^ (- e) in
  let q := m * NANOS_PER_SEC / d in
  let r := m * NANOS_PER_SEC mod d in
  if (2 * r <? d) || ((2 * r =? d) && Z.even q) then q else q + 1.

(** [Duration::try_from_secs_f64]; [from_secs_f64] panics where this gives [None]. *)
Definition try_from_secs_f64 (x : f64) : option Z :=
  match x with
  | S754_zero _ => Some 0
  | S754_finite false m e =>
      if (if 0 <=? e then Zpos m * 2 ^ e else Zpos m / 2 ^ (- e)) <=? u64_max
      then Some (round_nanos (Zpos m) e) else None
  | _ => None
  end.

(** [Instant::checked_duration_since] and [saturating_duration_since]. *)
Definition checked_duration_since (now earlier : Z) : option Z :=
  if now <? earlier then None else Some (now - earlier).
Definition saturating_duration_since (now earlier : Z) : Z := Z.max 0 (now - earlier).

(** ** Comparisons *)

Lemma SFcompare_swap x y :
  SFcompare y x = match SFcompare x y with Some c => Some (CompOpp c) | None => None end.
Proof.
  destruct x as [s1|s1| |s1 m1 e1], y as [s2|s2| |s2 m2 e2]; try by (try destruct s1; try destruct s2).
  cbn [SFcompare]. rewrite (Z.compare_antisym e1 e2).
  assert (Pos.compare_cont Eq m2 m1 = CompOpp (Pos.compare_cont Eq m1 m2)) as E
    by (apply Pos.compare_antisym).
  destruct s1, s2, (e1 ?= e2); cbn; by rewrite ?E, ?CompOpp_involutive.
Qed.

Lemma f_lt_ge x y : is_nan x = false -> is_nan y = false -> f_lt x y = false -> f_le y x = true.
Proof.
  unfold f_lt, f_le, SFltb, SFleb. intros Hx Hy. rewrite (SFcompare_swap x y).
  destruct x as [?|?| |? ? ?], y as [?|?| |? ? ?]; try done; destruct (SFcompare _ _) as [[]|] eqn:E; done.
Qed.

Lemma f_lt_le x y : f_lt x y = true -> f_le x y = true.
Proof. unfold f_lt, f_le, SFltb, SFleb. by destruct (SFcompare x y) as [[]|]. Qed.

Lemma f_le_refl x : is_nan x = false -> f_le x x = true.
Proof.
  unfold f_le, SFleb. pose proof (SFcompare_swap x x) as H. intros Hx.
  assert (SFcompare x x <> None) as Hn by (destruct x as [?|?| |? ? ?]; done).
  by destruct (SFcompare x x) as [[]|].
Qed.

(** What [clamp] and [max] guarantee of a number that is not NaN. *)
Lemma f_clamp_bounds x lo hi y :
  is_nan x = false -> is_nan lo = false -> is_nan hi = false -> f_clamp x lo hi = Some y ->
  is_nan y = false /\ f_le lo y = true /\ f_le y hi = true.
Proof.
  unfold f_clamp. intros Hx Hl Hh. destruct (f_le lo hi) eqn:E; [|done]. intros H. apply (inj Some) in H as <-.
  destruct (f_lt x lo) eqn:E1.
  - destruct (f_lt hi lo) eqn:E2; [by rewrite f_le_refl|]. by rewrite f_le_refl.
  - destruct (f_lt hi x) eqn:E2; [by rewrite f_le_refl|].
    split; [done|]. split; by apply f_lt_ge.
Qed.

(** ** Rounding keeps representable upper bounds *)

Lemma digits_bound p : 2 ^ (Zpos (digits2_pos p) - 1) <= Zpos p < 2 ^ Zpos (digits2_pos p).
Proof.
  induction p as [p IH|p IH|]; cbn [digits2_pos]; [| |done].
  all: rewrite Pos2Z.inj_succ; unfold Z.succ;
    replace (Zpos (digits2_pos p) + 1 - 1) with (Zpos (digits2_pos p) - 1 + 1) by lia;
    rewrite !Z.pow_add_r, Z.pow_1_r by lia; lia.
Qed.

Lemma digits_nonneg m : 0 <= Zdigits2 m.
Proof. by destruct m. Qed.

Lemma digits_le m c j e :
  0 < m -> 0 <= e -> 0 <= j -> m * 2 ^ e <= c * 2 ^ j -> c < 2 ^ 53 -> Zdigits2 m + e <= 53 + j.
Proof.
  intros Hm He Hj Hle Hc. destruct m as [|p|]; try lia. cbn [Zdigits2]. pose proof (digits_bound p) as [Hd _].
  assert (2 ^ (Zpos (digits2_pos p) - 1 + e) < 2 ^ (53 + j)) as H.
  { rewrite !Z.pow_add_r by lia. eapply Z.le_lt_trans; [apply Z.mul_le_mono_nonneg_r; [lia|apply Hd]|].
    eapply Z.le_lt_trans; [apply Hle|]. apply Z.mul_lt_mono_pos_r; lia. }
  apply Z.pow_lt_mono_r_iff in H; lia.
Qed.

Lemma iter_pos_iter {A} (f : A -> A) (p : positive) (x : A) : SpecFloat.iter_pos f p x = Nat.iter (Pos.to_nat p) f x.
Proof.
  revert x. induction p as [p IH|p IH|]; intros x; cbn [SpecFloat.iter_pos]; [| |done].
  - rewrite !IH, Pos2Nat.inj_xI, <- Nat.iter_add, <- Nat.iter_succ_r. f_equal. lia.
  - rewrite !IH, Pos2Nat.inj_xO, <- Nat.iter_add. f_equal. lia.
Qed.

(** The smallest integer not below the number a shift record stands for. *)
Definition shr_up (r : shr_record) : Z :=
  shr_m r + (if shr_r r || shr_s r then 1 else 0).

Lemma shr_1_up r K : 0 <= shr_m r -> shr_up r <= 2 * K -> 0 <= shr_m (shr_1 r) /\ shr_up (shr_1 r) <= K.
Proof.
  destruct r as [m r s]. unfold shr_up. cbn [shr_m shr_r shr_s]. intros Hm Hu.
  destruct m as [|[p|p|]|]; try lia; cbn [shr_1 shr_m shr_r shr_s orb];
    destruct r, s; cbn [orb] in *; lia.
Qed.

Lemma shr_iter_up n r K :
  0 <= shr_m r -> shr_up r <= K * 2 ^ Z.of_nat n ->
  0 <= shr_m (Nat.iter n shr_1 r) /\ shr_up (Nat.iter n shr_1 r) <= K.
Proof.
  revert K. induction n as [|n IH]; intros K Hm Hu.
  { change (2 ^ Z.of_nat 0) with 1 in Hu. cbn [Nat.iter nat_rect]. lia. }
  rewrite Nat2Z.inj_succ, Z.pow_succ_r in Hu by lia. cbn [Nat.iter nat_rect].
  destruct (IH (2 * K)) as [H1 H2]; [done|lia|]. by apply shr_1_up.
Qed.

Lemma round_even_up r : 0 <= shr_m r ->
  0 <= round_nearest_even (shr_m r) (loc_of_shr_record r) <= shr_up r.
Proof.
  destruct r as [m [] []]; unfold shr_up; cbn [shr_m shr_r shr_s orb loc_of_shr_record round_nearest_even];
    try lia. destruct (Z.even m); lia.
Qed.

(** Bounds that [f64] represents exactly: [c * 2^k] units with a 53-bit [c], below [2^454]. *)
Definition rep (B : Z) : Prop :=
  exists c k, B = c * 2 ^ k /\ 0 <= c < 2 ^ 53 /\ 0 <= k <= 1474.

Definition fin_le (x : f64) (B : Z) : Prop :=
  match x with
  | S754_zero _ => 0 <= B
  | S754_finite s m e => s = false /\ -1074 <= e /\ Zpos m * 2 ^ (e + 1074) <= B
  | _ => False
  end.

Definition loc_up (l : location) : Z := match l with loc_Exact => 0 | _ => 1 end.

Lemma shr_record_of_loc_up m l : shr_up (shr_record_of_loc m l) = m + loc_up l.
Proof. by destruct l as [|[]]. Qed.

Lemma shr_record_of_loc_m m l : shr_m (shr_record_of_loc m l) = m.
Proof. by destruct l as [|[]]. Qed.

Definition expo (m e : Z) : Z := Z.max (Zdigits2 m + e - 53) (-1074).

Lemma shr_fexp_eq m e l :
  shr_fexp 53 1024 m e l =
  if expo m e <=? e then (shr_record_of_loc m l, e)
  else (Nat.iter (Z.to_nat (expo m e - e)) shr_1 (shr_record_of_loc m l), expo m e).
Proof.
  unfold shr_fexp, shr, fexp, emin. change (3 - 1024 - 53) with (-1074). fold (expo m e).
  destruct (Z.leb_spec (expo m e) e) as [Hle|Hlt].
  - destruct (expo m e - e) eqn:E; try done. lia.
  - destruct (expo m e - e) as [|p|p] eqn:E; try lia. rewrite iter_pos_iter, Z2Nat.inj_pos.
    f_equal. lia.
Qed.

(** One shift: the value does not pass a multiple of the new unit that bounds it. *)
Lemma shr_fexp_bound m e l B r e' :
  rep B -> 0 <= m -> -4000 <= e <= 971 -> (m + loc_up l) * 2 ^ (e + 4000) <= B * 2 ^ 2926 ->
  0 < m + loc_up l ->
  shr_fexp 53 1024 m e l = (r, e') ->
  0 <= shr_m r /\ -1074 <= e' <= 971 /\ shr_up r * 2 ^ (e' + 1074) <= B.
Proof.
  intros (c & k & -> & Hc & Hk) Hm He Hle Hpos. rewrite shr_fexp_eq.
  rewrite <- Z.mul_assoc, <- Z.pow_add_r in Hle by lia.
  assert (expo m e + 1074 <= k) as Hg.
  { destruct (Z.eq_dec m 0) as [->|Hm0]; unfold expo.
    - destruct l; cbn [loc_up] in Hpos; [lia|]. cbn [loc_up] in Hle. change (0 + 1) with 1 in Hle.
      pose proof (digits_le 1 c (k + 2926) (e + 4000)) as H. cbn [Zdigits2 digits2_pos] in *. lia.
    - pose proof (digits_le m c (k + 2926) (e + 4000)). destruct l; cbn [loc_up] in *; [lia|].
      rewrite Z.mul_add_distr_r in Hle. pose proof (Z.pow_pos_nonneg 2 (e + 4000)). lia. }
  destruct (Z.leb_spec (expo m e) e) as [Hx|Hx]; intros [= <- <-].
  - rewrite shr_record_of_loc_m, shr_record_of_loc_up. split; [lia|]. split; [unfold expo in Hx; lia|].
    apply (Z.mul_le_mono_pos_r _ _ (2 ^ 2926)); [by apply Z.pow_pos_nonneg|].
    assert (-1074 <= e) by (unfold expo in Hx; lia).
    rewrite <- !Z.mul_assoc, <- !Z.pow_add_r by lia. by replace (e + 1074 + 2926) with (e + 4000) by lia.
  - assert (-1074 <= expo m e) by (unfold expo; lia).
    destruct (shr_iter_up (Z.to_nat (expo m e - e)) (shr_record_of_loc m l) (c * 2 ^ (k - (expo m e + 1074)))) as [H1 H2].
    + by rewrite shr_record_of_loc_m.
    + rewrite shr_record_of_loc_up, Z2Nat.id by lia. rewrite <- Z.mul_assoc, <- Z.pow_add_r by lia.
      apply (Z.mul_le_mono_pos_r _ _ (2 ^ (e + 4000))); [apply Z.pow_pos_nonneg; lia|].
      rewrite <- Z.mul_assoc, <- Z.pow_add_r by lia.
      by replace (k - (expo m e + 1074) + (expo m e - e) + (e + 4000)) with (k + 2926) by lia.
    + split; [done|]. split; [lia|].
      etrans; [apply Z.mul_le_mono_nonneg_r; [by apply Z.pow_nonneg|apply H2]|].
      rewrite <- Z.mul_assoc, <- Z.pow_add_r by lia. by replace (k - (expo m e + 1074) + (expo m e + 1074)) with k by lia.
Qed.

Lemma shr_fexp_zero e : shr_m (fst (shr_fexp 53 1024 0 e loc_Exact)) = 0.
Proof.
  rewrite shr_fexp_eq. case_match; [done|]. cbn [fst].
  destruct (shr_iter_up (Z.to_nat (expo 0 e - e)) (shr_record_of_loc 0 loc_Exact) 0) as [H1 H2]; [done|done|].
  unfold shr_up in H2. case_match; lia.
Qed.

Lemma round_aux_le m e l B :
  rep B -> 0 <= m -> -4000 <= e <= 971 -> (m + loc_up l) * 2 ^ (e + 4000) <= B * 2 ^ 2926 ->
  0 < m + loc_up l -> fin_le (binary_round_aux 53 1024 false m e l) B.
Proof.
  intros HB Hm He Hle Hpos. unfold binary_round_aux. change (1024 - 53) with 971.
  destruct (shr_fexp 53 1024 m e l) as [r e'] eqn:E1.
  destruct (shr_fexp_bound _ _ _ _ _ _ HB Hm He Hle Hpos E1) as (Hr & He' & Hu).
  pose proof (round_even_up r Hr) as Hre. set (m2 := round_nearest_even _ _) in *.
  assert (0 <= B) as HB0.
  { etrans; [|apply Hu]. apply Z.mul_nonneg_nonneg; [lia|]. by apply Z.pow_nonneg. }
  destruct (shr_fexp 53 1024 m2 e' loc_Exact) as [r2 e2] eqn:E2.
  destruct (Z.eq_dec m2 0) as [H0|H0].
  { pose proof (shr_fexp_zero e') as Hz. rewrite H0 in E2. rewrite E2 in Hz. cbn [fst] in Hz. by rewrite Hz. }
  destruct (shr_fexp_bound m2 e' loc_Exact B r2 e2) as (Hr2 & He2 & Hu2); [done|lia|lia| |cbn; lia|done|].
  { cbn [loc_up]. rewrite Z.add_0_r. replace (e' + 4000) with (e' + 1074 + 2926) by lia.
    rewrite Z.pow_add_r, Z.mul_assoc by lia. apply Z.mul_le_mono_nonneg_r; [by apply Z.pow_nonneg|].
    etrans; [|apply Hu]. apply Z.mul_le_mono_nonneg_r; [by apply Z.pow_nonneg|lia]. }
  destruct (shr_m r2) as [|p|p] eqn:Em; [done| |lia].
  rewrite (proj2 (Z.leb_le _ _)) by lia. split; [done|]. split; [lia|].
  etrans; [|apply Hu2]. apply Z.mul_le_mono_nonneg_r; [by apply Z.pow_nonneg|].
  unfold shr_up. case_match; lia.
Qed.

(** ** The operations *)

Lemma iter_xO m p : Zpos (Pos.iter xO m p) = Zpos m * 2 ^ Zpos p.
Proof.
  induction p as [|p IH] using Pos.peano_ind; [cbn; lia|].
  rewrite Pos.iter_succ. rewrite Pos2Z.inj_succ, Z.pow_succ_r by lia.
  change (Zpos (Pos.iter xO m p)~0) with (2 * Zpos (Pos.iter xO m p)). rewrite IH. lia.
Qed.

Lemma shl_align_spec m e e' :
  let '(m', e1) := shl_align m e e' in e1 = Z.min e e' /\ Zpos m' = Zpos m * 2 ^ (e - e1).
Proof.
  unfold shl_align. destruct (e' - e) as [|p|p] eqn:E; try (rewrite Z.min_l, Z.sub_diag by lia; lia).
  split; [lia|]. rewrite iter_xO. f_equal. f_equal. lia.
Qed.

Lemma binary_round_le m e B :
  rep B -> -2148 <= e <= 971 -> Zpos m * 2 ^ (e + 4000) <= B * 2 ^ 2926 ->
  fin_le (binary_round 53 1024 false m e) B.
Proof.
  intros HB He Hle. unfold binary_round.
  set (g := fexp _ _ _). pose proof (shl_align_spec m e g) as H.
  destruct (shl_align m e g) as [mz ez]. destruct H as [Hez Hmz].
  assert (-1074 <= g) as Hg by (unfold g, fexp, emin; lia).
  apply round_aux_le; [done|lia|lia| |cbn; lia].
  cbn [loc_up]. rewrite Z.add_0_r, Hmz, <- Z.mul_assoc, <- Z.pow_add_r by lia.
  by replace (e - ez + (ez + 4000)) with (e + 4000) by lia.
Qed.

Lemma rep_nonneg B : rep B -> 0 <= B.
Proof.
  intros (c & k & -> & Hc & Hk). apply Z.mul_nonneg_nonneg; [lia|]. by apply Z.pow_nonneg.
Qed.

Lemma rep_small B : rep B -> B < 2 ^ 1527.
Proof.
  intros (c & k & -> & Hc & Hk). change 1527 with (53 + 1474). rewrite Z.pow_add_r by lia.
  pose proof (Z.pow_le_mono_r 2 k 1474). pose proof (Z.pow_pos_nonneg 2 k).
  apply (Z.le_lt_trans _ (c * 2 ^ 1474)); [apply Z.mul_le_mono_nonneg_l; lia|].
  apply Z.mul_lt_mono_pos_r; lia.
Qed.

Lemma fin_le_exp s m e B : rep B -> fin_le (S754_finite s m e) B -> -1074 <= e <= 453.
Proof.
  intros HB (-> & He & Hle). split; [done|]. pose proof (rep_small B HB).
  assert (2 ^ (e + 1074) < 2 ^ 1527) as H1; [|apply Z.pow_lt_mono_r_iff in H1; lia].
  pose proof (Z.pow_pos_nonneg 2 (e + 1074)). nia.
Qed.

Lemma fin_le_mono x B B' : B <= B' -> fin_le x B -> fin_le x B'.
Proof. destruct x; cbn; intuition lia. Qed.

Lemma fin_le_of_Z z B : rep B -> 0 <= z -> z * 2 ^ 1074 <= B -> fin_le (f_of_Z z) B.
Proof.
  intros HB Hz Hle. destruct z as [|p|p]; [by apply rep_nonneg| |lia].
  apply (binary_round_le p 0 B HB); [lia|]. change (0 + 4000) with (1074 + 2926).
  rewrite Z.pow_add_r, Z.mul_assoc by lia. apply Z.mul_le_mono_nonneg_r; [by apply Z.pow_nonneg|done].
Qed.

Lemma fin_le_mul x y Bx By B :
  rep Bx -> rep By -> rep B -> fin_le x Bx -> fin_le y By -> Bx * By <= B * 2 ^ 1074 ->
  fin_le (f_mul x y) B.
Proof.
  intros HBx HBy HB Hx Hy Hle. pose proof (rep_nonneg B HB).
  destruct x as [sx|sx| |sx mx ex], y as [sy|sy| |sy my ey]; try done.
  pose proof (fin_le_exp _ _ _ _ HBx Hx). pose proof (fin_le_exp _ _ _ _ HBy Hy).
  destruct Hx as (-> & Hex & Hx), Hy as (-> & Hey & Hy).
  apply round_aux_le; [done|lia|lia| |cbn; lia]. cbn [loc_up]. rewrite Z.add_0_r, Pos2Z.inj_mul.
  assert (Zpos mx * Zpos my * 2 ^ (ex + ey + 2148) <= B * 2 ^ 1074) as Hp.
  { etrans; [|apply Hle]. replace (ex + ey + 2148) with ((ex + 1074) + (ey + 1074)) by lia.
    rewrite Z.pow_add_r by lia.
    replace (Zpos mx * Zpos my * (2 ^ (ex + 1074) * 2 ^ (ey + 1074)))
      with ((Zpos mx * 2 ^ (ex + 1074)) * (Zpos my * 2 ^ (ey + 1074))) by ring.
    apply Z.mul_le_mono_nonneg; [|done| |done]; apply Z.mul_nonneg_nonneg; try lia; by apply Z.pow_nonneg. }
  replace (ex + ey + 4000) with (ex + ey + 2148 + 1852) by lia. change 2926 with (1074 + 1852).
  rewrite (Z.pow_add_r _ _ 1852), (Z.pow_add_r _ 1074 1852), !Z.mul_assoc by lia.
  apply Z.mul_le_mono_nonneg_r; [by apply Z.pow_nonneg|done].
Qed.

Lemma fin_le_add x y Bx By B :
  rep Bx -> rep By -> rep B -> fin_le x Bx -> fin_le y By -> Bx + By <= B -> fin_le (f_add x y) B.
Proof.
  intros HBx HBy HB Hx Hy Hle. pose proof (rep_nonneg _ HBx). pose proof (rep_nonneg _ HBy).
  destruct x as [sx|sx| |sx mx ex], y as [sy|sy| |sy my ey]; try done.
  - cbn. destruct sx, sy; cbn; lia.
  - eapply fin_le_mono, Hy. lia.
  - eapply fin_le_mono, Hx. lia.
  - pose proof (fin_le_exp _ _ _ _ HBx Hx). pose proof (fin_le_exp _ _ _ _ HBy Hy).
    destruct Hx as (-> & Hex & Hx), Hy as (-> & Hey & Hy). cbn [f_add SFadd cond_Zopp].
    pose proof (shl_align_spec mx ex (Z.min ex ey)) as S1. pose proof (shl_align_spec my ey (Z.min ex ey)) as S2.
    destruct (shl_align mx ex _) as [m1 e1], (shl_align my ey _) as [m2 e2]. cbn [fst].
    destruct S1 as [-> S1], S2 as [-> S2]. rewrite <- Pos2Z.inj_add. cbn [binary_normalize].
    apply binary_round_le; [done|lia|]. rewrite Pos2Z.inj_add, S1, S2, Z.mul_add_distr_r.
    rewrite <- !Z.mul_assoc, <- !Z.pow_add_r by lia.
    replace (ex - Z.min ex (Z.min ex ey) + (Z.min ex ey + 4000)) with (ex + 1074 + 2926) by lia.
    replace (ey - Z.min ey (Z.min ex ey) + (Z.min ex ey + 4000)) with (ey + 1074 + 2926) by lia.
    rewrite !(Z.pow_add_r _ _ 2926), !Z.mul_assoc, <- Z.mul_add_distr_r by lia.
    apply Z.mul_le_mono_nonneg_r; [by apply Z.pow_nonneg|lia].
Qed.

Lemma loc_up_new_location n r : loc_up (new_location n r) = if r =? 0 then 0 else 1.
Proof.
  unfold new_location, new_location_even, new_location_odd. destruct (Z.even n), (r =? 0); done.
Qed.

Lemma div_ceil_le a b K : 0 < b -> a <= K * b -> a / b + (if a mod b =? 0 then 0 else 1) <= K.
Proof.
  intros Hb Hle. pose proof (Z.div_mod a b). pose proof (Z.mod_pos_bound a b Hb).
  destruct (Z.eqb_spec (a mod b) 0); nia.
Qed.

(** The exponent of the quotient does not pass the unit of a representable bound. *)
Lemma div_exp_le m1 e1 m2 e2 c k :
  0 <= e1 -> 0 <= e2 -> 0 <= k -> 0 <= c < 2 ^ 53 ->
  Zpos m1 * 2 ^ e1 <= c * Zpos m2 * 2 ^ (k + e2) ->
  Zpos (digits2_pos m1) + e1 - (Zpos (digits2_pos m2) + e2) - 53 <= k.
Proof.
  intros He1 He2 Hk Hc H. pose proof (digits_bound m1) as [H1 _]. pose proof (digits_bound m2) as [_ H2].
  assert (2 ^ (Zpos (digits2_pos m1) - 1 + e1) < 2 ^ (53 + Zpos (digits2_pos m2) + (k + e2))) as HH.
  { rewrite !Z.pow_add_r by lia.
    apply (Z.le_lt_trans _ (Zpos m1 * 2 ^ e1)); [apply Z.mul_le_mono_nonneg_r; [by apply Z.pow_nonneg|done]|].
    apply (Z.le_lt_trans _ _ _ H). rewrite Z.pow_add_r by lia.
    apply Z.mul_lt_mono_pos_r; [apply Z.mul_pos_pos; apply Z.pow_pos_nonneg; lia|].
    apply (Z.le_lt_trans _ (2 ^ 53 * Zpos m2)); [apply Z.mul_le_mono_nonneg_r; lia|].
    apply Z.mul_lt_mono_pos_l; [lia|done]. }
  apply Z.pow_lt_mono_r_iff in HH; lia.
Qed.

Lemma fin_le_div x my ey Bx B :
  rep Bx -> rep B -> fin_le x Bx -> -1074 <= ey <= 453 ->
  Bx * 2 ^ 1074 <= B * (Zpos my * 2 ^ (ey + 1074)) -> fin_le (f_div x (S754_finite false my ey)) B.
Proof.
  intros HBx HB Hx Hey Hle. pose proof (rep_nonneg B HB).
  destruct x as [sx|sx| |sx mx ex]; try done.
  pose proof (fin_le_exp _ _ _ _ HBx Hx) as Hxe. destruct Hx as (-> & Hex & Hx).
  destruct HB as (c & k & -> & Hc & Hk).
  assert (Zpos mx * 2 ^ (ex + 2148) <= c * Zpos my * 2 ^ (k + (ey + 1074))) as Hv.
  { replace (ex + 2148) with (ex + 1074 + 1074) by lia. rewrite (Z.pow_add_r _ (ex + 1074)) by lia.
    rewrite (Z.pow_add_r _ k) by lia. rewrite Z.mul_assoc. etrans; [apply Z.mul_le_mono_nonneg_r; [by apply Z.pow_nonneg|apply Hx]|].
    etrans; [apply Hle|]. apply Z.eq_le_incl. ring. }
  cbn [f_div SFdiv]. unfold SFdiv_core_binary. cbn [Zdigits2].
  pose proof (div_exp_le mx (ex + 2148) my (ey + 1074) c k ltac:(lia) ltac:(lia) ltac:(lia) Hc Hv) as Hd.
  set (e' := Z.min (fexp _ _ _) (ex - ey)).
  assert (-1527 <= e' /\ e' + 1074 <= k /\ -2148 <= e' + ey) as (He1 & He2 & He3)
    by (unfold e', fexp, emin; lia).
  assert (0 <= ex - ey - e') as Hs by (unfold e'; lia).
  assert (match ex - ey - e' with Zpos _ => Z.shiftl (Zpos mx) (ex - ey - e') | Z0 => Zpos mx | Zneg _ => 0 end
          = Zpos mx * 2 ^ (ex - ey - e')) as ->.
  { destruct (ex - ey - e') as [|p|p] eqn:E; [lia| |lia]. by rewrite Z.shiftl_mul_pow2 by lia. }
  set (m' := Zpos mx * 2 ^ (ex - ey - e')).
  assert (m' <= c * 2 ^ (k - 1074 - e') * Zpos my) as Hm'.
  { apply (Z.mul_le_mono_pos_r _ _ (2 ^ (e' + ey + 2148))); [apply Z.pow_pos_nonneg; lia|].
    unfold m'. rewrite <- Z.mul_assoc, <- Z.pow_add_r by lia.
    replace (ex - ey - e' + (e' + ey + 2148)) with (ex + 2148) by lia. etrans; [apply Hv|].
    replace (k + (ey + 1074)) with (k - 1074 - e' + (e' + ey + 2148)) by lia. rewrite Z.pow_add_r by lia.
    apply Z.eq_le_incl. ring. }
  destruct (Z.div_eucl m' (Zpos my)) as [q r] eqn:Edm.
  assert (q = m' / Zpos my /\ r = m' mod Zpos my) as [-> ->] by (unfold Z.div, Z.modulo; by rewrite Edm).
  assert (0 < m') as Hpos by (apply Z.mul_pos_pos; [lia|apply Z.pow_pos_nonneg; lia]).
  pose proof (Z.div_pos m' (Zpos my)) as Hq. pose proof (Z.div_mod m' (Zpos my)) as Hqr.
  apply round_aux_le; [by exists c, k|lia|lia| |].
  - rewrite loc_up_new_location. etrans.
    { apply Z.mul_le_mono_nonneg_r; [apply Z.pow_nonneg; lia|]. apply div_ceil_le, Hm'. lia. }
    rewrite <- !Z.mul_assoc, <- !Z.pow_add_r by lia. by replace (k - 1074 - e' + (e' + 4000)) with (k + 2926) by lia.
  - rewrite loc_up_new_location. destruct (Z.eqb_spec (m' mod Zpos my) 0); nia.
Qed.

Lemma fin_le_max x y B : fin_le x B -> fin_le y B -> fin_le (f_max x y) B.
Proof. intros Hx Hy. unfold f_max. repeat case_match; done. Qed.

Lemma fin_le_finite x B : fin_le x B -> f_is_finite x = true.
Proof. by destruct x. Qed.

(** A number below [2^64] seconds is a [Duration]: [from_secs_f64] does not panic on it. *)
Lemma fin_le_duration x B : fin_le x B -> B < 2 ^ 1138 -> is_Some (try_from_secs_f64 x).
Proof.
  destruct x as [s|s| |s m e]; [by eexists|done|done|]. intros (-> & He & Hle) HB. cbn [try_from_secs_f64].
  assert (Zpos m * 2 ^ (e + 1074) < 2 ^ 64 * 2 ^ 1074) as H by (rewrite <- Z.pow_add_r by lia; lia).
  rewrite (proj2 (Z.leb_le _ _)); [by eexists|]. change u64_max with (2 ^ 64 - 1).
  destruct (Z.leb_spec 0 e).
  - rewrite Z.pow_add_r, Z.mul_assoc in H by lia. apply Z.mul_lt_mono_pos_r in H; [lia|by apply Z.pow_pos_nonneg].
  - assert (Zpos m / 2 ^ (- e) < 2 ^ 64); [|lia]. apply Z.div_lt_upper_bound; [apply Z.pow_pos_nonneg; lia|].
    apply (Z.mul_lt_mono_pos_r (2 ^ (e + 1074))); [apply Z.pow_pos_nonneg; lia|].
    replace (2 ^ (- e) * 2 ^ 64 * 2 ^ (e + 1074)) with (2 ^ 64 * (2 ^ (- e) * 2 ^ (e + 1074))) by ring.
    rewrite <- (Z.pow_add_r 2 (- e)) by lia. by replace (- e + (e + 1074)) with 1074 by lia.
Qed.
