(* ===== verification/FloatOrder.v ===== *)
(** * Canonical [f64]s and their order

    The comparison of two finite [f64]s looks at the exponents first, which is the order of their
    values only for canonical representations.  This file shows that every operation returns
    canonical results, that on those the comparison is the order of the values, and that
    subtracting one from a number of at least one is exact. *)

From Stdlib Require Import SpecFloat.
From stdpp Require Import base numbers list option.
From S2P Require Import Prelude Float64.

(** The exponent is the one the mantissa requires. *)
Definition canonical (x : f64) : Prop :=
  match x with S754_finite _ m e => expo (Zpos m) e = e | _ => True end.

Lemma digits_pos_bound m : 0 < m -> 2 ^ (Zdigits2 m - 1) <= m < 2 ^ Zdigits2 m.
Proof. destruct m as [|p|]; intros H; try lia. apply digits_bound. Qed.

Lemma digits_unique m d : 2 ^ (d - 1) <= m < 2 ^ d -> 0 < m -> 0 <= d -> Zdigits2 m = d.
Proof.
  intros [H1 H2] Hm Hd. pose proof (digits_pos_bound m Hm) as [H3 H4]. pose proof (digits_nonneg m).
  assert (2 ^ (Zdigits2 m - 1) < 2 ^ d) as A%Z.pow_lt_mono_r_iff by lia; [|lia|lia].
  assert (d - 1 < Zdigits2 m); [|lia].
  destruct (Z.le_gt_cases 0 (d - 1)); [|lia].
  assert (2 ^ (d - 1) < 2 ^ Zdigits2 m) as B%Z.pow_lt_mono_r_iff by lia; lia.
Qed.

Lemma digits_shift m k : 0 < m -> 0 <= k -> Zdigits2 (m * 2 ^ k) = Zdigits2 m + k.
Proof.
  intros Hm Hk. pose proof (digits_pos_bound m Hm) as [H1 H2]. pose proof (digits_nonneg m).
  assert (0 < Zdigits2 m). { destruct m; cbn in *; lia. }
  pose proof (Z.pow_pos_nonneg 2 k). apply digits_unique; [|nia|lia].
  replace (Zdigits2 m + k - 1) with (Zdigits2 m - 1 + k) by lia. rewrite !Z.pow_add_r by lia. nia.
Qed.

Lemma digits_mono a b : 0 < a <= b -> Zdigits2 a <= Zdigits2 b.
Proof.
  intros H. pose proof (digits_pos_bound a) as [H1 _]; [lia|]. pose proof (digits_pos_bound b) as [_ H2]; [lia|].
  pose proof (digits_nonneg b). assert (2 ^ (Zdigits2 a - 1) < 2 ^ Zdigits2 b) as A by lia.
  destruct (Z.le_gt_cases 0 (Zdigits2 a - 1)); [|lia]. apply Z.pow_lt_mono_r_iff in A; lia.
Qed.

(** ** Rounding *)

Lemma shr_iter_m n r : 0 <= shr_m r -> shr_m (Nat.iter n shr_1 r) = shr_m r / 2 ^ Z.of_nat n.
Proof.
  intros Hm. induction n as [|n IH]; [by rewrite Z.div_1_r|]. rewrite Nat.iter_succ.
  assert (forall r, 0 <= shr_m r -> shr_m (shr_1 r) = shr_m r / 2) as H1.
  { intros [m b s] H. cbn [shr_m] in *. destruct m as [|[p|p|]|]; try lia; cbn [shr_1 shr_m]; Z.div_mod_to_equations; lia. }
  pose proof (Z.pow_pos_nonneg 2 (Z.of_nat n)).
  rewrite H1; rewrite IH; [|apply Z.div_pos; lia]. rewrite Z.div_div by lia. f_equal.
  rewrite Nat2Z.inj_succ, Z.pow_succ_r by lia. lia.
Qed.

(** The first shift, when the exponent is low enough to need it. *)
Lemma shr_fexp_m m e l : 0 <= m -> e <= expo m e ->
  shr_m (fst (shr_fexp 53 1024 m e l)) = m / 2 ^ (expo m e - e) /\ snd (shr_fexp 53 1024 m e l) = expo m e.
Proof.
  intros Hm He. rewrite shr_fexp_eq. destruct (Z.leb_spec (expo m e) e).
  - assert (expo m e = e) as -> by lia. rewrite Z.sub_diag. cbn [fst snd]. by rewrite shr_record_of_loc_m, Z.div_1_r.
  - cbn [fst snd]. rewrite shr_iter_m, shr_record_of_loc_m by (by rewrite shr_record_of_loc_m). by rewrite Z2Nat.id by lia.
Qed.

(** It leaves at most 53 digits, and exactly 53 unless the exponent is the lowest one. *)
Lemma shifted_bounds m e : 0 <= m -> e <= expo m e ->
  0 <= m / 2 ^ (expo m e - e) < 2 ^ 53 /\ (-1074 < expo m e -> 0 < m -> 2 ^ 52 <= m / 2 ^ (expo m e - e)).
Proof.
  intros Hm He. set (k := expo m e - e) in *. pose proof (Z.pow_pos_nonneg 2 k) as Hk.
  destruct (Z.eq_dec m 0) as [->|Hm0]; [rewrite Z.div_0_l by lia; lia|].
  pose proof (digits_pos_bound m) as [H1 H2]; [lia|]. pose proof (digits_nonneg m).
  assert (0 < Zdigits2 m) by (destruct m; cbn in *; lia).
  split; [split; [apply Z.div_pos; lia|]|].
  - apply Z.div_lt_upper_bound; [lia|]. eapply Z.lt_le_trans; [apply H2|].
    rewrite <- Z.pow_add_r by lia. apply Z.pow_le_mono_r; [lia|]. unfold k, expo. lia.
  - intros Hn _. apply Z.div_le_lower_bound; [lia|]. rewrite <- Z.pow_add_r by lia.
    replace (k + 52) with (Zdigits2 m - 1); [done|]. unfold k, expo in *. lia.
Qed.

Lemma round_even_cases m l : round_nearest_even m l = m \/ round_nearest_even m l = m + 1.
Proof. destruct l as [|[]]; cbn; auto. destruct (Z.even m); auto. Qed.

Lemma round_aux_canonical s m e l : 0 <= m -> e <= expo m e -> canonical (binary_round_aux 53 1024 s m e l).
Proof.
  intros Hm He. unfold binary_round_aux. pose proof (shr_fexp_m m e l Hm He) as [Em Ee].
  destruct (shr_fexp 53 1024 m e l) as [r e']. cbn [fst snd] in Em, Ee. subst e'.
  pose proof (shifted_bounds m e Hm He) as [[B0 B1] B2]. rewrite <- Em in B0, B1, B2.
  set (E := expo m e) in *. assert (-1074 <= E) as HE by (unfold E, expo; lia).
  set (m1 := round_nearest_even _ _). assert (m1 = shr_m r \/ m1 = shr_m r + 1) as Hm1 by apply round_even_cases.
  destruct (Z.eq_dec m1 (2 ^ 53)) as [E1|E1].
  - assert (expo m1 E = E + 1) as Hx. { rewrite E1. unfold expo. change (Zdigits2 (2 ^ 53)) with 54. lia. }
    pose proof (shr_fexp_m m1 E loc_Exact ltac:(lia) ltac:(lia)) as [Em2 Ee2]. rewrite Hx in Em2, Ee2.
    replace (E + 1 - E) with 1 in Em2 by lia. assert (m1 / 2 ^ 1 = 2 ^ 52) as Hh by by rewrite E1. rewrite Hh in Em2.
    destruct (shr_fexp _ _ m1 E loc_Exact) as [r2 e2]. cbn [fst snd] in Em2, Ee2. rewrite Em2. subst e2.
    destruct (E + 1 <=? 1024 - 53); [|done]. change (expo (2 ^ 52) (E + 1) = E + 1).
    unfold expo. change (Zdigits2 (2 ^ 52)) with 53. lia.
  - rewrite shr_fexp_eq.
    assert (expo m1 E <= E) as Hx.
    { destruct (Z.eq_dec m1 0) as [->|]; [unfold expo; cbn; lia|].
      assert (Zdigits2 m1 <= 53); [|unfold expo; lia]. change 53 with (Zdigits2 (2 ^ 53 - 1)). apply digits_mono. lia. }
    rewrite (proj2 (Z.leb_le _ _)) by done. cbn [fst snd shr_record_of_loc shr_m].
    destruct m1 as [|p|p] eqn:Ep; [done| |done]. destruct (E <=? 1024 - 53); [|done]. cbn [canonical].
    destruct (Z.eq_dec E (-1074)) as [El|El]; [unfold expo in *; lia|].
    assert (0 < m) as Hm0. { destruct (Z.eq_dec m 0) as [->|]; [|lia]. unfold E, expo in He, El, HE. cbn in *. lia. }
    specialize (B2 ltac:(lia) Hm0). unfold expo in *. rewrite (digits_unique (Zpos p) 53); lia.
Qed.

Create HintDb canon.

(** ** The operations *)

Lemma fexp_expo m e : fexp 53 1024 (Zpos (digits2_pos m) + e) = expo (Zpos m) e.
Proof. done. Qed.

Lemma expo_shift m k e : 0 < m -> 0 <= k -> expo (m * 2 ^ k) (e - k) = expo m e.
Proof. intros Hm Hk. unfold expo. rewrite digits_shift by done. f_equal. lia. Qed.

Lemma binary_round_canonical s m e : canonical (binary_round 53 1024 s m e).
Proof.
  unfold binary_round. rewrite fexp_expo. pose proof (shl_align_spec m e (expo (Zpos m) e)) as H.
  destruct (shl_align m e _) as [mz ez]. destruct H as [Hez Hmz].
  apply round_aux_canonical; [lia|]. rewrite Hmz.
  replace ez with (e - (e - ez)) at 3 by lia. rewrite expo_shift by lia. lia.
Qed.

Lemma binary_normalize_canonical m e s : canonical (binary_normalize 53 1024 m e s).
Proof. destruct m; cbn [binary_normalize]; [done| |]; apply binary_round_canonical. Qed.

Lemma f_of_Z_canonical z : canonical (f_of_Z z).
Proof. apply binary_normalize_canonical. Qed.

Lemma f_add_canonical x y : canonical x -> canonical y -> canonical (f_add x y).
Proof.
  intros Hx Hy. destruct x as [[]|[]| |], y as [[]|[]| |]; try done. apply binary_normalize_canonical.
Qed.

Lemma f_sub_canonical x y : canonical x -> canonical y -> canonical (f_sub x y).
Proof.
  intros Hx Hy. destruct x as [[]|[]| |], y as [[]|[]| |]; try done. apply binary_normalize_canonical.
Qed.

Lemma f_mul_expo mx ex my ey : expo (Zpos mx) ex = ex -> expo (Zpos my) ey = ey ->
  ex + ey <= expo (Zpos (mx * my)) (ex + ey).
Proof.
  intros Hx Hy. rewrite Pos2Z.inj_mul. pose proof (digits_bound mx) as [X1 _]. pose proof (digits_bound my) as [Y1 _].
  assert (Zdigits2 (Zpos mx) + Zdigits2 (Zpos my) - 1 <= Zdigits2 (Zpos mx * Zpos my)) as Hd.
  { cbn [Zdigits2]. pose proof (digits_pos_bound (Zpos mx * Zpos my) ltac:(lia)) as [_ Hu]. pose proof (digits_nonneg (Zpos mx * Zpos my)).
    assert (2 ^ (Zpos (digits2_pos mx) - 1 + (Zpos (digits2_pos my) - 1)) < 2 ^ Zdigits2 (Zpos mx * Zpos my)) as A.
    { rewrite Z.pow_add_r by lia. pose proof (Z.pow_pos_nonneg 2 (Zpos (digits2_pos mx) - 1)).
      pose proof (Z.pow_pos_nonneg 2 (Zpos (digits2_pos my) - 1)). nia. }
    apply Z.pow_lt_mono_r_iff in A; lia. }
  unfold expo in *. cbn [Zdigits2] in *. lia.
Qed.

Lemma f_mul_canonical x y : canonical x -> canonical y -> canonical (f_mul x y).
Proof.
  destruct x as [sx|sx| |sx mx ex], y as [sy|sy| |sy my ey]; try done. cbn [canonical]. intros Hx Hy.
  apply round_aux_canonical; [lia|]. by apply f_mul_expo.
Qed.

Lemma f_div_canonical x y : canonical (f_div x y).
Proof.
  destruct x as [sx|sx| |sx mx ex], y as [sy|sy| |sy my ey]; try done. cbn [f_div SFdiv]. unfold SFdiv_core_binary.
  cbn [Zdigits2]. set (x := Zpos (digits2_pos mx) + ex - (Zpos (digits2_pos my) + ey)).
  assert (fexp 53 1024 x = Z.max (x - 53) (-1074)) as Hf by done. rewrite Hf.
  set (e' := Z.min _ (ex - ey)). assert (0 <= ex - ey - e') as Hs by (unfold e'; lia).
  assert (match ex - ey - e' with Zpos _ => Z.shiftl (Zpos mx) (ex - ey - e') | Z0 => Zpos mx | Zneg _ => 0 end
          = Zpos mx * 2 ^ (ex - ey - e')) as ->.
  { destruct (ex - ey - e') as [|p|p] eqn:E; [lia| |lia]. by rewrite Z.shiftl_mul_pow2 by lia. }
  set (m' := Zpos mx * 2 ^ (ex - ey - e')). destruct (Z.div_eucl m' (Zpos my)) as [q r] eqn:Edm.
  assert (q = m' / Zpos my) as -> by (unfold Z.div; by rewrite Edm).
  assert (0 < m') as Hp by (apply Z.mul_pos_pos; [lia|apply Z.pow_pos_nonneg; lia]).
  apply round_aux_canonical; [apply Z.div_pos; lia|].
  destruct (Z.le_gt_cases e' (-1074)) as [Hl|Hl]; [unfold expo; lia|].
  assert (2 ^ (x - 1 - e') <= m' / Zpos my) as Hq.
  { apply Z.div_le_lower_bound; [lia|]. pose proof (digits_bound mx) as [X1 _]. pose proof (digits_bound my) as [_ Y2].
    assert (e' <= x - 53) by (unfold e'; lia). unfold m'.
    apply (Z.le_trans _ (2 ^ (Zpos (digits2_pos my)) * 2 ^ (x - 1 - e'))).
    { apply Z.mul_le_mono_nonneg_r; [apply Z.pow_nonneg; lia|lia]. }
    rewrite <- Z.pow_add_r by lia. replace (Zpos (digits2_pos my) + (x - 1 - e')) with (Zpos (digits2_pos mx) - 1 + (ex - ey - e'))
      by (unfold x; lia).
    rewrite Z.pow_add_r by lia. apply Z.mul_le_mono_nonneg_r; [apply Z.pow_nonneg; lia|done]. }
  assert (e' <= x - 53) by (unfold e'; lia). pose proof (Z.pow_pos_nonneg 2 (x - 1 - e')).
  assert (x - e' <= Zdigits2 (m' / Zpos my)); [|unfold expo; lia].
  pose proof (digits_pos_bound (m' / Zpos my) ltac:(lia)) as [_ Hu]. pose proof (digits_nonneg (m' / Zpos my)).
  assert (2 ^ (x - 1 - e') < 2 ^ Zdigits2 (m' / Zpos my)) as A%Z.pow_lt_mono_r_iff by lia; lia.
Qed.

#[export] Hint Resolve f_of_Z_canonical f_add_canonical f_sub_canonical f_mul_canonical f_div_canonical : canon.

Lemma as_secs_canonical d : canonical (as_secs_f64 d).
Proof. unfold as_secs_f64. auto with canon. Qed.
#[export] Hint Resolve as_secs_canonical : canon.

(** ** Values *)

(** The value of a finite [f64] that is not negative, in units of [2^-1074]. *)
Definition fval (x : f64) : Z := match x with S754_finite _ m e => Zpos m * 2 ^ (e + 1074) | _ => 0 end.

Lemma fin_le_fval x B : fin_le x B -> fin_le x (fval x) /\ 0 <= fval x <= B.
Proof.
  destruct x as [s|s| |s m e]; try done. cbn [fin_le fval]. intros (-> & He & Hle).
  pose proof (Z.pow_pos_nonneg 2 (e + 1074)). split; [done|]. nia.
Qed.

(** Canonical numbers with a smaller exponent are smaller. *)
Lemma canonical_exp_lt s1 s2 m1 e1 m2 e2 : canonical (S754_finite s1 m1 e1) -> canonical (S754_finite s2 m2 e2) ->
  e1 < e2 -> Zpos m1 * 2 ^ (e1 + 1074) < Zpos m2 * 2 ^ (e2 + 1074).
Proof.
  cbn [canonical]. unfold expo. cbn [Zdigits2]. intros H1 H2 He.
  pose proof (digits_bound m1) as [_ U1]. pose proof (digits_bound m2) as [L2 _].
  apply (Z.lt_le_trans _ (2 ^ (Zpos (digits2_pos m1) + (e1 + 1074)))).
  { rewrite (Z.pow_add_r _ (Zpos _)) by lia. apply Z.mul_lt_mono_pos_r; [apply Z.pow_pos_nonneg; lia|done]. }
  apply (Z.le_trans _ (2 ^ (Zpos (digits2_pos m2) - 1 + (e2 + 1074)))).
  { apply Z.pow_le_mono_r; lia. }
  rewrite (Z.pow_add_r _ (Zpos _ - 1)) by lia. apply Z.mul_le_mono_nonneg_r; [apply Z.pow_nonneg; lia|done].
Qed.

Lemma f_compare_fval x y Bx By : fin_le x Bx -> fin_le y By -> canonical x -> canonical y ->
  SFcompare x y = Some (fval x ?= fval y).
Proof.
  intros Hx Hy Cx Cy. destruct x as [s|s| |s m e], y as [s'|s'| |s' m' e']; try done; cbn [SFcompare fval].
  - destruct Hy as (-> & He & _). pose proof (Z.pow_pos_nonneg 2 (e' + 1074)). f_equal. symmetry. apply Z.compare_lt_iff. nia.
  - destruct Hx as (-> & He & _). pose proof (Z.pow_pos_nonneg 2 (e + 1074)). f_equal. symmetry. apply Z.compare_gt_iff. nia.
  - destruct Hx as (-> & He & _), Hy as (-> & He' & _). f_equal.
    destruct (Z.compare_spec e e') as [->|Hlt|Hgt]; symmetry.
    + pose proof (Z.pow_pos_nonneg 2 (e' + 1074)). change (Pos.compare_cont Eq m m') with (Zpos m ?= Zpos m').
      rewrite <- (Zmult_compare_compat_r (Zpos m) (Zpos m') (2 ^ (e' + 1074))) by lia. done.
    + apply Z.compare_lt_iff. by eapply canonical_exp_lt.
    + apply Z.compare_gt_iff. by eapply canonical_exp_lt.
Qed.

Lemma f_le_fval x y Bx By : fin_le x Bx -> fin_le y By -> canonical x -> canonical y ->
  f_le x y = (fval x <=? fval y).
Proof.
  intros Hx Hy Cx Cy. unfold f_le, SFleb. rewrite (f_compare_fval x y Bx By) by done.
  unfold Z.leb. by destruct (fval x ?= fval y).
Qed.

Lemma f_lt_fval x y Bx By : fin_le x Bx -> fin_le y By -> canonical x -> canonical y ->
  f_lt x y = (fval x <? fval y).
Proof.
  intros Hx Hy Cx Cy. unfold f_lt, SFltb. rewrite (f_compare_fval x y Bx By) by done.
  unfold Z.ltb. by destruct (fval x ?= fval y).
Qed.

(** [min] is the minimum. *)
Lemma f_min_fval x y Bx By : fin_le x Bx -> fin_le y By -> canonical x -> canonical y ->
  fval (f_min x y) = Z.min (fval x) (fval y) /\ fin_le (f_min x y) (Z.min Bx By) /\ canonical (f_min x y).
Proof.
  intros Hx Hy Cx Cy. destruct (fin_le_fval x Bx Hx) as [Vx [_ Lx]], (fin_le_fval y By Hy) as [Vy [_ Ly]].
  unfold f_min. replace (is_nan x) with false by by destruct x. replace (is_nan y) with false by by destruct y.
  rewrite (f_lt_fval y x By Bx) by done. destruct (Z.ltb_spec (fval y) (fval x)).
  - split; [lia|]. split; [|done]. eapply fin_le_mono, Vy. lia.
  - split; [lia|]. split; [|done]. eapply fin_le_mono, Vx. lia.
Qed.

(** ** Taking one away is exact *)

Lemma f_one_eq : f_one = S754_finite false (2 ^ 52) (-52).
Proof. reflexivity. Qed.

(** Below [2^53] the exponent is not positive, and the mantissa has at most 53 bits. *)
Lemma canonical_small s m e : canonical (S754_finite s m e) -> Zpos m * 2 ^ (e + 1074) < 2 ^ 1127 ->
  -1074 <= e <= 0 /\ Zpos m < 2 ^ 53.
Proof.
  cbn [canonical]. unfold expo. cbn [Zdigits2]. intros Hc Hv. pose proof (digits_bound m) as [L U].
  assert (Zpos (digits2_pos m) <= 53) as Hd by lia. split.
  - split; [lia|]. destruct (Z.le_gt_cases e 0); [done|]. assert (Zpos (digits2_pos m) = 53) as E by lia. rewrite E in L.
    assert (2 ^ 52 * 2 ^ 1075 <= Zpos m * 2 ^ (e + 1074)); [|change (2 ^ 1127) with (2 ^ 52 * 2 ^ 1075) in Hv; lia].
    apply Z.mul_le_mono_nonneg; [lia|done|by apply Z.pow_nonneg|]. apply Z.pow_le_mono_r; lia.
  - eapply Z.lt_le_trans; [apply U|]. apply Z.pow_le_mono_r; lia.
Qed.

Lemma f_sub_one x B : fin_le x B -> canonical x -> 2 ^ 1074 <= fval x < 2 ^ 1127 ->
  fin_le (f_sub x f_one) (fval x - 2 ^ 1074).
Proof.
  intros Hx Cx [Hl Hu]. destruct x as [s|s| |s m e]; try (cbn [fval] in Hl; lia).
  destruct (canonical_small s m e Cx Hu) as [He Hm]. destruct Hx as (-> & _ & _). cbn [fval] in *.
  rewrite f_one_eq. cbn [f_sub SFsub cond_Zopp].
  pose proof (shl_align_spec m e (Z.min e (-52))) as S1. pose proof (shl_align_spec (2 ^ 52) (-52) (Z.min e (-52))) as S2.
  destruct (shl_align m e _) as [m1 e1], (shl_align (2 ^ 52) (-52) _) as [m2 e2]. cbn [fst].
  set (ez := Z.min e (-52)) in *. destruct S1 as [-> S1], S2 as [-> S2].
  replace (Z.min e ez) with ez in S1 by lia. replace (Z.min (-52) ez) with ez in S2 by lia.
  change (Zpos (2 ^ 52)) with (2 ^ 52) in S2. rewrite <- Z.pow_add_r in S2 by lia. replace (52 + (-52 - ez)) with (- ez) in S2 by lia.
  assert ((Zpos m1 - Zpos m2) * 2 ^ (ez + 1074) = Zpos m * 2 ^ (e + 1074) - 2 ^ 1074) as Hd.
  { rewrite S1, S2, Z.mul_sub_distr_r, <- Z.mul_assoc, <- !Z.pow_add_r by lia. do 3 f_equal; lia. }
  assert (rep (Zpos m * 2 ^ (e + 1074) - 2 ^ 1074)) as Hrep.
  { exists (Zpos m - 2 ^ (- e)), (e + 1074).
    assert ((Zpos m - 2 ^ (- e)) * 2 ^ (e + 1074) = Zpos m * 2 ^ (e + 1074) - 2 ^ 1074) as E.
    { rewrite Z.mul_sub_distr_r, <- Z.pow_add_r by lia. do 2 f_equal. lia. }
    split; [done|]. split; [|lia]. pose proof (Z.pow_pos_nonneg 2 (e + 1074)). pose proof (Z.pow_pos_nonneg 2 (- e)).
    split; [|lia]. apply (Z.mul_le_mono_pos_r _ _ (2 ^ (e + 1074))); lia. }
  pose proof (Z.pow_pos_nonneg 2 (ez + 1074)) as Hp.
  destruct (Zpos m1 - Zpos m2) as [|p|p] eqn:Ed; cbn [binary_normalize]; [cbn [fin_le]; lia| |nia].
  apply (binary_round_le p ez); [done|lia|]. replace (ez + 4000) with (ez + 1074 + 2926) by lia.
  rewrite (Z.pow_add_r _ _ 2926), Z.mul_assoc by lia. apply Z.mul_le_mono_nonneg_r; [by apply Z.pow_nonneg|lia].
Qed.

(** ** Rounding does not fall below a representable number *)

(** A canonical finite number that is not negative. *)
Definition nonneg (x : f64) : Prop := canonical x /\ fin_le x (fval x).

(** Positive infinity, or a number of at least [B] units. *)
Definition at_least (B : Z) (x : f64) : Prop := x = S754_infinity false \/ nonneg x /\ B <= fval x.

Lemma nonneg_fval x : nonneg x -> 0 <= fval x.
Proof. intros [_ H]. by destruct (fin_le_fval x (fval x) H) as [_ [? _]]. Qed.

Lemma canonical_mantissa s m e : canonical (S754_finite s m e) -> -1074 <= e /\ Zpos m < 2 ^ 53.
Proof.
  cbn [canonical]. unfold expo. cbn [Zdigits2]. intros H. pose proof (digits_bound m) as [_ U].
  split; [lia|]. eapply Z.lt_le_trans; [apply U|]. apply Z.pow_le_mono_r; lia.
Qed.

(** What is left after the first shift is still at least any canonical number below. *)
Lemma shifted_ge m e y : 0 < m -> -4000 <= e -> e <= expo m e -> nonneg y ->
  fval y * 2 ^ 2926 <= m * 2 ^ (e + 4000) ->
  fval y <= m / 2 ^ (expo m e - e) * 2 ^ (expo m e + 1074).
Proof.
  intros Hm He4 He [Cy Fy] Hle. set (E := expo m e) in *. assert (-1074 <= E) as HE by (unfold E, expo; lia).
  pose proof (shifted_bounds m e ltac:(lia) He) as [[B0 _] B2]. fold E in B0, B2.
  set (q := m / 2 ^ (E - e)) in *. pose proof (Z.pow_pos_nonneg 2 (E + 1074)) as HP.
  destruct y as [s|s| |s my ey]; cbn [fval] in *; try nia.
  destruct (canonical_mantissa _ _ _ Cy) as [Hey Hmy]. destruct (Z.le_gt_cases E ey) as [Hc|Hc].
  - replace (ey + 1074) with (ey - E + (E + 1074)) by lia. rewrite Z.pow_add_r, Z.mul_assoc by lia.
    apply Z.mul_le_mono_nonneg_r; [lia|]. apply Z.div_le_lower_bound; [apply Z.pow_pos_nonneg; lia|].
    apply (Z.mul_le_mono_pos_r _ _ (2 ^ (e + 4000))); [apply Z.pow_pos_nonneg; lia|].
    etrans; [|apply Hle]. apply Z.eq_le_incl.
    rewrite (Z.mul_comm (2 ^ (E - e))), <- !Z.mul_assoc, <- !Z.pow_add_r by lia. do 2 f_equal. lia.
  - specialize (B2 ltac:(lia) Hm).
    apply (Z.le_trans _ (2 ^ 53 * 2 ^ (ey + 1074))).
    { apply Z.mul_le_mono_nonneg_r; [apply Z.pow_nonneg; lia|lia]. }
    apply (Z.le_trans _ (2 ^ 52 * 2 ^ (E + 1074))).
    { rewrite <- !Z.pow_add_r by lia. apply Z.pow_le_mono_r; lia. }
    apply Z.mul_le_mono_nonneg_r; lia.
Qed.

Lemma round_aux_ge m e l y : 0 < m -> -4000 <= e -> e <= expo m e -> nonneg y ->
  fval y * 2 ^ 2926 <= m * 2 ^ (e + 4000) ->
  at_least (fval y) (binary_round_aux 53 1024 false m e l).
Proof.
  intros Hm He4 He Hy Hle. pose proof (round_aux_canonical false m e l ltac:(lia) He) as HC.
  pose proof (shifted_ge m e y Hm He4 He Hy Hle) as Hge. pose proof (nonneg_fval y Hy) as Hy0.
  unfold binary_round_aux in *. pose proof (shr_fexp_m m e l ltac:(lia) He) as [Em Ee].
  destruct (shr_fexp 53 1024 m e l) as [r e']. cbn [fst snd] in Em, Ee. subst e'.
  pose proof (shifted_bounds m e ltac:(lia) He) as [[B0 B1] _]. rewrite <- Em in B0, B1, Hge.
  set (E := expo m e) in *. assert (-1074 <= E) as HE by (unfold E, expo; lia). pose proof (Z.pow_pos_nonneg 2 (E + 1074)).
  set (m1 := round_nearest_even _ _) in *. assert (m1 = shr_m r \/ m1 = shr_m r + 1) as Hm1 by apply round_even_cases.
  assert (fval y <= m1 * 2 ^ (E + 1074)) as Hv by nia.
  assert (exists m2 e2, shr_m (fst (shr_fexp 53 1024 m1 E loc_Exact)) = m2 /\ snd (shr_fexp 53 1024 m1 E loc_Exact) = e2 /\
          0 <= m2 /\ -1074 <= e2 /\ m1 * 2 ^ (E + 1074) = m2 * 2 ^ (e2 + 1074)) as (m2 & e2 & Em2 & Ee2 & P2 & P3 & Hv2).
  { destruct (Z.eq_dec m1 (2 ^ 53)) as [E1|E1].
    - assert (expo m1 E = E + 1) as Hx. { rewrite E1. unfold expo. change (Zdigits2 (2 ^ 53)) with 54. lia. }
      pose proof (shr_fexp_m m1 E loc_Exact ltac:(lia) ltac:(lia)) as [Em2 Ee2]. rewrite Hx in Em2, Ee2.
      replace (E + 1 - E) with 1 in Em2 by lia. eexists _, _. split; [apply Em2|]. split; [apply Ee2|].
      rewrite E1. change (2 ^ 53 / 2 ^ 1) with (2 ^ 52). split; [lia|]. split; [lia|]. rewrite <- !Z.pow_add_r by lia. f_equal. lia.
    - exists m1, E. rewrite shr_fexp_eq.
      assert (expo m1 E <= E) as Hx.
      { destruct (Z.eq_dec m1 0) as [->|]; [unfold expo; cbn; lia|].
        assert (Zdigits2 m1 <= 53); [|unfold expo; lia]. change 53 with (Zdigits2 (2 ^ 53 - 1)). apply digits_mono. lia. }
      rewrite (proj2 (Z.leb_le _ _)) by done. split_and!; [done|done|lia|lia|done]. }
  destruct (shr_fexp 53 1024 m1 E loc_Exact) as [r2 e3]. cbn [fst snd] in Em2, Ee2. subst e3. rewrite Em2 in *.
  destruct m2 as [|p|p]; [right; split; [split; [done|cbn; lia]|cbn [fval]; lia]| |lia].
  destruct (e2 <=? 1024 - 53); [|by left]. right. split; [|cbn [fval]; lia]. split; [done|]. split_and!; [done|lia|cbn [fval]; lia].
Qed.

Lemma binary_round_ge m e y : -4000 <= e -> nonneg y -> fval y * 2 ^ 2926 <= Zpos m * 2 ^ (e + 4000) ->
  at_least (fval y) (binary_round 53 1024 false m e).
Proof.
  intros He Hy Hle. unfold binary_round. rewrite fexp_expo. pose proof (shl_align_spec m e (expo (Zpos m) e)) as H.
  destruct (shl_align m e _) as [mz ez]. destruct H as [Hez Hmz].
  assert (-1074 <= expo (Zpos m) e) by (unfold expo; lia).
  apply round_aux_ge; [lia|lia| |done|].
  - rewrite Hmz. replace ez with (e - (e - ez)) at 3 by lia. rewrite expo_shift by lia. lia.
  - rewrite Hmz, <- Z.mul_assoc, <- Z.pow_add_r by lia. by replace (e - ez + (ez + 4000)) with (e + 4000) by lia.
Qed.

Lemma nonneg_zero b : nonneg (S754_zero b).
Proof. done. Qed.

Lemma nonneg_finite s m e : nonneg (S754_finite s m e) -> s = false /\ -1074 <= e.
Proof. intros [_ (? & ? & _)]. done. Qed.

(** A sum with a number that is not negative is not below the first summand. *)
Lemma f_add_ge x y : nonneg x -> at_least 0 y -> at_least (fval x) (f_add x y).
Proof.
  intros Hx [->|[Hy _]]; [left; destruct x as [[]|[]| |[]]; try done; by destruct Hx|].
  pose proof (nonneg_fval x Hx) as Px. pose proof (nonneg_fval y Hy) as Py.
  destruct x as [sx|sx| |sx mx ex], y as [sy|sy| |sy my ey]; try (by destruct Hx); try (by destruct Hy).
  - right. destruct sx, sy; (split; [apply nonneg_zero|done]).
  - right. split; [done|]. exact Py.
  - right. split; [done|]. cbn [f_add SFadd]. done.
  - destruct (nonneg_finite _ _ _ Hx) as [-> Hex], (nonneg_finite _ _ _ Hy) as [-> Hey].
    cbn [f_add SFadd cond_Zopp]. set (ez := Z.min ex ey).
    pose proof (shl_align_spec mx ex ez) as S1. pose proof (shl_align_spec my ey ez) as S2.
    destruct (shl_align mx ex ez) as [m1 e1], (shl_align my ey ez) as [m2 e2]. cbn [fst].
    destruct S1 as [-> S1], S2 as [-> S2]. replace (Z.min ex ez) with ez in S1 by lia.
    rewrite <- Pos2Z.inj_add. cbn [binary_normalize]. apply binary_round_ge; [lia|done|].
    cbn [fval]. rewrite Pos2Z.inj_add, S1. pose proof (Z.pow_pos_nonneg 2 (ez + 4000)).
    apply (Z.le_trans _ (Zpos mx * 2 ^ (ex - ez) * 2 ^ (ez + 4000))); [|nia].
    rewrite <- !Z.mul_assoc, <- !Z.pow_add_r by lia. apply Z.eq_le_incl. do 2 f_equal. lia.
Qed.

(** A product of numbers that are not negative is not negative, and one with a factor of at
    least one is not below the other factor. *)
Lemma f_mul_ge x y : nonneg x -> nonneg y ->
  at_least (if 2 ^ 1074 <=? fval y then fval x else 0) (f_mul x y).
Proof.
  intros Hx Hy. destruct x as [sx|sx| |sx mx ex], y as [sy|sy| |sy my ey]; try (by destruct Hx); try (by destruct Hy).
  1-3: right; (split; [apply nonneg_zero|]); by case_match.
  destruct (nonneg_finite _ _ _ Hx) as [-> Hex], (nonneg_finite _ _ _ Hy) as [-> Hey].
  cbn [f_mul SFmul xorb]. pose proof (f_mul_expo mx ex my ey (proj1 Hx) (proj1 Hy)) as He.
  destruct (Z.leb_spec (2 ^ 1074) (fval (S754_finite false my ey))) as [Hle|_].
  - apply round_aux_ge; [lia|lia|done|done|]. cbn [fval] in *.
    assert (2 ^ 2926 * 2 ^ 1074 <= Zpos my * 2 ^ (ey + 4000)) as Hle2.
    { replace (ey + 4000) with (2926 + (ey + 1074)) by lia. rewrite Z.pow_add_r, Z.mul_assoc by lia.
      rewrite (Z.mul_comm _ (2 ^ 2926)), <- Z.mul_assoc. apply Z.mul_le_mono_nonneg_l; [by apply Z.pow_nonneg|done]. }
    rewrite Pos2Z.inj_mul, <- Z.mul_assoc. rewrite <- Z.mul_assoc. apply Z.mul_le_mono_nonneg_l; [lia|].
    destruct (Z.le_gt_cases 0 ex).
    + replace (ex + ey + 4000) with (ey + 4000 + ex) by lia. rewrite (Z.pow_add_r _ (ey + 4000)), Z.mul_assoc by lia.
      rewrite <- Z.pow_add_r in Hle2 by lia. replace (ex + 1074) with (1074 + ex) by lia.
      rewrite (Z.pow_add_r _ 1074), <- (Z.mul_comm (2 ^ 2926)), Z.mul_assoc, <- (Z.pow_add_r _ 2926) by lia.
      apply Z.mul_le_mono_nonneg_r; [apply Z.pow_nonneg; lia|done].
    + apply (Z.mul_le_mono_pos_r _ _ (2 ^ (- ex))); [apply Z.pow_pos_nonneg; lia|].
      rewrite <- !Z.mul_assoc, <- !Z.pow_add_r by lia. replace (ex + ey + 4000 + - ex) with (ey + 4000) by lia.
      replace (ex + 1074 + (2926 + - ex)) with (2926 + 1074) by lia. by rewrite Z.pow_add_r by lia.
  - apply (round_aux_ge _ _ _ f_zero); [lia|lia|done|done|]. apply Z.mul_nonneg_nonneg; [lia|apply Z.pow_nonneg; lia].
Qed.

Lemma nonneg_intro x : canonical x -> f_is_finite x = true -> f_lt x f_zero = false -> nonneg x.
Proof.
  intros Hc Hf Hl. split; [done|]. destruct x as [|[]| |[] m e]; try done.
  destruct (canonical_mantissa _ _ _ Hc). cbn [fin_le fval]. by split_and!.
Qed.

Lemma nonneg_of_Z z : is_u64 z -> nonneg (f_of_Z z).
Proof.
  intros Hz. split; [apply f_of_Z_canonical|]. apply (fin_le_fval _ (2 ^ 64 * 2 ^ 1074)).
  unfold is_u64 in Hz. apply fin_le_of_Z; [exists 1, (64 + 1074); rewrite Z.pow_add_r by lia; lia|lia|].
  apply Z.mul_le_mono_nonneg_r; [by apply Z.pow_nonneg|lia].
Qed.

Lemma nonneg_finite_true x : nonneg x -> f_is_finite x = true.
Proof. intros [_ H]. by eapply fin_le_finite. Qed.

Lemma nonneg_not_neg x : nonneg x -> f_lt x f_zero = false.
Proof. intros [_ H]. destruct x as [| | |[]]; try done. by destruct H. Qed.

Lemma f_le_nonneg x y : nonneg x -> nonneg y -> f_le x y = (fval x <=? fval y).
Proof. intros [Cx Fx] [Cy Fy]. by apply (f_le_fval x y (fval x) (fval y)). Qed.

Lemma f_lt_nonneg x y : nonneg x -> nonneg y -> f_lt x y = (fval x <? fval y).
Proof. intros [Cx Fx] [Cy Fy]. by apply (f_lt_fval x y (fval x) (fval y)). Qed.

Lemma f_max_at_least x y : canonical x -> nonneg y -> at_least 0 (f_max x y).
Proof.
  intros Cx Hy. assert (at_least 0 y) as Ay by (right; split; [done|by apply nonneg_fval]).
  unfold f_max. destruct (is_nan x) eqn:Ex; [done|]. replace (is_nan y) with false by (by destruct y; destruct Hy).
  destruct (f_lt x y) eqn:El; [done|]. destruct x as [|[]| |[] m e]; try done.
  - right. split; [apply nonneg_zero|done].
  - destruct y as [|[]| |[]]; try done; by destruct Hy.
  - by left.
  - destruct y as [|[]| |[]]; try done; by destruct Hy as [_ []].
  - right. assert (nonneg (S754_finite false m e)) as Hn by (by apply nonneg_intro). split; [done|by apply nonneg_fval].
Qed.

(** The code keeps the old number when the new one is not finite. *)
Lemma finite_or_ge B z x : at_least B z -> nonneg x -> B <= fval x ->
  nonneg (if f_is_finite z then z else x) /\ B <= fval (if f_is_finite z then z else x).
Proof. intros [->|[Hz Hb]] Hx Hle; [done|]. by rewrite (nonneg_finite_true z Hz). Qed.

Lemma f_mul_nonneg x y : nonneg x -> nonneg y -> at_least 0 (f_mul x y).
Proof.
  intros Hx Hy. destruct (f_mul_ge x y Hx Hy) as [H|[H _]]; [by left|]. right. split; [done|by apply nonneg_fval].
Qed.
