(* ===== verification/JsNumber.v ===== *)
(** * Integers carried by JavaScript numbers

    A browser's numbers are [f64]s.  The bindings take a 64-bit integer from one only if it is a
    non-negative integer of at most [2^53 - 1]; this file has that test and shows that below this
    bound the two conversions are inverse to each other. *)

From Stdlib Require Import SpecFloat.
From stdpp Require Import base numbers list option.
From S2P Require Import Prelude Float64 FloatOrder.

(** [==] on [f64]s. *)
Definition f_eq : f64 -> f64 -> bool := SFeqb.

(** [f64::trunc] and [f64::fract]. *)
Definition f_trunc (x : f64) : f64 :=
  match x with
  | S754_finite s m e =>
      if 0 <=? e then x else binary_normalize 53 1024 (cond_Zopp s (Zpos m / 2 ^ (- e))) 0 s
  | _ => x
  end.

Definition f_fract (x : f64) : f64 := f_sub x (f_trunc x).

Definition MAX_SAFE_U64 : Z := 9007199254740991.
Definition MAX_SAFE_U64_F64 : f64 := f_of_Z 9007199254740991.

(** The guard of the conversion. *)
Definition unsafe_number (value : f64) : bool :=
  negb (f_is_finite value) || f_lt value f_zero || negb (f_eq (f_fract value) f_zero)
  || f_lt MAX_SAFE_U64_F64 value.

(** ** Exact results *)

(** What is canonical already is not rounded. *)
Lemma round_canonical s m e : canonical (S754_finite s m e) -> e <= 971 ->
  binary_round_aux 53 1024 s (Zpos m) e loc_Exact = S754_finite s m e.
Proof.
  cbn [canonical]. intros Hc He. unfold binary_round_aux. change (1024 - 53) with 971.
  assert (shr_fexp 53 1024 (Zpos m) e loc_Exact = (shr_record_of_loc (Zpos m) loc_Exact, e)) as E.
  { rewrite shr_fexp_eq, (proj2 (Z.leb_le _ _)) by lia. done. }
  rewrite E. cbn [shr_record_of_loc shr_m shr_r shr_s loc_of_shr_record round_nearest_even]. rewrite E.
  cbn [shr_record_of_loc shr_m]. by rewrite (proj2 (Z.leb_le _ _)) by lia.
Qed.

(** An integer of at most 53 bits. *)
Lemma f_of_Z_exact z : 0 < z < 2 ^ 53 ->
  exists m, f_of_Z z = S754_finite false m (Zdigits2 z - 53) /\ Zpos m = z * 2 ^ (53 - Zdigits2 z).
Proof.
  intros Hz. destruct z as [|p|p]; try lia. cbn [f_of_Z binary_normalize]. unfold binary_round. rewrite fexp_expo.
  assert (1 <= Zdigits2 (Zpos p) <= 53) as Hd.
  { split; [cbn; lia|]. change 53 with (Zdigits2 (2 ^ 53 - 1)). apply digits_mono. lia. }
  assert (expo (Zpos p) 0 = Zdigits2 (Zpos p) - 53) as Ex by (unfold expo; lia).
  pose proof (shl_align_spec p 0 (expo (Zpos p) 0)) as H. destruct (shl_align p 0 _) as [mz ez]. destruct H as [Hez Hmz].
  rewrite Ex, Z.min_r in Hez by lia. subst ez. exists mz.
  replace (0 - (Zdigits2 (Zpos p) - 53)) with (53 - Zdigits2 (Zpos p)) in Hmz by lia. split; [|done].
  apply round_canonical; [|lia]. cbn [canonical]. rewrite Hmz.
  pose proof (expo_shift (Zpos p) (53 - Zdigits2 (Zpos p)) 0 ltac:(lia) ltac:(lia)) as Es. rewrite Ex in Es. rewrite <- Es at 2. f_equal. lia.
Qed.

Lemma fval_of_Z z : 0 <= z < 2 ^ 53 -> fval (f_of_Z z) = z * 2 ^ 1074 /\ fin_le (f_of_Z z) (z * 2 ^ 1074).
Proof.
  intros Hz. destruct (Z.eq_dec z 0) as [->|]; [done|].
  destruct (f_of_Z_exact z ltac:(lia)) as (m & E & Em). rewrite E. cbn [fval fin_le]. rewrite Em.
  assert (1 <= Zdigits2 z <= 53) as Hd.
  { split; [destruct z; cbn; lia|]. change 53 with (Zdigits2 (2 ^ 53 - 1)). apply digits_mono. lia. }
  rewrite <- Z.mul_assoc, <- Z.pow_add_r by lia. replace (53 - Zdigits2 z + (Zdigits2 z - 53 + 1074)) with 1074 by lia.
  split; [done|]. split; [done|]. split; [lia|done].
Qed.

(** Canonical numbers are determined by their value. *)
Lemma fval_inj x y Bx By : fin_le x Bx -> fin_le y By -> canonical x -> canonical y -> fval x = fval y -> 0 < fval x -> x = y.
Proof.
  intros Hx Hy Cx Cy E H0. destruct x as [| | |s m e], y as [| | |s' m' e']; cbn [fval] in *; try done; try lia.
  destruct Hx as (-> & He & _), Hy as (-> & He' & _).
  destruct (Z.lt_trichotomy e e') as [Hl|[->|Hl]].
  - pose proof (canonical_exp_lt _ _ _ _ _ _ Cx Cy Hl). lia.
  - pose proof (Z.pow_pos_nonneg 2 (e' + 1074)). assert (Zpos m = Zpos m') as [= ->] by nia. done.
  - pose proof (canonical_exp_lt _ _ _ _ _ _ Cy Cx Hl). lia.
Qed.

(** ** No number but zero rounds to zero *)

Lemma round_aux_nonzero s m e l : 0 < m -> -1074 <= e <= expo m e ->
  f_eq (binary_round_aux 53 1024 s m e l) f_zero = false.
Proof.
  intros Hm He. pose proof (shr_fexp_m m e l ltac:(lia) ltac:(lia)) as [Em Ee].
  pose proof (shifted_bounds m e ltac:(lia) ltac:(lia)) as [[B0 B1] B2].
  assert (0 < m / 2 ^ (expo m e - e)) as Hp.
  { destruct (Z.eq_dec (expo m e) (-1074)) as [E|E]; [|assert (-1074 <= expo m e) by lia; specialize (B2 ltac:(lia) Hm); lia].
    replace (expo m e - e) with 0 by lia. by rewrite Z.div_1_r. }
  unfold binary_round_aux. destruct (shr_fexp 53 1024 m e l) as [r e']. cbn [fst snd] in Em, Ee. subst e'. rewrite <- Em in *.
  set (E := expo m e) in *. assert (-1074 <= E) as HE by lia.
  set (m1 := round_nearest_even _ _). assert (m1 = shr_m r \/ m1 = shr_m r + 1) as Hm1 by apply round_even_cases.
  assert (0 < shr_m (fst (shr_fexp 53 1024 m1 E loc_Exact))) as H2.
  { rewrite shr_fexp_eq. destruct (Z.leb_spec (expo m1 E) E); cbn [fst shr_record_of_loc shr_m]; [lia|].
    rewrite shr_iter_m by (cbn; lia). cbn [shr_m]. rewrite Z2Nat.id by lia.
    destruct (shifted_bounds m1 E ltac:(lia) ltac:(lia)) as [_ B3]. specialize (B3 ltac:(lia) ltac:(lia)). lia. }
  destruct (shr_fexp 53 1024 m1 E loc_Exact) as [r2 e2]. cbn [fst] in H2. destruct (shr_m r2); try lia. by destruct (e2 <=? _), s.
Qed.

Lemma normalize_nonzero p e : -1074 <= e -> f_eq (binary_normalize 53 1024 (Zpos p) e false) f_zero = false.
Proof.
  intros He. cbn [binary_normalize]. unfold binary_round. rewrite fexp_expo.
  pose proof (shl_align_spec p e (expo (Zpos p) e)) as H. destruct (shl_align p e _) as [mz ez]. destruct H as [Hez Hmz].
  assert (-1074 <= expo (Zpos p) e) by (unfold expo; lia).
  assert (expo (Zpos mz) ez = expo (Zpos p) e) as Ex.
  { rewrite Hmz. rewrite <- (expo_shift (Zpos p) (e - ez) e) by lia. f_equal. lia. }
  apply round_aux_nonzero; [done|lia].
Qed.

(** The difference of two finite numbers is zero only when they are equal. *)
Lemma f_sub_zero m e m' e' : -1074 <= e -> -1074 <= e' -> fval (S754_finite false m' e') <= fval (S754_finite false m e) ->
  f_eq (f_sub (S754_finite false m e) (S754_finite false m' e')) f_zero =
  (fval (S754_finite false m e) =? fval (S754_finite false m' e')).
Proof.
  intros He He' Hle. cbn [f_sub SFsub cond_Zopp fval] in *.
  set (ez := Z.min e e'). pose proof (shl_align_spec m e ez) as S1. pose proof (shl_align_spec m' e' ez) as S2.
  destruct (shl_align m e ez) as [m1 e1], (shl_align m' e' ez) as [m2 e2]. cbn [fst].
  destruct S1 as [-> S1], S2 as [-> S2].
  replace (Z.min e ez) with ez in S1 by lia. replace (Z.min e' ez) with ez in S2 by lia.
  assert ((Zpos m1 - Zpos m2) * 2 ^ (ez + 1074) = Zpos m * 2 ^ (e + 1074) - Zpos m' * 2 ^ (e' + 1074)) as Hd.
  { rewrite S1, S2, Z.mul_sub_distr_r, <- !Z.mul_assoc, <- !Z.pow_add_r by lia.
    replace (e - ez + (ez + 1074)) with (e + 1074) by lia. by replace (e' - ez + (ez + 1074)) with (e' + 1074) by lia. }
  pose proof (Z.pow_pos_nonneg 2 (ez + 1074)) as Hp.
  destruct (Zpos m1 - Zpos m2) as [|p|p] eqn:Ed; [|rewrite normalize_nonzero by lia|nia].
  - symmetry. apply Z.eqb_eq. lia.
  - symmetry. apply Z.eqb_neq. nia.
Qed.

(** ** The conversion *)

(** A canonical positive number below [2^53] is an integer when its fraction is zero. *)
Lemma fract_integer m e : canonical (S754_finite false m e) -> Zpos m * 2 ^ (e + 1074) < 2 ^ 1127 ->
  f_eq (f_fract (S754_finite false m e)) f_zero = (Zpos m * 2 ^ (e + 1074) =? f_to_u64 (S754_finite false m e) * 2 ^ 1074)
  /\ 0 <= f_to_u64 (S754_finite false m e) < 2 ^ 53 /\ f_to_u64 (S754_finite false m e) * 2 ^ 1074 <= Zpos m * 2 ^ (e + 1074).
Proof.
  intros Hc Hv. destruct (canonical_small _ _ _ Hc Hv) as [He Hm]. unfold f_fract, f_trunc, f_to_u64.
  set (q := Zpos m / 2 ^ (- e)). pose proof (Z.pow_pos_nonneg 2 (- e) ltac:(lia) ltac:(lia)) as Hp.
  assert (0 <= q < 2 ^ 53) as Hq. { split; [apply Z.div_pos; lia|]. apply Z.div_lt_upper_bound; [lia|]. nia. }
  assert (q * 2 ^ 1074 <= Zpos m * 2 ^ (e + 1074)) as Hle.
  { replace 1074 with (- e + (e + 1074)) at 1 by lia. rewrite Z.pow_add_r, Z.mul_assoc by lia.
    apply Z.mul_le_mono_nonneg_r; [apply Z.pow_nonneg; lia|]. rewrite Z.mul_comm. apply Z.mul_div_le. lia. }
  destruct (Z.leb_spec 0 e) as [H0|H0].
  - assert (e = 0) as -> by lia. change (2 ^ 0) with 1. rewrite Z.mul_1_r, Z.min_r by (unfold u64_max; lia).
    rewrite f_sub_zero by lia. rewrite !Z.eqb_refl. split; [done|]. split; lia.
  - rewrite Z.min_r by (unfold u64_max; lia). split; [|done]. cbn [cond_Zopp].
    destruct (Z.eq_dec q 0) as [E|E]; [rewrite E; cbn; symmetry; apply Z.eqb_neq; pose proof (Z.pow_pos_nonneg 2 (e + 1074)); nia|].
    destruct (fval_of_Z q Hq) as [Ev _]. destruct (f_of_Z_exact q ltac:(lia)) as (m' & Eq & _).
    change (binary_normalize 53 1024 q 0 false) with (f_of_Z q). rewrite Eq in *. rewrite f_sub_zero.
    + by rewrite Ev.
    + lia.
    + pose proof (digits_nonneg q). lia.
    + rewrite Ev. done.
Qed.

Lemma f_to_u64_of_Z z : 0 <= z < 2 ^ 53 -> f_to_u64 (f_of_Z z) = z.
Proof.
  intros Hz. destruct (Z.eq_dec z 0) as [->|]; [done|]. destruct (f_of_Z_exact z ltac:(lia)) as (m & E & Em). rewrite E.
  assert (1 <= Zdigits2 z <= 53) as Hd.
  { split; [destruct z; cbn; lia|]. change 53 with (Zdigits2 (2 ^ 53 - 1)). apply digits_mono. lia. }
  cbn [f_to_u64]. rewrite Em. destruct (Z.leb_spec 0 (Zdigits2 z - 53)).
  - replace (Zdigits2 z) with 53 in * by lia. cbn. unfold u64_max. lia.
  - replace (- (Zdigits2 z - 53)) with (53 - Zdigits2 z) by lia. rewrite Z.div_mul by (apply Z.pow_nonzero; lia).
    unfold u64_max. lia.
Qed.

(** Every integer up to [2^53 - 1] passes. *)
Lemma safe_integer z : 0 <= z <= MAX_SAFE_U64 -> unsafe_number (f_of_Z z) = false.
Proof.
  unfold MAX_SAFE_U64. intros Hz. destruct (Z.eq_dec z 0) as [->|]; [done|].
  destruct (fval_of_Z z ltac:(lia)) as [Ev Hf]. pose proof (f_of_Z_canonical z) as Hc.
  destruct (fval_of_Z 9007199254740991 ltac:(lia)) as [Em Hm]. pose proof (f_of_Z_canonical 9007199254740991) as Cm.
  pose proof (f_to_u64_of_Z z ltac:(lia)) as Eu. destruct (f_of_Z_exact z ltac:(lia)) as (m & E & _).
  assert (f_lt MAX_SAFE_U64_F64 (f_of_Z z) = false) as E4.
  { unfold MAX_SAFE_U64_F64. rewrite (f_lt_fval _ _ _ _ Hm Hf Cm Hc), Ev, Em. apply Z.ltb_ge. apply Z.mul_le_mono_nonneg_r; [by apply Z.pow_nonneg|lia]. }
  unfold unsafe_number. rewrite E4. rewrite E in *. cbn [f_is_finite f_lt SFltb SFcompare f_zero negb orb] in *.
  cbn [fval] in Ev. destruct (fract_integer m (Zdigits2 z - 53)) as [-> _]; [done| |].
  - rewrite Ev. change (2 ^ 1127) with (2 ^ 53 * 2 ^ 1074). apply Z.mul_lt_mono_pos_r; [by apply Z.pow_pos_nonneg|lia].
  - rewrite Eu, Ev, Z.eqb_refl. done.
Qed.

(** A number that passes is such an integer, or the negative zero. *)
Lemma unsafe_number_spec x : canonical x -> unsafe_number x = false ->
  0 <= f_to_u64 x <= MAX_SAFE_U64 /\ f_eq x (f_of_Z (f_to_u64 x)) = true /\
  (x = f_of_Z (f_to_u64 x) \/ x = S754_zero true).
Proof.
  intros Hc H. unfold unsafe_number in H. rewrite !orb_false_iff, negb_false_iff in H. destruct H as [[[Hf Hn] Hz] Hm].
  destruct x as [s|s| |[] m e]; try discriminate.
  { destruct s; (split; [vm_compute; by split|]); split; [done|auto|done|auto]. }
  apply negb_false_iff in Hz.
  destruct (fval_of_Z 9007199254740991 ltac:(lia)) as [Em Fm]. pose proof (f_of_Z_canonical 9007199254740991) as Cm.
  assert (-1074 <= e) as He by (cbn [canonical] in Hc; unfold expo in Hc; lia).
  assert (fin_le (S754_finite false m e) (Zpos m * 2 ^ (e + 1074))) as Hx by (split; [done|split; [done|lia]]).
  unfold MAX_SAFE_U64_F64 in Hm. rewrite (f_lt_fval _ _ _ _ Fm Hx Cm Hc), Em in Hm. apply Z.ltb_ge in Hm. cbn [fval] in Hm.
  destruct (fract_integer m e Hc) as (E1 & Hr & _).
  { eapply Z.le_lt_trans; [apply Hm|]. change (2 ^ 1127) with (2 ^ 53 * 2 ^ 1074). apply Z.mul_lt_mono_pos_r; [by apply Z.pow_pos_nonneg|lia]. }
  rewrite Hz in E1. symmetry in E1. apply Z.eqb_eq in E1. set (z := f_to_u64 _) in *.
  pose proof (Z.pow_pos_nonneg 2 1074 ltac:(lia) ltac:(lia)) as Hp. pose proof (Z.pow_pos_nonneg 2 (e + 1074)) as Hpe.
  destruct (fval_of_Z z Hr) as [Ez Fz]. pose proof (f_of_Z_canonical z) as Cz.
  split; [unfold MAX_SAFE_U64; nia|].
  assert (S754_finite false m e = f_of_Z z) as Ex.
  { eapply fval_inj; [exact Hx|exact Fz|done|done| |]; cbn [fval]; nia. }
  split; [|by left]. unfold f_eq, SFeqb. rewrite (f_compare_fval _ _ _ _ Hx Fz Hc Cz), Ez. cbn [fval]. by rewrite E1, Z.compare_refl.
Qed.
