(* ===== verification/Decimal.v ===== *)
(** * Decimal and hexadecimal text, as [format!] prints integers *)

From stdpp Require Import base numbers list option strings.
From S2P Require Import Prelude.

(** ** [format!("{code:0>width$}")] *)

(** The decimal digits of [z], with [n] bounding their number. *)
Fixpoint dec (n : nat) (z : Z) : bytes :=
  match n with
  | O => []
  | S n' => if z <? 10 then [48 + z] else dec n' (z / 10) ++ [48 + z mod 10]
  end.

(** A 64-bit integer has at most 20 digits. *)
Definition fmt_padded (width : nat) (z : Z) : bytes :=
  let s := dec 20 z in replicate (width - length s) 48 ++ s.

(** Exactly [n] decimal digits, the reference for the padded format. *)
Fixpoint to_dec (n : nat) (z : Z) : bytes :=
  match n with O => [] | S n' => to_dec n' (z / 10) ++ [48 + z mod 10] end.

Lemma to_dec_length n z : length (to_dec n z) = n.
Proof. revert z; induction n as [|n IH]; intros z; cbn [to_dec]; [done|]. rewrite length_app, IH. cbn. lia. Qed.

Lemma to_dec_zero n : to_dec n 0 = replicate n 48.
Proof.
  induction n as [|n IH]; [done|]. cbn [to_dec]. change (0 / 10) with 0. change (48 + 0 mod 10) with 48.
  rewrite IH, replicate_S_end. done.
Qed.

Lemma to_dec_digits n z : Forall (fun b => 48 <= b <= 57) (to_dec n z).
Proof.
  revert z; induction n as [|n IH]; intros z; cbn [to_dec]; [constructor|].
  apply Forall_app_2; [apply IH|]. repeat constructor; pose proof (Z.mod_pos_bound z 10); lia.
Qed.

Lemma to_dec_inj n a b :
  0 <= a < 10 ^ Z.of_nat n -> 0 <= b < 10 ^ Z.of_nat n -> to_dec n a = to_dec n b -> a = b.
Proof.
  revert a b; induction n as [|n IH]; intros a b Ha Hb; cbn [to_dec]; [cbn in *; lia|].
  replace (10 ^ Z.of_nat (S n)) with (10 * 10 ^ Z.of_nat n) in *
    by (rewrite Nat2Z.inj_succ, Z.pow_succ_r by lia; done).
  intros E. apply app_inj_tail in E as [E1 E2].
  apply IH in E1; [|split; [apply Z.div_pos|apply Z.div_lt_upper_bound]; lia..].
  rewrite (Z.div_mod a 10), (Z.div_mod b 10) by lia. congruence || lia.
Qed.

Lemma dec_to_dec n z :
  0 <= z < 10 ^ Z.of_nat n -> (0 < n)%nat -> exists k, (k <= n)%nat /\
    length (dec n z) = k /\ replicate (n - k) 48 ++ dec n z = to_dec n z.
Proof.
  revert z; induction n as [|n IH]; intros z Hz Hn; [lia|].
  replace (10 ^ Z.of_nat (S n)) with (10 * 10 ^ Z.of_nat n) in Hz
    by (rewrite Nat2Z.inj_succ, Z.pow_succ_r by lia; done).
  cbn [dec to_dec]. destruct (Z.ltb_spec z 10) as [Hlt|Hge].
  - exists 1%nat. split_and!; [lia|done|]. rewrite Z.div_small, to_dec_zero, Z.mod_small by lia.
    by replace (S n - 1)%nat with n by lia.
  - destruct (IH (z / 10)) as (k & Hk & Hl & E).
    { split; [apply Z.div_pos|apply Z.div_lt_upper_bound]; lia. }
    { destruct n; [cbn in Hz; lia|lia]. }
    exists (S k). rewrite length_app, Hl. cbn [length]. split_and!; [lia|lia|].
    rewrite app_assoc. replace (S n - S k)%nat with (n - k)%nat by lia. by rewrite E.
Qed.

(** More fuel does not change the digits. *)
Lemma dec_fuel n m z : 0 <= z < 10 ^ Z.of_nat n -> (0 < n <= m)%nat -> dec m z = dec n z.
Proof.
  revert m z; induction n as [|n IH]; intros m z Hz Hn; [lia|]. destruct m as [|m]; [lia|].
  replace (10 ^ Z.of_nat (S n)) with (10 * 10 ^ Z.of_nat n) in Hz
    by (rewrite Nat2Z.inj_succ, Z.pow_succ_r by lia; done).
  cbn [dec]. destruct (Z.ltb_spec z 10); [done|]. f_equal. apply IH.
  - split; [apply Z.div_pos|apply Z.div_lt_upper_bound]; lia.
  - destruct n; [cbn in Hz; lia|lia].
Qed.

Lemma fmt_padded_to_dec n z :
  0 <= z < 10 ^ Z.of_nat n -> (0 < n <= 20)%nat -> fmt_padded n z = to_dec n z.
Proof.
  intros Hz Hn. unfold fmt_padded. rewrite (dec_fuel n 20 z) by (done || lia).
  destruct (dec_to_dec n z) as (k & Hk & Hl & E); [done|lia|]. by rewrite Hl.
Qed.

(** [{:x}] of a 16-bit integer: lower-case digits without leading zeros. *)
Definition hex_char (d : Z) : Z := if d <? 10 then 48 + d else 87 + d.

Fixpoint hex (n : nat) (z : Z) : bytes :=
  match n with
  | O => []
  | S n' => if z <? 16 then [hex_char z] else hex n' (z / 16) ++ [hex_char (z mod 16)]
  end.

(** Two decimal texts end at the first byte that is not a digit. *)
Lemma dec_digits n z : 0 <= z -> Forall (fun b => 48 <= b <= 57) (dec n z).
Proof.
  revert z. induction n as [|n IH]; intros z Hz; cbn [dec]; [constructor|].
  destruct (Z.ltb_spec z 10); [repeat constructor; lia|].
  apply Forall_app_2; [apply IH, Z.div_pos; lia|]. pose proof (Z.mod_pos_bound z 10). repeat constructor; lia.
Qed.

Lemma dec_inj n a b :
  0 <= a < 10 ^ Z.of_nat n -> 0 <= b < 10 ^ Z.of_nat n -> (0 < n)%nat -> dec n a = dec n b -> a = b.
Proof.
  intros Ha Hb Hn E. apply (to_dec_inj n); [done..|].
  destruct (dec_to_dec n a Ha Hn) as (k & _ & Hk & <-). destruct (dec_to_dec n b Hb Hn) as (k' & _ & Hk' & <-).
  rewrite E in *. congruence.
Qed.

Lemma split_at_stop (stop : Z) (a a' b b' : bytes) :
  ~ (48 <= stop <= 57) -> Forall (fun x => 48 <= x <= 57) a -> Forall (fun x => 48 <= x <= 57) a' ->
  a ++ stop :: b = a' ++ stop :: b' -> a = a' /\ b = b'.
Proof.
  intros Hs Ha. revert a'. induction Ha as [|x a Hx _ IH]; intros [|y a'] Ha' E; cbn in E.
  - by injection E.
  - inversion Ha'; subst. injection E as -> _. lia.
  - injection E as -> _. lia.
  - inversion Ha'; subst. injection E as -> E. by destruct (IH a' ltac:(done) E) as [-> ->].
Qed.
