(* ===== verification/Types.v ===== *)
(** * sh-types: identifiers shared by every crate

    [crates/sh-types/src/lib.rs]: the wire-stable channel discriminants, the transport
    kinds and the integer side of [Bitrate].  The wall clock ([Clock::now_unix_secs]) is
    an argument [now] of every operation that reads it. *)

From stdpp Require Import base numbers list option.
From S2P Require Import Prelude.

(** ** Channels *)

Inductive ChannelId := Video | Audio | Input | Clipboard | File | Control.

#[global] Instance ChannelId_eq_dec : EqDecision ChannelId.
Proof. solve_decision. Defined.

Record InvalidChannelId := { invalid_channel_byte : Z }.

(** [impl From<ChannelId> for u8]. *)
Definition channel_to_u8 (channel : ChannelId) : Z :=
  match channel with
  | Video => 0
  | Audio => 1
  | Input => 2
  | Clipboard => 3
  | File => 4
  | Control => 5
  end.

(** [impl TryFrom<u8> for ChannelId]. *)
Definition channel_try_from (byte : Z) : result InvalidChannelId ChannelId :=
  match byte with
  | 0 => Ok Video
  | 1 => Ok Audio
  | 2 => Ok Input
  | 3 => Ok Clipboard
  | 4 => Ok File
  | 5 => Ok Control
  | other => Err {| invalid_channel_byte := other |}
  end.

Lemma channel_try_from_to c : channel_try_from (channel_to_u8 c) = Ok c.
Proof. by destruct c. Qed.

Lemma channel_to_u8_range c : 0 <= channel_to_u8 c < 6.
Proof. destruct c; cbn; lia. Qed.

Lemma channel_try_from_Ok b c : channel_try_from b = Ok c -> b = channel_to_u8 c.
Proof.
  unfold channel_try_from. intros H.
  repeat case_match; try discriminate; injection H as <-; reflexivity.
Qed.

Lemma channel_to_u8_inj c1 c2 : channel_to_u8 c1 = channel_to_u8 c2 -> c1 = c2.
Proof. by destruct c1, c2. Qed.

#[export] Hint Rewrite channel_try_from_to : shp.

(** ** Transports *)

Inductive TransportKind := Quic | Webrtc.

#[global] Instance TransportKind_eq_dec : EqDecision TransportKind.
Proof. solve_decision. Defined.

(** ** Bitrates (the integer interface) *)

Module Bitrate.

Record t := mk { bps : Z }.

Definition ZERO : t := mk 0.
Definition from_bps (b : Z) : t := mk b.
Definition from_kbps (kbps : Z) : t := mk (sat_mul u64_max kbps 1000).
Definition from_mbps (mbps : Z) : t := mk (sat_mul u64_max mbps 1000000).
Definition as_bps (b : t) : Z := bps b.
Definition as_kbps (b : t) : Z := bps b / 1000.
Definition as_mbps (b : t) : Z := bps b / 1000000.
Definition clamp (self min max : t) : t :=
  if bps self <? bps min then min
  else if bps max <? bps self then max
  else self.
Definition saturating_add (self rhs : t) : t := mk (sat_add u64_max (bps self) (bps rhs)).
Definition saturating_sub (self rhs : t) : t := mk (sat_sub (bps self) (bps rhs)).

(** A representable bitrate. *)
Definition wf (b : t) : Prop := is_u64 (bps b).

Lemma ops_wf a b k :
  wf a -> wf b -> is_u64 k ->
  wf (from_bps k) /\ wf (from_kbps k) /\ wf (from_mbps k) /\
  wf (saturating_add a b) /\ wf (saturating_sub a b).
Proof.
  unfold wf, is_u64; cbn; unfold sat_mul, sat_add, sat_sub, u64_max. lia.
Qed.

Lemma clamp_spec self min max :
  bps min <= bps max ->
  bps min <= bps (clamp self min max) <= bps max /\
  (bps min <= bps self <= bps max -> clamp self min max = self).
Proof.
  intros H. unfold clamp.
  destruct (Z.ltb_spec (bps self) (bps min)), (Z.ltb_spec (bps max) (bps self));
    split; try lia; intros; try done; lia.
Qed.

End Bitrate.
