(* ===== verification/ShpWire.v ===== *)
(** * sh-protocol: errors, bit helpers and the codec interface

    [crates/sh-protocol/src/error.rs] and [bits.rs], and the interface [WireCodec] that
    every fixed-length SHP message implements and that the packetizer and the file
    orchestrator rely on. *)

From stdpp Require Import base numbers list option.
From S2P Require Import Prelude Types.

Inductive ProtocolError :=
| Truncated (needed have : Z)
| UnsupportedVersion (v : Z)
| InvalidChannel (b : Z)
| InvalidCodec (b : Z)
| InvalidFrameType (b : Z)
| InvalidPriority (b : Z)
| ReservedBitsSet
| InvalidEventType (b : Z)
| ControlPayloadTooLarge (n : Z)
| InvalidClipboardFormat (b : Z)
| ClipboardTooLarge (n : Z)
| InvalidClipboardText
| FrameIdTooLarge (n : Z)
| MonitorIdTooLarge (n : Z)
| CumulativeLostTooLarge (n : Z)
| UnknownVersion (b : Z)
| FileChunkTooLarge (n : Z)
| InvalidFileField (n : Z).

#[global] Instance ProtocolError_eq_dec : EqDecision ProtocolError.
Proof. solve_decision. Defined.

(** [take_array::<N>]: the first [N] bytes, or the truncation error. *)
Definition take_array (N : Z) (data : bytes) : result ProtocolError bytes :=
  ok_or (get_range data 0 N) (Truncated N (blen data)).

(** [bitpack]: [u8::wrapping_shl] masks the shift amount to three bits. *)
Definition bitpack (parts : list (Z * Z)) : Z :=
  fold_left (fun out '(value, shift) =>
    Z.lor out (Z.land (Z.shiftl value (Z.land shift 7)) 255)) parts 0.

(** ** The interface of a fixed-length message *)

Class WireCodec (A : Type) := {
  wire_len : Z;
  (** the values the wire format can carry *)
  wire_ok : A -> Prop;
  wire_encode : A -> result ProtocolError bytes;
  wire_decode : bytes -> result ProtocolError A;
}.

Class WireCodecLaws (A : Type) `{WireCodec A} : Prop := {
  wire_roundtrip a rest :
    wire_ok a -> exists b, wire_encode a = Ok b /\ blen b = wire_len /\ bytes_ok b /\
                           wire_decode (b ++ rest) = Ok a;
  wire_canonical d a :
    bytes_ok d -> wire_decode d = Ok a ->
    wire_ok a /\ wire_encode a = Ok (take (Z.to_nat wire_len) d);
  wire_truncated d :
    blen d < wire_len -> wire_decode d = Err (Truncated wire_len (blen d));
}.

Section codec_facts.
Context `{WireCodecLaws A}.

(** Two values with the same encoding are equal. *)
Lemma wire_encode_inj a1 a2 :
  wire_ok a1 -> wire_ok a2 -> wire_encode a1 = wire_encode a2 -> a1 = a2.
Proof.
  intros H1 H2 E.
  destruct (wire_roundtrip a1 [] H1) as (b1 & E1 & _ & _ & D1).
  destruct (wire_roundtrip a2 [] H2) as (b2 & E2 & _ & _ & D2).
  congruence.
Qed.

(** Decoding looks at the first [wire_len] bytes only. *)
Lemma wire_decode_prefix d rest a :
  bytes_ok d -> wire_decode d = Ok a -> 
  wire_decode (take (Z.to_nat wire_len) d ++ rest) = Ok a.
Proof.
  intros Hd E. destruct (wire_canonical d a Hd E) as [Hok Henc].
  destruct (wire_roundtrip a rest Hok) as (b & Eb & _ & _ & Db).
  rewrite Eb in Henc. injection Henc as <-. exact Db.
Qed.

(** A decoder reads a message from the start of a buffer: it succeeds exactly when the buffer
    starts with the encoding of a well-formed value, and does not look at what follows. *)
Lemma wire_prefix_iff d a :
  bytes_ok d ->
  wire_decode d = Ok a <-> wire_ok a /\ exists b, wire_encode a = Ok b /\ b `prefix_of` d.
Proof.
  intros Hd. split.
  - intros E. destruct (wire_canonical d a Hd E) as [Hok He]. split; [done|].
    eexists. split; [exact He|]. exists (drop (Z.to_nat wire_len) d). by rewrite take_drop.
  - intros [Hok (b & He & rest & ->)]. destruct (wire_roundtrip a rest Hok) as (b' & Eb & _ & _ & Db).
    rewrite Eb in He. by injection He as ->.
Qed.
End codec_facts.

(** ** Lemmas on [take_array] *)

Lemma take_array_Ok N d b :
  take_array N d = Ok b ->
  0 <= N <= blen d /\ b = take (Z.to_nat N) d /\ d = b ++ drop (Z.to_nat N) d.
Proof.
  unfold take_array. destruct (get_range d 0 N) as [x|] eqn:E; [|done].
  intros [= <-]. apply get_range_Some in E as (? & ? & Hl & Hd).
  rewrite Z.sub_0_r in Hl. change (Z.to_nat 0) with 0%nat in Hd. rewrite take_0 in Hd. cbn [app] in Hd.
  assert (x = take (Z.to_nat N) d) as ->.
  { rewrite Hd at 1. rewrite take_app_length' by (unfold blen in Hl; lia). done. }
  split; [lia|]. split; [done|]. by rewrite take_drop.
Qed.

Lemma take_array_app N b rest : blen b = N -> take_array N (b ++ rest) = Ok b.
Proof.
  intros <-. unfold take_array.
  pose proof (get_range_app_exact [] b rest) as H.
  change (blen []) with 0 in H. rewrite Z.add_0_l in H. cbn [app] in H. by rewrite H.
Qed.

Lemma take_array_short N d : blen d < N -> take_array N d = Err (Truncated N (blen d)).
Proof.
  intros H. unfold take_array, get_range.
  rewrite (proj2 (Z.leb_gt N (blen d))) by lia. by rewrite andb_false_r.
Qed.

#[export] Hint Resolve take_array_short : shp.

(** Splits [Forall is_u8 [b0; ...]] into its components. *)
Ltac split_bytes_ok :=
  repeat match goal with
  | H : bytes_ok (_ :: _) |- _ => inversion H; clear H; subst
  | H : Forall is_u8 (_ :: _) |- _ => inversion H; clear H; subst
  | H : bytes_ok [] |- _ => clear H
  | H : Forall is_u8 [] |- _ => clear H
  end.

Lemma bytes_ok_take n d : bytes_ok d -> bytes_ok (take n d).
Proof. apply Forall_take. Qed.

Lemma bytes_ok_drop n d : bytes_ok d -> bytes_ok (drop n d).
Proof. apply Forall_drop. Qed.

#[export] Hint Resolve bytes_ok_take bytes_ok_drop : shp.

(** Re-encoding big-endian bytes read from the wire. *)
Lemma to_be_2 a b : is_u8 a -> is_u8 b -> to_be 2 (from_be [a; b]) = [a; b].
Proof. intros. apply (to_be_from_be [a; b]). solve_bytes_ok. Qed.

Lemma to_be_4 a b c d : is_u8 a -> is_u8 b -> is_u8 c -> is_u8 d ->
  to_be 4 (from_be [a; b; c; d]) = [a; b; c; d].
Proof. intros. apply (to_be_from_be [a; b; c; d]). solve_bytes_ok. Qed.

Lemma from_be_2_range a b : is_u8 a -> is_u8 b -> is_u16 (from_be [a; b]).
Proof. intros. apply (from_be_range [a; b]). solve_bytes_ok. Qed.

Lemma from_be_4_range a b c d : is_u8 a -> is_u8 b -> is_u8 c -> is_u8 d ->
  is_u32 (from_be [a; b; c; d]).
Proof. intros. apply (from_be_range [a; b; c; d]). solve_bytes_ok. Qed.

#[export] Hint Resolve from_be_2_range from_be_4_range : shp.
