(* ===== verification/ShpHeaders.v ===== *)
(** * sh-protocol: the packet headers

    [crates/sh-protocol/src/common.rs] (the 9-byte header of every packet) and
    [video.rs] (the 12-byte video payload header). *)

From stdpp Require Import base numbers list option.
From S2P Require Import Prelude Types ShpWire.

Definition SHP_VERSION : Z := 1.
Definition COMMON_HEADER_LEN : Z := 9.
Definition VIDEO_HEADER_LEN : Z := 12.
Definition MAX_FRAME_ID : Z := 0x00FFFFFF.
Definition MAX_MONITOR_ID : Z := 0x0F.

(** ** The common header *)

Record Flags := { fragment_flag : bool; last_fragment : bool }.

Record CommonHeader := {
  channel : ChannelId;
  flags : Flags;
  sequence : Z;       (* u16 *)
  timestamp_us : Z;   (* u64 in memory, low 32 bits on the wire *)
  payload_len : Z;    (* u16 *)
}.

#[global] Instance Flags_eq_dec : EqDecision Flags.
Proof. solve_decision. Defined.
#[global] Instance CommonHeader_eq_dec : EqDecision CommonHeader.
Proof. solve_decision. Defined.

Definition channel_to_bits (c : ChannelId) : Z := channel_to_u8 c.

Definition channel_from_bits (bits : Z) : result ProtocolError ChannelId :=
  map_err (fun _ => InvalidChannel bits) (channel_try_from bits).

Definition common_encode (h : CommonHeader) : bytes :=
  let flags_bits := bitpack [(b2z (fragment_flag (flags h)), 1);
                             (b2z (last_fragment (flags h)), 0)] in
  let byte0 := bitpack [(SHP_VERSION, 6); (channel_to_bits (channel h), 2);
                        (flags_bits, 0)] in
  [byte0] ++ to_be 2 (sequence h) ++ drop 4 (to_be 8 (timestamp_us h))
          ++ to_be 2 (payload_len h).

Definition common_decode (data : bytes) : result ProtocolError CommonHeader :=
  let? a := take_array COMMON_HEADER_LEN data in
  match a with
  | [byte0; s0; s1; t0; t1; t2; t3; l0; l1] =>
    let version := Z.shiftr byte0 6 in
    if negb (version =? SHP_VERSION) then Err (UnsupportedVersion version) else
    let? channel := channel_from_bits (Z.land (Z.shiftr byte0 2) 0x0F) in
    Ok {| channel := channel;
          flags := {| fragment_flag := negb (Z.land byte0 2 =? 0);
                      last_fragment := negb (Z.land byte0 1 =? 0) |};
          sequence := from_be [s0; s1];
          timestamp_us := from_be [t0; t1; t2; t3];
          payload_len := from_be [l0; l1] |}
  | _ => Err (Truncated COMMON_HEADER_LEN (blen data)) (* [a] has nine bytes *)
  end.

(** ** The video header *)

Inductive Codec := H264 | H265 | Av1 | Raw.
Inductive FrameType := Predicted | Idr | IntraRefresh.
Inductive Priority := DropEligible | Normal | High.

#[global] Instance Codec_eq_dec : EqDecision Codec.
Proof. solve_decision. Defined.
#[global] Instance FrameType_eq_dec : EqDecision FrameType.
Proof. solve_decision. Defined.
#[global] Instance Priority_eq_dec : EqDecision Priority.
Proof. solve_decision. Defined.

Record VideoHeader := {
  frame_id : Z;       (* u64 in memory, 24 bits on the wire *)
  frag_index : Z;     (* u8 *)
  total_frags : Z;    (* u8 *)
  codec : Codec;
  frame_type : FrameType;
  priority : Priority;
  monitor_id : Z;     (* u8 in memory, 4 bits on the wire *)
  marker : bool;
  encode_ts_us : Z;   (* u64 in memory, low 32 bits on the wire *)
}.

#[global] Instance VideoHeader_eq_dec : EqDecision VideoHeader.
Proof. solve_decision. Defined.

Definition codec_to_bits (c : Codec) : Z :=
  match c with H264 => 0 | H265 => 1 | Av1 => 2 | Raw => 3 end.

Definition codec_from_bits (bits : Z) : result ProtocolError Codec :=
  match bits with
  | 0 => Ok H264 | 1 => Ok H265 | 2 => Ok Av1 | 3 => Ok Raw
  | other => Err (InvalidCodec other)
  end.

Definition frame_type_to_bits (f : FrameType) : Z :=
  match f with Predicted => 0 | Idr => 1 | IntraRefresh => 2 end.

Definition frame_type_from_bits (bits : Z) : result ProtocolError FrameType :=
  match bits with
  | 0 => Ok Predicted | 1 => Ok Idr | 2 => Ok IntraRefresh
  | other => Err (InvalidFrameType other)
  end.

Definition priority_to_bits (p : Priority) : Z :=
  match p with DropEligible => 0 | Normal => 1 | High => 2 end.

Definition priority_from_bits (bits : Z) : result ProtocolError Priority :=
  match bits with
  | 0 => Ok DropEligible | 1 => Ok Normal | 2 => Ok High
  | other => Err (InvalidPriority other)
  end.

Definition video_encode (h : VideoHeader) : result ProtocolError bytes :=
  if MAX_FRAME_ID <? frame_id h then Err (FrameIdTooLarge (frame_id h)) else
  if MAX_MONITOR_ID <? monitor_id h then Err (MonitorIdTooLarge (monitor_id h)) else
  let byte5 := bitpack [(codec_to_bits (codec h), 4);
                        (frame_type_to_bits (frame_type h), 2);
                        (priority_to_bits (priority h), 0)] in
  let byte6 := bitpack [(monitor_id h, 4); (b2z (marker h), 3)] in
  Ok (drop 5 (to_be 8 (frame_id h)) ++ [frag_index h; total_frags h; byte5; byte6; 0]
      ++ drop 4 (to_be 8 (encode_ts_us h))).

Definition video_decode (data : bytes) : result ProtocolError VideoHeader :=
  let? a := take_array VIDEO_HEADER_LEN data in
  match a with
  | [f0; f1; f2; frag_index; total_frags; byte5; byte6; reserved; e0; e1; e2; e3] =>
    if negb (reserved =? 0) || negb (Z.land byte6 0x07 =? 0) then Err ReservedBitsSet else
    let? codec := codec_from_bits (Z.shiftr byte5 4) in
    let? frame_type := frame_type_from_bits (Z.land (Z.shiftr byte5 2) 0x03) in
    let? priority := priority_from_bits (Z.land byte5 0x03) in
    Ok {| frame_id := from_be [0; f0; f1; f2];
          frag_index := frag_index;
          total_frags := total_frags;
          codec := codec;
          frame_type := frame_type;
          priority := priority;
          monitor_id := Z.shiftr byte6 4;
          marker := negb (Z.land byte6 0x08 =? 0);
          encode_ts_us := from_be [e0; e1; e2; e3] |}
  | _ => Err (Truncated VIDEO_HEADER_LEN (blen data)) (* [a] has twelve bytes *)
  end.

(** ** The values the wire can carry *)

Definition common_ok (h : CommonHeader) : Prop :=
  is_u16 (sequence h) /\ is_u32 (timestamp_us h) /\ is_u16 (payload_len h).

Definition video_ok (h : VideoHeader) : Prop :=
  0 <= frame_id h <= MAX_FRAME_ID /\ is_u8 (frag_index h) /\ is_u8 (total_frags h) /\
  0 <= monitor_id h <= MAX_MONITOR_ID /\ is_u32 (encode_ts_us h).

(** What the receiver sees of a header: the timestamp modulo 2^32. *)
Definition common_on_wire (h : CommonHeader) : CommonHeader :=
  {| channel := channel h; flags := flags h; sequence := sequence h;
     timestamp_us := timestamp_us h mod 4294967296; payload_len := payload_len h |}.

Definition video_on_wire (h : VideoHeader) : VideoHeader :=
  {| frame_id := frame_id h; frag_index := frag_index h; total_frags := total_frags h;
     codec := codec h; frame_type := frame_type h; priority := priority h;
     monitor_id := monitor_id h; marker := marker h;
     encode_ts_us := encode_ts_us h mod 4294967296 |}.

Lemma common_on_wire_id h : common_ok h -> common_on_wire h = h.
Proof.
  intros (_ & Ht & _). destruct h; unfold common_on_wire; cbn in *.
  by rewrite Z.mod_small by exact Ht.
Qed.

Lemma video_on_wire_id h : video_ok h -> video_on_wire h = h.
Proof.
  intros (_ & _ & _ & _ & Ht). destruct h; unfold video_on_wire; cbn in *.
  by rewrite Z.mod_small by exact Ht.
Qed.

Lemma common_encode_len h : blen (common_encode h) = COMMON_HEADER_LEN.
Proof. reflexivity. Qed.

Lemma lor_u8 x y : is_u8 x -> is_u8 y -> is_u8 (Z.lor x y).
Proof. apply (lor_bound 8). lia. Qed.

Lemma bitpack_u8 parts : is_u8 (bitpack parts).
Proof.
  unfold bitpack. assert (is_u8 0) as H0 by (unfold is_u8; lia). revert H0.
  generalize 0 at 1 2. induction parts as [|[v s] l IH]; intros z Hz; [done|].
  cbn [fold_left]. apply IH, lor_u8; [done|].
  rewrite (Z.land_ones _ 8) by lia. apply Z.mod_pos_bound. lia.
Qed.

#[export] Hint Resolve bitpack_u8 : shp.

Lemma common_decode_encode h rest :
  is_u16 (sequence h) -> is_u16 (payload_len h) ->
  common_decode (common_encode h ++ rest) = Ok (common_on_wire h).
Proof.
  intros Hs Hp. unfold common_decode.
  rewrite (take_array_app COMMON_HEADER_LEN) by reflexivity.
  destruct h as [c [f l] s t p]; unfold common_encode, common_on_wire;
    cbn [channel flags sequence timestamp_us payload_len fragment_flag last_fragment] in *.
  cbn [to_be app drop]. refold_be. rewrite !from_be_to_be.
  rewrite (Z.mod_small s), (Z.mod_small p) by assumption.
  by destruct c, f, l.
Qed.

(** Bit-level canonicity of byte 0, checked at the 256 values. *)
Lemma common_byte0_canonical b c :
  is_u8 b -> Z.shiftr b 6 = SHP_VERSION ->
  channel_from_bits (Z.land (Z.shiftr b 2) 0x0F) = Ok c ->
  bitpack [(SHP_VERSION, 6); (channel_to_bits c, 2);
    (bitpack [(b2z (negb (Z.land b 2 =? 0)), 1); (b2z (negb (Z.land b 1 =? 0)), 0)], 0)] = b.
Proof.
  intros Hb Hv Hc.
  assert (channel_to_bits c = Z.land (Z.shiftr b 2) 0x0F) as ->.
  { unfold channel_from_bits in Hc. destruct (channel_try_from _) eqn:E; [|done].
    injection Hc as ->. by apply channel_try_from_Ok in E. }
  apply Z.eqb_eq. revert Hv. rewrite <- Z.eqb_eq. apply Bool.implb_true_iff.
  refine (all_u8_spec 256 (fun b => implb (Z.shiftr b 6 =? SHP_VERSION) (_ =? b)) _ b Hb).
  vm_compute. reflexivity.
Qed.

Lemma common_decode_canonical d h :
  bytes_ok d -> common_decode d = Ok h ->
  common_ok h /\ common_encode h = take (Z.to_nat COMMON_HEADER_LEN) d.
Proof.
  intros Hd H. unfold common_decode in H.
  destruct (take_array _ d) as [a|] eqn:E; [|done].
  apply take_array_Ok in E as (Hlen & Ea & _). rewrite <- Ea.
  assert (bytes_ok a) as Ha by (rewrite Ea; eauto with shp). clear Ea Hd.
  do 10 (destruct a as [|? a]; try discriminate). split_bytes_ok.
  destruct (negb _) eqn:Ev in H; [discriminate|]. simplify_bool.
  destruct (channel_from_bits _) eqn:Ec; [|done]. injection H as <-.
  split; [split; [|split]; cbn; auto with shp|].
  unfold common_encode; cbn [channel flags sequence timestamp_us payload_len
    fragment_flag last_fragment]. rewrite common_byte0_canonical by done.
  change (drop 4 (to_be 8 ?z)) with (to_be 4 z).
  by rewrite !to_be_2, to_be_4 by done.
Qed.

Lemma common_decode_short d :
  blen d < COMMON_HEADER_LEN -> common_decode d = Err (Truncated COMMON_HEADER_LEN (blen d)).
Proof. intros H. unfold common_decode. by rewrite take_array_short. Qed.

#[global] Instance common_codec : WireCodec CommonHeader := {
  wire_len := COMMON_HEADER_LEN;
  wire_ok := common_ok;
  wire_encode h := Ok (common_encode h);
  wire_decode := common_decode;
}.

Lemma common_encode_ok h : bytes_ok (common_encode h).
Proof.
  unfold common_encode. cbv zeta. solve_bytes_ok.
Qed.

#[global] Instance common_codec_laws : WireCodecLaws CommonHeader.
Proof.
  split.
  - intros h rest Hh. exists (common_encode h). split; [done|]. split; [done|].
    split; [apply common_encode_ok|]. cbv [wire_decode common_codec]. destruct Hh as (? & ? & ?).
    rewrite common_decode_encode by done. by rewrite common_on_wire_id.
  - intros d h Hd H. destruct (common_decode_canonical d h Hd H) as [? E].
    split; [done|]. cbv [wire_encode common_codec]. by rewrite E.
  - apply common_decode_short.
Qed.

(** ** The video header *)

Lemma codec_bits_spec c : codec_from_bits (codec_to_bits c) = Ok c.
Proof. by destruct c. Qed.

Lemma video_encode_Ok h :
  0 <= frame_id h <= MAX_FRAME_ID -> 0 <= monitor_id h <= MAX_MONITOR_ID ->
  exists b, video_encode h = Ok b /\ blen b = VIDEO_HEADER_LEN.
Proof.
  intros Hf Hm. unfold video_encode.
  rewrite (proj2 (Z.ltb_ge MAX_FRAME_ID _)), (proj2 (Z.ltb_ge MAX_MONITOR_ID _)) by lia.
  eexists; split; reflexivity.
Qed.

Lemma video_byte6 m k :
  0 <= m <= MAX_MONITOR_ID ->
  let b := bitpack [(m, 4); (b2z k, 3)] in
  Z.land b 0x07 = 0 /\ Z.shiftr b 4 = m /\ negb (Z.land b 0x08 =? 0) = k.
Proof.
  intros Hm. cbv zeta.
  assert (0 <= m < 16) as Hm' by (unfold MAX_MONITOR_ID in Hm; lia).
  pose proof (all_u8_spec 16 (fun m =>
    (Z.land (bitpack [(m, 4); (b2z k, 3)]) 7 =? 0) &&
    (Z.shiftr (bitpack [(m, 4); (b2z k, 3)]) 4 =? m) &&
    Bool.eqb (negb (Z.land (bitpack [(m, 4); (b2z k, 3)]) 8 =? 0)) k)
    ltac:(destruct k; vm_compute; reflexivity) m Hm') as H.
  cbv beta in H. apply andb_true_iff in H as [[H1 H2]%andb_true_iff H3%Bool.eqb_prop].
  apply Z.eqb_eq in H1, H2. done.
Qed.

Lemma video_decode_encode h b rest :
  0 <= frame_id h -> 0 <= monitor_id h ->
  video_encode h = Ok b -> video_decode (b ++ rest) = Ok (video_on_wire h).
Proof.
  intros Hf0 Hm0 E. unfold video_encode in E.
  destruct (MAX_FRAME_ID <? frame_id h) eqn:Ef; [done|].
  destruct (MAX_MONITOR_ID <? monitor_id h) eqn:Em; [done|]. simplify_bool.
  injection E as <-. unfold video_decode.
  rewrite (take_array_app VIDEO_HEADER_LEN) by reflexivity.
  destruct h as [fid fi tf c ft pr m mk ts]; cbn [frame_id frag_index total_frags codec
    frame_type priority monitor_id marker encode_ts_us] in *.
  destruct (video_byte6 m mk) as (Hr & Hm & Hk); [lia|].
  set (b6 := bitpack [(m, 4); _]) in *. cbn [to_be app drop].
  rewrite Hr, Hm, Hk. refold_be. rewrite !from_be_to_be.
  unfold MAX_FRAME_ID in Ef. rewrite (Z.mod_small fid) by lia.
  by destruct c, ft, pr.
Qed.

Lemma video_byte5_canonical b c ft pr :
  codec_from_bits (Z.shiftr b 4) = Ok c ->
  frame_type_from_bits (Z.land (Z.shiftr b 2) 0x03) = Ok ft ->
  priority_from_bits (Z.land b 0x03) = Ok pr -> is_u8 b ->
  bitpack [(codec_to_bits c, 4); (frame_type_to_bits ft, 2); (priority_to_bits pr, 0)] = b.
Proof.
  intros Hc Hf Hp Hb.
  pose proof (all_u8_spec 256 (fun b =>
    match codec_from_bits (Z.shiftr b 4), frame_type_from_bits (Z.land (Z.shiftr b 2) 0x03),
          priority_from_bits (Z.land b 0x03) with
    | Ok c, Ok ft, Ok pr =>
        bitpack [(codec_to_bits c, 4); (frame_type_to_bits ft, 2); (priority_to_bits pr, 0)] =? b
    | _, _, _ => true
    end) ltac:(vm_compute; reflexivity) b Hb) as H.
  cbv beta in H. rewrite Hc, Hf, Hp in H. by apply Z.eqb_eq.
Qed.

Lemma video_byte6_canonical b :
  is_u8 b -> Z.land b 0x07 = 0 ->
  0 <= Z.shiftr b 4 <= MAX_MONITOR_ID /\
  bitpack [(Z.shiftr b 4, 4); (b2z (negb (Z.land b 0x08 =? 0)), 3)] = b.
Proof.
  intros Hb Hz.
  pose proof (all_u8_spec 256 (fun b => implb (Z.land b 7 =? 0)
    ((0 <=? Z.shiftr b 4) && (Z.shiftr b 4 <=? MAX_MONITOR_ID) &&
     (bitpack [(Z.shiftr b 4, 4); (b2z (negb (Z.land b 0x08 =? 0)), 3)] =? b)))
    ltac:(vm_compute; reflexivity) b Hb) as H.
  cbv beta in H. rewrite Hz in H. cbn [implb Z.eqb] in H. simplify_bool. lia.
Qed.

Lemma video_decode_canonical d h :
  bytes_ok d -> video_decode d = Ok h ->
  video_ok h /\ video_encode h = Ok (take (Z.to_nat VIDEO_HEADER_LEN) d).
Proof.
  intros Hd H. unfold video_decode in H.
  destruct (take_array _ d) as [a|] eqn:E; [|done].
  apply take_array_Ok in E as (Hlen & Ea & _). rewrite <- Ea.
  assert (bytes_ok a) as Ha by (rewrite Ea; eauto with shp). clear Ea Hd.
  do 13 (destruct a as [|? a]; try discriminate). split_bytes_ok.
  destruct (negb _ || negb _) eqn:Er in H; [discriminate|]. simplify_bool. subst.
  destruct (codec_from_bits _) as [c|] eqn:Ec; [|done].
  destruct (frame_type_from_bits _) as [ft|] eqn:Eft; [|done].
  destruct (priority_from_bits _) as [pr|] eqn:Epr; [|done]. injection H as <-.
  match goal with H : Z.land ?b6 7 = 0 |- _ =>
    destruct (video_byte6_canonical b6) as [Hm Eb6]; [done..|] end.
  match goal with |- context [from_be [0; ?x; ?y; ?z]] =>
    pose proof (from_be_range [x; y; z] ltac:(solve_bytes_ok)) as Hfid;
    change (from_be [0; x; y; z]) with (from_be [x; y; z]);
    pose proof (to_be_from_be [x; y; z] ltac:(solve_bytes_ok)) as Efid end.
  match type of Hfid with _ <= _ < ?x => change x with 16777216 in Hfid end.
  cbn [length] in Efid.
  split.
  { split; [|split; [|split; [|split]]]; cbn; auto with shp. unfold MAX_FRAME_ID; lia. }
  unfold video_encode; cbn [frame_id frag_index total_frags codec frame_type priority
    monitor_id marker encode_ts_us].
  rewrite (proj2 (Z.ltb_ge MAX_FRAME_ID _)), (proj2 (Z.ltb_ge MAX_MONITOR_ID _))
    by (unfold MAX_FRAME_ID; lia).
  rewrite Eb6. erewrite video_byte5_canonical by eassumption.
  change (drop 4 (to_be 8 ?z)) with (to_be 4 z). change (drop 5 (to_be 8 ?z)) with (to_be 3 z).
  by rewrite Efid, to_be_4 by done.
Qed.

#[global] Instance video_codec : WireCodec VideoHeader := {
  wire_len := VIDEO_HEADER_LEN;
  wire_ok := video_ok;
  wire_encode := video_encode;
  wire_decode := video_decode;
}.

Lemma video_encode_bytes_ok h b : video_ok h -> video_encode h = Ok b -> bytes_ok b.
Proof.
  intros (_ & Hi & Ht & _ & _). unfold video_encode. do 2 (case_match; [done|]).
  intros [= <-]. solve_bytes_ok.
Qed.

#[global] Instance video_codec_laws : WireCodecLaws VideoHeader.
Proof.
  split.
  - intros h rest Hh. pose proof Hh as (Hf & _ & _ & Hm & _).
    destruct (video_encode_Ok h Hf Hm) as (b & E & Hb). exists b.
    split; [done|]. split; [done|]. split; [by eapply video_encode_bytes_ok|].
    rewrite <- (video_on_wire_id h Hh) at 1. by apply video_decode_encode; [lia..|].
  - apply video_decode_canonical.
  - intros d H. cbv [wire_decode video_codec]. unfold video_decode.
    by rewrite take_array_short.
Qed.
