(* ===== verification/ShpMessages.v ===== *)
(** * sh-protocol: input events, receiver reports, control frames, clipboard

    [crates/sh-protocol/src/input.rs], [feedback.rs], [control.rs] and [clipboard.rs]. *)

From stdpp Require Import base numbers list option.
From S2P Require Import Prelude Utf8 Types ShpWire.

(** ** Input events *)

Module InputEvent.

Definition INPUT_EVENT_LEN : Z := 16.

Inductive EventType := PointerMove | Button | Wheel | Key | Touch | Pen.

#[global] Instance EventType_eq_dec : EqDecision EventType.
Proof. solve_decision. Defined.

(** [modifiers] is a [bitflags] byte decoded with [from_bits_retain]. *)
Record t := mk {
  event_type : EventType;
  modifiers : Z;
  pointer_x : Z;
  pointer_y : Z;
  button_mask : Z;
  key_code : Z;
  scroll_x : Z;
  scroll_y : Z;
  pressure : Z;
}.

Definition event_type_to_u8 (e : EventType) : Z :=
  match e with
  | PointerMove => 0 | Button => 1 | Wheel => 2 | Key => 3 | Touch => 4 | Pen => 5
  end.

Definition event_type_from_u8 (byte : Z) : result ProtocolError EventType :=
  match byte with
  | 0 => Ok PointerMove | 1 => Ok Button | 2 => Ok Wheel | 3 => Ok Key
  | 4 => Ok Touch | 5 => Ok Pen
  | other => Err (InvalidEventType other)
  end.

Definition encode (e : t) : bytes :=
  [event_type_to_u8 (event_type e); modifiers e]
  ++ to_be 2 (pointer_x e) ++ to_be 2 (pointer_y e) ++ [button_mask e]
  ++ to_be 2 (key_code e) ++ to_be 2 (scroll_x e) ++ to_be 2 (scroll_y e)
  ++ [pressure e; 0; 0].

Definition decode (data : bytes) : result ProtocolError t :=
  let? a := take_array INPUT_EVENT_LEN data in
  match a with
  | [ty; modifiers; px0; px1; py0; py1; button_mask; k0; k1; sx0; sx1; sy0; sy1;
     pressure; r0; r1] =>
    if negb (r0 =? 0) || negb (r1 =? 0) then Err ReservedBitsSet else
    let? event_type := event_type_from_u8 ty in
    Ok {| event_type := event_type;
          modifiers := modifiers;
          pointer_x := from_be [px0; px1];
          pointer_y := from_be [py0; py1];
          button_mask := button_mask;
          key_code := from_be [k0; k1];
          scroll_x := to_signed 16 (from_be [sx0; sx1]);
          scroll_y := to_signed 16 (from_be [sy0; sy1]);
          pressure := pressure |}
  | _ => Err (Truncated INPUT_EVENT_LEN (blen data)) (* [a] has sixteen bytes *)
  end.

Definition wf (e : t) : Prop :=
  is_u8 (modifiers e) /\ is_u16 (pointer_x e) /\ is_u16 (pointer_y e) /\
  is_u8 (button_mask e) /\ is_u16 (key_code e) /\ is_i16 (scroll_x e) /\
  is_i16 (scroll_y e) /\ is_u8 (pressure e).

Lemma to_signed_16_be z : is_i16 z -> to_signed 16 (from_be (to_be 2 z)) = z.
Proof.
  unfold is_i16. intros H. rewrite from_be_to_be. change (256 ^ Z.of_nat 2) with 65536.
  unfold to_signed. change (2 ^ (16 - 1)) with 32768. change (2 ^ 16) with 65536.
  destruct (Z.ltb_spec (z mod 65536) 32768); Z.div_mod_to_equations; lia.
Qed.

Lemma to_signed_16_range z : is_u16 z -> is_i16 (to_signed 16 z).
Proof.
  unfold is_u16, is_i16, to_signed. change (2 ^ (16 - 1)) with 32768.
  change (2 ^ 16) with 65536. destruct (Z.ltb_spec z 32768); lia.
Qed.

Lemma to_be_2_signed a b : is_u8 a -> is_u8 b ->
  to_be 2 (to_signed 16 (from_be [a; b])) = [a; b].
Proof.
  intros Ha Hb. rewrite <- (to_be_2 a b) at 2 by done.
  pose proof (from_be_2_range a b Ha Hb) as Hr. unfold is_u16 in Hr.
  unfold to_signed. change (2 ^ (16 - 1)) with 32768. change (2 ^ 16) with 65536.
  destruct (Z.ltb_spec (from_be [a; b]) 32768); [done|].
  cbn [to_be app]. replace (from_be [a; b] - 65536) with (from_be [a; b] + (-256) * 256) by lia.
  rewrite Z.div_add, Z.mod_add by lia. f_equal.
  replace (from_be [a; b] / 256 + -256) with (from_be [a; b] / 256 + (-1) * 256) by lia.
  by rewrite Z.mod_add by lia.
Qed.

Lemma input_decode_encode e rest : wf e -> decode (encode e ++ rest) = Ok e.
Proof.
  intros (Hm & Hx & Hy & Hb & Hk & Hsx & Hsy & Hp). unfold decode.
  rewrite (take_array_app INPUT_EVENT_LEN) by reflexivity.
  destruct e as [ty md x y bm k sx sy p]; unfold encode;
    cbn [event_type modifiers pointer_x pointer_y button_mask key_code scroll_x scroll_y
         pressure] in *.
  cbn [to_be app]. refold_be. rewrite !to_signed_16_be by done. rewrite !from_be_to_be.
  rewrite (Z.mod_small x), (Z.mod_small y), (Z.mod_small k) by assumption.
  by destruct ty.
Qed.

Lemma event_type_from_u8_Ok b ty :
  event_type_from_u8 b = Ok ty -> b = event_type_to_u8 ty.
Proof.
  unfold event_type_from_u8. intros H.
  repeat case_match; try discriminate; injection H as <-; reflexivity.
Qed.

Lemma input_decode_canonical d e :
  bytes_ok d -> decode d = Ok e ->
  wf e /\ encode e = take (Z.to_nat INPUT_EVENT_LEN) d.
Proof.
  intros Hd H. unfold decode in H.
  destruct (take_array _ d) as [a|] eqn:E; [|done].
  apply take_array_Ok in E as (Hlen & Ea & _). rewrite <- Ea.
  assert (bytes_ok a) as Ha by (rewrite Ea; eauto with shp). clear Ea Hd.
  do 17 (destruct a as [|? a]; try discriminate). split_bytes_ok.
  destruct (negb _ || negb _) eqn:Er in H; [discriminate|]. simplify_bool. subst.
  destruct (event_type_from_u8 _) as [ty|] eqn:Et; [|done]. injection H as <-.
  split.
  { do 7 (split; cbn; auto using to_signed_16_range with shp). }
  unfold encode; cbn [event_type modifiers pointer_x pointer_y button_mask key_code scroll_x
    scroll_y pressure].
  rewrite !to_be_2_signed, !to_be_2 by done.
  by rewrite <- (event_type_from_u8_Ok _ _ Et).
Qed.

Lemma encode_bytes_ok e : wf e -> bytes_ok (encode e).
Proof.
  intros (Hm & Hx & Hy & Hb & Hk & Hsx & Hsy & Hp). unfold encode.
  assert (is_u8 (event_type_to_u8 (event_type e)))
    by (destruct (event_type e); unfold is_u8; cbn; lia).
  solve_bytes_ok.
Qed.

End InputEvent.

#[global] Instance input_codec : WireCodec InputEvent.t := {
  wire_len := InputEvent.INPUT_EVENT_LEN;
  wire_ok := InputEvent.wf;
  wire_encode e := Ok (InputEvent.encode e);
  wire_decode := InputEvent.decode;
}.

#[global] Instance input_codec_laws : WireCodecLaws InputEvent.t.
Proof.
  split; cbv [wire_ok wire_encode wire_decode wire_len input_codec].
  - intros e rest He. exists (InputEvent.encode e).
    auto using InputEvent.encode_bytes_ok, InputEvent.input_decode_encode.
  - intros d e Hd H. destruct (InputEvent.input_decode_canonical d e Hd H) as [? ->]. done.
  - intros d H. unfold InputEvent.decode. by rewrite take_array_short.
Qed.

(** ** Receiver reports *)

Module NackFeedback.

Definition NACK_FEEDBACK_LEN : Z := 25.
Definition MAX_CUMULATIVE_LOST : Z := 0x00FFFFFF.

Record t := mk {
  report_type : Z;
  ssrc : Z;
  highest_seq : Z;
  cumulative_lost : Z;
  fraction_lost : Z;
  jitter_us : Z;
  rtt_us : Z;
  bwe_kbps : Z;
  nack_bitmap : Z;
}.

Definition encode (f : t) : result ProtocolError bytes :=
  if MAX_CUMULATIVE_LOST <? cumulative_lost f
  then Err (CumulativeLostTooLarge (cumulative_lost f)) else
  Ok ([report_type f] ++ to_be 4 (ssrc f) ++ to_be 2 (highest_seq f)
      ++ drop 1 (to_be 4 (cumulative_lost f)) ++ [fraction_lost f]
      ++ to_be 4 (jitter_us f) ++ to_be 4 (rtt_us f) ++ to_be 4 (bwe_kbps f)
      ++ to_be 2 (nack_bitmap f)).

Definition decode (data : bytes) : result ProtocolError t :=
  let? a := take_array NACK_FEEDBACK_LEN data in
  match a with
  | [report_type; s0; s1; s2; s3; h0; h1; c0; c1; c2; fraction_lost; j0; j1; j2; j3;
     r0; r1; r2; r3; b0; b1; b2; b3; n0; n1] =>
    Ok {| report_type := report_type;
          ssrc := from_be [s0; s1; s2; s3];
          highest_seq := from_be [h0; h1];
          cumulative_lost := from_be [0; c0; c1; c2];
          fraction_lost := fraction_lost;
          jitter_us := from_be [j0; j1; j2; j3];
          rtt_us := from_be [r0; r1; r2; r3];
          bwe_kbps := from_be [b0; b1; b2; b3];
          nack_bitmap := from_be [n0; n1] |}
  | _ => Err (Truncated NACK_FEEDBACK_LEN (blen data)) (* [a] has twenty-five bytes *)
  end.

Definition wf (f : t) : Prop :=
  is_u8 (report_type f) /\ is_u32 (ssrc f) /\ is_u16 (highest_seq f) /\
  0 <= cumulative_lost f <= MAX_CUMULATIVE_LOST /\ is_u8 (fraction_lost f) /\
  is_u32 (jitter_us f) /\ is_u32 (rtt_us f) /\ is_u32 (bwe_kbps f) /\
  is_u16 (nack_bitmap f).

Lemma nack_decode_encode f b rest :
  wf f -> encode f = Ok b ->
  blen b = NACK_FEEDBACK_LEN /\ bytes_ok b /\ decode (b ++ rest) = Ok f.
Proof.
  intros (Hr & Hs & Hh & Hc & Hf & Hj & Ht & Hb & Hn) E. unfold encode in E.
  case_match eqn:Ec; [done|]. injection E as <-. split; [reflexivity|].
  split; [solve_bytes_ok|]. unfold decode.
  rewrite (take_array_app NACK_FEEDBACK_LEN) by reflexivity.
  destruct f as [rt s h c fl j r bw n]; cbn [report_type ssrc highest_seq cumulative_lost
    fraction_lost jitter_us rtt_us bwe_kbps nack_bitmap] in *.
  cbn [to_be app drop]. refold_be. unfold MAX_CUMULATIVE_LOST in Hc.
  by rewrite !from_be_to_be_small by first [assumption | cbn; lia].
Qed.

Lemma nack_decode_canonical d f :
  bytes_ok d -> decode d = Ok f ->
  wf f /\ encode f = Ok (take (Z.to_nat NACK_FEEDBACK_LEN) d).
Proof.
  intros Hd H. unfold decode in H.
  destruct (take_array _ d) as [a|] eqn:E; [|done].
  apply take_array_Ok in E as (Hlen & Ea & _). rewrite <- Ea.
  assert (bytes_ok a) as Ha by (rewrite Ea; eauto with shp). clear Ea Hd.
  do 26 (destruct a as [|? a]; try discriminate). split_bytes_ok.
  injection H as <-. unfold encode, wf; cbn [report_type ssrc highest_seq cumulative_lost
    fraction_lost jitter_us rtt_us bwe_kbps nack_bitmap].
  match goal with |- context [from_be [0; ?x; ?y; ?z]] =>
    pose proof (from_be_range [x; y; z] ltac:(solve_bytes_ok)) as Hc;
    change (from_be [0; x; y; z]) with (from_be [x; y; z]);
    pose proof (to_be_from_be [x; y; z] ltac:(solve_bytes_ok)) as Ecum end.
  match type of Hc with _ <= _ < ?x => change x with 16777216 in Hc end.
  cbn [length] in Ecum. unfold MAX_CUMULATIVE_LOST.
  split; [do 8 (split; auto with shp; try lia)|].
  rewrite (proj2 (Z.ltb_ge _ _)) by lia.
  change (drop 1 (to_be 4 ?z)) with (to_be 3 z).
  by rewrite Ecum, !to_be_4, !to_be_2 by done.
Qed.

End NackFeedback.

#[global] Instance nack_codec : WireCodec NackFeedback.t := {
  wire_len := NackFeedback.NACK_FEEDBACK_LEN;
  wire_ok := NackFeedback.wf;
  wire_encode := NackFeedback.encode;
  wire_decode := NackFeedback.decode;
}.

#[global] Instance nack_codec_laws : WireCodecLaws NackFeedback.t.
Proof.
  split; cbv [wire_ok wire_encode wire_decode wire_len nack_codec].
  - intros f rest Hf. destruct (NackFeedback.encode f) as [b|] eqn:E.
    + exists b. split; [done|]. by apply (NackFeedback.nack_decode_encode f b rest).
    + unfold NackFeedback.encode in E. destruct Hf as (_ & _ & _ & Hc & _).
      by rewrite (proj2 (Z.ltb_ge _ _)) in E by lia.
  - apply NackFeedback.nack_decode_canonical.
  - intros d H. unfold NackFeedback.decode. by rewrite take_array_short.
Qed.

(** ** Control-channel framing *)

Module ControlFraming.

Definition CONTROL_HEADER_LEN : Z := 3.

Record ControlFrame := mk { kind : Z; payload : bytes }.

Definition consumed (f : ControlFrame) : Z :=
  sat_add usize_max CONTROL_HEADER_LEN (blen (payload f)).

Definition encode_control (kind : Z) (payload : bytes) : result ProtocolError bytes :=
  if u16_max <? blen payload then Err (ControlPayloadTooLarge (blen payload)) else
  Ok ([kind] ++ to_be 2 (blen payload) ++ payload).

Definition decode_control (data : bytes) : result ProtocolError (option ControlFrame) :=
  match get_range data 0 CONTROL_HEADER_LEN with
  | None => Ok None
  | Some [kind; l0; l1] =>
    let len := from_be [l0; l1] in
    let total := sat_add usize_max CONTROL_HEADER_LEN len in
    match get_range data CONTROL_HEADER_LEN total with
    | None => Ok None
    | Some payload => Ok (Some {| kind := kind; payload := payload |})
    end
  | Some _ => Ok None (* the header slice has three bytes *)
  end.

(** The stream reader of the module's documentation: decode a frame, advance the cursor by
    [consumed], stop when no whole frame is buffered. *)
Inductive drains : bytes -> list ControlFrame -> bytes -> Prop :=
| drains_wait d :
    decode_control d = Ok None -> drains d [] d
| drains_frame d f fs rest :
    decode_control d = Ok (Some f) ->
    drains (drop (Z.to_nat (consumed f)) d) fs rest ->
    drains d (f :: fs) rest.

Definition frame_ok (f : ControlFrame) : Prop :=
  is_u8 (kind f) /\ blen (payload f) <= u16_max.

(** The wire form of a frame that fits. *)
Definition frame_bytes (f : ControlFrame) : bytes :=
  [kind f] ++ to_be 2 (blen (payload f)) ++ payload f.

Lemma encode_control_Ok k p b :
  encode_control k p = Ok b <-> blen p <= u16_max /\ b = frame_bytes (mk k p).
Proof.
  unfold encode_control, frame_bytes; cbn [kind payload].
  destruct (Z.ltb_spec u16_max (blen p)); split.
  - done.
  - lia.
  - by intros [= <-].
  - by intros [_ ->].
Qed.

Lemma consumed_small f :
  blen (payload f) <= u16_max -> consumed f = 3 + blen (payload f).
Proof.
  intros H. unfold consumed, sat_add, CONTROL_HEADER_LEN, usize_max, u64_max.
  unfold u16_max in H. lia.
Qed.

Lemma frame_bytes_blen f : blen (frame_bytes f) = 3 + blen (payload f).
Proof.
  unfold frame_bytes. rewrite !blen_app, blen_to_be. change (blen [kind f]) with 1. lia.
Qed.

Lemma decode_frame_bytes f rest :
  blen (payload f) <= u16_max -> decode_control (frame_bytes f ++ rest) = Ok (Some f).
Proof.
  intros H. unfold decode_control.
  pose proof (blen_nonneg (payload f)).
  set (n := blen (payload f)) in *.
  set (h := [kind f; (n / 256) mod 256; n mod 256]).
  replace (frame_bytes f ++ rest) with ([] ++ h ++ (payload f ++ rest)) by done.
  rewrite (get_range_app_exact [] h). unfold h at 1. refold_be.
  rewrite from_be_to_be_small by (unfold u16_max in H; cbn; lia).
  replace (sat_add usize_max CONTROL_HEADER_LEN n) with (blen h + blen (payload f))
    by (unfold sat_add, usize_max, u64_max, CONTROL_HEADER_LEN; unfold u16_max in H;
        change (blen h) with 3; lia).
  change CONTROL_HEADER_LEN with (blen h). cbn [app]. rewrite get_range_app_exact.
  by destruct f.
Qed.

(** A frame is reported exactly when its whole encoding is at the front of the buffer. *)
Lemma decode_control_Some d f :
  bytes_ok d ->
  decode_control d = Ok (Some f) <->
  frame_ok f /\ exists rest, d = frame_bytes f ++ rest.
Proof.
  intros Hd. split; [|intros [[_ ?] [rest ->]]; by apply decode_frame_bytes].
  unfold decode_control. destruct (get_range d 0 CONTROL_HEADER_LEN) as [h|] eqn:Eh; [|done].
  apply get_range_Some in Eh as (_ & _ & Hl & Ed). unfold CONTROL_HEADER_LEN in *.
  rewrite take_0 in Ed. cbn [app] in Ed.
  assert (bytes_ok h) as Hh by (rewrite Ed in Hd; by apply Forall_app in Hd as [? _]).
  do 4 (destruct h as [|? h]; try discriminate). split_bytes_ok.
  match goal with |- context [from_be [?a; ?b]] =>
    pose proof (from_be_2_range a b ltac:(done) ltac:(done)) as Hr;
    assert (to_be 2 (from_be [a; b]) = [a; b]) as Eb by (by apply to_be_2);
    set (len := from_be [a; b]) in * end.
  unfold is_u16 in Hr.
  replace (sat_add usize_max 3 len) with (3 + len)
    by (unfold sat_add, usize_max, u64_max; lia).
  destruct (get_range d 3 (3 + len)) as [p|] eqn:Ep; [|done]. intros [= <-].
  apply get_range_Some in Ep as (_ & _ & Hpl & Ed').
  unfold frame_ok, frame_bytes; cbn [kind payload].
  assert (blen p = len) as Ep by lia. rewrite Ep, Eb.
  split; [split; [done|unfold u16_max; lia]|].
  exists (drop (Z.to_nat (3 + len)) d). rewrite Ed' at 1. rewrite Ed at 1. done.
Qed.

(** Prefixes of a frame are waited on, never misread. *)
Lemma decode_control_prefix f d :
  frame_ok f -> bytes_ok (payload f) -> d `prefix_of` frame_bytes f -> d <> frame_bytes f ->
  decode_control d = Ok None.
Proof.
  intros [Hk Hlen] Hp [rest Hpre] Hne.
  assert (bytes_ok (frame_bytes f)) as Hok by (unfold frame_bytes; solve_bytes_ok).
  assert (bytes_ok d) as Hd by (rewrite Hpre in Hok; by apply Forall_app in Hok as [? _]).
  destruct (decode_control d) as [[g|]|e] eqn:E; [|done|].
  - apply decode_control_Some in E as [[Hg Hgl] [rest' Ed]]; [|done]. exfalso.
    rewrite Ed, <- app_assoc in Hpre.
    pose proof (decode_frame_bytes f [] Hlen) as D1. rewrite app_nil_r, Hpre in D1.
    rewrite decode_frame_bytes in D1 by done. injection D1 as ->.
    assert (rest' ++ rest = []) as [-> ->]%app_nil.
    { apply (app_inv_head (frame_bytes f)). by rewrite app_nil_r. }
    apply Hne. by rewrite Ed, app_nil_r.
  - unfold decode_control in E. repeat case_match; discriminate.
Qed.

Lemma drains_concat fs tail :
  Forall frame_ok fs -> decode_control tail = Ok None ->
  drains (concat (map frame_bytes fs) ++ tail) fs tail.
Proof.
  induction 1 as [|f fs Hf _ IH]; intros Ht; cbn [map concat].
  - by apply drains_wait.
  - destruct Hf as [_ Hl]. rewrite <- app_assoc. eapply drains_frame.
    + by apply decode_frame_bytes.
    + rewrite consumed_small by done. rewrite <- frame_bytes_blen.
      unfold blen at 1. rewrite Nat2Z.id, drop_app_length. by apply IH.
Qed.

Lemma drains_det d fs1 r1 fs2 r2 :
  drains d fs1 r1 -> drains d fs2 r2 -> fs1 = fs2 /\ r1 = r2.
Proof.
  intros H1. revert fs2 r2. induction H1 as [d E|d f fs rest E _ IH]; intros fs2 r2 H2;
    inversion H2; subst; try congruence.
  - done.
  - match goal with H : decode_control d = Ok (Some ?g) |- _ =>
      rewrite E in H; injection H as <- end.
    match goal with H : drains _ _ _ |- _ => destruct (IH _ _ H) as [-> ->] end. done.
Qed.

End ControlFraming.

(** ** Clipboard updates *)

Module ClipboardUpdate.

Definition MAX_CLIPBOARD_BYTES : Z := 256 * 1024.

Inductive ClipboardFormat := Text.

Record t := mk { format : ClipboardFormat; content : bytes }.

Definition FORMAT_TEXT : Z := 0.

Definition format_to_u8 (f : ClipboardFormat) : Z :=
  match f with Text => FORMAT_TEXT end.

Definition format_from_u8 (b : Z) : result ProtocolError ClipboardFormat :=
  if b =? FORMAT_TEXT then Ok Text else Err (InvalidClipboardFormat b).

(** [text(s)]; [s : &str] is a byte string that is valid UTF-8. *)
Definition text (s : bytes) : result ProtocolError t :=
  if MAX_CLIPBOARD_BYTES <? blen s then Err (ClipboardTooLarge (blen s))
  else Ok {| format := Text; content := s |}.

Definition as_text (u : t) : option bytes :=
  match format u with
  | Text => if utf8_valid (content u) then Some (content u) else None
  end.

Definition encode (u : t) : bytes := [format_to_u8 (format u)] ++ content u.

Definition decode (d : bytes) : result ProtocolError t :=
  match d with
  | [] => Err (Truncated 1 0)
  | fmt :: content =>
    let? format := format_from_u8 fmt in
    if MAX_CLIPBOARD_BYTES <? blen content then Err (ClipboardTooLarge (blen content)) else
    match format with
    | Text =>
      if negb (utf8_valid content) then Err InvalidClipboardText
      else Ok {| format := format; content := content |}
    end
  end.

(** What both [text] and [decode] guarantee of an update. *)
Definition wf (u : t) : Prop :=
  utf8_valid (content u) = true /\ blen (content u) <= MAX_CLIPBOARD_BYTES.

Lemma text_wf s u : utf8_valid s = true -> text s = Ok u -> wf u /\ content u = s.
Proof.
  unfold text. intros Hv. case_match eqn:E; [done|]. intros [= <-].
  simplify_bool. done.
Qed.

Lemma decode_iff d u : decode d = Ok u <-> wf u /\ d = encode u.
Proof.
  unfold decode, wf, encode, format_from_u8. split.
  - destruct d as [|f c]; [done|]. destruct (f =? FORMAT_TEXT) eqn:Ef; [|done].
    destruct (MAX_CLIPBOARD_BYTES <? blen c) eqn:El; [done|].
    destruct (utf8_valid c) eqn:Ev; cbn [negb]; [|done]. intros [= <-].
    simplify_bool. subst. done.
  - destruct u as [[] c]; cbn [content format format_to_u8 app]. intros [[Hv Hl] ->].
    rewrite Z.eqb_refl, (proj2 (Z.ltb_ge _ _)), Hv by done. done.
Qed.

End ClipboardUpdate.
