(* ===== verification/ShpFile.v ===== *)
(** * sh-protocol: file-transfer framing

    [crates/sh-protocol/src/file.rs]: the four control messages and the 21-byte chunk
    header, with the panic-free cursor [read_array] they are parsed with. *)

From stdpp Require Import base numbers list option.
From S2P Require Import Prelude Types ShpWire.

Definition KIND_FILE_OFFER : Z := 0x30.
Definition KIND_FILE_ACCEPT : Z := 0x31.
Definition KIND_FILE_ABORT : Z := 0x32.
Definition KIND_FILE_COMPLETE : Z := 0x33.

Definition MAX_FILE_NAME : Z := 255.
Definition MAX_FILE_CHUNK : Z := 1024 * 1024.
Definition FILE_CHUNK_HEADER_LEN : Z := 21.
Definition FILE_ACCEPT_LEN : Z := 16.
Definition FILE_ABORT_LEN : Z := 9.
Definition FILE_COMPLETE_LEN : Z := 9.
Definition FILE_OFFER_FIXED_LEN : Z := 53.
Definition CHUNK_FLAG_LAST : Z := 1.
Definition CHUNK_FLAGS_RESERVED : Z := 0xFE.

Definition check_chunk_size (value : Z) : result ProtocolError () :=
  if (value =? 0) || (MAX_FILE_CHUNK <? value) then Err (FileChunkTooLarge value) else Ok ().

(** Reads [N] bytes off the front of the cursor; returns them and the advanced cursor. *)
Definition read_array (N : Z) (cursor : bytes) : result ProtocolError (bytes * bytes) :=
  let? arr := take_array N cursor in
  Ok (arr, default [] (get_from cursor N)).

(** A zeroed array of [n] bytes. *)
Definition zeroed (n : Z) : bytes := replicate (Z.to_nat n) 0.

(** ** FileOffer *)

Record FileOffer := {
  fo_transfer_id : Z;
  fo_total_size : Z;
  fo_chunk_size : Z;
  fo_sha256 : bytes;   (* 32 bytes *)
  fo_name : bytes;
}.

Definition offer_encode (o : FileOffer) : result ProtocolError bytes :=
  let? _ := check_chunk_size (fo_chunk_size o) in
  if u8_max <? blen (fo_name o) then Err (InvalidFileField (blen (fo_name o))) else
  Ok (to_be 8 (fo_transfer_id o) ++ to_be 8 (fo_total_size o) ++ to_be 4 (fo_chunk_size o)
      ++ fo_sha256 o ++ [blen (fo_name o)] ++ fo_name o).

Definition offer_decode (data : bytes) : result ProtocolError FileOffer :=
  let? (transfer_id, c) := read_array 8 data in
  let? (total_size, c) := read_array 8 c in
  let? (chunk_size, c) := read_array 4 c in
  let? _ := check_chunk_size (from_be chunk_size) in
  let? (sha256, c) := read_array 32 c in
  let? (name_len, c) := read_array 1 c in
  let name_len := from_be name_len in
  let? name := ok_or (get_range c 0 name_len) (Truncated name_len (blen c)) in
  Ok {| fo_transfer_id := from_be transfer_id;
        fo_total_size := from_be total_size;
        fo_chunk_size := from_be chunk_size;
        fo_sha256 := sha256;
        fo_name := name |}.

(** ** FileAccept *)

Record FileAccept := { fa_transfer_id : Z; fa_resume_offset : Z }.

Definition accept_encode (a : FileAccept) : bytes :=
  let buf := zeroed FILE_ACCEPT_LEN in
  let buf := copy_at buf 0 (to_be 8 (fa_transfer_id a)) in
  copy_at buf 8 (to_be 8 (fa_resume_offset a)).

Definition accept_decode (data : bytes) : result ProtocolError FileAccept :=
  let? b := take_array FILE_ACCEPT_LEN data in
  let? (transfer_id, c) := read_array 8 b in
  let? (resume_offset, c) := read_array 8 c in
  Ok {| fa_transfer_id := from_be transfer_id; fa_resume_offset := from_be resume_offset |}.

(** ** FileAbort *)

Inductive AbortCode := Declined | IntegrityFailed | InternalError | Unsupported.

Definition abort_code_as_u8 (c : AbortCode) : Z :=
  match c with Declined => 0 | IntegrityFailed => 1 | InternalError => 2 | Unsupported => 3 end.

Definition abort_code_from_u8 (v : Z) : result ProtocolError AbortCode :=
  match v with
  | 0 => Ok Declined | 1 => Ok IntegrityFailed | 2 => Ok InternalError | 3 => Ok Unsupported
  | other => Err (InvalidFileField other)
  end.

Record FileAbort := { fb_transfer_id : Z; fb_code : AbortCode }.

Definition abort_encode (a : FileAbort) : bytes :=
  let buf := zeroed FILE_ABORT_LEN in
  let buf := copy_at buf 0 (to_be 8 (fb_transfer_id a)) in
  copy_at buf 8 [abort_code_as_u8 (fb_code a)].

Definition abort_decode (data : bytes) : result ProtocolError FileAbort :=
  let? b := take_array FILE_ABORT_LEN data in
  let? (transfer_id, c) := read_array 8 b in
  let? (code, c) := read_array 1 c in
  let? code := abort_code_from_u8 (from_be code) in
  Ok {| fb_transfer_id := from_be transfer_id; fb_code := code |}.

(** ** FileComplete *)

Record FileComplete := { fc_transfer_id : Z; fc_ok : bool }.

Definition complete_encode (a : FileComplete) : bytes :=
  let buf := zeroed FILE_COMPLETE_LEN in
  let buf := copy_at buf 0 (to_be 8 (fc_transfer_id a)) in
  copy_at buf 8 [b2z (fc_ok a)].

Definition complete_decode (data : bytes) : result ProtocolError FileComplete :=
  let? b := take_array FILE_COMPLETE_LEN data in
  let? (transfer_id, c) := read_array 8 b in
  let? (ok_byte, c) := read_array 1 c in
  let? ok := match from_be ok_byte with
             | 0 => Ok false
             | 1 => Ok true
             | other => Err (InvalidFileField other)
             end in
  Ok {| fc_transfer_id := from_be transfer_id; fc_ok := ok |}.

(** ** FileChunkHeader *)

Record FileChunkHeader := {
  ch_transfer_id : Z;
  ch_offset : Z;
  ch_len : Z;
  ch_last : bool;
}.

Definition chunk_encode (h : FileChunkHeader) : result ProtocolError bytes :=
  let? _ := check_chunk_size (ch_len h) in
  let buf := zeroed FILE_CHUNK_HEADER_LEN in
  let buf := copy_at buf 0 (to_be 8 (ch_transfer_id h)) in
  let buf := copy_at buf 8 (to_be 8 (ch_offset h)) in
  let buf := copy_at buf 16 (to_be 4 (ch_len h)) in
  Ok (copy_at buf 20 [if ch_last h then CHUNK_FLAG_LAST else 0]).

Definition chunk_decode (data : bytes) : result ProtocolError FileChunkHeader :=
  let? b := take_array FILE_CHUNK_HEADER_LEN data in
  let? (transfer_id, c) := read_array 8 b in
  let? (offset, c) := read_array 8 c in
  let? (len, c) := read_array 4 c in
  let? _ := check_chunk_size (from_be len) in
  let? (flags, c) := read_array 1 c in
  let flags := from_be flags in
  if negb (Z.land flags CHUNK_FLAGS_RESERVED =? 0) then Err ReservedBitsSet else
  Ok {| ch_transfer_id := from_be transfer_id;
        ch_offset := from_be offset;
        ch_len := from_be len;
        ch_last := negb (Z.land flags CHUNK_FLAG_LAST =? 0) |}.

(** ** Well-formed messages *)

Definition chunk_size_ok (v : Z) : Prop := 1 <= v <= MAX_FILE_CHUNK.

Definition offer_ok (o : FileOffer) : Prop :=
  is_u64 (fo_transfer_id o) /\ is_u64 (fo_total_size o) /\ chunk_size_ok (fo_chunk_size o) /\
  blen (fo_sha256 o) = 32 /\ bytes_ok (fo_sha256 o) /\
  blen (fo_name o) <= MAX_FILE_NAME /\ bytes_ok (fo_name o).

Definition accept_ok (a : FileAccept) : Prop :=
  is_u64 (fa_transfer_id a) /\ is_u64 (fa_resume_offset a).

Definition abort_ok (a : FileAbort) : Prop := is_u64 (fb_transfer_id a).

Definition complete_ok (a : FileComplete) : Prop := is_u64 (fc_transfer_id a).

Definition chunk_ok (h : FileChunkHeader) : Prop :=
  is_u64 (ch_transfer_id h) /\ is_u64 (ch_offset h) /\ chunk_size_ok (ch_len h).

(** ** The cursor *)

Lemma read_array_app N a rest : blen a = N -> read_array N (a ++ rest) = Ok (a, rest).
Proof.
  intros HN. unfold read_array. rewrite take_array_app by done. subst N.
  pose proof (blen_nonneg rest). pose proof (blen_nonneg a).
  rewrite get_from_drop by (rewrite blen_app; lia).
  unfold blen. by rewrite Nat2Z.id, drop_app_length.
Qed.

Lemma read_array_Ok N c a r :
  read_array N c = Ok (a, r) -> blen a = N /\ c = a ++ r.
Proof.
  unfold read_array. destruct (take_array N c) as [x|] eqn:E; [|done].
  apply take_array_Ok in E as (Hl & Ex & Ec). intros [= <- <-].
  rewrite get_from_drop by done. split; [|done].
  rewrite Ex. unfold blen in *. rewrite length_take. lia.
Qed.

Lemma read_array_short N c : blen c < N -> read_array N c = Err (Truncated N (blen c)).
Proof. intros H. unfold read_array. by rewrite take_array_short. Qed.

Lemma check_chunk_size_Ok v : 0 <= v ->
  check_chunk_size v = Ok () <-> chunk_size_ok v.
Proof.
  intros H. unfold check_chunk_size, chunk_size_ok.
  destruct (Z.eqb_spec v 0), (Z.ltb_spec MAX_FILE_CHUNK v); cbn; split; try done; lia.
Qed.

Lemma chunk_size_checked v : chunk_size_ok v -> check_chunk_size v = Ok ().
Proof. intros H. apply check_chunk_size_Ok; [unfold chunk_size_ok in H; lia|done]. Qed.

Lemma to_be_of_read n l : bytes_ok l -> blen l = Z.of_nat n -> to_be n (from_be l) = l.
Proof.
  intros Hl Hn. replace n with (length l) by (unfold blen in Hn; lia).
  by apply to_be_from_be.
Qed.

Lemma from_be_u64 l : bytes_ok l -> blen l = 8 -> is_u64 (from_be l).
Proof. intros Hl Hn. pose proof (from_be_range l Hl) as H. by rewrite Hn in H. Qed.

Lemma from_be_u64_to_be z : is_u64 z -> from_be (to_be 8 z) = z.
Proof. intros H. by apply from_be_to_be_small. Qed.

Lemma from_be_one b : from_be [b] = b.
Proof. reflexivity. Qed.

#[export] Hint Rewrite from_be_one : shp.
#[export] Hint Resolve from_be_u64 chunk_size_checked : shp.

(** Runs the cursor over an encoding. *)
Ltac read_encoding :=
  repeat (rewrite <- ?app_assoc;
          first [ rewrite read_array_app by reflexivity
                | rewrite read_array_app by (rewrite ?blen_to_be; done) ]; cbv iota beta).

(** Turns the reads of a successful decode into equations on the input. *)
Ltac invert_reads :=
  repeat match goal with
  | H : match read_array ?n ?c with _ => _ end = Ok _ |- _ =>
      let E := fresh "E" in
      destruct (read_array n c) as [[? ?]|] eqn:E; [|discriminate H];
      apply read_array_Ok in E as [? E]
  end.

Lemma accept_encode_eq a :
  accept_encode a = to_be 8 (fa_transfer_id a) ++ to_be 8 (fa_resume_offset a).
Proof. reflexivity. Qed.

Lemma abort_encode_eq a :
  abort_encode a = to_be 8 (fb_transfer_id a) ++ [abort_code_as_u8 (fb_code a)].
Proof. reflexivity. Qed.

Lemma complete_encode_eq a :
  complete_encode a = to_be 8 (fc_transfer_id a) ++ [b2z (fc_ok a)].
Proof. reflexivity. Qed.

Lemma chunk_encode_eq h :
  chunk_size_ok (ch_len h) ->
  chunk_encode h = Ok (to_be 8 (ch_transfer_id h) ++ to_be 8 (ch_offset h)
    ++ to_be 4 (ch_len h) ++ [if ch_last h then CHUNK_FLAG_LAST else 0]).
Proof. intros H. unfold chunk_encode. by rewrite chunk_size_checked. Qed.

#[global] Instance accept_codec : WireCodec FileAccept := {
  wire_len := FILE_ACCEPT_LEN; wire_ok := accept_ok;
  wire_encode a := Ok (accept_encode a); wire_decode := accept_decode }.

#[global] Instance abort_codec : WireCodec FileAbort := {
  wire_len := FILE_ABORT_LEN; wire_ok := abort_ok;
  wire_encode a := Ok (abort_encode a); wire_decode := abort_decode }.

#[global] Instance complete_codec : WireCodec FileComplete := {
  wire_len := FILE_COMPLETE_LEN; wire_ok := complete_ok;
  wire_encode a := Ok (complete_encode a); wire_decode := complete_decode }.

#[global] Instance chunk_codec : WireCodec FileChunkHeader := {
  wire_len := FILE_CHUNK_HEADER_LEN; wire_ok := chunk_ok;
  wire_encode := chunk_encode; wire_decode := chunk_decode }.

Lemma read_array_all N a : blen a = N -> read_array N a = Ok (a, []).
Proof. intros H. rewrite <- (app_nil_r a) at 1. by apply read_array_app. Qed.

(** The prefix a fixed-length decoder works on. *)
Lemma take_array_pieces N d b :
  bytes_ok d -> take_array N d = Ok b -> bytes_ok b /\ b = take (Z.to_nat N) d /\ blen b = N.
Proof.
  intros Hd E. apply take_array_Ok in E as (Hl & -> & _).
  split; [eauto with shp|]. split; [done|].
  unfold blen in *. rewrite length_take. lia.
Qed.

Lemma blen_0 l : blen l <= 0 -> l = [].
Proof. destruct l; [done|]. unfold blen; cbn [length]. lia. Qed.

(** The cursor after the last field of a fixed-length message is empty. *)
Ltac empty_tail Hl :=
  rewrite !blen_app in Hl;
  match type of Hl with
  | context [_ + blen ?t = _] =>
      assert (t = []) as -> by (apply blen_0; unfold FILE_ACCEPT_LEN, FILE_ABORT_LEN,
        FILE_COMPLETE_LEN, FILE_CHUNK_HEADER_LEN in Hl; lia)
  | context [_ + (_ + blen ?t) = _] =>
      assert (t = []) as -> by (apply blen_0; unfold FILE_ACCEPT_LEN, FILE_ABORT_LEN,
        FILE_COMPLETE_LEN, FILE_CHUNK_HEADER_LEN in Hl; lia)
  | context [_ + (_ + (_ + (_ + blen ?t))) = _] =>
      assert (t = []) as -> by (apply blen_0; unfold FILE_ACCEPT_LEN, FILE_ABORT_LEN,
        FILE_COMPLETE_LEN, FILE_CHUNK_HEADER_LEN in Hl; lia)
  end.

Lemma blen_1 l : blen l = 1 -> bytes_ok l -> exists b, l = [b] /\ is_u8 b.
Proof.
  intros Hl Hok. destruct l as [|b [|c l]]; unfold blen in Hl; cbn in Hl; [lia| |lia].
  exists b. split; [done|]. by inversion Hok.
Qed.

#[global] Instance accept_codec_laws : WireCodecLaws FileAccept.
Proof.
  split; cbv [wire_ok wire_encode wire_decode wire_len accept_codec].
  - intros [x y] rest [Hx Hy]. eexists. rewrite accept_encode_eq.
    cbn [fa_transfer_id fa_resume_offset] in *.
    split; [done|]. split; [done|]. split; [solve_bytes_ok|].
    unfold accept_decode. rewrite (take_array_app FILE_ACCEPT_LEN) by reflexivity.
    read_encoding. rewrite read_array_all by reflexivity.
    by rewrite !from_be_u64_to_be.
  - intros d a Hd H. unfold accept_decode in H.
    destruct (take_array _ d) as [b|] eqn:E; [|done].
    apply take_array_pieces in E as (Hb & <- & Hl); [|done]. invert_reads. injection H as <-.
    subst. empty_tail Hl. rewrite app_nil_r in *. apply Forall_app in Hb as [Hb1 Hb2].
    split; [split; cbn; eauto with shp|].
    rewrite accept_encode_eq; cbn [fa_transfer_id fa_resume_offset].
    by rewrite !to_be_of_read.
  - intros d H. unfold accept_decode. by rewrite take_array_short.
Qed.

Lemma abort_code_Ok v c : abort_code_from_u8 v = Ok c -> v = abort_code_as_u8 c.
Proof.
  unfold abort_code_from_u8. intros H.
  repeat case_match; try discriminate; injection H as <-; reflexivity.
Qed.

#[global] Instance abort_codec_laws : WireCodecLaws FileAbort.
Proof.
  split; cbv [wire_ok wire_encode wire_decode wire_len abort_codec].
  - intros [x c] rest Hx. eexists. rewrite abort_encode_eq. unfold abort_ok in Hx.
    cbn [fb_transfer_id fb_code] in *.
    split; [done|]. split; [done|]. split.
    { assert (is_u8 (abort_code_as_u8 c)) by (destruct c; unfold is_u8; cbn; lia).
      solve_bytes_ok. }
    unfold abort_decode. rewrite (take_array_app FILE_ABORT_LEN) by reflexivity.
    read_encoding. rewrite read_array_all by reflexivity.
    rewrite from_be_u64_to_be, from_be_one by done. by destruct c.
  - intros d a Hd H. unfold abort_decode in H.
    destruct (take_array _ d) as [b|] eqn:E; [|done].
    apply take_array_pieces in E as (Hb & <- & Hl); [|done]. invert_reads.
    destruct (abort_code_from_u8 _) eqn:Ec; [|done]. injection H as <-.
    subst. empty_tail Hl. rewrite app_nil_r in *. apply Forall_app in Hb as [Hb1 Hb2].
    destruct (blen_1 _ ltac:(eassumption) Hb2) as (v & -> & Hv).
    split; [unfold abort_ok; cbn; eauto with shp|].
    rewrite abort_encode_eq; cbn [fb_transfer_id fb_code].
    rewrite to_be_of_read by done. rewrite from_be_one in Ec.
    by rewrite <- (abort_code_Ok _ _ Ec).
  - intros d H. unfold abort_decode. by rewrite take_array_short.
Qed.

#[global] Instance complete_codec_laws : WireCodecLaws FileComplete.
Proof.
  split; cbv [wire_ok wire_encode wire_decode wire_len complete_codec].
  - intros [x c] rest Hx. eexists. rewrite complete_encode_eq. unfold complete_ok in Hx.
    cbn [fc_transfer_id fc_ok] in *.
    split; [done|]. split; [done|]. split.
    { assert (is_u8 (b2z c)) by (destruct c; unfold is_u8; cbn; lia). solve_bytes_ok. }
    unfold complete_decode. rewrite (take_array_app FILE_COMPLETE_LEN) by reflexivity.
    read_encoding. rewrite read_array_all by reflexivity.
    rewrite from_be_u64_to_be, from_be_one by done. by destruct c.
  - intros d a Hd H. unfold complete_decode in H.
    destruct (take_array _ d) as [b|] eqn:E; [|done].
    apply take_array_pieces in E as (Hb & <- & Hl); [|done]. invert_reads.
    subst. empty_tail Hl. rewrite app_nil_r in *. apply Forall_app in Hb as [Hb1 Hb2].
    destruct (blen_1 _ ltac:(eassumption) Hb2) as (v & -> & Hv). rewrite from_be_one in H.
    destruct v as [|[| |]|]; try discriminate; injection H as <-;
      (split; [unfold complete_ok; cbn; eauto with shp|];
       rewrite complete_encode_eq; cbn [fc_transfer_id fc_ok]; by rewrite to_be_of_read).
  - intros d H. unfold complete_decode. by rewrite take_array_short.
Qed.

Lemma flag_byte b : is_u8 b -> Z.land b CHUNK_FLAGS_RESERVED = 0 ->
  (if negb (Z.land b CHUNK_FLAG_LAST =? 0) then CHUNK_FLAG_LAST else 0) = b.
Proof.
  intros Hb Hr. apply Z.eqb_eq.
  pose proof (all_u8_spec 256 (fun b => implb (Z.land b CHUNK_FLAGS_RESERVED =? 0)
    ((if negb (Z.land b CHUNK_FLAG_LAST =? 0) then CHUNK_FLAG_LAST else 0) =? b))
    ltac:(vm_compute; reflexivity) b Hb) as H.
  cbv beta in H. by rewrite Hr in H.
Qed.

Lemma from_be_u32_to_be z : is_u32 z -> from_be (to_be 4 z) = z.
Proof. intros H. by apply from_be_to_be_small. Qed.

Lemma chunk_size_u32 z : chunk_size_ok z -> is_u32 z.
Proof. unfold chunk_size_ok, is_u32, MAX_FILE_CHUNK. lia. Qed.

#[global] Instance chunk_codec_laws : WireCodecLaws FileChunkHeader.
Proof.
  split; cbv [wire_ok wire_encode wire_decode wire_len chunk_codec].
  - intros [x y n l] rest (Hx & Hy & Hn). cbn [ch_transfer_id ch_offset ch_len] in *.
    eexists. rewrite chunk_encode_eq by done. cbn [ch_transfer_id ch_offset ch_len ch_last].
    split; [done|]. split; [done|]. split.
    { assert (is_u8 (if l then CHUNK_FLAG_LAST else 0)) by (destruct l; unfold is_u8, CHUNK_FLAG_LAST; lia).
      solve_bytes_ok. }
    unfold chunk_decode. rewrite (take_array_app FILE_CHUNK_HEADER_LEN) by reflexivity.
    read_encoding. rewrite from_be_u32_to_be by auto using chunk_size_u32.
    rewrite chunk_size_checked, read_array_all, from_be_one, !from_be_u64_to_be by done.
    by destruct l.
  - intros d a Hd H. unfold chunk_decode in H.
    destruct (take_array _ d) as [b|] eqn:E; [|done].
    apply take_array_pieces in E as (Hb & <- & Hl); [|done]. invert_reads.
    destruct (check_chunk_size _) as [[]|] eqn:Es; [|done]. invert_reads.
    subst. empty_tail Hl. rewrite app_nil_r in *.
    apply Forall_app in Hb as [Hb1 Hb]. apply Forall_app in Hb as [Hb2 Hb].
    apply Forall_app in Hb as [Hb3 Hb4].
    destruct (blen_1 _ ltac:(eassumption) Hb4) as (v & -> & Hv). rewrite from_be_one in H.
    case_match eqn:Er; [done|]. injection H as <-. simplify_bool.
    apply check_chunk_size_Ok in Es; [|by apply (from_be_range _ Hb3)].
    split; [split; [|split]; cbn; eauto with shp|].
    rewrite chunk_encode_eq by done; cbn [ch_transfer_id ch_offset ch_len ch_last].
    by rewrite !to_be_of_read, flag_byte.
  - intros d H. unfold chunk_decode. by rewrite take_array_short.
Qed.

(** ** The variable-length offer *)

Lemma offer_encode_Ok o : offer_ok o -> exists b, offer_encode o = Ok b.
Proof.
  intros (_ & _ & Hc & _ & _ & Hn & _). unfold offer_encode.
  rewrite chunk_size_checked by done.
  rewrite (proj2 (Z.ltb_ge _ _)) by (unfold u8_max; unfold MAX_FILE_NAME in Hn; lia). eauto.
Qed.

Lemma offer_decode_encode o b rest :
  offer_ok o -> offer_encode o = Ok b -> offer_decode (b ++ rest) = Ok o.
Proof.
  intros (Hi & Ht & Hc & Hs & _ & Hn & _) E. unfold offer_encode in E.
  rewrite chunk_size_checked in E by done. case_match eqn:El; [done|]. apply Ok_inj in E as <-.
  destruct o as [i t c s n]; cbn [fo_transfer_id fo_total_size fo_chunk_size fo_sha256 fo_name] in *.
  unfold offer_decode. read_encoding.
  rewrite from_be_u32_to_be, chunk_size_checked by auto using chunk_size_u32.
  rewrite from_be_one, !from_be_u64_to_be by done.
  pose proof (get_range_app_exact [] n rest) as Hg. change (blen []) with 0 in Hg.
  rewrite Z.add_0_l in Hg. cbn [app] in Hg. by rewrite Hg.
Qed.

Lemma offer_decode_Ok d o :
  bytes_ok d -> offer_decode d = Ok o ->
  offer_ok o /\ exists b rest, offer_encode o = Ok b /\ d = b ++ rest.
Proof.
  intros Hd H. unfold offer_decode in H. invert_reads.
  destruct (check_chunk_size _) as [[]|] eqn:Es; [|done]. invert_reads.
  destruct (get_range _ 0 _) as [n|] eqn:En; [|done]. cbn [ok_or] in H. injection H as <-.
  subst. unfold bytes_ok in Hd.
  repeat match goal with H : Forall is_u8 (_ ++ _) |- _ => apply Forall_app in H as [? H] end.
  match goal with H : blen ?l = 1, H' : Forall is_u8 ?l |- _ =>
    destruct (blen_1 l H H') as (v & -> & Hv) end.
  rewrite from_be_one in En. apply get_range_Some in En as (_ & _ & Hnl & En).
  rewrite take_0, Z.sub_0_r in *. cbn [app] in En. rewrite En in Hd.
  apply Forall_app in Hd as [Hn _].
  apply check_chunk_size_Ok in Es; [|by apply from_be_range].
  unfold is_u8 in Hv. split.
  - split_and!; cbn; eauto with shp. unfold MAX_FILE_NAME; lia.
  - do 2 eexists. unfold offer_encode.
    cbn [fo_transfer_id fo_total_size fo_chunk_size fo_sha256 fo_name].
    rewrite chunk_size_checked by done.
    rewrite (proj2 (Z.ltb_ge _ _)) by (unfold u8_max; lia).
    split; [done|]. rewrite !to_be_of_read by done. rewrite Hnl.
    rewrite <- !app_assoc. cbn [app]. by rewrite <- En.
Qed.
