(* ===== verification/ShpCaps.v ===== *)
(** * sh-protocol: capability handshakes

    [crates/sh-protocol/src/capability.rs] (codec capabilities, 4 bytes) and
    [transport_caps.rs] (transport capabilities, 2 bytes, and the symmetric negotiation),
    with the kind bytes of the control channel from [lib.rs]. *)

From stdpp Require Import base numbers list option.
From S2P Require Import Prelude Types ShpWire ShpFile.

(** ** Codec capabilities *)

Definition KIND_CODEC_CAPS_OFFER : Z := 0x10.
Definition KIND_CODEC_CAPS_ANSWER : Z := 0x11.
Definition CODEC_CAPS_LEN : Z := 4.
Definition NO_CODEC_SENTINEL : Z := 0xFF.
Definition FLAG_SW_H264 : Z := 1.
Definition FLAG_IS_APPLE : Z := 2.
Definition FLAG_IS_BROWSER : Z := 4.
Definition FLAGS_RESERVED_MASK : Z := 0xF8.
Definition CODEC_MASK_RESERVED : Z := 0xF8.
Definition CODEC_DISC_H264 : Z := 0.
Definition CODEC_DISC_H265 : Z := 1.
Definition CODEC_DISC_AV1 : Z := 2.

Record CodecCapsPayload := {
  hw_encode_mask : Z;
  hw_decode_mask : Z;
  sw_h264_encode_available : bool;
  is_apple : bool;
  is_browser : bool;
  selected_codec : option Z;
}.

(** The pattern [CODEC_DISC_H264 | CODEC_DISC_H265 | CODEC_DISC_AV1]. *)
Definition is_codec_disc (n : Z) : bool :=
  (n =? CODEC_DISC_H264) || (n =? CODEC_DISC_H265) || (n =? CODEC_DISC_AV1).

Definition encode_caps (p : CodecCapsPayload) : result ProtocolError bytes :=
  if negb (Z.land (hw_encode_mask p) CODEC_MASK_RESERVED =? 0) then Err ReservedBitsSet else
  if negb (Z.land (hw_decode_mask p) CODEC_MASK_RESERVED =? 0) then Err ReservedBitsSet else
  let? selected := match selected_codec p with
                   | None => Ok NO_CODEC_SENTINEL
                   | Some n => if is_codec_disc n then Ok n else Err (InvalidCodec n)
                   end in
  let flags := 0 in
  let flags := if sw_h264_encode_available p then Z.lor flags FLAG_SW_H264 else flags in
  let flags := if is_apple p then Z.lor flags FLAG_IS_APPLE else flags in
  let flags := if is_browser p then Z.lor flags FLAG_IS_BROWSER else flags in
  Ok [hw_encode_mask p; hw_decode_mask p; flags; selected].

Definition decode_caps (data : bytes) : result ProtocolError CodecCapsPayload :=
  let? a := take_array CODEC_CAPS_LEN data in
  match a with
  | [hw_encode_mask; hw_decode_mask; flags; selected_raw] =>
    if negb (Z.land flags FLAGS_RESERVED_MASK =? 0) then Err ReservedBitsSet else
    if negb (Z.land hw_encode_mask CODEC_MASK_RESERVED =? 0)
       || negb (Z.land hw_decode_mask CODEC_MASK_RESERVED =? 0)
    then Err ReservedBitsSet else
    let? selected_codec :=
      if selected_raw =? NO_CODEC_SENTINEL then Ok None
      else if is_codec_disc selected_raw then Ok (Some selected_raw)
      else Err (InvalidCodec selected_raw) in
    Ok {| hw_encode_mask := hw_encode_mask;
          hw_decode_mask := hw_decode_mask;
          sw_h264_encode_available := negb (Z.land flags FLAG_SW_H264 =? 0);
          is_apple := negb (Z.land flags FLAG_IS_APPLE =? 0);
          is_browser := negb (Z.land flags FLAG_IS_BROWSER =? 0);
          selected_codec := selected_codec |}
  | _ => Err (Truncated CODEC_CAPS_LEN (blen data)) (* [a] has four bytes *)
  end.

Definition mask_ok (m : Z) : Prop := is_u8 m /\ Z.land m CODEC_MASK_RESERVED = 0.

Definition caps_ok (p : CodecCapsPayload) : Prop :=
  mask_ok (hw_encode_mask p) /\ mask_ok (hw_decode_mask p) /\
  match selected_codec p with None => True | Some n => is_codec_disc n = true end.

Lemma is_codec_disc_iff n : is_codec_disc n = true <-> n = 0 \/ n = 1 \/ n = 2.
Proof.
  unfold is_codec_disc, CODEC_DISC_H264, CODEC_DISC_H265, CODEC_DISC_AV1.
  rewrite !orb_true_iff, !Z.eqb_eq. tauto.
Qed.

Lemma caps_flags_canonical f : is_u8 f -> Z.land f FLAGS_RESERVED_MASK = 0 ->
  let flags := 0 in
  let flags := if negb (Z.land f FLAG_SW_H264 =? 0) then Z.lor flags FLAG_SW_H264 else flags in
  let flags := if negb (Z.land f FLAG_IS_APPLE =? 0) then Z.lor flags FLAG_IS_APPLE else flags in
  let flags := if negb (Z.land f FLAG_IS_BROWSER =? 0) then Z.lor flags FLAG_IS_BROWSER
               else flags in
  flags = f.
Proof.
  intros Hf Hr. apply Z.eqb_eq.
  pose proof (all_u8_spec 256 (fun f => implb (Z.land f FLAGS_RESERVED_MASK =? 0)
    (let flags := 0 in
     let flags := if negb (Z.land f FLAG_SW_H264 =? 0) then Z.lor flags FLAG_SW_H264 else flags in
     let flags := if negb (Z.land f FLAG_IS_APPLE =? 0) then Z.lor flags FLAG_IS_APPLE else flags in
     let flags := if negb (Z.land f FLAG_IS_BROWSER =? 0) then Z.lor flags FLAG_IS_BROWSER
                  else flags in flags =? f))
    ltac:(vm_compute; reflexivity) f Hf) as H.
  cbv beta in H. rewrite Hr in H. exact H.
Qed.

Lemma caps_flags_u8 (sw ap br : bool) :
  let flags := 0 in
  let flags := if sw then Z.lor flags FLAG_SW_H264 else flags in
  let flags := if ap then Z.lor flags FLAG_IS_APPLE else flags in
  let flags := if br then Z.lor flags FLAG_IS_BROWSER else flags in
  is_u8 flags.
Proof.
  unfold is_u8, FLAG_SW_H264, FLAG_IS_APPLE, FLAG_IS_BROWSER.
  destruct sw, ap, br; split; by first [apply Z.leb_le | apply Z.ltb_lt].
Qed.

#[global] Instance caps_codec : WireCodec CodecCapsPayload := {
  wire_len := CODEC_CAPS_LEN; wire_ok := caps_ok;
  wire_encode := encode_caps; wire_decode := decode_caps }.

#[global] Instance caps_codec_laws : WireCodecLaws CodecCapsPayload.
Proof.
  split; cbv [wire_ok wire_encode wire_decode wire_len caps_codec].
  - intros [em dm sw ap br sel] rest ([He1 He2] & [Hd1 Hd2] & Hs).
    cbn [hw_encode_mask hw_decode_mask selected_codec] in *.
    unfold encode_caps. cbn [hw_encode_mask hw_decode_mask selected_codec
      sw_h264_encode_available is_apple is_browser].
    rewrite He2, Hd2. cbn [Z.eqb negb].
    pose proof (caps_flags_u8 sw ap br) as Hfl. cbv zeta in Hfl.
    destruct sel as [n|]; [rewrite Hs|]; eexists; (split; [done|]); (split; [done|]);
      (split; [|unfold decode_caps; rewrite (take_array_app CODEC_CAPS_LEN) by reflexivity;
                rewrite He2, Hd2]).
    + apply is_codec_disc_iff in Hs. solve_bytes_ok.
    + rewrite Hs. apply is_codec_disc_iff in Hs.
      rewrite (proj2 (Z.eqb_neq n NO_CODEC_SENTINEL)) by (unfold NO_CODEC_SENTINEL; lia).
      by destruct sw, ap, br.
    + assert (is_u8 NO_CODEC_SENTINEL) by (unfold is_u8, NO_CODEC_SENTINEL; lia).
      solve_bytes_ok.
    + by destruct sw, ap, br.
  - intros d p Hd H. unfold decode_caps in H.
    destruct (take_array _ d) as [a|] eqn:E; [|done].
    apply take_array_pieces in E as (Ha & <- & Hl); [|done].
    do 5 (destruct a as [|? a]; try discriminate). split_bytes_ok.
    do 2 (case_match; [done|]). simplify_bool.
    destruct (_ =? NO_CODEC_SENTINEL) eqn:Es in H; [|destruct (is_codec_disc _) eqn:Ed in H; [|done]];
      apply Ok_inj in H as <-; simplify_bool; subst;
      (split; [unfold caps_ok, mask_ok; cbn; auto|]);
      unfold encode_caps; cbn [hw_encode_mask hw_decode_mask selected_codec
        sw_h264_encode_available is_apple is_browser];
      rewrite ?Ed; repeat (match goal with H : Z.land _ _ = 0 |- _ => rewrite H end);
      cbn [Z.eqb negb]; by rewrite caps_flags_canonical.
  - intros d H. unfold decode_caps. by rewrite take_array_short.
Qed.

(** ** Transport capabilities *)

Definition TRANSPORT_CAPS_LEN : Z := 2.
Definition TRANSPORT_CAPS_VERSION : Z := 1.
Definition MASK_QUIC : Z := 1.
Definition MASK_WEBRTC : Z := 2.
Definition KIND_TRANSPORT_CAPS_OFFER : Z := 0x20.
Definition KIND_TRANSPORT_CAPS_ANSWER : Z := 0x21.

Record TransportCaps := { supports_quic : bool; supports_webrtc : bool }.

Inductive NegotiationError := NoCommonTransport (local peer : TransportCaps).

Definition encode_transport_caps (c : TransportCaps) : bytes :=
  let mask := 0 in
  let mask := if supports_quic c then Z.lor mask MASK_QUIC else mask in
  let mask := if supports_webrtc c then Z.lor mask MASK_WEBRTC else mask in
  [TRANSPORT_CAPS_VERSION; mask].

Definition decode_transport_caps (data : bytes) : result ProtocolError TransportCaps :=
  match data with
  | version :: mask :: _ =>
    if negb (version =? TRANSPORT_CAPS_VERSION) then Err (UnknownVersion version) else
    Ok {| supports_quic := negb (Z.land mask MASK_QUIC =? 0);
          supports_webrtc := negb (Z.land mask MASK_WEBRTC =? 0) |}
  | _ => Err (Truncated TRANSPORT_CAPS_LEN (blen data))
  end.

Definition PREFERENCE_ORDER : list TransportKind := [Quic; Webrtc].

Definition caps_has (c : TransportCaps) (kind : TransportKind) : bool :=
  match kind with Quic => supports_quic c | Webrtc => supports_webrtc c end.

Definition negotiate (local peer : TransportCaps) : result NegotiationError TransportKind :=
  match find (fun kind => caps_has local kind && caps_has peer kind) PREFERENCE_ORDER with
  | Some kind => Ok kind
  | None => Err (NoCommonTransport local peer)
  end.

(** ** The control-frame kind bytes *)

Definition KINDS : list Z :=
  [KIND_CODEC_CAPS_OFFER; KIND_CODEC_CAPS_ANSWER; KIND_TRANSPORT_CAPS_OFFER;
   KIND_TRANSPORT_CAPS_ANSWER; KIND_FILE_OFFER; KIND_FILE_ACCEPT; KIND_FILE_ABORT;
   KIND_FILE_COMPLETE].
