(* ===== verification/ShpClaims.v ===== *)
(** * sh-protocol: what the wire format guarantees

    The theorems on the SHP encoders and decoders of [ShpHeaders], [ShpMessages], [ShpFile]
    and [ShpCaps], stated through the codec interface of [ShpWire] where the message has a
    fixed length. *)

From stdpp Require Import base numbers list option gmap strings.
From S2P Require Import Prelude Types Utf8 ShpWire ShpHeaders ShpMessages ShpFile ShpCaps.

(** The headers of a video datagram: a receiver reads back every field of the common and
    the video header the sender wrote, with both timestamps cut to their low 32 bits, and the
    payload after them. *)
Lemma video_headers_roundtrip (c : CommonHeader) (v : VideoHeader) (payload : bytes) :
  is_u16 (sequence c) -> is_u16 (payload_len c) ->
  0 <= frame_id v <= MAX_FRAME_ID -> 0 <= monitor_id v <= MAX_MONITOR_ID ->
  exists vb, video_encode v = Ok vb /\
    let d := common_encode c ++ vb ++ payload in
    common_decode d = Ok (common_on_wire c) /\
    video_decode (drop (Z.to_nat COMMON_HEADER_LEN) d) = Ok (video_on_wire v) /\
    drop (Z.to_nat (COMMON_HEADER_LEN + VIDEO_HEADER_LEN)) d = payload.
Proof.
  intros Hs Hp Hf Hm. destruct (video_encode_Ok v Hf Hm) as (vb & Ev & Hl). exists vb.
  split; [done|]. cbn zeta.
  assert (length (common_encode c) = 9%nat) as Hc by done.
  assert (length vb = 12%nat) as Hv by (unfold blen, VIDEO_HEADER_LEN in Hl; lia).
  split; [by apply common_decode_encode|]. split.
  - rewrite drop_app_length' by done. apply video_decode_encode; [lia|lia|done].
  - rewrite app_assoc. apply drop_app_length'. rewrite length_app, Hc, Hv. done.
Qed.

(** Header decoding is canonical: bytes that decode are exactly the encoding of the header
    they decode to, with every field in range, so no two byte strings are read as the same
    header. *)
Lemma headers_canonical d (c : CommonHeader) (v : VideoHeader) :
  bytes_ok d ->
  (common_decode d = Ok c ->
     common_ok c /\ common_encode c = take (Z.to_nat COMMON_HEADER_LEN) d) /\
  (video_decode d = Ok v ->
     video_ok v /\ video_encode v = Ok (take (Z.to_nat VIDEO_HEADER_LEN) d)).
Proof.
  intros Hd. split; [by apply common_decode_canonical|by apply video_decode_canonical].
Qed.

(** Input events: a buffer decodes to an event iff it starts with its sixteen bytes; a shorter
    buffer is reported as truncated. *)
Lemma input_event_wire d (e : InputEvent.t) :
  bytes_ok d ->
  (InputEvent.decode d = Ok e <-> InputEvent.wf e /\ InputEvent.encode e `prefix_of` d) /\
  (blen d < InputEvent.INPUT_EVENT_LEN ->
     InputEvent.decode d = Err (Truncated InputEvent.INPUT_EVENT_LEN (blen d))).
Proof.
  intros Hd. split; [|apply (@wire_truncated _ input_codec input_codec_laws)].
  pose proof (@wire_prefix_iff _ input_codec input_codec_laws d e Hd) as H.
  cbv [wire_decode wire_ok wire_encode input_codec] in H. rewrite H.
  split; intros [? He]; (split; [done|]); [by destruct He as (b & [= <-] & ?)|by eexists].
Qed.

(** NACK feedback: a buffer decodes iff it starts with the twenty-five bytes of a well-formed
    report, in particular with a cumulative loss of at most 24 bits. *)
Lemma nack_feedback_wire d (f : NackFeedback.t) :
  bytes_ok d ->
  (NackFeedback.decode d = Ok f <->
     NackFeedback.wf f /\ exists b, NackFeedback.encode f = Ok b /\ b `prefix_of` d) /\
  (blen d < NackFeedback.NACK_FEEDBACK_LEN ->
     NackFeedback.decode d = Err (Truncated NackFeedback.NACK_FEEDBACK_LEN (blen d))).
Proof.
  intros Hd. split; [by apply (@wire_prefix_iff _ nack_codec nack_codec_laws)|].
  apply (@wire_truncated _ nack_codec nack_codec_laws).
Qed.

(** The control stream: a buffer that holds encoded frames followed by the start of
    another one is drained to exactly those frames, in order, leaving that start; no other
    reading of the buffer is possible. *)
Lemma control_stream_framing fs f tail fs' rest :
  Forall ControlFraming.frame_ok fs -> ControlFraming.frame_ok f ->
  bytes_ok (ControlFraming.payload f) ->
  tail `prefix_of` ControlFraming.frame_bytes f -> tail <> ControlFraming.frame_bytes f ->
  let buffer := concat (map ControlFraming.frame_bytes fs) ++ tail in
  ControlFraming.drains buffer fs tail /\
  (ControlFraming.drains buffer fs' rest -> fs' = fs /\ rest = tail).
Proof.
  intros Hfs Hf Hb Hpre Hne buffer.
  pose proof (ControlFraming.decode_control_prefix f tail Hf Hb Hpre Hne) as Hwait.
  pose proof (ControlFraming.drains_concat fs tail Hfs Hwait) as Hd. split; [done|].
  intros Hd'. destruct (ControlFraming.drains_det _ _ _ _ _ Hd' Hd). done.
Qed.

(** Clipboard updates: a buffer decodes iff it is the encoding of a text update with valid
    UTF-8 content of at most 256 KiB. *)
Lemma clipboard_wire d (u : ClipboardUpdate.t) :
  ClipboardUpdate.decode d = Ok u <->
  utf8_valid (ClipboardUpdate.content u) = true /\
  blen (ClipboardUpdate.content u) <= ClipboardUpdate.MAX_CLIPBOARD_BYTES /\
  d = ClipboardUpdate.encode u.
Proof. rewrite ClipboardUpdate.decode_iff. unfold ClipboardUpdate.wf. tauto. Qed.

(** File-transfer messages: the variable-length offer and the chunk header of 21 bytes decode
    iff the buffer starts with the encoding of a well-formed offer, or of a header with a legal
    length. *)
Lemma file_messages_wire d (o : FileOffer) (h : FileChunkHeader) :
  bytes_ok d ->
  (offer_decode d = Ok o <-> offer_ok o /\ exists b, offer_encode o = Ok b /\ b `prefix_of` d) /\
  (chunk_decode d = Ok h <-> chunk_ok h /\ exists b, chunk_encode h = Ok b /\ b `prefix_of` d) /\
  (blen d < FILE_CHUNK_HEADER_LEN -> chunk_decode d = Err (Truncated FILE_CHUNK_HEADER_LEN (blen d))).
Proof.
  intros Hd. split; [split|split].
  - intros E. destruct (offer_decode_Ok d o Hd E) as (Ho & b & rest & He & ->). split; [done|].
    exists b. split; [done|]. by apply prefix_app_r.
  - intros (Ho & b & He & rest & ->). by apply offer_decode_encode.
  - by apply (@wire_prefix_iff _ chunk_codec chunk_codec_laws).
  - apply (@wire_truncated _ chunk_codec chunk_codec_laws).
Qed.

(** Codec capabilities: encoder and decoder accept the same payloads; a buffer decodes iff it
    starts with the four bytes of a payload without reserved bits and with a known selected
    codec. *)
Lemma codec_caps_wire d (p : CodecCapsPayload) :
  bytes_ok d ->
  (decode_caps d = Ok p <-> caps_ok p /\ exists b, encode_caps p = Ok b /\ b `prefix_of` d) /\
  (blen d < CODEC_CAPS_LEN -> decode_caps d = Err (Truncated CODEC_CAPS_LEN (blen d))).
Proof.
  intros Hd. split; [by apply (@wire_prefix_iff _ caps_codec caps_codec_laws)|].
  apply (@wire_truncated _ caps_codec caps_codec_laws).
Qed.

(** The headers of a video datagram, both ways: a receiver reads back every field of the
    common and the video header the sender wrote, with both timestamps cut to their low 32
    bits, and the payload after them; and bytes that decode are exactly the encoding of the
    header they decode to, so no two byte strings are read as the same header. *)
Lemma datagram_headers_wire (c : CommonHeader) (v : VideoHeader) (payload d : bytes) c' v' :
  is_u16 (sequence c) -> is_u16 (payload_len c) ->
  0 <= frame_id v <= MAX_FRAME_ID -> 0 <= monitor_id v <= MAX_MONITOR_ID -> bytes_ok d ->
  (exists vb, video_encode v = Ok vb /\
    let w := common_encode c ++ vb ++ payload in
    common_decode w = Ok (common_on_wire c) /\
    video_decode (drop (Z.to_nat COMMON_HEADER_LEN) w) = Ok (video_on_wire v) /\
    drop (Z.to_nat (COMMON_HEADER_LEN + VIDEO_HEADER_LEN)) w = payload) /\
  (common_decode d = Ok c' ->
     common_ok c' /\ common_encode c' = take (Z.to_nat COMMON_HEADER_LEN) d) /\
  (video_decode d = Ok v' ->
     video_ok v' /\ video_encode v' = Ok (take (Z.to_nat VIDEO_HEADER_LEN) d)).
Proof.
  intros. split; [by apply video_headers_roundtrip|by apply headers_canonical].
Qed.

(** C40. The messages of the control and data streams have exactly one encoding.  Input events,
    NACK reports, file offers, chunk headers and codec capabilities are read from the start of a
    buffer: it decodes to a message iff the message is well formed and the buffer starts with its
    encoding, whatever bytes follow; a buffer too short for a message of fixed length is
    reported as truncated.  A clipboard update is the whole buffer, which decodes iff it is the
    encoding of a valid UTF-8 text of at most 256 KiB. *)
Theorem messages_wire_canonical d e f o h u p :
  bytes_ok d ->
  (InputEvent.decode d = Ok e <-> InputEvent.wf e /\ InputEvent.encode e `prefix_of` d) /\
  (blen d < InputEvent.INPUT_EVENT_LEN ->
     InputEvent.decode d = Err (Truncated InputEvent.INPUT_EVENT_LEN (blen d))) /\
  (NackFeedback.decode d = Ok f <->
     NackFeedback.wf f /\ exists b, NackFeedback.encode f = Ok b /\ b `prefix_of` d) /\
  (blen d < NackFeedback.NACK_FEEDBACK_LEN ->
     NackFeedback.decode d = Err (Truncated NackFeedback.NACK_FEEDBACK_LEN (blen d))) /\
  (offer_decode d = Ok o <-> offer_ok o /\ exists b, offer_encode o = Ok b /\ b `prefix_of` d) /\
  (chunk_decode d = Ok h <-> chunk_ok h /\ exists b, chunk_encode h = Ok b /\ b `prefix_of` d) /\
  (blen d < FILE_CHUNK_HEADER_LEN -> chunk_decode d = Err (Truncated FILE_CHUNK_HEADER_LEN (blen d))) /\
  (decode_caps d = Ok p <-> caps_ok p /\ exists b, encode_caps p = Ok b /\ b `prefix_of` d) /\
  (blen d < CODEC_CAPS_LEN -> decode_caps d = Err (Truncated CODEC_CAPS_LEN (blen d))) /\
  (ClipboardUpdate.decode d = Ok u <->
     utf8_valid (ClipboardUpdate.content u) = true /\
     blen (ClipboardUpdate.content u) <= ClipboardUpdate.MAX_CLIPBOARD_BYTES /\
     d = ClipboardUpdate.encode u).
Proof.
  intros Hd. destruct (input_event_wire d e Hd), (nack_feedback_wire d f Hd), (codec_caps_wire d p Hd).
  destruct (file_messages_wire d o h Hd) as (? & ? & ?). pose proof (clipboard_wire d u). by split_and!.
Qed.

(** The transports both sides support, best first. *)
Definition common_transports (a b : TransportCaps) : list TransportKind :=
  List.filter (fun k => caps_has a k && caps_has b k) PREFERENCE_ORDER.

Lemma transport_caps_roundtrip c rest :
  decode_transport_caps (encode_transport_caps c ++ rest) = Ok c.
Proof. by destruct c as [[] []]. Qed.

(** Transport negotiation: after exchanging the two-byte capability messages both sides
    pick the same transport, the first of the preference order (QUIC before WebRTC) that both
    support, and both fail iff there is none. *)
Lemma transport_negotiation_agrees a b rest1 rest2 :
  exists a' b',
    decode_transport_caps (encode_transport_caps a ++ rest1) = Ok a' /\
    decode_transport_caps (encode_transport_caps b ++ rest2) = Ok b' /\
    ok (negotiate a b') = head (common_transports a b) /\
    ok (negotiate b a') = head (common_transports a b).
Proof.
  exists a, b. rewrite !transport_caps_roundtrip. split_and!; try done;
    by destruct a as [[] []], b as [[] []].
Qed.

(** The kind bytes of the control channel do not collide. *)
Lemma kinds_distinct : NoDup KINDS.
Proof. apply (bool_decide_unpack _). vm_compute. exact I. Qed.

(** ** Witnesses *)

Definition toy_common : CommonHeader :=
  {| channel := Video; flags := {| fragment_flag := true; last_fragment := false |};
     sequence := 513; timestamp_us := 2 ^ 32 + 5; payload_len := 13 |}.

Definition toy_video : VideoHeader :=
  {| frame_id := 70000; frag_index := 1; total_frags := 3; codec := Av1; frame_type := Idr;
     priority := High; monitor_id := 2; marker := true; encode_ts_us := 9 |}.

Definition toy_event : bytes := [1; 3; 0; 10; 0; 20; 1; 0; 65; 255; 255; 0; 2; 7; 0; 0].

Definition toy_nack : bytes :=
  [1; 0; 0; 0; 9; 1; 2; 0; 0; 5; 10; 0; 0; 1; 0; 0; 0; 2; 0; 0; 0; 39; 16; 128; 1].

Lemma control_stream_framing_witness :
  let f1 := ControlFraming.mk 16 [1; 2; 3] in
  let f2 := ControlFraming.mk 48 [] in
  let f3 := ControlFraming.mk 49 [7; 7] in
  ControlFraming.drains ([16; 0; 3; 1; 2; 3] ++ [48; 0; 0] ++ [49; 0; 2; 7]) [f1; f2] [49; 0; 2; 7].
Proof.
  intros f1 f2 f3.
  assert (Forall ControlFraming.frame_ok [f1; f2]) as Hfs
    by (repeat (apply Forall_cons_2; [split; vm_compute; [split; [discriminate|reflexivity]|discriminate]|]); apply Forall_nil_2).
  assert (ControlFraming.frame_ok f3) as Hf
    by (split; vm_compute; [split; [discriminate|reflexivity]|discriminate]).
  assert (bytes_ok (ControlFraming.payload f3)) as Hb by (apply bytes_okb_ok; reflexivity).
  assert ([49; 0; 2; 7] `prefix_of` ControlFraming.frame_bytes f3) as Hp by (exists [7]; reflexivity).
  assert ([49; 0; 2; 7] <> ControlFraming.frame_bytes f3) as Hne by (vm_compute; discriminate).
  exact (proj1 (control_stream_framing [f1; f2] f3 [49; 0; 2; 7] [] [] Hfs Hf Hb Hp Hne)).
Defined.

Lemma datagram_headers_wire_witness :
  timestamp_us (common_on_wire toy_common) = 5 /\
  exists vb, video_encode toy_video = Ok vb /\
    common_decode (common_encode toy_common ++ vb ++ [42]) = Ok (common_on_wire toy_common).
Proof.
  split; [vm_compute; reflexivity|].
  destruct (datagram_headers_wire toy_common toy_video [42] [] toy_common toy_video)
    as ((vb & Hv & Hc & _) & _);
    try (cbn; unfold is_u16, MAX_FRAME_ID, MAX_MONITOR_ID; lia); [apply Forall_nil_2|].
  exists vb. split; [exact Hv|exact Hc].
Defined.

Definition toy_offer : FileOffer :=
  {| fo_transfer_id := 0; fo_total_size := 0; fo_chunk_size := 1; fo_sha256 := []; fo_name := [] |}.

(** An input event with a byte behind it, a NACK report and a capability payload that decode. *)
Lemma messages_wire_canonical_witness :
  (exists e, InputEvent.decode (toy_event ++ [99]) = Ok e /\ InputEvent.encode e `prefix_of` toy_event ++ [99]) /\
  (exists f b, NackFeedback.decode toy_nack = Ok f /\ NackFeedback.encode f = Ok b /\ b `prefix_of` toy_nack) /\
  (exists p b, decode_caps [3; 7; 5; 255] = Ok p /\ encode_caps p = Ok b /\ b `prefix_of` [3; 7; 5; 255]).
Proof.
  destruct (InputEvent.decode (toy_event ++ [99])) as [e|] eqn:Ee; [|vm_compute in Ee; discriminate].
  destruct (NackFeedback.decode toy_nack) as [f|] eqn:Ef; [|vm_compute in Ef; discriminate].
  destruct (decode_caps [3; 7; 5; 255]) as [p|] eqn:Ep; [|vm_compute in Ep; discriminate].
  pose (h := {| ch_transfer_id := 7; ch_offset := 4; ch_len := 3; ch_last := true |}).
  pose (u := {| ClipboardUpdate.format := ClipboardUpdate.Text; ClipboardUpdate.content := [] |}).
  assert (bytes_ok (toy_event ++ [99])) as H1 by (apply bytes_okb_ok; vm_compute; reflexivity).
  assert (bytes_ok toy_nack) as H2 by (apply bytes_okb_ok; vm_compute; reflexivity).
  assert (bytes_ok [3; 7; 5; 255]) as H3 by (apply bytes_okb_ok; reflexivity).
  destruct (messages_wire_canonical (toy_event ++ [99]) e f toy_offer h u p H1) as (C1 & _).
  destruct (messages_wire_canonical toy_nack e f toy_offer h u p H2) as (_ & _ & C2 & _).
  destruct (messages_wire_canonical [3; 7; 5; 255] e f toy_offer h u p H3) as (_ & _ & _ & _ & _ & _ & _ & C3 & _).
  split; [|split].
  - exists e. split; [reflexivity|]. exact (proj2 (proj1 C1 Ee)).
  - destruct (proj2 (proj1 C2 Ef)) as (b & Hb). exists f, b. split; [reflexivity|exact Hb].
  - destruct (proj2 (proj1 C3 Ep)) as (b & Hb). exists p, b. split; [reflexivity|exact Hb].
Defined.
