(* ===== verification/CryptoTypes.v ===== *)
(** * sh-crypto: errors, roles, primitives

    [crates/sh-crypto/src/error.rs], the roles of [noise.rs] and the directions of
    [channel_crypto.rs].  The cryptographic primitives (HKDF-SHA-256, ChaCha20-Poly1305,
    SHA-256, Ed25519) come from third-party crates: they are the operations of the class
    [CryptoPrims], and [CryptoLaws] states the documented behaviour the code relies on. *)

From stdpp Require Import base numbers list option strings.
From S2P Require Import Prelude.

Inductive CryptoError :=
| SignatureErr
| UntrustedPeer
| MalformedKey (reason : string)
| MalformedSignature (reason : string)
| Backend (msg : string)
| MalformedBindCert (reason : string)
| NoiseStaticMismatch
| DtlsBindingMissing
| BindCertExpired
| BindCertNotYetValid
| HandshakeFailed (reason : string)
| Downgrade
| SasMismatch
| PakeConfirmationFailed
| PairingCodeExpired
| MalformedPakeMessage (reason : string)
| ReTrustAfterRevoke
| AeadFailure
| ReplayedFrame
| EpochTooFarAhead
| NonceExhausted
| MalformedChannelFrame (reason : string)
| MalformedUgc (reason : string)
| UgcBadSignature
| UgcWrongGrantee
| UgcExpired
| UgcRevoked.

#[global] Instance CryptoError_eq_dec : EqDecision CryptoError.
Proof. solve_decision. Defined.

Inductive HandshakeRole := Initiator | Responder.

#[global] Instance HandshakeRole_eq_dec : EqDecision HandshakeRole.
Proof. solve_decision. Defined.

Inductive Direction := I2R | R2I.

#[global] Instance Direction_eq_dec : EqDecision Direction.
Proof. solve_decision. Defined.

Definition DIR_I2R : Z := 0.
Definition DIR_R2I : Z := 1.

Definition dir_wire_byte (d : Direction) : Z :=
  match d with I2R => DIR_I2R | R2I => DIR_R2I end.

Definition dir_from_wire (b : Z) : result CryptoError Direction :=
  if b =? DIR_I2R then Ok I2R
  else if b =? DIR_R2I then Ok R2I
  else Err (MalformedChannelFrame "unknown direction byte").

Definition dir_idx (d : Direction) : Z := match d with I2R => 0 | R2I => 1 end.

Lemma dir_from_wire_byte d : dir_from_wire (dir_wire_byte d) = Ok d.
Proof. by destruct d. Qed.

Lemma dir_from_wire_Ok b d : dir_from_wire b = Ok d -> b = dir_wire_byte d.
Proof.
  unfold dir_from_wire. repeat case_match; try done; intros [= <-]; simplify_bool; done.
Qed.

(** ** Primitives *)

Class CryptoPrims := {
  (** [Hkdf::<Sha256>::extract(None, ikm)]: the pseudo-random key *)
  hkdf_extract : bytes -> bytes;
  (** whether [Hkdf::from_prk(prk)] accepts the key *)
  hkdf_from_prk : bytes -> bool;
  (** [Hkdf::expand(info, out)] with [out.len() = len] *)
  hkdf_expand : bytes -> bytes -> Z -> option bytes;
  (** ChaCha20-Poly1305 under a 32-byte key and a 12-byte nonce *)
  aead_encrypt : bytes -> bytes -> bytes -> bytes -> option bytes;
  aead_decrypt : bytes -> bytes -> bytes -> bytes -> option bytes;
}.

(** The largest plaintext ChaCha20-Poly1305 accepts (RFC 8439: 2^38 - 64 bytes). *)
Definition AEAD_MAX_PLAINTEXT : Z := 274877906880.

Class CryptoLaws `{CryptoPrims} : Prop := {
  hkdf_extract_len ikm : blen (hkdf_extract ikm) = 32;
  (** [from_prk] refuses only keys shorter than the 32-byte hash *)
  hkdf_from_prk_ok prk : 32 <= blen prk -> hkdf_from_prk prk = true;
  (** [expand] refuses only outputs longer than 255 blocks *)
  hkdf_expand_ok prk info len :
    0 <= len <= 8160 -> exists out, hkdf_expand prk info len = Some out /\ blen out = len;
  aead_encrypt_ok key nonce aad m :
    blen m <= AEAD_MAX_PLAINTEXT -> exists c, aead_encrypt key nonce aad m = Some c;
  aead_encrypt_len key nonce aad m c :
    aead_encrypt key nonce aad m = Some c -> blen c = blen m + 16;
  aead_encrypt_bytes key nonce aad m c :
    bytes_ok m -> aead_encrypt key nonce aad m = Some c -> bytes_ok c;
  aead_decrypt_encrypt key nonce aad m c :
    aead_encrypt key nonce aad m = Some c -> aead_decrypt key nonce aad c = Some m;
}.

(** SHA-256 and Ed25519 strict verification. *)
Class SigPrims := {
  sha256 : bytes -> bytes;
  (** [verify_strict]: public key, message, 64-byte signature *)
  ed25519_verify : bytes -> bytes -> bytes -> bool;
}.

Class SigLaws `{SigPrims} : Prop := {
  sha256_len m : blen (sha256 m) = 32;
  sha256_bytes m : bytes_ok (sha256 m);
}.

(** Ed25519 keys: decompression and the small-order test of a 32-byte public key, the
    public key of a secret and signing. *)
Class KeyPrims := {
  (** [VerifyingKey::from_bytes(k).is_ok()]; the key keeps the bytes it was read from *)
  ed25519_point_ok : bytes -> bool;
  ed25519_is_weak : bytes -> bool;
  ed25519_public : bytes -> bytes;
  ed25519_sign : bytes -> bytes -> bytes;
}.

Class KeyLaws `{SigPrims} `{KeyPrims} : Prop := {
  ed25519_public_len sk : blen (ed25519_public sk) = 32;
  ed25519_public_bytes sk : bytes_ok (ed25519_public sk);
  (** a clamped secret never gives a small-order key *)
  ed25519_public_ok sk : ed25519_point_ok (ed25519_public sk) = true;
  ed25519_public_not_weak sk : ed25519_is_weak (ed25519_public sk) = false;
  ed25519_sign_len sk m : blen (ed25519_sign sk m) = 64;
  ed25519_sign_bytes sk m : bytes_ok (ed25519_sign sk m);
  ed25519_verify_sign sk m : ed25519_verify (ed25519_public sk) m (ed25519_sign sk m) = true;
}.

(** ** A concrete model of the primitives

    A small executable instance of [CryptoPrims] that satisfies [CryptoLaws] (a checksum
    in place of SHA-256, the identity cipher with a 16-byte keyed checksum as tag).  It
    makes the theorems' hypotheses evaluable on concrete inputs; nothing is claimed about
    its strength. *)

Definition toy_digest (l : bytes) : Z :=
  fold_left (fun acc b => (acc * 31 + b + 7) mod 2 ^ 64) l 5.

Definition toy_tag (key nonce aad m : bytes) : bytes :=
  to_be 16 (toy_digest (key ++ nonce ++ aad ++ m)).

#[global] Instance toy_prims : CryptoPrims := {|
  hkdf_extract ikm := to_be 32 (toy_digest ikm);
  hkdf_from_prk prk := 32 <=? blen prk;
  hkdf_expand prk info len :=
    if (0 <=? len) && (len <=? 8160)
    then Some (to_be (Z.to_nat len) (toy_digest (prk ++ info))) else None;
  aead_encrypt key nonce aad m :=
    if blen m <=? AEAD_MAX_PLAINTEXT then Some (m ++ toy_tag key nonce aad m) else None;
  aead_decrypt key nonce aad c :=
    if blen c <? 16 then None else
    let m := take (length c - 16) c in
    if bytes_eqb (drop (length c - 16) c) (toy_tag key nonce aad m) then Some m else None;
|}.

#[global] Instance toy_laws : @CryptoLaws toy_prims.
Proof.
  split; cbn -[to_be AEAD_MAX_PLAINTEXT].
  - intros ikm. by rewrite blen_to_be.
  - intros prk Hp. by apply Z.leb_le.
  - intros prk info len Hl. rewrite (proj2 (Z.leb_le 0 len)), (proj2 (Z.leb_le len 8160)) by lia.
    cbn [andb]. eexists; split; [done|]. rewrite blen_to_be. lia.
  - intros key nonce aad m Hm. rewrite (proj2 (Z.leb_le _ _) Hm). eauto.
  - intros key nonce aad m c. case_match; [|done]. intros [= <-].
    rewrite blen_app. unfold toy_tag. rewrite blen_to_be. lia.
  - intros key nonce aad m c Hm. case_match; [|done]. intros [= <-].
    apply Forall_app_2; [done|apply to_be_ok].
  - intros key nonce aad m c. case_match; [|done]. intros [= <-].
    rewrite (proj2 (Z.ltb_ge _ _)) by (rewrite blen_app; unfold toy_tag; rewrite blen_to_be; pose proof (blen_nonneg m); lia).
    assert (length (toy_tag key nonce aad m) = 16%nat) as Ht by apply to_be_length.
    rewrite length_app, Ht. replace (length m + 16 - 16)%nat with (length m) by lia.
    cbv zeta. rewrite take_app_length, drop_app_length. unfold bytes_eqb.
    by rewrite bool_decide_eq_true_2.
Qed.

(** A checksum for SHA-256; a signature is the keyed checksum of the message. *)
Definition toy_sign (key m : bytes) : bytes := to_be 64 (toy_digest (key ++ m)).

#[global] Instance toy_sigs : SigPrims := {|
  sha256 m := to_be 32 (toy_digest m);
  ed25519_verify key m sig := bytes_eqb sig (toy_sign key m);
|}.

#[global] Instance toy_sig_laws : @SigLaws toy_sigs.
Proof.
  split; intros m; cbn -[to_be]; [by rewrite blen_to_be|apply to_be_ok].
Qed.

#[global] Instance toy_keys : KeyPrims := {|
  ed25519_point_ok k := blen k =? 32;
  ed25519_is_weak k := bytes_eqb k (replicate 32 0);
  ed25519_public sk := 1 :: to_be 31 (toy_digest sk);
  ed25519_sign sk m := toy_sign (1 :: to_be 31 (toy_digest sk)) m;
|}.

#[global] Instance toy_key_laws : @KeyLaws toy_sigs toy_keys.
Proof.
  assert (forall sk, blen (1 :: to_be 31 (toy_digest sk)) = 32) as Hl.
  { intros sk. change (blen ([1] ++ to_be 31 (toy_digest sk)) = 32). by rewrite blen_app, blen_to_be. }
  split; cbn -[to_be toy_sign toy_digest]; intros.
  - apply Hl.
  - apply Forall_cons_2; [unfold is_u8; lia|apply to_be_ok].
  - by rewrite Hl.
  - unfold bytes_eqb. by apply bool_decide_eq_false_2.
  - apply (blen_to_be 64).
  - apply to_be_ok.
  - unfold bytes_eqb. by apply bool_decide_eq_true_2.
Qed.
