(* ===== verification/Identity.v ===== *)
(** * sh-crypto: device identities, signatures and key stores

    [crates/sh-crypto/src/identity.rs] (fingerprints and public identities), [signature.rs],
    the [Keystore] trait of [keystore.rs] as a class with its documented contract as laws, and
    [software_keystore.rs], its in-memory instance.  The trust map is a [gmap] from
    fingerprints; a method that writes it returns the new store next to its result.  The
    [RwLock]'s poison flag is part of the state: a poisoned lock makes every method fail. *)

From stdpp Require Import base numbers list option strings gmap.
From S2P Require Import Prelude CryptoTypes.
From Stdlib Require Ascii.

(** ** Fingerprints *)

Definition hex_digit (n : Z) : Ascii.ascii :=
  Ascii.ascii_of_nat (Z.to_nat (if n <? 10 then 48 + n else 87 + n)).

(** [write!(hex, "{b:02x}")] for every byte. *)
Fixpoint hex_string (l : bytes) : string :=
  match l with
  | [] => EmptyString
  | b :: l' => String (hex_digit (b / 16)) (String (hex_digit (b mod 16)) (hex_string l'))
  end.

Definition Fingerprint : Type := string.

Record DeviceIdentity := {
  verifying_key : bytes;
  fingerprint : Fingerprint;
}.

#[global] Instance DeviceIdentity_eq_dec : EqDecision DeviceIdentity.
Proof. solve_decision. Defined.

Definition public_key_bytes (id : DeviceIdentity) : bytes := verifying_key id.

Section Ids.
Context `{SP : SigPrims} `{KP : !KeyPrims}.

Definition fingerprint_from_verifying_key (key : bytes) : Fingerprint := hex_string (sha256 key).

(** [&self.0[..16]]. *)
Definition fingerprint_short (f : Fingerprint) : string := String.substring 0 16 f.

Definition identity_from_verifying_key (key : bytes) : DeviceIdentity :=
  {| verifying_key := key; fingerprint := fingerprint_from_verifying_key key |}.

Definition from_public_key_bytes (b : bytes) : result CryptoError DeviceIdentity :=
  if negb (ed25519_point_ok b)
  then Err (MalformedKey "bytes do not form a valid Ed25519 compressed point") else
  if ed25519_is_weak b
  then Err (MalformedKey "public key is a small-order (weak) point and cannot be trusted") else
  Ok (identity_from_verifying_key b).

(** ** Signatures *)

Definition SIGNATURE_LEN : Z := 64.

Definition signature_decode (b : bytes) : result CryptoError bytes :=
  if blen b =? SIGNATURE_LEN then Ok b else Err (MalformedSignature "expected exactly 64 bytes").

Definition signature_verify (sig : bytes) (id : DeviceIdentity) (data : bytes)
    : result CryptoError unit :=
  if ed25519_verify (verifying_key id) data sig then Ok tt else Err SignatureErr.
End Ids.

(** ** Key stores *)

Inductive TrustOutcome := Pinned | WasRevoked.

#[global] Instance TrustOutcome_eq_dec : EqDecision TrustOutcome.
Proof. solve_decision. Defined.

Inductive TrustState := Trusted | Revoked.

#[global] Instance TrustState_eq_dec : EqDecision TrustState.
Proof. solve_decision. Defined.

Class Keystore (K : Type) := {
  ks_device_identity : K -> result CryptoError DeviceIdentity;
  ks_sign : K -> bytes -> result CryptoError bytes;
  ks_trust_peer : K -> DeviceIdentity -> K * result CryptoError unit;
  ks_is_trusted : K -> DeviceIdentity -> result CryptoError bool;
  ks_revoke_peer : K -> DeviceIdentity -> K * result CryptoError unit;
  ks_was_peer_revoked : K -> DeviceIdentity -> result CryptoError bool;
  ks_trust_peer_if_not_revoked : K -> DeviceIdentity -> K * result CryptoError TrustOutcome;
}.

(** The contract the trait documents, over the trust state of every fingerprint: reads report
    it, each write changes the entry of its peer only, a refused or failed write nothing. *)
Class KeystoreLaws (K : Type) `{Keystore K} := {
  ks_status : K -> Fingerprint -> option TrustState;
  ks_is_trusted_spec k id b :
    ks_is_trusted k id = Ok b -> b = bool_decide (ks_status k (fingerprint id) = Some Trusted);
  ks_was_revoked_spec k id b :
    ks_was_peer_revoked k id = Ok b ->
    b = bool_decide (ks_status k (fingerprint id) = Some Revoked);
  ks_trust_spec k id k' r f :
    ks_trust_peer k id = (k', r) ->
    ks_status k' f =
      if bool_decide (is_ok r = true /\ f = fingerprint id) then Some Trusted else ks_status k f;
  ks_revoke_spec k id k' r f :
    ks_revoke_peer k id = (k', r) ->
    ks_status k' f =
      if bool_decide (is_ok r = true /\ f = fingerprint id) then Some Revoked else ks_status k f;
  ks_trust_if_spec k id k' r f :
    ks_trust_peer_if_not_revoked k id = (k', r) ->
    (r = Ok WasRevoked -> ks_status k (fingerprint id) = Some Revoked) /\
    (r = Ok Pinned -> ks_status k (fingerprint id) <> Some Revoked) /\
    ks_status k' f =
      if bool_decide (r = Ok Pinned /\ f = fingerprint id) then Some Trusted else ks_status k f;
}.

(** ** The in-memory key store *)

Record SoftwareKeystore := {
  signing_key : bytes;
  identity : DeviceIdentity;
  peers : gmap Fingerprint TrustState;
  lock_poisoned : bool;
}.

Section Software.
Context `{SP : SigPrims} `{KP : !KeyPrims}.

Definition from_signing_key (key : bytes) : SoftwareKeystore :=
  {| signing_key := key;
     identity := identity_from_verifying_key (ed25519_public key);
     peers := ∅;
     lock_poisoned := false |}.

(** [generate_with_rng]: the RNG's output is the secret. *)
Definition generate_with_rng (rng : bytes) : SoftwareKeystore := from_signing_key rng.

Definition fp (id : DeviceIdentity) : Fingerprint := fingerprint id.

Definition POISONED : CryptoError := Backend "trust store lock poisoned".

Definition set_peer (ks : SoftwareKeystore) (f : Fingerprint) (t : TrustState) : SoftwareKeystore :=
  {| signing_key := signing_key ks; identity := identity ks;
     peers := <[f := t]> (peers ks); lock_poisoned := lock_poisoned ks |}.

Definition sw_device_identity (ks : SoftwareKeystore) : result CryptoError DeviceIdentity :=
  Ok (identity ks).

Definition sw_sign (ks : SoftwareKeystore) (data : bytes) : result CryptoError bytes :=
  Ok (ed25519_sign (signing_key ks) data).

Definition sw_trust_peer (ks : SoftwareKeystore) (id : DeviceIdentity)
    : SoftwareKeystore * result CryptoError unit :=
  if lock_poisoned ks then (ks, Err POISONED) else (set_peer ks (fp id) Trusted, Ok tt).

Definition sw_is_trusted (ks : SoftwareKeystore) (id : DeviceIdentity) : result CryptoError bool :=
  if lock_poisoned ks then Err POISONED else
  Ok (match peers ks !! fp id with Some Trusted => true | _ => false end).

Definition sw_revoke_peer (ks : SoftwareKeystore) (id : DeviceIdentity)
    : SoftwareKeystore * result CryptoError unit :=
  if lock_poisoned ks then (ks, Err POISONED) else (set_peer ks (fp id) Revoked, Ok tt).

Definition sw_was_peer_revoked (ks : SoftwareKeystore) (id : DeviceIdentity)
    : result CryptoError bool :=
  if lock_poisoned ks then Err POISONED else
  Ok (match peers ks !! fp id with Some Revoked => true | _ => false end).

Definition sw_trust_peer_if_not_revoked (ks : SoftwareKeystore) (id : DeviceIdentity)
    : SoftwareKeystore * result CryptoError TrustOutcome :=
  if lock_poisoned ks then (ks, Err POISONED) else
  match peers ks !! fp id with
  | Some Revoked => (ks, Ok WasRevoked)
  | Some Trusted | None => (set_peer ks (fp id) Trusted, Ok Pinned)
  end.

#[global] Instance software_keystore : Keystore SoftwareKeystore := {|
  ks_device_identity := sw_device_identity;
  ks_sign := sw_sign;
  ks_trust_peer := sw_trust_peer;
  ks_is_trusted := sw_is_trusted;
  ks_revoke_peer := sw_revoke_peer;
  ks_was_peer_revoked := sw_was_peer_revoked;
  ks_trust_peer_if_not_revoked := sw_trust_peer_if_not_revoked;
|}.

Lemma if_bool_decide_iff {A} (P Q : Prop) `{Decision P, Decision Q} (a b : A) :
  (P <-> Q) -> (if bool_decide P then a else b) = (if bool_decide Q then a else b).
Proof. intros HPQ. by rewrite (bool_decide_ext P Q HPQ). Qed.

Lemma set_peer_status ks f g t :
  peers (set_peer ks f t) !! g = if bool_decide (g = f) then Some t else peers ks !! g.
Proof.
  cbn. case_bool_decide as E; [subst; by rewrite lookup_insert_eq|by rewrite lookup_insert_ne].
Qed.

(** The in-memory store keeps the trait's contract. *)
#[global] Instance software_keystore_laws : KeystoreLaws SoftwareKeystore.
Proof.
  unshelve econstructor; [exact (fun ks f => peers ks !! f)|..]; intros ks id; cbn [ks_is_trusted ks_was_peer_revoked ks_trust_peer ks_revoke_peer
    ks_trust_peer_if_not_revoked software_keystore].
  - unfold sw_is_trusted, fp. intros b. case_match; [done|]. intros [= <-].
    by repeat case_match; case_bool_decide.
  - unfold sw_was_peer_revoked, fp. intros b. case_match; [done|]. intros [= <-].
    by repeat case_match; case_bool_decide.
  - unfold sw_trust_peer, fp. intros k' r f. case_match; intros [= <- <-]; cbn [is_ok].
    + by rewrite bool_decide_eq_false_2 by (by intros [? ?]).
    + rewrite set_peer_status. by apply if_bool_decide_iff; intuition.
  - unfold sw_revoke_peer, fp. intros k' r f. case_match; intros [= <- <-]; cbn [is_ok].
    + by rewrite bool_decide_eq_false_2 by (by intros [? ?]).
    + rewrite set_peer_status. by apply if_bool_decide_iff; intuition.
  - unfold sw_trust_peer_if_not_revoked, fp. intros k' r f.
    destruct (lock_poisoned ks); [|destruct (peers ks !! _) as [[]|] eqn:?];
      intros [= <- <-]; (split; [done|split; [done|]]);
      try (rewrite bool_decide_eq_false_2 by (by intros [? ?]); done);
      rewrite set_peer_status; by apply if_bool_decide_iff; intuition.
Defined.
End Software.

(** ** Fingerprints identify digests *)

Definition hex_val (c : Ascii.ascii) : Z :=
  let n := Z.of_nat (Ascii.nat_of_ascii c) in if n <? 97 then n - 48 else n - 87.

Lemma hex_val_digit n : 0 <= n < 16 -> hex_val (hex_digit n) = n.
Proof.
  intros Hn. apply Z.eqb_eq. revert n Hn.
  apply (all_u8_spec 16 (fun n => hex_val (hex_digit n) =? n)). vm_compute. reflexivity.
Qed.

Lemma hex_digit_inj a b : 0 <= a < 16 -> 0 <= b < 16 -> hex_digit a = hex_digit b -> a = b.
Proof. intros Ha Hb E. by rewrite <- (hex_val_digit a Ha), <- (hex_val_digit b Hb), E. Qed.

Lemma hex_string_inj l l' : bytes_ok l -> bytes_ok l' -> hex_string l = hex_string l' -> l = l'.
Proof.
  intros Hl. revert l'. induction Hl as [|b l Hb Hl IH]; intros [|b' l'] Hl'; cbn [hex_string]; try done.
  apply Forall_cons_1 in Hl' as [Hb' Hl']. unfold is_u8 in *. intros [= E1 E2 E3].
  f_equal; [|by apply IH].
  assert (b / 16 = b' / 16) by (apply hex_digit_inj; [split; [apply Z.div_pos|apply Z.div_lt_upper_bound]; lia..|done]).
  assert (b mod 16 = b' mod 16) by (apply hex_digit_inj; [apply Z.mod_pos_bound; lia..|done]).
  rewrite (Z.div_mod b 16), (Z.div_mod b' 16) by lia. congruence.
Qed.

Lemma hex_string_length l : String.length (hex_string l) = (2 * length l)%nat.
Proof. induction l as [|b l IH]; cbn [hex_string String.length length]; lia. Qed.

Section FingerprintLemmas.
Context `{SP : SigPrims} `{KP : !KeyPrims} `{SL : !SigLaws}.

Lemma fingerprint_eq_iff k k' :
  fingerprint_from_verifying_key k = fingerprint_from_verifying_key k' <-> sha256 k = sha256 k'.
Proof.
  split; [|unfold fingerprint_from_verifying_key; congruence].
  apply hex_string_inj; apply sha256_bytes.
Qed.

Lemma fingerprint_length k : String.length (fingerprint_from_verifying_key k) = 64%nat.
Proof.
  unfold fingerprint_from_verifying_key. rewrite hex_string_length.
  pose proof (sha256_len k) as H. unfold blen in H. lia.
Qed.

Lemma from_public_key_bytes_public `{KL : !KeyLaws} sk :
  from_public_key_bytes (ed25519_public sk) = Ok (identity_from_verifying_key (ed25519_public sk)).
Proof. unfold from_public_key_bytes. by rewrite ed25519_public_ok, ed25519_public_not_weak. Qed.
End FingerprintLemmas.
