(* ===== verification/BindCert.v ===== *)
(** * sh-crypto: binding certificates

    [crates/sh-crypto/src/bind_cert.rs]: the signed statement that binds a Noise static key to
    a device identity, with its canonical to-be-signed layout, its wire form, the builder and
    the ordered checks of [verify].  The clock is the argument [now]. *)

From stdpp Require Import base numbers list option strings.
From S2P Require Import Prelude CryptoTypes Identity.

Definition DOMAIN_TAG : bytes := lit "SHP-BINDCERT".
Definition TBS_VERSION : Z := 1.
Definition FIELD_COUNT : Z := 6.
Definition MAX_PLATFORM_ATTEST_LEN : Z := 4096.
Definition TBS_MIN_LEN : Z := 129.
Definition OFF_DOMAIN_TAG : Z := 0.
Definition OFF_TBS_VERSION : Z := 12.
Definition OFF_FIELD_COUNT : Z := 13.
Definition OFF_DEVICE_ID : Z := 14.
Definition OFF_NOISE_STATIC : Z := 46.
Definition OFF_DTLS_FPR_ALG : Z := 78.
Definition OFF_DTLS_FPR_COMMIT : Z := 79.
Definition OFF_PLATFORM_ATTEST_LEN : Z := 111.
Definition OFF_PLATFORM_ATTEST_DATA : Z := 113.
Definition DTLS_FPR_ALG_NONE : Z := 0.
Definition DTLS_FPR_ALG_SHA256 : Z := 1.
Definition CLOCK_SKEW_TOLERANCE_SECS : Z := 300.
Definition BIND_CERT_VALIDITY_SECS : Z := 24 * 60 * 60.

(** [[0u8; 32]]. *)
Definition ZERO32 : bytes := replicate 32 0.

Record DtlsCommitment := { dc_alg : Z; dc_commit : bytes }.

Definition dtls_commitment_sha256 (commit : bytes) : DtlsCommitment :=
  {| dc_alg := DTLS_FPR_ALG_SHA256; dc_commit := commit |}.

Record DtlsPin := { pin_alg : Z; pin_commit : bytes }.

Record TbsFields := {
  device_id_digest : bytes;
  noise_static : bytes;
  dtls_fpr_alg : Z;
  dtls_fpr_commit : bytes;
  platform_attest : bytes;
  bc_not_after : Z;
  bc_issued_at : Z;
}.

Record BindCert := {
  bc_tbs_bytes : bytes;
  bc_signature : bytes;
  bc_fields : TbsFields;
}.

Definition build_tbs (device_id_digest noise_static : bytes) (dtls_fpr_alg : Z)
    (dtls_fpr_commit platform_attest : bytes) (not_after issued_at : Z) : bytes :=
  DOMAIN_TAG ++ [TBS_VERSION] ++ [FIELD_COUNT] ++ device_id_digest ++ noise_static
  ++ [dtls_fpr_alg] ++ dtls_fpr_commit ++ to_be 2 (blen platform_attest) ++ platform_attest
  ++ to_be 8 not_after ++ to_be 8 issued_at.

Definition bind_cert_decode (wire : bytes) : result CryptoError BindCert :=
  let bad reason := MalformedBindCert reason in
  if blen wire <? 4 then Err (bad "input too short for lp32 prefix") else
  let? prefix := ok_or (get_range wire 0 4) (bad "input too short for lp32 prefix") in
  let tbs_len := from_be prefix in
  let? wire_after_prefix := ok_or (get_from wire 4) (bad "input too short after lp32 prefix") in
  if blen wire_after_prefix <? tbs_len then Err (bad "lp32 length exceeds available input") else
  let? tbs := ok_or (get_range wire_after_prefix 0 tbs_len) (bad "TBS slice out of bounds") in
  let? remaining := ok_or (get_from wire_after_prefix tbs_len)
                          (bad "signature slice out of bounds") in
  if negb (blen remaining =? SIGNATURE_LEN)
  then Err (bad "expected exactly 64 signature bytes after TBS") else
  let? sig := signature_decode remaining in
  if blen tbs <? TBS_MIN_LEN then Err (bad "TBS too short for fixed fields") else
  let? tag := ok_or (get_range tbs OFF_DOMAIN_TAG (OFF_DOMAIN_TAG + 12))
                    (bad "TBS too short for domain tag") in
  if negb (bytes_eqb tag DOMAIN_TAG) then Err (bad "domain tag mismatch") else
  let? version := ok_or (tbs !! Z.to_nat OFF_TBS_VERSION) (bad "TBS too short for version byte") in
  if negb (version =? TBS_VERSION) then Err (bad "unsupported TBS version") else
  let? field_count := ok_or (tbs !! Z.to_nat OFF_FIELD_COUNT)
                            (bad "TBS too short for field count") in
  if negb (field_count =? FIELD_COUNT) then Err (bad "field count mismatch") else
  let? did := ok_or (get_range tbs OFF_DEVICE_ID (OFF_DEVICE_ID + 32))
                    (bad "TBS too short for DEVICE_ID") in
  let? ns := ok_or (get_range tbs OFF_NOISE_STATIC (OFF_NOISE_STATIC + 32))
                   (bad "TBS too short for NOISE_STATIC_X25519") in
  let? alg := ok_or (tbs !! Z.to_nat OFF_DTLS_FPR_ALG) (bad "TBS too short for DTLS_FPR_ALG") in
  if negb (alg =? DTLS_FPR_ALG_NONE) && negb (alg =? DTLS_FPR_ALG_SHA256)
  then Err (bad "unknown DTLS_FPR_ALG") else
  let? commit := ok_or (get_range tbs OFF_DTLS_FPR_COMMIT (OFF_DTLS_FPR_COMMIT + 32))
                       (bad "TBS too short for DTLS_FPR_COMMIT") in
  if (alg =? DTLS_FPR_ALG_NONE) && negb (bytes_eqb commit ZERO32)
  then Err (bad "DTLS_FPR_COMMIT must be zero when ALG=0x00") else
  let? pa_len_arr := ok_or (get_range tbs OFF_PLATFORM_ATTEST_LEN (OFF_PLATFORM_ATTEST_LEN + 2))
                           (bad "TBS too short for PLATFORM_ATTEST_LEN") in
  let pa_len := from_be pa_len_arr in
  if MAX_PLATFORM_ATTEST_LEN <? pa_len then Err (bad "PLATFORM_ATTEST_LEN exceeds 4096") else
  if negb (blen tbs =? TBS_MIN_LEN + pa_len)
  then Err (bad "TBS length does not match computed expected length") else
  let pa_end := OFF_PLATFORM_ATTEST_DATA + pa_len in
  let? attest := ok_or (get_range tbs OFF_PLATFORM_ATTEST_DATA pa_end)
                       (bad "TBS too short for PLATFORM_ATTEST data") in
  let? na_arr := ok_or (get_range tbs pa_end (pa_end + 8)) (bad "TBS too short for NOT_AFTER") in
  let na := to_signed 64 (from_be na_arr) in
  let issued_at_off := pa_end + 8 in
  let? ia_arr := ok_or (get_range tbs issued_at_off (issued_at_off + 8))
                       (bad "TBS too short for ISSUED_AT") in
  let ia := to_signed 64 (from_be ia_arr) in
  if na <=? ia then Err (bad "NOT_AFTER must be strictly greater than ISSUED_AT") else
  Ok {| bc_tbs_bytes := tbs; bc_signature := sig;
        bc_fields := {| device_id_digest := did; noise_static := ns; dtls_fpr_alg := alg;
                        dtls_fpr_commit := commit; platform_attest := attest;
                        bc_not_after := na; bc_issued_at := ia |} |}.

Definition bind_cert_encode (c : BindCert) : bytes :=
  to_be 4 (blen (bc_tbs_bytes c)) ++ bc_tbs_bytes c ++ bc_signature c.

Definition dtls_pin (c : BindCert) : option DtlsPin :=
  if dtls_fpr_alg (bc_fields c) =? DTLS_FPR_ALG_SHA256
  then Some {| pin_alg := dtls_fpr_alg (bc_fields c); pin_commit := dtls_fpr_commit (bc_fields c) |}
  else None.

Definition require_webrtc_dtls_pin (c : BindCert) : result CryptoError bytes :=
  if negb (dtls_fpr_alg (bc_fields c) =? DTLS_FPR_ALG_SHA256) then Err DtlsBindingMissing else
  if bytes_eqb (dtls_fpr_commit (bc_fields c)) ZERO32 then Err DtlsBindingMissing else
  Ok (dtls_fpr_commit (bc_fields c)).

Section Verify.
Context `{SP : SigPrims} `{KP : !KeyPrims}.

Definition bind_cert_verify (c : BindCert) (peer_identity : DeviceIdentity)
    (live_noise_static : bytes) (now : Z) : result CryptoError unit :=
  let? _ := signature_verify (bc_signature c) peer_identity (bc_tbs_bytes c) in
  let expected_digest := sha256 (public_key_bytes peer_identity) in
  if negb (bytes_eqb expected_digest (device_id_digest (bc_fields c)))
  then Err (MalformedBindCert "DEVICE_ID does not match SHA-256 of peer's Ed25519 public key") else
  if negb (bytes_eqb (noise_static (bc_fields c)) live_noise_static) then Err NoiseStaticMismatch else
  if bc_not_after (bc_fields c) <=? now then Err BindCertExpired else
  let skew_adjusted_now := i64_sat_add now CLOCK_SKEW_TOLERANCE_SECS in
  if skew_adjusted_now <? bc_issued_at (bc_fields c) then Err BindCertNotYetValid else
  Ok tt.
End Verify.

(** ** The builder *)

Record BindCertBuilder (K : Type) := {
  bb_keystore : K;
  bb_noise_static : option bytes;
  bb_valid_for_secs : option Z;
  bb_dtls_fpr_alg : Z;
  bb_dtls_fpr_commit : bytes;
  bb_platform_attest : bytes;
}.
Arguments bb_keystore {K}. Arguments bb_noise_static {K}. Arguments bb_valid_for_secs {K}.
Arguments bb_dtls_fpr_alg {K}. Arguments bb_dtls_fpr_commit {K}. Arguments bb_platform_attest {K}.

Section Builder.
Context `{SP : SigPrims} `{KP : !KeyPrims} {K : Type} `{KS : Keystore K}.

Definition builder_new (ks : K) : BindCertBuilder K :=
  {| bb_keystore := ks; bb_noise_static := None; bb_valid_for_secs := None;
     bb_dtls_fpr_alg := DTLS_FPR_ALG_NONE; bb_dtls_fpr_commit := ZERO32;
     bb_platform_attest := [] |}.

Definition with_noise_static (b : BindCertBuilder K) (key : bytes) : BindCertBuilder K :=
  {| bb_keystore := bb_keystore b; bb_noise_static := Some key;
     bb_valid_for_secs := bb_valid_for_secs b; bb_dtls_fpr_alg := bb_dtls_fpr_alg b;
     bb_dtls_fpr_commit := bb_dtls_fpr_commit b; bb_platform_attest := bb_platform_attest b |}.

Definition with_valid_for_secs (b : BindCertBuilder K) (secs : Z) : BindCertBuilder K :=
  {| bb_keystore := bb_keystore b; bb_noise_static := bb_noise_static b;
     bb_valid_for_secs := Some secs; bb_dtls_fpr_alg := bb_dtls_fpr_alg b;
     bb_dtls_fpr_commit := bb_dtls_fpr_commit b; bb_platform_attest := bb_platform_attest b |}.

Definition with_dtls_fpr (b : BindCertBuilder K) (alg : Z) (commit : bytes) : BindCertBuilder K :=
  {| bb_keystore := bb_keystore b; bb_noise_static := bb_noise_static b;
     bb_valid_for_secs := bb_valid_for_secs b; bb_dtls_fpr_alg := alg;
     bb_dtls_fpr_commit := commit; bb_platform_attest := bb_platform_attest b |}.

Definition with_dtls_commitment (b : BindCertBuilder K) (c : DtlsCommitment) : BindCertBuilder K :=
  {| bb_keystore := bb_keystore b; bb_noise_static := bb_noise_static b;
     bb_valid_for_secs := bb_valid_for_secs b; bb_dtls_fpr_alg := dc_alg c;
     bb_dtls_fpr_commit := dc_commit c; bb_platform_attest := bb_platform_attest b |}.

Definition with_platform_attest (b : BindCertBuilder K) (blob : bytes) : BindCertBuilder K :=
  {| bb_keystore := bb_keystore b; bb_noise_static := bb_noise_static b;
     bb_valid_for_secs := bb_valid_for_secs b; bb_dtls_fpr_alg := bb_dtls_fpr_alg b;
     bb_dtls_fpr_commit := bb_dtls_fpr_commit b; bb_platform_attest := blob |}.

Definition bind_cert_build (b : BindCertBuilder K) (now : Z) : result CryptoError BindCert :=
  let bad reason := MalformedBindCert reason in
  let? ns := ok_or (bb_noise_static b) (bad "noise_static not set on BindCertBuilder") in
  let? valid_for_secs := ok_or (bb_valid_for_secs b)
                               (bad "valid_for_secs not set on BindCertBuilder") in
  if (valid_for_secs <=? 0) || (BIND_CERT_VALIDITY_SECS <? valid_for_secs)
  then Err (bad "valid_for_secs out of range (must be 1..=BIND_CERT_VALIDITY_SECS)") else
  if MAX_PLATFORM_ATTEST_LEN <? blen (bb_platform_attest b)
  then Err (bad "platform_attest blob exceeds 4096 bytes") else
  if negb (bb_dtls_fpr_alg b =? DTLS_FPR_ALG_NONE) && negb (bb_dtls_fpr_alg b =? DTLS_FPR_ALG_SHA256)
  then Err (bad "unknown DTLS_FPR_ALG") else
  if (bb_dtls_fpr_alg b =? DTLS_FPR_ALG_NONE) && negb (bytes_eqb (bb_dtls_fpr_commit b) ZERO32)
  then Err (bad "DTLS_FPR_COMMIT must be zero when ALG=0x00") else
  let? identity := ks_device_identity (bb_keystore b) in
  let did := sha256 (public_key_bytes identity) in
  let issued_at := now in
  let not_after := i64_sat_add issued_at valid_for_secs in
  if not_after <=? issued_at
  then Err (bad "valid_for_secs must be positive (not_after must exceed issued_at)") else
  let tbs := build_tbs did ns (bb_dtls_fpr_alg b) (bb_dtls_fpr_commit b) (bb_platform_attest b)
                       not_after issued_at in
  let? sig := ks_sign (bb_keystore b) tbs in
  Ok {| bc_tbs_bytes := tbs; bc_signature := sig;
        bc_fields := {| device_id_digest := did; noise_static := ns;
                        dtls_fpr_alg := bb_dtls_fpr_alg b;
                        dtls_fpr_commit := bb_dtls_fpr_commit b;
                        platform_attest := bb_platform_attest b;
                        bc_not_after := not_after; bc_issued_at := issued_at |} |}.
End Builder.

(** ** Layout *)

Definition tbs_fields_ok (f : TbsFields) : Prop :=
  blen (device_id_digest f) = 32 /\ bytes_ok (device_id_digest f) /\
  blen (noise_static f) = 32 /\ bytes_ok (noise_static f) /\
  (dtls_fpr_alg f = DTLS_FPR_ALG_NONE /\ dtls_fpr_commit f = ZERO32 \/
   dtls_fpr_alg f = DTLS_FPR_ALG_SHA256 /\ blen (dtls_fpr_commit f) = 32 /\
   bytes_ok (dtls_fpr_commit f)) /\
  blen (platform_attest f) <= MAX_PLATFORM_ATTEST_LEN /\ bytes_ok (platform_attest f) /\
  is_i64 (bc_not_after f) /\ is_i64 (bc_issued_at f) /\ bc_issued_at f < bc_not_after f.

Definition tbs_of (f : TbsFields) : bytes :=
  build_tbs (device_id_digest f) (noise_static f) (dtls_fpr_alg f) (dtls_fpr_commit f)
            (platform_attest f) (bc_not_after f) (bc_issued_at f).

Definition cert_of (f : TbsFields) (sig : bytes) : BindCert :=
  {| bc_tbs_bytes := tbs_of f; bc_signature := sig; bc_fields := f |}.

(** The eleven fields of a TBS whose attestation blob has [L] bytes. *)
Record tbs_pieces (tbs tag did ns commit pl attest na ia : bytes) (ver fc alg L : Z) : Prop := {
  tp_eq : tbs = concat [tag; [ver]; [fc]; did; ns; [alg]; commit; pl; attest; na; ia];
  tp_tag : blen tag = 12; tp_did : blen did = 32; tp_ns : blen ns = 32;
  tp_commit : blen commit = 32; tp_pl : blen pl = 2; tp_attest : blen attest = L;
  tp_na : blen na = 8; tp_ia : blen ia = 8;
}.

Lemma bind_tbs_split tbs L :
  0 <= L -> blen tbs = TBS_MIN_LEN + L -> exists tag did ns commit pl attest na ia ver fc alg,
    tbs_pieces tbs tag did ns commit pl attest na ia ver fc alg L.
Proof.
  unfold TBS_MIN_LEN. intros HL Hl.
  destruct (split_widths [12; 1; 1; 32; 32; 1; 32; 2; L; 8; 8] tbs) as (ps & -> & Hps).
  { repeat constructor; lia. } { cbn. lia. }
  do 11 (destruct ps as [|? ps]; [done|]). destruct ps; [|done]. injection Hps as ?????? ?????.
  repeat match goal with
  | H : blen ?l = 1 |- _ => apply singleton_blen in H as [? ->]
  end.
  eexists _, _, _, _, _, _, _, _, _, _, _. by split.
Qed.

Lemma bind_tbs_reads tbs tag did ns commit pl attest na ia ver fc alg L :
  tbs_pieces tbs tag did ns commit pl attest na ia ver fc alg L ->
  let pa_end := OFF_PLATFORM_ATTEST_DATA + L in
  get_range tbs OFF_DOMAIN_TAG (OFF_DOMAIN_TAG + 12) = Some tag /\
  tbs !! Z.to_nat OFF_TBS_VERSION = Some ver /\
  tbs !! Z.to_nat OFF_FIELD_COUNT = Some fc /\
  get_range tbs OFF_DEVICE_ID (OFF_DEVICE_ID + 32) = Some did /\
  get_range tbs OFF_NOISE_STATIC (OFF_NOISE_STATIC + 32) = Some ns /\
  tbs !! Z.to_nat OFF_DTLS_FPR_ALG = Some alg /\
  get_range tbs OFF_DTLS_FPR_COMMIT (OFF_DTLS_FPR_COMMIT + 32) = Some commit /\
  get_range tbs OFF_PLATFORM_ATTEST_LEN (OFF_PLATFORM_ATTEST_LEN + 2) = Some pl /\
  get_range tbs OFF_PLATFORM_ATTEST_DATA pa_end = Some attest /\
  get_range tbs pa_end (pa_end + 8) = Some na /\
  get_range tbs (pa_end + 8) (pa_end + 8 + 8) = Some ia.
Proof.
  intros [-> Ht Hd Hn Hc Hp Ha Hna Hia].
  assert (forall b : Z, blen [b] = 1) as H1 by done. cbv zeta.
  assert (forall i p lo hi, [tag; [ver]; [fc]; did; ns; [alg]; commit; pl; attest; na; ia] !! i = Some p ->
    lo = sumZ (take i [12; 1; 1; 32; 32; 1; 32; 2; L; 8; 8]) -> hi = lo + blen p ->
    get_range (concat [tag; [ver]; [fc]; did; ns; [alg]; commit; pl; attest; na; ia]) lo hi = Some p) as R.
  { intros i p lo hi Hi -> ->. apply (get_range_concat _ i); [done| |done].
    rewrite <- firstn_map. cbn [map]. by rewrite !H1, Ht, Hd, Hn, Hc, Hp, Ha, Hna, Hia. }
  assert (forall i b lo, [tag; [ver]; [fc]; did; ns; [alg]; commit; pl; attest; na; ia] !! i = Some [b] ->
    lo = sumZ (take i [12; 1; 1; 32; 32; 1; 32; 2; L; 8; 8]) ->
    concat [tag; [ver]; [fc]; did; ns; [alg]; commit; pl; attest; na; ia] !! Z.to_nat lo = Some b) as R1.
  { intros i b lo Hi ->. apply (lookup_concat _ i); [done|].
    rewrite <- firstn_map. cbn [map]. by rewrite !H1, Ht, Hd, Hn, Hc, Hp, Ha, Hna, Hia. }
  unfold OFF_PLATFORM_ATTEST_DATA.
  split_and!; [apply (R 0%nat)|apply (R1 1%nat)|apply (R1 2%nat)|apply (R 3%nat)|apply (R 4%nat)
    |apply (R1 5%nat)|apply (R 6%nat)|apply (R 7%nat)|apply (R 8%nat)|apply (R 9%nat)|apply (R 10%nat)];
    first [reflexivity | cbn; lia | (rewrite ?Ht, ?Hd, ?Hn, ?Hc, ?Hp, ?Ha, ?Hna, ?Hia; cbn; lia)].
Qed.

Lemma alg_commit_len f : tbs_fields_ok f -> blen (dtls_fpr_commit f) = 32.
Proof. intros (_&_&_&_&[[_ ->]|(_ & ? & _)]&_); done. Qed.

Lemma bind_tbs_of_pieces f :
  tbs_fields_ok f ->
  tbs_pieces (tbs_of f) DOMAIN_TAG (device_id_digest f) (noise_static f) (dtls_fpr_commit f)
    (to_be 2 (blen (platform_attest f))) (platform_attest f) (to_be 8 (bc_not_after f))
    (to_be 8 (bc_issued_at f)) TBS_VERSION FIELD_COUNT (dtls_fpr_alg f) (blen (platform_attest f)).
Proof.
  intros Hf. pose proof (alg_commit_len f Hf). destruct Hf as (?&_&?&_).
  by split.
Qed.

Lemma blen_bind_tbs_of f :
  tbs_fields_ok f -> blen (tbs_of f) = TBS_MIN_LEN + blen (platform_attest f).
Proof.
  intros Hf. pose proof (alg_commit_len f Hf) as Hc. destruct Hf as (Hd&_&Hn&_).
  unfold tbs_of, build_tbs, TBS_MIN_LEN. rewrite !blen_app, !blen_to_be, Hd, Hn, Hc.
  change (blen DOMAIN_TAG) with 12. unfold blen. cbn [length]. lia.
Qed.


Lemma bind_cert_decode_encode f sig :
  tbs_fields_ok f -> blen sig = SIGNATURE_LEN ->
  bind_cert_decode (bind_cert_encode (cert_of f sig)) = Ok (cert_of f sig).
Proof.
  intros Hf Hs. pose proof (blen_bind_tbs_of f Hf) as Htl. pose proof (bind_tbs_of_pieces f Hf) as Hpc.
  assert (Halg := Hf). destruct Halg as (_&_&_&_&Halg&Hpa&_&Hna&Hia&Hlt).
  unfold TBS_MIN_LEN, MAX_PLATFORM_ATTEST_LEN in *. pose proof (blen_nonneg (platform_attest f)) as Hpn.
  unfold bind_cert_encode, cert_of. cbn [bc_tbs_bytes bc_signature]. unfold bind_cert_decode.
  rewrite (get_range_at _ [] (to_be 4 _) (tbs_of f ++ sig)) by done.
  rewrite (get_from_at _ (to_be 4 (blen (tbs_of f))) (tbs_of f ++ sig)) by done.
  cbn [ok_or]. rewrite from_be_to_be_small by (change (256 ^ Z.of_nat 4) with 4294967296; lia).
  rewrite (get_range_at (tbs_of f ++ sig) [] (tbs_of f) sig) by done.
  rewrite (get_from_at _ (tbs_of f) sig) by done.
  rewrite !blen_app, blen_to_be, Hs. unfold SIGNATURE_LEN.
  rewrite !(proj2 (Z.ltb_ge _ _)) by lia. cbn [ok_or]. rewrite Hs. cbn [negb].
  unfold signature_decode. rewrite Hs. rewrite Z.eqb_refl. cbn [negb].
  unfold TBS_MIN_LEN. rewrite (proj2 (Z.ltb_ge _ _)) by lia.
  destruct (bind_tbs_reads _ _ _ _ _ _ _ _ _ _ _ _ _ Hpc) as (-> & -> & -> & -> & -> & -> & -> & -> & Ra & Rn & Ri).
  cbn [ok_or]. unfold bytes_eqb at 1. rewrite bool_decide_eq_true_2 by done. rewrite !Z.eqb_refl. cbn [negb].
  assert (negb (dtls_fpr_alg f =? DTLS_FPR_ALG_NONE) && negb (dtls_fpr_alg f =? DTLS_FPR_ALG_SHA256) = false) as ->.
  { by destruct Halg as [[-> _]|[-> _]]. }
  assert ((dtls_fpr_alg f =? DTLS_FPR_ALG_NONE) && negb (bytes_eqb (dtls_fpr_commit f) ZERO32) = false) as ->.
  { destruct Halg as [[-> ->]|[-> _]]; [|done]. unfold bytes_eqb. by rewrite bool_decide_eq_true_2. }
  rewrite from_be_to_be_small by (change (256 ^ Z.of_nat 2) with 65536; lia).
  unfold MAX_PLATFORM_ATTEST_LEN. rewrite (proj2 (Z.ltb_ge _ _)) by lia.
  rewrite (proj2 (Z.eqb_eq _ _)) by lia. cbn [negb]. rewrite Ra, Rn, Ri. cbn [ok_or].
  rewrite !to_signed_be by done. rewrite (proj2 (Z.leb_gt _ _)) by lia. by destruct f.
Qed.

(** The pieces that pass the checks are those of a well-formed certificate. *)
Lemma tbs_pieces_canonical tbs did ns commit pl attest na ia alg :
  bytes_ok tbs ->
  tbs_pieces tbs DOMAIN_TAG did ns commit pl attest na ia TBS_VERSION FIELD_COUNT alg (from_be pl) ->
  negb (alg =? DTLS_FPR_ALG_NONE) && negb (alg =? DTLS_FPR_ALG_SHA256) = false ->
  (alg =? DTLS_FPR_ALG_NONE) && negb (bool_decide (commit = ZERO32)) = false ->
  from_be pl <= MAX_PLATFORM_ATTEST_LEN ->
  to_signed 64 (from_be ia) < to_signed 64 (from_be na) ->
  let f := {| device_id_digest := did; noise_static := ns; dtls_fpr_alg := alg;
              dtls_fpr_commit := commit; platform_attest := attest;
              bc_not_after := to_signed 64 (from_be na); bc_issued_at := to_signed 64 (from_be ia) |} in
  tbs_fields_ok f /\ tbs = tbs_of f.
Proof.
  intros Hb [-> _ Hd Hn Hc Hp Ha Hna Hia] Ealg Ecom Hmax Hlt.
  unfold bytes_ok in Hb. cbn [concat] in Hb. rewrite !Forall_app in Hb.
  destruct Hb as (_ & _ & _ & Hbd & Hbn & _ & Hbc & Hbp & Hba & Hbna & Hbia & _).
  destruct (be_to_signed na Hbna Hna) as [Rna Ena]. destruct (be_to_signed ia Hbia Hia) as [Ria Eia].
  cbv zeta. split.
  - unfold tbs_fields_ok. cbn [device_id_digest noise_static dtls_fpr_alg dtls_fpr_commit
      platform_attest bc_not_after bc_issued_at]. split_and!; try done; [|lia].
    destruct (Z.eqb_spec alg DTLS_FPR_ALG_NONE) as [->|Hne]; cbn [negb andb] in *.
    + left. split; [done|]. apply negb_false_iff in Ecom. by apply bool_decide_eq_true in Ecom.
    + right. apply negb_false_iff, Z.eqb_eq in Ealg. done.
  - unfold tbs_of, build_tbs. cbn [device_id_digest noise_static dtls_fpr_alg dtls_fpr_commit
      platform_attest bc_not_after bc_issued_at concat].
    rewrite Ena, Eia, Ha, (to_be_from_be_len pl 2) by done. by rewrite app_nil_r.
Qed.

Lemma bind_cert_decode_canonical w c :
  bytes_ok w -> bind_cert_decode w = Ok c ->
  tbs_fields_ok (bc_fields c) /\ blen (bc_signature c) = SIGNATURE_LEN /\
  c = cert_of (bc_fields c) (bc_signature c) /\ bind_cert_encode c = w.
Proof.
  intros Hb. unfold bind_cert_decode.
  destruct (blen w <? 4) eqn:Hl; [done|]. simplify_bool.
  destruct (split_blen w 4 (blen w - 4)) as (pre & r & -> & Hp & _); [lia..|].
  rewrite (get_range_at _ [] pre r) by (done || by rewrite Hp).
  rewrite (get_from_at _ pre r) by done. cbn [ok_or].
  destruct (blen r <? from_be pre) eqn:Hr; [done|]. simplify_bool.
  pose proof Hb as Hb'. unfold bytes_ok in Hb'. rewrite Forall_app in Hb'. destruct Hb' as [Hbp Hbr].
  pose proof (from_be_range pre Hbp) as Rp.
  destruct (split_blen r (from_be pre) (blen r - from_be pre)) as (tbs & sig & -> & Ht & _); [lia..|].
  rewrite (get_range_at _ [] tbs sig) by (done || by rewrite Ht).
  rewrite (get_from_at _ tbs sig) by done. cbn [ok_or].
  destruct (Z.eqb_spec (blen sig) SIGNATURE_LEN) as [Hs|]; [|done]. cbn [negb].
  unfold signature_decode. rewrite Hs, Z.eqb_refl.
  destruct (blen tbs <? TBS_MIN_LEN) eqn:Hm; [done|]. simplify_bool.
  destruct (bind_tbs_split tbs (blen tbs - TBS_MIN_LEN)) as (tag & did & ns & commit & pl & attest & na & ia & ver & fc & alg & Hpc); [lia..|].
  destruct (bind_tbs_reads _ _ _ _ _ _ _ _ _ _ _ _ _ Hpc) as (-> & -> & -> & -> & -> & -> & -> & -> & Ra & Rn & Ri).
  cbn [ok_or]. unfold bytes_eqb. case_bool_decide as Etag; [|done]. cbn [negb].
  destruct (Z.eqb_spec ver TBS_VERSION) as [->|]; [|done]. cbn [negb].
  destruct (Z.eqb_spec fc FIELD_COUNT) as [->|]; [|done]. cbn [negb].
  destruct (negb (alg =? DTLS_FPR_ALG_NONE) && _) eqn:Ealg; [done|].
  destruct ((alg =? DTLS_FPR_ALG_NONE) && _) eqn:Ecom; [done|].
  destruct (MAX_PLATFORM_ATTEST_LEN <? _) eqn:Emax; [done|]. simplify_bool.
  destruct (Z.eqb_spec (blen tbs) (TBS_MIN_LEN + from_be pl)) as [El|]; [|done]. cbn [negb].
  replace (blen tbs - TBS_MIN_LEN) with (from_be pl) in * by lia. rewrite Ra, Rn, Ri. cbn [ok_or].
  destruct (_ <=? _) eqn:Elt; [done|]. simplify_bool. intros E. apply Ok_inj in E as <-.
  cbn [bc_fields bc_signature]. subst tag.
  unfold bytes_ok in Hbr. rewrite Forall_app in Hbr. destruct Hbr as [Hbt _].
  destruct (tbs_pieces_canonical tbs did ns commit pl attest na ia alg) as [Hf Et]; [done..|].
  split_and!; [done|done|unfold cert_of; by rewrite <- Et|].
  unfold bind_cert_encode. cbn [bc_tbs_bytes bc_signature]. rewrite Ht.
  by rewrite (to_be_from_be_len pre 4).
Qed.

(** The wire form of a binding certificate is canonical: bytes decode to [c] iff they are
    the encoding of [c], the to-be-signed bytes are the layout of its fields, those are in
    range (32-byte digest, key and commitment, a zero commitment without DTLS, at most 4096
    attestation bytes, [ISSUED_AT < NOT_AFTER]) and the signature has 64 bytes. *)
Lemma bind_cert_wire_canonical w c :
  bytes_ok w ->
  bind_cert_decode w = Ok c <->
  tbs_fields_ok (bc_fields c) /\ blen (bc_signature c) = SIGNATURE_LEN /\
  c = cert_of (bc_fields c) (bc_signature c) /\ w = bind_cert_encode c.
Proof.
  intros Hb. split.
  - intros Hd. destruct (bind_cert_decode_canonical w c Hb Hd) as (? & ? & ? & ?). done.
  - intros (Hf & Hs & Hu & ->). pose proof (bind_cert_decode_encode _ _ Hf Hs) as E.
    by rewrite <- Hu in E.
Qed.

Section VerifyLemmas.
Context `{SP : SigPrims} `{KP : !KeyPrims}.

(** [verify] accepts exactly when the peer signed the received bytes, the certificate
    names the digest of the peer's key and the live Noise static, and the time lies between
    [ISSUED_AT - 300] and [NOT_AFTER] (exclusive, without a grace period). *)
Lemma bind_cert_verify_iff c id live now :
  is_i64 (bc_issued_at (bc_fields c)) -> is_i64 now ->
  bind_cert_verify c id live now = Ok tt <->
  ed25519_verify (verifying_key id) (bc_tbs_bytes c) (bc_signature c) = true /\
  device_id_digest (bc_fields c) = sha256 (verifying_key id) /\
  noise_static (bc_fields c) = live /\
  bc_issued_at (bc_fields c) - CLOCK_SKEW_TOLERANCE_SECS <= now < bc_not_after (bc_fields c).
Proof.
  unfold is_i64, i64_min, i64_max. intros Hi Hnow. unfold bind_cert_verify, signature_verify,
    CLOCK_SKEW_TOLERANCE_SECS, public_key_bytes, i64_sat_add, i64_clamp, i64_min, i64_max, bytes_eqb.
  destruct (ed25519_verify _ _ _); [|split; [done|by intros [? _]]].
  case_bool_decide as Hd; cbn [negb]; [|split; [done|intros (_ & E & _); congruence]].
  case_bool_decide as Hl; cbn [negb]; [|split; [done|intros (_ & _ & E & _); congruence]].
  repeat (case_match; simplify_bool; [split; [done|intros (?&?&?&?); lia]|]).
  split; [intros _; split_and!; done || lia|done].
Qed.

Lemma bind_cert_verify_fields c id live now :
  bind_cert_verify c id live now = Ok tt ->
  signature_verify (bc_signature c) id (bc_tbs_bytes c) = Ok tt /\
  device_id_digest (bc_fields c) = sha256 (verifying_key id) /\ noise_static (bc_fields c) = live /\
  now < bc_not_after (bc_fields c).
Proof.
  unfold bind_cert_verify, bytes_eqb. destruct (signature_verify _ _ _) as [[]|]; [|done].
  case_bool_decide; cbn [negb]; [|done]. case_bool_decide; cbn [negb]; [|done].
  case_match; [done|]. simplify_bool. done.
Qed.

Context {K : Type} `{KS : Keystore K}.

(** A key store that signs for its identity. *)
Definition signs_for (ks : K) (id : DeviceIdentity) : Prop :=
  ks_device_identity ks = Ok id /\
  forall m, exists s, ks_sign ks m = Ok s /\ blen s = SIGNATURE_LEN /\
                      ed25519_verify (verifying_key id) m s = true.

Definition builder_ok (b : BindCertBuilder K) (ns : bytes) (secs : Z) : Prop :=
  bb_noise_static b = Some ns /\ blen ns = 32 /\ bytes_ok ns /\
  bb_valid_for_secs b = Some secs /\ 1 <= secs <= BIND_CERT_VALIDITY_SECS /\
  (bb_dtls_fpr_alg b = DTLS_FPR_ALG_NONE /\ bb_dtls_fpr_commit b = ZERO32 \/
   bb_dtls_fpr_alg b = DTLS_FPR_ALG_SHA256 /\ blen (bb_dtls_fpr_commit b) = 32 /\
   bytes_ok (bb_dtls_fpr_commit b)) /\
  blen (bb_platform_attest b) <= MAX_PLATFORM_ATTEST_LEN /\ bytes_ok (bb_platform_attest b).

Lemma bind_cert_build_ok `{SL : !SigLaws} b ns secs id now :
  signs_for (bb_keystore b) id -> builder_ok b ns secs -> i64_min <= now < i64_max ->
  exists c, bind_cert_build b now = Ok c /\ bind_cert_decode (bind_cert_encode c) = Ok c /\
    dtls_fpr_alg (bc_fields c) = bb_dtls_fpr_alg b /\
    dtls_fpr_commit (bc_fields c) = bb_dtls_fpr_commit b /\
    blen (bind_cert_encode c) <= 4325 - 32 /\
    forall now', now <= now' < Z.min i64_max (now + secs) ->
      bind_cert_verify c id ns now' = Ok tt.
Proof.
  intros [Hid Hsign] (Hns & Hnl & Hnb & Hsec & Hsr & Halg & Hpa & Hpb) Hnow.
  unfold bind_cert_build. rewrite Hns, Hsec. cbn [ok_or].
  rewrite (proj2 (Z.leb_gt _ _)), (proj2 (Z.ltb_ge _ _)) by lia. cbn [orb].
  rewrite (proj2 (Z.ltb_ge _ _)) by lia.
  assert (negb (bb_dtls_fpr_alg b =? DTLS_FPR_ALG_NONE) && negb (bb_dtls_fpr_alg b =? DTLS_FPR_ALG_SHA256) = false)
    as -> by (by destruct Halg as [[-> _]|[-> _]]).
  assert ((bb_dtls_fpr_alg b =? DTLS_FPR_ALG_NONE) && negb (bytes_eqb (bb_dtls_fpr_commit b) ZERO32) = false) as ->.
  { destruct Halg as [[-> ->]|[-> _]]; [|done]. unfold bytes_eqb. by rewrite bool_decide_eq_true_2. }
  rewrite Hid. unfold i64_sat_add, i64_clamp, public_key_bytes.
  unfold i64_min, i64_max, BIND_CERT_VALIDITY_SECS in *. rewrite (proj2 (Z.leb_gt _ _)) by lia.
  match goal with |- context [ks_sign _ ?t] => set (tbs := t); destruct (Hsign tbs) as (sig & -> & Hl & Hv) end.
  set (f := {| device_id_digest := sha256 (verifying_key id); noise_static := ns;
               dtls_fpr_alg := bb_dtls_fpr_alg b; dtls_fpr_commit := bb_dtls_fpr_commit b;
               platform_attest := bb_platform_attest b;
               bc_not_after := Z.max (-9223372036854775808) (Z.min 9223372036854775807 (now + secs));
               bc_issued_at := now |}).
  assert (tbs_fields_ok f) as Hf.
  { unfold tbs_fields_ok, f, is_i64, i64_min, i64_max. cbn [device_id_digest noise_static dtls_fpr_alg
      dtls_fpr_commit platform_attest bc_not_after bc_issued_at].
    split_and!; try done; try lia; [apply sha256_len|apply sha256_bytes]. }
  exists (cert_of f sig). split_and!; try done.
  - by apply bind_cert_decode_encode.
  - unfold bind_cert_encode. cbn [cert_of bc_tbs_bytes bc_signature].
    rewrite !blen_app, blen_to_be, Hl, (blen_bind_tbs_of f Hf).
    unfold SIGNATURE_LEN, TBS_MIN_LEN, MAX_PLATFORM_ATTEST_LEN in *. cbn [f platform_attest]. lia.
  - intros now' Hn'. unfold bind_cert_verify, signature_verify. cbn [cert_of bc_tbs_bytes bc_signature bc_fields].
    change (tbs_of f) with tbs. rewrite Hv. unfold bytes_eqb, public_key_bytes. cbn [f device_id_digest noise_static bc_not_after bc_issued_at].
    rewrite !bool_decide_eq_true_2 by done. cbn [negb].
    rewrite (proj2 (Z.leb_gt _ _)) by lia. unfold i64_sat_add, i64_clamp, i64_min, i64_max, CLOCK_SKEW_TOLERANCE_SECS.
    rewrite (proj2 (Z.ltb_ge _ _)) by lia. done.
Qed.
End VerifyLemmas.

(** ** The in-memory key store signs for its identity *)

Definition sw_wf `{SigPrims} `{KeyPrims} (ks : SoftwareKeystore) : Prop :=
  identity ks = identity_from_verifying_key (ed25519_public (signing_key ks)).

Lemma software_signs_for `{SigPrims} `{!KeyPrims} `{!KeyLaws} ks :
  sw_wf ks -> signs_for ks (identity ks).
Proof.
  intros Hw. split; [done|]. intros m. eexists. split; [reflexivity|].
  split; [apply ed25519_sign_len|]. rewrite Hw. apply ed25519_verify_sign.
Qed.

(** A certificate for the witnesses. *)
Definition toy_ks (n : Z) : SoftwareKeystore := from_signing_key [n].

Definition toy_builder : BindCertBuilder SoftwareKeystore :=
  with_dtls_commitment
    (with_valid_for_secs (with_noise_static (builder_new (toy_ks 5)) (to_be 32 77)) 3600)
    (dtls_commitment_sha256 (to_be 32 99)).

Definition toy_fields : TbsFields :=
  {| device_id_digest := sha256 (ed25519_public [5]); noise_static := to_be 32 77;
     dtls_fpr_alg := 1; dtls_fpr_commit := to_be 32 99; platform_attest := [];
     bc_not_after := 4600; bc_issued_at := 1000 |}.

Definition toy_cert : BindCert := cert_of toy_fields (ed25519_sign [5] (tbs_of toy_fields)).

(** Five minutes before [ISSUED_AT] is accepted, the second of [NOT_AFTER] is not. *)
Lemma bind_cert_verify_iff_witness :
  bind_cert_verify toy_cert (identity (toy_ks 5)) (to_be 32 77) 700 = Ok tt /\
  bind_cert_verify toy_cert (identity (toy_ks 5)) (to_be 32 77) 4600 = Err BindCertExpired.
Proof.
  split; [|vm_compute; reflexivity].
  assert (is_i64 (bc_issued_at (bc_fields toy_cert))) as Hi by (vm_compute; split; discriminate).
  assert (is_i64 700) as Hn by (vm_compute; split; discriminate).
  refine (proj2 (bind_cert_verify_iff toy_cert (identity (toy_ks 5)) (to_be 32 77) 700 Hi Hn) _).
  split_and!; vm_compute; (reflexivity || discriminate).
Defined.
