(* ===== verification/ReplayWindow.v ===== *)
(** * sh-crypto: the sliding anti-replay window

    [ReplayWindow] of [crates/sh-crypto/src/channel_crypto.rs]: a 1024-bit bitmap of
    sixteen [u64] words, slid in place.  The specification is the set of accepted
    sequence numbers; [Rep] relates the two and every operation refines it. *)

From stdpp Require Import base numbers list option gmap strings.
From S2P Require Import Prelude CryptoTypes.

Definition REPLAY_WINDOW : Z := 1024.
Definition REPLAY_WINDOW_WORDS : nat := 16.

Record ReplayWindow := {
  high : Z;
  bits : list Z;
  initialized : bool;
}.

Definition replay_new : ReplayWindow :=
  {| high := 0; bits := replicate REPLAY_WINDOW_WORDS 0; initialized := false |}.

Definition replay_check (w : ReplayWindow) (seq : Z) : result CryptoError () :=
  if negb (initialized w) then Ok () else
  let floor := sat_sub (high w) (REPLAY_WINDOW - 1) in
  if seq <? floor then Err ReplayedFrame else
  if seq <=? high w then
    let offset := sat_sub (high w) seq in
    let word := Z.to_nat (offset / 64) in
    let bit := offset mod 64 in
    match bits w !! word with
    | Some wd => if Z.land (Z.shiftr wd bit) 1 =? 1 then Err ReplayedFrame else Ok ()
    | None => Ok ()
    end
  else Ok ().

(** [if let Some(w) = self.bits.get_mut(i) { *w |= mask }]. *)
Definition or_word (b : list Z) (i : nat) (mask : Z) : list Z :=
  match b !! i with Some w => <[i := Z.lor w mask]> b | None => b end.

(** The in-place loops run for [i = 15 .. 0]; each iteration reads the array as the
    previous ones left it. *)
Definition down (g : list Z -> nat -> Z) (b : list Z) : list Z :=
  foldl (fun (b : list Z) i => <[i := g b i]> b) b (rev (seq 0 REPLAY_WINDOW_WORDS)).

(** Step 1 of [shift_bits]: the word-level slide. *)
Definition slide_word (word_shift : nat) (b : list Z) (i : nat) : Z :=
  if Nat.leb word_shift i then default 0 (b !! (i - word_shift)%nat) else 0.

(** Step 2 of [shift_bits]: the bit-level slide with the carry of the lower word. *)
Definition slide_bits (bit_shift : Z) (b : list Z) (i : nat) : Z :=
  let anti_shift := 64 - bit_shift in
  let shifted := Z.shiftl (default 0 (b !! i)) bit_shift mod 2 ^ 64 in
  let carry := match i with
               | O => 0
               | S i' => Z.shiftr (default 0 (b !! i')) anti_shift
               end in
  Z.lor shifted carry.

Definition shift_bits (b : list Z) (n : Z) : list Z :=
  let word_shift := Z.to_nat (n / 64) in
  let bit_shift := n mod 64 in
  let b := if Nat.ltb 0 word_shift then down (slide_word word_shift) b else b in
  if 0 <? bit_shift then down (slide_bits bit_shift) b else b.

Definition replay_accept (w : ReplayWindow) (seq : Z) : ReplayWindow :=
  if negb (initialized w) then
    {| high := seq; bits := or_word (bits w) 0 1; initialized := true |}
  else if high w <? seq then
    let shift := sat_sub seq (high w) in
    let b := if REPLAY_WINDOW <=? shift
             then map (fun _ => 0) (bits w)
             else shift_bits (bits w) shift in
    {| high := seq; bits := or_word b 0 1; initialized := true |}
  else
    let offset := sat_sub (high w) seq in
    let word := Z.to_nat (offset / 64) in
    let bit := offset mod 64 in
    {| high := high w; bits := or_word (bits w) word (Z.shiftl 1 bit);
       initialized := initialized w |}.

(** ** The bitmap as a function of the offset *)

(** Bit [k] of the window: the bit for the sequence number [high - k]. *)
Definition wbit (b : list Z) (k : Z) : bool :=
  Z.testbit (default 0 (b !! Z.to_nat (k / 64))) (k mod 64).

Definition words_ok (b : list Z) : Prop :=
  length b = REPLAY_WINDOW_WORDS /\ Forall is_u64 b.

(** A loop that runs downwards and reads only indices at or below the one it writes
    computes every word from the original array. *)
Lemma foldl_down m (g : list Z -> nat -> Z) (b : list Z) :
  (forall b1 b2 i, (forall j, (j <= i)%nat -> b1 !! j = b2 !! j) -> g b1 i = g b2 i) ->
  (m <= length b)%nat ->
  let b' := foldl (fun (b : list Z) i => <[i := g b i]> b) b (rev (seq 0 m)) in
  length b' = length b /\
  (forall i, (i < m)%nat -> b' !! i = Some (g b i)) /\
  (forall i, (m <= i)%nat -> b' !! i = b !! i).
Proof.
  intros Hg. revert b. induction m as [|m IH]; intros b Hm; cbv zeta.
  { split_and!; [done|lia|done]. }
  rewrite seq_S, rev_app_distr. cbn [rev app foldl Nat.add].
  destruct (IH (<[m := g b m]> b)) as (Hl & Hlt & Hge); [rewrite length_insert; lia|].
  rewrite length_insert in Hl. split_and!; [done| |].
  - intros i Hi. destruct (decide (i = m)) as [->|Hne].
    + rewrite Hge, list_lookup_insert_eq by lia. done.
    + rewrite Hlt by lia. f_equal. apply Hg. intros j Hj.
      by rewrite list_lookup_insert_ne by lia.
  - intros i Hi. rewrite Hge, list_lookup_insert_ne by lia. done.
Qed.

Lemma down_spec (g : list Z -> nat -> Z) (b : list Z) :
  (forall b1 b2 i, (forall j, (j <= i)%nat -> b1 !! j = b2 !! j) -> g b1 i = g b2 i) ->
  length b = REPLAY_WINDOW_WORDS ->
  length (down g b) = REPLAY_WINDOW_WORDS /\
  forall i, (i < REPLAY_WINDOW_WORDS)%nat -> down g b !! i = Some (g b i).
Proof.
  intros Hg Hb. destruct (foldl_down REPLAY_WINDOW_WORDS g b Hg) as (Hl & Hlt & _); [lia|].
  unfold down. split; [congruence|done].
Qed.

Lemma lookup_word_ok (b : list Z) (i : nat) : words_ok b -> is_u64 (default 0 (b !! i)).
Proof.
  intros [_ Hb]. destruct (b !! i) as [x|] eqn:E; cbn; [|unfold is_u64; lia].
  by eapply Forall_lookup_1.
Qed.

Lemma u64_testbit_high z k : is_u64 z -> 64 <= k -> Z.testbit z k = false.
Proof.
  intros Hz Hk. rewrite <- (Z.mod_small z (2 ^ 64)) by exact Hz.
  by apply Z.mod_pow2_bits_high.
Qed.

Lemma wbit_index b i j :
  0 <= j < 64 -> wbit b (64 * Z.of_nat i + j) = Z.testbit (default 0 (b !! i)) j.
Proof.
  intros Hj. unfold wbit.
  replace ((64 * Z.of_nat i + j) / 64) with (Z.of_nat i) by (Z.div_mod_to_equations; lia).
  replace ((64 * Z.of_nat i + j) mod 64) with j by (Z.div_mod_to_equations; lia).
  by rewrite Nat2Z.id.
Qed.

Lemma word_bit_split k :
  0 <= k < REPLAY_WINDOW -> exists i j,
    k = 64 * Z.of_nat i + j /\ (i < REPLAY_WINDOW_WORDS)%nat /\ 0 <= j < 64.
Proof.
  unfold REPLAY_WINDOW, REPLAY_WINDOW_WORDS. intros Hk.
  exists (Z.to_nat (k / 64)), (k mod 64). Z.div_mod_to_equations; lia.
Qed.

(** ** Sliding moves every bit up by the shift *)

Lemma wbit_slide_word ws b k :
  words_ok b -> 0 <= k < REPLAY_WINDOW ->
  words_ok (down (slide_word ws) b) /\
  wbit (down (slide_word ws) b) k
  = (64 * Z.of_nat ws <=? k) && wbit b (k - 64 * Z.of_nat ws).
Proof.
  intros Hb Hk.
  destruct (down_spec (slide_word ws) b) as [Hl Hd]; [|by destruct Hb|].
  { intros b1 b2 i H. unfold slide_word. destruct (Nat.leb_spec ws i); [|done].
    by rewrite H by lia. }
  split.
  { split; [done|]. apply Forall_lookup. intros i x Hx.
    rewrite Hd in Hx by (apply lookup_lt_Some in Hx; lia). injection Hx as <-.
    unfold slide_word. destruct (Nat.leb ws i); [by apply lookup_word_ok|unfold is_u64; lia]. }
  destruct (word_bit_split k Hk) as (i & j & -> & Hi & Hj).
  rewrite wbit_index, Hd by done. change (default 0 (Some ?x)) with x. unfold slide_word.
  destruct (Nat.leb_spec ws i).
  - rewrite (proj2 (Z.leb_le _ _)) by lia.
    replace (64 * Z.of_nat i + j - 64 * Z.of_nat ws)
      with (64 * Z.of_nat (i - ws) + j) by lia.
    by rewrite wbit_index.
  - rewrite (proj2 (Z.leb_gt _ _)) by lia. by rewrite Z.testbit_0_l.
Qed.

Lemma slide_bits_testbit bs b i j :
  words_ok b -> 0 < bs < 64 -> 0 <= j < 64 ->
  Z.testbit (slide_bits bs b i) j =
  if bs <=? j then Z.testbit (default 0 (b !! i)) (j - bs)
  else match i with O => false | S i' => Z.testbit (default 0 (b !! i')) (64 + j - bs) end.
Proof.
  intros Hb Hbs Hj. unfold slide_bits. rewrite Z.lor_spec.
  rewrite Z.mod_pow2_bits_low, Z.shiftl_spec by lia.
  assert (match i with O => 0 | S i' => Z.shiftr (default 0 (b !! i')) (64 - bs) end
          = Z.shiftr match i with O => 0 | S i' => default 0 (b !! i') end (64 - bs)) as ->.
  { destruct i; [by rewrite Z.shiftr_0_l|done]. }
  rewrite Z.shiftr_spec by lia. destruct (Z.leb_spec bs j).
  - rewrite (u64_testbit_high _ (j + (64 - bs))); [by rewrite orb_false_r| |lia].
    destruct i; [unfold is_u64; lia|by apply lookup_word_ok].
  - rewrite Z.testbit_neg_r by lia. cbn [orb]. destruct i; [by rewrite Z.testbit_0_l|].
    f_equal. lia.
Qed.

Lemma slide_bits_u64 bs b i : words_ok b -> 0 < bs < 64 -> is_u64 (slide_bits bs b i).
Proof.
  intros Hb Hbs. unfold slide_bits.
  set (x := _ mod _). set (y := match i with O => 0 | S _ => _ end).
  assert (0 <= x < 2 ^ 64) as Hx by (apply Z.mod_pos_bound; lia).
  assert (0 <= y < 2 ^ 64) as Hy.
  { unfold y. destruct i as [|i']; [lia|]. pose proof (lookup_word_ok b i' Hb) as Hw.
    unfold is_u64 in Hw. rewrite Z.shiftr_div_pow2 by lia.
    split; [apply Z.div_pos; lia|]. apply Z.div_lt_upper_bound; [lia|].
    change (2 ^ 64) with 18446744073709551616. nia. }
  by apply (lor_bound 64); [lia|..].
Qed.

Lemma wbit_slide_bits bs b k :
  words_ok b -> 0 < bs < 64 -> 0 <= k < REPLAY_WINDOW ->
  words_ok (down (slide_bits bs) b) /\
  wbit (down (slide_bits bs) b) k = (bs <=? k) && wbit b (k - bs).
Proof.
  intros Hb Hbs Hk.
  destruct (down_spec (slide_bits bs) b) as [Hl Hd]; [|by destruct Hb|].
  { intros b1 b2 i H. unfold slide_bits. rewrite H by lia. f_equal.
    destruct i; [done|]. by rewrite H by lia. }
  split.
  { split; [done|]. apply Forall_lookup. intros i x Hx.
    rewrite Hd in Hx by (apply lookup_lt_Some in Hx; lia). injection Hx as <-.
    by apply slide_bits_u64. }
  destruct (word_bit_split k Hk) as (i & j & -> & Hi & Hj).
  rewrite wbit_index, Hd by done. change (default 0 (Some ?x)) with x. rewrite slide_bits_testbit by done.
  destruct (Z.leb_spec bs j).
  - rewrite (proj2 (Z.leb_le _ _)) by lia.
    replace (64 * Z.of_nat i + j - bs) with (64 * Z.of_nat i + (j - bs)) by lia.
    by rewrite wbit_index by lia.
  - destruct i as [|i'].
    + by rewrite (proj2 (Z.leb_gt _ _)) by lia.
    + rewrite (proj2 (Z.leb_le _ _)) by lia.
      replace (64 * Z.of_nat (S i') + j - bs) with (64 * Z.of_nat i' + (64 + j - bs)) by lia.
      by rewrite wbit_index by lia.
Qed.

(** The whole of [shift_bits]. *)
Lemma wbit_shift_bits b n k :
  words_ok b -> 0 <= n < REPLAY_WINDOW -> 0 <= k < REPLAY_WINDOW ->
  words_ok (shift_bits b n) /\ wbit (shift_bits b n) k = (n <=? k) && wbit b (k - n).
Proof.
  intros Hb Hn Hk. unfold shift_bits.
  set (ws := Z.to_nat (n / 64)). set (bs := n mod 64).
  assert (n = 64 * Z.of_nat ws + bs /\ 0 <= bs < 64) as [En Hbs].
  { unfold ws, bs. Z.div_mod_to_equations; lia. }
  set (b1 := if Nat.ltb 0 ws then _ else b).
  assert (forall k, 0 <= k < REPLAY_WINDOW -> words_ok b1 /\
    wbit b1 k = (64 * Z.of_nat ws <=? k) && wbit b (k - 64 * Z.of_nat ws)) as H1.
  { intros k' Hk'. unfold b1. destruct (Nat.ltb_spec 0 ws); [by apply wbit_slide_word|].
    split; [done|]. replace ws with O by lia.
    rewrite (proj2 (Z.leb_le _ _)) by lia. cbn [andb]. f_equal. lia. }
  destruct (Z.ltb_spec 0 bs).
  - destruct (H1 k Hk) as [Hok _].
    destruct (wbit_slide_bits bs b1 k Hok ltac:(lia) Hk) as [Hok2 ->]. split; [done|].
    destruct (Z.leb_spec bs k).
    + destruct (H1 (k - bs)) as [_ ->]; [lia|]. cbn [andb].
      destruct (Z.leb_spec (64 * Z.of_nat ws) (k - bs)), (Z.leb_spec n k); try lia;
        cbn [andb]; try done; f_equal; lia.
    + by rewrite (proj2 (Z.leb_gt n k)) by lia.
  - destruct (H1 k Hk) as [Hok ->]. split; [done|].
    replace (64 * Z.of_nat ws) with n by lia. done.
Qed.

(** ** The specification: the set of accepted sequence numbers *)

(** A sequence number is acceptable when it is new and not below the window of the highest
    one accepted. *)
Definition acceptable (acc : gset Z) (seq : Z) : Prop :=
  (seq ∉ acc) /\ set_Forall (fun s => s - (REPLAY_WINDOW - 1) <= seq) acc.

#[global] Instance acceptable_dec acc seq : Decision (acceptable acc seq).
Proof. unfold acceptable. apply _. Defined.

(** The bitmap represents the accepted set. *)
Record Rep (w : ReplayWindow) (acc : gset Z) : Prop := {
  rep_words : words_ok (bits w);
  rep_nonneg : set_Forall (fun s => 0 <= s) acc;
  rep_empty : initialized w = false -> acc = ∅ /\ forall k, wbit (bits w) k = false;
  rep_high : initialized w = true ->
    high w ∈ acc /\ set_Forall (fun s => s <= high w) acc /\
    forall k, 0 <= k < REPLAY_WINDOW -> wbit (bits w) k = bool_decide (high w - k ∈ acc);
}.

Lemma wbit_zeros b k : Forall (fun x => x = 0) b -> wbit b k = false.
Proof.
  intros Hb. unfold wbit. destruct (b !! _) as [x|] eqn:E; cbn; [|by rewrite Z.testbit_0_l].
  rewrite Forall_lookup in Hb. rewrite (Hb _ _ E). by rewrite Z.testbit_0_l.
Qed.

Lemma Rep_new : Rep replay_new ∅.
Proof.
  split; cbn [bits initialized replay_new].
  - split; [done|]. apply Forall_replicate. unfold is_u64; lia.
  - done.
  - intros _. split; [done|]. intros k. apply wbit_zeros. by apply Forall_replicate.
  - done.
Qed.

Lemma lookup_word_lt (b : list Z) k :
  words_ok b -> 0 <= k < REPLAY_WINDOW ->
  exists x, b !! Z.to_nat (k / 64) = Some x.
Proof.
  intros [Hl _] Hk. unfold REPLAY_WINDOW in Hk.
  apply lookup_lt_is_Some_2. rewrite Hl. unfold REPLAY_WINDOW_WORDS.
  Z.div_mod_to_equations; lia.
Qed.

Lemma or_word_spec b k :
  words_ok b -> 0 <= k < REPLAY_WINDOW ->
  words_ok (or_word b (Z.to_nat (k / 64)) (Z.shiftl 1 (k mod 64))) /\
  forall k', 0 <= k' < REPLAY_WINDOW ->
    wbit (or_word b (Z.to_nat (k / 64)) (Z.shiftl 1 (k mod 64))) k' = (k =? k') || wbit b k'.
Proof.
  intros Hb Hk. destruct (lookup_word_lt b k Hb Hk) as [x Hx]. unfold or_word. rewrite Hx.
  assert (0 <= k mod 64 < 64) as Hm by (apply Z.mod_pos_bound; lia). split.
  - destruct Hb as [Hl Hb]. split; [by rewrite length_insert|]. apply Forall_insert; [done|].
    assert (is_u64 x) as Hxu by (by eapply Forall_lookup_1).
    apply (lor_bound 64); [lia|exact Hxu|]. rewrite Z.shiftl_1_l.
    split; [lia|apply Z.pow_lt_mono_r; lia].
  - intros k' Hk'. unfold wbit. rewrite list_lookup_insert.
    assert (0 <= k' mod 64 < 64) by (apply Z.mod_pos_bound; lia).
    assert (k = k' <-> Z.to_nat (k / 64) = Z.to_nat (k' / 64) /\ k mod 64 = k' mod 64) as Hiff.
    { unfold REPLAY_WINDOW in *. split; [by intros ->|]. Z.div_mod_to_equations; lia. }
    case_decide as Hd.
    + destruct Hd as [Hd _]. change (default 0 (Some ?x)) with x.
      rewrite Z.lor_spec, Z.shiftl_1_l, Z.pow2_bits_eqb by lia. rewrite <- Hd, Hx, orb_comm.
      change (default 0 (Some ?x)) with x. f_equal.
      apply Bool.eq_iff_eq_true. rewrite !Z.eqb_eq, Hiff. tauto.
    + rewrite (proj2 (Z.eqb_neq k k')); [done|]. intros ->. apply Hd. split; [done|].
      by apply lookup_lt_Some in Hx.
Qed.

Lemma shiftr_land_1 x i : 0 <= i -> (Z.land (Z.shiftr x i) 1 =? 1) = Z.testbit x i.
Proof.
  intros Hi. change 1 with (Z.ones 1) at 1. rewrite Z.land_ones by lia.
  change (2 ^ 1) with 2. rewrite <- Z.bit0_mod, Z.shiftr_spec by lia.
  replace (0 + i) with i by lia. by destruct (Z.testbit x i).
Qed.

(** ** Refinement *)

Lemma replay_check_spec w acc seq :
  Rep w acc -> 0 <= seq ->
  replay_check w seq = if decide (acceptable acc seq) then Ok () else Err ReplayedFrame.
Proof.
  intros HR Hseq. unfold replay_check.
  destruct (initialized w) eqn:Ei; cbn [negb].
  2: { destruct (rep_empty _ _ HR Ei) as [-> _].
       rewrite decide_True; [done|]. split; [set_solver|]. apply set_Forall_empty. }
  destruct (rep_high _ _ HR Ei) as (Hh & Hmax & Hbits).
  pose proof (rep_nonneg _ _ HR _ Hh) as Hh0. cbn beta in Hh0.
  unfold sat_sub. destruct (Z.ltb_spec seq (Z.max 0 (high w - (REPLAY_WINDOW - 1)))).
  { rewrite decide_False; [done|]. intros [_ Hf]. specialize (Hf _ Hh). cbn beta in Hf. lia. }
  destruct (Z.leb_spec seq (high w)).
  - set (k := Z.max 0 (high w - seq)).
    assert (0 <= k < REPLAY_WINDOW) as Hk by (unfold k, REPLAY_WINDOW in *; lia).
    assert (high w - k = seq) as Ek by (unfold k; lia).
    destruct (lookup_word_lt _ k (rep_words _ _ HR) Hk) as [x Hx]. rewrite Hx.
    rewrite shiftr_land_1 by (apply Z.mod_pos_bound; lia).
    specialize (Hbits k Hk). unfold wbit in Hbits. rewrite Hx in Hbits.
    change (default 0 (Some ?x)) with x in Hbits. rewrite Ek in Hbits. rewrite Hbits. clear Hbits.
    case_bool_decide as Hin.
    + rewrite decide_False; [done|]. by intros [? _].
    + rewrite decide_True; [done|]. split; [done|]. intros s Hs.
      specialize (Hmax s Hs). cbn beta in Hmax. lia.
  - rewrite decide_True; [done|]. split.
    + intros Hin. specialize (Hmax _ Hin). cbn beta in Hmax. lia.
    + intros s Hs. specialize (Hmax s Hs). cbn beta in Hmax. unfold REPLAY_WINDOW. lia.
Qed.

Lemma or_word_0 b : or_word b 0 1 = or_word b (Z.to_nat (0 / 64)) (Z.shiftl 1 (0 mod 64)).
Proof. reflexivity. Qed.

(** Marking bit 0 of a bitmap that agrees with the set below [seq]. *)
Lemma Rep_mark_high b acc seq :
  words_ok b -> 0 <= seq -> set_Forall (fun s => 0 <= s < seq) acc ->
  (forall k, 0 < k < REPLAY_WINDOW -> wbit b k = bool_decide (seq - k ∈ acc)) ->
  Rep {| high := seq; bits := or_word b 0 1; initialized := true |} ({[seq]} ∪ acc).
Proof.
  intros Hb Hseq Hacc Hbits. rewrite or_word_0.
  destruct (or_word_spec b 0 Hb) as [Hok Hor]; [unfold REPLAY_WINDOW; lia|].
  split; cbn [high bits initialized].
  - done.
  - apply set_Forall_union; [apply set_Forall_singleton; lia|].
    intros s Hs. specialize (Hacc s Hs). cbn beta in Hacc. lia.
  - done.
  - intros _. split_and!; [set_solver| |].
    + apply set_Forall_union; [apply set_Forall_singleton; lia|].
      intros s Hs. specialize (Hacc s Hs). cbn beta in Hacc. lia.
    + intros k Hk. rewrite Hor by done. destruct (Z.eqb_spec 0 k) as [<-|Hne]; cbn [orb].
      * rewrite Z.sub_0_r, bool_decide_true; [done|set_solver].
      * rewrite Hbits by lia. apply bool_decide_ext. rewrite elem_of_union, elem_of_singleton.
        intuition lia.
Qed.

Lemma replay_accept_spec w acc seq :
  Rep w acc -> 0 <= seq -> acceptable acc seq -> Rep (replay_accept w seq) ({[seq]} ∪ acc).
Proof.
  intros HR Hseq [Hnew Hfloor]. unfold replay_accept.
  destruct (initialized w) eqn:Ei; cbn [negb].
  2: { destruct (rep_empty _ _ HR Ei) as [-> Hz].
       apply Rep_mark_high; [apply HR|done|apply set_Forall_empty|].
       intros k Hk. rewrite Hz, bool_decide_false; [done|set_solver]. }
  destruct (rep_high _ _ HR Ei) as (Hh & Hmax & Hbits).
  pose proof (rep_nonneg _ _ HR) as Hnn. pose proof (Hfloor _ Hh) as Hf. cbn beta in Hf.
  unfold sat_sub. destruct (Z.ltb_spec (high w) seq) as [Hlt|Hge].
  - set (sh := Z.max 0 (seq - high w)).
    assert (set_Forall (fun s => 0 <= s < seq) acc) as Hacc.
    { intros s Hs. specialize (Hmax s Hs). specialize (Hnn s Hs). cbn beta in *. lia. }
    destruct (Z.leb_spec REPLAY_WINDOW sh) as [Hbig|Hsmall].
    + assert (map (fun _ => 0) (bits w) = replicate REPLAY_WINDOW_WORDS 0) as Hzero.
      { destruct (rep_words _ _ HR) as [Hl _]. rewrite <- Hl. clear.
        induction (bits w); cbn; congruence. }
      rewrite Hzero. apply Rep_mark_high; [apply Rep_new|done|done|].
      intros k Hk. rewrite (wbit_zeros (replicate _ _)) by (by apply Forall_replicate).
      rewrite bool_decide_false; [done|]. intros Hin. specialize (Hmax _ Hin).
      cbn beta in Hmax. unfold sh in Hbig. lia.
    + apply Rep_mark_high; [|done|done|].
      * apply (wbit_shift_bits (bits w) sh 0); [apply HR| |]; unfold sh, REPLAY_WINDOW in *; lia.
      * intros k Hk. destruct (wbit_shift_bits (bits w) sh k) as [_ ->];
          [apply HR|unfold sh in *; lia|lia|].
        destruct (Z.leb_spec sh k); cbn [andb].
        -- rewrite Hbits by (unfold sh in *; lia). apply bool_decide_ext.
           replace (high w - (k - sh)) with (seq - k) by (unfold sh in *; lia). done.
        -- rewrite bool_decide_false; [done|]. intros Hin. specialize (Hmax _ Hin).
           cbn beta in Hmax. unfold sh in *. lia.
  - set (k0 := Z.max 0 (high w - seq)).
    assert (0 <= k0 < REPLAY_WINDOW) as Hk0 by (unfold k0, REPLAY_WINDOW in *; lia).
    assert (high w - k0 = seq) as Ek0 by (unfold k0; lia).
    destruct (or_word_spec (bits w) k0 (rep_words _ _ HR) Hk0) as [Hok Hor].
    split; cbn [high bits initialized].
    + done.
    + apply set_Forall_union; [by apply set_Forall_singleton|done].
    + congruence.
    + intros _. split_and!; [set_solver| |].
      * apply set_Forall_union; [by apply set_Forall_singleton|done].
      * intros k Hk. rewrite Hor, Hbits by done.
        destruct (Z.eqb_spec k0 k) as [<-|Hne]; cbn [orb].
        -- rewrite Ek0, bool_decide_true; [done|set_solver].
        -- apply bool_decide_ext. rewrite elem_of_union, elem_of_singleton. intuition lia.
Qed.

(** ** Traces

    The receive path calls [check] and, once the frame is authenticated, [accept]. *)

Definition replay_step (w : ReplayWindow) (seq : Z) : ReplayWindow * bool :=
  match replay_check w seq with
  | Ok _ => (replay_accept w seq, true)
  | Err _ => (w, false)
  end.

Definition spec_step (acc : gset Z) (seq : Z) : gset Z * bool :=
  if decide (acceptable acc seq) then ({[seq]} ∪ acc, true) else (acc, false).

(** The decisions taken over a sequence of authenticated frames. *)
Fixpoint decisions {S} (step : S -> Z -> S * bool) (s : S) (seqs : list Z) : list bool :=
  match seqs with
  | [] => []
  | q :: qs => let (s', d) := step s q in d :: decisions step s' qs
  end.

(** The sequence numbers accepted over a run, in order. *)
Fixpoint accepted (w : ReplayWindow) (seqs : list Z) : list Z :=
  match seqs with
  | [] => []
  | q :: qs => let (w', d) := replay_step w q in
               if d then q :: accepted w' qs else accepted w' qs
  end.

Lemma replay_step_spec w acc seq :
  Rep w acc -> 0 <= seq ->
  Rep (replay_step w seq).1 (spec_step acc seq).1 /\
  (replay_step w seq).2 = (spec_step acc seq).2.
Proof.
  intros HR Hseq. unfold replay_step, spec_step.
  rewrite (replay_check_spec w acc) by done.
  case_decide; cbn [fst snd]; [|done]. split; [by apply replay_accept_spec|done].
Qed.

Lemma decisions_refine w acc seqs :
  Rep w acc -> Forall (fun q => 0 <= q) seqs ->
  decisions replay_step w seqs = decisions spec_step acc seqs.
Proof.
  intros HR Hq. revert w acc HR. induction Hq as [|q qs Hq _ IH]; intros w acc HR; [done|].
  cbn [decisions]. destruct (replay_step_spec w acc q HR Hq) as [HR' Hd].
  destruct (replay_step w q) as [w' d], (spec_step acc q) as [acc' d']; cbn in *. subst.
  f_equal. by apply IH.
Qed.

Lemma accepted_fresh w acc seqs :
  Rep w acc -> Forall (fun q => 0 <= q) seqs ->
  NoDup (accepted w seqs) /\ Forall (fun q => q ∉ acc) (accepted w seqs).
Proof.
  intros HR Hq. revert w acc HR. induction Hq as [|q qs Hq _ IH]; intros w acc HR.
  { split; constructor. }
  cbn [accepted]. destruct (replay_step_spec w acc q HR Hq) as [HR' Hd].
  unfold spec_step in *. destruct (replay_step w q) as [w' d]; cbn [fst snd] in *.
  case_decide as Ha; cbn [fst snd] in *; subst d.
  - destruct (IH w' _ HR') as [Hnd Hf]. split.
    + constructor; [|done]. rewrite Forall_forall in Hf. intros Hin.
      specialize (Hf q Hin). set_solver.
    + constructor; [apply Ha|]. eapply Forall_impl; [exact Hf|]. set_solver.
  - by apply IH.
Qed.

(** C8. The 1024-bit bitmap takes exactly the decisions of the abstract window: over any
    sequence of authenticated sequence numbers, the word- and bit-sliding implementation
    accepts a number iff it was not accepted before and is not more than 1023 below the
    highest one accepted. *)
Theorem replay_window_refines seqs :
  Forall (fun q => 0 <= q) seqs ->
  decisions replay_step replay_new seqs = decisions spec_step ∅ seqs.
Proof. apply decisions_refine, Rep_new. Qed.

Lemma replay_window_refines_witness :
  Forall (fun q => 0 <= q) [5; 5; 3; 1030; 6; 1029; 1030; 7; 3000; 1976; 1977] /\
  decisions replay_step replay_new [5; 5; 3; 1030; 6; 1029; 1030; 7; 3000; 1976; 1977]
  = decisions spec_step ∅ [5; 5; 3; 1030; 6; 1029; 1030; 7; 3000; 1976; 1977].
Proof.
  assert (Forall (fun q => 0 <= q) [5; 5; 3; 1030; 6; 1029; 1030; 7; 3000; 1976; 1977]) as H
    by (repeat (constructor; [lia|]); constructor).
  split; [exact H|]. apply (replay_window_refines _ H).
Defined.

(** No sequence number is accepted twice, whatever the order and the distance of the
    sequence numbers presented to the window. *)
Lemma replay_window_no_double_accept seqs :
  Forall (fun q => 0 <= q) seqs -> NoDup (accepted replay_new seqs).
Proof. intros H. by apply (accepted_fresh _ ∅); [apply Rep_new|]. Qed.

Lemma replay_window_no_double_accept_witness :
  Forall (fun q => 0 <= q) [9; 9; 2000; 9; 1999; 2000] /\
  accepted replay_new [9; 9; 2000; 9; 1999; 2000] = [9; 2000; 1999] /\
  NoDup (accepted replay_new [9; 9; 2000; 9; 1999; 2000]).
Proof.
  assert (Forall (fun q => 0 <= q) [9; 9; 2000; 9; 1999; 2000]) as H
    by (repeat (constructor; [lia|]); constructor).
  split; [exact H|]. split; [vm_compute; reflexivity|].
  apply (replay_window_no_double_accept _ H).
Defined.
