(* ===== verification/Ratchet.v ===== *)
(** * sh-crypto: the per-direction key ratchet

    [RatchetChain] of [crates/sh-crypto/src/channel_crypto.rs].  A chain keeps the keys of
    the newest generation and of the two before it.  The send path advances the chain
    ([get_or_advance_to]); the receive path first derives a key without touching the chain
    ([derive_key_transient]) and advances only after the AEAD tag verified
    ([commit_advance_to]).  The specification is the sequence [gen_key base 0, 1, ...]. *)

From stdpp Require Import base numbers list option gmap fin_maps strings.
From S2P Require Import Prelude CryptoTypes.

Definition GEN_WINDOW : Z := 2.
Definition GEN_AHEAD_LIMIT : Z := 2.

Definition RATCHET_LABEL : bytes := lit "shp ratchet v1".

Definition too_far_ahead : CryptoError := MalformedChannelFrame "generation too far ahead".

Record RatchetChain := {
  max_gen : Z;
  live_keys : gmap Z bytes;
}.

Definition from_base_key (base : bytes) : RatchetChain :=
  {| max_gen := 0; live_keys := {[ 0 := base ]} |}.

Section Ops.
Context `{CP : CryptoPrims}.

Definition derive_next_key (current : bytes) : result CryptoError bytes :=
  let prk := hkdf_extract current in
  if hkdf_from_prk prk
  then ok_or (hkdf_expand prk RATCHET_LABEL 32) AeadFailure
  else Err AeadFailure.

(** One iteration of the [while self.max_gen < gen] loops: what the iteration leaves in
    the chain, and the error that ends the loop if there is one. *)
Definition advance_step (c : RatchetChain) : RatchetChain * result CryptoError () :=
  let next_gen := sat_add u32_max (max_gen c) 1 in
  match (let? current := ok_or (live_keys c !! max_gen c) AeadFailure in
         derive_next_key current) with
  | Err e => (c, Err e)
  | Ok next_key =>
      let keys := <[next_gen := next_key]> (live_keys c) in
      let new_floor := sat_sub next_gen GEN_WINDOW in
      ({| max_gen := next_gen;
          live_keys := filter (fun kv => new_floor <= kv.1) keys |}, Ok tt)
  end.

Fixpoint advance_loop (fuel : nat) (c : RatchetChain) (gen : Z)
  : RatchetChain * result CryptoError () :=
  match fuel with
  | O => (c, Ok tt)
  | S fuel' =>
      if max_gen c <? gen then
        match advance_step c with
        | (c', Ok _) => advance_loop fuel' c' gen
        | (c', Err e) => (c', Err e)
        end
      else (c, Ok tt)
  end.

(** The loop, with as many iterations allowed as there are generations to gain
    ([advance_to_unfold]: it is the unbounded loop). *)
Definition advance_to (c : RatchetChain) (gen : Z) : RatchetChain * result CryptoError () :=
  advance_loop (Z.to_nat (gen - max_gen c)) c gen.

Definition get_or_advance_to (c : RatchetChain) (gen : Z)
  : RatchetChain * result CryptoError bytes :=
  let floor := sat_sub (max_gen c) GEN_WINDOW in
  if gen <? floor then (c, Err ReplayedFrame) else
  let ahead_limit := sat_add u32_max (max_gen c) GEN_AHEAD_LIMIT in
  if ahead_limit <? gen then (c, Err too_far_ahead) else
  match advance_to c gen with
  | (c', Ok _) => (c', ok_or (live_keys c' !! gen) AeadFailure)
  | (c', Err e) => (c', Err e)
  end.

(** [for _ in 0..steps]. *)
Fixpoint derive_steps (steps : nat) (current : bytes) : result CryptoError bytes :=
  match steps with
  | O => Ok current
  | S n => let? next := derive_next_key current in derive_steps n next
  end.

Definition derive_key_transient (c : RatchetChain) (gen : Z) : result CryptoError bytes :=
  let floor := sat_sub (max_gen c) GEN_WINDOW in
  if gen <? floor then Err ReplayedFrame else
  let ahead_limit := sat_add u32_max (max_gen c) GEN_AHEAD_LIMIT in
  if ahead_limit <? gen then Err too_far_ahead else
  match live_keys c !! gen with
  | Some key => Ok key
  | None =>
      let? anchor := ok_or (live_keys c !! max_gen c) AeadFailure in
      derive_steps (Z.to_nat (sat_sub gen (max_gen c))) anchor
  end.

Definition commit_advance_to (c : RatchetChain) (gen : Z)
  : RatchetChain * result CryptoError () :=
  advance_to c gen.

(** ** Specification: the key sequence of a base key *)

(** The next key of the one-way sequence. *)
Definition next_key (k : bytes) : bytes :=
  match derive_next_key k with Ok k' => k' | Err _ => k end.

Definition gen_key (base : bytes) (g : Z) : bytes := Nat.iter (Z.to_nat g) next_key base.

(** The generations a chain at [m] keeps. *)
Definition in_window (m g : Z) : Prop := Z.max 0 (m - GEN_WINDOW) <= g <= m.

#[global] Instance in_window_dec m g : Decision (in_window m g).
Proof. unfold in_window. apply _. Defined.

(** A chain over [base] holds the keys of its window and no other. *)
Definition chain_ok (base : bytes) (c : RatchetChain) : Prop :=
  is_u32 (max_gen c) /\
  forall g, live_keys c !! g =
            if decide (in_window (max_gen c) g) then Some (gen_key base g) else None.

(** A chain whose keys were erased. *)
Definition chain_wiped (c : RatchetChain) : Prop := live_keys c = ∅.

Definition ratchet_acceptable (c : RatchetChain) (gen : Z) : Prop :=
  max_gen c - GEN_WINDOW <= gen <= Z.min u32_max (max_gen c + GEN_AHEAD_LIMIT).

Lemma gen_key_succ base g : 0 <= g -> gen_key base (g + 1) = next_key (gen_key base g).
Proof.
  intros Hg. unfold gen_key. rewrite Z2Nat.inj_add by lia.
  by rewrite Nat.add_comm.
Qed.

Lemma from_base_key_ok base : chain_ok base (from_base_key base).
Proof.
  split; [cbv; split; [discriminate|reflexivity]|]. intros g. cbn [from_base_key live_keys max_gen].
  unfold in_window, GEN_WINDOW. case_decide as Hw.
  - replace g with 0 by lia. by rewrite lookup_singleton_eq.
  - apply lookup_singleton_ne. lia.
Qed.

Lemma advance_to_unfold c gen :
  is_u32 gen -> is_u32 (max_gen c) ->
  advance_to c gen =
    if max_gen c <? gen then
      match advance_step c with
      | (c', Ok _) => advance_to c' gen
      | (c', Err e) => (c', Err e)
      end
    else (c, Ok tt).
Proof.
  unfold is_u32. intros Hg Hm. unfold advance_to. destruct (Z.ltb_spec (max_gen c) gen) as [Hlt|Hge].
  - replace (Z.to_nat (gen - max_gen c)) with (S (Z.to_nat (gen - (max_gen c + 1)))) by lia.
    cbn [advance_loop]. rewrite (proj2 (Z.ltb_lt _ _) Hlt).
    destruct (advance_step c) as [c' [[]|e]] eqn:E; [|done].
    replace (max_gen c') with (max_gen c + 1); [done|].
    unfold advance_step in E. case_match; [|done]. injection E as <-.
    cbn [max_gen]. unfold sat_add, u32_max. lia.
  - by replace (Z.to_nat (gen - max_gen c)) with 0%nat by lia.
Qed.

Lemma chain_ok_not_wiped base c : chain_ok base c -> ~ chain_wiped c.
Proof.
  intros [Hu Hk] Hw. specialize (Hk (max_gen c)). rewrite Hw, lookup_empty in Hk.
  rewrite decide_True in Hk; [done|]. unfold is_u32, in_window, GEN_WINDOW in *. lia.
Qed.

(** An erased chain yields no key and does not change. *)
Lemma wiped_advance c gen :
  chain_wiped c -> is_u32 gen -> is_u32 (max_gen c) ->
  advance_to c gen = (c, if max_gen c <? gen then Err AeadFailure else Ok tt).
Proof.
  intros Hw Hg Hm. rewrite advance_to_unfold by done. case_match; [|done].
  unfold advance_step. by rewrite Hw, lookup_empty.
Qed.

Lemma wiped_get_or_advance c gen :
  chain_wiped c -> is_u32 gen -> is_u32 (max_gen c) -> ratchet_acceptable c gen ->
  get_or_advance_to c gen = (c, Err AeadFailure).
Proof.
  intros Hw Hg Hm [Hlo Hhi]. unfold get_or_advance_to. rewrite wiped_advance by done.
  unfold GEN_WINDOW, GEN_AHEAD_LIMIT, u32_max, is_u32 in *.
  rewrite (proj2 (Z.ltb_ge gen _)) by (unfold sat_sub; lia).
  rewrite (proj2 (Z.ltb_ge _ gen)) by (unfold sat_add; lia).
  destruct (_ <? gen); [done|]. by rewrite Hw, lookup_empty.
Qed.

Lemma wiped_transient c gen : chain_wiped c -> exists e, derive_key_transient c gen = Err e.
Proof.
  intros Hw. unfold derive_key_transient. rewrite Hw, !lookup_empty.
  cbn [ok_or]. destruct (gen <? _); [by eexists|]. destruct (_ <? gen); by eexists.
Qed.

Section Laws.
Context `{CL : !CryptoLaws}.

Lemma derive_next_key_total k : derive_next_key k = Ok (next_key k).
Proof.
  unfold next_key. assert (exists k', derive_next_key k = Ok k') as [k' ->]; [|done].
  unfold derive_next_key. rewrite hkdf_from_prk_ok by (rewrite hkdf_extract_len; lia).
  destruct (hkdf_expand_ok (hkdf_extract k) RATCHET_LABEL 32) as (out & -> & _); [lia|].
  by exists out.
Qed.

Lemma derive_steps_total n base g :
  0 <= g -> derive_steps n (gen_key base g) = Ok (gen_key base (g + Z.of_nat n)).
Proof.
  revert g. induction n as [|n IH]; intros g Hg; cbn [derive_steps].
  - by rewrite Z.add_0_r.
  - rewrite derive_next_key_total, <- gen_key_succ, IH by lia. do 2 f_equal. lia.
Qed.

Lemma advance_step_ok base c :
  chain_ok base c -> max_gen c < u32_max ->
  exists c', advance_step c = (c', Ok tt) /\ chain_ok base c' /\ max_gen c' = max_gen c + 1.
Proof.
  intros [Hu Hk] Hmax. unfold is_u32 in Hu. unfold u32_max in Hmax. unfold advance_step.
  assert (sat_add u32_max (max_gen c) 1 = max_gen c + 1) as -> by (unfold sat_add, u32_max; lia).
  rewrite (Hk (max_gen c)), decide_True by (unfold in_window, GEN_WINDOW; lia).
  cbn [ok_or]. rewrite derive_next_key_total. eexists; split; [reflexivity|].
  cbn [max_gen live_keys]. split; [|done]. split; [unfold is_u32; cbn; lia|].
  intros g. cbn [max_gen live_keys]. rewrite <- gen_key_succ by lia.
  unfold in_window, GEN_WINDOW, sat_sub. rewrite map_lookup_filter.
  destruct (decide (g = max_gen c + 1)) as [->|Hne].
  - rewrite lookup_insert_eq. cbn. rewrite option_guard_True by (cbn; lia).
    by rewrite decide_True by lia.
  - rewrite lookup_insert_ne, Hk by done. unfold in_window, GEN_WINDOW.
    case_decide; cbn; [case_guard; cbn in *|]; case_decide; try done; lia.
Qed.

Lemma advance_to_ok base c gen :
  chain_ok base c -> is_u32 gen ->
  exists c', advance_to c gen = (c', Ok tt) /\ chain_ok base c' /\
             max_gen c' = Z.max (max_gen c) gen.
Proof.
  intros Hc Hg. remember (Z.to_nat (gen - max_gen c)) as n eqn:Hn. revert c Hc Hn.
  induction n as [|n IH]; intros c Hc Hn;
    rewrite advance_to_unfold by (done || apply Hc); destruct (Z.ltb_spec (max_gen c) gen).
  - lia.
  - exists c. split_and!; [done..|lia].
  - destruct (advance_step_ok base c Hc) as (c1 & -> & Hc1 & Hm1);
      [unfold is_u32, u32_max in *; lia|].
    destruct (IH c1 Hc1) as (c' & -> & Hc' & Hm'); [lia|].
    exists c'. split_and!; [done..|lia].
  - exists c. split_and!; [done..|lia].
Qed.

Lemma chain_lookup base c g :
  chain_ok base c -> in_window (max_gen c) g -> live_keys c !! g = Some (gen_key base g).
Proof. intros [_ Hk] Hw. by rewrite Hk, decide_True. Qed.

Lemma get_or_advance_ok base c gen :
  chain_ok base c -> 0 <= gen -> ratchet_acceptable c gen ->
  exists c', get_or_advance_to c gen = (c', Ok (gen_key base gen)) /\ chain_ok base c' /\
             max_gen c' = Z.max (max_gen c) gen.
Proof.
  intros Hc Hge0 [Hlo Hhi]. unfold get_or_advance_to, GEN_WINDOW, GEN_AHEAD_LIMIT, u32_max in *.
  rewrite (proj2 (Z.ltb_ge gen _)) by (unfold sat_sub; lia).
  rewrite (proj2 (Z.ltb_ge _ gen)) by (unfold sat_add; lia).
  destruct (advance_to_ok base c gen Hc) as (c' & -> & Hc' & Hm'); [unfold is_u32; lia|].
  exists c'. rewrite (chain_lookup base c' gen Hc') by (unfold in_window, GEN_WINDOW; lia).
  done.
Qed.

Lemma get_or_advance_err c gen :
  0 <= max_gen c -> 0 <= gen <= u32_max -> ~ ratchet_acceptable c gen ->
  get_or_advance_to c gen = (c, Err (if gen <? max_gen c then ReplayedFrame else too_far_ahead)).
Proof.
  intros Hm Hg Hn. unfold get_or_advance_to, ratchet_acceptable, GEN_WINDOW, GEN_AHEAD_LIMIT in *.
  unfold sat_sub, sat_add, u32_max in *. repeat case_match; simplify_bool; try done; lia.
Qed.

Lemma derive_key_transient_ok base c gen :
  chain_ok base c -> 0 <= gen -> ratchet_acceptable c gen ->
  derive_key_transient c gen = Ok (gen_key base gen).
Proof.
  intros Hc Hge0 [Hlo Hhi].
  unfold derive_key_transient, GEN_WINDOW, GEN_AHEAD_LIMIT, u32_max in *.
  rewrite (proj2 (Z.ltb_ge gen _)) by (unfold sat_sub; lia).
  rewrite (proj2 (Z.ltb_ge _ gen)) by (unfold sat_add; lia).
  pose proof Hc as [Hu Hk]. unfold is_u32 in Hu. rewrite (Hk gen). case_decide as Hw; [done|].
  unfold in_window, GEN_WINDOW in Hw.
  rewrite (chain_lookup base c (max_gen c) Hc) by (unfold in_window, GEN_WINDOW; lia).
  cbn [ok_or]. rewrite derive_steps_total by lia. do 2 f_equal. unfold sat_sub; lia.
Qed.

Lemma derive_key_transient_err c gen :
  0 <= max_gen c -> 0 <= gen <= u32_max -> ~ ratchet_acceptable c gen ->
  derive_key_transient c gen = Err (if gen <? max_gen c then ReplayedFrame else too_far_ahead).
Proof.
  intros Hm Hg Hn. unfold derive_key_transient, ratchet_acceptable, GEN_WINDOW, GEN_AHEAD_LIMIT in *.
  unfold sat_sub, sat_add, u32_max in *. repeat case_match; simplify_bool; try done; lia.
Qed.

#[global] Instance ratchet_acceptable_dec c gen : Decision (ratchet_acceptable c gen).
Proof. unfold ratchet_acceptable. apply _. Defined.

(** ** Reachable chains *)

(** The two mutating operations of a chain, with a [u32] argument. *)
Inductive ratchet_op := RGet (gen : Z) | RCommit (gen : Z).

Definition op_gen (o : ratchet_op) : Z := match o with RGet g => g | RCommit g => g end.

Definition ratchet_run (c : RatchetChain) (o : ratchet_op) : RatchetChain :=
  match o with
  | RGet g => (get_or_advance_to c g).1
  | RCommit g => (commit_advance_to c g).1
  end.

Lemma ratchet_run_ok base c o :
  chain_ok base c -> is_u32 (op_gen o) ->
  chain_ok base (ratchet_run c o) /\ max_gen c <= max_gen (ratchet_run c o).
Proof.
  intros Hc Ho. destruct o as [g|g]; cbn [ratchet_run op_gen] in *.
  - destruct (decide (ratchet_acceptable c g)) as [Ha|Ha].
    + destruct (get_or_advance_ok base c g Hc) as (c' & -> & Hc' & Hm');
        [unfold is_u32 in Ho; lia|done|]. split; [done|cbn; lia].
    + rewrite get_or_advance_err; [split; [done|cbn; lia]|apply Hc| |done].
      unfold is_u32, u32_max in *; lia.
  - unfold commit_advance_to.
    destruct (advance_to_ok base c g Hc Ho) as (c' & -> & Hc' & Hm'). split; [done|cbn; lia].
Qed.

Lemma ratchet_reach_ok base ops c :
  chain_ok base c -> Forall (fun o => is_u32 (op_gen o)) ops ->
  chain_ok base (foldl ratchet_run c ops) /\ max_gen c <= max_gen (foldl ratchet_run c ops).
Proof.
  intros Hc Hops. revert c Hc. induction Hops as [|o ops Ho _ IH]; intros c Hc; cbn [foldl].
  { done. }
  destruct (ratchet_run_ok base c o Hc Ho) as [Hc' Hm'].
  destruct (IH _ Hc') as [Hc'' Hm'']. split; [done|lia].
Qed.

(** The window holds at most [GEN_WINDOW + 1] keys. *)
Lemma chain_ok_size base c : chain_ok base c -> (size (live_keys c) <= 3)%nat.
Proof.
  intros Hc. rewrite <- size_dom. set (m := max_gen c).
  etransitivity; [apply (subseteq_size (dom (live_keys c)) (list_to_set [m; m - 1; m - 2] : gset Z))|].
  - intros g [k Hk]%elem_of_dom. destruct Hc as [_ Hl]. rewrite Hl in Hk.
    case_decide as Hw; [|done]. unfold in_window, GEN_WINDOW in Hw.
    rewrite elem_of_list_to_set, !elem_of_cons. subst m.
    destruct (decide (g = max_gen c)), (decide (g = max_gen c - 1)); [tauto..|].
    right; right; left; lia.
  - rewrite size_list_to_set; [done|].
    apply NoDup_ListNoDup. repeat constructor; rewrite ?elem_of_cons, ?elem_of_nil; cbn; lia.
Qed.

(** Whatever generations are requested or committed, in any order, a chain holds
    exactly the keys [k_max, k_{max-1}, k_{max-2}] of its one-way sequence that exist: older
    keys are gone (forward secrecy), no key is ever wrong, the newest generation never goes
    back, and at most three keys are live. *)
Lemma ratchet_window_invariant base ops :
  Forall (fun o => is_u32 (op_gen o)) ops ->
  let c := foldl ratchet_run (from_base_key base) ops in
  0 <= max_gen c <= u32_max /\
  (forall g, live_keys c !! g =
             if decide (in_window (max_gen c) g) then Some (gen_key base g) else None) /\
  (size (live_keys c) <= 3)%nat.
Proof.
  intros Hops c. destruct (ratchet_reach_ok base ops _ (from_base_key_ok base) Hops) as [Hc _].
  fold c in Hc. split; [destruct Hc as [Hu _]; unfold is_u32, u32_max in *; lia|].
  split; [apply Hc|apply (chain_ok_size base c Hc)].
Qed.

(** On every reachable chain the read-only derivation of the receive path returns what
    the mutating send path returns, errors included: the sequence key of the generation
    when it lies within the window or at most two ahead, [ReplayedFrame] below it and
    [MalformedChannelFrame] above it. *)
Lemma ratchet_paths_agree base ops gen :
  Forall (fun o => is_u32 (op_gen o)) ops -> is_u32 gen ->
  let c := foldl ratchet_run (from_base_key base) ops in
  derive_key_transient c gen = (get_or_advance_to c gen).2 /\
  derive_key_transient c gen =
    if decide (ratchet_acceptable c gen) then Ok (gen_key base gen)
    else Err (if gen <? max_gen c then ReplayedFrame else too_far_ahead).
Proof.
  intros Hops Hg c. destruct (ratchet_reach_ok base ops _ (from_base_key_ok base) Hops) as [Hc _].
  fold c in Hc. assert (0 <= max_gen c) by apply Hc.
  assert (0 <= gen <= u32_max) by (unfold is_u32, u32_max in *; lia). case_decide.
  - rewrite (derive_key_transient_ok base) by (done || lia). split; [|done].
    by destruct (get_or_advance_ok base c gen) as (c' & -> & _); [done|lia|done|].
  - by rewrite derive_key_transient_err, get_or_advance_err.
Qed.

End Laws.
End Ops.

Lemma ratchet_window_invariant_witness :
  let ops := [RGet 1; RCommit 3; RGet 9; RGet 0; RCommit 7] in
  let c := foldl ratchet_run (from_base_key [1; 2; 3]) ops in
  Forall (fun o => is_u32 (op_gen o)) ops /\ max_gen c = 7 /\
  (size (live_keys c) <= 3)%nat.
Proof.
  assert (Forall (fun o => is_u32 (op_gen o)) [RGet 1; RCommit 3; RGet 9; RGet 0; RCommit 7]) as Hf
    by (repeat (constructor; [cbn; unfold is_u32; lia|]); constructor).
  split; [exact Hf|]. split; [vm_compute; reflexivity|].
  apply (ratchet_window_invariant [1; 2; 3] _ Hf).
Defined.

Lemma ratchet_paths_agree_witness :
  let ops := [RGet 1; RCommit 3; RGet 5] in
  let c := foldl ratchet_run (from_base_key [1; 2; 3]) ops in
  derive_key_transient c 7 = (get_or_advance_to c 7).2 /\
  is_ok (derive_key_transient c 7) = true /\
  derive_key_transient c 8 = Err too_far_ahead.
Proof.
  assert (Forall (fun o => is_u32 (op_gen o)) [RGet 1; RCommit 3; RGet 5]) as Hf
    by (repeat (constructor; [cbn; unfold is_u32; lia|]); constructor).
  assert (is_u32 7) as H7 by (unfold is_u32; lia).
  destruct (ratchet_paths_agree [1; 2; 3] _ 7 Hf H7) as [E _].
  split; [exact E|]. split; vm_compute; reflexivity.
Defined.
