(* ===== verification/ChannelFrame.v ===== *)
(** * sh-crypto: the sealed-frame header, nonces and the key-export seam

    [ChannelFrameHeader] and [build_nonce] of [crates/sh-crypto/src/channel_crypto.rs] and
    the post-handshake [NoiseSession] of [crates/sh-crypto/src/noise.rs], as far as the
    channel keys depend on it: the HKDF root key [prk].  The [snow] transport it also owns
    is third-party and no operation modelled here reads it. *)

From stdpp Require Import base numbers list option strings.
From S2P Require Import Prelude Types CryptoTypes.

Definition CHANNEL_MAGIC : Z := 83.
Definition CHANNEL_HDR_VERSION : Z := 1.
Definition CHANNEL_HEADER_LEN : Z := 24.
Definition CHAN_LABEL : bytes := lit "shp chan v1".
Definition AAD_PREFIX : bytes := lit "shp aead v1".

Record ChannelFrameHeader := {
  fh_channel : ChannelId;
  fh_direction : Direction;
  fh_epoch : Z;
  fh_generation : Z;
  fh_seq : Z;
}.

#[global] Instance ChannelFrameHeader_eq_dec : EqDecision ChannelFrameHeader.
Proof. solve_decision. Defined.

(** [bytes] is an array of exactly 24 bytes. *)
Definition header_parse (b : bytes) : result CryptoError ChannelFrameHeader :=
  let byte i := default 0 (b !! i) in
  if negb (byte 0%nat =? CHANNEL_MAGIC) then Err (MalformedChannelFrame "bad magic byte") else
  if negb (byte 1%nat =? CHANNEL_HDR_VERSION)
  then Err (MalformedChannelFrame "bad header version") else
  let? channel := map_err (fun _ => MalformedChannelFrame "unknown channel id")
                          (channel_try_from (byte 2%nat)) in
  let? direction := dir_from_wire (byte 3%nat) in
  Ok {| fh_channel := channel;
        fh_direction := direction;
        fh_epoch := from_be (take 8 (drop 4 b));
        fh_generation := from_be (take 4 (drop 12 b));
        fh_seq := from_be (take 8 (drop 16 b)) |}.

Definition header_encode (h : ChannelFrameHeader) : bytes :=
  let out := replicate 24 0 in
  let out := <[0%nat := CHANNEL_MAGIC]> out in
  let out := <[1%nat := CHANNEL_HDR_VERSION]> out in
  let out := <[2%nat := channel_to_u8 (fh_channel h)]> out in
  let out := <[3%nat := dir_wire_byte (fh_direction h)]> out in
  let out := copy_at out 4 (to_be 8 (fh_epoch h)) in
  let out := copy_at out 12 (to_be 4 (fh_generation h)) in
  copy_at out 16 (to_be 8 (fh_seq h)).

Definition header_aad (h : ChannelFrameHeader) : bytes :=
  let out := replicate 35 0 in
  let out := copy_at out 0 AAD_PREFIX in
  copy_at out 11 (header_encode h).

Definition build_nonce (generation seq : Z) : bytes :=
  let nonce := replicate 12 0 in
  let nonce := copy_at nonce 0 (to_be 4 generation) in
  copy_at nonce 4 (to_be 8 seq).

(** ** NoiseSession *)

Record NoiseSession := { prk : bytes }.

(** The length-prefixed HKDF info string. *)
Definition export_info (label context : bytes) : bytes :=
  to_be 4 (blen label) ++ label ++ to_be 4 (blen context) ++ context.

Section Exporter.
Context `{CP : CryptoPrims}.

(** The key-schedule part of [NoiseSession::new]. *)
Definition noise_new (handshake_hash : bytes) : NoiseSession :=
  {| prk := hkdf_extract handshake_hash |}.

Definition zeroize_prk (s : NoiseSession) : NoiseSession :=
  {| prk := map (fun _ => 0) (prk s) |}.

Definition export_keying_material (s : NoiseSession) (label context : bytes) (out_len : Z)
  : result CryptoError bytes :=
  if negb (hkdf_from_prk (prk s)) then Err (HandshakeFailed "invalid PRK for HKDF export") else
  if u32_max <? blen label then Err (HandshakeFailed "label exceeds u32 length limit") else
  if u32_max <? blen context then Err (HandshakeFailed "context exceeds u32 length limit") else
  let info := export_info label context in
  ok_or (hkdf_expand (prk s) info out_len)
        (HandshakeFailed "HKDF expand failed for keying material export").
End Exporter.

(** ** Layout lemmas *)

Definition header_ok (h : ChannelFrameHeader) : Prop :=
  is_u64 (fh_epoch h) /\ is_u32 (fh_generation h) /\ is_u64 (fh_seq h).

Lemma header_encode_eq h :
  header_encode h =
    [CHANNEL_MAGIC; CHANNEL_HDR_VERSION; channel_to_u8 (fh_channel h);
     dir_wire_byte (fh_direction h)]
    ++ to_be 8 (fh_epoch h) ++ to_be 4 (fh_generation h) ++ to_be 8 (fh_seq h).
Proof. reflexivity. Qed.

Lemma header_encode_length h : length (header_encode h) = 24%nat.
Proof. reflexivity. Qed.

Lemma header_aad_eq h : header_aad h = AAD_PREFIX ++ header_encode h.
Proof. reflexivity. Qed.

Lemma build_nonce_eq g q : build_nonce g q = to_be 4 g ++ to_be 8 q.
Proof. reflexivity. Qed.

Lemma header_parse_encode h : header_ok h -> header_parse (header_encode h) = Ok h.
Proof.
  intros (He & Hg & Hq). unfold is_u64, is_u32 in *.
  rewrite header_encode_eq. unfold header_parse.
  cbn [app lookup list_lookup to_be drop take]. change (default 0 (Some ?x)) with x.
  rewrite !Z.eqb_refl, channel_try_from_to, dir_from_wire_byte. cbn [negb map_err].
  refold_be. rewrite !from_be_to_be_small by lia. by destruct h.
Qed.

Lemma header_parse_canonical b h :
  length b = 24%nat -> bytes_ok b -> header_parse b = Ok h ->
  header_ok h /\ header_encode h = b.
Proof.
  intros Hl Hb. do 24 (destruct b as [|? b]; [done|]). destruct b; [|done]. clear Hl.
  unfold header_parse. cbn [lookup list_lookup drop take]. change (default 0 (Some ?x)) with x.
  destruct (Z.eqb_spec z CHANNEL_MAGIC) as [->|]; [|done].
  destruct (Z.eqb_spec z0 CHANNEL_HDR_VERSION) as [->|]; [|done]. cbn [negb].
  destruct (channel_try_from z1) as [c|] eqn:Ec; [|done]. cbn [map_err].
  destruct (dir_from_wire z2) as [d|] eqn:Ed; [|done]. intros H. apply Ok_inj in H as <-.
  apply channel_try_from_Ok in Ec as ->. apply dir_from_wire_Ok in Ed as ->.
  rewrite header_encode_eq. cbn [fh_epoch fh_generation fh_seq fh_channel fh_direction].
  unfold bytes_ok in Hb. rewrite !Forall_cons in Hb. destruct_and! Hb.
  assert (forall l, Forall is_u8 l -> length l = 8%nat ->
            is_u64 (from_be l) /\ to_be 8 (from_be l) = l) as Hw8.
  { intros l Hl Hn. pose proof (from_be_range l Hl) as Hr. unfold blen in Hr. rewrite Hn in Hr.
    split; [exact Hr|]. rewrite <- Hn. by apply to_be_from_be. }
  assert (forall l, Forall is_u8 l -> length l = 4%nat ->
            is_u32 (from_be l) /\ to_be 4 (from_be l) = l) as Hw4.
  { intros l Hl Hn. pose proof (from_be_range l Hl) as Hr. unfold blen in Hr. rewrite Hn in Hr.
    split; [exact Hr|]. rewrite <- Hn. by apply to_be_from_be. }
  destruct (Hw8 [z3; z4; z5; z6; z7; z8; z9; z10]) as [? ->]; [by rewrite !Forall_cons|done|].
  destruct (Hw4 [z11; z12; z13; z14]) as [? ->]; [by rewrite !Forall_cons|done|].
  destruct (Hw8 [z15; z16; z17; z18; z19; z20; z21; z22]) as [? ->]; [by rewrite !Forall_cons|done|].
  done.
Qed.

Lemma header_encode_inj h1 h2 :
  header_ok h1 -> header_ok h2 -> header_encode h1 = header_encode h2 -> h1 = h2.
Proof.
  intros H1 H2 E. apply (f_equal header_parse) in E.
  rewrite !header_parse_encode in E by done. by injection E.
Qed.

Lemma build_nonce_inj g1 q1 g2 q2 :
  is_u32 g1 -> is_u32 g2 -> is_u64 q1 -> is_u64 q2 ->
  build_nonce g1 q1 = build_nonce g2 q2 -> g1 = g2 /\ q1 = q2.
Proof.
  intros Hg1 Hg2 Hq1 Hq2 E. rewrite !build_nonce_eq in E.
  apply app_inj_1 in E as [Eg Eq]; [|by rewrite !to_be_length].
  split; [by apply (to_be_inj 4)|by apply (to_be_inj 8)].
Qed.

(** The HKDF info string separates label and context: distinct pairs never collide. *)
Lemma export_info_inj l1 c1 l2 c2 :
  blen l1 <= u32_max -> blen l2 <= u32_max -> blen c1 <= u32_max -> blen c2 <= u32_max ->
  export_info l1 c1 = export_info l2 c2 -> l1 = l2 /\ c1 = c2.
Proof.
  unfold u32_max. intros H1 H2 H3 H4 E. unfold export_info in E.
  pose proof (blen_nonneg l1). pose proof (blen_nonneg l2).
  apply app_inj_1 in E as [El E]; [|by rewrite !to_be_length].
  apply (to_be_inj 4) in El; [|cbn; lia..].
  apply app_inj_1 in E as [-> E]; [|unfold blen in *; lia].
  by apply app_inj_1 in E as [_ ->]; [|by rewrite !to_be_length].
Qed.

(** The 24-byte frame header round-trips, and [parse] accepts only canonical headers:
    a parsed header re-encodes to the very bytes it was read from, so the AAD the receiver
    rebuilds is the AAD that was received. *)
Lemma frame_header_roundtrip h b :
  header_ok h -> length b = 24%nat -> bytes_ok b ->
  header_parse (header_encode h) = Ok h /\
  (header_parse b = Ok h <-> header_encode h = b).
Proof.
  intros Hh Hl Hb. split; [by apply header_parse_encode|]. split.
  - intros Hp. by apply header_parse_canonical.
  - intros <-. by apply header_parse_encode.
Qed.

Lemma frame_header_roundtrip_witness :
  let h := {| fh_channel := File; fh_direction := R2I; fh_epoch := 258;
              fh_generation := 7; fh_seq := 2 ^ 40 |} in
  header_ok h /\ header_parse (header_encode h) = Ok h.
Proof.
  intros h. assert (header_ok h) as Hh by (cbv; repeat split; discriminate || reflexivity).
  assert (bytes_ok (header_encode h)) as Hb
    by (repeat (apply Forall_cons_2; [cbv; split; [discriminate|reflexivity]|]); constructor).
  split; [exact Hh|].
  exact (proj1 (frame_header_roundtrip h (header_encode h) Hh (header_encode_length h) Hb)).
Defined.
