(* ===== verification/Handshake.v ===== *)
(** * sh-crypto: the Noise handshake driver

    The handshake half of [crates/sh-crypto/src/noise.rs]: the prologue, the message at which
    each side sends and expects the binding certificate, the constructors, [write_message],
    [read_message] and [complete].  The Noise state machine itself is the [snow] crate: it is
    the class [Snow], with [SnowLaws] stating what the protocol guarantees to two honest
    sides (each message decrypts to its payload, the transmitted statics are reported, both
    reach the same handshake hash).  The operating system's randomness for an ephemeral key
    is an argument of [write_message], the clock is an argument of [read_message]. *)

From stdpp Require Import base numbers list option strings.
From S2P Require Import Prelude CryptoTypes Identity BindCert ChannelFrame.

Definition PATTERN_ID_XK : Z := 1.
Definition PATTERN_ID_IK : Z := 2.
Definition SUITE_ID_25519_CHACHA_SHA256 : Z := 1.
Definition SHP_VERSION : Z := 1.
Definition PROLOGUE_VERSION : Z := 1.
Definition PROLOGUE_TAG : bytes := lit "SHP-NOISE" ++ [0].

Inductive NoisePattern := Xk | Ik.

#[global] Instance NoisePattern_eq_dec : EqDecision NoisePattern.
Proof. solve_decision. Defined.

Definition build_prologue (pattern_id : Z) (session_context : bytes) : bytes :=
  PROLOGUE_TAG ++ [PROLOGUE_VERSION] ++ [pattern_id] ++ [SUITE_ID_25519_CHACHA_SHA256]
  ++ to_be 2 SHP_VERSION ++ to_be 4 (blen session_context) ++ session_context.

Definition send_bind_cert_at (role : HandshakeRole) (pattern : NoisePattern) : Z :=
  match pattern, role with
  | Xk, Initiator => 2
  | Xk, Responder => 1
  | Ik, Initiator => 0
  | Ik, Responder => 1
  end.

Definition receive_bind_cert_at (role : HandshakeRole) (pattern : NoisePattern) : Z :=
  match pattern, role with
  | Xk, Initiator => 1
  | Xk, Responder => 2
  | Ik, Initiator => 1
  | Ik, Responder => 0
  end.

Definition pattern_str (p : NoisePattern) : string :=
  match p with
  | Xk => "Noise_XK_25519_ChaChaPoly_SHA256"
  | Ik => "Noise_IK_25519_ChaChaPoly_SHA256"
  end.

Definition pattern_id (p : NoisePattern) : Z :=
  match p with Xk => PATTERN_ID_XK | Ik => PATTERN_ID_IK end.

(** ** The Noise state machine *)

Class Snow := {
  snow_state : Type;
  (** [x25519_dalek::PublicKey::from(&secret)] *)
  x25519_public : bytes -> bytes;
  snow_parse_ok : string -> bool;
  (** pattern, local private key, remote public key, prologue, initiator *)
  snow_build : string -> bytes -> option bytes -> bytes -> bool -> option snow_state;
  (** state, payload, randomness *)
  snow_write : snow_state -> bytes -> bytes -> snow_state * option bytes;
  snow_read : snow_state -> bytes -> snow_state * option bytes;
  snow_finished : snow_state -> bool;
  snow_remote_static : snow_state -> option bytes;
  snow_hash : snow_state -> bytes;
  snow_into_transport_ok : snow_state -> bool;
}.

(** The number of messages, and the number after which the initiator's static is known. *)
Definition messages (p : NoisePattern) : nat := match p with Xk => 3%nat | Ik => 2%nat end.
Definition static_sent (p : NoisePattern) : nat := match p with Xk => 3%nat | Ik => 1%nat end.

(** 65535 bytes per message, of which keys and tags take at most 96. *)
Definition SNOW_MAX_PAYLOAD : Z := 65535 - 96.

Class SnowLaws `{Snow} := {
  (** initiator and responder after [n] delivered messages, with their secrets *)
  snow_paired : NoisePattern -> bytes -> bytes -> nat -> snow_state -> snow_state -> Prop;
  snow_parse_known p : snow_parse_ok (pattern_str p) = true;
  x25519_public_len s : blen (x25519_public s) = 32;
  x25519_public_bytes s : bytes_ok (x25519_public s);
  snow_build_paired p si sr prologue :
    exists a b,
      snow_build (pattern_str p) si (Some (x25519_public sr)) prologue true = Some a /\
      snow_build (pattern_str p) sr None prologue false = Some b /\
      snow_paired p si sr 0 a b;
  snow_initiator_sends p si sr n a b payload e :
    snow_paired p si sr n a b -> Nat.even n = true -> (n < messages p)%nat ->
    blen payload <= SNOW_MAX_PAYLOAD ->
    exists a' m b', snow_write a payload e = (a', Some m) /\ snow_read b m = (b', Some payload) /\
                    snow_paired p si sr (S n) a' b';
  snow_responder_sends p si sr n a b payload e :
    snow_paired p si sr n a b -> Nat.even n = false -> (n < messages p)%nat ->
    blen payload <= SNOW_MAX_PAYLOAD ->
    exists b' m a', snow_write b payload e = (b', Some m) /\ snow_read a m = (a', Some payload) /\
                    snow_paired p si sr (S n) a' b';
  snow_initiator_static p si sr n a b :
    snow_paired p si sr n a b -> snow_remote_static a = Some (x25519_public sr);
  snow_responder_static p si sr n a b :
    snow_paired p si sr n a b -> (static_sent p <= n)%nat ->
    snow_remote_static b = Some (x25519_public si);
  snow_paired_done p si sr a b :
    snow_paired p si sr (messages p) a b ->
    snow_finished a = true /\ snow_finished b = true /\
    snow_into_transport_ok a = true /\ snow_into_transport_ok b = true /\
    snow_hash a = snow_hash b /\ blen (snow_hash a) = 32;
}.

Record HandshakeOutcome := {
  transport : NoiseSession;
  handshake_hash : bytes;
  peer_identity : DeviceIdentity;
  peer_bind_cert : BindCert;
  outcome_role : HandshakeRole;
  outcome_pattern : NoisePattern;
}.

Definition peer_dtls_pin (o : HandshakeOutcome) : option DtlsPin := dtls_pin (peer_bind_cert o).

Definition outcome_require_webrtc_dtls_pin (o : HandshakeOutcome) : result CryptoError bytes :=
  require_webrtc_dtls_pin (peer_bind_cert o).

Section Driver.
Context `{CP : CryptoPrims} `{SP : SigPrims} `{KP : !KeyPrims} `{SN : Snow}.

Record NoiseHandshake := {
  hs_state : snow_state;
  hs_role : HandshakeRole;
  hs_pattern : NoisePattern;
  send_at : Z;
  receive_at : Z;
  message_idx : Z;
  local_bind_cert : BindCert;
  local_ed25519_pub : bytes;
  hs_peer_bind_cert : option BindCert;
  hs_peer_identity : option DeviceIdentity;
  failed : bool;
}.

Definition build_snow_state (pattern : string) (local_static : bytes)
    (peer_static_pub : option bytes) (prologue : bytes) (initiator : bool)
    : result CryptoError snow_state :=
  if negb (snow_parse_ok pattern)
  then Err (HandshakeFailed "failed to parse Noise pattern string") else
  ok_or (snow_build pattern local_static peer_static_pub prologue initiator)
        (HandshakeFailed (if initiator then "snow build_initiator failed"
                          else "snow build_responder failed")).

Section Construct.
Context {K : Type} `{KS : Keystore K}.

Definition make_bind_cert (keystore : K) (local_static_pub : bytes)
    (dtls_commitment : option DtlsCommitment) (now : Z) : result CryptoError BindCert :=
  let builder := with_valid_for_secs (with_noise_static (builder_new keystore) local_static_pub)
                                     BIND_CERT_VALIDITY_SECS in
  let builder := match dtls_commitment with
                 | Some commitment => with_dtls_commitment builder commitment
                 | None => builder
                 end in
  bind_cert_build builder now.

Definition new_inner (keystore : K) (local_static : bytes) (peer_static_pub : option bytes)
    (session_context : bytes) (dtls_commitment : option DtlsCommitment) (now : Z)
    (pattern : NoisePattern) (role : HandshakeRole) : result CryptoError NoiseHandshake :=
  let local_pub_bytes := x25519_public local_static in
  let prologue := build_prologue (pattern_id pattern) session_context in
  let initiator := bool_decide (role = Initiator) in
  let? state := build_snow_state (pattern_str pattern) local_static peer_static_pub prologue
                                 initiator in
  let? cert := make_bind_cert keystore local_pub_bytes dtls_commitment now in
  let? identity := ks_device_identity keystore in
  Ok {| hs_state := state; hs_role := role; hs_pattern := pattern;
        send_at := send_bind_cert_at role pattern;
        receive_at := receive_bind_cert_at role pattern;
        message_idx := 0;
        local_bind_cert := cert;
        local_ed25519_pub := public_key_bytes identity;
        hs_peer_bind_cert := None; hs_peer_identity := None; failed := false |}.

Definition initiator_xk (ks : K) (local_static peer_static_pub ctx : bytes) (now : Z) :=
  new_inner ks local_static (Some peer_static_pub) ctx None now Xk Initiator.
Definition initiator_xk_with_dtls (ks : K) (local_static peer_static_pub ctx : bytes)
    (dtls : DtlsCommitment) (now : Z) :=
  new_inner ks local_static (Some peer_static_pub) ctx (Some dtls) now Xk Initiator.
Definition responder_xk (ks : K) (local_static ctx : bytes) (now : Z) :=
  new_inner ks local_static None ctx None now Xk Responder.
Definition responder_xk_with_dtls (ks : K) (local_static ctx : bytes) (dtls : DtlsCommitment)
    (now : Z) :=
  new_inner ks local_static None ctx (Some dtls) now Xk Responder.
Definition initiator_ik (ks : K) (local_static peer_static_pub ctx : bytes) (now : Z) :=
  new_inner ks local_static (Some peer_static_pub) ctx None now Ik Initiator.
Definition initiator_ik_with_dtls (ks : K) (local_static peer_static_pub ctx : bytes)
    (dtls : DtlsCommitment) (now : Z) :=
  new_inner ks local_static (Some peer_static_pub) ctx (Some dtls) now Ik Initiator.
Definition responder_ik (ks : K) (local_static ctx : bytes) (now : Z) :=
  new_inner ks local_static None ctx None now Ik Responder.
Definition responder_ik_with_dtls (ks : K) (local_static ctx : bytes) (dtls : DtlsCommitment)
    (now : Z) :=
  new_inner ks local_static None ctx (Some dtls) now Ik Responder.
End Construct.

Definition ABORTED : CryptoError := HandshakeFailed "handshake already aborted".

(** Updates of the mutable fields: the snow state, the message index, the peer, the flag. *)
Definition hs_set (h : NoiseHandshake) (st : snow_state) (idx : Z)
    (peer : option (DeviceIdentity * BindCert)) (fl : bool) : NoiseHandshake :=
  {| hs_state := st; hs_role := hs_role h; hs_pattern := hs_pattern h; send_at := send_at h;
     receive_at := receive_at h; message_idx := idx; local_bind_cert := local_bind_cert h;
     local_ed25519_pub := local_ed25519_pub h;
     hs_peer_bind_cert := match peer with Some (_, c) => Some c | None => hs_peer_bind_cert h end;
     hs_peer_identity := match peer with Some (i, _) => Some i | None => hs_peer_identity h end;
     failed := fl |}.

Definition write_message (h : NoiseHandshake) (rng : bytes)
    : NoiseHandshake * result CryptoError bytes :=
  if failed h then (h, Err ABORTED) else
  let payload := if message_idx h =? send_at h
                 then local_ed25519_pub h ++ bind_cert_encode (local_bind_cert h) else [] in
  match snow_write (hs_state h) payload rng with
  | (st, None) => (hs_set h st (message_idx h) None true,
                   Err (HandshakeFailed "snow write_message failed"))
  | (st, Some buf) => (hs_set h st (sat_add u8_max (message_idx h) 1) None false, Ok buf)
  end.

Definition get_remote_static_now (h : NoiseHandshake) : result CryptoError bytes :=
  let? s := ok_or (snow_remote_static (hs_state h))
                  (HandshakeFailed "remote static not available yet at BindCert receive time") in
  if negb (blen s =? 32) then Err (HandshakeFailed "remote static is not 32 bytes") else Ok s.

(** The peer found in the payload, if one is expected at this index. *)
Definition read_message_bind_cert (h : NoiseHandshake) (payload_buf : bytes) (now : Z)
    : result CryptoError (option (DeviceIdentity * BindCert)) :=
  if message_idx h =? receive_at h then
    let? pubkey_bytes := ok_or (get_range payload_buf 0 32)
      (MalformedBindCert "BindCert payload too short for Ed25519 pubkey prefix") in
    let? bind_cert_wire := ok_or (get_from payload_buf 32)
      (MalformedBindCert "BindCert payload too short after Ed25519 pubkey prefix") in
    let? peer := from_public_key_bytes pubkey_bytes in
    let? cert := bind_cert_decode bind_cert_wire in
    let? live_static := get_remote_static_now h in
    let? _ := bind_cert_verify cert peer live_static now in
    Ok (Some (peer, cert))
  else Ok None.

Definition read_message (h : NoiseHandshake) (msg : bytes) (now : Z)
    : NoiseHandshake * result CryptoError unit :=
  if failed h then (h, Err ABORTED) else
  match snow_read (hs_state h) msg with
  | (st, None) =>
      (hs_set h st (message_idx h) None true,
       Err (HandshakeFailed "snow read_message failed (MAC failure or state error)"))
  | (st, Some payload) =>
      let h := hs_set h st (message_idx h) None false in
      match read_message_bind_cert h payload now with
      | Err e => (hs_set h st (message_idx h) None true, Err e)
      | Ok peer => (hs_set h st (sat_add u8_max (message_idx h) 1) peer false, Ok tt)
      end
  end.

Definition is_finished (h : NoiseHandshake) : bool :=
  negb (failed h) && snow_finished (hs_state h).

Definition complete {K : Type} `{Keystore K} (h : NoiseHandshake) (keystore : K)
    : result CryptoError HandshakeOutcome :=
  if failed h then Err ABORTED else
  if negb (snow_finished (hs_state h)) then Err (HandshakeFailed "handshake not yet complete") else
  let? peer := ok_or (hs_peer_identity h)
                     (HandshakeFailed "peer BindCert was never received or verified") in
  let? cert := ok_or (hs_peer_bind_cert h)
                     (HandshakeFailed "peer BindCert was never received or verified") in
  let? trusted := ks_is_trusted keystore peer in
  if negb trusted then Err UntrustedPeer else
  let hash := snow_hash (hs_state h) in
  if negb (blen hash =? 32)
  then Err (HandshakeFailed "handshake hash is not 32 bytes (expected SHA-256)") else
  if negb (snow_into_transport_ok (hs_state h))
  then Err (HandshakeFailed "snow into_transport_mode failed") else
  Ok {| transport := noise_new hash; handshake_hash := hash; peer_identity := peer;
        peer_bind_cert := cert; outcome_role := hs_role h; outcome_pattern := hs_pattern h |}.
End Driver.

(** ** Runs of one side

    Any sequence of writes and reads, with whatever bytes the network delivers. *)

Inductive HsOp := HsWrite (rng : bytes) | HsRead (msg : bytes) (now : Z).

Section Runs.
Context `{CP : CryptoPrims} `{SP : SigPrims} `{KP : !KeyPrims} `{SN : Snow}.

Definition hs_step (h : NoiseHandshake) (op : HsOp) : NoiseHandshake * bool :=
  match op with
  | HsWrite rng => let '(h', r) := write_message h rng in (h', is_ok r)
  | HsRead msg now => let '(h', r) := read_message h msg now in (h', is_ok r)
  end.

Definition hs_run (h : NoiseHandshake) (ops : list HsOp) : NoiseHandshake * list bool :=
  fold_left (fun '(h, oks) op => let '(h', ok) := hs_step h op in (h', oks ++ [ok])) ops (h, []).

Lemma hs_run_snoc h ops op :
  hs_run h (ops ++ [op]) =
    let '(h1, oks) := hs_run h ops in let '(h2, ok) := hs_step h1 op in (h2, oks ++ [ok]).
Proof. unfold hs_run. rewrite fold_left_app. cbn. by destruct (fold_left _ _ _). Qed.

(** What [read_message] established when it accepted a peer: the payload decrypted from the
    message is a key followed by a certificate, and the certificate passed every check
    against the static key the peer used in this handshake. *)
Definition verified_at (before after : NoiseHandshake) (msg : bytes) (now : Z)
    (id : DeviceIdentity) (c : BindCert) : Prop :=
  exists pk wire live,
    snow_read (hs_state before) msg = (hs_state after, Some (pk ++ wire)) /\ blen pk = 32 /\
    from_public_key_bytes pk = Ok id /\ bind_cert_decode wire = Ok c /\
    snow_remote_static (hs_state after) = Some live /\ bind_cert_verify c id live now = Ok tt.

Lemma read_message_bind_cert_Some h payload now id c :
  read_message_bind_cert h payload now = Ok (Some (id, c)) ->
  message_idx h = receive_at h /\
  exists pk wire live, payload = pk ++ wire /\ blen pk = 32 /\ from_public_key_bytes pk = Ok id /\
    bind_cert_decode wire = Ok c /\ snow_remote_static (hs_state h) = Some live /\
    bind_cert_verify c id live now = Ok tt.
Proof.
  unfold read_message_bind_cert. destruct (Z.eqb_spec (message_idx h) (receive_at h)) as [Hi|]; [|done].
  destruct (get_range payload 0 32) as [pk|] eqn:Ep; [|done]. cbn [ok_or].
  destruct (get_range_Some _ _ _ _ Ep) as (_ & Hl & Hpk & Eq).
  destruct (get_from payload 32) as [wire|] eqn:Ew; [|done]. cbn [ok_or].
  rewrite get_from_drop in Ew by lia. injection Ew as <-.
  destruct (from_public_key_bytes pk) as [id'|] eqn:Eid; [|done].
  destruct (bind_cert_decode _) as [c'|] eqn:Ec; [|done].
  unfold get_remote_static_now. destruct (snow_remote_static _) as [s|] eqn:Es; [|done]. cbn [ok_or].
  destruct (negb _); [done|]. destruct (bind_cert_verify _ _ _ _) as [[]|] eqn:Ev; [|done].
  intros [= <- <-]. split; [done|]. exists pk, (drop (Z.to_nat 32) payload), s.
  split_and!; try done; lia.
Qed.

Record hs_inv (h0 : NoiseHandshake) (ops : list HsOp) (h : NoiseHandshake) (oks : list bool)
    : Prop := {
  hi_run : hs_run h0 ops = (h, oks);
  hi_role : hs_role h = hs_role h0;
  hi_pattern : hs_pattern h = hs_pattern h0;
  hi_send : send_at h = send_at h0;
  hi_receive : receive_at h = receive_at h0;
  hi_live : failed h = false ->
    Forall (fun b => b = true) oks /\ message_idx h = Z.min 255 (Z.of_nat (length ops));
  hi_peer id c : hs_peer_identity h = Some id -> hs_peer_bind_cert h = Some c ->
    let i := Z.to_nat (receive_at h0) in
    exists msg now, ops !! i = Some (HsRead msg now) /\
      verified_at (fst (hs_run h0 (take i ops))) (fst (hs_run h0 (take (S i) ops))) msg now id c;
}.

Lemma hs_inv_nil h0 :
  failed h0 = false -> message_idx h0 = 0 -> hs_peer_identity h0 = None -> hs_inv h0 [] h0 [].
Proof. intros Hf Hm Hp. split; try done; intros; congruence. Qed.

Lemma hs_peer_snoc h0 ops op h id c :
  let i := Z.to_nat (receive_at h0) in
  (exists msg now, ops !! i = Some (HsRead msg now) /\
     verified_at (fst (hs_run h0 (take i ops))) (fst (hs_run h0 (take (S i) ops))) msg now id c) ->
  hs_peer_identity h = Some id -> hs_peer_bind_cert h = Some c ->
  exists msg now, (ops ++ [op]) !! i = Some (HsRead msg now) /\
     verified_at (fst (hs_run h0 (take i (ops ++ [op])))) (fst (hs_run h0 (take (S i) (ops ++ [op]))))
       msg now id c.
Proof.
  intros i (msg & now & Hi & Hv) _ _. pose proof (lookup_lt_Some _ _ _ Hi) as Hlt. exists msg, now.
  rewrite lookup_app_l by done. rewrite !take_app_le by lia. done.
Qed.

Lemma hs_inv_step h0 ops h oks op h' ok :
  0 <= receive_at h0 < 255 ->
  hs_inv h0 ops h oks -> hs_step h op = (h', ok) -> hs_inv h0 (ops ++ [op]) h' (oks ++ [ok]).
Proof.
  intros Hr [Hrun Hro Hpa Hse Hre Hli Hpe] Hs.
  assert (hs_run h0 (ops ++ [op]) = (h', oks ++ [ok])) as Hrun' by (by rewrite hs_run_snoc, Hrun, Hs).
  destruct op as [rng|msg now]; cbn [hs_step] in Hs.
  - unfold write_message in Hs. destruct (failed h) eqn:Ef.
    { injection Hs as <- <-. split; try done; [congruence|]. intros. by eapply hs_peer_snoc; eauto. }
    destruct (snow_write _ _ _) as [st [buf|]]; injection Hs as <- <-; (split; try done).
    + intros _. destruct (Hli eq_refl) as [Hf Hm]. cbn [hs_set message_idx is_ok].
      split; [by apply Forall_app_2, Forall_cons_2|]. rewrite Hm, length_app. unfold sat_add, u8_max. cbn [length]. lia.
    + intros. by eapply hs_peer_snoc; eauto.
    + intros. by eapply hs_peer_snoc; eauto.
  - unfold read_message in Hs. destruct (failed h) eqn:Ef.
    { injection Hs as <- <-. split; try done; [congruence|]. intros. by eapply hs_peer_snoc; eauto. }
    destruct (snow_read _ _) as [st [buf|]] eqn:Esn.
    2:{ injection Hs as <- <-. split; try done. intros. by eapply hs_peer_snoc; eauto. }
    destruct (read_message_bind_cert _ _ _) as [peer|e] eqn:Erb.
    2:{ injection Hs as <- <-. split; try done. intros. by eapply hs_peer_snoc; eauto. }
    destruct (Hli eq_refl) as [Hf Hm]. injection Hs as <- <-. split; try done.
    + intros _. cbn [hs_set message_idx is_ok].
      split; [by apply Forall_app_2, Forall_cons_2|]. rewrite Hm, length_app. unfold sat_add, u8_max. cbn [length]. lia.
    + cbn [hs_set hs_peer_identity hs_peer_bind_cert]. destruct peer as [[id' c']|].
      2:{ intros. eapply (hs_peer_snoc _ _ _ h); eauto. }
      intros id c [= <-] [= <-]. apply read_message_bind_cert_Some in Erb as (Hi & pk & wire & live & -> & Hpk & Hid & Hc & Hst & Hv).
      cbn [hs_set message_idx receive_at hs_state] in Hi, Hst.
      assert (Z.to_nat (receive_at h0) = length ops) as -> by lia. exists msg, now.
      rewrite list_lookup_middle by done. split; [done|].
      rewrite take_app_length, (take_ge (ops ++ _)) by (rewrite length_app; cbn; lia).
      rewrite Hrun, Hrun'. exists pk, wire, live. done.
Qed.

Lemma hs_inv_run h0 ops h oks :
  0 <= receive_at h0 < 255 -> failed h0 = false -> message_idx h0 = 0 -> hs_peer_identity h0 = None ->
  hs_run h0 ops = (h, oks) -> hs_inv h0 ops h oks.
Proof.
  intros Hr Hf Hm Hp. revert h oks. induction ops as [|op ops IH] using rev_ind; intros h oks Hrun.
  - injection Hrun as <- <-. by apply hs_inv_nil.
  - rewrite hs_run_snoc in Hrun. destruct (hs_run h0 ops) as [h1 oks1] eqn:E1.
    destruct (hs_step h1 op) as [h2 ok] eqn:E2. injection Hrun as <- <-.
    eapply hs_inv_step; eauto.
Qed.

Lemma receive_at_small r p : 0 <= receive_bind_cert_at r p < 255.
Proof. destruct r, p; cbn; lia. Qed.

Lemma new_inner_fresh {K} `{KS : Keystore K} (ks : K) s ps ctx d now p r h :
  new_inner ks s ps ctx d now p r = Ok h ->
  failed h = false /\ message_idx h = 0 /\ hs_peer_identity h = None /\ hs_role h = r /\
  hs_pattern h = p /\ receive_at h = receive_bind_cert_at r p /\ send_at h = send_bind_cert_at r p.
Proof.
  unfold new_inner. repeat (case_match; [|done]). by intros [= <-].
Qed.

(** The certificate of a completed handshake's outcome is the one that was verified. *)
Lemma handshake_verified {K K'} `{KS : Keystore K} `{KS' : Keystore K'} (ks : K) (ks' : K')
    s ps ctx d now p r h0 ops h oks o :
  new_inner ks s ps ctx d now p r = Ok h0 ->
  hs_run h0 ops = (h, oks) -> complete h ks' = Ok o ->
  Forall (fun b => b = true) oks /\
  (exists msg now',
    let i := Z.to_nat (receive_bind_cert_at r p) in
    ops !! i = Some (HsRead msg now') /\
    verified_at (fst (hs_run h0 (take i ops))) (fst (hs_run h0 (take (S i) ops))) msg now'
      (peer_identity o) (peer_bind_cert o)) /\
  ks_is_trusted ks' (peer_identity o) = Ok true /\
  outcome_role o = r /\ outcome_pattern o = p /\
  blen (handshake_hash o) = 32 /\ transport o = noise_new (handshake_hash o).
Proof.
  intros Hn Hrun Hc. destruct (new_inner_fresh _ _ _ _ _ _ _ _ _ Hn) as (Hf & Hm & Hp & Hro & Hpa & Hre & _).
  pose proof (receive_at_small r p) as Hsm. rewrite <- Hre in Hsm.
  destruct (hs_inv_run h0 ops h oks Hsm Hf Hm Hp Hrun) as [_ Iro Ipa _ _ Ili Ipe].
  unfold complete in Hc. destruct (failed h) eqn:Ef; [done|].
  destruct (snow_finished (hs_state h)); [|done]. cbn [negb] in Hc.
  destruct (hs_peer_identity h) as [id|] eqn:Eid; [|done]. cbn [ok_or] in Hc.
  destruct (hs_peer_bind_cert h) as [c|] eqn:Ec; [|done]. cbn [ok_or] in Hc.
  destruct (ks_is_trusted ks' id) as [[]|] eqn:Et; [|done..]. cbn [negb] in Hc.
  destruct (Z.eqb_spec (blen (snow_hash (hs_state h))) 32) as [Hh|]; [|done]. cbn [negb] in Hc.
  destruct (snow_into_transport_ok _); [|done]. cbn [negb] in Hc. injection Hc as <-.
  cbn [peer_identity peer_bind_cert outcome_role outcome_pattern handshake_hash transport].
  rewrite <- Hre. split_and!; try congruence; [by apply Ili|by apply Ipe].
Qed.

(** C2. What a completed handshake guarantees, whatever the network delivered: no step
    failed; the certificate of the reported peer was read at the message the role and pattern
    prescribe, it decodes from that message's decrypted payload next to the peer's key, and
    it was signed by that key for the static key of this very handshake and valid at that
    time; the key store trusts the peer; the session keys are derived from the handshake
    hash. *)
Theorem handshake_authenticates {K} `{KS : Keystore K} (ks ks' : K) s ps ctx d now p r h0 ops h oks o :
  new_inner ks s ps ctx d now p r = Ok h0 ->
  hs_run h0 ops = (h, oks) -> complete h ks' = Ok o ->
  Forall (fun b => b = true) oks /\
  (exists msg now',
    let i := Z.to_nat (receive_bind_cert_at r p) in
    ops !! i = Some (HsRead msg now') /\
    verified_at (fst (hs_run h0 (take i ops))) (fst (hs_run h0 (take (S i) ops))) msg now'
      (peer_identity o) (peer_bind_cert o)) /\
  ks_is_trusted ks' (peer_identity o) = Ok true /\
  outcome_role o = r /\ outcome_pattern o = p /\
  blen (handshake_hash o) = 32 /\ transport o = noise_new (handshake_hash o).
Proof. by eapply handshake_verified. Qed.
End Runs.

(** ** Two honest sides *)

Section Honest.
Context `{CP : CryptoPrims} `{SP : SigPrims} `{KP : !KeyPrims} `{SN : Snow} `{SNL : !SnowLaws}.

(** [n] messages in turn, each delivered unchanged; message number [k] from the end uses the
    randomness [es k] and is read at time [ts k]. *)
Fixpoint hs_exchange (n : nat) (initiator_turn : bool) (es : nat -> bytes) (ts : nat -> Z)
    (hi hr : NoiseHandshake) : option (NoiseHandshake * NoiseHandshake) :=
  match n with
  | O => Some (hi, hr)
  | S n' =>
      if initiator_turn then
        match write_message hi (es n) with
        | (hi', Ok m) => match read_message hr m (ts n) with
                         | (hr', Ok _) => hs_exchange n' false es ts hi' hr'
                         | _ => None
                         end
        | _ => None
        end
      else
        match write_message hr (es n) with
        | (hr', Ok m) => match read_message hi m (ts n) with
                         | (hi', Ok _) => hs_exchange n' true es ts hi' hr'
                         | _ => None
                         end
        | _ => None
        end
  end.

(** One side after [n] messages: its own certificate and identity, and the peer's once read. *)
Record side (h : NoiseHandshake) (r : HandshakeRole) (p : NoisePattern) (n : Z)
    (own : DeviceIdentity * BindCert) (peer : DeviceIdentity * BindCert) : Prop := {
  sd_role : hs_role h = r; sd_pattern : hs_pattern h = p;
  sd_send : send_at h = send_bind_cert_at r p; sd_recv : receive_at h = receive_bind_cert_at r p;
  sd_idx : message_idx h = n; sd_cert : local_bind_cert h = snd own;
  sd_key : local_ed25519_pub h = verifying_key (fst own); sd_live : failed h = false;
  sd_peer : receive_bind_cert_at r p < n ->
    hs_peer_identity h = Some (fst peer) /\ hs_peer_bind_cert h = Some (snd peer);
}.

Definition payload_of (r : HandshakeRole) (p : NoisePattern) (n : Z)
    (own : DeviceIdentity * BindCert) : bytes :=
  if n =? send_bind_cert_at r p then verifying_key (fst own) ++ bind_cert_encode (snd own) else [].

(** A peer whose key and certificate [read_message] accepts at time [t]. *)
Record good_peer (peer : DeviceIdentity * BindCert) (static : bytes) (t : Z) : Prop := {
  gp_id : from_public_key_bytes (verifying_key (fst peer)) = Ok (fst peer);
  gp_len : blen (verifying_key (fst peer)) = 32;
  gp_wire : bind_cert_decode (bind_cert_encode (snd peer)) = Ok (snd peer);
  gp_verify : bind_cert_verify (snd peer) (fst peer) static t = Ok tt;
}.

Lemma write_ok h r p n own peer rng st m :
  side h r p n own peer -> n <> receive_bind_cert_at r p -> n < 255 ->
  snow_write (hs_state h) (payload_of r p n own) rng = (st, Some m) ->
  exists h', write_message h rng = (h', Ok m) /\ hs_state h' = st /\ side h' r p (n + 1) own peer.
Proof.
  intros [] Hne Hlt Hw. unfold write_message. rewrite sd_live0, sd_idx0, sd_send0, sd_cert0, sd_key0.
  unfold payload_of in Hw. rewrite Hw. eexists. split; [done|]. split; [done|].
  split; try done; cbn [hs_set message_idx hs_peer_identity hs_peer_bind_cert].
  - unfold sat_add, u8_max. lia.
  - intros. apply sd_peer0. lia.
Qed.

Lemma read_ok h r p n own peer msg now st payload live :
  side h r p n own peer -> n < 255 -> snow_read (hs_state h) msg = (st, Some payload) ->
  (n = receive_bind_cert_at r p ->
    payload = verifying_key (fst peer) ++ bind_cert_encode (snd peer) /\
    snow_remote_static st = Some live /\ blen live = 32 /\ good_peer peer live now) ->
  exists h', read_message h msg now = (h', Ok tt) /\ hs_state h' = st /\ side h' r p (n + 1) own peer.
Proof.
  intros [] Hlt Hr Hp. unfold read_message. rewrite sd_live0, Hr.
  unfold read_message_bind_cert. cbn [hs_set message_idx receive_at]. rewrite sd_idx0, sd_recv0.
  destruct (Z.eqb_spec n (receive_bind_cert_at r p)) as [E|E].
  - destruct (Hp E) as (-> & Hs & Hl & []). 
    rewrite (get_range_at _ [] (verifying_key (fst peer)) (bind_cert_encode (snd peer))) by (done || by rewrite gp_len0).
    rewrite (get_from_at _ (verifying_key (fst peer)) (bind_cert_encode (snd peer))) by done. cbn [ok_or].
    rewrite gp_id0, gp_wire0. unfold get_remote_static_now. cbn [hs_set hs_state]. rewrite Hs. cbn [ok_or].
    rewrite Hl, Z.eqb_refl. cbn [negb]. rewrite gp_verify0. destruct peer as [pid pc].
    eexists. split; [done|]. split; [done|].
    split; try done; cbn [hs_set message_idx]. unfold sat_add, u8_max. lia.
  - eexists. split; [done|]. split; [done|].
    split; try done; cbn [hs_set message_idx hs_peer_identity hs_peer_bind_cert].
    + unfold sat_add, u8_max. lia.
    + intros. apply sd_peer0. lia.
Qed.

Definition payload_small (own : DeviceIdentity * BindCert) : Prop :=
  blen (verifying_key (fst own) ++ bind_cert_encode (snd own)) <= SNOW_MAX_PAYLOAD.

Lemma payload_of_small r p n own : payload_small own -> blen (payload_of r p n own) <= SNOW_MAX_PAYLOAD.
Proof. unfold payload_small, payload_of, SNOW_MAX_PAYLOAD. case_match; [done|intros _; vm_compute; discriminate]. Qed.

(** Both sides after [n] messages. *)
Record hs_paired (p : NoisePattern) (si sr : bytes) (n : nat)
    (ini res : DeviceIdentity * BindCert) (hi hr : NoiseHandshake) : Prop := {
  hp_snow : snow_paired p si sr n (hs_state hi) (hs_state hr);
  hp_init : side hi Initiator p (Z.of_nat n) ini res;
  hp_resp : side hr Responder p (Z.of_nat n) res ini;
}.

(** Only the message that carries a certificate is one the peer expects to. *)
Lemma send_is_receive p :
  send_bind_cert_at Initiator p = receive_bind_cert_at Responder p /\
  send_bind_cert_at Responder p = receive_bind_cert_at Initiator p.
Proof. by destruct p. Qed.

Lemma initiator_step p si sr n ini res hi hr rng t :
  hs_paired p si sr n ini res hi hr -> Nat.even n = true -> (n < messages p)%nat ->
  payload_small ini -> good_peer ini (x25519_public si) t ->
  exists hi' m hr', write_message hi rng = (hi', Ok m) /\ read_message hr m t = (hr', Ok tt) /\
    hs_paired p si sr (S n) ini res hi' hr'.
Proof.
  intros [Hs Hi Hr] Hev Hn Hpl Hg.
  destruct (snow_initiator_sends p si sr n _ _ (payload_of Initiator p (Z.of_nat n) ini) rng Hs Hev Hn) as
    (a' & m & b' & Hw & Hrd & Hs'); [by apply payload_of_small|].
  destruct (write_ok hi Initiator p (Z.of_nat n) ini res rng a' m) as (hi' & Ew & Ei & Sd); [done|..|done|].
  { intros E. assert (n = 1%nat) as -> by (destruct p; cbn in E; lia). done. }
  { destruct p; cbn in *; lia. }
  destruct (read_ok hr Responder p (Z.of_nat n) res ini m t b' (payload_of Initiator p (Z.of_nat n) ini)
    (x25519_public si)) as (hr' & Er & Eh & Sr); [done| |done|..].
  { destruct p; cbn in *; lia. }
  { intros En. unfold payload_of. rewrite (proj1 (send_is_receive p)), <- En, Z.eqb_refl.
    split; [done|]. split; [|split; [apply x25519_public_len|done]].
    apply (snow_responder_static _ _ _ _ _ _ Hs'). destruct p; cbn in *; lia. }
  exists hi', m, hr'. split_and!; try done.
  split; [by rewrite Ei, Eh|..]; by replace (Z.of_nat (S n)) with (Z.of_nat n + 1) by lia.
Qed.

Lemma responder_step p si sr n ini res hi hr rng t :
  hs_paired p si sr n ini res hi hr -> Nat.even n = false -> (n < messages p)%nat ->
  payload_small res -> good_peer res (x25519_public sr) t ->
  exists hr' m hi', write_message hr rng = (hr', Ok m) /\ read_message hi m t = (hi', Ok tt) /\
    hs_paired p si sr (S n) ini res hi' hr'.
Proof.
  intros [Hs Hi Hr] Hev Hn Hpl Hg.
  destruct (snow_responder_sends p si sr n _ _ (payload_of Responder p (Z.of_nat n) res) rng Hs Hev Hn) as
    (b' & m & a' & Hw & Hrd & Hs'); [by apply payload_of_small|].
  destruct (write_ok hr Responder p (Z.of_nat n) res ini rng b' m) as (hr' & Ew & Ei & Sd); [done|..|done|].
  { intros E. assert (n = 2%nat \/ n = 0%nat) as [-> | ->] by (destruct p; cbn in E; lia); done. }
  { destruct p; cbn in *; lia. }
  destruct (read_ok hi Initiator p (Z.of_nat n) ini res m t a' (payload_of Responder p (Z.of_nat n) res)
    (x25519_public sr)) as (hi' & Er & Eh & Sr); [done| |done|..].
  { destruct p; cbn in *; lia. }
  { intros En. unfold payload_of. rewrite (proj2 (send_is_receive p)), <- En, Z.eqb_refl.
    split; [done|]. split; [|split; [apply x25519_public_len|done]].
    apply (snow_initiator_static _ _ _ _ _ _ Hs'). }
  exists hr', m, hi'. split_and!; try done.
  split; [by rewrite Ei, Eh|..]; by replace (Z.of_nat (S n)) with (Z.of_nat n + 1) by lia.
Qed.

Lemma exchange_paired p si sr ini res es ts :
  payload_small ini -> payload_small res ->
  (forall k, good_peer ini (x25519_public si) (ts k) /\ good_peer res (x25519_public sr) (ts k)) ->
  forall k n hi hr, (n + k = messages p)%nat -> hs_paired p si sr n ini res hi hr ->
  exists hi' hr', hs_exchange k (Nat.even n) es ts hi hr = Some (hi', hr') /\
    hs_paired p si sr (messages p) ini res hi' hr'.
Proof.
  intros Hpi Hpr Hg k. induction k as [|k IH]; intros n hi hr Hn Hp.
  { exists hi, hr. split; [done|]. by replace (messages p) with n by lia. }
  cbn [hs_exchange]. destruct (Nat.even n) eqn:Hev.
  - destruct (initiator_step p si sr n ini res hi hr (es (S k)) (ts (S k))) as (hi' & m & hr' & -> & -> & Hp');
      [done..|lia|done|apply Hg|].
    destruct (IH (S n) hi' hr') as (hi2 & hr2 & E & Hp2); [lia|done|]. exists hi2, hr2. split; [|done].
    rewrite <- E. f_equal. by rewrite Nat.even_succ, <- Nat.negb_even, Hev.
  - destruct (responder_step p si sr n ini res hi hr (es (S k)) (ts (S k))) as (hr' & m & hi' & -> & -> & Hp');
      [done..|lia|done|apply Hg|].
    destruct (IH (S n) hi' hr') as (hi2 & hr2 & E & Hp2); [lia|done|]. exists hi2, hr2. split; [|done].
    rewrite <- E. f_equal. by rewrite Nat.even_succ, <- Nat.negb_even, Hev.
Qed.

Definition dtls_ok (d : option DtlsCommitment) : Prop :=
  match d with
  | None => True
  | Some c => dc_alg c = DTLS_FPR_ALG_SHA256 /\ blen (dc_commit c) = 32 /\ bytes_ok (dc_commit c)
  end.

(** A key store in working order: it signs for an identity that is a usable public key. *)
Definition usable {K} `{Keystore K} (ks : K) (id : DeviceIdentity) : Prop :=
  signs_for ks id /\ from_public_key_bytes (verifying_key id) = Ok id /\
  blen (verifying_key id) = 32.

(** The certificate a side commits to, as its peer sees it. *)
Definition commits (c : BindCert) (d : option DtlsCommitment) : Prop :=
  match d with
  | None => dtls_fpr_alg (bc_fields c) = DTLS_FPR_ALG_NONE
  | Some dc => dtls_fpr_alg (bc_fields c) = DTLS_FPR_ALG_SHA256 /\
               dtls_fpr_commit (bc_fields c) = dc_commit dc
  end.

Context `{SL : !SigLaws}.

Lemma make_bind_cert_ok {K} `{KS : Keystore K} (ks : K) id s d now :
  usable ks id -> dtls_ok d -> i64_min <= now < i64_max - BIND_CERT_VALIDITY_SECS ->
  exists c, make_bind_cert ks (x25519_public s) d now = Ok c /\ payload_small (id, c) /\ commits c d /\
    forall t, now <= t < now + BIND_CERT_VALIDITY_SECS -> good_peer (id, c) (x25519_public s) t.
Proof.
  intros (Hs & Hid & Hl) Hd Hnow. unfold BIND_CERT_VALIDITY_SECS in *.
  set (b := match d with
            | Some dc => with_dtls_commitment (with_valid_for_secs (with_noise_static (builder_new ks) (x25519_public s)) 86400) dc
            | None => with_valid_for_secs (with_noise_static (builder_new ks) (x25519_public s)) 86400 end).
  destruct (bind_cert_build_ok b (x25519_public s) 86400 id now) as (c & Hb & Hw & Ha & Hc & Hsz & Hv).
  - by destruct d.
  - assert (blen (x25519_public s) = 32 /\ bytes_ok (x25519_public s)) as [? ?]
      by (split; [apply x25519_public_len|apply x25519_public_bytes]).
    unfold builder_ok, b, BIND_CERT_VALIDITY_SECS, MAX_PLATFORM_ATTEST_LEN. destruct d as [dc|]; cbn in Hd |- *.
    + split_and!; try done; try lia. by right. by constructor.
    + split_and!; try done; try lia. by left. by constructor.
  - unfold i64_min, i64_max in *. lia.
  - exists c. split; [by destruct d|]. split; [|split].
    + unfold payload_small, SNOW_MAX_PAYLOAD. cbn [fst snd]. rewrite blen_app, Hl. lia.
    + unfold commits. unfold b in Ha, Hc. destruct d as [dc|]; cbn in Ha, Hc, Hd; [|done].
      rewrite Ha, Hc. split; [apply Hd|done].
    + intros t Ht. split; try done. apply Hv. unfold i64_min, i64_max in *. lia.
Qed.

Lemma complete_side {K} `{KS : Keystore K} (ks : K) h r p own peer :
  side h r p (Z.of_nat (messages p)) own peer ->
  snow_finished (hs_state h) = true -> snow_into_transport_ok (hs_state h) = true ->
  blen (snow_hash (hs_state h)) = 32 -> ks_is_trusted ks (fst peer) = Ok true ->
  complete h ks = Ok {| transport := noise_new (snow_hash (hs_state h));
                        handshake_hash := snow_hash (hs_state h);
                        peer_identity := fst peer; peer_bind_cert := snd peer;
                        outcome_role := r; outcome_pattern := p |}.
Proof.
  intros [] Hf Ht Hh Htr. unfold complete. rewrite sd_live0, Hf. cbn [negb].
  destruct sd_peer0 as [-> ->]; [destruct r, p; cbn; lia|]. cbn [ok_or]. rewrite Htr. cbn [negb].
  rewrite Hh, Z.eqb_refl, Ht. cbn [negb]. by rewrite sd_role0, sd_pattern0.
Qed.

Lemma complete_transport {K} `{KS : Keystore K} (ks : K) h o :
  complete h ks = Ok o -> transport o = noise_new (handshake_hash o).
Proof. unfold complete. repeat (case_match; try done). by intros [= <-]. Qed.

Lemma new_inner_side {K} `{KS : Keystore K} (ks : K) id c s ps ctx d now p r st :
  ks_device_identity ks = Ok id -> make_bind_cert ks (x25519_public s) d now = Ok c ->
  snow_build (pattern_str p) s ps (build_prologue (pattern_id p) ctx) (bool_decide (r = Initiator)) = Some st ->
  exists h, new_inner ks s ps ctx d now p r = Ok h /\ hs_state h = st /\
    forall peer, side h r p 0 (id, c) peer.
Proof.
  intros Hid Hc Hb. unfold new_inner, build_snow_state. rewrite snow_parse_known. cbn [negb].
  rewrite Hb. cbn [ok_or]. rewrite Hc, Hid. eexists. split; [done|]. split; [done|].
  intros peer. split; try done. pose proof (receive_at_small r p). lia.
Qed.

(** The handshake of two usable key stores, up to [complete]. *)
Lemma honest_handshake {K K'} `{KS : Keystore K} `{KS' : Keystore K'} (p : NoisePattern)
    (ki : K) (kr : K') idi idr si sr ctx di dr now es ts :
  usable ki idi -> usable kr idr ->
  ks_is_trusted ki idr = Ok true -> ks_is_trusted kr idi = Ok true ->
  dtls_ok di -> dtls_ok dr ->
  i64_min <= now < i64_max - BIND_CERT_VALIDITY_SECS ->
  (forall k, now <= ts k < now + BIND_CERT_VALIDITY_SECS) ->
  exists hi hr hi' hr' oi or,
    new_inner ki si (Some (x25519_public sr)) ctx di now p Initiator = Ok hi /\
    new_inner kr sr None ctx dr now p Responder = Ok hr /\
    hs_exchange (messages p) true es ts hi hr = Some (hi', hr') /\
    is_finished hi' = true /\ is_finished hr' = true /\
    complete hi' ki = Ok oi /\ complete hr' kr = Ok or /\
    peer_identity oi = idr /\ peer_identity or = idi /\
    commits (peer_bind_cert oi) dr /\ commits (peer_bind_cert or) di /\
    handshake_hash oi = handshake_hash or /\ transport oi = transport or /\
    outcome_role oi = Initiator /\ outcome_role or = Responder.
Proof.
  intros Hui Hur Hti Htr Hdi Hdr Hnow Hts.
  destruct (make_bind_cert_ok ki idi si di now Hui Hdi Hnow) as (ci & Hci & Hpi & Hmi & Hgi).
  destruct (make_bind_cert_ok kr idr sr dr now Hur Hdr Hnow) as (cr & Hcr & Hpr & Hmr & Hgr).
  destruct (snow_build_paired p si sr (build_prologue (pattern_id p) ctx)) as (a & b & Ha & Hb & Hs).
  destruct Hui as ((Hidi & _) & _ & _), Hur as ((Hidr & _) & _ & _).
  destruct (new_inner_side ki idi ci si (Some (x25519_public sr)) ctx di now p Initiator a Hidi Hci Ha) as (hi & Ei & Si & Di).
  destruct (new_inner_side kr idr cr sr None ctx dr now p Responder b Hidr Hcr Hb) as (hr & Er & Sr & Dr).
  destruct (exchange_paired p si sr (idi, ci) (idr, cr) es ts Hpi Hpr) with (k := messages p) (n := 0%nat) (hi := hi) (hr := hr)
    as (hi' & hr' & Ex & [Ps Pi Pr]); [by auto|done|split; [by rewrite Si, Sr|done..]|].
  destruct (snow_paired_done _ _ _ _ _ Ps) as (Fi & Fr & Ti & Tr & Hh & Hl).
  pose proof (complete_side ki hi' Initiator p _ _ Pi Fi Ti Hl Hti) as Ci.
  rewrite Hh in Hl. pose proof (complete_side kr hr' Responder p _ _ Pr Fr Tr Hl Htr) as Cr.
  exists hi, hr, hi', hr'. eexists _, _. unfold is_finished.
  rewrite Fi, Fr, (sd_live _ _ _ _ _ _ Pi), (sd_live _ _ _ _ _ _ Pr).
  split_and!; try done; cbn [transport handshake_hash]; by rewrite Hh.
Qed.
End Honest.

(** ** A concrete Noise state machine

    Messages in the clear with the static key where the pattern sends it, and a checksum of
    the transcript as handshake hash: an instance of the class on which the theorems run. *)

Record toy_snow := {
  tn_initiator : bool;
  tn_pattern : NoisePattern;
  tn_secret : bytes;
  tn_remote : option bytes;
  tn_count : nat;
  tn_transcript : bytes;
}.

Definition toy_x25519 (s : bytes) : bytes := to_be 32 (toy_digest s).

(** The message at which the initiator transmits its static. *)
Definition toy_static_at (p : NoisePattern) (n : nat) : bool := (S n =? static_sent p)%nat.

Definition tn_advance (st : toy_snow) (remote : option bytes) (m : bytes) : toy_snow :=
  {| tn_initiator := tn_initiator st; tn_pattern := tn_pattern st; tn_secret := tn_secret st;
     tn_remote := remote; tn_count := S (tn_count st); tn_transcript := tn_transcript st ++ m |}.

Definition toy_turn (st : toy_snow) : bool :=
  Bool.eqb (Nat.even (tn_count st)) (tn_initiator st) &&
  (tn_count st <? messages (tn_pattern st))%nat.

Definition toy_snow_build (s : string) (sk : bytes) (rs : option bytes) (prologue : bytes)
    (initiator : bool) : option toy_snow :=
  let mk p := Some {| tn_initiator := initiator; tn_pattern := p; tn_secret := sk; tn_remote := rs;
                      tn_count := 0; tn_transcript := prologue |} in
  if bool_decide (s = pattern_str Xk) then mk Xk
  else if bool_decide (s = pattern_str Ik) then mk Ik else None.

Definition toy_snow_write (st : toy_snow) (payload rng : bytes) : toy_snow * option bytes :=
  if toy_turn st && (blen payload <=? SNOW_MAX_PAYLOAD) then
    let m := (if toy_static_at (tn_pattern st) (tn_count st) then toy_x25519 (tn_secret st) else [])
             ++ payload in
    (tn_advance st (tn_remote st) m, Some m)
  else (st, None).

Definition toy_snow_read (st : toy_snow) (m : bytes) : toy_snow * option bytes :=
  if negb (toy_turn st) && (tn_count st <? messages (tn_pattern st))%nat then
    if toy_static_at (tn_pattern st) (tn_count st)
    then (tn_advance st (Some (take 32 m)) m, Some (drop 32 m))
    else (tn_advance st (tn_remote st) m, Some m)
  else (st, None).

#[global] Instance toy_snow_instance : Snow := {|
  snow_state := toy_snow;
  x25519_public := toy_x25519;
  snow_parse_ok s := bool_decide (s = pattern_str Xk) || bool_decide (s = pattern_str Ik);
  snow_build := toy_snow_build;
  snow_write := toy_snow_write;
  snow_read := toy_snow_read;
  snow_finished st := (tn_count st =? messages (tn_pattern st))%nat;
  snow_remote_static st := tn_remote st;
  snow_hash st := to_be 32 (toy_digest (tn_transcript st));
  snow_into_transport_ok st := true;
|}.

Definition toy_initiator (p : NoisePattern) (si sr : bytes) (n : nat) (tr : bytes) : toy_snow :=
  {| tn_initiator := true; tn_pattern := p; tn_secret := si;
     tn_remote := Some (toy_x25519 sr); tn_count := n; tn_transcript := tr |}.

Definition toy_responder (p : NoisePattern) (si sr : bytes) (n : nat) (tr : bytes) : toy_snow :=
  {| tn_initiator := false; tn_pattern := p; tn_secret := sr;
     tn_remote := if (static_sent p <=? n)%nat then Some (toy_x25519 si) else None;
     tn_count := n; tn_transcript := tr |}.

Lemma toy_x25519_split s l :
  take 32 (toy_x25519 s ++ l) = toy_x25519 s /\ drop 32 (toy_x25519 s ++ l) = l.
Proof.
  assert (length (toy_x25519 s) = 32%nat) as E by apply to_be_length.
  split; [rewrite <- E at 1; apply take_app_length|rewrite <- E at 1; apply drop_app_length].
Qed.

(** The message counts at which the pattern sends the initiator's static. *)
Lemma toy_static_cases p n :
  (n < messages p)%nat -> toy_static_at p n = true -> Nat.even n = true.
Proof. destruct p; cbn; destruct n as [|[|[|n]]]; cbn; done || lia. Qed.

#[global] Instance toy_snow_laws : SnowLaws.
Proof.
  unshelve econstructor; [exact (fun p si sr n a b => exists tr,
    a = toy_initiator p si sr n tr /\ b = toy_responder p si sr n tr)|..];
  cbn [x25519_public snow_parse_ok snow_build snow_write snow_read snow_finished
       snow_remote_static snow_hash snow_into_transport_ok toy_snow_instance].
  - by intros [].
  - intros s. apply (blen_to_be 32).
  - intros s. apply to_be_ok.
  - intros p si sr pro. exists (toy_initiator p si sr 0 pro), (toy_responder p si sr 0 pro).
    split; [by destruct p|]. split; [by destruct p|]. by exists pro.
  - intros p si sr n a b payload e (tr & -> & ->) Hev Hn Hp.
    unfold toy_snow_write, toy_snow_read, toy_turn. cbn [tn_count tn_initiator tn_pattern toy_initiator toy_responder].
    rewrite Hev, (proj2 (Nat.ltb_lt _ _) Hn), (proj2 (Z.leb_le _ _) Hp). cbn [Bool.eqb andb negb].
    unfold toy_static_at. destruct (Nat.eqb_spec (S n) (static_sent p)) as [E|E];
      eexists _, _, _; (split; [reflexivity|]).
    + cbn [tn_secret toy_initiator]. destruct (toy_x25519_split si payload) as [-> ->]. split; [reflexivity|].
      eexists. split; [reflexivity|]. unfold tn_advance, toy_responder.
      cbn [tn_initiator tn_pattern tn_secret tn_count tn_transcript]. by rewrite E, Nat.leb_refl.
    + split; [reflexivity|]. eexists. split; [reflexivity|]. unfold tn_advance, toy_responder.
      cbn [tn_initiator tn_pattern tn_secret tn_remote tn_count tn_transcript app].
      f_equal. destruct (Nat.leb_spec (static_sent p) n), (Nat.leb_spec (static_sent p) (S n)); done || lia.
  - intros p si sr n a b payload e (tr & -> & ->) Hev Hn Hp.
    assert (toy_static_at p n = false) as Est.
    { destruct (toy_static_at p n) eqn:Es; [|done]. apply toy_static_cases in Es; [congruence|done]. }
    unfold toy_snow_write, toy_snow_read, toy_turn. cbn [tn_count tn_initiator tn_pattern toy_initiator toy_responder].
    rewrite Hev, (proj2 (Nat.ltb_lt _ _) Hn), (proj2 (Z.leb_le _ _) Hp), Est. cbn [Bool.eqb andb negb app].
    eexists _, _, _. split; [reflexivity|]. split; [reflexivity|]. eexists. split; [reflexivity|].
    unfold tn_advance, toy_responder. cbn [tn_initiator tn_pattern tn_secret tn_remote tn_count tn_transcript].
    f_equal. unfold toy_static_at in Est. apply Nat.eqb_neq in Est.
    destruct (Nat.leb_spec (static_sent p) n), (Nat.leb_spec (static_sent p) (S n)); done || lia.
  - by intros p si sr n a b (tr & -> & ->).
  - intros p si sr n a b (tr & -> & ->) Hn. cbn [tn_remote toy_responder].
    by rewrite (proj2 (Nat.leb_le _ _) Hn).
  - intros p si sr a b (tr & -> & ->). cbn [tn_count tn_pattern tn_transcript toy_initiator toy_responder].
    rewrite Nat.eqb_refl. split_and!; done || apply (blen_to_be 32).
Defined.

(** *** A run on the concrete instance *)

Definition toy_host : SoftwareKeystore := fst (sw_trust_peer (toy_ks 8) (identity (toy_ks 9))).
Definition toy_client : SoftwareKeystore := fst (sw_trust_peer (toy_ks 9) (identity (toy_ks 8))).

Lemma toy_usable n : n = 8 \/ n = 9 ->
  usable (if n =? 8 then toy_host else toy_client) (identity (toy_ks n)).
Proof.
  intros Hn. assert (forall ks, sw_wf ks -> usable ks (identity ks)) as U.
  { intros ks Hw. split; [by apply software_signs_for|]. rewrite Hw. cbn [verifying_key identity_from_verifying_key].
    split; [apply from_public_key_bytes_public|apply ed25519_public_len]. }
  destruct Hn as [-> | ->]; [exact (U toy_host eq_refl)|exact (U toy_client eq_refl)].
Qed.

Definition toy_dtls : option DtlsCommitment := Some (dtls_commitment_sha256 (to_be 32 99)).

(** The initiator's side of one XK run, and the responder's answer in it. *)
Definition toy_hi : result CryptoError NoiseHandshake :=
  initiator_xk toy_client [1] (toy_x25519 [2]) [] 1000.

Definition toy_m1 : bytes :=
  match toy_hi, responder_xk_with_dtls toy_host [2] [] (dtls_commitment_sha256 (to_be 32 99)) 1000 with
  | Ok hi, Ok hr =>
      match snd (write_message hi []) with
      | Ok m0 => default [] (ok (snd (write_message (fst (read_message hr m0 1001)) [])))
      | Err _ => []
      end
  | _, _ => []
  end.

Definition toy_hs_ops : list HsOp := [HsWrite []; HsRead toy_m1 1002; HsWrite []].

Lemma handshake_authenticates_witness :
  exists h0 h oks o,
    toy_hi = Ok h0 /\ hs_run h0 toy_hs_ops = (h, oks) /\ complete h toy_client = Ok o /\
    outcome_require_webrtc_dtls_pin o = Ok (to_be 32 99) /\
    ks_is_trusted toy_client (peer_identity o) = Ok true.
Proof.
  assert (match toy_hi with
          | Ok h0 => match complete (fst (hs_run h0 toy_hs_ops)) toy_client with
                     | Ok o => outcome_require_webrtc_dtls_pin o = Ok (to_be 32 99)
                     | Err _ => False
                     end
          | Err _ => False end) as Hc by (vm_compute; reflexivity).
  destruct toy_hi as [h0|] eqn:E0; [|destruct Hc].
  destruct (hs_run h0 toy_hs_ops) as [h oks] eqn:E1. cbn [fst] in Hc.
  destruct (complete h toy_client) as [o|] eqn:E2; [|destruct Hc].
  exists h0, h, oks, o. split; [exact eq_refl|]. split; [exact E1|]. split; [exact E2|]. split; [exact Hc|].
  exact (proj1 (proj2 (proj2 (handshake_authenticates toy_client toy_client [1] (Some (toy_x25519 [2]))
    [] None 1000 Xk Initiator h0 toy_hs_ops h oks o E0 E1 E2)))).
Defined.
