(* ===== verification/ChannelSession.v ===== *)
(** * sh-crypto: what a [SessionKeys] guarantees over its life

    The session invariant, its preservation by every operation, and the guarantees the
    module header of [channel_crypto.rs] promises: no nonce reuse, no replay, a failed
    [open] changes nothing, and what the kill-switch does and does not stop. *)

From stdpp Require Import base numbers list option gmap strings.
From S2P Require Import Prelude Types CryptoTypes ReplayWindow Ratchet.
From S2P Require Import Identity BindCert ChannelFrame Handshake ChannelCrypto.

(** A frame identity: channel, epoch, sequence number. *)
Definition frame_id : Type := ChannelId * Z * Z.

Definition header_id (h : ChannelFrameHeader) : frame_id :=
  (fh_channel h, fh_epoch h, fh_seq h).

(** The sequence numbers of a log for one channel and epoch. *)
Definition seqs_of (log : list frame_id) (ch : ChannelId) (epoch : Z) : gset Z :=
  list_to_set (omap (fun '(c, e, q) => if decide (c = ch /\ e = epoch) then Some q else None) log).

Lemma elem_of_seqs_of log ch epoch q : q ∈ seqs_of log ch epoch <-> (ch, epoch, q) ∈ log.
Proof.
  unfold seqs_of. rewrite elem_of_list_to_set, list_elem_of_omap. split.
  - intros ([[c e] q'] & Hin & Hd). case_decide as Hc; [|done]. by destruct Hc as [-> ->]; simplify_eq.
  - intros Hin. exists (ch, epoch, q). split; [done|]. by rewrite decide_True.
Qed.

Lemma seqs_of_cons log c e q ch epoch :
  seqs_of ((c, e, q) :: log) ch epoch =
    if decide (c = ch /\ e = epoch) then {[q]} ∪ seqs_of log ch epoch else seqs_of log ch epoch.
Proof.
  apply set_eq. intros x. rewrite elem_of_seqs_of, elem_of_cons. case_decide as Hd.
  - rewrite elem_of_union, elem_of_singleton, elem_of_seqs_of. destruct Hd as [-> ->].
    split; [intros [[= ->]|]; auto|intros [->|]; auto].
  - rewrite elem_of_seqs_of. split; [|by right]. intros [[= -> -> ->]|]; [|done]. by destruct Hd.
Qed.

Lemma seqs_of_fresh log ch epoch :
  Forall (fun id : frame_id => id.1.2 < epoch) log -> seqs_of log ch epoch = ∅.
Proof.
  intros Hf. apply set_eq. intros q. rewrite elem_of_seqs_of, elem_of_empty.
  split; [|done]. intros Hin. rewrite Forall_forall in Hf. specialize (Hf _ Hin). cbn in Hf. lia.
Qed.

Lemma seqs_of_other log h ch epoch :
  fh_epoch h <> epoch -> seqs_of (header_id h :: log) ch epoch = seqs_of log ch epoch.
Proof.
  intros Hne. unfold header_id. rewrite seqs_of_cons, decide_False; [done|]. by intros [_ ?].
Qed.

Section Session.
Context `{CP : CryptoPrims} `{CL : !CryptoLaws}.

(** ** The invariant *)

(** One channel state: its chain follows the key sequence of [base] or was erased, its
    replay window represents [acc], its counters agree; on the send side the chain stands
    at the generation being used. *)
Record state_inv (sending : bool) (base : bytes) (st : ChannelState) (acc : gset Z) : Prop := {
  si_gen : is_u32 (max_gen (ratchet st));
  si_chain : chain_ok base (ratchet st) \/ chain_wiped (ratchet st);
  si_replay : Rep (replay st) acc;
  si_seq : 0 <= next_seq st <= SEQ_HARD_LIMIT;
  si_frames : frames_sealed st = next_seq st;
  si_send : sending = true -> max_gen (ratchet st) = current_gen st;
}.

Definition is_send (r : HandshakeRole) (dir : Direction) : bool :=
  bool_decide (dir = role_send_dir r).

Record epoch_inv (root : bytes) (r : HandshakeRole) (log : list frame_id) (e : EpochKeys)
  : Prop := {
  ei_len : length (ek_states e) = 12%nat;
  ei_epoch : is_u64 (ek_epoch e);
  ei_states ch dir st : epoch_get e ch dir = Some st ->
    state_inv (is_send r dir) (chan_base root ch dir (ek_epoch e)) st
      (if is_send r dir then ∅ else seqs_of log ch (ek_epoch e));
}.

(** [log] lists the frames opened so far. *)
Record session_inv (log : list frame_id) (s : SessionKeys) : Prop := {
  inv_prk : blen (prk (session s)) = 32;
  inv_current : epoch_inv (prk (session s)) (role s) log (current s);
  inv_prior p : prior s = Some p ->
    epoch_inv (prk (session s)) (role s) log p /\ ek_epoch p = ek_epoch (current s) - 1;
  inv_log : Forall (fun id : frame_id => id.1.2 <= ek_epoch (current s)) log;
}.

Lemma state_new_inv b base : state_inv b base (channel_state_new base) ∅.
Proof.
  split; cbn; try done.
  - left. apply from_base_key_ok.
  - apply Rep_new.
Qed.

Lemma derive_epoch_inv s r log epoch now :
  blen (prk s) = 32 -> is_u64 epoch -> Forall (fun id : frame_id => id.1.2 < epoch) log ->
  exists e, derive_epoch_keys s epoch now = Ok e /\ epoch_inv (prk s) r log e /\
    ek_epoch e = epoch /\ started_at_secs e = now /\
    forall ch dir, epoch_get e ch dir = Some (channel_state_new (chan_base (prk s) ch dir epoch)).
Proof.
  intros Hl He Hlog. destruct (derive_epoch_keys_ok s epoch now Hl) as (e & Hd & He' & Hs & Hn & Hg).
  exists e. split; [done|]. split; [|done]. split; [done|by rewrite He'|].
  intros ch dir st. rewrite Hg. intros [= <-]. rewrite He', seqs_of_fresh by done.
  destruct (is_send r dir); apply state_new_inv.
Qed.

Lemma from_outcome_inv o now :
  blen (prk (transport o)) = 32 ->
  exists s, from_outcome o now = Ok s /\ session_inv [] s /\ ek_epoch (current s) = 0 /\
    session s = transport o /\ role s = outcome_role o /\
    forall ch dir, epoch_get (current s) ch dir
                   = Some (channel_state_new (chan_base (prk (transport o)) ch dir 0)).
Proof.
  intros Hl. unfold from_outcome.
  destruct (derive_epoch_inv (transport o) (outcome_role o) [] 0 now) as (e & -> & He & H0 & _ & Hg);
    [done|unfold is_u64; lia|constructor|].
  eexists; split; [reflexivity|]. cbn. split_and!; done.
Qed.

(** ** Sealing *)

(** The generation the next sealed frame uses. *)
Definition ratchet_due (st : ChannelState) : bool :=
  (0 <? frames_sealed st) && (frames_sealed st mod RATCHET_INTERVAL =? 0).

Definition seal_gen (st : ChannelState) : Z :=
  if ratchet_due st then current_gen st + 1 else current_gen st.

Lemma seal_ratchet_spec base st acc :
  state_inv true base st acc ->
  exists st' res, seal_ratchet st = (st', res) /\ state_inv true base st' acc /\
    replay st' = replay st /\ next_seq st' = next_seq st /\
    (chain_ok base (ratchet st) -> chain_ok base (ratchet st')) /\
    (chain_wiped (ratchet st) -> chain_wiped (ratchet st')) /\
    match res with
    | Ok _ => current_gen st' = seal_gen st /\ seal_gen st <= u32_max
    | Err e => ratchet_due st = true /\
        (e = NonceExhausted /\ GEN_HARD_LIMIT <= current_gen st + 1 \/
         e = AeadFailure /\ chain_wiped (ratchet st))
    end.
Proof.
  intros Hi. pose proof Hi as [Hg Hc Hr Hq Hf Hs]. specialize (Hs eq_refl).
  unfold is_u32, u32_max in *. unfold seal_ratchet, seal_gen. fold (ratchet_due st).
  destruct (ratchet_due st) eqn:Ed.
  2: { exists st, (Ok tt). split_and!; try done. unfold u32_max; lia. }
  unfold GEN_HARD_LIMIT, u32_max.
  destruct (Z.ltb_spec 4294967295 (current_gen st + 1));
    [exists st, (Err NonceExhausted); split_and!; try done; left; split; [done|lia]|].
  destruct (Z.leb_spec (4294967295 - 1) (current_gen st + 1));
    [exists st, (Err NonceExhausted); split_and!; try done; left; split; [done|lia]|].
  assert (ratchet_acceptable (ratchet st) (current_gen st + 1)) as Ha
    by (unfold ratchet_acceptable, GEN_WINDOW, GEN_AHEAD_LIMIT, u32_max; lia).
  destruct Hc as [Hc|Hw].
  - destruct (get_or_advance_ok base (ratchet st) (current_gen st + 1) Hc) as (r & -> & Hok & Hm);
      [lia|done|].
    eexists _, _; split; [reflexivity|]. cbn. split_and!; try done; try lia.
    + split; cbn; auto; unfold is_u32; lia.
    + intros Hw. by destruct (chain_ok_not_wiped base (ratchet st)).
  - rewrite wiped_get_or_advance by (done || unfold is_u32; lia).
    eexists _, _; split; [reflexivity|]. cbn. split_and!; try done; [|by right].
    split; cbn; auto; unfold is_u32; lia.
Qed.

Definition sealed_header (st : ChannelState) (ch : ChannelId) (dir : Direction) (epoch : Z)
  : ChannelFrameHeader :=
  {| fh_channel := ch; fh_direction := dir; fh_epoch := epoch;
     fh_generation := seal_gen st; fh_seq := next_seq st |}.

(** A frame is the authentic encoding of [h] and [m] under the root key. *)
Definition authentic (root : bytes) (h : ChannelFrameHeader) (m frame : bytes) : Prop :=
  exists ct, frame = header_encode h ++ ct /\
    aead_encrypt (gen_key (chan_base root (fh_channel h) (fh_direction h) (fh_epoch h))
                          (fh_generation h))
                 (build_nonce (fh_generation h) (fh_seq h)) (header_aad h) m = Some ct.

Lemma seal_state_spec root ch dir epoch st acc m :
  let base := chan_base root ch dir epoch in
  state_inv true base st acc ->
  exists st' res, seal_state st ch dir epoch m = (st', res) /\ state_inv true base st' acc /\
    match res with
    | Ok frame => next_seq st < SEQ_HARD_LIMIT /\ chain_ok base (ratchet st) /\
        is_u32 (seal_gen st) /\ authentic root (sealed_header st ch dir epoch) m frame /\
        next_seq st' = next_seq st + 1 /\ current_gen st' = seal_gen st /\
        chain_ok base (ratchet st')
    | Err e => next_seq st' = next_seq st /\
        (e = NonceExhausted /\ (SEQ_HARD_LIMIT <= next_seq st \/
                                ratchet_due st = true /\ GEN_HARD_LIMIT <= current_gen st + 1) \/
         e = AeadFailure /\ (chain_wiped (ratchet st) \/ AEAD_MAX_PLAINTEXT < blen m))
    end.
Proof.
  intros base Hi. unfold seal_state.
  destruct (Z.leb_spec SEQ_HARD_LIMIT (next_seq st)) as [Hlim|Hlim].
  { exists st, (Err NonceExhausted). split_and!; auto. }
  destruct (seal_ratchet_spec base st acc Hi) as (s1 & [[]|e] & -> & Hi1 & Er & En & Hok & Hwp & Hres).
  2: { exists s1, (Err e). split_and!; try done. destruct Hres as [? [[-> ?]|[-> ?]]]; auto 6. }
  destruct Hres as [Hgen Hmax]. pose proof Hi1 as [Hg Hc Hr Hq Hf Hs]. specialize (Hs eq_refl).
  assert (ratchet_acceptable (ratchet s1) (current_gen s1)) as Ha.
  { unfold ratchet_acceptable, GEN_WINDOW, GEN_AHEAD_LIMIT, is_u32, u32_max in *. lia. }
  rewrite Hgen, En in *. destruct Hc as [Hc|Hw].
  - destruct (get_or_advance_ok base (ratchet s1) (seal_gen st) Hc) as (r & -> & Hrok & Hm);
      [unfold is_u32 in *; lia|done|]. cbn [current_gen next_seq].
    destruct (aead_encrypt _ _ _ _) as [ct|] eqn:Eenc.
    + eexists _, _; split; [reflexivity|]. cbn [next_seq current_gen].
      assert (sat_add u64_max (next_seq st) 1 = next_seq st + 1) as Hsat.
      { unfold sat_add, u64_max, SEQ_HARD_LIMIT in *. rewrite Z.min_r; [done|]. lia. }
      assert (chain_ok base (ratchet st)) as Hok0.
      { destruct Hi as [_ [?|Hw] _ _ _ _]; [done|]. by destruct (chain_ok_not_wiped base _ Hc); auto. }
      split_and!; try done; [|by rewrite <- Hs|by exists ct].
      split; cbn; rewrite ?Hf, ?En; auto; [apply Hrok|lia|intros _; lia].
    + eexists _, _; split; [reflexivity|]. cbn [next_seq]. split_and!; [|done|].
      * split; cbn; auto; [apply Hrok|intros _; lia].
      * right. split; [done|]. right. apply Z.lt_nge. intros Hm'.
        destruct (aead_encrypt_ok (gen_key base (seal_gen st)) (build_nonce (seal_gen st) (next_seq st))
          (header_aad (sealed_header st ch dir epoch)) m Hm') as [ct Hct].
        unfold sealed_header in Hct. congruence.
  - rewrite wiped_get_or_advance by (done || rewrite <- ?Hs; done).
    eexists _, _; split; [reflexivity|]. cbn [next_seq]. split_and!; [|done|].
    + split; cbn; auto; intros _; lia.
    + right. split; [done|]. left. destruct Hi as [_ [Hc|?] _ _ _ _]; [|done].
      by destruct (chain_ok_not_wiped base _ (Hok Hc)).
Qed.

Lemma epoch_set_inv root r log log' e ch dir st :
  epoch_inv root r log e ->
  (forall ch', ch' <> ch \/ is_send r dir = true ->
     seqs_of log' ch' (ek_epoch e) = seqs_of log ch' (ek_epoch e)) ->
  state_inv (is_send r dir) (chan_base root ch dir (ek_epoch e)) st
    (if is_send r dir then ∅ else seqs_of log' ch (ek_epoch e)) ->
  epoch_inv root r log' (epoch_set e ch dir st).
Proof.
  intros [Hl He Hst] Hlog Hi. split; [by cbn; rewrite length_insert|done|].
  intros ch' dir' st'. rewrite epoch_get_set by done. cbn [epoch_set ek_epoch].
  case_decide as Hd; [by destruct Hd as [<- <-]; intros [= <-]|].
  intros Hg. specialize (Hst _ _ _ Hg). destruct (is_send r dir') eqn:Es'; [done|].
  rewrite Hlog; [done|]. destruct (decide (ch' = ch)) as [->|]; [|by left]. right.
  unfold is_send in *. apply bool_decide_eq_false in Es'. apply bool_decide_eq_true.
  destruct dir, dir', r; cbn in *; tauto.
Qed.

Lemma seal_spec log s ch m :
  session_inv log s ->
  let dir := send_direction s in
  exists st s' res, epoch_get (current s) ch dir = Some st /\
    seal s ch m = (s', res) /\ session_inv log s' /\
    ek_epoch (current s') = ek_epoch (current s) /\ role s' = role s /\
    session s' = session s /\
    (exists st', epoch_get (current s') ch dir = Some st' /\
       next_seq st' = next_seq st + b2z (is_ok res) /\
       (is_ok res = true -> current_gen st' = seal_gen st /\
          chain_ok (chan_base (prk (session s)) ch dir (ek_epoch (current s))) (ratchet st'))) /\
    (forall ch', ch' <> ch -> epoch_get (current s') ch' dir = epoch_get (current s) ch' dir) /\
    match res with
    | Ok frame => next_seq st < SEQ_HARD_LIMIT /\ is_u32 (seal_gen st) /\
        ~ chain_wiped (ratchet st) /\
        authentic (prk (session s)) (sealed_header st ch dir (ek_epoch (current s))) m frame
    | Err e =>
        e = NonceExhausted /\ (SEQ_HARD_LIMIT <= next_seq st \/
                                ratchet_due st = true /\ GEN_HARD_LIMIT <= current_gen st + 1) \/
        e = AeadFailure /\ (chain_wiped (ratchet st) \/ AEAD_MAX_PLAINTEXT < blen m)
    end.
Proof.
  intros Hinv dir. pose proof Hinv as [Hprk [Hl He Hst] Hprior Hlog].
  destruct (epoch_get_Some (current s) ch dir Hl) as [st Hg].
  assert (is_send (role s) dir = true) as Hsend by (by apply bool_decide_eq_true).
  pose proof (Hst ch dir st Hg) as Hi. rewrite Hsend in Hi.
  destruct (seal_state_spec _ ch dir _ st ∅ m Hi) as (st' & res & Hseal & Hi' & Hres).
  unfold seal. fold dir. rewrite Hg, Hseal. eexists st, _, res. split_and!; try done.
  - split; cbn; auto. apply (epoch_set_inv _ _ log); auto; [by split|]. by rewrite Hsend.
  - exists st'. cbn [current]. rewrite epoch_get_set, decide_True by done.
    destruct res; cbn [is_ok b2z] in *; destruct_and! Hres; split_and!; done || lia.
  - intros ch' Hne. cbn [current]. rewrite epoch_get_set by done.
    rewrite decide_False; [done|intros [? _]; congruence].
  - destruct res; [|apply Hres]. destruct_and! Hres. split_and!; auto.
    eapply chain_ok_not_wiped; eauto.
Qed.

(** ** Opening *)

(** What [open_with_epoch] does: it leaves the epoch alone or returns an authenticated
    plaintext for a sequence number that was acceptable. *)
Lemma open_with_epoch_spec root r log e dir h frame :
  epoch_inv root r log e -> is_send r dir = false -> header_ok h ->
  exists e' res, open_with_epoch e dir h frame = (e', res) /\
    match res with
    | Err _ => e' = e
    | Ok m =>
        epoch_inv root r ((fh_channel h, ek_epoch e, fh_seq h) :: log) e' /\
        ek_epoch e' = ek_epoch e /\
        acceptable (seqs_of log (fh_channel h) (ek_epoch e)) (fh_seq h) /\
        (forall ch, epoch_get e' ch (role_send_dir r) = epoch_get e ch (role_send_dir r)) /\
        aead_decrypt (gen_key (chan_base root (fh_channel h) dir (ek_epoch e)) (fh_generation h))
          (build_nonce (fh_generation h) (fh_seq h)) (header_aad h) (drop 24 frame) = Some m
    end.
Proof.
  intros He Hrecv (_ & Hgen & Hseq). pose proof He as [Hl He64 Hst]. unfold open_with_epoch.
  destruct (epoch_get_Some e (fh_channel h) dir Hl) as [st Hg]. rewrite Hg.
  pose proof (Hst _ _ _ Hg) as Hi. rewrite Hrecv in Hi. pose proof Hi as [Hmg Hc Hr Hq Hf Hs].
  unfold is_u64, is_u32 in Hseq, Hgen. rewrite (replay_check_spec _ _ _ Hr) by lia.
  case_decide as Hacc; [|by eexists _, _; split; [reflexivity|]].
  destruct Hc as [Hc|Hw].
  2: { destruct (wiped_transient (ratchet st) (fh_generation h) Hw) as [er ->].
       by eexists _, _; split; [reflexivity|]. }
  destruct (decide (ratchet_acceptable (ratchet st) (fh_generation h))) as [Ha|Ha].
  2: { rewrite derive_key_transient_err; [|unfold is_u32, u32_max in *; lia..|done].
       by eexists _, _; split; [reflexivity|]. }
  rewrite (derive_key_transient_ok _ _ _ Hc) by (done || lia).
  destruct (get_from frame _) as [ct|] eqn:Ef; [|by eexists _, _; split; [reflexivity|]].
  destruct (aead_decrypt _ _ _ _) as [m|] eqn:Ed; [|by eexists _, _; split; [reflexivity|]].
  unfold commit_advance_to.
  destruct (advance_to_ok _ (ratchet st) (fh_generation h) Hc) as (c' & -> & Hc' & Hm');
    [unfold is_u32; lia|].
  eexists _, _; split; [reflexivity|]. split_and!; try done.
  - apply (epoch_set_inv _ _ log); [done| |].
    + intros ch' [Hne|?]; [|congruence]. rewrite seqs_of_cons, decide_False; [done|intros [? _]; congruence].
    + rewrite Hrecv, seqs_of_cons, decide_True by done.
      split; cbn; try done; auto; [apply Hc'|by apply replay_accept_spec; [|lia|]].
  - intros ch'. rewrite epoch_get_set by done. rewrite decide_False; [done|]. intros [_ ->].
    unfold is_send in Hrecv. by rewrite bool_decide_eq_false in Hrecv.
  - rewrite <- Ed. f_equal. unfold get_from in Ef. apply get_range_Some in Ef as (? & ? & Hb & Heq).
    rewrite Heq at 1. rewrite (drop_app_length' (take _ _)).
    + rewrite drop_ge, app_nil_r; [done|]. unfold blen. lia.
    + rewrite length_take. unfold CHANNEL_HEADER_LEN, blen in *. lia.
Qed.

Lemma open_header_Ok s ch frame h :
  bytes_ok frame -> open_header s ch frame = Ok h ->
  header_ok h /\ fh_channel h = ch /\ is_send (role s) (fh_direction h) = false /\
  fh_epoch h <= sat_add u64_max (ek_epoch (current s)) 1 /\
  frame = header_encode h ++ drop 24 frame.
Proof.
  intros Hb. unfold open_header, CHANNEL_HEADER_LEN.
  destruct (blen frame <? 24 + 16) eqn:Elen; [done|]. simplify_bool.
  destruct (get_range frame 0 24) as [hb|] eqn:Eg; [|done]. cbn [ok_or].
  apply get_range_Some in Eg as (_ & _ & Hl & Hf).
  change (frame = hb ++ drop 24 frame) in Hf.
  destruct (header_parse hb) as [h'|] eqn:Ep; [|done].
  destruct (bool_decide (fh_channel h' = ch)) eqn:Ec; [|done]. cbn [negb].
  destruct (bool_decide (fh_direction h' = _)) eqn:Ed; [done|].
  destruct (_ <? fh_epoch h') eqn:Ee; [done|]. intros [= ->]. simplify_bool.
  apply bool_decide_eq_true in Ec.
  rewrite Hf in Hb. apply Forall_app in Hb as [Hhb _].
  assert (length hb = 24%nat) as Hn by (unfold blen in Hl; lia).
  destruct (header_parse_canonical hb h Hn Hhb Ep) as [Hok <-].
  split_and!; try done.
Qed.

Lemma epoch_inv_log root r log log' e :
  (forall ch, seqs_of log' ch (ek_epoch e) = seqs_of log ch (ek_epoch e)) ->
  epoch_inv root r log e -> epoch_inv root r log' e.
Proof. intros Hq [Hl He Hs]. split; [done..|]. intros ch dir st Hg. rewrite Hq. by apply Hs. Qed.

(** The states of the send direction. *)
Definition same_senders (s s' : SessionKeys) : Prop :=
  forall ch, epoch_get (current s') ch (send_direction s) = epoch_get (current s) ch (send_direction s).

(** What a successful [open] establishes. *)
Record opened (log : list frame_id) (s s' : SessionKeys) (frame m : bytes)
    (h : ChannelFrameHeader) : Prop := {
  op_fresh : header_id h ∉ log;
  op_inv : session_inv (header_id h :: log) s';
  op_epoch : ek_epoch (current s') = Z.max (ek_epoch (current s)) (fh_epoch h) /\
             fh_epoch h <= ek_epoch (current s) + 1;
  op_same : ek_epoch (current s') = ek_epoch (current s) -> same_senders s s';
  op_auth : aead_decrypt (gen_key (chan_base (prk (session s)) (fh_channel h) (fh_direction h)
                                             (fh_epoch h)) (fh_generation h))
              (build_nonce (fh_generation h) (fh_seq h)) (header_aad h) (drop 24 frame) = Some m;
}.

(** How [open] may end on a frame with header [h]. *)
Definition open_result (log : list frame_id) (s : SessionKeys) (frame : bytes)
    (h : ChannelFrameHeader) (out : SessionKeys * result CryptoError bytes) : Prop :=
  role out.1 = role s /\ session out.1 = session s /\
  match out.2 with
  | Err _ => out.1 = s
  | Ok m => opened log s out.1 frame m h
  end.

Lemma open_next_spec log s ch frame now h :
  session_inv log s -> bytes_ok frame -> open_header s ch frame = Ok h ->
  ek_epoch (current s) < u64_max -> fh_epoch h = ek_epoch (current s) + 1 ->
  open_result log s frame h (open s ch frame now).
Proof.
  intros Hinv Hb Hh Hmax Hep. pose proof Hinv as [Hprk Hcur Hprior Hlog].
  destruct (open_header_Ok s ch frame h Hb Hh) as (Hok & <- & Hdir & Hle & Hframe).
  unfold open. rewrite Hh. assert (sat_add u64_max (ek_epoch (current s)) 1 = fh_epoch h) as ->
    by (unfold sat_add; lia). rewrite Z.eqb_refl.
  destruct (derive_epoch_inv (session s) (role s) log (fh_epoch h) now)
    as (e & -> & Hei & Hee & _ & _); [done|apply Hok| |].
  { eapply Forall_impl; [exact Hlog|]. cbn. lia. }
  destruct (open_with_epoch_spec _ _ log e (fh_direction h) h frame Hei Hdir Hok)
    as (e' & [m|er] & -> & Hres); [|done].
  destruct Hres as (Hei' & Hee' & [Hacc _] & _ & Hdec). rewrite Hee in *.
  split_and!; [done..|]. split; cbn; [by rewrite elem_of_seqs_of in Hacc| |lia|lia|done].
  split; cbn; [done|by apply Hei'| |].
  - intros p [= <-]. split; [|lia]. apply (epoch_inv_log _ _ log); [|done]. intros ch.
    apply seqs_of_other. lia.
  - constructor; [cbn; lia|]. eapply Forall_impl; [exact Hlog|]. cbn. lia.
Qed.

Lemma open_prior_spec log s ch frame now h :
  session_inv log s -> bytes_ok frame -> open_header s ch frame = Ok h ->
  fh_epoch h < ek_epoch (current s) < u64_max ->
  open_result log s frame h (open s ch frame now).
Proof.
  intros Hinv Hb Hh Hlt. pose proof Hinv as [Hprk Hcur Hprior Hlog].
  destruct (open_header_Ok s ch frame h Hb Hh) as (Hok & <- & Hdir & Hle & Hframe).
  assert (0 <= fh_epoch h) as H0 by apply Hok.
  unfold open. rewrite Hh, (proj2 (Z.eqb_neq _ _)) by (unfold sat_add; lia).
  rewrite (proj2 (Z.ltb_lt _ _)) by lia. cbn [andb].
  destruct (Z.eqb_spec (fh_epoch h) (sat_sub (ek_epoch (current s)) 1)) as [Heq|]; [|done].
  destruct (prior s) as [p|] eqn:Ep; [|done]. destruct (Hprior p eq_refl) as [Hpi Hpe].
  destruct (open_with_epoch_spec _ _ log p (fh_direction h) h frame Hpi Hdir Hok)
    as (p' & [m|er] & -> & Hres).
  2: { subst. split_and!; try done. destruct s; cbn in *; congruence. }
  destruct Hres as (Hei' & Hee' & [Hacc _] & _ & Hdec).
  assert (ek_epoch p = fh_epoch h) as Hph by (unfold sat_sub in Heq; lia). rewrite Hph in *.
  split_and!; [done..|]. split; cbn; [by rewrite elem_of_seqs_of in Hacc| |lia|done|done].
  split; cbn; [done| | |constructor; [cbn; lia|done]].
  - apply (epoch_inv_log _ _ log); [|done]. intros ch.
    apply seqs_of_other. lia.
  - intros p2 [= <-]. split; [done|lia].
Qed.

Lemma open_current_spec log s ch frame now h :
  session_inv log s -> bytes_ok frame -> open_header s ch frame = Ok h ->
  fh_epoch h = ek_epoch (current s) -> ek_epoch (current s) < u64_max ->
  open_result log s frame h (open s ch frame now).
Proof.
  intros Hinv Hb Hh Heq Hmax. pose proof Hinv as [Hprk Hcur Hprior Hlog].
  destruct (open_header_Ok s ch frame h Hb Hh) as (Hok & <- & Hdir & Hle & Hframe).
  unfold open. rewrite Hh, (proj2 (Z.eqb_neq _ _)) by (unfold sat_add; lia).
  rewrite (proj2 (Z.ltb_ge _ _)) by lia. cbn [andb].
  destruct (open_with_epoch_spec _ _ log (current s) (fh_direction h) h frame Hcur Hdir Hok)
    as (e' & [m|er] & -> & Hres).
  2: { subst. split_and!; try done. by destruct s. }
  destruct Hres as (Hei' & Hee' & [Hacc _] & Hsame & Hdec). rewrite <- Heq in *.
  split_and!; [done..|]. split; cbn; [by rewrite elem_of_seqs_of in Hacc| |lia|done|done].
  split; cbn; [done|done| |rewrite Hee'; constructor; [cbn; lia|done]].
  intros p Hp. destruct (Hprior p Hp) as [Hpi Hpe]. split; [|lia].
  apply (epoch_inv_log _ _ log); [|done]. intros ch.
  apply seqs_of_other. lia.
Qed.

Lemma open_spec log s ch frame now :
  session_inv log s -> bytes_ok frame -> ek_epoch (current s) < u64_max ->
  match open_header s ch frame with
  | Ok h => open_result log s frame h (open s ch frame now)
  | Err e => open s ch frame now = (s, Err e)
  end.
Proof.
  intros Hinv Hb Hmax. destruct (open_header s ch frame) as [h|er] eqn:Hh.
  2: { unfold open. by rewrite Hh. }
  destruct (open_header_Ok s ch frame h Hb Hh) as (Hok & _ & _ & Hle & _).
  unfold sat_add in Hle.
  destruct (Ztrichotomy (fh_epoch h) (ek_epoch (current s))) as [|[|]].
  - by apply open_prior_spec.
  - by apply open_current_spec.
  - apply open_next_spec; [done..|lia].
Qed.

(** ** Rekeying, closing the grace period, the kill-switch *)

Lemma rekey_spec log s now :
  session_inv log s -> ek_epoch (current s) < u64_max ->
  exists e, rekey s now = ({| session := session s; role := role s; current := e;
                              prior := Some (current s); msgs_this_epoch := 0 |}, Ok tt) /\
    session_inv log (rekey s now).1 /\ ek_epoch e = ek_epoch (current s) + 1 /\
    forall ch dir, epoch_get e ch dir =
      Some (channel_state_new (chan_base (prk (session s)) ch dir (ek_epoch (current s) + 1))).
Proof.
  intros [Hprk Hcur Hprior Hlog] Hmax. pose proof (ei_epoch _ _ _ _ Hcur) as H64.
  unfold rekey. assert (sat_add u64_max (ek_epoch (current s)) 1 = ek_epoch (current s) + 1) as ->
    by (unfold sat_add; lia).
  destruct (derive_epoch_inv (session s) (role s) log (ek_epoch (current s) + 1) now)
    as (e & -> & Hei & Hee & _ & Hg); [done|unfold is_u64, u64_max in *; lia| |].
  { eapply Forall_impl; [exact Hlog|]. cbn. lia. }
  exists e. split_and!; try done. split; cbn; [done..| |].
  - intros p [= <-]. split; [done|lia].
  - eapply Forall_impl; [exact Hlog|]. cbn. lia.
Qed.

Lemma close_grace_inv log s : session_inv log s -> session_inv log (close_grace_period s).
Proof. intros [Hprk Hcur Hprior Hlog]. by split. Qed.

Lemma epoch_get_zeroize e ch dir :
  epoch_get (zeroize_epoch_keys e) ch dir =
    (fun st => {| ratchet := zeroize_chain (ratchet st); replay := replay st;
                  next_seq := next_seq st; frames_sealed := frames_sealed st;
                  current_gen := current_gen st |}) <$> epoch_get e ch dir.
Proof. unfold epoch_get, zeroize_epoch_keys. cbn [ek_states]. apply list_lookup_fmap. Qed.

Lemma zeroize_inv log s : session_inv log s -> session_inv log (zeroize_all s).
Proof.
  intros [Hprk [Hl He Hst] Hprior Hlog]. split; cbn; [|split|done|done].
  - unfold blen. by rewrite length_map.
  - cbn. by rewrite length_map.
  - done.
  - intros ch dir st. rewrite epoch_get_zeroize. cbn [zeroize_epoch_keys ek_epoch].
    destruct (epoch_get (current s) ch dir) as [st0|] eqn:Hg; [|done]. intros [= <-].
    destruct (Hst ch dir st0 Hg). split; cbn; auto. by right.
Qed.

(** ** Traces *)

Inductive session_op :=
| OpSeal (ch : ChannelId) (m : bytes)
| OpOpen (ch : ChannelId) (frame : bytes) (now : Z)
| OpRekey (now : Z)
| OpCloseGrace
| OpZeroize.

Inductive event := Sealed (frame : bytes) | Opened (frame : bytes).

Definition session_step (s : SessionKeys) (o : session_op) : SessionKeys * list event :=
  match o with
  | OpSeal ch m => let '(s', r) := seal s ch m in
      (s', match r with Ok frame => [Sealed frame] | Err _ => [] end)
  | OpOpen ch frame now => let '(s', r) := open s ch frame now in
      (s', match r with Ok _ => [Opened frame] | Err _ => [] end)
  | OpRekey now => ((rekey s now).1, [])
  | OpCloseGrace => (close_grace_period s, [])
  | OpZeroize => (zeroize_all s, [])
  end.

(** Runs operations; the newest event comes first. *)
Definition session_run (s : SessionKeys) (ops : list session_op) : SessionKeys * list event :=
  foldl (fun acc o => let '(s', new) := session_step acc.1 o in (s', new ++ acc.2)) (s, []) ops.

Definition frame_header (frame : bytes) : option ChannelFrameHeader :=
  ok (header_parse (take 24 frame)).

Definition sealed_headers (evs : list event) : list ChannelFrameHeader :=
  omap (fun e => match e with Sealed f => frame_header f | Opened _ => None end) evs.

Definition opened_headers (evs : list event) : list ChannelFrameHeader :=
  omap (fun e => match e with Opened f => frame_header f | Sealed _ => None end) evs.

Definition op_ok (o : session_op) : Prop :=
  match o with OpOpen _ frame _ => bytes_ok frame | _ => True end.

Lemma frame_header_app h ct : header_ok h -> frame_header (header_encode h ++ ct) = Some h.
Proof.
  intros Hh. unfold frame_header. rewrite take_app_length' by (by rewrite header_encode_length).
  by rewrite header_parse_encode.
Qed.

(** Every sealed frame lies behind its channel's counter, or in a past epoch. *)
Definition sealed_behind (hs : list ChannelFrameHeader) (s : SessionKeys) : Prop :=
  Forall (fun h => header_ok h /\ fh_epoch h <= ek_epoch (current s) /\
    (fh_epoch h = ek_epoch (current s) ->
     exists st, epoch_get (current s) (fh_channel h) (send_direction s) = Some st /\
                fh_seq h < next_seq st)) hs.

Definition event_frame (e : event) : bytes := match e with Sealed f => f | Opened f => f end.

Definition parses (e : event) : Prop := is_Some (frame_header (event_frame e)).

Record trace_inv (budget : Z) (s : SessionKeys) (evs : list event) : Prop := {
  ti_session : session_inv (map header_id (opened_headers evs)) s;
  ti_opened : NoDup (map header_id (opened_headers evs));
  ti_sealed : NoDup (map header_id (sealed_headers evs));
  ti_behind : sealed_behind (sealed_headers evs) s;
  ti_parses : Forall parses evs;
  ti_budget : ek_epoch (current s) + budget <= u64_max;
}.

(** A session keeps [sealed_behind] when its epoch grows or its send counters do. *)
Lemma sealed_behind_mono hs s s' :
  sealed_behind hs s -> role s' = role s ->
  ek_epoch (current s) <= ek_epoch (current s') ->
  (ek_epoch (current s') = ek_epoch (current s) ->
   forall ch st, epoch_get (current s) ch (send_direction s) = Some st ->
     exists st', epoch_get (current s') ch (send_direction s) = Some st' /\
                 next_seq st <= next_seq st') ->
  sealed_behind hs s'.
Proof.
  intros Hb Hr Hle Hst. eapply Forall_impl; [exact Hb|]. intros h (Hok & He & Hseq).
  split_and!; [done|lia|]. intros Heq. unfold send_direction in *. rewrite Hr.
  destruct Hseq as (st & Hg & Hlt); [lia|].
  destruct (Hst ltac:(lia) _ _ Hg) as (st' & Hg' & Hle'). exists st'. split; [done|lia].
Qed.

Lemma step_seal_inv budget s evs ch m :
  trace_inv (budget + 1) s evs ->
  trace_inv budget (session_step s (OpSeal ch m)).1 ((session_step s (OpSeal ch m)).2 ++ evs).
Proof.
  intros [Hinv Ho Hs Hb Hp Hbud]. cbn [session_step].
  destruct (seal_spec _ s ch m Hinv) as
    (st & s' & res & Hg & -> & Hinv' & Hep & Hr & _ & (st' & Hg' & Hn & _) & Hoth & Hres).
  assert (sealed_behind (sealed_headers evs) s') as Hb'.
  { apply (sealed_behind_mono _ s); [done|done|lia|]. intros _ ch' st0 Hst0.
    destruct (decide (ch' = ch)) as [->|Hne].
    - rewrite Hg in Hst0. injection Hst0 as <-. exists st'. split; [done|].
      rewrite Hn. destruct res; cbn; lia.
    - exists st0. by rewrite Hoth. }
  destruct res as [frame|e]; cbn [fst snd app]; [|by split; try lia].
  destruct Hres as (Hlim & Hgen & _ & (ct & -> & _)). cbn [is_ok b2z] in Hn.
  pose proof (ei_states _ _ _ _ (inv_current _ _ Hinv) _ _ _ Hg) as Hsi.
  pose proof (ei_epoch _ _ _ _ (inv_current _ _ Hinv)) as He64.
  set (h := sealed_header st ch (send_direction s) (ek_epoch (current s))) in *.
  assert (header_ok h) as Hok.
  { split_and!; cbn; [done|done|]. pose proof (si_seq _ _ _ _ Hsi).
    unfold SEQ_HARD_LIMIT, is_u64 in *. lia. }
  assert (sealed_headers (Sealed (header_encode h ++ ct) :: evs) = h :: sealed_headers evs) as Esh.
  { unfold sealed_headers. cbn [omap list_omap]. by rewrite frame_header_app. }
  split; [done|done|rewrite Esh|rewrite Esh| |lia].
  - cbn [map]. constructor; [|done]. intros (h' & Eid & Hin)%list_elem_of_fmap.
    unfold sealed_behind in Hb. rewrite Forall_forall in Hb. destruct (Hb h' Hin) as (_ & _ & Hseq).
    injection Eid as Ech Eep Esq. destruct Hseq as (st1 & Hg1 & Hlt1); [done|].
    rewrite <- Ech, Hg in Hg1. injection Hg1 as <-. lia.
  - constructor; [|done]. cbn. split_and!; [done|lia|]. intros _. exists st'.
    unfold send_direction in *. rewrite Hr. split; [done|lia].
  - constructor; [|done]. exists h. by apply frame_header_app.
Qed.

Lemma step_open_inv budget s evs ch frame now :
  0 <= budget -> bytes_ok frame -> trace_inv (budget + 1) s evs ->
  trace_inv budget (session_step s (OpOpen ch frame now)).1
    ((session_step s (OpOpen ch frame now)).2 ++ evs).
Proof.
  intros Hb0 Hfb [Hinv Ho Hs Hb Hp Hbud]. cbn [session_step].
  pose proof (open_spec _ s ch frame now Hinv Hfb ltac:(lia)) as Hopen.
  destruct (open_header s ch frame) as [h|e] eqn:Eh.
  2: { rewrite Hopen. cbn. split; try done; lia. }
  destruct (open s ch frame now) as [s' [m|e]]; destruct Hopen as (Hr & _ & Hop); cbn [fst snd app] in *.
  2: { subst. split; try done; lia. }
  destruct (open_header_Ok s ch frame h Hfb Eh) as (Hok & _ & _ & _ & Hfr).
  destruct Hop as [Hfresh Hinv' [Hep Hle] Hsame _].
  assert (opened_headers (Opened frame :: evs) = h :: opened_headers evs) as Eoh.
  { unfold opened_headers. cbn [omap list_omap]. by rewrite Hfr, frame_header_app. }
  split; [by rewrite Eoh|rewrite Eoh; by constructor|done| | |lia].
  2: { constructor; [|done]. exists h. cbn. by rewrite Hfr, frame_header_app. }
  apply (sealed_behind_mono _ s); [done|done|lia|]. intros Heq ch' st Hst.
  exists st. rewrite (Hsame Heq). done.
Qed.

Lemma step_inv budget s evs o :
  0 <= budget -> op_ok o -> trace_inv (budget + 1) s evs ->
  trace_inv budget (session_step s o).1 ((session_step s o).2 ++ evs).
Proof.
  intros Hb0 Ho Hi. destruct o as [ch m|ch frame now|now| |].
  - by apply step_seal_inv.
  - by apply step_open_inv.
  - destruct Hi as [Hinv Hno Hs Hb Hp Hbud].
    destruct (rekey_spec _ s now Hinv) as (e & Er & Hinv' & He & _); [lia|].
    cbn [session_step fst snd app]. rewrite Er in *. split; try done; cbn; [|lia].
    apply (sealed_behind_mono _ s); cbn; done || lia.
  - destruct Hi as [Hinv Hno Hs Hb Hp Hbud]. split; try done; cbn; [by apply close_grace_inv|lia].
  - destruct Hi as [Hinv Hno Hs Hb Hp Hbud]. split; try done; cbn; [by apply zeroize_inv| |lia].
    apply (sealed_behind_mono _ s); cbn; [done|done|lia|]. intros _ ch st Hst.
    rewrite epoch_get_zeroize, Hst. eexists; split; [reflexivity|done].
Qed.

Lemma run_inv o now s ops :
  blen (prk (transport o)) = 32 -> from_outcome o now = Ok s -> Forall op_ok ops ->
  Z.of_nat (length ops) <= u64_max ->
  trace_inv (u64_max - Z.of_nat (length ops)) (session_run s ops).1 (session_run s ops).2.
Proof.
  intros Hl Hs Hops Hn. destruct (from_outcome_inv o now Hl) as (s0 & Hs0 & Hinv & He & _).
  rewrite Hs in Hs0. injection Hs0 as <-.
  assert (trace_inv u64_max s []) as Hi.
  { split; try done; cbn; [constructor..|lia]. }
  unfold session_run. generalize dependent (@nil event). clear Hs Hl Hinv He.
  revert s Hn. generalize u64_max as b.
  induction Hops as [|op ops Hop _ IH]; intros b s Hn evs Hi; cbn [foldl fst snd].
  - by rewrite Z.sub_0_r.
  - cbn [length] in *. rewrite Nat2Z.inj_succ in *.
    pose proof (step_inv (b - 1) s evs op ltac:(lia) Hop) as Hi'.
    rewrite Z.sub_add in Hi'. specialize (Hi' Hi).
    destruct (session_step s op) as [s1 new].
    replace (b - Z.succ (Z.of_nat (length ops))) with (b - 1 - Z.of_nat (length ops)) by lia.
    apply IH; [lia|done].
Qed.

(** The nonce a sealed frame used, with what selects its key besides the generation the
    nonce itself carries. *)
Definition nonce_use (h : ChannelFrameHeader) : ChannelId * Z * bytes :=
  (fh_channel h, fh_epoch h, build_nonce (fh_generation h) (fh_seq h)).

Lemma nonce_use_NoDup hs :
  Forall header_ok hs -> NoDup (map header_id hs) -> NoDup (map nonce_use hs).
Proof.
  intros Hok Hnd. induction Hok as [|h hs Hh Hhs IH]; [constructor|]. cbn [map] in *.
  apply NoDup_cons in Hnd as [Hnin Hnd]. constructor; [|by apply IH].
  intros (h' & E & Hin)%list_elem_of_fmap. apply Hnin, list_elem_of_fmap. exists h'. split; [|done].
  rewrite Forall_forall in Hhs. destruct (Hhs h' Hin) as (_ & Hg' & Hq'). destruct Hh as (_ & Hg & Hq).
  apply pair_equal_spec in E as [[= Ec Ee] En]. apply build_nonce_inj in En as [_ Eq]; [|done..].
  unfold header_id. congruence.
Qed.

Lemma sealed_headers_length evs :
  Forall parses evs ->
  length (sealed_headers evs) =
  length (omap (fun e => match e with Sealed f => Some f | Opened _ => None end) evs).
Proof.
  induction 1 as [|[f|f] evs [h Hh] _ IH]; [done| |done].
  unfold sealed_headers in *. cbn [omap list_omap event_frame] in *. rewrite Hh. cbn. by rewrite IH.
Qed.

(** C1. No nonce reuse by construction: over any sequence of seals, opens (of arbitrary
    frames), rekeys, grace-period ends and kills, no two frames a session seals share
    channel, epoch and nonce.  The bound on the number of operations only excludes the
    saturation of the 64-bit epoch counter. *)
Theorem no_nonce_reuse o now s ops :
  blen (prk (transport o)) = 32 -> from_outcome o now = Ok s -> Forall op_ok ops ->
  Z.of_nat (length ops) <= u64_max ->
  let evs := (session_run s ops).2 in
  NoDup (map nonce_use (sealed_headers evs)) /\
  length (sealed_headers evs) =
    length (omap (fun e => match e with Sealed f => Some f | Opened _ => None end) evs).
Proof.
  intros Hl Hs Hops Hn evs0. pose proof (run_inv o now s ops Hl Hs Hops Hn) as Hi. subst evs0.
  destruct (session_run s ops) as [s' evs]. destruct Hi as [_ _ Hnd Hb Hp _]. cbn [snd]. split.
  - apply nonce_use_NoDup; [|done]. eapply Forall_impl; [exact Hb|]. by intros h [? _].
  - by apply sealed_headers_length.
Qed.

(** C4. No replay: over any sequence of operations no frame is opened twice, whatever the
    attacker reorders, repeats or injects, across ratchet steps and epoch changes. *)
Theorem no_frame_opened_twice o now s ops :
  blen (prk (transport o)) = 32 -> from_outcome o now = Ok s -> Forall op_ok ops ->
  Z.of_nat (length ops) <= u64_max ->
  NoDup (map header_id (opened_headers (session_run s ops).2)) /\
  NoDup (omap (fun e => match e with Opened f => Some f | Sealed _ => None end)
              (session_run s ops).2).
Proof.
  intros Hl Hs Hops Hn. pose proof (run_inv o now s ops Hl Hs Hops Hn) as Hi.
  destruct (session_run s ops) as [s' evs]. cbn [fst snd] in *. destruct Hi as [_ Hnd _ _ Hp _].
  split; [done|]. clear -Hnd Hp. induction Hp as [|[f|f] l [h Hh] Hp IH]; [constructor|by apply IH|].
  unfold opened_headers in *. cbn [omap list_omap event_frame] in *. rewrite Hh in Hnd.
  cbn [map] in Hnd. apply NoDup_cons in Hnd as [Hnin Hnd]. constructor; [|by apply IH].
  intros ([f'|f'] & Hin & [= ->])%list_elem_of_omap. apply Hnin, list_elem_of_fmap. exists h. split; [done|].
  apply list_elem_of_omap. by exists (Opened f).
Qed.

(** C35. A failed [open] leaves the session exactly as it was, on every reachable session:
    a forged frame cannot advance a ratchet, evict a key, mark a sequence number or switch
    the epoch. *)
Theorem open_failure_changes_nothing o now s ops ch frame now' s' e :
  blen (prk (transport o)) = 32 -> from_outcome o now = Ok s -> Forall op_ok ops ->
  Z.of_nat (length ops) < u64_max -> bytes_ok frame ->
  open (session_run s ops).1 ch frame now' = (s', Err e) -> s' = (session_run s ops).1.
Proof.
  intros Hl Hs Hops Hn Hb Hopen.
  destruct (run_inv o now s ops Hl Hs Hops) as [Hinv _ _ _ _ Hbud]; [lia|].
  pose proof (open_spec _ _ ch frame now' Hinv Hb ltac:(lia)) as Hspec.
  destruct (open_header _ ch frame); rewrite Hopen in Hspec; [apply Hspec|congruence].
Qed.

End Session.

(** ** Concrete sessions *)

Definition toy_outcome (r : HandshakeRole) : HandshakeOutcome :=
  {| transport := noise_new [7; 7; 7]; handshake_hash := [7; 7; 7];
     peer_identity := identity (toy_ks 5); peer_bind_cert := toy_cert;
     outcome_role := r; outcome_pattern := Xk |}.

Definition toy_session (r : HandshakeRole) : SessionKeys :=
  match from_outcome (toy_outcome r) 1000 with
  | Ok s => s
  | Err _ => {| session := {| prk := [] |}; role := r;
                current := {| ek_epoch := 0; ek_states := []; started_at_secs := 0 |};
                prior := None; msgs_this_epoch := 0 |}
  end.

Lemma toy_session_ok r : from_outcome (toy_outcome r) 1000 = Ok (toy_session r).
Proof. by destruct r; vm_compute. Qed.

Lemma toy_prk_len r : blen (prk (transport (toy_outcome r))) = 32.
Proof. reflexivity. Qed.

(** A frame the responder sealed, and a trace of the initiator that replays it. *)
Definition toy_frame : bytes :=
  match (seal (toy_session Responder) Control [1; 2; 3]).2 with Ok f => f | Err _ => [] end.

Definition toy_ops : list session_op :=
  [OpSeal Video [9]; OpOpen Control toy_frame 1001; OpSeal Video [9]; OpOpen Control toy_frame 1002;
   OpRekey 1003; OpSeal Video [9]; OpOpen Control toy_frame 1004; OpCloseGrace].

Lemma toy_frame_ok : bytes_ok toy_frame.
Proof. apply bytes_okb_ok. vm_compute. reflexivity. Qed.

Lemma toy_ops_ok : Forall op_ok toy_ops.
Proof.
  pose proof toy_frame_ok.
  repeat (apply Forall_cons_2; [first [exact I | assumption]|]). apply Forall_nil_2.
Qed.

Lemma no_nonce_reuse_witness :
  let evs := (session_run (toy_session Initiator) toy_ops).2 in
  length (sealed_headers evs) = 3%nat /\ NoDup (map nonce_use (sealed_headers evs)).
Proof.
  split; [vm_compute; reflexivity|].
  exact (proj1 (no_nonce_reuse (toy_outcome Initiator) 1000 (toy_session Initiator) toy_ops
    (toy_prk_len _) (toy_session_ok _) toy_ops_ok ltac:(vm_compute; discriminate))).
Defined.

Lemma no_frame_opened_twice_witness :
  let evs := (session_run (toy_session Initiator) toy_ops).2 in
  length (opened_headers evs) = 1%nat /\ NoDup (map header_id (opened_headers evs)).
Proof.
  split; [vm_compute; reflexivity|].
  exact (proj1 (no_frame_opened_twice (toy_outcome Initiator) 1000 (toy_session Initiator) toy_ops
    (toy_prk_len _) (toy_session_ok _) toy_ops_ok ltac:(vm_compute; discriminate))).
Defined.

Lemma open_failure_changes_nothing_witness :
  let s := (session_run (toy_session Initiator) [OpOpen Control toy_frame 1001]).1 in
  (open s Control toy_frame 1002).1 = s.
Proof.
  intros s. assert (open s Control toy_frame 1002 = ((open s Control toy_frame 1002).1, Err ReplayedFrame)) as E
    by (vm_compute; reflexivity).
  assert (Forall op_ok [OpOpen Control toy_frame 1001]) as Hops
    by (apply Forall_cons_2; [exact toy_frame_ok|apply Forall_nil_2]).
  exact (open_failure_changes_nothing (toy_outcome Initiator) 1000 (toy_session Initiator)
    [OpOpen Control toy_frame 1001] Control toy_frame 1002 _ _
    (toy_prk_len _) (toy_session_ok _) Hops eq_refl toy_frame_ok E).
Defined.
