(* ===== verification/ChannelDelivery.v ===== *)
(** * sh-crypto: delivery between two peers, and the kill-switch

    Two [SessionKeys] built from the same handshake: every authentic frame in the window
    opens to its plaintext, an in-order stream (with rekeys) is delivered completely, and
    what [zeroize_all] stops and what it does not. *)

From stdpp Require Import base numbers list option gmap strings.
From S2P Require Import Prelude Types CryptoTypes ReplayWindow Ratchet.
From S2P Require Import ChannelFrame Handshake ChannelCrypto ChannelSession.

Section Delivery.
Context `{CP : CryptoPrims} `{CL : !CryptoLaws}.

(** ** Authentic frames *)

Lemma open_header_sealed s root h m frame :
  authentic root h m frame -> header_ok h -> is_send (role s) (fh_direction h) = false ->
  open_header s (fh_channel h) frame =
    if sat_add u64_max (ek_epoch (current s)) 1 <? fh_epoch h then Err EpochTooFarAhead else Ok h.
Proof.
  intros (ct & -> & Hct) Hok Hdir. unfold open_header, CHANNEL_HEADER_LEN.
  apply aead_encrypt_len in Hct. pose proof (blen_nonneg m).
  assert (blen (header_encode h) = 24) as Hl by (unfold blen; by rewrite header_encode_length).
  rewrite (proj2 (Z.ltb_ge _ _)) by (rewrite blen_app; lia).
  pose proof (get_range_app_exact [] (header_encode h) ct) as Hr. cbn [app] in Hr.
  change (blen []) with 0 in Hr. rewrite Hl, Z.add_0_l in Hr. rewrite Hr. cbn [ok_or].
  rewrite header_parse_encode by done. rewrite bool_decide_eq_true_2 by done. cbn [negb].
  unfold is_send in Hdir. unfold send_direction. by rewrite Hdir.
Qed.

Lemma open_header_authentic s root h m frame :
  authentic root h m frame -> header_ok h -> is_send (role s) (fh_direction h) = false ->
  fh_epoch h <= sat_add u64_max (ek_epoch (current s)) 1 ->
  open_header s (fh_channel h) frame = Ok h.
Proof.
  intros Ha Hok Hdir He. rewrite (open_header_sealed s root h m frame) by done. by rewrite (proj2 (Z.ltb_ge _ _)).
Qed.

Lemma authentic_bytes root h m frame :
  authentic root h m frame -> bytes_ok m -> bytes_ok frame.
Proof.
  intros (ct & -> & Hct) Hm. apply Forall_app. split; [|by eapply aead_encrypt_bytes].
  rewrite header_encode_eq. pose proof (channel_to_u8_range (fh_channel h)).
  apply Forall_app_2; [|apply Forall_app_2; [apply to_be_ok|apply Forall_app_2; apply to_be_ok]].
  assert (is_u8 (dir_wire_byte (fh_direction h)))
    by (destruct (fh_direction h); cbv; split; (discriminate || reflexivity)).
  unfold CHANNEL_MAGIC, CHANNEL_HDR_VERSION. solve_bytes_ok.
Qed.

(** A frame whose generation and sequence number are within the windows opens, and only the
    one receive state changes. *)
Lemma open_with_epoch_authentic root e h m frame st acc :
  epoch_get e (fh_channel h) (fh_direction h) = Some st -> length (ek_states e) = 12%nat ->
  chain_ok (chan_base root (fh_channel h) (fh_direction h) (fh_epoch h)) (ratchet st) ->
  Rep (replay st) acc -> acceptable acc (fh_seq h) -> header_ok h ->
  ratchet_acceptable (ratchet st) (fh_generation h) ->
  authentic root h m frame ->
  exists e', open_with_epoch e (fh_direction h) h frame = (e', Ok m) /\ ek_epoch e' = ek_epoch e /\
    (exists st', epoch_get e' (fh_channel h) (fh_direction h) = Some st' /\
       chain_ok (chan_base root (fh_channel h) (fh_direction h) (fh_epoch h)) (ratchet st') /\
       max_gen (ratchet st') = Z.max (max_gen (ratchet st)) (fh_generation h)) /\
    (forall ch, ch <> fh_channel h ->
       epoch_get e' ch (fh_direction h) = epoch_get e ch (fh_direction h)).
Proof.
  intros Hg Hlen Hc Hr Hacc (_ & Hgen & Hseq) Ha (ct & -> & Hct). unfold is_u32, is_u64 in *.
  unfold open_with_epoch. rewrite Hg, (replay_check_spec _ _ _ Hr), decide_True by (done || lia).
  rewrite (derive_key_transient_ok _ _ _ Hc) by (done || lia).
  assert (blen (header_encode h) = 24) as Hl by (unfold blen; by rewrite header_encode_length).
  rewrite get_from_drop by (rewrite blen_app, Hl; pose proof (blen_nonneg ct); unfold CHANNEL_HEADER_LEN; lia).
  change (Z.to_nat CHANNEL_HEADER_LEN) with 24%nat.
  rewrite drop_app_length' by (by rewrite header_encode_length).
  rewrite (aead_decrypt_encrypt _ _ _ _ _ Hct). unfold commit_advance_to.
  destruct (advance_to_ok _ (ratchet st) (fh_generation h) Hc) as (c' & -> & Hc' & Hm').
  { unfold is_u32; lia. }
  eexists; split; [reflexivity|]. split; [done|]. split.
  - eexists. rewrite epoch_get_set, decide_True by done. split; [reflexivity|done].
  - intros ch Hne. rewrite epoch_get_set by done. rewrite decide_False; [done|].
    intros [? _]; congruence.
Qed.

(** ** In-order delivery *)

(** A sender state [st] and a receiver state [st'] of one channel are in step: both chains
    follow the same key sequence and stand at the same generation, the receiver has [seen]
    only sequence numbers below the sender's counter, and [budget] more frames stay below
    the generation limit. *)
Record chan_sync (base : bytes) (seen : gset Z) (budget : Z) (st st' : ChannelState) : Prop := {
  cs_send : chain_ok base (ratchet st);
  cs_recv : chain_ok base (ratchet st');
  cs_gen : max_gen (ratchet st') = current_gen st;
  cs_gen_le : current_gen st <= next_seq st;
  cs_seen q : q ∈ seen -> q < next_seq st;
  cs_budget : next_seq st + budget < GEN_HARD_LIMIT;
}.

(** Sender epoch [es] and receiver epoch [er] agree on direction [dir]. *)
Definition epoch_sync (root : bytes) (dir : Direction) (log : list frame_id) (budget : Z)
    (es er : EpochKeys) : Prop :=
  ek_epoch es = ek_epoch er /\
  forall ch, exists st st', epoch_get es ch dir = Some st /\ epoch_get er ch dir = Some st' /\
    chan_sync (chan_base root ch dir (ek_epoch es)) (seqs_of log ch (ek_epoch es)) budget st st'.

Lemma chan_sync_fresh base budget :
  0 <= budget < GEN_HARD_LIMIT ->
  chan_sync base ∅ budget (channel_state_new base) (channel_state_new base).
Proof. intros Hb. split; try done; cbn; [apply from_base_key_ok..|lia]. Qed.

Lemma epoch_sync_fresh root dir log budget es er :
  ek_epoch es = ek_epoch er -> 0 <= budget < GEN_HARD_LIMIT ->
  Forall (fun id : frame_id => id.1.2 < ek_epoch es) log ->
  (forall ch, epoch_get es ch dir = Some (channel_state_new (chan_base root ch dir (ek_epoch es)))) ->
  (forall ch, epoch_get er ch dir = Some (channel_state_new (chan_base root ch dir (ek_epoch es)))) ->
  epoch_sync root dir log budget es er.
Proof.
  intros He Hb Hlog Hs Hr. split; [done|]. intros ch. eexists _, _.
  split; [apply Hs|]. split; [apply Hr|]. rewrite seqs_of_fresh by done. by apply chan_sync_fresh.
Qed.

Lemma seal_gen_step st : current_gen st <= seal_gen st <= current_gen st + 1.
Proof. unfold seal_gen. destruct (ratchet_due st); lia. Qed.

Lemma chan_sync_weaken base seen budget st st' :
  chan_sync base seen (budget + 1) st st' -> chan_sync base seen budget st st'.
Proof. intros []. split; try done. lia. Qed.

(** In step, sealing cannot fail. *)
Lemma seal_in_sync log snd ch m seen budget st' :
  let base := chan_base (prk (session snd)) ch (send_direction snd) (ek_epoch (current snd)) in
  session_inv log snd -> 0 <= budget -> blen m <= AEAD_MAX_PLAINTEXT ->
  (forall st, epoch_get (current snd) ch (send_direction snd) = Some st ->
     chan_sync base seen (budget + 1) st st') ->
  exists st snd' frame st1, epoch_get (current snd) ch (send_direction snd) = Some st /\
    seal snd ch m = (snd', Ok frame) /\ session_inv log snd' /\
    session snd' = session snd /\ role snd' = role snd /\
    ek_epoch (current snd') = ek_epoch (current snd) /\
    header_ok (sealed_header st ch (send_direction snd) (ek_epoch (current snd))) /\
    authentic (prk (session snd))
      (sealed_header st ch (send_direction snd) (ek_epoch (current snd))) m frame /\
    epoch_get (current snd') ch (send_direction snd) = Some st1 /\
    next_seq st1 = next_seq st + 1 /\ current_gen st1 = seal_gen st /\
    chain_ok base (ratchet st1) /\
    (forall ch', ch' <> ch -> epoch_get (current snd') ch' (send_direction snd)
                              = epoch_get (current snd) ch' (send_direction snd)).
Proof.
  intros base Hinv Hb0 Hm Hsync.
  destruct (seal_spec log snd ch m Hinv) as
    (st & snd' & res & Hg & Hseal & Hinv' & He' & Hro & Hse & (st1 & Hg' & Hn' & Hcg') & Hoth & Hres).
  destruct (Hsync st Hg) as [Hc0 _ _ Hgs _ Hbud].
  pose proof (si_seq _ _ _ _ (ei_states _ _ _ _ (inv_current _ _ Hinv) _ _ _ Hg)) as Hseq0.
  unfold SEQ_HARD_LIMIT, GEN_HARD_LIMIT, u32_max in *.
  destruct res as [frame|er0].
  2: { exfalso. destruct Hres as [[_ [?|[_ ?]]]|[_ [Hw|?]]]; try lia.
       by apply (chain_ok_not_wiped _ _ Hc0). }
  destruct Hres as (_ & Hgen & _ & Hauth). destruct (Hcg' eq_refl) as [Hcg Hck'].
  exists st, snd', frame, st1. split_and!; try done.
  split_and!; cbn; [apply (ei_epoch _ _ _ _ (inv_current _ _ Hinv))|done|unfold is_u64; lia].
Qed.

(** The sender seals, the receiver opens on an epoch in sync with the sender's. *)
Lemma seal_open_epoch log rlog r snd er ch m budget :
  let root := prk (session snd) in
  let dir := send_direction snd in
  session_inv log snd -> epoch_inv root r rlog er -> is_send r dir = false ->
  epoch_sync root dir rlog (budget + 1) (current snd) er -> 0 <= budget ->
  blen m <= AEAD_MAX_PLAINTEXT ->
  exists snd' frame h er',
    seal snd ch m = (snd', Ok frame) /\ session_inv log snd' /\ session snd' = session snd /\
    role snd' = role snd /\
    authentic root h m frame /\ header_ok h /\ fh_channel h = ch /\ fh_direction h = dir /\
    fh_epoch h = ek_epoch (current snd) /\
    open_with_epoch er dir h frame = (er', Ok m) /\
    epoch_sync root dir (header_id h :: rlog) budget (current snd') er'.
Proof.
  intros root dir Hinv Her Hrecv [Hep Hsync] Hb0 Hm.
  destruct (Hsync ch) as (st0 & str & Hg0 & Hgr & Hcs).
  destruct (seal_in_sync log snd ch m (seqs_of rlog ch (ek_epoch (current snd))) budget str Hinv Hb0 Hm) as
    (st & snd' & frame & st1 & Hg & Hseal & Hinv' & Hse & Hro & He' & Hok & Hauth & Hg1 & Hn1 & Hc1 & Hck1 & Hoth).
  { fold dir. intros st. rewrite Hg0. intros [= <-]. exact Hcs. }
  fold dir in Hg, Hok, Hauth, Hg1, Hck1, Hoth. fold root in Hauth, Hck1. rewrite Hg0 in Hg. injection Hg as <-.
  pose proof Hcs as [Hc0 Hcr Hmg Hgs Hq Hbud]. pose proof (seal_gen_step st0) as Hsg.
  set (h := sealed_header st0 ch dir (ek_epoch (current snd))) in *.
  assert (header_id h = (ch, ek_epoch (current snd), next_seq st0)) as Hid by done.
  pose proof (ei_states _ _ _ _ Her _ _ _ Hgr) as Hri. rewrite Hrecv, <- Hep in Hri.
  destruct (open_with_epoch_authentic root er h m frame str _ Hgr (ei_len _ _ _ _ Her) Hcr
              (si_replay _ _ _ _ Hri)) as (er' & Hopen & Hee & (str' & Hgr' & Hcr' & Hmg') & Hoth'); auto.
  { split; cbn; [intros Hin; specialize (Hq _ Hin); lia|].
    intros q Hin. specialize (Hq _ Hin). unfold REPLAY_WINDOW. lia. }
  { destruct Hok as (_ & Hg32 & _). unfold ratchet_acceptable, GEN_WINDOW, GEN_AHEAD_LIMIT.
    unfold is_u32, u32_max in *. cbn in *. lia. }
  exists snd', frame, h, er'. split_and!; try done.
  split; [by rewrite He', Hee|]. intros ch'. rewrite He'. destruct (decide (ch' = ch)) as [->|Hne].
  - exists st1, str'. split_and!; try done. split; try done; try lia.
    + rewrite Hmg'. cbn. lia.
    + intros q. rewrite Hid, seqs_of_cons, decide_True by done.
      rewrite elem_of_union, elem_of_singleton. intros [->|Hin]; [lia|]. specialize (Hq _ Hin). lia.
  - destruct (Hsync ch') as (s1 & s2 & ? & ? & Hcs'). exists s1, s2.
    rewrite Hoth, Hoth' by done. split_and!; try done. apply chan_sync_weaken.
    rewrite Hid, seqs_of_cons, decide_False by (intros [? _]; congruence). done.
Qed.

(** One message of a stream: the sender rekeys any number of times (at the clock readings
    [d_rekeys]), then seals [d_msg] on [d_channel]; the receiver opens the frame at its clock
    [d_now]. *)
Record delivery := {
  d_rekeys : list Z;
  d_channel : ChannelId;
  d_msg : bytes;
  d_now : Z;
}.

Definition rekey_all (s : SessionKeys) (clock : list Z) : SessionKeys :=
  fold_left (fun s now => (rekey s now).1) clock s.

(** What the receiver gets for each message of a stream. *)
Fixpoint exchange (snd rcv : SessionKeys) (script : list delivery)
  : list (result CryptoError bytes) :=
  match script with
  | [] => []
  | d :: script =>
      match seal (rekey_all snd (d_rekeys d)) (d_channel d) (d_msg d) with
      | (snd, Err e) => Err e :: exchange snd rcv script
      | (snd, Ok frame) =>
          let '(rcv, res) := open rcv (d_channel d) frame (d_now d) in
          res :: exchange snd rcv script
      end
  end.

(** What it should get: every message, up to the first one that follows two rekeys in a row;
    that one and all behind it are refused. *)
Fixpoint expected (script : list delivery) : list (result CryptoError bytes) :=
  match script with
  | [] => []
  | d :: rest =>
      if (length (d_rekeys d) <=? 1)%nat then Ok (d_msg d) :: expected rest
      else map (fun _ => Err EpochTooFarAhead) script
  end.

Definition rekeys_of (script : list delivery) : Z := sumZ (map (fun d => Z.of_nat (length (d_rekeys d))) script).

Lemma rekeys_of_cons d script : rekeys_of (d :: script) = Z.of_nat (length (d_rekeys d)) + rekeys_of script.
Proof. done. Qed.

Lemma rekeys_of_nonneg script : 0 <= rekeys_of script.
Proof. induction script as [|d script IH]; [done|]. rewrite rekeys_of_cons. lia. Qed.

(** [budget] messages and [epochs] rekeys are still to come. *)
Record peers_sync (log : list frame_id) (budget epochs : Z) (snd rcv : SessionKeys) : Prop := {
  ps_snd : session_inv [] snd;
  ps_rcv : session_inv log rcv;
  ps_root : session rcv = session snd;
  ps_roles : is_send (role rcv) (send_direction snd) = false;
  ps_sync : epoch_sync (prk (session snd)) (send_direction snd) log budget (current snd) (current rcv);
  ps_epoch : ek_epoch (current snd) + epochs < u64_max;
  ps_budget : budget < GEN_HARD_LIMIT;
}.

(** A frame that the sender sealed in its current epoch. *)
Definition sealed_by (snd : SessionKeys) (ch : ChannelId) (m frame : bytes) : Prop :=
  exists h, authentic (prk (session snd)) h m frame /\ header_ok h /\ fh_channel h = ch /\
    fh_direction h = send_direction snd /\ fh_epoch h = ek_epoch (current snd).

Lemma deliver_same log budget epochs snd rcv ch m now :
  peers_sync log (budget + 1) epochs snd rcv -> 0 <= budget -> 0 <= epochs ->
  blen m <= AEAD_MAX_PLAINTEXT -> bytes_ok m ->
  exists snd' rcv' frame log', seal snd ch m = (snd', Ok frame) /\ sealed_by snd ch m frame /\
    ek_epoch (current snd') = ek_epoch (current snd) /\
    open rcv ch frame now = (rcv', Ok m) /\ role rcv' = role rcv /\ peers_sync log' budget epochs snd' rcv'.
Proof.
  intros [Hs Hr Hroot Hroles Hsync Hep Hgl] Hb Hb' Hm Hmb.
  pose proof (inv_current _ _ Hr) as Her. rewrite Hroot in Her.
  destruct (seal_open_epoch [] log (role rcv) snd (current rcv) ch m budget Hs Her Hroles Hsync Hb Hm)
    as (snd' & frame & h & er' & Hseal & Hs' & Hse & Hro & Hau & Hok & <- & Hd & He & Ho & Hsync').
  destruct Hsync as [Heq _].
  assert (open_header rcv (fh_channel h) frame = Ok h) as Hh.
  { apply (open_header_authentic _ _ _ _ _ Hau Hok); [by rewrite Hd|unfold sat_add; lia]. }
  assert (open rcv (fh_channel h) frame now = (set_current rcv er', Ok m)) as Hopen.
  { unfold open. rewrite Hh, (proj2 (Z.eqb_neq _ _)) by (unfold sat_add; lia).
    rewrite (proj2 (Z.ltb_ge _ _)) by lia. cbn [andb]. by rewrite Hd, Ho. }
  assert (ek_epoch (current snd') = ek_epoch (current snd)) as He'.
  { destruct (seal_spec [] snd (fh_channel h) m Hs) as (?&?&?&?&E&_&E'&_). rewrite Hseal in E.
    by injection E as <- <-. }
  exists snd', (set_current rcv er'), frame, (header_id h :: log). split_and!; try done; [by exists h|].
  pose proof (open_current_spec log rcv (fh_channel h) frame now h Hr (authentic_bytes _ _ _ _ Hau Hmb) Hh) as Hop.
  rewrite Hopen in Hop. destruct Hop as (_ & _ & [_ Hr' _ _ _]); [lia|lia|].
  assert (send_direction snd' = send_direction snd) as Hdir' by (unfold send_direction; by rewrite Hro).
  split; cbn [session role current set_current]; rewrite ?Hse, ?Hdir'; try done; lia.
Qed.

Lemma deliver_next log budget epochs snd rcv ch m now rk :
  peers_sync log (budget + 1) (epochs + 1) snd rcv -> 0 <= budget -> 0 <= epochs ->
  blen m <= AEAD_MAX_PLAINTEXT -> bytes_ok m ->
  exists snd' rcv' frame log', seal (rekey snd rk).1 ch m = (snd', Ok frame) /\
    open rcv ch frame now = (rcv', Ok m) /\ role rcv' = role rcv /\ peers_sync log' budget epochs snd' rcv'.
Proof.
  intros [Hs Hr Hroot Hroles [Heq _] Hep Hgl] Hb Hb' Hm Hmb.
  destruct (rekey_spec [] snd rk Hs) as (e1 & Erk & Hs1 & He1 & Hf1); [lia|]. rewrite Erk in *.
  set (snd1 := {| session := session snd |}) in *. cbn [fst] in *.
  pose proof (inv_log _ _ Hr) as Hlog.
  pose proof (ei_epoch _ _ _ _ (inv_current _ _ Hs)) as H64.
  destruct (derive_epoch_inv (session rcv) (role rcv) log (ek_epoch e1) now)
    as (er & Eder & Her & Hee & _ & Hf2);
    [apply Hr|unfold is_u64, u64_max in *; lia|eapply Forall_impl; [exact Hlog|cbn; lia]|].
  assert (epoch_sync (prk (session snd1)) (send_direction snd1) log (budget + 1) (current snd1) er) as Hsync.
  { apply epoch_sync_fresh; cbn [current snd1]; [by rewrite Hee|lia| | |].
    - eapply Forall_impl; [exact Hlog|cbn; lia].
    - intros ch'. rewrite He1. apply Hf1.
    - intros ch'. rewrite Hf2, Hroot. done. }
  rewrite Hroot in Her.
  destruct (seal_open_epoch [] log (role rcv) snd1 er ch m budget Hs1 Her Hroles Hsync Hb Hm)
    as (snd' & frame & h & er' & Hseal & Hs' & Hse & Hro & Hau & Hok & <- & Hd & He & Ho & Hsync').
  change (ek_epoch (current snd1)) with (ek_epoch e1) in He.
  assert (open_header rcv (fh_channel h) frame = Ok h) as Hh.
  { apply (open_header_authentic _ _ _ _ _ Hau Hok); [by rewrite Hd|unfold sat_add; lia]. }
  assert (exists rcv', open rcv (fh_channel h) frame now = (rcv', Ok m) /\ current rcv' = er') as (rcv' & Hopen & Hcur).
  { unfold open. rewrite Hh, (proj2 (Z.eqb_eq _ _)) by (unfold sat_add; lia).
    rewrite He, Eder, Hd, Ho. by eexists. }
  pose proof (open_next_spec log rcv (fh_channel h) frame now h Hr (authentic_bytes _ _ _ _ Hau Hmb) Hh) as Hop.
  rewrite Hopen in Hop. destruct Hop as (Hro' & Hse' & [_ Hr' [Hep' _] _ _]); [lia|lia|]. cbn [fst] in *.
  exists snd', rcv', frame, (header_id h :: log). split_and!; try done.
  destruct Hsync' as [Heq' Hsync']. subst er'.
  assert (send_direction snd' = send_direction snd1) as Hdir' by (unfold send_direction; by rewrite Hro).
  split; rewrite ?Hro', ?Hse', ?Hse, ?Hdir'; try done; lia.
Qed.

(** Both sides rekey. *)
Lemma rekey_sync log budget epochs snd rcv t t' :
  peers_sync log budget (epochs + 1) snd rcv -> 0 <= budget -> 0 <= epochs ->
  peers_sync log budget epochs (rekey snd t).1 (rekey rcv t').1 /\
  ek_epoch (current (rekey snd t).1) = ek_epoch (current snd) + 1 /\ role (rekey rcv t').1 = role rcv.
Proof.
  intros [Hs Hr Hroot Hroles [Heq _] Hep Hgl] Hb Hb'.
  destruct (rekey_spec [] snd t Hs) as (e1 & E1 & Hs1 & He1 & Hf1); [lia|].
  destruct (rekey_spec log rcv t' Hr) as (e2 & E2 & Hr1 & He2 & Hf2); [lia|].
  rewrite E1, E2 in *. cbn [fst current role] in *. split_and!; [|done|done].
  pose proof (inv_log _ _ Hr) as Hlog.
  split; cbn [session current]; try done; [|lia].
  apply epoch_sync_fresh; [lia|lia| | |].
  - eapply Forall_impl; [exact Hlog|cbn; lia].
  - intros ch. rewrite He1. apply Hf1.
  - intros ch. rewrite He1, Hf2, Hroot, Heq. done.
Qed.

Lemma rekey_all_sync clock : forall log budget epochs snd rcv,
  peers_sync log budget (epochs + Z.of_nat (length clock)) snd rcv -> 0 <= budget -> 0 <= epochs ->
  peers_sync log budget epochs (rekey_all snd clock) (rekey_all rcv clock) /\
  ek_epoch (current (rekey_all snd clock)) = ek_epoch (current snd) + Z.of_nat (length clock) /\
  role (rekey_all rcv clock) = role rcv.
Proof.
  induction clock as [|t clock IH]; intros log budget epochs snd rcv Hps Hb Hb'; cbn [rekey_all fold_left length] in *.
  { rewrite Z.add_0_r in *. done. }
  destruct (rekey_sync log budget (epochs + Z.of_nat (length clock)) snd rcv t t) as (Hps1 & He1 & Hr1); [|lia|lia|].
  { by replace (epochs + Z.of_nat (length clock) + 1) with (epochs + Z.of_nat (S (length clock))) by lia. }
  destruct (IH log budget epochs _ _ Hps1 Hb Hb') as (Hps2 & He2 & Hr2). unfold rekey_all in *. split_and!; [done|lia|congruence].
Qed.

(** A receiver two epochs behind refuses a frame and stays as it is. *)
Lemma open_too_far rcv snd ch m frame now :
  sealed_by snd ch m frame -> is_send (role rcv) (send_direction snd) = false ->
  ek_epoch (current rcv) + 1 < ek_epoch (current snd) ->
  open rcv ch frame now = (rcv, Err EpochTooFarAhead).
Proof.
  intros (h & Hau & Hok & <- & Hd & He) Hdir Hlt. unfold open.
  rewrite (open_header_sealed rcv _ h m frame Hau Hok) by (by rewrite Hd).
  by rewrite (proj2 (Z.ltb_lt _ _)) by (unfold sat_add; lia).
Qed.

Definition messages_ok (script : list delivery) : Prop :=
  Forall (fun d => bytes_ok (d_msg d) /\ blen (d_msg d) <= AEAD_MAX_PLAINTEXT) script.

(** Once the receiver has been left two epochs behind, it refuses the rest of the stream. The
    sender goes on as it would with a receiver [far] that had kept up. *)
Lemma exchange_lost script : forall log snd rcv far,
  peers_sync log (Z.of_nat (length script)) (rekeys_of script) snd far -> role rcv = role far -> messages_ok script ->
  match script with
  | [] => True
  | d :: _ => ek_epoch (current rcv) + 1 < ek_epoch (current snd) + Z.of_nat (length (d_rekeys d))
  end ->
  exchange snd rcv script = map (fun _ => Err EpochTooFarAhead) script.
Proof.
  induction script as [|d script IH]; intros log snd rcv far Hps Hro Hm Hgap; [done|].
  apply Forall_cons in Hm as [[Hmb Hm] Hms]. cbn [exchange map length] in *.
  rewrite rekeys_of_cons, Z.add_comm in Hps. pose proof (rekeys_of_nonneg script) as Hn.
  destruct (rekey_all_sync (d_rekeys d) _ _ _ _ _ Hps) as (Hps1 & He1 & Hr1); [lia|lia|].
  rewrite Nat2Z.inj_succ in Hps1. unfold Z.succ in Hps1.
  destruct (deliver_same _ _ _ _ _ (d_channel d) (d_msg d) (d_now d) Hps1) as
    (snd' & far' & frame & log' & -> & Hsb & He' & _ & Hr' & Hps2); [lia|lia|done|done|].
  rewrite (open_too_far rcv (rekey_all snd (d_rekeys d)) _ (d_msg d) frame); [|done| |lia].
  - f_equal. apply (IH log' snd' rcv far'); [done|congruence|done|]. destruct script; [done|]. rewrite He', He1. lia.
  - rewrite Hro, <- Hr1. apply (ps_roles _ _ _ _ _ Hps1).
Qed.

Lemma exchange_expected script : forall log snd rcv,
  peers_sync log (Z.of_nat (length script)) (rekeys_of script) snd rcv -> messages_ok script ->
  exchange snd rcv script = expected script.
Proof.
  induction script as [|d script IH]; intros log snd rcv Hps Hm; [done|].
  cbn [expected]. destruct (Nat.leb_spec (length (d_rekeys d)) 1) as [Hle|Hgt].
  2: { eapply (exchange_lost (d :: script)); [done|done|done|]. destruct (ps_sync _ _ _ _ _ Hps) as [-> _]. lia. }
  apply Forall_cons in Hm as [[Hmb Hm] Hms]. cbn [exchange length] in *.
  rewrite rekeys_of_cons, Nat2Z.inj_succ in Hps. unfold Z.succ in Hps. pose proof (rekeys_of_nonneg script) as Hn.
  assert (exists snd' rcv' frame log', seal (rekey_all snd (d_rekeys d)) (d_channel d) (d_msg d) = (snd', Ok frame) /\
    open rcv (d_channel d) frame (d_now d) = (rcv', Ok (d_msg d)) /\
    peers_sync log' (Z.of_nat (length script)) (rekeys_of script) snd' rcv') as (snd' & rcv' & frame & log' & -> & -> & Hps').
  { destruct (d_rekeys d) as [|t [|? ?]]; cbn [length] in *; [| |lia].
    - destruct (deliver_same _ _ _ _ _ (d_channel d) (d_msg d) (d_now d) Hps) as
        (snd' & rcv' & frame & log' & Hs & _ & _ & Ho & _ & Hps'); [lia|lia|done|done|]. by exists snd', rcv', frame, log'.
    - rewrite (Z.add_comm (Z.of_nat 1)) in Hps. destruct (deliver_next _ _ _ _ _ (d_channel d) (d_msg d) (d_now d) t Hps) as
        (snd' & rcv' & frame & log' & Hs & Ho & _ & Hps'); [lia|lia|done|done|]. by exists snd', rcv', frame, log'. }
  f_equal. by apply (IH log').
Qed.

Lemma sessions_deliver o1 o2 now1 now2 snd rcv script :
  blen (prk (transport o1)) = 32 -> transport o2 = transport o1 ->
  outcome_role o2 <> outcome_role o1 ->
  from_outcome o1 now1 = Ok snd -> from_outcome o2 now2 = Ok rcv ->
  Z.of_nat (length script) < GEN_HARD_LIMIT -> rekeys_of script < u64_max -> messages_ok script ->
  exchange snd rcv script = expected script.
Proof.
  intros Hl Ht Hroles Hsnd Hrcv Hn Hrk Hmsgs.
  destruct (from_outcome_inv o1 now1 Hl) as (s0 & Hs0 & Hi1 & He1 & Hse1 & Hr1 & Hf1).
  rewrite Hsnd in Hs0. injection Hs0 as <-.
  destruct (from_outcome_inv o2 now2) as (s0 & Hs0 & Hi2 & He2 & Hse2 & Hr2 & Hf2); [by rewrite Ht|].
  rewrite Hrcv in Hs0. injection Hs0 as <-.
  apply (exchange_expected script []); [|done].
  split; try done; [congruence| | |]; rewrite ?He1, ?Hse1.
  - apply bool_decide_eq_false. unfold send_direction. rewrite Hr1, Hr2.
    by destruct (outcome_role o1), (outcome_role o2).
  - apply epoch_sync_fresh; [congruence|lia|constructor| |]; rewrite He1; intros ch;
      [apply Hf1|rewrite <- Ht; apply Hf2].
  - lia.
Qed.

(** Without two rekeys in a row, every message arrives. *)
Lemma expected_all script :
  Forall (fun d => (length (d_rekeys d) <= 1)%nat) script -> expected script = map (fun d => Ok (d_msg d)) script.
Proof.
  induction 1 as [|d script Hd _ IH]; [done|]. cbn [expected map]. rewrite (proj2 (Nat.leb_le _ _) Hd). by rewrite IH.
Qed.

(** C5. Two sessions of one handshake, in opposite roles, over an in-order stream: whatever
    channels the sender uses, across ratchet generations and epoch changes, each frame opens to
    the plaintext that was sealed as long as the sender rekeys at most once between one message
    and the next.  The first message that follows two or more rekeys in a row, and every message
    behind it, is refused with [EpochTooFarAhead]: the receiver follows one epoch at a time. *)
Theorem in_order_delivery o1 o2 now1 now2 snd rcv script :
  blen (prk (transport o1)) = 32 -> transport o2 = transport o1 ->
  outcome_role o2 <> outcome_role o1 ->
  from_outcome o1 now1 = Ok snd -> from_outcome o2 now2 = Ok rcv ->
  Z.of_nat (length script) < GEN_HARD_LIMIT -> rekeys_of script < u64_max ->
  Forall (fun d => bytes_ok (d_msg d) /\ blen (d_msg d) <= AEAD_MAX_PLAINTEXT) script ->
  exchange snd rcv script = expected script /\
  (Forall (fun d => (length (d_rekeys d) <= 1)%nat) script ->
     exchange snd rcv script = map (fun d => Ok (d_msg d)) script).
Proof.
  intros Hl Ht Hroles Hsnd Hrcv Hn Hrk Hm.
  assert (exchange snd rcv script = expected script) as He by by apply (sessions_deliver o1 o2 now1 now2).
  split; [done|]. intros Hone. rewrite He. by apply expected_all.
Qed.

(** ** Sealing on a reachable session *)

(** What [seal] does on any reachable session: on success the frame is the header of the
    next sequence number of the current epoch followed by the AEAD ciphertext under that
    channel, epoch and generation's key, and the channel counter moves by one; on failure no
    sequence number is consumed, and the cause is an exhausted counter ([NonceExhausted]), or
    erased keys or an oversized plaintext ([AeadFailure]). *)
Lemma seal_outcome o now s0 ops ch m :
  blen (prk (transport o)) = 32 -> from_outcome o now = Ok s0 -> Forall op_ok ops ->
  Z.of_nat (length ops) <= u64_max ->
  let s := (session_run s0 ops).1 in
  exists st st', epoch_get (current s) ch (send_direction s) = Some st /\
    epoch_get (current (seal s ch m).1) ch (send_direction s) = Some st' /\
    match (seal s ch m).2 with
    | Ok frame =>
        next_seq st' = next_seq st + 1 /\
        authentic (prk (session s))
          (sealed_header st ch (send_direction s) (ek_epoch (current s))) m frame
    | Err e =>
        next_seq st' = next_seq st /\
        (e = NonceExhausted /\ (SEQ_HARD_LIMIT <= next_seq st \/ GEN_HARD_LIMIT <= current_gen st + 1) \/
         e = AeadFailure /\ (chain_wiped (ratchet st) \/ AEAD_MAX_PLAINTEXT < blen m))
    end.
Proof.
  intros Hl Hs Hops Hn s.
  destruct (run_inv o now s0 ops Hl Hs Hops Hn) as [Hinv _ _ _ _ _]. fold s in Hinv.
  destruct (seal_spec _ s ch m Hinv) as
    (st & s' & res & Hg & -> & _ & _ & _ & _ & (st' & Hg' & Hq & _) & _ & Hres).
  exists st, st'. split_and!; [done..|]. cbn [snd]. destruct res as [frame|e]; cbn [is_ok b2z] in Hq.
  - split; [done|]. by destruct Hres as (_ & _ & _ & Hau).
  - split; [lia|]. destruct Hres as [[-> [?|[_ ?]]]|[-> ?]]; auto.
Qed.

(** ** The kill-switch *)

Lemma zeroize_epoch_wiped s ch dir st :
  epoch_get (current (zeroize_all s)) ch dir = Some st -> chain_wiped (ratchet st).
Proof.
  cbn [zeroize_all current]. rewrite epoch_get_zeroize.
  by intros (st0 & _ & ->)%fmap_Some.
Qed.

Lemma open_with_epoch_wiped e dir h frame :
  (forall ch dir st, epoch_get e ch dir = Some st -> chain_wiped (ratchet st)) ->
  is_ok (open_with_epoch e dir h frame).2 = false.
Proof.
  intros Hw. unfold open_with_epoch. destruct (epoch_get e (fh_channel h) dir) as [st|] eqn:Hg; [|done].
  destruct (replay_check _ _); [|done].
  by destruct (wiped_transient (ratchet st) (fh_generation h) (Hw _ _ _ Hg)) as [er ->].
Qed.

(** The kill-switch stops the keys that were live: on any reachable session, after
    [zeroize_all] nothing can be sealed on any channel, and no frame of the current or of an
    earlier epoch opens, authentic or not. *)
Lemma kill_stops_live_keys o now s0 ops :
  blen (prk (transport o)) = 32 -> from_outcome o now = Ok s0 -> Forall op_ok ops ->
  Z.of_nat (length ops) < u64_max ->
  let s := zeroize_all (session_run s0 ops).1 in
  (forall ch m, (seal s ch m).2 = Err AeadFailure \/ (seal s ch m).2 = Err NonceExhausted) /\
  (forall ch frame now' h, bytes_ok frame -> frame_header frame = Some h ->
     fh_epoch h <= ek_epoch (current s) -> is_ok (open s ch frame now').2 = false).
Proof.
  intros Hl Hs Hops Hn s.
  destruct (run_inv o now s0 ops Hl Hs Hops) as [Hinv0 _ _ _ _ Hbud]; [lia|].
  pose proof (zeroize_inv _ _ Hinv0) as Hinv. fold s in Hinv. split.
  - intros ch m. destruct (seal_spec _ s ch m Hinv) as
      (st & s' & res & Hg & -> & _ & _ & _ & _ & _ & _ & Hres). cbn [snd].
    destruct res as [frame|e]; [|by destruct Hres as [[-> _]|[-> _]]; auto].
    destruct Hres as (_ & _ & Hw & _). destruct Hw. by eapply zeroize_epoch_wiped.
  - intros ch frame now' h Hb Hfh Hle. change (ek_epoch (current s)) with
      (ek_epoch (current (session_run s0 ops).1)) in Hle.
    destruct (open_header s ch frame) as [h'|e] eqn:Hh; [|unfold open; by rewrite Hh].
    destruct (open_header_Ok s ch frame h' Hb Hh) as (Hok & <- & Hdir & _ & Hfr).
    rewrite Hfr, frame_header_app in Hfh by done. injection Hfh as ->.
    pose proof (open_with_epoch_wiped (current s) (fh_direction h) h frame
      (zeroize_epoch_wiped (session_run s0 ops).1)) as Hno.
    unfold open. rewrite Hh, (proj2 (Z.eqb_neq _ _)) by (unfold sat_add; cbn in *; lia).
    change (prior s) with (@None EpochKeys).
    destruct (_ && _); [done|]. destruct (_ <? _); [done|].
    by destruct (open_with_epoch _ _ _ _).
Qed.

Definition recv_direction (s : SessionKeys) : Direction :=
  match send_direction s with I2R => R2I | R2I => I2R end.

(** The first frame of the next epoch on a channel, as anyone can build it once the root
    key is known to be all zeros. *)
Definition forged_header (s : SessionKeys) (ch : ChannelId) : ChannelFrameHeader :=
  {| fh_channel := ch; fh_direction := recv_direction s; fh_epoch := ek_epoch (current s) + 1;
     fh_generation := 0; fh_seq := 0 |}.

Definition zero_root : bytes := replicate 32 0.

Lemma zeroize_root log s : session_inv log s -> prk (session (zeroize_all s)) = zero_root.
Proof.
  intros [Hprk _ _ _]. cbn [zeroize_all session zeroize_prk prk].
  assert (32%nat = length (prk (session s))) as Hn by (unfold blen in Hprk; lia).
  unfold zero_root. rewrite Hn. clear. induction (prk (session s)) as [|b l IH]; [done|].
  cbn. by rewrite IH.
Qed.

Lemma forged_header_ok s log ch :
  session_inv log s -> ek_epoch (current s) < u64_max ->
  header_ok (forged_header s ch) /\ is_send (role s) (fh_direction (forged_header s ch)) = false.
Proof.
  intros Hinv Hmax. pose proof (ei_epoch _ _ _ _ (inv_current _ _ Hinv)) as H64. split.
  - unfold header_ok, is_u64, is_u32, u64_max in *. cbn. lia.
  - apply bool_decide_eq_false. unfold forged_header, recv_direction, send_direction. cbn.
    by destruct (role s).
Qed.

(** A session with an all-zero root accepts the forged first frame of the next epoch. *)
Lemma open_forged log s ch m frame now :
  session_inv log s -> ek_epoch (current s) < u64_max -> prk (session s) = zero_root ->
  authentic zero_root (forged_header s ch) m frame ->
  exists s', open s ch frame now = (s', Ok m).
Proof.
  intros Hinv Hmax Hroot Hau. set (h := forged_header s ch) in *.
  destruct (forged_header_ok s log ch Hinv Hmax) as [Hok Hdir]. fold h in Hok, Hdir.
  assert (sat_add u64_max (ek_epoch (current s)) 1 = fh_epoch h) as Hsat by (unfold sat_add; cbn; lia).
  pose proof (open_header_authentic s zero_root h m frame Hau Hok Hdir ltac:(lia)) as Hh.
  destruct (derive_epoch_inv (session s) (role s) log (fh_epoch h) now)
    as (e & He & Hei & Hee & _ & Hf); [apply Hinv|apply Hok| |].
  { eapply Forall_impl; [apply (inv_log _ _ Hinv)|]. cbn. lia. }
  rewrite Hroot in Hf. destruct (open_with_epoch_authentic zero_root e h m frame _ ∅
    (Hf _ _) (ei_len _ _ _ _ Hei) (from_base_key_ok _) Rep_new) as (e' & Ho & _).
  - split; [set_solver|]. apply set_Forall_empty.
  - done.
  - unfold ratchet_acceptable, GEN_WINDOW, GEN_AHEAD_LIMIT, u32_max. cbn. lia.
  - done.
  - unfold open. change (fh_channel h) with ch in Hh. rewrite Hh, Hsat, Z.eqb_refl, He, Ho.
    by eexists.
Qed.

(** [zeroize_prk] leaves an all-zero root key in place of the erased one, and key
    export does not refuse it.  So a killed session is not dead: anyone can build a frame of
    the next epoch under the zero root, and [open] accepts it as authentic on any channel;
    [rekey] succeeds too, and the session then seals under keys of that public root. *)
Lemma killed_session_accepts_forged_frame o now s0 ops ch m now' :
  blen (prk (transport o)) = 32 -> from_outcome o now = Ok s0 -> Forall op_ok ops ->
  Z.of_nat (length ops) < u64_max -> blen m <= AEAD_MAX_PLAINTEXT ->
  let s := zeroize_all (session_run s0 ops).1 in
  (exists frame s', authentic zero_root (forged_header s ch) m frame /\
     open s ch frame now' = (s', Ok m)) /\
  (exists frame h, (seal (rekey s now').1 ch m).2 = Ok frame /\ authentic zero_root h m frame).
Proof.
  intros Hl Hs Hops Hn Hm s.
  destruct (run_inv o now s0 ops Hl Hs Hops) as [Hinv0 _ _ _ _ Hbud]; [lia|].
  pose proof (zeroize_inv _ _ Hinv0) as Hinv. pose proof (zeroize_root _ _ Hinv0) as Hroot.
  fold s in Hinv, Hroot. assert (ek_epoch (current s) < u64_max) as Hmax by (cbn; lia). split.
  - set (h := forged_header s ch).
    destruct (aead_encrypt_ok (gen_key (chan_base zero_root ch (fh_direction h) (fh_epoch h)) 0)
                (build_nonce 0 0) (header_aad h) m Hm) as [ct Hct].
    assert (authentic zero_root h m (header_encode h ++ ct)) as Hau by (by exists ct).
    destruct (open_forged _ s ch m _ now' Hinv Hmax Hroot Hau) as [s' Ho]. eauto.
  - destruct (rekey_spec _ s now' Hinv Hmax) as (e & Erk & Hinv' & He & Hf). rewrite Erk in *.
    cbn [fst] in *. set (s1 := {| session := session s |}) in *.
    destruct (seal_spec _ s1 ch m Hinv') as (st & s' & res & Hg & -> & _ & _ & _ & _ & _ & _ & Hres).
    cbn [snd]. cbn [s1 current] in Hg. rewrite Hf in Hg. injection Hg as <-.
    destruct res as [frame|er].
    + destruct Hres as (_ & _ & _ & Hau). cbn [s1 session] in Hau. rewrite Hroot in Hau. eauto.
    + destruct Hres as [[_ [Hq|[Hq _]]]|[_ [Hw|Hlen]]]; [by cbn in Hq|by cbn in Hq| |lia].
      exfalso. apply (chain_ok_not_wiped _ _ (from_base_key_ok _) Hw).
Qed.

End Delivery.

(** [needs_rekey] fires exactly when the epoch has sealed [2^20] frames or is at least
    900 seconds old by the injected clock; a clock set back below the epoch's start never
    triggers it by age. *)
Lemma needs_rekey_iff s now :
  is_i64 now -> is_i64 (started_at_secs (current s)) ->
  needs_rekey s now = true <->
  REKEY_MSG_LIMIT <= msgs_this_epoch s \/
  REKEY_TIME_LIMIT_SECS <= now - started_at_secs (current s).
Proof.
  unfold is_i64, i64_min, i64_max. intros Hn Hs. unfold needs_rekey, REKEY_TIME_LIMIT_SECS.
  unfold i64_sat_sub, i64_clamp, i64_min, i64_max. case_match; simplify_bool; [tauto|].
  rewrite Z.leb_le. lia.
Qed.

Lemma needs_rekey_iff_witness :
  needs_rekey (toy_session Initiator) 1900 = true /\
  (needs_rekey (toy_session Initiator) 10 = true <->
   REKEY_MSG_LIMIT <= msgs_this_epoch (toy_session Initiator) \/
   REKEY_TIME_LIMIT_SECS <= 10 - started_at_secs (current (toy_session Initiator))).
Proof.
  split; [vm_compute; reflexivity|].
  apply (needs_rekey_iff (toy_session Initiator) 10);
    vm_compute; split; discriminate.
Defined.

Lemma seal_outcome_witness :
  let s := (session_run (toy_session Initiator) toy_ops).1 in
  is_ok (seal s Video [4; 2]).2 = true /\
  exists st st', epoch_get (current s) Video (send_direction s) = Some st /\
    epoch_get (current (seal s Video [4; 2]).1) Video (send_direction s) = Some st'.
Proof.
  intros s. split; [vm_compute; reflexivity|].
  destruct (seal_outcome (toy_outcome Initiator) 1000 (toy_session Initiator) toy_ops Video [4; 2]
    (toy_prk_len _) (toy_session_ok _) toy_ops_ok ltac:(vm_compute; discriminate))
    as (st & st' & H1 & H2 & _).
  exists st, st'. split; [exact H1|exact H2].
Defined.

(** Messages on three channels, with two rekeys; and a sender that then rekeys twice in a row. *)
Definition toy_script : list delivery :=
  [{| d_rekeys := []; d_channel := Video; d_msg := [1; 2]; d_now := 1001 |};
   {| d_rekeys := [1002]; d_channel := Input; d_msg := []; d_now := 1003 |};
   {| d_rekeys := []; d_channel := Video; d_msg := [3]; d_now := 1004 |};
   {| d_rekeys := [1005]; d_channel := File; d_msg := [255; 0]; d_now := 1006 |}].

Definition toy_hasty : list delivery :=
  toy_script ++ [{| d_rekeys := [1007; 1008]; d_channel := Video; d_msg := [5]; d_now := 1009 |};
                 {| d_rekeys := []; d_channel := Video; d_msg := [6]; d_now := 1010 |}].

Lemma in_order_delivery_witness :
  exchange (toy_session Initiator) (toy_session Responder) toy_script
  = [Ok [1; 2]; Ok []; Ok [3]; Ok [255; 0]] /\
  exchange (toy_session Initiator) (toy_session Responder) toy_hasty
  = [Ok [1; 2]; Ok []; Ok [3]; Ok [255; 0]; Err EpochTooFarAhead; Err EpochTooFarAhead].
Proof.
  assert (Forall (fun d => bytes_ok (d_msg d) /\ blen (d_msg d) <= AEAD_MAX_PLAINTEXT) toy_hasty) as Hf.
  { repeat (apply Forall_cons_2; [split; [cbn [d_msg]; solve_bytes_ok|vm_compute; discriminate]|]).
    apply Forall_nil_2. }
  assert (Forall (fun d => (length (d_rekeys d) <= 1)%nat) toy_script) as Hr by (repeat constructor).
  pose proof Hf as Hf'. apply Forall_app in Hf' as [Hf' _].
  split.
  - exact (proj2 (in_order_delivery (toy_outcome Initiator) (toy_outcome Responder) 1000 1000
      (toy_session Initiator) (toy_session Responder) toy_script (toy_prk_len _) eq_refl
      ltac:(discriminate) (toy_session_ok _) (toy_session_ok _) ltac:(vm_compute; reflexivity)
      ltac:(vm_compute; reflexivity) Hf') Hr).
  - exact (proj1 (in_order_delivery (toy_outcome Initiator) (toy_outcome Responder) 1000 1000
      (toy_session Initiator) (toy_session Responder) toy_hasty (toy_prk_len _) eq_refl
      ltac:(discriminate) (toy_session_ok _) (toy_session_ok _) ltac:(vm_compute; reflexivity)
      ltac:(vm_compute; reflexivity) Hf)).
Defined.

Lemma kill_stops_live_keys_witness :
  let s := zeroize_all (session_run (toy_session Initiator) toy_ops).1 in
  (seal s Video [1]).2 = Err AeadFailure \/ (seal s Video [1]).2 = Err NonceExhausted.
Proof.
  exact (proj1 (kill_stops_live_keys (toy_outcome Initiator) 1000 (toy_session Initiator) toy_ops
    (toy_prk_len _) (toy_session_ok _) toy_ops_ok ltac:(vm_compute; reflexivity)) Video [1]).
Defined.

Lemma killed_session_accepts_forged_frame_witness :
  let s := zeroize_all (session_run (toy_session Initiator) toy_ops).1 in
  exists frame s', authentic zero_root (forged_header s Input) [6; 6; 6] frame /\
    open s Input frame 2000 = (s', Ok [6; 6; 6]).
Proof.
  exact (proj1 (killed_session_accepts_forged_frame (toy_outcome Initiator) 1000
    (toy_session Initiator) toy_ops Input [6; 6; 6] 2000 (toy_prk_len _) (toy_session_ok _)
    toy_ops_ok ltac:(vm_compute; reflexivity) ltac:(vm_compute; discriminate))).
Defined.
