(* ===== verification/SecureSession.v ===== *)
(** * sh-crypto: from handshake to protected channels

    The composition of [Handshake.v] with the record layer: two devices that trust each other
    run the handshake, each derives its session keys from its own outcome, and what one seals
    the other opens. *)

From stdpp Require Import base numbers list option strings.
From S2P Require Import Prelude Types CryptoTypes Identity BindCert ChannelFrame.
From S2P Require Import Handshake ChannelCrypto ChannelSession ChannelDelivery.

Section Session.
Context `{CP : CryptoPrims} `{CL : !CryptoLaws} `{SP : SigPrims} `{SL : !SigLaws}.
Context `{KP : !KeyPrims} `{SN : Snow} `{SNL : !SnowLaws}.

(** At most one rekey before each message. *)
Definition script_ok (script : list delivery) : Prop :=
  Z.of_nat (length script) < GEN_HARD_LIMIT /\ messages_ok script /\
  Forall (fun d => (length (d_rekeys d) <= 1)%nat) script.

Lemma rekeys_of_le script :
  Forall (fun d => (length (d_rekeys d) <= 1)%nat) script -> rekeys_of script <= Z.of_nat (length script).
Proof. induction 1 as [|d script Hd _ IH]; [done|]. rewrite rekeys_of_cons. cbn [length]. lia. Qed.

Lemma noise_new_root hash : blen (prk (noise_new hash)) = 32.
Proof. apply hkdf_extract_len. Qed.

(** Sessions made from the two outcomes of one handshake. *)
Lemma outcomes_deliver o1 o2 hash now1 now2 script :
  transport o1 = noise_new hash -> transport o2 = transport o1 ->
  outcome_role o2 <> outcome_role o1 -> script_ok script ->
  exists s1 s2, from_outcome o1 now1 = Ok s1 /\ from_outcome o2 now2 = Ok s2 /\
    exchange s1 s2 script = map (fun d => Ok (d_msg d)) script.
Proof.
  intros Ht Heq Hr (Hn & Hm & Hone).
  assert (blen (prk (transport o1)) = 32) as Hl1 by (rewrite Ht; apply noise_new_root).
  assert (blen (prk (transport o2)) = 32) as Hl2 by (by rewrite Heq).
  destruct (from_outcome_inv o1 now1 Hl1) as (s1 & E1 & _).
  destruct (from_outcome_inv o2 now2 Hl2) as (s2 & E2 & _).
  exists s1, s2. split_and!; try done. rewrite <- expected_all by done. apply rekeys_of_le in Hone.
  apply (sessions_deliver o1 o2 now1 now2); try done. unfold GEN_HARD_LIMIT, u32_max, u64_max in *. lia.
Qed.

(** C3. Two honest devices always reach a working session: for either pattern, with key
    stores that sign for their identities and trust each other, and every clock reading within
    the certificates' validity, the alternating exchange runs to its end without an error;
    both sides complete, each with the other's identity and DTLS commitment and on one
    handshake hash; the session keys each side derives from its outcome then deliver, in both
    directions, every message in order, with up to one rekey before each. *)
Theorem honest_session_end_to_end {K K'} `{KS : Keystore K} `{KS' : Keystore K'} (p : NoisePattern)
    (ki : K) (kr : K') idi idr si sr ctx di dr now es ts :
  usable ki idi -> usable kr idr ->
  ks_is_trusted ki idr = Ok true -> ks_is_trusted kr idi = Ok true ->
  dtls_ok di -> dtls_ok dr ->
  i64_min <= now < i64_max - BIND_CERT_VALIDITY_SECS ->
  (forall k, now <= ts k < now + BIND_CERT_VALIDITY_SECS) ->
  exists hi hr hi' hr' oi or,
    new_inner ki si (Some (x25519_public sr)) ctx di now p Initiator = Ok hi /\
    new_inner kr sr None ctx dr now p Responder = Ok hr /\
    hs_exchange (messages p) true es ts hi hr = Some (hi', hr') /\
    complete hi' ki = Ok oi /\ complete hr' kr = Ok or /\
    peer_identity oi = idr /\ peer_identity or = idi /\
    commits (peer_bind_cert oi) dr /\ commits (peer_bind_cert or) di /\
    handshake_hash oi = handshake_hash or /\
    forall now1 now2 script, script_ok script ->
      exists s1 s2, from_outcome oi now1 = Ok s1 /\ from_outcome or now2 = Ok s2 /\
        exchange s1 s2 script = map (fun d => Ok (d_msg d)) script /\
        exchange s2 s1 script = map (fun d => Ok (d_msg d)) script.
Proof.
  intros Hui Hur Hti Htr Hdi Hdr Hnow Hts.
  destruct (honest_handshake p ki kr idi idr si sr ctx di dr now es ts Hui Hur Hti Htr Hdi Hdr Hnow Hts)
    as (hi & hr & hi' & hr' & oi & or & Ei & Er & Ex & _ & _ & Ci & Cr & Pi & Pr & Mi & Mr & Hh & Ht & Ri & Rr).
  exists hi, hr, hi', hr', oi, or. split_and!; try done.
  intros now1 now2 script Hs.
  assert (transport oi = noise_new (handshake_hash oi)) as Htn by exact (complete_transport _ _ _ Ci).
  destruct (outcomes_deliver oi or _ now1 now2 script Htn) as (s1 & s2 & E1 & E2 & D); [done|congruence|done|].
  rewrite Ht in Htn.
  destruct (outcomes_deliver or oi _ now2 now1 script Htn) as (s2' & s1' & E2' & E1' & D'); [done|congruence|done|].
  exists s1, s2. split_and!; try done. congruence.
Qed.
End Session.

Lemma honest_session_end_to_end_witness :
  exists hi hr hi' hr' oi or,
    new_inner toy_client [1] (Some (x25519_public [2])) [5] toy_dtls 1000 Xk Initiator = Ok hi /\
    new_inner toy_host [2] None [5] None 1000 Xk Responder = Ok hr /\
    hs_exchange (messages Xk) true (fun _ => []) (fun _ => 1001) hi hr = Some (hi', hr') /\
    complete hi' toy_client = Ok oi /\ complete hr' toy_host = Ok or /\
    peer_identity oi = identity (toy_ks 8) /\ peer_identity or = identity (toy_ks 9) /\
    commits (peer_bind_cert oi) None /\ commits (peer_bind_cert or) toy_dtls /\
    handshake_hash oi = handshake_hash or /\
    forall now1 now2 script, script_ok script ->
      exists s1 s2, from_outcome oi now1 = Ok s1 /\ from_outcome or now2 = Ok s2 /\
        exchange s1 s2 script = map (fun d => Ok (d_msg d)) script /\
        exchange s2 s1 script = map (fun d => Ok (d_msg d)) script.
Proof.
  apply (honest_session_end_to_end Xk toy_client toy_host (identity (toy_ks 9)) (identity (toy_ks 8))
    [1] [2] [5] toy_dtls None 1000 (fun _ => []) (fun _ => 1001)).
  - exact (toy_usable 9 (or_intror eq_refl)).
  - exact (toy_usable 8 (or_introl eq_refl)).
  - vm_compute. reflexivity.
  - vm_compute. reflexivity.
  - split; [reflexivity|]. split; [vm_compute; reflexivity|]. apply to_be_ok.
  - exact I.
  - vm_compute. split; [discriminate|reflexivity].
  - intros _. vm_compute. split; [discriminate|reflexivity].
Defined.
