(* ===== verification/Pairing.v ===== *)
(** * sh-crypto: short authentication strings and pairing

    [crates/sh-crypto/src/sas.rs]: the decimal code both users compare, derived from the
    handshake hash.  Strings are their ASCII bytes.  [crates/sh-crypto/src/pairing.rs]: pairing codes, the SPAKE2 exchange with its key
    confirmation, and the two ways a confirmed peer is pinned.  The [spake2] crate is the
    class [Spake2]; its law is the protocol's correctness for two sides that use one code and
    name the same two identities. *)

From stdpp Require Import base numbers list option strings.
From S2P Require Import Prelude Decimal CryptoTypes Identity.

Definition SAS_HKDF_INFO : bytes := lit "SHP-SAS-v1" ++ [0].

(** ** The short authentication string *)

Inductive SasFormat := SixDigit | EightDigit.

#[global] Instance SasFormat_eq_dec : EqDecision SasFormat.
Proof. solve_decision. Defined.

Definition sas_modulus (f : SasFormat) : Z :=
  match f with SixDigit => 1000000 | EightDigit => 100000000 end.

Definition sas_digit_count (f : SasFormat) : nat :=
  match f with SixDigit => 6%nat | EightDigit => 8%nat end.

Record Sas := { digits : bytes; sas_format : SasFormat }.

(** Evidence of a human's comparison. *)
Record SasConfirmed := { confirmed_peer : DeviceIdentity }.

Section Sas.
Context `{CP : CryptoPrims}.

Definition sas_raw (h : bytes) : Z :=
  let buf := default [0; 0; 0; 0] (hkdf_expand (hkdf_extract h) SAS_HKDF_INFO 4) in from_be buf.

Definition from_handshake_hash_with_format (h : bytes) (format : SasFormat) : Sas :=
  let code := sas_raw h mod sas_modulus format in
  {| digits := fmt_padded (sas_digit_count format) code; sas_format := format |}.

Definition from_handshake_hash (h : bytes) : Sas := from_handshake_hash_with_format h SixDigit.

Definition sas_ct_eq (a b : Sas) : bool :=
  if negb (bool_decide (sas_format a = sas_format b)) then false
  else bytes_eqb (digits a) (digits b).

Definition sas_confirm (s : Sas) (peer : DeviceIdentity) (human_said_match : bool)
    : option SasConfirmed :=
  if human_said_match then Some {| confirmed_peer := peer |} else None.

(** [Display]: the two halves with a space. *)
Definition sas_display (s : Sas) : bytes :=
  let half := (length (digits s) / 2)%nat in
  take half (digits s) ++ [32] ++ drop half (digits s).

Lemma sas_modulus_pow f : sas_modulus f = 10 ^ Z.of_nat (sas_digit_count f).
Proof. by destruct f. Qed.

Lemma sas_digits_eq h f :
  digits (from_handshake_hash_with_format h f) = to_dec (sas_digit_count f) (sas_raw h mod sas_modulus f).
Proof.
  cbn [digits from_handshake_hash_with_format]. apply fmt_padded_to_dec.
  - rewrite <- sas_modulus_pow. apply Z.mod_pos_bound. destruct f; cbn; lia.
  - destruct f; cbn; lia.
Qed.

Lemma sas_digits_inj h1 h2 f :
  digits (from_handshake_hash_with_format h1 f) = digits (from_handshake_hash_with_format h2 f) <->
  sas_raw h1 mod sas_modulus f = sas_raw h2 mod sas_modulus f.
Proof.
  rewrite !sas_digits_eq. split; [|by intros ->].
  intros E. apply to_dec_inj in E; rewrite <- ?sas_modulus_pow; try done; apply Z.mod_pos_bound; destruct f; cbn; lia.
Qed.

(** C39. The authentication string is the format's number of decimal digits, of which the shown
    text is the first half, one space and the second half, so that the text determines the
    digits; and two strings compare equal exactly when they have the same format and the codes
    derived from the two handshake hashes agree modulo [10^digits].  Two ends of one handshake
    therefore always match; different hashes match too when their codes collide. *)
Theorem sas_compares_codes h1 h2 f1 f2 :
  let s1 := from_handshake_hash_with_format h1 f1 in
  let s2 := from_handshake_hash_with_format h2 f2 in
  length (digits s1) = sas_digit_count f1 /\ Forall (fun b => 48 <= b <= 57) (digits s1) /\
  (exists lo hi, sas_display s1 = lo ++ [32] ++ hi /\ digits s1 = lo ++ hi /\
     length lo = length hi /\ (2 * length lo = sas_digit_count f1)%nat) /\
  (sas_ct_eq s1 s2 = true <->
   f1 = f2 /\ sas_raw h1 mod sas_modulus f1 = sas_raw h2 mod sas_modulus f2) /\
  (sas_display s1 = sas_display s2 <-> sas_ct_eq s1 s2 = true).
Proof.
  cbv zeta.
  assert (forall h f, length (digits (from_handshake_hash_with_format h f)) = sas_digit_count f) as Hl
    by (intros h f; by rewrite sas_digits_eq, to_dec_length).
  assert (forall h f, let s := from_handshake_hash_with_format h f in exists lo hi, sas_display s = lo ++ [32] ++ hi /\
    digits s = lo ++ hi /\ length lo = length hi /\ (2 * length lo = sas_digit_count f)%nat) as Hd.
  { intros h f. cbn zeta. unfold sas_display. eexists _, _. split; [done|]. rewrite take_drop, length_take, length_drop, !Hl.
    by destruct f. }
  assert (sas_ct_eq (from_handshake_hash_with_format h1 f1) (from_handshake_hash_with_format h2 f2) = true <->
    f1 = f2 /\ sas_raw h1 mod sas_modulus f1 = sas_raw h2 mod sas_modulus f2) as He.
  { unfold sas_ct_eq, bytes_eqb. change (sas_format (from_handshake_hash_with_format h1 f1)) with f1.
    change (sas_format (from_handshake_hash_with_format h2 f2)) with f2. case_bool_decide as Hf; cbn [negb]; [|by split; [|intros []]].
    subst f2. rewrite bool_decide_eq_true, sas_digits_inj. tauto. }
  split_and!; [apply Hl|rewrite sas_digits_eq; apply to_dec_digits|apply Hd|exact He|].
  rewrite He. split; [|intros [<- E]; unfold sas_display; by rewrite (proj2 (sas_digits_inj h1 h2 f1) E)].
  destruct (Hd h1 f1) as (lo1 & hi1 & -> & D1 & L1 & N1), (Hd h2 f2) as (lo2 & hi2 & -> & D2 & L2 & N2).
  intros E. assert (f1 = f2) as <-.
  { apply (f_equal length) in E. rewrite !length_app in E. cbn [length] in E.
    unfold sas_digit_count in *. destruct f1, f2; try done; lia. }
  split; [done|]. apply sas_digits_inj. rewrite D1, D2. apply app_inj_1 in E as [-> [= ->]]; [done|lia].
Qed.
End Sas.

Definition PAKE_CONFIRM_INITIATOR_INFO : bytes := lit "SHP-PAKE-v1-confirm-initiator" ++ [0].
Definition PAKE_CONFIRM_RESPONDER_INFO : bytes := lit "SHP-PAKE-v1-confirm-responder" ++ [0].

(** ** Pairing codes *)

Inductive PairingCodeFormat := CodeEightDigit.

Definition code_digit_count (f : PairingCodeFormat) : nat := match f with CodeEightDigit => 8%nat end.
Definition code_modulus (f : PairingCodeFormat) : Z := match f with CodeEightDigit => 100000000 end.

Record PairingCode := {
  code_value : bytes;
  code_not_after : Z;
  code_format : PairingCodeFormat;
}.

(** [raw_bytes]: the eight bytes the RNG fills in. *)
Definition generate_code (raw_bytes : bytes) (format : PairingCodeFormat) (not_after : Z)
    : PairingCode :=
  let raw := from_be raw_bytes in
  let code := raw mod code_modulus format in
  {| code_value := fmt_padded (code_digit_count format) code; code_not_after := not_after;
     code_format := format |}.

Definition is_ascii_digit (c : Z) : bool := (48 <=? c) && (c <=? 57).

Definition from_digits (digits : bytes) (format : PairingCodeFormat) (not_after : Z)
    : result CryptoError PairingCode :=
  if negb (length digits =? code_digit_count format)%nat
  then Err (MalformedPakeMessage "pairing code has wrong digit count") else
  if negb (forallb is_ascii_digit digits)
  then Err (MalformedPakeMessage "pairing code contains non-digit characters") else
  Ok {| code_value := digits; code_not_after := not_after; code_format := format |}.

(** A code whose expiry was checked: the only argument [start_with_rng] accepts. *)
Record ValidPairingCode := { valid_code : PairingCode }.

Definition check_not_expired (c : PairingCode) (now : Z) : result CryptoError ValidPairingCode :=
  if code_not_after c <=? now then Err PairingCodeExpired else Ok {| valid_code := c |}.

(** ** The PAKE *)

Inductive PakeRole := PakeInitiator | PakeResponder.

#[global] Instance PakeRole_eq_dec : EqDecision PakeRole.
Proof. solve_decision. Defined.

Record PakeConfirmed := { authorizes_pin : DeviceIdentity }.

Class Spake2 := {
  spake_state : Type;
  (** [start_a_with_rng] and [start_b_with_rng]: password, identities, randomness *)
  spake_start : PakeRole -> bytes -> bytes -> bytes -> bytes -> spake_state * bytes;
  spake_finish : spake_state -> bytes -> option bytes;
}.

Class Spake2Laws `{Spake2} : Prop := {
  spake_msg_len r pw ida idb rng : blen (snd (spake_start r pw ida idb rng)) = 33;
  spake_agree pw ida idb rng rng' :
    let '(sa, ma) := spake_start PakeInitiator pw ida idb rng in
    let '(sb, mb) := spake_start PakeResponder pw ida idb rng' in
    exists key, spake_finish sa mb = Some key /\ spake_finish sb ma = Some key;
}.

Section Pake.
Context `{CP : CryptoPrims} `{SK : Spake2}.

Record PakeExchange := {
  spake2_state : option spake_state;
  outbound : bytes;
  peer_expected_mac : option bytes;
  pake_role : PakeRole;
  pake_hash : bytes;
  local_id : DeviceIdentity;
  peer_id : DeviceIdentity;
  local_confirmation : option bytes;
}.

(** The initiator's and the responder's fingerprints, as bytes. *)
Definition pake_ids (role : PakeRole) (local peer : DeviceIdentity) : bytes * bytes :=
  match role with
  | PakeInitiator => (lit (fingerprint local), lit (fingerprint peer))
  | PakeResponder => (lit (fingerprint peer), lit (fingerprint local))
  end.

Definition start_with_rng (rng : bytes) (role : PakeRole) (code : ValidPairingCode)
    (local peer : DeviceIdentity) (handshake_hash : bytes) : result CryptoError PakeExchange :=
  let '(id_a, id_b) := pake_ids role local peer in
  let '(st, out) := spake_start role (code_value (valid_code code)) id_a id_b rng in
  Ok {| spake2_state := Some st; outbound := out; peer_expected_mac := None; pake_role := role;
        pake_hash := handshake_hash; local_id := local; peer_id := peer;
        local_confirmation := None |}.

Definition outbound_msg (x : PakeExchange) : bytes := outbound x.

Definition local_confirm_info_label (r : PakeRole) : bytes :=
  match r with
  | PakeInitiator => PAKE_CONFIRM_INITIATOR_INFO
  | PakeResponder => PAKE_CONFIRM_RESPONDER_INFO
  end.

Definition peer_confirm_info_label (r : PakeRole) : bytes :=
  match r with
  | PakeInitiator => PAKE_CONFIRM_RESPONDER_INFO
  | PakeResponder => PAKE_CONFIRM_INITIATOR_INFO
  end.

Definition confirm_info (x : PakeExchange) (label : bytes) : bytes :=
  let '(id_a, id_b) := pake_ids (pake_role x) (local_id x) (peer_id x) in
  label ++ pake_hash x ++ id_a ++ id_b.

Definition derive_confirmation_key (x : PakeExchange) (spake2_key label : bytes)
    : result CryptoError bytes :=
  ok_or (hkdf_expand (hkdf_extract spake2_key) (confirm_info x label) 32)
        (MalformedPakeMessage "HKDF expand failed for confirmation key").

Definition final_mac (confirm_key : bytes) : result CryptoError bytes :=
  ok_or (hkdf_expand (hkdf_extract confirm_key) (lit "mac" ++ [0]) 32)
        (MalformedPakeMessage "HKDF expand failed for confirmation MAC").

Definition SPAKE2_MSG : Z := 33.

(** The exchange with its SPAKE2 state taken, and the two MACs once derived. *)
Definition pake_take (x : PakeExchange) (macs : option (bytes * bytes)) : PakeExchange :=
  {| spake2_state := None; outbound := outbound x;
     peer_expected_mac := match macs with Some (_, p) => Some p | None => peer_expected_mac x end;
     pake_role := pake_role x; pake_hash := pake_hash x; local_id := local_id x;
     peer_id := peer_id x;
     local_confirmation := match macs with Some (l, _) => Some l | None => local_confirmation x end |}.

Definition derive_macs (x : PakeExchange) (raw_key : bytes) : result CryptoError (bytes * bytes) :=
  let? lk := derive_confirmation_key x raw_key (local_confirm_info_label (pake_role x)) in
  let? pk := derive_confirmation_key x raw_key (peer_confirm_info_label (pake_role x)) in
  let? lm := final_mac lk in
  let? pm := final_mac pk in
  Ok (lm, pm).

Definition read_peer_msg (x : PakeExchange) (peer_msg : bytes)
    : PakeExchange * result CryptoError unit :=
  if (blen peer_msg <? SPAKE2_MSG) || (SPAKE2_MSG <? blen peer_msg)
  then (x, Err (MalformedPakeMessage "SPAKE2 message has unexpected length")) else
  match spake2_state x with
  | None => (x, Err (MalformedPakeMessage "read_peer_msg already called"))
  | Some state =>
      match spake_finish state peer_msg with
      | None => (pake_take x None,
                 Err (MalformedPakeMessage
                        "SPAKE2 key derivation failed (wrong code or malformed message)"))
      | Some raw_key =>
          match derive_macs x raw_key with
          | Err e => (pake_take x None, Err e)
          | Ok macs => (pake_take x (Some macs), Ok tt)
          end
      end
  end.

Definition local_confirmation_mac (x : PakeExchange) : result CryptoError bytes :=
  ok_or (local_confirmation x)
        (MalformedPakeMessage "must call read_peer_msg before local_confirmation_mac").

Definition pake_finish (x : PakeExchange) (peer_confirmation : bytes)
    : result CryptoError PakeConfirmed :=
  if negb (blen peer_confirmation =? 32)
  then Err (MalformedPakeMessage "peer confirmation MAC must be exactly 32 bytes") else
  let? expected := ok_or (peer_expected_mac x)
                         (MalformedPakeMessage "must call read_peer_msg before finish") in
  if negb (bytes_eqb expected peer_confirmation) then Err PakeConfirmationFailed else
  Ok {| authorizes_pin := peer_id x |}.
End Pake.

(** ** Pinning *)

Inductive PairingOutcome :=
| OutcomePinned (peer : DeviceIdentity)
| OutcomeAborted (reason : string)
| ReTrustAfterRevokeRequiresConfirmation (peer : DeviceIdentity).

Section Pin.
Context {K : Type} `{KS : Keystore K}.

Definition pair_attended (token : SasConfirmed) (ks : K) : K * result CryptoError PairingOutcome :=
  let peer := confirmed_peer token in
  match ks_trust_peer_if_not_revoked ks peer with
  | (ks', Err e) => (ks', Err e)
  | (ks', Ok Pinned) => (ks', Ok (OutcomePinned peer))
  | (ks', Ok WasRevoked) => (ks', Ok (ReTrustAfterRevokeRequiresConfirmation peer))
  end.

Definition pair_unattended (token : PakeConfirmed) (ks : K)
    : K * result CryptoError PairingOutcome :=
  let peer := authorizes_pin token in
  match ks_trust_peer_if_not_revoked ks peer with
  | (ks', Err e) => (ks', Err e)
  | (ks', Ok Pinned) => (ks', Ok (OutcomePinned peer))
  | (ks', Ok WasRevoked) => (ks', Ok (ReTrustAfterRevokeRequiresConfirmation peer))
  end.
End Pin.

(** ** Key confirmation *)

Lemma lit_length s : length (lit s) = String.length s.
Proof. unfold lit. rewrite length_map. induction s; cbn; congruence. Qed.

Lemma lit_inj s t : lit s = lit t -> s = t.
Proof.
  unfold lit. revert t. induction s as [|a s IH]; intros [|b t]; cbn; try done.
  intros [= E1 E2]. f_equal; [|by apply IH].
  apply Nat2Z.inj in E1. by rewrite <- (Ascii.ascii_nat_embedding a), <- (Ascii.ascii_nat_embedding b), E1.
Qed.

(** An identity as the handshake reports it: the fingerprint belongs to the key. *)
Definition identity_ok `{SigPrims} (id : DeviceIdentity) : Prop :=
  id = identity_from_verifying_key (verifying_key id).

Section Confirm.
Context `{CP : CryptoPrims} `{CL : !CryptoLaws} `{SP : SigPrims} `{SL : !SigLaws} `{SK : Spake2}.

Definition peer_role (r : PakeRole) : PakeRole :=
  match r with PakeInitiator => PakeResponder | PakeResponder => PakeInitiator end.

(** The MAC of one side under a raw SPAKE2 key. *)
Definition mac_of (raw_key info : bytes) : option bytes :=
  match hkdf_expand (hkdf_extract raw_key) info 32 with
  | Some k => hkdf_expand (hkdf_extract k) (lit "mac" ++ [0]) 32
  | None => None
  end.

Lemma mac_of_ok raw info : exists m, mac_of raw info = Some m /\ blen m = 32.
Proof.
  unfold mac_of. destruct (hkdf_expand_ok (hkdf_extract raw) info 32) as (k & -> & _); [lia|].
  apply hkdf_expand_ok. lia.
Qed.

Lemma derive_macs_ok x raw : exists lm pm,
  derive_macs x raw = Ok (lm, pm) /\
  mac_of raw (confirm_info x (local_confirm_info_label (pake_role x))) = Some lm /\
  mac_of raw (confirm_info x (peer_confirm_info_label (pake_role x))) = Some pm.
Proof.
  unfold derive_macs, derive_confirmation_key, final_mac, mac_of.
  destruct (hkdf_expand_ok (hkdf_extract raw) (confirm_info x (local_confirm_info_label (pake_role x))) 32)
    as (k & -> & _); [lia|]. cbn [ok_or].
  destruct (hkdf_expand_ok (hkdf_extract raw) (confirm_info x (peer_confirm_info_label (pake_role x))) 32)
    as (k' & -> & _); [lia|]. cbn [ok_or].
  destruct (hkdf_expand_ok (hkdf_extract k) (lit "mac" ++ [0]) 32) as (m & -> & _); [lia|].
  destruct (hkdf_expand_ok (hkdf_extract k') (lit "mac" ++ [0]) 32) as (m' & -> & _); [lia|].
  cbn [ok_or]. eauto.
Qed.

(** Reading a peer's message of the right length, with the key SPAKE2 derives from it. *)
Lemma read_peer_msg_ok x st msg raw :
  spake2_state x = Some st -> blen msg = 33 -> spake_finish st msg = Some raw ->
  exists x' lm pm, read_peer_msg x msg = (x', Ok tt) /\
    local_confirmation_mac x' = Ok lm /\ peer_expected_mac x' = Some pm /\ peer_id x' = peer_id x /\
    mac_of raw (confirm_info x (local_confirm_info_label (pake_role x))) = Some lm /\
    mac_of raw (confirm_info x (peer_confirm_info_label (pake_role x))) = Some pm.
Proof.
  intros Hs Hl Hf. unfold read_peer_msg. rewrite Hl. cbn [orb]. change ((33 <? SPAKE2_MSG) || (SPAKE2_MSG <? 33)) with false.
  cbv iota. rewrite Hs, Hf. destruct (derive_macs_ok x raw) as (lm & pm & -> & Hlm & Hpm).
  eexists _, lm, pm. split; [done|]. done.
Qed.

Lemma pake_finish_accepts x pm :
  peer_expected_mac x = Some pm -> blen pm = 32 ->
  pake_finish x pm = Ok {| authorizes_pin := peer_id x |}.
Proof.
  intros Hp Hl. unfold pake_finish. rewrite Hl, Z.eqb_refl, Hp. cbn [negb ok_or].
  unfold bytes_eqb. by rewrite bool_decide_eq_true_2.
Qed.

(** Two honest sides confirm each other: with the same unexpired code, the same handshake
    hash and each other's identities, both exchanges accept the other's message and MAC, and
    each authorizes pinning exactly the other identity. *)
Lemma pake_honest_confirms `{SKL : !Spake2Laws} c not_after now ida idb h r1 r2 va vb :
  check_not_expired {| code_value := c; code_not_after := not_after; code_format := CodeEightDigit |} now = Ok va ->
  check_not_expired {| code_value := c; code_not_after := not_after; code_format := CodeEightDigit |} now = Ok vb ->
  exists a b a' b' ma mb,
    start_with_rng r1 PakeInitiator va ida idb h = Ok a /\
    start_with_rng r2 PakeResponder vb idb ida h = Ok b /\
    read_peer_msg a (outbound_msg b) = (a', Ok tt) /\ read_peer_msg b (outbound_msg a) = (b', Ok tt) /\
    local_confirmation_mac a' = Ok ma /\ local_confirmation_mac b' = Ok mb /\
    pake_finish a' mb = Ok {| authorizes_pin := idb |} /\
    pake_finish b' ma = Ok {| authorizes_pin := ida |}.
Proof.
  unfold check_not_expired. cbn [code_not_after]. destruct (_ <=? _); [done|].
  intros [= <-] [= <-]. unfold start_with_rng. cbn [pake_ids valid_code code_value].
  pose proof (spake_agree c (lit (fingerprint ida)) (lit (fingerprint idb)) r1 r2) as Hag.
  pose proof (spake_msg_len PakeInitiator c (lit (fingerprint ida)) (lit (fingerprint idb)) r1) as La.
  pose proof (spake_msg_len PakeResponder c (lit (fingerprint ida)) (lit (fingerprint idb)) r2) as Lb.
  destruct (spake_start PakeInitiator _ _ _ _) as [sa msga], (spake_start PakeResponder _ _ _ _) as [sb msgb].
  destruct Hag as (raw & Fa & Fb). cbn [snd] in La, Lb.
  set (xa := {| spake2_state := Some sa; outbound := msga; peer_expected_mac := None;
    pake_role := PakeInitiator; pake_hash := h; local_id := ida; peer_id := idb; local_confirmation := None |}).
  set (xb := {| spake2_state := Some sb; outbound := msgb; peer_expected_mac := None;
    pake_role := PakeResponder; pake_hash := h; local_id := idb; peer_id := ida; local_confirmation := None |}).
  destruct (read_peer_msg_ok xa sa msgb raw eq_refl Lb Fa) as (a' & ma & pa & Ra & Ma & Pa & Ia & Hma & Hpa).
  destruct (read_peer_msg_ok xb sb msga raw eq_refl La Fb) as (b' & mb & pb & Rb & Mb & Pb & Ib & Hmb & Hpb).
  assert (pa = mb) as -> by (cbn in Hpa, Hmb; congruence).
  assert (pb = ma) as -> by (cbn in Hpb, Hma; congruence).
  exists xa, xb, a', b', ma, mb. split; [done|]. split; [done|]. split; [exact Ra|]. split; [exact Rb|].
  split; [done|]. split; [done|].
  destruct (mac_of_ok raw (confirm_info xa (local_confirm_info_label (pake_role xa)))) as (m & Em & Lm).
  destruct (mac_of_ok raw (confirm_info xb (local_confirm_info_label (pake_role xb)))) as (m' & Em' & Lm').
  rewrite Em in Hma. rewrite Em' in Hmb. injection Hma as <-. injection Hmb as <-.
  rewrite (pake_finish_accepts a' m' Pa Lm'), (pake_finish_accepts b' m Pb Lm), Ia, Ib. done.
Qed.

Lemma fp_length id : identity_ok id -> length (lit (fingerprint id)) = 64%nat.
Proof. intros ->. rewrite lit_length. apply fingerprint_length. Qed.

Lemma pake_labels r r' :
  length (local_confirm_info_label r) = length (peer_confirm_info_label r') /\
  (peer_confirm_info_label r' = local_confirm_info_label r <-> r = peer_role r').
Proof. destruct r, r'; split; (reflexivity || (split; intros E; vm_compute in E; done || discriminate E)). Qed.

(** What the confirmation MAC covers: the key a side expects its peer to have derived is
    expanded under the same HKDF info as the peer's own key exactly when the peer plays the
    opposite role, in a session with the same handshake hash, and names the same two
    identities; the four parts cannot be shifted against each other. *)
Lemma pake_confirmation_binds (x y : PakeExchange) :
  blen (pake_hash x) = 32 -> blen (pake_hash y) = 32 ->
  identity_ok (local_id x) -> identity_ok (peer_id x) ->
  identity_ok (local_id y) -> identity_ok (peer_id y) ->
  confirm_info x (peer_confirm_info_label (pake_role x)) =
    confirm_info y (local_confirm_info_label (pake_role y)) <->
  pake_role y = peer_role (pake_role x) /\ pake_hash x = pake_hash y /\
  fingerprint (local_id x) = fingerprint (peer_id y) /\
  fingerprint (peer_id x) = fingerprint (local_id y).
Proof.
  unfold blen. intros Hx Hy I1 I2 I3 I4. destruct (pake_labels (pake_role y) (pake_role x)) as [Hl Hr].
  apply fp_length in I1, I2, I3, I4. unfold confirm_info.
  split.
  - destruct (pake_ids (pake_role x) _ _) as [a b] eqn:Ex, (pake_ids (pake_role y) _ _) as [a' b'] eqn:Ey.
    intros E. apply app_inj_1 in E as [E1 E]; [|by rewrite Hl]. apply Hr in E1. rewrite E1 in Ey.
    apply app_inj_1 in E as [E2 E]; [|lia].
    assert (length a = length a') as Ha by (destruct (pake_role x); cbn in Ex, Ey; congruence).
    apply app_inj_1 in E as [E3 E4]; [|done]. subst a' b'. split; [done|]. split; [done|].
    destruct (pake_role x); cbn in Ex, Ey; injection Ex as <- <-; injection Ey as Ea Eb;
      apply lit_inj in Ea, Eb; done.
  - intros (E1 & E2 & E3 & E4). rewrite (proj2 Hr E1), E2, E1.
    destruct (pake_role x); cbn; by rewrite E3, E4.
Qed.
End Confirm.

(** ** The trust policy

    Everything that writes a key store: explicit trust, revocation and the two pairings. *)

Inductive TrustOp :=
| OpTrust (id : DeviceIdentity)
| OpRevoke (id : DeviceIdentity)
| OpPairAttended (token : SasConfirmed)
| OpPairUnattended (token : PakeConfirmed).

Inductive TrustRes :=
| RWrite (r : result CryptoError unit)
| RPair (r : result CryptoError PairingOutcome).

Definition target (op : TrustOp) : DeviceIdentity :=
  match op with
  | OpTrust id | OpRevoke id => id
  | OpPairAttended t => confirmed_peer t
  | OpPairUnattended t => authorizes_pin t
  end.

(** The policy on one fingerprint: the state after an operation that reported [res]. *)
Definition policy_step (f : Fingerprint) (st : option TrustState) (ev : TrustOp * TrustRes)
    : option TrustState :=
  if bool_decide (fingerprint (target (fst ev)) = f) then
    match ev with
    | (OpTrust _, RWrite (Ok _)) => Some Trusted
    | (OpRevoke _, RWrite (Ok _)) => Some Revoked
    | (_, RPair (Ok (OutcomePinned _))) => Some Trusted
    | _ => st
    end
  else st.

Definition policy (f : Fingerprint) (st : option TrustState) (history : list (TrustOp * TrustRes))
    : option TrustState := fold_left (policy_step f) history st.

(** What a successful pairing reports, by the state of its peer. *)
Definition pairing_reports (st : option TrustState) (peer : DeviceIdentity) : PairingOutcome :=
  match st with
  | Some Revoked => ReTrustAfterRevokeRequiresConfirmation peer
  | _ => OutcomePinned peer
  end.

Section Policy.
Context {K : Type} `{KS : Keystore K} `{KSL : !KeystoreLaws K}.

Definition trust_step (ks : K) (op : TrustOp) : K * TrustRes :=
  match op with
  | OpTrust id => let '(ks', r) := ks_trust_peer ks id in (ks', RWrite r)
  | OpRevoke id => let '(ks', r) := ks_revoke_peer ks id in (ks', RWrite r)
  | OpPairAttended t => let '(ks', r) := pair_attended t ks in (ks', RPair r)
  | OpPairUnattended t => let '(ks', r) := pair_unattended t ks in (ks', RPair r)
  end.

Definition trust_run (ks : K) (ops : list TrustOp) : K * list (TrustOp * TrustRes) :=
  fold_left (fun '(ks, hist) op => let '(ks', r) := trust_step ks op in (ks', hist ++ [(op, r)]))
            ops (ks, []).

Lemma trust_run_snoc ks ops op :
  trust_run ks (ops ++ [op]) =
    let '(k, hist) := trust_run ks ops in let '(k', r) := trust_step k op in (k', hist ++ [(op, r)]).
Proof. unfold trust_run. rewrite fold_left_app. cbn. by destruct (fold_left _ _ _). Qed.

(** Both pairings are the guarded pin of their peer. *)
Lemma pair_step_spec ks op ks' r :
  (forall id, op <> OpTrust id /\ op <> OpRevoke id) -> trust_step ks op = (ks', RPair r) ->
  exists r0, ks_trust_peer_if_not_revoked ks (target op) = (ks', r0) /\
    r = match r0 with
        | Err e => Err e
        | Ok Pinned => Ok (OutcomePinned (target op))
        | Ok WasRevoked => Ok (ReTrustAfterRevokeRequiresConfirmation (target op))
        end.
Proof.
  intros Hn. destruct op as [id|id|t|t]; cbn [trust_step target].
  - by destruct (Hn id).
  - by destruct (Hn id).
  - unfold pair_attended. destruct (ks_trust_peer_if_not_revoked _ _) as [k [[]|e]];
      intros [= <- <-]; by eexists.
  - unfold pair_unattended. destruct (ks_trust_peer_if_not_revoked _ _) as [k [[]|e]];
      intros [= <- <-]; by eexists.
Qed.

(** One operation follows the policy on every fingerprint. *)
Lemma trust_step_policy ks op ks' res f :
  trust_step ks op = (ks', res) ->
  ks_status ks' f = policy_step f (ks_status ks f) (op, res) /\
  forall o, res = RPair (Ok o) -> o = pairing_reports (ks_status ks (fingerprint (target op))) (target op).
Proof.
  intros Hs. unfold policy_step. cbn [fst].
  destruct op as [id|id|t|t] eqn:Eop.
  3,4: assert (exists r, res = RPair r) as [r ->] by (cbn [trust_step] in Hs; case_match; injection Hs as <- <-; by eexists);
    rewrite <- Eop in *;
    destruct (pair_step_spec ks op ks' r) as (r0 & Hr0 & ->); [subst; by split|done|];
    destruct (ks_trust_if_spec ks (target op) ks' r0 f Hr0) as (H1 & H2 & ->);
    subst op; destruct r0 as [[]|e]; split; 
      first [ (intros o [= <-]; unfold pairing_reports; specialize (H1 eq_refl); by rewrite H1)
            | (intros o [= <-]; unfold pairing_reports; specialize (H2 eq_refl); by repeat case_match)
            | done
            | (rewrite bool_decide_eq_false_2 by (by intros [? ?]); by case_bool_decide)
            | (repeat case_bool_decide; naive_solver) ].
  all: cbn [trust_step] in Hs.
  - destruct (ks_trust_peer ks id) as [k r] eqn:E. injection Hs as <- <-. split; [|done].
    rewrite (ks_trust_spec ks id k r f E). destruct r; cbn [is_ok target]; repeat case_bool_decide; naive_solver.
  - destruct (ks_revoke_peer ks id) as [k r] eqn:E. injection Hs as <- <-. split; [|done].
    rewrite (ks_revoke_spec ks id k r f E). destruct r; cbn [is_ok target]; repeat case_bool_decide; naive_solver.
Qed.

Lemma trust_run_policy ks ops ks' hist f :
  trust_run ks ops = (ks', hist) ->
  ks_status ks' f = policy f (ks_status ks f) hist /\ map fst hist = ops /\
  forall i op o, hist !! i = Some (op, RPair (Ok o)) ->
    o = pairing_reports (policy (fingerprint (target op)) (ks_status ks (fingerprint (target op))) (take i hist))
                        (target op).
Proof.
  revert ks' hist f. induction ops as [|op ops IH] using rev_ind; intros ks' hist f Hrun.
  { injection Hrun as <- <-. split; [done|]. split; [done|]. intros i. by rewrite lookup_nil. }
  rewrite trust_run_snoc in Hrun. destruct (trust_run ks ops) as [k h] eqn:E.
  destruct (trust_step k op) as [k' r] eqn:Es. injection Hrun as <- <-.
  destruct (IH k h f eq_refl) as (H1 & H2 & H3). split; [|split].
  - unfold policy. rewrite fold_left_app. cbn [fold_left]. fold (policy f (ks_status ks f) h).
    rewrite <- H1. by apply trust_step_policy.
  - rewrite map_app, H2. done.
  - intros i op' o Hi. apply lookup_app_Some in Hi as [Hi|[Hge Hi]].
    + pose proof (lookup_lt_Some _ _ _ Hi). rewrite take_app_le by lia. by apply H3.
    + destruct (i - length h)%nat eqn:Ei; [|done]. injection Hi as <- ->.
      assert (i = length h) as -> by lia. rewrite take_app_length.
      destruct (IH k h (fingerprint (target op)) eq_refl) as (H1' & _). rewrite <- H1'.
      by apply (trust_step_policy k op k' (RPair (Ok o)) (fingerprint (target op)) Es).
Qed.

(** C12. A key store that keeps the trait's contract implements the trust policy, through any
    sequence of explicit trusts, revocations and pairings, failed ones included: the state of
    every fingerprint is what the policy computes from the reported results, and a pairing
    that succeeds pins its own confirmed peer unless that peer is then revoked, in which case
    it reports that a confirmation is required. *)
Theorem keystore_refines_policy ks ops ks' hist :
  (forall f, ks_status ks f = None) -> trust_run ks ops = (ks', hist) ->
  map fst hist = ops /\
  (forall id b, ks_is_trusted ks' id = Ok b ->
     b = bool_decide (policy (fingerprint id) None hist = Some Trusted)) /\
  (forall i op o, hist !! i = Some (op, RPair (Ok o)) ->
     o = pairing_reports (policy (fingerprint (target op)) None (take i hist)) (target op)).
Proof.
  intros Hf Hrun. destruct (trust_run_policy ks ops ks' hist EmptyString Hrun) as (_ & Hm & Ho).
  split; [done|]. split.
  - intros id b Hb. rewrite (ks_is_trusted_spec _ _ _ Hb).
    destruct (trust_run_policy ks ops ks' hist (fingerprint id) Hrun) as (-> & _). by rewrite Hf.
  - intros i op o Hi. rewrite (Ho i op o Hi), Hf. done.
Qed.

(** While a revoked peer is not explicitly trusted again, the policy keeps it revoked. *)
Lemma policy_revoked f hist :
  (forall id, (OpTrust id, RWrite (Ok tt)) ∈ hist -> fingerprint id <> f) ->
  (forall i op o, hist !! i = Some (op, RPair (Ok o)) -> fingerprint (target op) = f ->
     o = pairing_reports (policy f (Some Revoked) (take i hist)) (target op)) ->
  policy f (Some Revoked) hist = Some Revoked.
Proof.
  induction hist as [|[op r] hist IH] using rev_ind; intros Ht Hp; [done|].
  assert (policy f (Some Revoked) hist = Some Revoked) as IH'.
  { apply IH.
    - intros id Hin. apply Ht, elem_of_app. by left.
    - intros i op' o Hi. pose proof (lookup_lt_Some _ _ _ Hi).
      rewrite <- (take_app_le hist [(op, r)] i) by lia. apply Hp. by rewrite lookup_app_l by lia. }
  unfold policy. rewrite fold_left_app. cbn [fold_left]. fold (policy f (Some Revoked) hist).
  rewrite IH'. unfold policy_step. cbn [fst]. case_bool_decide as Ef; [|done].
  destruct r as [[[]|]|[o|]]; try (by destruct op).
  - destruct op as [id|id|t|t]; try done.
    destruct (Ht id); [|done]. apply elem_of_app. right. by apply list_elem_of_singleton.
  - assert (o = pairing_reports (Some Revoked) (target op)) as ->; [|by destruct op].
    rewrite <- IH', (Hp (length hist) op o) by (done || by rewrite list_lookup_middle).
    by rewrite take_app_length.
Qed.

(** C11. Revocation holds against pairing: from a state in which a peer is revoked, no sequence
    of pairings, revocations and explicit trusts of other peers makes it trusted; every
    pairing with it that succeeds asks for confirmation instead of pinning. *)
Theorem pairing_respects_revocation ks ops ks' hist id :
  ks_status ks (fingerprint id) = Some Revoked -> trust_run ks ops = (ks', hist) ->
  (forall id', (OpTrust id', RWrite (Ok tt)) ∈ hist -> fingerprint id' <> fingerprint id) ->
  (forall b, ks_is_trusted ks' id = Ok b -> b = false) /\
  (forall op o, (op, RPair (Ok o)) ∈ hist -> fingerprint (target op) = fingerprint id ->
     o = ReTrustAfterRevokeRequiresConfirmation (target op)).
Proof.
  intros Hr Hrun Ht. destruct (trust_run_policy ks ops ks' hist (fingerprint id) Hrun) as (Hs & _ & Ho).
  rewrite Hr in Hs.
  assert (forall n, policy (fingerprint id) (Some Revoked) (take n hist) = Some Revoked) as Hpol.
  { intros n. apply policy_revoked.
    - intros id' Hin. apply Ht. by eapply elem_of_take in Hin as (? & ? & ?); eapply list_elem_of_lookup_2.
    - intros i op o Hi Ef. apply lookup_take_Some in Hi as [Hi Hlt].
      rewrite take_take, Nat.min_l by lia. rewrite (Ho i op o Hi), Ef, Hr. done. }
  split.
  - intros b Hb. rewrite (ks_is_trusted_spec _ _ _ Hb), Hs.
    specialize (Hpol (length hist)). rewrite take_ge in Hpol by lia. by rewrite Hpol.
  - intros op o Hin Ef. apply list_elem_of_lookup in Hin as [i Hi].
    rewrite (Ho i op o Hi), Ef, Hr, Hpol. done.
Qed.
End Policy.

(** ** Concrete instances *)

#[global] Instance toy_spake : Spake2 := {|
  spake_state := PakeRole * bytes;
  spake_start r pw ida idb rng :=
    ((r, pw ++ ida ++ idb),
     (match r with PakeInitiator => 65 | PakeResponder => 66 end) :: to_be 32 (toy_digest rng));
  spake_finish st m :=
    match fst st, m with
    | PakeInitiator, 66 :: _ | PakeResponder, 65 :: _ => Some (to_be 32 (toy_digest (snd st)))
    | _, _ => None
    end;
|}.

#[global] Instance toy_spake_laws : Spake2Laws.
Proof.
  split; cbn -[to_be toy_digest].
  - intros r pw ida idb rng. unfold blen. cbn [length]. rewrite to_be_length. lia.
  - intros pw ida idb rng rng'. by eexists.
Qed.

Definition toy_id (n : Z) : DeviceIdentity := identity_from_verifying_key (ed25519_public [n]).

Lemma pake_honest_confirms_witness :
  exists a b a' b' ma mb,
    start_with_rng [1] PakeInitiator
      {| valid_code := {| code_value := fmt_padded 8 4711; code_not_after := 2000; code_format := CodeEightDigit |} |}
      (toy_id 1) (toy_id 2) [5] = Ok a /\
    start_with_rng [2] PakeResponder
      {| valid_code := {| code_value := fmt_padded 8 4711; code_not_after := 2000; code_format := CodeEightDigit |} |}
      (toy_id 2) (toy_id 1) [5] = Ok b /\
    read_peer_msg a (outbound_msg b) = (a', Ok tt) /\ read_peer_msg b (outbound_msg a) = (b', Ok tt) /\
    local_confirmation_mac a' = Ok ma /\ local_confirmation_mac b' = Ok mb /\
    pake_finish a' mb = Ok {| authorizes_pin := toy_id 2 |} /\
    pake_finish b' ma = Ok {| authorizes_pin := toy_id 1 |}.
Proof.
  apply (pake_honest_confirms (fmt_padded 8 4711) 2000 1999 (toy_id 1) (toy_id 2) [5] [1] [2]); reflexivity.
Defined.

Definition toy_exchange (r : PakeRole) (l p : Z) : PakeExchange :=
  {| spake2_state := None; outbound := []; peer_expected_mac := None; pake_role := r;
     pake_hash := to_be 32 9; local_id := toy_id l; peer_id := toy_id p; local_confirmation := None |}.

Lemma pake_confirmation_binds_witness :
  confirm_info (toy_exchange PakeInitiator 1 2) (peer_confirm_info_label PakeInitiator) =
  confirm_info (toy_exchange PakeResponder 2 1) (local_confirm_info_label PakeResponder).
Proof.
  apply (pake_confirmation_binds (toy_exchange PakeInitiator 1 2) (toy_exchange PakeResponder 2 1));
    try reflexivity. repeat (split; try reflexivity).
Defined.

(** The peer [toy_id 2] is pinned, revoked, paired again in vain. *)
Definition toy_trust_ops : list TrustOp :=
  [OpPairAttended {| confirmed_peer := toy_id 2 |}; OpRevoke (toy_id 2);
   OpPairUnattended {| authorizes_pin := toy_id 2 |}; OpTrust (toy_id 3)].

Lemma keystore_refines_policy_witness :
  ks_is_trusted (fst (trust_run (from_signing_key [7]) toy_trust_ops)) (toy_id 3) = Ok true /\
  policy (fingerprint (toy_id 3)) None (snd (trust_run (from_signing_key [7]) toy_trust_ops))
    = Some Trusted.
Proof.
  assert (ks_is_trusted (fst (trust_run (from_signing_key [7]) toy_trust_ops)) (toy_id 3) = Ok true)
    as Ht by (vm_compute; reflexivity).
  split; [exact Ht|].
  refine (bool_decide_eq_true_1 _ (eq_sym _)).
  exact (proj1 (proj2 (keystore_refines_policy (from_signing_key [7]) toy_trust_ops
    (fst (trust_run (from_signing_key [7]) toy_trust_ops)) (snd (trust_run (from_signing_key [7]) toy_trust_ops))
    (fun _ => eq_refl) (surjective_pairing _))) (toy_id 3) true Ht).
Defined.

Lemma pairing_respects_revocation_witness :
  let ks := fst (sw_revoke_peer (from_signing_key [7]) (toy_id 2)) in
  exists b, ks_is_trusted (fst (trust_run ks toy_trust_ops)) (toy_id 2) = Ok b /\ b = false.
Proof.
  intros ks.
  assert (forallb (fun ev => match fst ev with
                             | OpTrust id' => negb (bool_decide (fingerprint id' = fingerprint (toy_id 2)))
                             | _ => true
                             end) (snd (trust_run ks toy_trust_ops)) = true) as Hall by (vm_compute; reflexivity).
  assert (ks_is_trusted (fst (trust_run ks toy_trust_ops)) (toy_id 2) = Ok false) as Hb
    by (vm_compute; reflexivity).
  exists false. split; [exact Hb|].
  refine (proj1 (pairing_respects_revocation ks toy_trust_ops (fst (trust_run ks toy_trust_ops))
    (snd (trust_run ks toy_trust_ops)) (toy_id 2) eq_refl (surjective_pairing _) _) false Hb).
  intros id' Hin. rewrite forallb_forall in Hall. apply list_elem_of_In in Hin.
  specialize (Hall _ Hin). cbn [fst] in Hall. apply negb_true_iff in Hall.
  exact (bool_decide_eq_false_1 _ Hall).
Defined.
