(* ===== verification/PeerAuth.v ===== *)
(** * sh-crypto: proofs of identity-key possession

    [crates/sh-crypto/src/peer_auth.rs]: the proof a device presents to the signaling relay,
    a signature over the relay's challenge, the session and the device's own key. *)

From stdpp Require Import base numbers list option strings.
From S2P Require Import Prelude CryptoTypes Identity BindCert.

Definition AUTH_DOMAIN_TAG : bytes := lit "SHP-SIG-PEERAUTH".
Definition AUTH_TBS_VERSION : Z := 1.
Definition PUBKEY_LEN : Z := 32.
Definition SESSION_ID_LEN : Z := 16.
Definition PEER_AUTH_CHALLENGE_LEN : Z := 32.
Definition IDENTITY_PROOF_LEN : Z := PUBKEY_LEN + PEER_AUTH_CHALLENGE_LEN + SIGNATURE_LEN.
Definition AUTH_TBS_LEN : Z := 16 + 1 + SESSION_ID_LEN + PUBKEY_LEN + PEER_AUTH_CHALLENGE_LEN.

(** [write_field]: copies [src] at the cursor and advances it, if it fits. *)
Definition write_field (st : bytes * Z) (src : bytes) : bytes * Z :=
  let '(out, start) := st in
  let end_ := sat_add usize_max start (blen src) in
  match get_range out start end_ with
  | Some _ => (copy_at out start src, end_)
  | None => (out, start)
  end.

Definition auth_tbs (session_id device_pubkey challenge : bytes) : bytes :=
  let st := (replicate (Z.to_nat AUTH_TBS_LEN) 0, 0) in
  let st := write_field st AUTH_DOMAIN_TAG in
  let st := write_field st [AUTH_TBS_VERSION] in
  let st := write_field st session_id in
  let st := write_field st device_pubkey in
  let st := write_field st challenge in
  fst st.

Record IdentityProof := {
  device_pubkey : bytes;
  proof_challenge : bytes;
  proof_signature : bytes;
}.

#[global] Instance IdentityProof_eq_dec : EqDecision IdentityProof.
Proof. solve_decision. Defined.

Definition proof_decode (b : bytes) : result CryptoError IdentityProof :=
  if negb (blen b =? IDENTITY_PROOF_LEN)
  then Err (MalformedSignature "identity proof must be exactly 128 bytes") else
  let? key := ok_or (get_range b 0 PUBKEY_LEN)
                    (MalformedSignature "identity proof too short for device pubkey") in
  let challenge_end := PUBKEY_LEN + PEER_AUTH_CHALLENGE_LEN in
  let? challenge := ok_or (get_range b PUBKEY_LEN challenge_end)
                          (MalformedSignature "identity proof too short for challenge") in
  let? sig_slice := ok_or (get_range b challenge_end IDENTITY_PROOF_LEN)
                          (MalformedSignature "identity proof too short for signature") in
  let? sig := signature_decode sig_slice in
  Ok {| device_pubkey := key; proof_challenge := challenge; proof_signature := sig |}.

Definition proof_encode (p : IdentityProof) : bytes :=
  let st := (replicate (Z.to_nat IDENTITY_PROOF_LEN) 0, 0) in
  let st := write_field st (device_pubkey p) in
  let st := write_field st (proof_challenge p) in
  let st := write_field st (proof_signature p) in
  fst st.

Section Proofs.
Context `{SP : SigPrims} `{KP : !KeyPrims}.

Definition proof_create {K} `{Keystore K} (ks : K) (session_id challenge : bytes)
    : result CryptoError IdentityProof :=
  let? identity := ks_device_identity ks in
  let key := public_key_bytes identity in
  let tbs := auth_tbs session_id key challenge in
  let? sig := ks_sign ks tbs in
  Ok {| device_pubkey := key; proof_challenge := challenge; proof_signature := sig |}.

Definition proof_verify (p : IdentityProof) (expected_fp : Fingerprint)
    (expected_session_id expected_challenge : bytes) : result CryptoError unit :=
  if negb (bytes_eqb (proof_challenge p) expected_challenge) then Err SignatureErr else
  let? identity := from_public_key_bytes (device_pubkey p) in
  if negb (bool_decide (fingerprint identity = expected_fp)) then Err SignatureErr else
  let tbs := auth_tbs expected_session_id (device_pubkey p) (proof_challenge p) in
  signature_verify (proof_signature p) identity tbs.
End Proofs.

(** ** Layout *)

(** Filling a zeroed buffer field by field writes the fields one after the other. *)
Lemma write_field_append a src n :
  blen a + blen src + Z.of_nat n <= usize_max ->
  write_field (a ++ replicate (length src + n) 0, blen a) src =
    ((a ++ src) ++ replicate n 0, blen (a ++ src)).
Proof.
  intros Hm. pose proof (blen_nonneg a). pose proof (blen_nonneg src). unfold write_field, sat_add.
  rewrite Z.min_r by lia.
  rewrite (get_range_at _ a (replicate (length src) 0) (replicate n 0)).
  - rewrite blen_app. f_equal. unfold copy_at, blen. rewrite Nat2Z.id, take_app_length.
    rewrite drop_app_ge by lia. replace (length a + length src - length a)%nat with (length src) by lia.
    rewrite drop_replicate. replace (length src + n - length src)%nat with n by lia. by rewrite app_assoc.
  - by rewrite replicate_add.
  - done.
  - unfold blen. by rewrite length_replicate.
Qed.

Lemma auth_tbs_eq s k c :
  blen s = SESSION_ID_LEN -> blen k = PUBKEY_LEN -> blen c = PEER_AUTH_CHALLENGE_LEN ->
  auth_tbs s k c = AUTH_DOMAIN_TAG ++ [AUTH_TBS_VERSION] ++ s ++ k ++ c.
Proof.
  unfold SESSION_ID_LEN, PUBKEY_LEN, PEER_AUTH_CHALLENGE_LEN. intros Hs Hk Hc. unfold auth_tbs.
  assert (length s = 16%nat /\ length k = 32%nat /\ length c = 32%nat) as (Ls & Lk & Lc) by (unfold blen in *; lia).
  assert (replicate (Z.to_nat AUTH_TBS_LEN) 0 = [] ++ replicate (length AUTH_DOMAIN_TAG + 81) 0) as -> by reflexivity.
  change 0 with (blen []) at 2. rewrite write_field_append by (vm_compute; discriminate).
  change (replicate 81 0) with (replicate (length [AUTH_TBS_VERSION] + 80) 0).
  rewrite write_field_append by (vm_compute; discriminate).
  replace 80%nat with (length s + 64)%nat by lia.
  rewrite write_field_append by (rewrite !blen_app, Hs; vm_compute; discriminate).
  replace 64%nat with (length k + 32)%nat by lia.
  rewrite write_field_append by (rewrite !blen_app, Hs, Hk; vm_compute; discriminate).
  replace 32%nat with (length c + 0)%nat by lia.
  rewrite write_field_append by (rewrite !blen_app, Hs, Hk, Hc; vm_compute; discriminate).
  cbn [fst replicate app]. by rewrite app_nil_r, <- !app_assoc.
Qed.

Definition proof_ok (p : IdentityProof) : Prop :=
  blen (device_pubkey p) = PUBKEY_LEN /\ blen (proof_challenge p) = PEER_AUTH_CHALLENGE_LEN /\
  blen (proof_signature p) = SIGNATURE_LEN.

Lemma proof_encode_eq p :
  proof_ok p -> proof_encode p = device_pubkey p ++ proof_challenge p ++ proof_signature p.
Proof.
  unfold proof_ok, PUBKEY_LEN, PEER_AUTH_CHALLENGE_LEN, SIGNATURE_LEN. intros (Hk & Hc & Hs). unfold proof_encode.
  assert (length (device_pubkey p) = 32%nat /\ length (proof_challenge p) = 32%nat /\ length (proof_signature p) = 64%nat)
    as (Lk & Lc & Ls) by (unfold blen in *; lia).
  assert (replicate (Z.to_nat IDENTITY_PROOF_LEN) 0 = [] ++ replicate (length (device_pubkey p) + 96) 0) as -> by (by rewrite Lk).
  change 0 with (blen []) at 2. rewrite write_field_append by (rewrite Hk; vm_compute; discriminate).
  replace 96%nat with (length (proof_challenge p) + 64)%nat by lia.
  rewrite write_field_append by (rewrite !blen_app, Hk, Hc; vm_compute; discriminate).
  replace 64%nat with (length (proof_signature p) + 0)%nat by lia.
  rewrite write_field_append by (rewrite !blen_app, Hk, Hc, Hs; vm_compute; discriminate).
  cbn [fst replicate app]. by rewrite app_nil_r, <- !app_assoc.
Qed.

Lemma proof_decode_iff b p :
  proof_decode b = Ok p <-> proof_ok p /\ b = proof_encode p.
Proof.
  split.
  - unfold proof_decode. destruct (Z.eqb_spec (blen b) IDENTITY_PROOF_LEN) as [Hl|]; [|done]. cbn [negb].
    destruct (split_widths [32; 32; 64] b) as (ps & -> & Hps); [repeat constructor; lia|done|].
    do 3 (destruct ps as [|? ps]; [done|]). destruct ps; [|done]. injection Hps as H1 H2 H3.
    rewrite (get_range_concat [_; _; _] 0 l) by (done || rewrite H1; done).
    rewrite (get_range_concat [_; _; _] 1 l0) by (done || (cbn; rewrite ?H1, ?H2; done)).
    rewrite (get_range_concat [_; _; _] 2 l1) by (done || (cbn; rewrite ?H1, ?H2, ?H3; done)).
    cbn [ok_or]. unfold signature_decode. rewrite H3, Z.eqb_refl. intros [= <-].
    assert (proof_ok {| device_pubkey := l; proof_challenge := l0; proof_signature := l1 |}) as Hok by done.
    split; [done|]. rewrite proof_encode_eq by done. cbn [concat device_pubkey proof_challenge proof_signature].
    by rewrite app_nil_r.
  - intros [Hok ->]. rewrite proof_encode_eq by done. destruct Hok as (Hk & Hc & Hs).
    unfold PUBKEY_LEN, PEER_AUTH_CHALLENGE_LEN in Hk, Hc.
    unfold proof_decode. rewrite !blen_app, Hk, Hc, Hs. change (32 + (32 + SIGNATURE_LEN) =? IDENTITY_PROOF_LEN) with true.
    cbn [negb]. unfold PUBKEY_LEN, PEER_AUTH_CHALLENGE_LEN, IDENTITY_PROOF_LEN.
    rewrite (get_range_at _ [] (device_pubkey p) (proof_challenge p ++ proof_signature p)) by (done || by rewrite Hk).
    rewrite (get_range_at _ (device_pubkey p) (proof_challenge p) (proof_signature p)) by (done || by rewrite Hc).
    rewrite (get_range_at _ (device_pubkey p ++ proof_challenge p) (proof_signature p) [])
      by (rewrite ?app_nil_r, ?blen_app, ?Hk, ?Hc, ?Hs; by rewrite <- ?app_assoc).
    cbn [ok_or]. unfold signature_decode. rewrite Hs, Z.eqb_refl. by destruct p.
Qed.

(** The signed bytes determine the session, the key and the challenge. *)
Lemma auth_tbs_inj s k c s' k' c' :
  blen s = SESSION_ID_LEN -> blen k = PUBKEY_LEN -> blen c = PEER_AUTH_CHALLENGE_LEN ->
  blen s' = SESSION_ID_LEN -> blen k' = PUBKEY_LEN -> blen c' = PEER_AUTH_CHALLENGE_LEN ->
  auth_tbs s k c = auth_tbs s' k' c' -> s = s' /\ k = k' /\ c = c'.
Proof.
  intros Hs Hk Hc Hs' Hk' Hc'. rewrite !auth_tbs_eq by done. intros E.
  apply app_inv_head in E. apply app_inv_head in E. unfold blen in *.
  apply app_inj_1 in E as [-> E]; [|lia]. apply app_inj_1 in E as [-> ->]; [done|lia].
Qed.

Section ProofLemmas.
Context `{SP : SigPrims} `{KP : !KeyPrims} `{SL : !SigLaws}.

(** What a relay learns from a proof: its key is valid, hashes to the claimed fingerprint and
    signed this challenge for this session. *)
Definition possesses (p : IdentityProof) (f : Fingerprint) (session_id challenge : bytes) : Prop :=
  proof_challenge p = challenge /\
  from_public_key_bytes (device_pubkey p) = Ok (identity_from_verifying_key (device_pubkey p)) /\
  f = fingerprint_from_verifying_key (device_pubkey p) /\
  ed25519_verify (device_pubkey p) (auth_tbs session_id (device_pubkey p) challenge)
    (proof_signature p) = true.

Lemma proof_verify_possesses p f s c :
  proof_verify p f s c = Ok tt <-> possesses p f s c.
Proof.
  unfold proof_verify, possesses, bytes_eqb. case_bool_decide as Hc; cbn [negb].
  2:{ split; [done|]. by intros [? _]. }
  unfold from_public_key_bytes. destruct (ed25519_point_ok _); cbn [negb].
  2:{ split; [done|]. by intros (_ & ? & _). }
  destruct (ed25519_is_weak _).
  { split; [done|]. by intros (_ & ? & _). }
  cbn [fingerprint identity_from_verifying_key]. case_bool_decide as Hf; cbn [negb].
  2:{ split; [done|]. intros (_ & _ & -> & _). done. }
  unfold signature_verify. cbn [verifying_key]. rewrite Hc.
  destruct (ed25519_verify _ _ _); split; try done. by intros (_ & _ & _ & ?).
Qed.

Context {K : Type} `{KS : Keystore K}.

(** A proof made for a challenge verifies for it. *)
Lemma proof_create_verifies (ks : K) id s c :
  signs_for ks id -> from_public_key_bytes (verifying_key id) = Ok id ->
  exists p, proof_create ks s c = Ok p /\
    proof_verify p (fingerprint id) s c = Ok tt /\
    (blen (verifying_key id) = 32 -> blen c = PEER_AUTH_CHALLENGE_LEN -> proof_ok p).
Proof.
  intros [Hid Hsign] Hk. unfold proof_create. rewrite Hid.
  destruct (Hsign (auth_tbs s (public_key_bytes id) c)) as (sig & -> & Hl & Hv).
  eexists. split; [done|]. split; [|intros; by split].
  unfold proof_verify, bytes_eqb. cbn [proof_challenge device_pubkey proof_signature].
  rewrite bool_decide_eq_true_2 by done. cbn [negb]. unfold public_key_bytes in *. rewrite Hk.
  rewrite bool_decide_eq_true_2 by done. cbn [negb]. unfold signature_verify. by rewrite Hv.
Qed.
End ProofLemmas.
