(* ===== verification/Signaling.v ===== *)
(** * sh-signaling: envelopes, reconnect delays and peer authentication

    [crates/sh-signaling/src]: the relay's message format ([envelope.rs]), the reconnect
    delays ([backoff.rs]), the authentication interface with its production instance
    ([auth.rs]) and the errors ([error.rs]).  Strings are their bytes; a fingerprint in an
    envelope is checked to be 64 lowercase hex digits. *)

From stdpp Require Import base numbers list option strings.
From S2P Require Import Prelude Utf8 CryptoTypes Identity BindCert PeerAuth.

(** ** Errors *)

Inductive SignalingError :=
| EnvelopeTooShort (actual : Z)
| UnknownMessageKind (byte : Z)
| PayloadTooLarge (len : Z)
| TruncatedPayload (declared available : Z)
| InvalidFingerprint
| WebSocketErr
| IoErr
| SessionNotFound (session_id : bytes)
| PeerNotFound (fp : bytes)
| FingerprintSpoofAttempt (registered attempted : bytes)
| SessionTableFull (max : Z)
| SessionFull (max : Z)
| NotConnected
| ServerError (reason : bytes)
| UnexpectedMessageType
| AlreadyRegistered
| InvalidChallenge
| SigCrypto (e : CryptoError)
| AuthenticationFailed.

#[global] Instance SignalingError_eq_dec : EqDecision SignalingError.
Proof. solve_decision. Defined.

(** ** Envelopes *)

Definition MAX_PAYLOAD_LEN : Z := 64 * 1024.
Definition ENVELOPE_HEADER_LEN : Z := 149.
Definition FROM_FP_OFFSET : Z := 17.
Definition TO_FP_OFFSET : Z := 81.
Definition PAYLOAD_LEN_OFFSET : Z := 145.
Definition FP_LEN : Z := 64.

Inductive MessageKind :=
| Hello | Offer | Answer | Candidate | EndOfCandidates | Bye | ErrorMsg | Challenge | Noise.

#[global] Instance MessageKind_eq_dec : EqDecision MessageKind.
Proof. solve_decision. Defined.

(** [kind as u8]. *)
Definition kind_u8 (k : MessageKind) : Z :=
  match k with
  | Hello => 0 | Offer => 1 | Answer => 2 | Candidate => 3 | EndOfCandidates => 4
  | Bye => 5 | ErrorMsg => 6 | Challenge => 7 | Noise => 8
  end.

Definition kind_from_u8 (b : Z) : result SignalingError MessageKind :=
  match b with
  | 0 => Ok Hello | 1 => Ok Offer | 2 => Ok Answer | 3 => Ok Candidate | 4 => Ok EndOfCandidates
  | 5 => Ok Bye | 6 => Ok ErrorMsg | 7 => Ok Challenge | 8 => Ok Noise
  | other => Err (UnknownMessageKind other)
  end.

Record SignalingEnvelope := {
  kind : MessageKind;
  session_id : bytes;
  from_fp : bytes;
  to_fp : bytes;
  payload : bytes;
}.

#[global] Instance SignalingEnvelope_eq_dec : EqDecision SignalingEnvelope.
Proof. solve_decision. Defined.

Definition is_hex_lower (b : Z) : bool :=
  (48 <=? b) && (b <=? 57) || (97 <=? b) && (b <=? 102).

Definition validate_fp (fp : bytes) : result SignalingError unit :=
  if negb (blen fp =? FP_LEN) || negb (forallb is_hex_lower fp)
  then Err InvalidFingerprint else Ok tt.

Definition envelope_encode (env : SignalingEnvelope) : result SignalingError bytes :=
  let payload_len := blen (payload env) in
  if MAX_PAYLOAD_LEN <? payload_len then Err (PayloadTooLarge payload_len) else
  let? _ := validate_fp (from_fp env) in
  let? _ := validate_fp (to_fp env) in
  Ok ([kind_u8 (kind env)] ++ session_id env ++ from_fp env ++ to_fp env
      ++ to_be 4 payload_len ++ payload env).

Definition from_utf8 (b : bytes) : result SignalingError bytes :=
  if utf8_valid b then Ok b else Err InvalidFingerprint.

Definition envelope_decode (buf : bytes) : result SignalingError SignalingEnvelope :=
  let short := EnvelopeTooShort (blen buf) in
  if blen buf <? ENVELOPE_HEADER_LEN then Err short else
  let? b0 := ok_or (head buf) (EnvelopeTooShort 0) in
  let? k := kind_from_u8 b0 in
  let? sid := ok_or (get_range buf 1 17) short in
  let? from_bytes := ok_or (get_range buf FROM_FP_OFFSET (FROM_FP_OFFSET + FP_LEN)) short in
  let? from := from_utf8 from_bytes in
  let? _ := validate_fp from in
  let? to_bytes := ok_or (get_range buf TO_FP_OFFSET (TO_FP_OFFSET + FP_LEN)) short in
  let? to := from_utf8 to_bytes in
  let? _ := validate_fp to in
  let? len_bytes := ok_or (get_range buf PAYLOAD_LEN_OFFSET (PAYLOAD_LEN_OFFSET + 4)) short in
  let payload_len := from_be len_bytes in
  if MAX_PAYLOAD_LEN <? payload_len then Err (PayloadTooLarge payload_len) else
  let available := sat_sub (blen buf) ENVELOPE_HEADER_LEN in
  if available <? payload_len then Err (TruncatedPayload payload_len available) else
  let? pl := ok_or (get_range buf ENVELOPE_HEADER_LEN (ENVELOPE_HEADER_LEN + payload_len))
                   (TruncatedPayload payload_len available) in
  Ok {| kind := k; session_id := sid; from_fp := from; to_fp := to; payload := pl |}.

(** ** Reconnect delays *)

Class BackoffStrategy (B : Type) := {
  next_delay : B -> B * option Z;
  backoff_reset : B -> B;
}.

Record ExponentialBackoff := {
  base_ms : Z;
  max_ms : Z;
  max_attempts : Z;
  current_ms : Z;
  attempts : Z;
}.

Definition backoff_new (base_ms max_ms max_attempts : Z) : ExponentialBackoff :=
  {| base_ms := base_ms; max_ms := max_ms; max_attempts := max_attempts;
     current_ms := base_ms; attempts := 0 |}.

Definition backoff_default : ExponentialBackoff := backoff_new 100 30000 8.

(** Delays in milliseconds. *)
Definition exp_next_delay (b : ExponentialBackoff) : ExponentialBackoff * option Z :=
  if max_attempts b <=? attempts b then (b, None) else
  ({| base_ms := base_ms b; max_ms := max_ms b; max_attempts := max_attempts b;
      current_ms := Z.min (sat_mul u64_max (current_ms b) 2) (max_ms b);
      attempts := sat_add u32_max (attempts b) 1 |}, Some (current_ms b)).

Definition exp_reset (b : ExponentialBackoff) : ExponentialBackoff :=
  {| base_ms := base_ms b; max_ms := max_ms b; max_attempts := max_attempts b;
     current_ms := base_ms b; attempts := 0 |}.

#[global] Instance exponential_backoff : BackoffStrategy ExponentialBackoff :=
  {| next_delay := exp_next_delay; backoff_reset := exp_reset |}.

Inductive ImmediateBackoff := immediate.
#[global] Instance immediate_backoff : BackoffStrategy ImmediateBackoff :=
  {| next_delay b := (b, Some 0); backoff_reset b := b |}.

Inductive NoReconnect := no_reconnect.
#[global] Instance no_reconnect_backoff : BackoffStrategy NoReconnect :=
  {| next_delay b := (b, None); backoff_reset b := b |}.

(** ** Authentication *)

Inductive AuthError := MalformedProof | ProofRejected | PolicyDenied.

Record AuthContext := {
  claimed_fp : bytes;
  ctx_session_id : bytes;
  ctx_challenge : bytes;
  ctx_proof : bytes;
}.

(** [PeerAuthenticator]: the production instance is [identity_proof_authenticate]. *)
Definition PeerAuthenticator : Type := AuthContext -> result AuthError unit.

(** [impl From<AuthError> for SignalingError]. *)
Definition signaling_error_of_auth (e : AuthError) : SignalingError := AuthenticationFailed.

(** The bytes of a fingerprint string, as a string. *)
Definition fp_string (b : bytes) : Fingerprint :=
  String.string_of_list_ascii (map (fun c => Ascii.ascii_of_nat (Z.to_nat c)) b).

Definition identity_proof_authenticate `{SigPrims} `{!KeyPrims} : PeerAuthenticator := fun ctx =>
  let? proof := map_err (fun _ => MalformedProof) (proof_decode (ctx_proof ctx)) in
  map_err (fun _ => ProofRejected)
    (proof_verify proof (fp_string (claimed_fp ctx)) (ctx_session_id ctx) (ctx_challenge ctx)).

(** ** The format is exact *)

Definition fp_ok (fp : bytes) : Prop := blen fp = FP_LEN /\ forallb is_hex_lower fp = true.

Lemma validate_fp_Ok fp : validate_fp fp = Ok tt <-> fp_ok fp.
Proof.
  unfold validate_fp, fp_ok. destruct (Z.eqb_spec (blen fp) FP_LEN), (forallb is_hex_lower fp);
    cbn [negb orb]; split; try done; by intros [? ?].
Qed.

Lemma hex_lower_ascii fp : forallb is_hex_lower fp = true -> Forall (fun b => 0 <= b < 128) fp.
Proof.
  rewrite forallb_forall, Forall_forall. intros H b Hb. apply list_elem_of_In, H in Hb.
  unfold is_hex_lower in Hb. apply orb_true_iff in Hb as [Hb|Hb]; simplify_bool; lia.
Qed.

Lemma from_utf8_fp fp : fp_ok fp -> from_utf8 fp = Ok fp.
Proof.
  intros [_ Hx]. unfold from_utf8. apply hex_lower_ascii in Hx.
  rewrite (proj2 (utf8_valid_Some fp)); [done|]. exists fp. apply utf8_decode_ascii.
  eapply Forall_impl; [exact Hx|]. cbn. lia.
Qed.

Lemma from_utf8_Ok b s : from_utf8 b = Ok s -> s = b.
Proof. unfold from_utf8. case_match; [|done]. by intros [= ->]. Qed.

Lemma kind_from_u8_iff b k : kind_from_u8 b = Ok k <-> b = kind_u8 k.
Proof.
  split; [|intros ->; by destruct k]. unfold kind_from_u8. repeat case_match; try done; by intros [= <-].
Qed.

Definition envelope_ok (env : SignalingEnvelope) : Prop :=
  blen (session_id env) = 16 /\ fp_ok (from_fp env) /\ fp_ok (to_fp env) /\
  blen (payload env) <= MAX_PAYLOAD_LEN.

Definition envelope_wire (env : SignalingEnvelope) : bytes :=
  concat [[kind_u8 (kind env)]; session_id env; from_fp env; to_fp env;
          to_be 4 (blen (payload env)); payload env].

Lemma envelope_encode_Ok env w :
  envelope_encode env = Ok w <->
  fp_ok (from_fp env) /\ fp_ok (to_fp env) /\ blen (payload env) <= MAX_PAYLOAD_LEN /\
  w = envelope_wire env.
Proof.
  unfold envelope_encode. destruct (MAX_PAYLOAD_LEN <? blen (payload env)) eqn:Em; simplify_bool.
  { split; [done|]. intros (_ & _ & ? & _). lia. }
  destruct (validate_fp (from_fp env)) as [[]|] eqn:Ef.
  2:{ split; [done|]. intros (Hf & _). apply validate_fp_Ok in Hf. congruence. }
  destruct (validate_fp (to_fp env)) as [[]|] eqn:Et.
  2:{ split; [done|]. intros (_ & Hf & _). apply validate_fp_Ok in Hf. congruence. }
  apply validate_fp_Ok in Ef, Et. unfold envelope_wire. cbn [concat]. rewrite app_nil_r.
  split; [intros [= <-]; done|]. by intros (_ & _ & _ & ->).
Qed.

(** The reads of [envelope_decode] on a header followed by a payload area. *)
Lemma envelope_reads b0 sid from to len rest :
  blen sid = 16 -> blen from = 64 -> blen to = 64 -> blen len = 4 ->
  let buf := concat [[b0]; sid; from; to; len; rest] in
  blen buf = ENVELOPE_HEADER_LEN + blen rest /\ head buf = Some b0 /\
  get_range buf 1 17 = Some sid /\
  get_range buf FROM_FP_OFFSET (FROM_FP_OFFSET + FP_LEN) = Some from /\
  get_range buf TO_FP_OFFSET (TO_FP_OFFSET + FP_LEN) = Some to /\
  get_range buf PAYLOAD_LEN_OFFSET (PAYLOAD_LEN_OFFSET + 4) = Some len.
Proof.
  intros Hs Hf Ht Hl buf. subst buf.
  assert (forall i p lo hi, [[b0]; sid; from; to; len; rest] !! i = Some p ->
    lo = sumZ (take i [1; 16; 64; 64; 4; blen rest]) -> hi = lo + blen p ->
    get_range (concat [[b0]; sid; from; to; len; rest]) lo hi = Some p) as R.
  { intros i p lo hi Hi -> ->. apply (get_range_concat _ i); [done| |done].
    rewrite <- firstn_map. cbn [map]. by rewrite Hs, Hf, Ht, Hl. }
  split; [rewrite blen_concat; cbn [map sumZ foldr]; rewrite Hs, Hf, Ht, Hl; unfold ENVELOPE_HEADER_LEN; change (blen [b0]) with 1; lia|].
  split; [done|].
  split_and!; [apply (R 1%nat)|apply (R 2%nat)|apply (R 3%nat)|apply (R 4%nat)];
    first [reflexivity|rewrite ?Hs, ?Hf, ?Ht, ?Hl; reflexivity].
Qed.

Lemma envelope_decode_encode env rest :
  envelope_ok env -> envelope_decode (envelope_wire env ++ rest) = Ok env.
Proof.
  intros (Hs & Hf & Ht & Hp). pose proof (blen_nonneg (payload env)) as Hn. pose proof (blen_nonneg rest) as Hr.
  destruct (envelope_reads (kind_u8 (kind env)) (session_id env) (from_fp env) (to_fp env)
    (to_be 4 (blen (payload env))) (payload env ++ rest)) as (Hlen & H0 & H1 & H2 & H3 & H4);
    [done|apply Hf|apply Ht|by rewrite blen_to_be|].
  assert (envelope_wire env ++ rest = concat [[kind_u8 (kind env)]; session_id env; from_fp env; to_fp env;
            to_be 4 (blen (payload env)); payload env ++ rest]) as E.
  { unfold envelope_wire. cbn [concat]. by rewrite !app_nil_r, <- !app_assoc. }
  rewrite <- E in *. unfold envelope_decode. rewrite (blen_app (payload env)) in Hlen. unfold ENVELOPE_HEADER_LEN, MAX_PAYLOAD_LEN in *.
  rewrite (proj2 (Z.ltb_ge _ _)) by lia. rewrite H0, H1, H2, H3, H4. cbn [ok_or].
  rewrite (proj2 (kind_from_u8_iff _ (kind env))) by done.
  rewrite !from_utf8_fp by done. rewrite (proj2 (validate_fp_Ok (from_fp env)) Hf), (proj2 (validate_fp_Ok (to_fp env)) Ht).
  rewrite from_be_to_be_small by (change (256 ^ Z.of_nat 4) with 4294967296; lia).
  rewrite (proj2 (Z.ltb_ge _ _)) by lia. unfold sat_sub.
  rewrite (proj2 (Z.ltb_ge _ _)) by lia.
  rewrite (get_range_at _ (concat [[kind_u8 (kind env)]; session_id env; from_fp env; to_fp env;
    to_be 4 (blen (payload env))]) (payload env) rest).
  - cbn [ok_or]. by destruct env.
  - rewrite E. cbn [concat]. by rewrite !app_nil_r, <- !app_assoc.
  - rewrite blen_concat. cbn [map sumZ foldr]. rewrite Hs, (proj1 Hf), (proj1 Ht), blen_to_be. done.
  - done.
Qed.

Lemma envelope_decode_canonical buf env :
  bytes_ok buf -> envelope_decode buf = Ok env ->
  envelope_ok env /\ exists rest, buf = envelope_wire env ++ rest.
Proof.
  intros Hb. unfold envelope_decode. destruct (blen buf <? ENVELOPE_HEADER_LEN) eqn:El; [done|]. simplify_bool.
  destruct (split_widths [1; 16; 64; 64; 4; blen buf - ENVELOPE_HEADER_LEN] buf) as (ps & -> & Hps).
  { repeat constructor; lia. } { cbn. unfold ENVELOPE_HEADER_LEN. lia. }
  do 6 (destruct ps as [|? ps]; [done|]). destruct ps; [|done]. injection Hps as H1 Hs Hf Ht Hl _.
  destruct (singleton_blen _ H1) as [b0 ->].
  destruct (envelope_reads b0 l0 l1 l2 l3 l4 Hs Hf Ht Hl) as (Hlen & -> & -> & -> & -> & ->). cbn [ok_or].
  destruct (kind_from_u8 b0) as [k|] eqn:Ek; [|done]. apply kind_from_u8_iff in Ek as ->.
  destruct (from_utf8 l1) as [f|] eqn:Ef; [|done]. apply from_utf8_Ok in Ef as ->.
  destruct (validate_fp l1) as [[]|] eqn:Vf; [|done].
  destruct (from_utf8 l2) as [t|] eqn:Et; [|done]. apply from_utf8_Ok in Et as ->.
  destruct (validate_fp l2) as [[]|] eqn:Vt; [|done]. apply validate_fp_Ok in Vf, Vt.
  destruct (MAX_PAYLOAD_LEN <? from_be l3) eqn:Em; [done|]. simplify_bool.
  unfold sat_sub. rewrite Hlen. destruct (_ <? from_be l3) eqn:Ea; [done|]. simplify_bool.
  assert (bytes_ok l3) as Hb3.
  { unfold bytes_ok in *. cbn [concat] in Hb. rewrite !Forall_app in Hb. apply Hb. }
  pose proof (from_be_range l3 Hb3) as R3. pose proof (blen_nonneg l4).
  destruct (split_blen l4 (from_be l3) (blen l4 - from_be l3)) as (pl & rest & -> & Hpl & _); [lia..|].
  rewrite (get_range_at _ (concat [[kind_u8 k]; l0; l1; l2; l3]) pl rest).
  - cbn [ok_or]. intros [= <-]. split; [done || (unfold envelope_ok; cbn [session_id from_fp to_fp payload]; by rewrite Hpl)|].
    exists rest. unfold envelope_wire. cbn [concat kind session_id from_fp to_fp payload].
    rewrite Hpl, (to_be_from_be_len l3 4) by done. by rewrite !app_nil_r, <- !app_assoc.
  - cbn [concat]. by rewrite !app_nil_r, <- !app_assoc.
  - rewrite blen_concat. cbn [map sumZ foldr]. rewrite Hs, Hf, Ht, Hl. done.
  - by rewrite Hpl.
Qed.

Lemma envelope_decode_iff buf env :
  bytes_ok buf ->
  envelope_decode buf = Ok env <->
  envelope_ok env /\ exists b rest, envelope_encode env = Ok b /\ buf = b ++ rest.
Proof.
  intros Hb. split.
  - intros Hd. destruct (envelope_decode_canonical buf env Hb Hd) as (Hok & rest & ->).
    split; [done|]. exists (envelope_wire env), rest. split; [|done].
    apply envelope_encode_Ok. by destruct Hok as (_ & ? & ? & ?).
  - intros (Hok & b & rest & He & ->). apply envelope_encode_Ok in He as (_ & _ & _ & ->).
    by apply envelope_decode_encode.
Qed.
