(* ===== verification/SignalServer.v ===== *)
(** * sh-signaling: the relay

    [crates/sh-signaling/src/server.rs] as a state machine: the shared registry (session,
    fingerprint, connection), one record per connection task, and an event for everything a
    task reacts to.  A connection's [mpsc] sender is its connection number and its bounded
    channel [c_queue], a value of any [Mpsc] (tokio is a parameter); what is written to its
    socket is the list [c_sent].  The
    registry's lock makes each handler atomic with respect to it, so a run is a list of
    events.  [HashMap]s are [gmap]s; the connection a disconnect notifies is the first
    remaining one (there is at most one other while a session holds two). *)

From stdpp Require Import base numbers list option strings gmap.
From S2P Require Import Prelude CryptoTypes Identity BindCert PeerAuth Signaling.

Definition MAX_SESSIONS : Z := 10000.
Definition MAX_PEERS_PER_SESSION : Z := 2.
Definition MAX_CONNECTIONS : Z := 20000.
(** [mpsc::channel(64)]. *)
Definition CHANNEL_CAP : Z := 64.

Abbreviation SessionRegistry := (gmap bytes (gmap bytes Z)).

(** One connection task: its challenge, the identity bound by [Hello], its channel, its
    socket's output, and whether the task still runs. *)
Record Conn (Q : Type) := {
  c_challenge : bytes;
  registered_fp : option bytes;
  registered_session : option bytes;
  c_queue : Q;
  c_sent : list bytes;
  c_open : bool;
}.
Arguments c_challenge {Q} _.
Arguments registered_fp {Q} _.
Arguments registered_session {Q} _.
Arguments c_queue {Q} _.
Arguments c_sent {Q} _.
Arguments c_open {Q} _.

Record Server (Q : Type) := {
  registry : SessionRegistry;
  conns : gmap Z (Conn Q);
}.
Arguments registry {Q} _.
Arguments conns {Q} _.

Section Server.
Context {Q : Type} `{MQ : Mpsc SignalingEnvelope Q}.
Implicit Types (s : Server Q) (k : Conn Q).

Definition server_new : Server Q := {| registry := ∅; conns := ∅ |}.

Definition set_conn (s : Server Q) (c : Z) (k : Conn Q) : Server Q :=
  {| registry := registry s; conns := <[c := k]> (conns s) |}.

Definition set_registry (s : Server Q) (r : SessionRegistry) : Server Q :=
  {| registry := r; conns := conns s |}.

Definition set_queue (k : Conn Q) (q : Q) : Conn Q :=
  {| c_challenge := c_challenge k; registered_fp := registered_fp k;
     registered_session := registered_session k; c_queue := q;
     c_sent := c_sent k; c_open := c_open k |}.

(** [try_send] on the sender of connection [c]. *)
Definition send_to (s : Server Q) (c : Z) (env : SignalingEnvelope)
    : Server Q * result TrySendError unit :=
  match conns s !! c with
  | Some k => let '(q, r) := mpsc_try_send (c_queue k) env in (set_conn s c (set_queue k q), r)
  | None => (s, Err Closed)
  end.

Definition zero_fp : bytes := replicate 64 48.
Definition zero_session : bytes := replicate 16 0.

Definition make_challenge_envelope (challenge : bytes) : SignalingEnvelope :=
  {| kind := Challenge; session_id := zero_session; from_fp := zero_fp; to_fp := zero_fp;
     payload := challenge |}.

Definition make_error_envelope (sid : option bytes) (fp reason : bytes) : SignalingEnvelope :=
  let payload_end := Z.min (blen reason) MAX_PAYLOAD_LEN in
  let fp_padded := if blen fp =? 64 then fp else zero_fp in
  {| kind := ErrorMsg; session_id := default zero_session sid; from_fp := fp_padded;
     to_fp := fp_padded; payload := take (Z.to_nat payload_end) reason |}.

Definition forward_to_peer (s : Server Q) (env : SignalingEnvelope)
    : Server Q * result SignalingError unit :=
  match registry s !! session_id env with
  | None => (s, Err (SessionNotFound (session_id env)))
  | Some session =>
      match session !! to_fp env with
      | None => (s, Err (PeerNotFound (to_fp env)))
      | Some c => match send_to s c env with
                  | (s', Ok _) => (s', Ok tt)
                  | (s', Err _) => (s', Err (PeerNotFound (to_fp env)))
                  end
      end
  end.

Section Relay.
(** The injected [PeerAuthenticator]. *)
Context (auth : PeerAuthenticator).

Definition register (k : Conn Q) (fp sid : bytes) : Conn Q :=
  {| c_challenge := c_challenge k; registered_fp := Some fp; registered_session := Some sid;
     c_queue := c_queue k; c_sent := c_sent k; c_open := c_open k |}.

Definition handle_hello (s : Server Q) (c : Z) (k : Conn Q) (env : SignalingEnvelope)
    : Server Q * result SignalingError (option SignalingEnvelope) :=
  match registered_fp k with
  | Some _ => (s, Err AlreadyRegistered)
  | None =>
      let ctx := {| claimed_fp := from_fp env; ctx_session_id := session_id env;
                    ctx_challenge := c_challenge k; ctx_proof := payload env |} in
      match auth ctx with
      | Err e => (s, Err (signaling_error_of_auth e))
      | Ok _ =>
          let reg := registry s in
          if negb (bool_decide (is_Some (reg !! session_id env)))
             && (MAX_SESSIONS <=? Z.of_nat (size reg))
          then (s, Err (SessionTableFull MAX_SESSIONS)) else
          let session := default ∅ (reg !! session_id env) in
          (* [entry(..).or_insert_with(HashMap::new)] *)
          let reg := <[session_id env := session]> reg in
          if (MAX_PEERS_PER_SESSION <=? Z.of_nat (size session))
             && negb (bool_decide (is_Some (session !! from_fp env)))
          then (set_registry s reg, Err (SessionFull MAX_PEERS_PER_SESSION)) else
          let reg := <[session_id env := <[from_fp env := c]> session]> reg in
          let ack := {| kind := Hello; session_id := session_id env; from_fp := from_fp env;
                        to_fp := from_fp env; payload := [] |} in
          (set_conn (set_registry s reg) c (register k (from_fp env) (session_id env)),
           Ok (Some ack))
      end
  end.

Definition handle_message (s : Server Q) (c : Z) (k : Conn Q) (msg : bytes)
    : Server Q * result SignalingError (option SignalingEnvelope) :=
  match envelope_decode msg with
  | Err e => (s, Err e)
  | Ok env =>
      let spoof := match registered_fp k with
                   | Some registered => negb (bytes_eqb (from_fp env) registered)
                   | None => false
                   end in
      if spoof
      then (s, Err (FingerprintSpoofAttempt (default [] (registered_fp k)) (from_fp env))) else
      match kind env with
      | Hello => handle_hello s c k env
      | Bye => (fst (forward_to_peer s env), Ok None)
      | Offer | Answer | Candidate | EndOfCandidates | Noise =>
          let '(s', r) := forward_to_peer s env in
          match r with Ok _ => (s', Ok None) | Err e => (s', Err e) end
      | ErrorMsg | Challenge => (s, Err UnexpectedMessageType)
      end
  end.

(** [ws_sink.send] of an encodable envelope. *)
Definition ws_send (s : Server Q) (c : Z) (env : SignalingEnvelope) : Server Q :=
  match conns s !! c, envelope_encode env with
  | Some k, Ok w =>
      set_conn s c {| c_challenge := c_challenge k; registered_fp := registered_fp k;
                      registered_session := registered_session k; c_queue := c_queue k;
                      c_sent := c_sent k ++ [w]; c_open := c_open k |}
  | _, _ => s
  end.

(** The task has ended: its receiver is dropped with what it held. *)
Definition close_conn (k : Conn Q) : Conn Q :=
  {| c_challenge := c_challenge k; registered_fp := registered_fp k;
     registered_session := registered_session k; c_queue := mpsc_drop_receiver (c_queue k);
     c_sent := c_sent k; c_open := false |}.

(** The end of a connection task: it leaves the registry and tells a remaining peer. *)
Definition cleanup (s : Server Q) (c : Z) : Server Q :=
  match conns s !! c with
  | None => s
  | Some k =>
      match registered_session k, registered_fp k with
      | Some sid, Some fp =>
          match registry s !! sid with
          | None => set_conn s c (close_conn k)
          | Some session =>
              let session := delete fp session in
              let peer := snd <$> head (map_to_list session) in
              let reg := if bool_decide (session = ∅) then delete sid (registry s)
                         else <[sid := session]> (registry s) in
              let s := set_registry s reg in
              let bye := {| kind := Bye; session_id := sid; from_fp := fp; to_fp := zero_fp;
                            payload := [] |} in
              let s := match peer with
                       | Some p => fst (send_to s p bye)
                       | None => s
                       end in
              match conns s !! c with
              | Some k' => set_conn s c (close_conn k')
              | None => s
              end
          end
      | _, _ => set_conn s c (close_conn k)
      end
  end.

(** The reason sent to the client; the texts other than the first are the [Display] of the
    error, a parameter. *)
Context (display : SignalingError -> bytes).

Definition error_reason (e : SignalingError) : bytes :=
  match e with
  | FingerprintSpoofAttempt _ _ => lit "fingerprint mismatch"
  | _ => display e
  end.

Definition is_fatal (e : SignalingError) : bool :=
  match e with FingerprintSpoofAttempt _ _ | AuthenticationFailed => true | _ => false end.

Inductive Event :=
| EvConnect (c : Z) (challenge : bytes)
| EvMessage (c : Z) (msg : bytes)
| EvRouted (c : Z)
| EvHelloTimeout (c : Z)
| EvClose (c : Z).

Definition open_count (s : Server Q) : Z :=
  Z.of_nat (size (filter (fun '(_, k) => c_open k = true) (conns s))).

(** A binary message: dispatch, reply or error envelope, exit on a fatal error. *)
Definition on_message (s : Server Q) (c : Z) (k : Conn Q) (msg : bytes) : Server Q :=
  let '(s, r) := handle_message s c k msg in
  match r with
  | Ok (Some reply) => ws_send s c reply
  | Ok None => s
  | Err e =>
      let s := ws_send s c (make_error_envelope (registered_session k)
                              (default [] (registered_fp k)) (error_reason e)) in
      if is_fatal e then cleanup s c else s
  end.

Definition server_step (s : Server Q) (ev : Event) : Server Q :=
  match ev with
  | EvConnect c challenge =>
      match conns s !! c with
      | Some _ => s
      | None =>
          if MAX_CONNECTIONS <=? open_count s then s else
          ws_send (set_conn s c {| c_challenge := challenge; registered_fp := None;
                                   registered_session := None; c_queue := mpsc_channel CHANNEL_CAP;
                                   c_sent := []; c_open := true |})
                  c (make_challenge_envelope challenge)
      end
  | EvMessage c msg =>
      match conns s !! c with
      | Some k => if c_open k then on_message s c k msg else s
      | None => s
      end
  | EvRouted c =>
      match conns s !! c with
      | Some k =>
          if c_open k then
            match mpsc_recv (c_queue k) with
            | (q, Received env) => ws_send (set_conn s c (set_queue k q)) c env
            | (q, _) => set_conn s c (set_queue k q)
            end
          else s
      | None => s
      end
  | EvHelloTimeout c =>
      match conns s !! c with
      | Some k => if c_open k && bool_decide (registered_fp k = None) then cleanup s c else s
      | None => s
      end
  | EvClose c =>
      match conns s !! c with
      | Some k => if c_open k then cleanup s c else s
      | None => s
      end
  end.

Definition server_run (s : Server Q) (evs : list Event) : Server Q := fold_left server_step evs s.
End Relay.
End Server.
#[global] Arguments server_new {Q}.

(** ** The invariant *)

Section Invariant.
Context {Q : Type} `{MQ : Mpsc SignalingEnvelope Q} {ML : MpscLaws SignalingEnvelope Q}.
Context (auth : PeerAuthenticator) (display : SignalingError -> bytes).
Implicit Types (s : Server Q) (k : Conn Q).

(** The envelopes waiting for a connection. *)
Definition waiting (k : Conn Q) : list SignalingEnvelope := buffered (mpsc_inspect (c_queue k)).

(** The [Hello] that bound connection [c] to a fingerprint and a session. *)
Definition hello_evidence (evs : list Event) (c : Z) (challenge fp sid : bytes) : Prop :=
  exists msg env, EvMessage c msg ∈ evs /\ envelope_decode msg = Ok env /\ kind env = Hello /\
    from_fp env = fp /\ session_id env = sid /\
    auth {| claimed_fp := fp; ctx_session_id := sid; ctx_challenge := challenge;
            ctx_proof := payload env |} = Ok tt.

(** An envelope addressed to the identity the connection proved, or the notice that the peer
    of its session left. *)
Definition addressed_to (k : Conn Q) (env : SignalingEnvelope) : Prop :=
  registered_session k = Some (session_id env) /\
  (registered_fp k = Some (to_fp env) \/ kind env = Bye /\ to_fp env = zero_fp).

Definition may_receive (k : Conn Q) (env : SignalingEnvelope) : Prop :=
  kind env = Challenge \/ kind env = ErrorMsg \/ kind env = Hello \/ addressed_to k env.

Record conn_inv (evs : list Event) (c : Z) (k : Conn Q) : Prop := {
  ci_reg : (registered_fp k = None /\ registered_session k = None) \/
    exists fp sid, registered_fp k = Some fp /\ registered_session k = Some sid /\
      hello_evidence evs c (c_challenge k) fp sid;
  ci_queue : Forall (addressed_to k) (waiting k);
  ci_len : Z.of_nat (length (waiting k)) <= CHANNEL_CAP;
  ci_chan : max_capacity (mpsc_inspect (c_queue k)) = CHANNEL_CAP /\
            rx_alive (mpsc_inspect (c_queue k)) = c_open k;
  ci_sent : Forall (fun w => exists env, envelope_encode env = Ok w /\ may_receive k env) (c_sent k);
}.

Record reg_inv (s : Server Q) : Prop := {
  ri_size : Z.of_nat (size (registry s)) <= MAX_SESSIONS;
  ri_session sid sess : registry s !! sid = Some sess ->
    sess <> ∅ /\ Z.of_nat (size sess) <= MAX_PEERS_PER_SESSION /\
    forall fp c, sess !! fp = Some c -> exists k, conns s !! c = Some k /\ c_open k = true /\
      registered_fp k = Some fp /\ registered_session k = Some sid;
}.

Record server_inv (evs : list Event) (s : Server Q) : Prop := {
  si_conn c k : conns s !! c = Some k -> conn_inv evs c k;
  si_reg : reg_inv s;
  si_open : open_count s <= MAX_CONNECTIONS;
}.

Lemma evidence_mono evs evs' c ch fp sid :
  evs ⊆ evs' -> hello_evidence evs c ch fp sid -> hello_evidence evs' c ch fp sid.
Proof. intros Hs (msg & env & Hin & H). exists msg, env. split; [by apply Hs|done]. Qed.

Lemma conn_inv_mono evs evs' c k : evs ⊆ evs' -> conn_inv evs c k -> conn_inv evs' c k.
Proof.
  intros Hs [[?|(fp & sid & ? & ? & He)] ? ? ? ?]; split; try done; [by left|].
  right. exists fp, sid. eauto using evidence_mono.
Qed.

Lemma server_inv_mono evs evs' s : evs ⊆ evs' -> server_inv evs s -> server_inv evs' s.
Proof. intros Hs [Hc Hr Ho]. split; try done. intros c k Hk. eauto using conn_inv_mono. Qed.

(** *** Updates of one connection *)

Definition same_reg (k k' : Conn Q) : Prop :=
  c_open k' = c_open k /\ registered_fp k' = registered_fp k /\
  registered_session k' = registered_session k.

Lemma open_count_insert s c k k' :
  conns s !! c = Some k -> (c_open k' = true -> c_open k = true) ->
  open_count (set_conn s c k') <= open_count s.
Proof.
  intros Hk Hle. unfold open_count, set_conn. cbn [conns]. apply inj_le. rewrite map_filter_insert.
  case_decide as Hp.
  - rewrite map_size_insert_Some; [done|]. exists k. apply map_lookup_filter_Some. auto.
  - apply map_subseteq_size. apply map_filter_subseteq_mono, delete_subseteq.
Qed.

Lemma reg_inv_set_conn s c k k' :
  reg_inv s -> conns s !! c = Some k -> same_reg k k' -> reg_inv (set_conn s c k').
Proof.
  intros [Hsz Hs] Hk (Ho & Hf & Hi). split; [done|]. cbn [registry conns set_conn]. intros sid sess Hsess.
  destruct (Hs sid sess Hsess) as (Hne & Hle & He). split; [done|]. split; [done|].
  intros fp c' Hc'. destruct (He fp c' Hc') as (k0 & Hk0 & H1 & H2 & H3).
  destruct (decide (c' = c)) as [->|Hne'].
  - exists k'. rewrite lookup_insert_eq. split; [done|]. rewrite Ho, Hf, Hi. by simplify_eq.
  - exists k0. by rewrite lookup_insert_ne.
Qed.

Lemma server_inv_set_conn evs s c k k' :
  server_inv evs s -> conns s !! c = Some k -> same_reg k k' -> conn_inv evs c k' ->
  server_inv evs (set_conn s c k').
Proof.
  intros [Hc Hr Ho] Hk Hsame Hk'. split.
  - intros c' k0. cbn [conns set_conn]. intros [[<- <-]|[_ H]]%lookup_insert_Some; eauto.
  - eauto using reg_inv_set_conn.
  - etrans; [|exact Ho]. eapply open_count_insert; eauto. destruct Hsame as [-> _]. done.
Qed.

Lemma may_receive_same k k' env : same_reg k k' -> may_receive k env -> may_receive k' env.
Proof. unfold may_receive, addressed_to. intros (_ & -> & ->). done. Qed.

Lemma addressed_same k k' env : same_reg k k' -> addressed_to k env -> addressed_to k' env.
Proof. unfold addressed_to. intros (_ & -> & ->). done. Qed.

(** A connection whose queue and output are replaced within what it may receive. *)
Lemma conn_inv_update evs c k k' :
  conn_inv evs c k -> same_reg k k' -> c_challenge k' = c_challenge k ->
  Forall (addressed_to k) (waiting k') -> Z.of_nat (length (waiting k')) <= CHANNEL_CAP ->
  max_capacity (mpsc_inspect (c_queue k')) = CHANNEL_CAP /\ rx_alive (mpsc_inspect (c_queue k')) = c_open k' ->
  Forall (fun w => exists env, envelope_encode env = Ok w /\ may_receive k env) (c_sent k') ->
  conn_inv evs c k'.
Proof.
  intros [Hreg _ _ _ _] Hs Hch Hq Hl Hm Hw. pose proof Hs as (_ & Hf & Hi). split; [by rewrite Hf, Hi, Hch| |done|done|].
  - eapply Forall_impl; [exact Hq|]. intros. by eapply addressed_same.
  - eapply Forall_impl; [exact Hw|]. intros w (env & ? & ?). exists env. eauto using may_receive_same.
Qed.

Lemma send_to_inv evs s c k env :
  server_inv evs s -> conns s !! c = Some k -> addressed_to k env -> server_inv evs (fst (send_to s c env)).
Proof.
  intros Hinv Hk Ha. unfold send_to. rewrite Hk. pose proof (si_conn _ _ Hinv c k Hk) as [Hreg Hq Hl [Hm Hr] Hsent].
  destruct (try_send_cases (c_queue k) env) as (q & r & -> & _ & Hv). cbn [fst]. unfold waiting in *.
  eapply server_inv_set_conn; [done|done|done|]. eapply (conn_inv_update evs c k); [by eapply si_conn|done|done|..|done];
    unfold waiting; cbn [set_queue c_queue c_open]; rewrite Hv; destruct (has_room _) eqn:Er; try done;
    unfold has_room in Er; simplify_bool; cbn [buffered max_capacity rx_alive].
  - apply Forall_app_2; [done|]. by constructor.
  - rewrite length_app. cbn [length]. lia.
  - split; [done|congruence].
Qed.

(** Sending touches no registration. *)
Lemma send_to_keeps s c env :
  registry (fst (send_to s c env)) = registry s /\
  forall c' k, conns s !! c' = Some k ->
    exists k', conns (fst (send_to s c env)) !! c' = Some k' /\ same_reg k k'.
Proof.
  unfold send_to. destruct (conns s !! c) as [k0|] eqn:Hk0; [|by split; [|intros c' k; exists k]].
  destruct (mpsc_try_send (c_queue k0) env) as [q r]. cbn [fst registry conns set_conn]. split; [done|]. intros c' k Hk.
  destruct (decide (c' = c)) as [->|Hne].
  - rewrite lookup_insert_eq. eexists. split; [done|]. by simplify_eq.
  - exists k. by rewrite lookup_insert_ne.
Qed.

Lemma ws_send_inv evs s c k env :
  server_inv evs s -> conns s !! c = Some k -> may_receive k env -> server_inv evs (ws_send s c env).
Proof.
  intros Hinv Hk Hm. unfold ws_send. rewrite Hk. destruct (envelope_encode env) as [w|] eqn:Ew; [|done].
  pose proof (si_conn _ _ Hinv c k Hk) as Hci. eapply server_inv_set_conn; eauto; [done|].
  eapply conn_inv_update; eauto; [done|apply Hci|apply Hci|apply Hci|]; cbn [c_sent].
  apply Forall_app_2; [apply Hci|]. constructor; [|by constructor]. eauto.
Qed.

Lemma ws_send_lookup s c env c' :
  conns (ws_send s c env) !! c' = conns s !! c' \/
  (c' = c /\ exists k k', conns s !! c = Some k /\ conns (ws_send s c env) !! c' = Some k' /\ same_reg k k').
Proof.
  unfold ws_send. destruct (conns s !! c) as [k|] eqn:E, (envelope_encode env) as [w|]; auto.
  destruct (decide (c' = c)) as [->|Hne].
  - right. split; [done|]. eexists k, _. split; [done|]. split; [apply lookup_insert_eq|done].
  - left. cbn [conns set_conn]. by rewrite lookup_insert_ne.
Qed.

Lemma forward_inv evs s env : server_inv evs s -> server_inv evs (fst (forward_to_peer s env)).
Proof.
  intros Hinv. unfold forward_to_peer. destruct (registry s !! session_id env) as [sess|] eqn:Es; [|done].
  destruct (sess !! to_fp env) as [c|] eqn:Ec; [|done].
  destruct (ri_session _ (si_reg _ _ Hinv) _ _ Es) as (_ & _ & He).
  destruct (He _ _ Ec) as (k & Hk & _ & Hf & Hi).
  assert (server_inv evs (fst (send_to s c env))) as Hs by (eapply send_to_inv; eauto; split; [done|by left]).
  by destruct (send_to s c env) as [s' []].
Qed.

(** Forwarding touches no registration. *)
Lemma forward_keeps s env c k :
  conns s !! c = Some k -> exists k', conns (fst (forward_to_peer s env)) !! c = Some k' /\ same_reg k k'.
Proof.
  intros Hk. unfold forward_to_peer. repeat (case_match; try (exists k; done)); cbn [fst];
    match goal with H : send_to s ?c0 env = _ |- _ =>
      destruct (proj2 (send_to_keeps s c0 env) c k Hk) as (k' & Hk' & Hs); rewrite H in Hk' end; by exists k'.
Qed.

(** *** Registration *)

Lemma fresh_conn_queue evs c k : conn_inv evs c k -> registered_fp k = None -> waiting k = [].
Proof.
  intros [Hreg Hq _ _ _] Hn. destruct Hreg as [[_ Hs]|(? & ? & ? & _)]; [|congruence].
  destruct (waiting k) as [|e q]; [done|]. apply Forall_cons_1 in Hq as [[? _] _]. congruence.
Qed.

Lemma fresh_conn_unlisted evs s c k sid sess fp :
  server_inv evs s -> conns s !! c = Some k -> registered_fp k = None ->
  registry s !! sid = Some sess -> sess !! fp <> Some c.
Proof.
  intros Hinv Hk Hn Hs Hc. destruct (ri_session _ (si_reg _ _ Hinv) _ _ Hs) as (_ & _ & He).
  destruct (He _ _ Hc) as (k' & Hk' & _ & Hf & _). congruence.
Qed.

(** The registry with one more listing, within the caps. *)
Lemma reg_inv_insert evs s c k fp sid :
  server_inv evs s -> conns s !! c = Some k -> registered_fp k = None -> c_open k = true ->
  let sess := default ∅ (registry s !! sid) in
  (is_Some (registry s !! sid) \/ Z.of_nat (size (registry s)) < MAX_SESSIONS) ->
  (Z.of_nat (size sess) < MAX_PEERS_PER_SESSION \/ is_Some (sess !! fp)) ->
  reg_inv (set_conn (set_registry s (<[sid := <[fp := c]> sess]> (registry s))) c (register k fp sid)).
Proof.
  intros Hinv Hk Hn Ho sess Hcap Hpeers. pose proof (si_reg _ _ Hinv) as [Hsz Hses]. unfold MAX_SESSIONS, MAX_PEERS_PER_SESSION in *.
  assert (Z.of_nat (size sess) <= 2) as Hle.
  { unfold sess. destruct (registry s !! sid) as [m|] eqn:E; [apply (Hses _ _ E)|]. cbn. rewrite map_size_empty. lia. }
  split; cbn [registry conns set_conn set_registry]; unfold MAX_SESSIONS, MAX_PEERS_PER_SESSION.
  - rewrite map_size_insert. destruct (registry s !! sid); [unfold id; lia|]. destruct Hcap as [[? ?]|?]; [done|lia].
  - intros sid' sess'. intros [[<- <-]|[Hne Hs']]%lookup_insert_Some.
    + split; [apply insert_non_empty|]. split.
      { rewrite map_size_insert. destruct (sess !! fp); [unfold id; lia|]. destruct Hpeers as [?|[? ?]]; [lia|done]. }
      intros fp' c'. intros [[<- <-]|[Hnf Hc']]%lookup_insert_Some.
      { eexists. rewrite lookup_insert_eq. split; [done|]. by cbn. }
      unfold sess in Hc'. destruct (registry s !! sid) as [m|] eqn:E; [|done]. cbn in Hc'.
      destruct (Hses _ _ E) as (_ & _ & He). destruct (He _ _ Hc') as (k' & Hk' & Hrest).
      exists k'. rewrite lookup_insert_ne; [done|]. intros <-.
      exact (fresh_conn_unlisted _ _ _ _ _ _ _ Hinv Hk Hn E Hc').
    + destruct (Hses _ _ Hs') as (Hn' & Hl' & He). split; [done|]. split; [done|].
      intros fp' c' Hc'. destruct (He _ _ Hc') as (k' & Hk' & Hrest).
      exists k'. rewrite lookup_insert_ne; [done|]. intros <-.
      exact (fresh_conn_unlisted _ _ _ _ _ _ _ Hinv Hk Hn Hs' Hc').
Qed.

Lemma register_conn_inv evs c k msg env :
  conn_inv evs c k -> registered_fp k = None -> EvMessage c msg ∈ evs ->
  envelope_decode msg = Ok env -> kind env = Hello ->
  auth {| claimed_fp := from_fp env; ctx_session_id := session_id env;
          ctx_challenge := c_challenge k; ctx_proof := payload env |} = Ok tt ->
  conn_inv evs c (register k (from_fp env) (session_id env)).
Proof.
  intros Hci Hn Hin Hd Hkd Ha. pose proof (fresh_conn_queue _ _ _ Hci Hn) as Hq.
  destruct Hci as [Hreg _ _ Hch Hsent]. destruct Hreg as [[_ Hs]|(? & ? & ? & _)]; [|congruence].
  unfold waiting in *. split; unfold waiting; cbn [register registered_fp registered_session c_queue c_sent c_challenge c_open].
  - right. exists (from_fp env), (session_id env). split; [done|]. split; [done|]. by exists msg, env.
  - by rewrite Hq.
  - rewrite Hq. cbn. unfold CHANNEL_CAP. lia.
  - done.
  - eapply Forall_impl; [exact Hsent|]. intros w (e & He & Hm). exists e. split; [done|].
    unfold may_receive, addressed_to in *. rewrite Hs in Hm.
    destruct Hm as [?|[?|[?|[? _]]]]; [by left|by right; left|by right; right; left|done].
Qed.

Lemma hello_inv evs s c k msg env :
  server_inv evs s -> conns s !! c = Some k -> c_open k = true ->
  EvMessage c msg ∈ evs -> envelope_decode msg = Ok env -> kind env = Hello ->
  let '(s', r) := handle_hello auth s c k env in
  server_inv evs s' /\ (exists k', conns s' !! c = Some k') /\
  (forall reply, r = Ok (Some reply) -> kind reply = Hello).
Proof.
  intros Hinv Hk Ho Hin Hd Hkd. unfold handle_hello.
  assert (server_inv evs s /\ exists k', conns s !! c = Some k') as [_ Hsame] by eauto.
  destruct (registered_fp k) eqn:Hn; [done|].
  destruct (auth _) as [[]|] eqn:Ha; [|done].
  destruct (negb _ && _) eqn:Ecap; [done|].
  destruct ((MAX_PEERS_PER_SESSION <=? _) && _) eqn:Efull.
  { simplify_bool. split; [|done]. split; [apply Hinv| |apply Hinv].
    destruct (registry s !! session_id env) as [m|] eqn:E; cbn in H |- *.
    - unfold set_registry. rewrite insert_id by done. destruct s. apply Hinv.
    - rewrite map_size_empty in H. unfold MAX_PEERS_PER_SESSION in H. lia. }
  split; [|split; [eexists; apply lookup_insert_eq|by intros ? [= <-]]].
  rewrite insert_insert_eq. pose proof (reg_inv_insert evs s c k (from_fp env) (session_id env) Hinv Hk Hn Ho) as Hreg.
  cbv zeta in Hreg. split.
  - intros c' k'. cbn [conns set_conn set_registry]. intros [[<- <-]|[_ H]]%lookup_insert_Some.
    + eapply register_conn_inv; eauto. eapply si_conn; eauto.
    + by eapply si_conn.
  - apply Hreg.
    + apply andb_false_iff in Ecap as [Ecap|Ecap]; simplify_bool; [left; by apply bool_decide_eq_true in Ecap|right; lia].
    + apply andb_false_iff in Efull as [Ef|Ef]; simplify_bool; [left; lia|right; by apply bool_decide_eq_true in Ef].
  - etrans; [|apply Hinv]. change (open_count (set_conn s c (register k (from_fp env) (session_id env))) <= open_count s).
    by eapply open_count_insert.
Qed.

(** *** Leaving *)

Lemma close_inv evs s c k :
  server_inv evs s -> conns s !! c = Some k ->
  (forall sid sess fp, registry s !! sid = Some sess -> sess !! fp <> Some c) ->
  server_inv evs (set_conn s c (close_conn k)).
Proof.
  intros Hinv Hk Hun. split.
  - intros c' k'. cbn [conns set_conn]. intros [[<- <-]|[_ H]]%lookup_insert_Some; [|by eapply si_conn].
    pose proof (si_conn _ _ Hinv _ _ Hk) as [Hreg _ _ [Hm _] Hs].
    pose proof (drop_receiver_inspect (c_queue k) _ eq_refl) as Hv.
    split; unfold waiting; cbn [close_conn c_queue c_open c_sent]; rewrite ?Hv; done.
  - destruct (si_reg _ _ Hinv) as [Hsz Hses]. split; [done|]. cbn [registry conns set_conn]. intros sid sess Hs.
    destruct (Hses _ _ Hs) as (Hne & Hle & He). split; [done|]. split; [done|]. intros fp c' Hc'.
    destruct (He _ _ Hc') as (k' & Hk' & Hrest). exists k'. rewrite lookup_insert_ne; [done|].
    intros <-. exact (Hun _ _ _ Hs Hc').
  - etrans; [|apply Hinv]. by eapply open_count_insert.
Qed.

(** Dropping one listing. *)
Lemma unlist_inv evs s sid fp sess :
  server_inv evs s -> registry s !! sid = Some sess ->
  server_inv evs (set_registry s (if bool_decide (delete fp sess = ∅) then delete sid (registry s)
                                  else <[sid := delete fp sess]> (registry s))).
Proof.
  intros [Hc [Hsz Hses] Hop] Hs. split; [done| |done]. split; cbn [registry conns set_registry].
  - case_bool_decide; [rewrite map_size_delete_Some by eauto; lia|rewrite map_size_insert_Some by eauto; lia].
  - intros sid' sess'. case_bool_decide as Hemp.
    + intros [_ H]%lookup_delete_Some. by apply Hses.
    + intros [[<- <-]|[_ H]]%lookup_insert_Some; [|by apply Hses]. destruct (Hses _ _ Hs) as (_ & Hl & He).
      split; [done|]. split.
      { rewrite map_size_delete. destruct (sess !! fp); unfold id; lia. }
      intros fp' c' [_ Hc']%lookup_delete_Some. by apply He.
Qed.

Lemma unlisted_after evs s c k sid fp sess :
  server_inv evs s -> conns s !! c = Some k -> registered_fp k = Some fp -> registered_session k = Some sid ->
  registry s !! sid = Some sess ->
  forall sid' sess' fp', (if bool_decide (delete fp sess = ∅) then delete sid (registry s)
     else <[sid := delete fp sess]> (registry s)) !! sid' = Some sess' -> sess' !! fp' <> Some c.
Proof.
  intros Hinv Hk Hf Hi Hs sid' sess' fp' Hs' Hc.
  assert (registry s !! sid' = Some sess' /\ sid' <> sid \/ sid' = sid /\ sess' = delete fp sess) as Hcase.
  { revert Hs'. case_bool_decide.
    - intros [? ?]%lookup_delete_Some. left. by split.
    - intros [[<- <-]|[? ?]]%lookup_insert_Some; [by right|left; by split]. }
  destruct Hcase as [[Hs0 Hne]|[-> ->]].
  - destruct (ri_session _ (si_reg _ _ Hinv) _ _ Hs0) as (_ & _ & He).
    destruct (He _ _ Hc) as (k' & Hk' & _ & _ & Hi'). congruence.
  - apply lookup_delete_Some in Hc as [Hne Hc]. destruct (ri_session _ (si_reg _ _ Hinv) _ _ Hs) as (_ & _ & He).
    destruct (He _ _ Hc) as (k' & Hk' & _ & Hf' & _). congruence.
Qed.

Lemma cleanup_inv evs s c : server_inv evs s -> server_inv evs (cleanup s c).
Proof.
  intros Hinv. unfold cleanup. destruct (conns s !! c) as [k|] eqn:Hk; [|done].
  destruct (ci_reg _ _ _ (si_conn _ _ Hinv _ _ Hk)) as [[Hn Hs]|(fp & sid & Hf & Hi & _)].
  { rewrite Hs. apply close_inv; try done. intros sid' sess' fp' Hs'. exact (fresh_conn_unlisted _ _ _ _ _ _ _ Hinv Hk Hn Hs'). }
  rewrite Hi, Hf. destruct (registry s !! sid) as [sess|] eqn:Es.
  2:{ apply close_inv; try done. intros sid' sess' fp' Hs' Hc.
      destruct (ri_session _ (si_reg _ _ Hinv) _ _ Hs') as (_ & _ & He).
      destruct (He _ _ Hc) as (k' & Hk' & _ & _ & Hi'). congruence. }
  pose proof (unlist_inv evs s sid fp sess Hinv Es) as Hinv1.
  pose proof (unlisted_after evs s c k sid fp sess Hinv Hk Hf Hi Es) as Hun.
  set (s1 := set_registry s _) in *.
  set (bye := {| kind := Bye |}).
  assert (server_inv evs (match snd <$> head (map_to_list (delete fp sess)) with
            | Some p => fst (send_to s1 p bye) | None => s1 end) /\
          registry (match snd <$> head (map_to_list (delete fp sess)) with
            | Some p => fst (send_to s1 p bye) | None => s1 end) = registry s1) as [Hinv2 Hreg2].
  { destruct (head (map_to_list (delete fp sess))) as [[fp' p]|] eqn:Eh; cbn [fmap option_fmap option_map snd]; [|done].
    split.
    - assert (delete fp sess !! fp' = Some p) as Hp.
      { apply elem_of_map_to_list. destruct (map_to_list (delete fp sess)) as [|x l] eqn:El; [done|].
        injection Eh as ->. apply list_elem_of_here. }
      apply lookup_delete_Some in Hp as [_ Hp].
      destruct (ri_session _ (si_reg _ _ Hinv) _ _ Es) as (_ & _ & He).
      destruct (He _ _ Hp) as (kp & Hkp & _ & _ & Hip). eapply (send_to_inv evs s1 p kp); eauto.
      split; [done|by right].
    - apply send_to_keeps. }
  set (s2 := match snd <$> head (map_to_list (delete fp sess)) with
            | Some p => fst (send_to s1 p bye) | None => s1 end) in *.
  destruct (conns s2 !! c) as [k'|] eqn:Hk'; [|done]. apply close_inv; try done.
  intros sid' sess' fp'. rewrite Hreg2. apply Hun.
Qed.

(** *** Every event *)

Lemma message_inv evs s c k msg :
  server_inv evs s -> conns s !! c = Some k -> c_open k = true -> EvMessage c msg ∈ evs ->
  let '(s', r) := handle_message auth s c k msg in
  server_inv evs s' /\ (exists k', conns s' !! c = Some k') /\
  (forall reply, r = Ok (Some reply) -> kind reply = Hello).
Proof.
  intros Hinv Hk Ho Hin. unfold handle_message.
  assert (exists k', conns s !! c = Some k') as Hex by eauto.
  destruct (envelope_decode msg) as [env|] eqn:Hd; [|done].
  destruct (match registered_fp k with Some _ => _ | None => _ end); [done|].
  pose proof (forward_inv evs s env Hinv) as Hfw.
  assert (exists k', conns (fst (forward_to_peer s env)) !! c = Some k') as Hex'.
  { destruct (forward_keeps s env c k Hk) as (k' & ? & _). eauto. }
  destruct (kind env) eqn:Hkd; try done; [by apply (hello_inv evs s c k msg env)|..];
    destruct (forward_to_peer s env) as [s' [[]|]]; done.
Qed.

Lemma on_message_inv evs s c k msg :
  server_inv evs s -> conns s !! c = Some k -> c_open k = true -> EvMessage c msg ∈ evs ->
  server_inv evs (on_message auth display s c k msg).
Proof.
  intros Hinv Hk Ho Hin. unfold on_message.
  pose proof (message_inv evs s c k msg Hinv Hk Ho Hin) as Hm.
  destruct (handle_message auth s c k msg) as [s' [[reply|]|e]]; destruct Hm as (Hinv' & (k' & Hk') & Hr).
  - eapply ws_send_inv; eauto. right. right. left. by apply Hr.
  - done.
  - assert (server_inv evs (ws_send s' c (make_error_envelope (registered_session k)
      (default [] (registered_fp k)) (error_reason display e)))) by (eapply ws_send_inv; eauto; by right; left).
    case_match; [by apply cleanup_inv|done].
Qed.

Lemma open_count_new s c k : conns s !! c = None -> open_count (set_conn s c k) <= open_count s + 1.
Proof.
  intros Hk. unfold open_count, set_conn. cbn [conns]. rewrite map_filter_insert. case_decide.
  - rewrite map_size_insert_None; [lia|]. apply map_lookup_filter_None. by left.
  - rewrite delete_id by done. lia.
Qed.

Lemma connect_inv evs s c challenge :
  server_inv evs s -> conns s !! c = None -> open_count s < MAX_CONNECTIONS ->
  server_inv evs (set_conn s c {| c_challenge := challenge; registered_fp := None;
    registered_session := None; c_queue := mpsc_channel CHANNEL_CAP; c_sent := []; c_open := true |}).
Proof.
  intros Hinv Hk Hlt. split.
  - intros c' k'. cbn [conns set_conn]. intros [[<- <-]|[_ H]]%lookup_insert_Some; [|by eapply si_conn].
    pose proof (channel_new (A := SignalingEnvelope) (Q := Q) CHANNEL_CAP eq_refl) as Hv.
    split; unfold waiting; cbn [c_queue c_open c_sent]; rewrite ?Hv; try done. by left.
  - destruct (si_reg _ _ Hinv) as [Hsz Hses]. split; [done|]. cbn [registry conns set_conn]. intros sid sess Hs.
    destruct (Hses _ _ Hs) as (Hne & Hle & He). split; [done|]. split; [done|]. intros fp c' Hc'.
    destruct (He _ _ Hc') as (k' & Hk' & Hrest). exists k'. rewrite lookup_insert_ne; [done|].
    intros <-. congruence.
  - etrans; [by apply open_count_new|]. lia.
Qed.

Lemma routed_inv evs s c k :
  server_inv evs s -> conns s !! c = Some k -> c_open k = true ->
  server_inv evs (match mpsc_recv (c_queue k) with
                  | (q, Received env) => ws_send (set_conn s c (set_queue k q)) c env
                  | (q, _) => set_conn s c (set_queue k q)
                  end).
Proof.
  intros Hinv Hk Ho. pose proof (si_conn _ _ Hinv _ _ Hk) as Hci. pose proof Hci as [_ Hq Hl [Hm Hr] Hsent].
  unfold waiting in *. destruct (mpsc_inspect (c_queue k)) as [b cap tx rx] eqn:Ev. cbn [buffered max_capacity rx_alive] in *.
  rewrite Ho in Hr. subst rx cap.
  assert (forall q b', mpsc_inspect q = MpscView b' CHANNEL_CAP tx true -> Forall (addressed_to k) b' ->
            Z.of_nat (length b') <= CHANNEL_CAP -> server_inv evs (set_conn s c (set_queue k q))) as Hset.
  { intros q b' Hv Hb Hb'. eapply server_inv_set_conn; [done|done|done|]. eapply (conn_inv_update evs c k); try done;
      unfold waiting; cbn [set_queue c_queue c_open]; by rewrite Hv. }
  destruct b as [|env rest].
  - destruct (recv_empty _ _ _ Ev) as (q & -> & Hv). destruct tx; by eapply Hset.
  - destruct (recv_oldest _ _ _ _ _ Ev) as (q & -> & Hv). apply Forall_cons_1 in Hq as [Ha Hq]. cbn [length] in Hl.
    eapply ws_send_inv; [eapply Hset; [done|done|lia]|apply lookup_insert_eq|by right; right; right].
Qed.

Lemma server_step_inv evs s ev : server_inv evs s -> server_inv (evs ++ [ev]) (server_step auth display s ev).
Proof.
  intros Hinv. apply (server_inv_mono evs (evs ++ [ev])) in Hinv; [|set_solver].
  destruct ev as [c ch|c msg|c|c|c]; cbn [server_step]; destruct (conns s !! c) as [k|] eqn:Hk; try done.
  - destruct (MAX_CONNECTIONS <=? open_count s) eqn:E; [done|]. simplify_bool.
    eapply ws_send_inv; [by apply connect_inv|apply lookup_insert_eq|by left].
  - destruct (c_open k) eqn:Ho; [|done]. apply on_message_inv; try done. set_solver.
  - destruct (c_open k) eqn:Ho; [by apply routed_inv|done].
  - destruct (_ && _); [by apply cleanup_inv|done].
  - destruct (c_open k); [by apply cleanup_inv|done].
Qed.

Lemma server_run_inv evs : server_inv evs (server_run auth display (server_new (Q := Q)) evs).
Proof.
  induction evs as [|ev evs IH] using rev_ind.
  - split; [done| |done]. split; [done|]. intros sid sess. cbn. by rewrite lookup_empty.
  - unfold server_run. rewrite fold_left_app. by apply server_step_inv.
Qed.

(** The relay stays within its limits, whatever connections and messages arrive: at most
    10000 sessions, none empty and none with more than two peers, at most 20000 running
    connections, and at most 64 envelopes waiting for any of them. *)
Lemma relay_bounded evs :
  let s := server_run auth display (server_new (Q := Q)) evs in
  Z.of_nat (size (registry s)) <= MAX_SESSIONS /\
  (forall sid sess, registry s !! sid = Some sess ->
     sess <> ∅ /\ Z.of_nat (size sess) <= MAX_PEERS_PER_SESSION) /\
  open_count s <= MAX_CONNECTIONS /\
  (forall c k, conns s !! c = Some k -> Z.of_nat (length (waiting k)) <= CHANNEL_CAP).
Proof.
  intros s. destruct (server_run_inv evs) as [Hc [Hsz Hses] Ho]. split; [done|]. split.
  - intros sid sess Hs. destruct (Hses _ _ Hs) as (? & ? & _). done.
  - split; [done|]. intros c k Hk. apply (Hc c k Hk).
Qed.
End Invariant.

Section Production.
Context `{SP : SigPrims} `{KP : !KeyPrims} (display : SignalingError -> bytes).
Context {Q : Type} `{MQ : Mpsc SignalingEnvelope Q} {ML : MpscLaws SignalingEnvelope Q}.

(** C10. Who receives what: in every reachable state of a relay with the production
    authenticator, whatever has been written to a connection's socket is a challenge, an
    error, an acknowledgement, or an envelope of the session the connection
    proved, addressed to the fingerprint it proved or, as the notice that its peer has left (a
    [Bye] with the all-zero recipient), to nobody; and that proof is a [Hello] it sent, signed by the key behind the
    fingerprint over this connection's challenge and this session. *)
Theorem relay_delivers_to_proven_identity evs c k w :
  let s := server_run identity_proof_authenticate display (server_new (Q := Q)) evs in
  conns s !! c = Some k -> w ∈ c_sent k ->
  exists env, envelope_encode env = Ok w /\
    (kind env = Challenge \/ kind env = ErrorMsg \/ kind env = Hello \/
     (exists fp, registered_session k = Some (session_id env) /\ registered_fp k = Some fp /\
       (to_fp env = fp \/ kind env = Bye /\ to_fp env = zero_fp) /\
       exists msg hello p, EvMessage c msg ∈ evs /\ envelope_decode msg = Ok hello /\
         kind hello = Hello /\ proof_decode (payload hello) = Ok p /\
         possesses p (fp_string fp) (session_id env) (c_challenge k))).
Proof.
  intros s Hk Hw. pose proof (server_run_inv identity_proof_authenticate display evs) as Hinv.
  pose proof (si_conn _ _ _ Hinv _ _ Hk) as [Hreg _ _ _ Hsent].
  rewrite Forall_forall in Hsent. destruct (Hsent w Hw) as (env & He & Hm). exists env. split; [done|].
  destruct Hm as [?|[?|[?|[Hs Hf]]]]; [by left|by right; left|by right; right; left|right; right; right].
  destruct Hreg as [[_ Hn]|(fp & sid & Hfp & Hsid & msg & hello & Hin & Hd & Hkh & <- & <- & Ha)]; [congruence|].
  exists (from_fp hello). split; [done|]. split; [done|]. split.
  { destruct Hf as [Hf|Hf]; [left; congruence|by right]. }
  unfold identity_proof_authenticate in Ha. cbn [ctx_proof claimed_fp ctx_session_id ctx_challenge] in Ha.
  destruct (proof_decode (payload hello)) as [p|] eqn:Ep; [|done]. cbn [map_err] in Ha.
  destruct (proof_verify p _ _ _) as [[]|] eqn:Ev; [|done]. apply proof_verify_possesses in Ev.
  exists msg, hello, p. rewrite Hsid in Hs. injection Hs as <-. done.
Qed.
End Production.

(** ** Two limits of the relay *)

Section Limits.
Context {Q : Type} `{MQ : Mpsc SignalingEnvelope Q} {ML : MpscLaws SignalingEnvelope Q}.
Context (auth : PeerAuthenticator) (display : SignalingError -> bytes).
Implicit Types (s : Server Q) (k : Conn Q).

Definition relayed (k : MessageKind) : bool :=
  match k with Offer | Answer | Candidate | EndOfCandidates | Noise | Bye => true | _ => false end.

(** A connection that never sent a [Hello] is not refused: its offers, answers, candidates
    and Noise messages, with any sender fingerprint whatever, are forwarded to a registered
    peer, whose relay-side queue then ends with the forged envelope. *)
Lemma relay_forwards_unregistered_sender s c k env sess p kp :
  conns s !! c = Some k -> c_open k = true -> registered_fp k = None ->
  envelope_ok env -> relayed (kind env) = true ->
  registry s !! session_id env = Some sess -> sess !! to_fp env = Some p ->
  conns s !! p = Some kp -> has_room (mpsc_inspect (c_queue kp)) = true ->
  exists q, server_step auth display s (EvMessage c (envelope_wire env)) = set_conn s p (set_queue kp q) /\
    buffered (mpsc_inspect q) = waiting kp ++ [env].
Proof.
  intros Hk Ho Hn Hok Hrel Hs Hp Hkp Hl. cbn [server_step]. rewrite Hk, Ho.
  unfold on_message, handle_message.
  rewrite <- (app_nil_r (envelope_wire env)), envelope_decode_encode by done. rewrite Hn.
  destruct (try_send_cases (c_queue kp) env) as (q & r & Hq & Hr & Hv). rewrite Hl in Hr, Hv. destruct r as [[]|]; [|done].
  exists q. split; [|by rewrite Hv].
  assert (forward_to_peer s env = (set_conn s p (set_queue kp q), Ok tt)) as Hf.
  { unfold forward_to_peer, send_to. by rewrite Hs, Hp, Hkp, Hq. }
  destruct (kind env); try done; by rewrite Hf.
Qed.

(** A device that reconnects under its fingerprint replaces its listing, but the end of its
    old connection removes the listing by fingerprint: the new, authenticated connection
    keeps running and no peer can reach it any more. *)
Lemma stale_close_unregisters evs c1 c2 k1 sid fp sess :
  let s := server_run auth display (server_new (Q := Q)) evs in
  conns s !! c1 = Some k1 -> c_open k1 = true ->
  registered_fp k1 = Some fp -> registered_session k1 = Some sid ->
  c1 <> c2 -> registry s !! sid = Some sess -> sess !! fp = Some c2 ->
  let s' := server_step auth display s (EvClose c1) in
  (exists k2, conns s' !! c2 = Some k2 /\ c_open k2 = true /\
     registered_fp k2 = Some fp /\ registered_session k2 = Some sid) /\
  (forall sess', registry s' !! sid = Some sess' -> sess' !! fp = None).
Proof.
  intros s Hk1 Ho Hf Hi Hne Hs Hc2. cbn [server_step]. rewrite Hk1, Ho. unfold cleanup. rewrite Hk1, Hi, Hf, Hs.
  pose proof (server_run_inv auth display evs) as Hinv. fold s in Hinv.
  destruct (ri_session _ (si_reg _ _ _ Hinv) _ _ Hs) as (_ & _ & He).
  destruct (He _ _ Hc2) as (k2 & Hk2 & Ho2 & Hf2 & Hi2). cbv zeta.
  match goal with |- context [set_registry s ?r] => set (reg := r); set (s1 := set_registry s reg) end.
  match goal with |- context [send_to s1 _ ?b] => set (bye := b) end.
  match goal with |- context [conns ?x !! c1] => set (s2 := x) end.
  assert (registry s2 = reg /\ exists k2', conns s2 !! c2 = Some k2' /\ same_reg k2 k2') as (Hr2 & k2' & Hk2' & Hsame).
  { unfold s2. destruct (head _) as [[fp' p]|]; cbn [fmap option_fmap option_map snd]; [|split; [done|by exists k2]].
    destruct (send_to_keeps s1 p bye) as [-> Hkeep]. split; [done|]. by apply Hkeep. }
  destruct Hsame as (Hso & Hsf & Hsi).
  assert (forall sess', reg !! sid = Some sess' -> sess' !! fp = None) as Hreg.
  { intros sess'. unfold reg. case_bool_decide.
    - by rewrite lookup_delete_eq.
    - rewrite lookup_insert_eq. intros [= <-]. apply lookup_delete_eq. }
  destruct (conns s2 !! c1) as [k1'|] eqn:Hk1'; cbn [registry conns set_conn]; rewrite ?Hr2.
  - split; [|done]. exists k2'. rewrite lookup_insert_ne by done. split; [done|]. rewrite Hso, Hsf, Hsi. done.
  - split; [|done]. exists k2'. split; [done|]. rewrite Hso, Hsf, Hsi. done.
Qed.
End Limits.
