(* ===== verification/SignalClient.v ===== *)
(** * sh-signaling: the client

    [crates/sh-signaling/src/client.rs]: connecting (challenge, signed [Hello], ack), the
    retry loop over a [BackoffStrategy], and [recv] with its reconnects.  A WebSocket is the
    list of events it will deliver (its end is the end of the list) and the list of messages
    written to it; writing succeeds. *)

From stdpp Require Import base numbers list option strings gmap.
From S2P Require Import Prelude CryptoTypes Identity BindCert PeerAuth Signaling.
From S2P Require Import Pairing SignalServer.

Inductive WsEvent :=
| WsBinary (b : bytes)
| WsPing
| WsClose
| WsOther
| WsError.

(** [recv_challenge]: the challenge and the rest of the stream. *)
Fixpoint recv_challenge (ws : list WsEvent) : result SignalingError (bytes * list WsEvent) :=
  match ws with
  | WsBinary b :: rest =>
      let? env := envelope_decode b in
      if negb (bool_decide (kind env = Challenge)) then Err UnexpectedMessageType else
      if negb (blen (payload env) =? PEER_AUTH_CHALLENGE_LEN) then Err InvalidChallenge else
      Ok (payload env, rest)
  | WsPing :: rest => recv_challenge rest
  | WsClose :: _ | WsOther :: _ => Err UnexpectedMessageType
  | WsError :: _ => Err WebSocketErr
  | [] => Err NotConnected
  end.

(** The loop of [try_connect] that consumes the ack. *)
Fixpoint await_ack (ws : list WsEvent) : result SignalingError (list WsEvent) :=
  match ws with
  | WsBinary b :: rest =>
      let? env := envelope_decode b in
      if bool_decide (kind env = Hello) then Ok rest else Err UnexpectedMessageType
  | WsPing :: rest => await_ack rest
  | WsClose :: _ | WsOther :: _ => Err UnexpectedMessageType
  | WsError :: _ => Err WebSocketErr
  | [] => Err NotConnected
  end.

Section Client.
Context `{SP : SigPrims} `{KP : !KeyPrims} {K : Type} `{KS : Keystore K}.

(** The [Hello] for a challenge; without a key store the proof is empty. *)
Definition hello_for (sid my_fp : bytes) (keystore : option K) (challenge : bytes)
    : result SignalingError bytes :=
  let? proof_payload := match keystore with
                        | Some ks => map_err SigCrypto
                            (let? p := proof_create ks sid challenge in Ok (proof_encode p))
                        | None => Ok []
                        end in
  envelope_encode {| kind := Hello; session_id := sid; from_fp := my_fp; to_fp := zero_fp;
                     payload := proof_payload |}.

(** [try_connect] on an opened socket: the messages sent, and the stream after the ack. *)
Definition try_connect (ws : list WsEvent) (sid my_fp : bytes) (keystore : option K)
    : list bytes * result SignalingError (list WsEvent) :=
  match recv_challenge ws with
  | Err e => ([], Err e)
  | Ok (challenge, rest) =>
      match hello_for sid my_fp keystore challenge with
      | Err e => ([], Err e)
      | Ok hello => ([hello], await_ack rest)
      end
  end.

(** [recv] between reconnects: an envelope, the end of the session, or a lost connection. *)
Inductive Received := RecvEnvelope (env : SignalingEnvelope) | RecvEnd | RecvLost.

Fixpoint recv_open (ws : list WsEvent) : result SignalingError (Received * list WsEvent) :=
  match ws with
  | [] => Ok (RecvLost, [])
  | WsError :: rest => Ok (RecvLost, rest)
  | WsBinary b :: rest =>
      let? env := envelope_decode b in
      if bool_decide (kind env = Bye) then Ok (RecvEnd, rest) else Ok (RecvEnvelope env, rest)
  | WsClose :: rest => Ok (RecvEnd, rest)
  | WsPing :: rest | WsOther :: rest => recv_open rest
  end.
End Client.

Section Retry.
Context {B : Type} `{BS : BackoffStrategy B} {A : Type}.

(** [connect_with_retry] with at most [fuel] attempts; attempt [i] has the outcome
    [attempt i].  Also returns the delays slept, in milliseconds. *)
Fixpoint connect_with_retry (fuel : nat) (attempt : nat -> result SignalingError A) (i : nat) (b : B)
    : option (B * list Z * result SignalingError A) :=
  match fuel with
  | O => None
  | S fuel' =>
      match attempt i with
      | Ok ws => Some (b, [], Ok ws)
      | Err _ =>
          match next_delay b with
          | (b', None) => Some (b', [], Err NotConnected)
          | (b', Some d) =>
              match connect_with_retry fuel' attempt (S i) b' with
              | Some (b'', ds, r) => Some (b'', d :: ds, r)
              | None => None
              end
          end
      end
  end.
End Retry.

(** ** The retry loop ends *)

(** The [i]-th delay, from zero: the base, then doubling up to the cap. *)
Definition delay_at (base cap : Z) (i : nat) : Z :=
  match i with O => base | S _ => Z.min (base * 2 ^ Z.of_nat i) cap end.

(** The state of a strategy after [i] delays. *)
Definition backoff_after (b : ExponentialBackoff) (i : nat) : ExponentialBackoff :=
  {| base_ms := base_ms b; max_ms := max_ms b; max_attempts := max_attempts b;
     current_ms := delay_at (base_ms b) (max_ms b) i; attempts := Z.of_nat i |}.

Lemma delay_at_S base cap i :
  0 <= base -> 0 <= cap <= u64_max ->
  Z.min (sat_mul u64_max (delay_at base cap i) 2) cap = delay_at base cap (S i).
Proof.
  intros Hb Hc. unfold sat_mul, delay_at. rewrite (Nat2Z.inj_succ i), Z.pow_succ_r by lia.
  assert (0 < 2 ^ Z.of_nat i) by (apply Z.pow_pos_nonneg; lia).
  destruct i as [|i]; [cbn; lia|].
  destruct (Z.min_spec (base * 2 ^ Z.of_nat (S i)) cap) as [[? ->]|[? ->]]; nia.
Qed.

Lemma next_delay_after b i :
  0 <= base_ms b -> 0 <= max_ms b <= u64_max -> max_attempts b <= u32_max ->
  exp_next_delay (backoff_after b i) =
    if max_attempts b <=? Z.of_nat i then (backoff_after b i, None)
    else (backoff_after b (S i), Some (delay_at (base_ms b) (max_ms b) i)).
Proof.
  intros Hb Hm Ha. unfold exp_next_delay. cbn [backoff_after max_attempts attempts current_ms base_ms max_ms].
  destruct (max_attempts b <=? Z.of_nat i) eqn:E; [done|]. simplify_bool. f_equal. unfold backoff_after.
  rewrite <- delay_at_S by done. f_equal. unfold sat_add, u32_max in *. lia.
Qed.

Lemma retry_from {A} (attempt : nat -> result SignalingError A) b n i :
  0 <= base_ms b -> 0 <= max_ms b <= u64_max -> 0 <= max_attempts b <= u32_max ->
  Z.of_nat (n + i) = max_attempts b ->
  connect_with_retry (S n) attempt i (backoff_after b i) =
    match find (fun j => is_ok (attempt j)) (seq i (S n)) with
    | Some j => Some (backoff_after b j, map (delay_at (base_ms b) (max_ms b)) (seq i (j - i)), attempt j)
    | None => Some (backoff_after b (n + i), map (delay_at (base_ms b) (max_ms b)) (seq i n), Err NotConnected)
    end.
Proof.
  intros Hb Hm Ha. revert i. induction n as [|n IH]; intros i Hi.
  - cbn [connect_with_retry seq find]. destruct (attempt i) as [a|] eqn:E; cbn [is_ok].
    { rewrite Nat.sub_diag, E. done. }
    cbn [next_delay exponential_backoff]. rewrite next_delay_after by lia.
    rewrite (proj2 (Z.leb_le _ _)) by lia. done.
  - change (connect_with_retry (S (S n)) attempt i (backoff_after b i)) with
      (match attempt i with
       | Ok ws => Some (backoff_after b i, [], Ok ws)
       | Err _ => match next_delay (backoff_after b i) with
                  | (b', None) => Some (b', [], Err NotConnected)
                  | (b', Some d) => match connect_with_retry (S n) attempt (S i) b' with
                                    | Some (b'', ds, r) => Some (b'', d :: ds, r)
                                    | None => None end end end).
    change (seq i (S (S n))) with (i :: seq (S i) (S n)). cbn [find].
    destruct (attempt i) as [a|] eqn:E; cbn [is_ok].
    { rewrite Nat.sub_diag, E. done. }
    cbn [next_delay exponential_backoff]. rewrite next_delay_after by lia.
    rewrite (proj2 (Z.leb_gt _ _)) by lia. rewrite IH by lia.
    destruct (find (fun j => is_ok (attempt j)) (seq (S i) (S n))) as [j|] eqn:Ef.
    + apply find_some in Ef as [Hin _]. apply in_seq in Hin.
      replace (j - i)%nat with (S (j - S i)) by lia. done.
    + by replace (n + S i)%nat with (S n + i)%nat by lia.
Qed.

(** Reconnecting terminates: with a fresh exponential backoff the retry loop makes at most
    [max_attempts + 1] attempts; it returns the first success, or [NotConnected] after all of
    them failed, and in between it sleeps the base delay doubled each time up to the cap. *)
Lemma reconnect_terminates {A} (attempt : nat -> result SignalingError A) base cap n :
  0 <= base -> 0 <= cap <= u64_max -> Z.of_nat n <= u32_max ->
  exists b, connect_with_retry (S n) attempt 0 (backoff_new base cap (Z.of_nat n)) =
    match find (fun j => is_ok (attempt j)) (seq 0 (S n)) with
    | Some j => Some (b, map (delay_at base cap) (seq 0 j), attempt j)
    | None => Some (b, map (delay_at base cap) (seq 0 n), Err NotConnected)
    end /\ exp_reset b = backoff_new base cap (Z.of_nat n).
Proof.
  intros Hb Hc Hn. pose proof (retry_from attempt (backoff_new base cap (Z.of_nat n)) n 0 Hb Hc) as H.
  change (backoff_after (backoff_new base cap (Z.of_nat n)) 0) with (backoff_new base cap (Z.of_nat n)) in H.
  rewrite H by (cbn; lia). destruct (find _ _) as [j|]; [rewrite Nat.sub_0_r|]; eexists; done.
Qed.

Lemma reconnect_terminates_witness : exists b,
  connect_with_retry 9 (fun i => if (i =? 3)%nat then Ok i else Err NotConnected) 0 backoff_default
  = Some (b, [100; 200; 400], Ok 3%nat).
Proof.
  destruct (reconnect_terminates (fun i => if (i =? 3)%nat then Ok i else Err NotConnected) 100 30000 8)
    as (b & H & _); [lia|unfold u64_max; lia|unfold u32_max; lia|].
  exists b. vm_compute in H. vm_compute. exact H.
Defined.

(** ** An honest client against the relay *)

Lemma hex_digit_lower n : 0 <= n < 16 -> is_hex_lower (Z.of_nat (Ascii.nat_of_ascii (hex_digit n))) = true.
Proof.
  revert n. apply (all_u8_spec 16 (fun n => is_hex_lower (Z.of_nat (Ascii.nat_of_ascii (hex_digit n))))).
  vm_compute. reflexivity.
Qed.

Lemma hex_string_lower l : bytes_ok l -> forallb is_hex_lower (lit (hex_string l)) = true.
Proof.
  induction 1 as [|b l Hb _ IH]; [done|]. unfold is_u8 in Hb. unfold lit in *. cbn [hex_string String.list_ascii_of_string map forallb].
  rewrite (hex_digit_lower (b / 16)) by (split; [apply Z.div_pos|apply Z.div_lt_upper_bound]; lia).
  rewrite (hex_digit_lower (b mod 16)) by (apply Z.mod_pos_bound; lia).
  by rewrite IH.
Qed.

Lemma fp_string_lit s : fp_string (lit s) = s.
Proof.
  unfold fp_string, lit. induction s as [|a s IH]; [done|]. cbn [String.list_ascii_of_string map String.string_of_list_ascii].
  by rewrite Nat2Z.id, Ascii.ascii_nat_embedding, IH.
Qed.

Section Honest.
Context `{SP : SigPrims} `{SL : !SigLaws} `{KP : !KeyPrims} {K : Type} `{KS : Keystore K}.
Context (display : SignalingError -> bytes).
Context {Q : Type} `{MQ : Mpsc SignalingEnvelope Q} {ML : MpscLaws SignalingEnvelope Q}.

Lemma identity_fp_ok id : identity_ok id -> fp_ok (lit (fingerprint id)).
Proof.
  intros Hid. pose proof (fp_length id Hid) as Hl. split; [unfold blen; by rewrite Hl|].
  rewrite Hid. apply hex_string_lower, sha256_bytes.
Qed.

Lemma zero_fp_ok : fp_ok zero_fp.
Proof. by vm_compute. Qed.

Lemma ws_send_conn (s : Server Q) c k env w :
  conns s !! c = Some k -> envelope_encode env = Ok w ->
  registry (ws_send s c env) = registry s /\
  exists k', conns (ws_send s c env) !! c = Some k' /\ c_sent k' = c_sent k ++ [w] /\
    c_challenge k' = c_challenge k /\ same_reg k k'.
Proof.
  intros Hk He. unfold ws_send. rewrite Hk, He. split; [done|]. eexists. split; [apply lookup_insert_eq|done].
Qed.

(** The [Hello] of a client with a usable key store: it encodes, and the relay's
    authenticator accepts it. *)
Lemma hello_for_ok (ks : K) id sid ch :
  signs_for ks id -> from_public_key_bytes (verifying_key id) = Ok id -> identity_ok id ->
  blen (verifying_key id) = 32 -> blen sid = 16 -> blen ch = PEER_AUTH_CHALLENGE_LEN ->
  exists env, envelope_ok env /\ kind env = Hello /\ session_id env = sid /\
    from_fp env = lit (fingerprint id) /\
    hello_for sid (lit (fingerprint id)) (Some ks) ch = Ok (envelope_wire env) /\
    identity_proof_authenticate {| claimed_fp := from_fp env; ctx_session_id := sid;
      ctx_challenge := ch; ctx_proof := payload env |} = Ok tt.
Proof.
  intros Hs Hk Hid Hl Hsid Hch. destruct (proof_create_verifies ks id sid ch Hs Hk) as (p & Hp & Hv & Hok).
  specialize (Hok Hl Hch). pose proof (proj2 (proof_decode_iff (proof_encode p) p) (conj Hok eq_refl)) as Hd.
  pose proof (identity_fp_ok id Hid) as Hfp.
  exists {| kind := Hello; session_id := sid; from_fp := lit (fingerprint id); to_fp := zero_fp;
            payload := proof_encode p |}.
  assert (blen (proof_encode p) = 128) as Hpl.
  { rewrite proof_encode_eq by done. destruct Hok as (H1 & H2 & H3). rewrite !blen_app, H1, H2, H3. done. }
  split; [|split; [done|split; [done|split; [done|split]]]].
  - unfold envelope_ok. cbn [session_id from_fp to_fp payload].
    split; [done|]. split; [done|]. split; [apply zero_fp_ok|]. rewrite Hpl. vm_compute. discriminate.
  - unfold hello_for. rewrite Hp. cbn [map_err]. apply envelope_encode_Ok. cbn [from_fp to_fp payload].
    split; [done|]. split; [apply zero_fp_ok|]. split; [rewrite Hpl; vm_compute; discriminate|done].
  - unfold identity_proof_authenticate. cbn [ctx_proof claimed_fp ctx_session_id ctx_challenge payload from_fp].
    rewrite Hd. cbn [map_err]. rewrite fp_string_lit, Hv. done.
Qed.

Lemma envelope_ok_encode env : envelope_ok env -> envelope_encode env = Ok (envelope_wire env).
Proof. intros (_ & ? & ? & ?). by apply envelope_encode_Ok. Qed.

Lemma envelope_decode_wire env : envelope_ok env -> envelope_decode (envelope_wire env) = Ok env.
Proof. intros H. pose proof (envelope_decode_encode env [] H) as E. by rewrite app_nil_r in E. Qed.

Lemma challenge_envelope_ok ch :
  blen ch = PEER_AUTH_CHALLENGE_LEN -> envelope_ok (make_challenge_envelope ch).
Proof.
  intros Hl. unfold envelope_ok. cbn [session_id from_fp to_fp payload make_challenge_envelope]. rewrite Hl.
  split; [done|]. split; [apply zero_fp_ok|]. split; [apply zero_fp_ok|]. vm_compute. discriminate.
Qed.

Lemma recv_challenge_ok ch rest :
  blen ch = PEER_AUTH_CHALLENGE_LEN ->
  recv_challenge (WsBinary (envelope_wire (make_challenge_envelope ch)) :: rest) = Ok (ch, rest).
Proof.
  intros Hl. cbn [recv_challenge]. rewrite envelope_decode_wire by by apply challenge_envelope_ok.
  rewrite bool_decide_eq_true_2 by done. cbn [negb payload make_challenge_envelope]. by rewrite Hl.
Qed.

(** The reply to an accepted [Hello]. *)
Definition hello_ack (fp sid : bytes) : SignalingEnvelope :=
  {| kind := Hello; session_id := sid; from_fp := fp; to_fp := fp; payload := [] |}.

(** A valid [Hello] on an open connection that is not registered, with room in the tables. *)
Lemma hello_step (s : Server Q) c k env :
  conns s !! c = Some k -> c_open k = true -> registered_fp k = None ->
  envelope_ok env -> kind env = Hello ->
  identity_proof_authenticate {| claimed_fp := from_fp env; ctx_session_id := session_id env;
    ctx_challenge := c_challenge k; ctx_proof := payload env |} = Ok tt ->
  (is_Some (registry s !! session_id env) \/ Z.of_nat (size (registry s)) < MAX_SESSIONS) ->
  Z.of_nat (size (default ∅ (registry s !! session_id env))) < MAX_PEERS_PER_SESSION ->
  let s2 := server_step identity_proof_authenticate display s (EvMessage c (envelope_wire env)) in
  (registry s2 !! session_id env) ≫= (.!! from_fp env) = Some c /\
  (c_sent <$> conns s2 !! c) =
    Some (c_sent k ++ [envelope_wire (hello_ack (from_fp env) (session_id env))]).
Proof.
  intros Hk Ho Hf Eok Ekd Eauth Hcap Hroom. cbv zeta.
  set (fp := from_fp env) in *. set (sid := session_id env) in *.
  set (reg := <[sid := <[fp := c]> (default ∅ (registry s !! sid))]> (registry s)).
  assert (envelope_encode (hello_ack fp sid) = Ok (envelope_wire (hello_ack fp sid))) as Aenc.
  { destruct Eok as (? & ? & ? & ?). by apply envelope_ok_encode. }
  assert (handle_message identity_proof_authenticate s c k (envelope_wire env) =
    (set_conn (set_registry s reg) c (register k fp sid), Ok (Some (hello_ack fp sid)))) as Hm.
  { unfold handle_message. rewrite envelope_decode_wire, Hf, Ekd by done. unfold handle_hello.
    rewrite Hf. fold fp sid. rewrite Eauth.
    assert (negb (bool_decide (is_Some (registry s !! sid)))
            && (MAX_SESSIONS <=? Z.of_nat (size (registry s))) = false) as ->.
    { destruct Hcap as [Hx|Hx]; [by rewrite bool_decide_eq_true_2|].
      rewrite (proj2 (Z.leb_gt _ _)) by lia. apply andb_false_r. }
    rewrite (proj2 (Z.leb_gt MAX_PEERS_PER_SESSION _)) by lia. cbn [andb].
    by rewrite insert_insert_eq. }
  cbn [server_step]. rewrite Hk, Ho. unfold on_message. rewrite Hm.
  destruct (ws_send_conn (set_conn (set_registry s reg) c (register k fp sid)) c (register k fp sid)
    (hello_ack fp sid) _ (lookup_insert_eq _ _ _) Aenc) as (Hr & k2 & Hk2 & Hs2 & _).
  rewrite Hk2, Hr. cbn [registry set_conn set_registry fmap option_fmap option_map]. unfold reg.
  rewrite Hs2, lookup_insert_eq. cbn [mbind option_bind]. by rewrite lookup_insert_eq.
Qed.

(** A client that owns its key gets in: against a relay in any reachable state with room
    for it, the client's answer to the challenge registers the connection under its
    fingerprint and session, and [try_connect] succeeds on what the relay then sends. *)
Lemma honest_client_registers evs (ks : K) id sid c ch :
  let s := server_run identity_proof_authenticate display (server_new (Q := Q)) evs in
  signs_for ks id -> from_public_key_bytes (verifying_key id) = Ok id -> identity_ok id ->
  blen (verifying_key id) = 32 -> blen sid = 16 -> blen ch = PEER_AUTH_CHALLENGE_LEN ->
  conns s !! c = None -> open_count s < MAX_CONNECTIONS ->
  (is_Some (registry s !! sid) \/ Z.of_nat (size (registry s)) < MAX_SESSIONS) ->
  Z.of_nat (size (default ∅ (registry s !! sid))) < MAX_PEERS_PER_SESSION ->
  let fp := lit (fingerprint id) in
  let s1 := server_step identity_proof_authenticate display s (EvConnect c ch) in
  exists w1 hello w2,
    (c_sent <$> conns s1 !! c) = Some [w1] /\
    fst (try_connect [WsBinary w1] sid fp (Some ks)) = [hello] /\
    let s2 := server_step identity_proof_authenticate display s1 (EvMessage c hello) in
    (c_sent <$> conns s2 !! c) = Some [w1; w2] /\
    (registry s2 !! sid) ≫= (.!! fp) = Some c /\
    try_connect [WsBinary w1; WsBinary w2] sid fp (Some ks) = ([hello], Ok []).
Proof.
  intros s Hsig Hkey Hid Hvl Hsl Hcl Hc Hopen Hcap Hroom fp s1.
  destruct (hello_for_ok ks id sid ch Hsig Hkey Hid Hvl Hsl Hcl)
    as (env & Eok & Ekd & Esid & Efp & Eh & Eauth).
  pose proof (envelope_ok_encode _ (challenge_envelope_ok ch Hcl)) as Cenc.
  set (k0 := {| c_challenge := ch; registered_fp := None; registered_session := None;
                c_queue := mpsc_channel CHANNEL_CAP; c_sent := []; c_open := true |} : Conn Q).
  assert (s1 = ws_send (set_conn s c k0) c (make_challenge_envelope ch)) as Es1.
  { unfold s1. cbn [server_step]. rewrite Hc. rewrite (proj2 (Z.leb_gt _ _)) by lia. done. }
  destruct (ws_send_conn (set_conn s c k0) c k0 _ _ (lookup_insert_eq _ _ _) Cenc)
    as (Hr1 & k1 & Hk1 & Hs1 & Hch1 & Ho1 & Hf1 & Hi1).
  rewrite <- Es1 in *. cbn [registry set_conn k0 c_sent app c_challenge c_open registered_fp] in *.
  subst sid. rewrite <- Hr1 in Hcap, Hroom. rewrite <- Hch1 in Eauth.
  destruct (hello_step s1 c k1 env Hk1 Ho1 Hf1 Eok Ekd Eauth Hcap Hroom) as [Hreg Hsent].
  fold fp in Eh, Efp. rewrite Efp, Hs1 in *.
  exists (envelope_wire (make_challenge_envelope ch)), (envelope_wire env),
    (envelope_wire (hello_ack fp (session_id env))).
  split; [by rewrite Hk1; cbn; rewrite Hs1|].
  unfold try_connect. rewrite !recv_challenge_ok, Eh by done. split; [done|].
  split; [done|]. split; [done|]. f_equal. cbn [await_ack].
  rewrite envelope_decode_wire; [done|]. pose proof (identity_fp_ok id Hid). done.
Qed.
End Honest.

(** ** Concrete runs *)

Definition envelope_okb (env : SignalingEnvelope) : bool :=
  (blen (session_id env) =? 16) && is_ok (validate_fp (from_fp env)) && is_ok (validate_fp (to_fp env))
  && (blen (payload env) <=? MAX_PAYLOAD_LEN).

Lemma envelope_okb_ok env : envelope_okb env = true -> envelope_ok env.
Proof.
  unfold envelope_okb. intros H. simplify_bool. split; [done|].
  assert (forall f, is_ok (validate_fp f) = true -> fp_ok f) as Hf.
  { intros f. destruct (validate_fp f) as [[]|] eqn:E; [|done]. by rewrite validate_fp_Ok in E. }
  split; [by apply Hf|]. split; [by apply Hf|done].
Qed.

Definition toy_display (e : SignalingError) : bytes := lit "error".

Definition toy_sid : bytes := to_be 16 7.
Definition toy_fp (n : Z) : bytes := lit (fingerprint (toy_id n)).

(** Device [n] answers the challenge [ch] of its connection. *)
Definition toy_hello (n ch : Z) : bytes :=
  default [] (ok (hello_for toy_sid (toy_fp n) (Some (from_signing_key [n])) (to_be 32 ch))).

(** Device 1 registers on connection 10, a stranger connects on 11. *)
Definition toy_events : list Event :=
  [EvConnect 10 (to_be 32 100); EvMessage 10 (toy_hello 1 100); EvConnect 11 (to_be 32 101)].

(** The channels of the concrete runs are lists. *)
Definition toy_new : Server (mpsc_view SignalingEnvelope) := server_new.

Lemma toy_signs_for n : signs_for (from_signing_key [n]) (toy_id n).
Proof. exact (software_signs_for (from_signing_key [n]) eq_refl). Qed.

Lemma honest_client_registers_witness :
  let s1 := server_step identity_proof_authenticate toy_display
              (server_run identity_proof_authenticate toy_display toy_new toy_events) (EvConnect 12 (to_be 32 102)) in
  exists w1 hello w2,
    (c_sent <$> conns s1 !! 12) = Some [w1] /\
    fst (try_connect [WsBinary w1] toy_sid (lit (fingerprint (toy_id 2))) (Some (from_signing_key [2]))) = [hello] /\
    let s2 := server_step identity_proof_authenticate toy_display s1 (EvMessage 12 hello) in
    (c_sent <$> conns s2 !! 12) = Some [w1; w2] /\
    (registry s2 !! toy_sid) ≫= (.!! (lit (fingerprint (toy_id 2)))) = Some 12 /\
    try_connect [WsBinary w1; WsBinary w2] toy_sid (lit (fingerprint (toy_id 2))) (Some (from_signing_key [2])) = ([hello], Ok []).
Proof.
  apply (honest_client_registers toy_display toy_events (from_signing_key [2]) (toy_id 2) toy_sid 12 (to_be 32 102)).
  - exact (toy_signs_for 2).
  - vm_compute. reflexivity.
  - reflexivity.
  - vm_compute. reflexivity.
  - reflexivity.
  - reflexivity.
  - vm_compute. reflexivity.
  - vm_compute. reflexivity.
  - right. vm_compute. reflexivity.
  - vm_compute. reflexivity.
Defined.

(** A relay in which device "aa.." is registered on connection 10 and an unregistered
    connection 11 sends an offer in the name of "bb..". *)
Definition lab_fp (c : Z) : bytes := replicate 64 c.

Definition lab_conn (fp sid : option bytes) : Conn (mpsc_view SignalingEnvelope) :=
  {| c_challenge := to_be 32 1; registered_fp := fp; registered_session := sid;
     c_queue := mpsc_channel CHANNEL_CAP; c_sent := []; c_open := true |}.

Definition lab_server : Server (mpsc_view SignalingEnvelope) :=
  {| registry := {[ toy_sid := {[ lab_fp 97 := 10 ]} ]};
     conns := <[10 := lab_conn (Some (lab_fp 97)) (Some toy_sid)]> {[ 11 := lab_conn None None ]} |}.

Definition toy_forged : SignalingEnvelope :=
  {| kind := Offer; session_id := toy_sid; from_fp := lab_fp 98; to_fp := lab_fp 97; payload := [42] |}.

Lemma relay_forwards_unregistered_sender_witness :
  exists q, server_step identity_proof_authenticate toy_display lab_server (EvMessage 11 (envelope_wire toy_forged))
    = set_conn lab_server 10 (set_queue (lab_conn (Some (lab_fp 97)) (Some toy_sid)) q) /\
    buffered (mpsc_inspect q) = waiting (lab_conn (Some (lab_fp 97)) (Some toy_sid)) ++ [toy_forged].
Proof.
  apply (relay_forwards_unregistered_sender identity_proof_authenticate toy_display lab_server 11
    (lab_conn None None) toy_forged {[ lab_fp 97 := 10 ]} 10 (lab_conn (Some (lab_fp 97)) (Some toy_sid)));
    try reflexivity.
  apply envelope_okb_ok. vm_compute. reflexivity.
Defined.

(** Device "aa.." reconnects on connection 13 (every proof is accepted here), then its first
    connection ends. *)
Definition lab_hello : bytes :=
  envelope_wire {| kind := Hello; session_id := toy_sid; from_fp := lab_fp 97; to_fp := zero_fp; payload := [] |}.

Definition lab_reconnect : list Event :=
  [EvConnect 10 (to_be 32 1); EvMessage 10 lab_hello; EvConnect 13 (to_be 32 2); EvMessage 13 lab_hello].

Lemma stale_close_unregisters_witness :
  let s' := server_step (fun _ => Ok tt) toy_display
              (server_run (fun _ => Ok tt) toy_display toy_new lab_reconnect) (EvClose 10) in
  exists k2, conns s' !! 13 = Some k2 /\ c_open k2 = true /\
    registered_fp k2 = Some (lab_fp 97) /\ registered_session k2 = Some toy_sid.
Proof.
  assert (registry (server_run (fun _ => Ok tt) toy_display toy_new lab_reconnect) !! toy_sid
            ≫= (.!! lab_fp 97) = Some 13) as Hreg by (vm_compute; reflexivity).
  assert (match conns (server_run (fun _ => Ok tt) toy_display toy_new lab_reconnect) !! 10 with
          | Some k => c_open k = true /\ registered_fp k = Some (lab_fp 97) /\ registered_session k = Some toy_sid
          | None => False end) as Hk by (vm_compute; split; [reflexivity|split; reflexivity]).
  destruct (conns (server_run (fun _ => Ok tt) toy_display toy_new lab_reconnect) !! 10) as [k1|] eqn:Hk1;
    [|destruct Hk].
  destruct (registry (server_run (fun _ => Ok tt) toy_display toy_new lab_reconnect) !! toy_sid) as [sess|] eqn:Hs;
    [|discriminate Hreg].
  exact (proj1 (stale_close_unregisters (fun _ => Ok tt) toy_display lab_reconnect 10 13 k1
    toy_sid (lab_fp 97) sess Hk1 (proj1 Hk) (proj1 (proj2 Hk)) (proj2 (proj2 Hk))
    ltac:(discriminate) Hs Hreg)).
Defined.

(** The ack of device 1, written to connection 10. *)
Lemma relay_delivers_to_proven_identity_witness :
  exists k w, conns (server_run identity_proof_authenticate toy_display toy_new toy_events) !! 10 = Some k /\
    w ∈ c_sent k /\ exists env, envelope_encode env = Ok w.
Proof.
  destruct (conns (server_run identity_proof_authenticate toy_display toy_new toy_events) !! 10) as [k|] eqn:Hk;
    [|vm_compute in Hk; discriminate Hk].
  destruct (c_sent k) as [|w0 [|w r]] eqn:Hs; [vm_compute in Hk; injection Hk as <-; discriminate Hs
    |vm_compute in Hk; injection Hk as <-; discriminate Hs|].
  assert (w ∈ c_sent k) as Hin by (rewrite Hs; apply list_elem_of_further, list_elem_of_here).
  destruct (relay_delivers_to_proven_identity toy_display toy_events 10 k w Hk Hin) as (env & He & _).
  exists k, w. split; [reflexivity|]. split; [exact Hin|]. exists env. exact He.
Defined.
