(* ===== verification/Stun.v ===== *)
(** * STUN messages (crates/sh-ice/src/stun.rs, error.rs)

    The Binding messages of the connectivity checks: attribute codec, MESSAGE-INTEGRITY and
    FINGERPRINT.  HMAC-SHA1 and CRC-32 come from crates outside the repository and are the
    class [StunPrims].  A [String] is its UTF-8 bytes.  Positions in a message are below 2^63
    like every slice length, where the source's saturating [usize] additions do not saturate;
    they are written as additions.  The two [while] loops over the attributes take one unit of
    fuel per byte: every round skips at least four ([decode_loop_fuel], [find_loop_fuel]). *)

From stdpp Require Import base numbers list option strings.
From S2P Require Import Prelude Utf8.

(** ** Errors and data *)

Inductive IceError :=
| StunTruncated (needed have : Z)
| StunAttrTruncated (attr_type : Z)
| BadMagicCookie (cookie : Z)
| UnknownComprehensionRequiredErr (attr_type : Z)
| IntegrityMismatch
| FingerprintMismatch
| InvalidMessageTypeBits
| MessageLengthNotAligned (len : Z)
| GatherFailed (reason : string)
| CheckFailed (reason : string)
| TurnCredTimestampOverflow
| TransportError (reason : string)
| NoCandidates
| IceTimeout
| AttrNotFound (attr_type : Z)
| UnsupportedMethod (method : Z)
| AttrOrderingViolation (attr : string).

Definition MAGIC_COOKIE : Z := 0x2112A442.
Definition STUN_HEADER_LEN : Z := 20.

Inductive StunClass := Request | SuccessResponse | ErrorResponse | Indication.

Inductive StunMethod := Binding.

(** [std::net::SocketAddr]: address octets, port and, for IPv6, flow information and scope. *)
Inductive SocketAddr :=
| V4 (octets : bytes) (port : Z)
| V6 (octets : bytes) (port flowinfo scope_id : Z).

Inductive StunAttribute :=
| MappedAddress (a : SocketAddr)
| XorMappedAddress (a : SocketAddr)
| Username (s : bytes)
| MessageIntegrity (hmac : bytes)
| Fingerprint (crc : Z)
| Priority (p : Z)
| UseCandidate
| IceControlled (tie_breaker : Z)
| IceControlling (tie_breaker : Z)
| ErrorCode (code : Z) (reason : bytes)
| UnknownComprehensionRequired (types : list Z)
| Software (s : bytes)
| Unknown (attr_type : Z) (value : bytes).

#[global] Instance SocketAddr_eq_dec : EqDecision SocketAddr.
Proof. solve_decision. Defined.

#[global] Instance StunAttribute_eq_dec : EqDecision StunAttribute.
Proof. solve_decision. Defined.

Record StunMessage := {
  class : StunClass;
  method : StunMethod;
  transaction_id : bytes;
  attributes : list StunAttribute;
}.

Definition new_binding_request (tid : bytes) : StunMessage :=
  {| class := Request; method := Binding; transaction_id := tid; attributes := [] |}.

Definition new_binding_response (tid : bytes) : StunMessage :=
  {| class := SuccessResponse; method := Binding; transaction_id := tid; attributes := [] |}.

(** ** The crates outside the repository

    [hmac_sha1 key data] is [Err e] where the key cannot be used ([e] is the error's text). *)
Class StunPrims := {
  hmac_sha1 : bytes -> bytes -> result string bytes;
  crc32 : bytes -> Z;
}.

(** HMAC accepts a key of any length and gives 20 bytes; the checksum is a [u32]. *)
Class StunLaws `{StunPrims} := {
  hmac_sha1_total key data :
    exists mac, hmac_sha1 key data = Ok mac /\ blen mac = 20 /\ bytes_ok mac;
  crc32_u32 data : is_u32 (crc32 data);
}.

Definition compute_hmac_sha1 `{StunPrims} (key data : bytes) : result IceError bytes :=
  map_err (fun e => TransportError ("HMAC-SHA1 key construction failed: " +:+ e))
    (hmac_sha1 key data).

(** ** Encoding *)

(** [n.min(u16::MAX) as u16]. *)
Definition len_u16 (n : Z) : Z := Z.min n u16_max.

Definition encode_type (c : StunClass) (m : StunMethod) : Z :=
  let m := match m with Binding => 0x0001 end in
  let c := match c with
           | Request => 0x0000 | Indication => 0x0010
           | SuccessResponse => 0x0100 | ErrorResponse => 0x0110
           end in
  let m_bits := Z.lor (Z.lor (Z.shiftl (Z.land m 0xF80) 2) (Z.shiftl (Z.land m 0x070) 1))
                      (Z.land m 0x00F) in
  Z.lor m_bits c.

Definition decode_type (type_word : Z) : result IceError (StunClass * StunMethod) :=
  let c1 := Z.land (Z.shiftr type_word 8) 1 in
  let c0 := Z.land (Z.shiftr type_word 4) 1 in
  let class := if c1 =? 0 then if c0 =? 0 then Request else Indication
               else if c0 =? 0 then SuccessResponse else ErrorResponse in
  let m := Z.lor (Z.lor (Z.land (Z.shiftr type_word 2) 0xF80)
                        (Z.land (Z.shiftr type_word 1) 0x070))
                 (Z.land type_word 0x00F) in
  if m =? 0x001 then Ok (class, Binding) else Err (UnsupportedMethod m).

Definition build_header (c : StunClass) (m : StunMethod) (tid : bytes) (attr_body_len : Z) : bytes :=
  to_be 2 (encode_type c m) ++ to_be 2 (len_u16 attr_body_len) ++ to_be 4 MAGIC_COOKIE ++ tid.

(** [value.len().wrapping_neg() & 3]. *)
Definition pad_of (len : Z) : Z := Z.land ((- len) mod 18446744073709551616) 3.

Definition push_tlv (buf : bytes) (attr_type : Z) (value : bytes) : bytes :=
  buf ++ to_be 2 attr_type ++ to_be 2 (len_u16 (blen value)) ++ value ++
  replicate (Z.to_nat (pad_of (blen value))) 0.

Definition encode_mapped_address (a : SocketAddr) : bytes :=
  match a with
  | V4 ip port => [0; 1] ++ to_be 2 port ++ ip
  | V6 ip port _ _ => [0; 2] ++ to_be 2 port ++ ip
  end.

(** [MAGIC_COOKIE >> 16] as a [u16], and the 16-byte mask of an IPv6 address. *)
Definition COOKIE_PORT : Z := Z.shiftr MAGIC_COOKIE 16.

Definition xor_mask (tid : bytes) : bytes := to_be 4 MAGIC_COOKIE ++ tid.

Definition encode_xor_mapped_address (a : SocketAddr) (tid : bytes) : bytes :=
  match a with
  | V4 ip port =>
      [0; 1] ++ to_be 2 (Z.lxor port COOKIE_PORT) ++ to_be 4 (Z.lxor (from_be ip) MAGIC_COOKIE)
  | V6 ip port _ _ =>
      [0; 2] ++ to_be 2 (Z.lxor port COOKIE_PORT) ++ zip_with Z.lxor ip (xor_mask tid)
  end.

Definition encode_one_attribute (attr : StunAttribute) (tid buf : bytes) : bytes :=
  match attr with
  | MappedAddress a => push_tlv buf 0x0001 (encode_mapped_address a)
  | XorMappedAddress a => push_tlv buf 0x0020 (encode_xor_mapped_address a tid)
  | Username s => push_tlv buf 0x0006 s
  | MessageIntegrity hmac => push_tlv buf 0x0008 hmac
  | Fingerprint crc => push_tlv buf 0x8028 (to_be 4 crc)
  | Priority p => push_tlv buf 0x0024 (to_be 4 p)
  | UseCandidate => push_tlv buf 0x0025 []
  | IceControlled tb => push_tlv buf 0x8029 (to_be 8 tb)
  | IceControlling tb => push_tlv buf 0x802A (to_be 8 tb)
  | ErrorCode code reason =>
      push_tlv buf 0x0009 ([0; 0; (code / 100) mod 256; (code mod 100) mod 256] ++ reason)
  | UnknownComprehensionRequired types => push_tlv buf 0x000A (concat (map (to_be 2) types))
  | Software s => push_tlv buf 0x8022 s
  | Unknown t value => push_tlv buf t value
  end.

Definition encode_attributes (attrs : list StunAttribute) (tid : bytes) : bytes :=
  fold_left (fun out attr => encode_one_attribute attr tid out) attrs [].

Definition stun_encode (m : StunMessage) : bytes :=
  let attr_bytes := encode_attributes (attributes m) (transaction_id m) in
  build_header (class m) (method m) (transaction_id m) (blen attr_bytes) ++ attr_bytes.

(** [out[2..4].copy_from_slice(..)], where the buffer has those bytes. *)
Definition set_length (buf : bytes) (len : Z) : bytes :=
  if 4 <=? blen buf then copy_at buf 2 (to_be 2 (len_u16 len)) else buf.

Section Integrity.
Context `{StunPrims}.

Definition encode_with_integrity (m : StunMessage) (key : bytes) : result IceError bytes :=
  let attr_bytes := encode_attributes (attributes m) (transaction_id m) in
  let mi_msg_len := blen attr_bytes + 24 in
  let out := build_header (class m) (method m) (transaction_id m) mi_msg_len ++ attr_bytes in
  let? hmac_bytes := compute_hmac_sha1 key out in
  Ok (out ++ to_be 2 0x0008 ++ to_be 2 20 ++ hmac_bytes).

Definition encode_with_integrity_and_fingerprint (m : StunMessage) (key : bytes)
    : result IceError bytes :=
  let? out := encode_with_integrity m key in
  let fp_total_len := sat_sub (blen out + 8) STUN_HEADER_LEN in
  let out := set_length out fp_total_len in
  let crc := Z.lxor (crc32 out) 0x5354554E in
  Ok (out ++ to_be 2 0x8028 ++ to_be 2 4 ++ to_be 4 crc).

End Integrity.

(** ** Decoding *)

(** [u16::from_be_bytes] of the two bytes at [i], 0 standing for a missing one. *)
Definition u16_at (l : bytes) (i : Z) : Z :=
  from_be [default 0 (l !! Z.to_nat i); default 0 (l !! Z.to_nat (i + 1))].

(** [(len + 3) & !3]. *)
Definition padded (len : Z) : Z := Z.land (len + 3) (Z.lnot 3).

Definition decode_mapped_address (value : bytes) (t : Z) : result IceError SocketAddr :=
  let e := StunAttrTruncated t in
  if blen value <? 4 then Err e else
  let? family := ok_or (value !! 1%nat) e in
  let? port_bytes := ok_or (get_range value 2 4) e in
  let port := from_be port_bytes in
  if family =? 1 then
    if blen value <? 8 then Err e else
    let? ip := ok_or (get_range value 4 8) e in Ok (V4 ip port)
  else if family =? 2 then
    if blen value <? 20 then Err e else
    let? ip := ok_or (get_range value 4 20) e in Ok (V6 ip port 0 0)
  else Err e.

Definition decode_xor_mapped_address (value tid : bytes) (t : Z) : result IceError SocketAddr :=
  let e := StunAttrTruncated t in
  if blen value <? 4 then Err e else
  let? family := ok_or (value !! 1%nat) e in
  let? xport_bytes := ok_or (get_range value 2 4) e in
  let port := Z.lxor (from_be xport_bytes) COOKIE_PORT in
  if family =? 1 then
    if blen value <? 8 then Err e else
    let? xaddr_bytes := ok_or (get_range value 4 8) e in
    Ok (V4 (to_be 4 (Z.lxor (from_be xaddr_bytes) MAGIC_COOKIE)) port)
  else if family =? 2 then
    if blen value <? 20 then Err e else
    let? xaddr := ok_or (get_range value 4 20) e in
    Ok (V6 (zip_with Z.lxor xaddr (xor_mask tid)) port 0 0)
  else Err e.

(** [value.chunks_exact(2)], each read as a big-endian [u16]. *)
Fixpoint u16_chunks (value : bytes) : list Z :=
  match value with
  | a :: b :: r => from_be [a; b] :: u16_chunks r
  | _ => []
  end.

Definition decode_one_attribute (t : Z) (value tid : bytes) : result IceError StunAttribute :=
  let e := StunAttrTruncated t in
  if t =? 0x0001 then let? a := decode_mapped_address value t in Ok (MappedAddress a)
  else if t =? 0x0006 then if utf8_valid value then Ok (Username value) else Err e
  else if t =? 0x0008 then
    if blen value <? 20 then Err e else
    let? hmac := ok_or (get_range value 0 20) e in Ok (MessageIntegrity hmac)
  else if t =? 0x0009 then
    if blen value <? 4 then Err e else
    let? class := ok_or (value !! 2%nat) e in
    let? number := ok_or (value !! 3%nat) e in
    let code := sat_add u16_max (sat_mul u16_max class 100) number in
    Ok (ErrorCode code (from_utf8_lossy (default [] (get_from value 4))))
  else if t =? 0x000A then
    if negb (blen value mod 2 =? 0) then Err e else
    Ok (UnknownComprehensionRequired (u16_chunks value))
  else if t =? 0x0020 then
    let? a := decode_xor_mapped_address value tid t in Ok (XorMappedAddress a)
  else if t =? 0x0024 then
    if blen value <? 4 then Err e else
    let? p := ok_or (get_range value 0 4) e in Ok (Priority (from_be p))
  else if t =? 0x0025 then Ok UseCandidate
  else if t =? 0x8022 then Ok (Software (from_utf8_lossy value))
  else if t =? 0x8028 then
    if blen value <? 4 then Err e else
    let? crc := ok_or (get_range value 0 4) e in Ok (Fingerprint (from_be crc))
  else if t =? 0x8029 then
    if blen value <? 8 then Err e else
    let? tb := ok_or (get_range value 0 8) e in Ok (IceControlled (from_be tb))
  else if t =? 0x802A then
    if blen value <? 8 then Err e else
    let? tb := ok_or (get_range value 0 8) e in Ok (IceControlling (from_be tb))
  else Ok (Unknown t value).

Fixpoint decode_loop (fuel : nat) (attr_bytes tid : bytes) (pos : Z)
    : result IceError (list StunAttribute) :=
  match fuel with
  | O => Ok []
  | S n =>
      let len := blen attr_bytes in
      if len <=? pos then Ok [] else
      if len - pos <? 4 then Err (StunTruncated (pos + 4) (len + STUN_HEADER_LEN)) else
      let? type_bytes := ok_or (get_range attr_bytes pos (pos + 2)) (StunTruncated (pos + 2) len) in
      let attr_type := from_be type_bytes in
      let? len_bytes := ok_or (get_range attr_bytes (pos + 2) (pos + 4)) (StunTruncated (pos + 4) len) in
      let attr_len := from_be len_bytes in
      let value_start := pos + 4 in
      let value_end := value_start + attr_len in
      if len <? value_end then Err (StunAttrTruncated attr_type) else
      let? value := ok_or (get_range attr_bytes value_start value_end) (StunAttrTruncated attr_type) in
      let? attr := decode_one_attribute attr_type value tid in
      let? attrs := decode_loop n attr_bytes tid (value_start + padded attr_len) in
      Ok (attr :: attrs)
  end.

Definition decode_attributes (attr_bytes tid : bytes) : result IceError (list StunAttribute) :=
  decode_loop (S (length attr_bytes)) attr_bytes tid 0.

Definition stun_decode (raw : bytes) : result IceError StunMessage :=
  let len := blen raw in
  if len <? STUN_HEADER_LEN then Err (StunTruncated STUN_HEADER_LEN len) else
  let type_word := u16_at raw 0 in
  let msg_len := u16_at raw 2 in
  let cookie := from_be [default 0 (raw !! 4%nat); default 0 (raw !! 5%nat);
                         default 0 (raw !! 6%nat); default 0 (raw !! 7%nat)] in
  if negb (Z.land type_word 0xC000 =? 0) then Err InvalidMessageTypeBits else
  if negb (msg_len mod 4 =? 0) then Err (MessageLengthNotAligned msg_len) else
  if negb (cookie =? MAGIC_COOKIE) then Err (BadMagicCookie cookie) else
  let? (c, m) := decode_type type_word in
  let? tid := ok_or (get_range raw 8 20) (StunTruncated 20 len) in
  let total_len := STUN_HEADER_LEN + msg_len in
  if len <? total_len then Err (StunTruncated total_len len) else
  let? attr_bytes := ok_or (get_range raw STUN_HEADER_LEN total_len) (StunTruncated total_len len) in
  let? attrs := decode_attributes attr_bytes tid in
  Ok {| class := c; method := m; transaction_id := tid; attributes := attrs |}.

(** ** Verification *)

Fixpoint find_loop (fuel : nat) (attr_bytes : bytes) (target_type pos : Z) : result IceError Z :=
  match fuel with
  | O => Err (AttrNotFound target_type)
  | S n =>
      if blen attr_bytes <? pos + 4 then Err (AttrNotFound target_type) else
      let t := u16_at attr_bytes pos in
      let l := u16_at attr_bytes (pos + 2) in
      let value_end := pos + 4 + l in
      if blen attr_bytes <? value_end then Err (StunAttrTruncated t) else
      if t =? target_type then Ok (STUN_HEADER_LEN + pos) else
      find_loop n attr_bytes target_type (pos + 4 + padded l)
  end.

Definition find_attr_offset (raw : bytes) (target_type : Z) : result IceError Z :=
  if blen raw <? STUN_HEADER_LEN then Err (StunTruncated STUN_HEADER_LEN (blen raw)) else
  let total := STUN_HEADER_LEN + u16_at raw 2 in
  let? attr_bytes := ok_or (get_range raw STUN_HEADER_LEN total) (StunTruncated total (blen raw)) in
  find_loop (S (length attr_bytes)) attr_bytes target_type 0.

(** [map_err(|e| match e { AttrNotFound => missing, other => other })]. *)
Definition missing_as (missing e : IceError) : IceError :=
  match e with AttrNotFound _ => missing | other => other end.

Section Verify.
Context `{StunPrims}.

Definition verify_integrity (raw key : bytes) : result IceError unit :=
  let? mi_offset := map_err (missing_as IntegrityMismatch) (find_attr_offset raw 0x0008) in
  let mi_end := mi_offset + 24 in
  let body_end := STUN_HEADER_LEN + u16_at raw 2 in
  let trailer := default [] (get_range raw mi_end body_end) in
  let is_only_fp := (blen trailer =? 8) && bool_decide (get_range trailer 0 2 = Some (to_be 2 0x8028)) in
  if (mi_end <? body_end) && negb is_only_fp
  then Err (AttrOrderingViolation "MESSAGE-INTEGRITY") else
  let? prefix := ok_or (get_range raw 0 mi_offset) (StunTruncated mi_offset (blen raw)) in
  let mi_msg_len := sat_sub (mi_offset + 24) STUN_HEADER_LEN in
  let? expected := compute_hmac_sha1 key (set_length prefix mi_msg_len) in
  let value_start := mi_offset + 4 in
  let? stored := ok_or (get_range raw value_start (value_start + 20)) IntegrityMismatch in
  if bytes_eqb expected stored then Ok tt else Err IntegrityMismatch.

Definition verify_fingerprint (raw : bytes) : result IceError unit :=
  let? fp_offset := map_err (missing_as FingerprintMismatch) (find_attr_offset raw 0x8028) in
  let fp_end := fp_offset + 8 in
  let body_end := STUN_HEADER_LEN + u16_at raw 2 in
  if negb (fp_end =? body_end) then Err (AttrOrderingViolation "FINGERPRINT") else
  let fp_total_len := sat_sub (fp_offset + 8) STUN_HEADER_LEN in
  let? prefix := ok_or (get_range raw 0 fp_offset) (StunTruncated fp_offset (blen raw)) in
  let computed := Z.lxor (crc32 (set_length prefix fp_total_len)) 0x5354554E in
  let value_start := fp_offset + 4 in
  let? stored_bytes := ok_or (get_range raw value_start (value_start + 4)) FingerprintMismatch in
  if computed =? from_be stored_bytes then Ok tt else Err FingerprintMismatch.

End Verify.
