(* ===== verification/StunWire.v ===== *)
(** * What the STUN codec and its integrity check guarantee (crates/sh-ice/src/stun.rs)

    Lemmas on the attribute layout and the two attribute walks, the round trip of messages,
    and the exact extent of what MESSAGE-INTEGRITY authenticates. *)

From stdpp Require Import base numbers list option strings sets.
From S2P Require Import Prelude Utf8 Stun.

(** ** Padding *)

Lemma pad_of_mod n : pad_of n = (- n) mod 4.
Proof.
  unfold pad_of. change 3 with (Z.ones 2). rewrite Z.land_ones by lia. change (2 ^ 2) with 4.
  change 18446744073709551616 with (4 * 4611686018427387904).
  rewrite Z.rem_mul_r by lia. rewrite Z.mul_comm, Z.mod_add, Z.mod_mod by lia. done.
Qed.

Lemma padded_spec n : padded n = 4 * ((n + 3) / 4).
Proof.
  unfold padded. rewrite <- Z.ldiff_land. change 3 with (Z.ones 2) at 2.
  rewrite Z.ldiff_ones_r, Z.shiftl_mul_pow2, Z.shiftr_div_pow2 by lia. change (2 ^ 2) with 4. lia.
Qed.

Lemma padded_pad n : padded n = n + pad_of n.
Proof. rewrite padded_spec, pad_of_mod. Z.div_mod_to_equations. lia. Qed.

Lemma padded_range n : n <= padded n <= n + 3.
Proof. rewrite padded_spec. Z.div_mod_to_equations. lia. Qed.

(** ** The layout of one attribute *)

Definition tlv (t : Z) (v : bytes) : bytes := push_tlv [] t v.

Lemma push_tlv_app buf t v : push_tlv buf t v = buf ++ tlv t v.
Proof. done. Qed.

Lemma blen_replicate n x : blen (replicate n x) = Z.of_nat n.
Proof. unfold blen. by rewrite length_replicate. Qed.

Lemma blen_tlv t v : blen (tlv t v) = 4 + padded (blen v).
Proof.
  unfold tlv, push_tlv. rewrite !blen_app, !blen_to_be, blen_replicate, padded_pad.
  change (blen []) with 0. pose proof (Z.mod_pos_bound (- blen v) 4). rewrite pad_of_mod. lia.
Qed.

Lemma tlv_ok t v : bytes_ok v -> bytes_ok (tlv t v).
Proof.
  intros Hv. unfold tlv, push_tlv, bytes_ok. rewrite !Forall_app. split_and!; try apply to_be_ok; try done.
  apply Forall_replicate. done.
Qed.

(** The type code and the value of an attribute. *)
Definition attr_type_of (a : StunAttribute) : Z :=
  match a with
  | MappedAddress _ => 0x0001 | XorMappedAddress _ => 0x0020 | Username _ => 0x0006
  | MessageIntegrity _ => 0x0008 | Fingerprint _ => 0x8028 | Priority _ => 0x0024
  | UseCandidate => 0x0025 | IceControlled _ => 0x8029 | IceControlling _ => 0x802A
  | ErrorCode _ _ => 0x0009 | UnknownComprehensionRequired _ => 0x000A
  | Software _ => 0x8022 | Unknown t _ => t
  end.

Definition attr_value (a : StunAttribute) (tid : bytes) : bytes :=
  match a with
  | MappedAddress a => encode_mapped_address a
  | XorMappedAddress a => encode_xor_mapped_address a tid
  | Username s | Software s => s
  | MessageIntegrity hmac => hmac
  | Fingerprint n | Priority n => to_be 4 n
  | UseCandidate => []
  | IceControlled tb | IceControlling tb => to_be 8 tb
  | ErrorCode code reason => [0; 0; (code / 100) mod 256; (code mod 100) mod 256] ++ reason
  | UnknownComprehensionRequired types => concat (map (to_be 2) types)
  | Unknown _ v => v
  end.

Definition attr_tlv (tid : bytes) (a : StunAttribute) : bytes :=
  tlv (attr_type_of a) (attr_value a tid).

Lemma encode_one_eq a tid buf : encode_one_attribute a tid buf = buf ++ attr_tlv tid a.
Proof. by destruct a. Qed.

Lemma encode_attributes_eq attrs tid :
  encode_attributes attrs tid = concat (map (attr_tlv tid) attrs).
Proof.
  unfold encode_attributes. rewrite <- (app_nil_l (concat _)). generalize (@nil Z).
  induction attrs as [|a attrs IH]; intros buf; cbn [fold_left map concat]; [by rewrite app_nil_r|].
  by rewrite IH, encode_one_eq, app_assoc.
Qed.

Lemma encode_attributes_app l1 l2 tid :
  encode_attributes (l1 ++ l2) tid = encode_attributes l1 tid ++ encode_attributes l2 tid.
Proof. rewrite !encode_attributes_eq. by rewrite map_app, concat_app. Qed.

Lemma attrs_aligned attrs tid : blen (encode_attributes attrs tid) mod 4 = 0.
Proof.
  rewrite encode_attributes_eq. induction attrs as [|a attrs IH]; [done|]. cbn [map concat].
  rewrite blen_app. unfold attr_tlv at 1. rewrite blen_tlv, padded_spec.
  rewrite <- Z.add_mod_idemp_r, IH by lia. Z.div_mod_to_equations. lia.
Qed.

(** ** The walks over the attributes *)

Lemma u16_at_get l i b : get_range l i (i + 2) = Some b -> u16_at l i = from_be b.
Proof.
  intros (Hi & Hl & Hb & El)%get_range_Some.
  assert (exists x y, b = [x; y]) as (x & y & ->).
  { destruct b as [|x [|y [|]]]; unfold blen in Hb; cbn in Hb; try lia. eauto. }
  unfold u16_at. set (pre := take (Z.to_nat i) l) in *.
  assert (length pre = Z.to_nat i) as Hpre by (subst pre; rewrite length_take; unfold blen in Hl; lia).
  replace (l !! Z.to_nat i) with (Some x); [replace (l !! Z.to_nat (i + 1)) with (Some y); [done|]|].
  - rewrite El, lookup_app_r by lia. replace (Z.to_nat (i + 1) - length pre)%nat with 1%nat by lia. done.
  - rewrite El, lookup_app_r by lia. replace (Z.to_nat i - length pre)%nat with 0%nat by lia. done.
Qed.

Lemma get_range_total l a b : 0 <= a <= b -> b <= blen l -> exists r, get_range l a b = Some r /\ blen r = b - a.
Proof.
  intros Hab Hl. unfold get_range. repeat rewrite (proj2 (Z.leb_le _ _)) by lia. cbn [andb].
  eexists. split; [done|]. unfold blen in *. rewrite length_take, length_drop. lia.
Qed.

Lemma get_range_ok l a b r : bytes_ok l -> get_range l a b = Some r -> bytes_ok r.
Proof.
  unfold get_range, bytes_ok. intros Hl. destruct (_ && _); [|done]. intros [= <-].
  by apply Forall_take, Forall_drop.
Qed.

Lemma u16_at_range l i : bytes_ok l -> is_u16 (u16_at l i).
Proof.
  intros Hl. unfold u16_at, is_u16.
  assert (forall j, is_u8 (default 0 (l !! j))) as Hd.
  { intros j. destruct (l !! j) as [x|] eqn:E; cbn; [|done]. by eapply Forall_lookup_1 in E. }
  pose proof (from_be_range [default 0 (l !! Z.to_nat i); default 0 (l !! Z.to_nat (i + 1))]) as Hr.
  apply Hr. repeat constructor; apply Hd.
Qed.

(** One round of each walk, in terms of the header at [pos]. *)
Lemma decode_loop_S n bs tid pos :
  0 <= pos ->
  decode_loop (S n) bs tid pos =
    if blen bs <=? pos then Ok [] else
    if blen bs - pos <? 4 then Err (StunTruncated (pos + 4) (blen bs + STUN_HEADER_LEN)) else
    let t := u16_at bs pos in
    let l := u16_at bs (pos + 2) in
    if blen bs <? pos + 4 + l then Err (StunAttrTruncated t) else
    let? value := ok_or (get_range bs (pos + 4) (pos + 4 + l)) (StunAttrTruncated t) in
    let? attr := decode_one_attribute t value tid in
    let? attrs := decode_loop n bs tid (pos + 4 + padded l) in
    Ok (attr :: attrs).
Proof.
  intros Hp. cbn [decode_loop]. destruct (blen bs <=? pos) eqn:E1; [done|].
  destruct (blen bs - pos <? 4) eqn:E2; [done|]. simplify_bool.
  destruct (get_range_total bs pos (pos + 2)) as (a & Ha & _); [lia..|].
  destruct (get_range_total bs (pos + 2) (pos + 4)) as (b & Hb & _); [lia..|].
  rewrite Ha, Hb. cbn [ok_or]. rewrite (u16_at_get _ _ _ Ha).
  replace (pos + 4) with (pos + 2 + 2) in Hb by lia. by rewrite (u16_at_get _ _ _ Hb).
Qed.

Lemma decode_loop_fuel n m bs tid pos :
  bytes_ok bs -> 0 <= pos -> blen bs - pos < Z.of_nat n -> blen bs - pos < Z.of_nat m ->
  decode_loop n bs tid pos = decode_loop m bs tid pos.
Proof.
  intros Hok. revert m pos. induction n as [|n IH]; intros [|m] pos Hp Hn Hm.
  - done.
  - rewrite decode_loop_S by done. cbn [decode_loop]. by rewrite (proj2 (Z.leb_le _ _)) by lia.
  - rewrite decode_loop_S by done. cbn [decode_loop]. by rewrite (proj2 (Z.leb_le _ _)) by lia.
  - rewrite !decode_loop_S by done. pose proof (u16_at_range bs (pos + 2) Hok) as Hl. unfold is_u16 in Hl.
    pose proof (padded_range (u16_at bs (pos + 2))).
    cbv zeta. destruct (blen bs <=? pos); [done|]. rewrite (IH m) by lia. done.
Qed.

Lemma find_loop_fuel n m bs t pos :
  bytes_ok bs -> 0 <= pos -> blen bs - pos < Z.of_nat n -> blen bs - pos < Z.of_nat m ->
  find_loop n bs t pos = find_loop m bs t pos.
Proof.
  intros Hok. revert m pos. induction n as [|n IH]; intros [|m] pos Hp Hn Hm; cbn [find_loop].
  - done.
  - by rewrite (proj2 (Z.ltb_lt _ _)) by lia.
  - by rewrite (proj2 (Z.ltb_lt _ _)) by lia.
  - pose proof (u16_at_range bs (pos + 2) Hok) as Hl. unfold is_u16 in Hl.
    pose proof (padded_range (u16_at bs (pos + 2))). rewrite (IH m) by lia. done.
Qed.

Lemma tlv_reads pre t v rest :
  is_u16 t -> blen v <= u16_max ->
  u16_at (pre ++ tlv t v ++ rest) (blen pre) = t /\
  u16_at (pre ++ tlv t v ++ rest) (blen pre + 2) = blen v /\
  get_range (pre ++ tlv t v ++ rest) (blen pre + 4) (blen pre + 4 + blen v) = Some v.
Proof.
  unfold is_u16, u16_max, tlv, push_tlv, len_u16. intros Ht Hv. rewrite Z.min_l by done.
  pose proof (blen_nonneg v). rewrite app_nil_l, <- !app_assoc. split_and!.
  - erewrite u16_at_get; [|by eapply (get_range_at _ pre (to_be 2 t)); rewrite ?blen_to_be].
    apply from_be_to_be_small. cbn. lia.
  - erewrite u16_at_get;
      [|eapply (get_range_at _ (pre ++ to_be 2 t) (to_be 2 (blen v)));
        [by rewrite <- !app_assoc|by rewrite blen_app, blen_to_be|by rewrite blen_to_be]].
    apply from_be_to_be_small. cbn. lia.
  - eapply (get_range_at _ (pre ++ to_be 2 t ++ to_be 2 (blen v)) v); [by rewrite <- !app_assoc| |done].
    rewrite !blen_app, !blen_to_be. lia.
Qed.

Lemma blen_tlv_le pre t v rest :
  blen pre + 4 + blen v <= blen (pre ++ tlv t v ++ rest).
Proof.
  rewrite !blen_app, blen_tlv. pose proof (padded_range (blen v)). pose proof (blen_nonneg rest). lia.
Qed.

Lemma decode_loop_tlv n pre t v rest tid :
  is_u16 t -> blen v <= u16_max ->
  decode_loop (S n) (pre ++ tlv t v ++ rest) tid (blen pre) =
    let? attr := decode_one_attribute t v tid in
    let? attrs := decode_loop n ((pre ++ tlv t v) ++ rest) tid (blen (pre ++ tlv t v)) in
    Ok (attr :: attrs).
Proof.
  intros Ht Hv. pose proof (blen_nonneg pre). rewrite decode_loop_S by done. cbv zeta.
  destruct (tlv_reads pre t v rest Ht Hv) as (-> & -> & ->).
  pose proof (blen_tlv_le pre t v rest) as Hle. pose proof (blen_nonneg v).
  rewrite (proj2 (Z.leb_gt _ _)), !(proj2 (Z.ltb_ge _ _)) by lia. cbn [ok_or].
  rewrite (blen_app pre), blen_tlv, <- app_assoc. by rewrite Z.add_assoc.
Qed.

Lemma find_loop_tlv n pre t v rest target :
  is_u16 t -> blen v <= u16_max ->
  find_loop (S n) (pre ++ tlv t v ++ rest) target (blen pre) =
    if t =? target then Ok (STUN_HEADER_LEN + blen pre)
    else find_loop n ((pre ++ tlv t v) ++ rest) target (blen (pre ++ tlv t v)).
Proof.
  intros Ht Hv. cbn [find_loop]. destruct (tlv_reads pre t v rest Ht Hv) as (-> & -> & _).
  pose proof (blen_tlv_le pre t v rest) as Hle. pose proof (blen_nonneg v).
  rewrite !(proj2 (Z.ltb_ge _ _)) by lia.
  rewrite (blen_app pre), blen_tlv, <- app_assoc. by rewrite Z.add_assoc.
Qed.

(** ** Attributes that survive the wire *)

Definition KNOWN_TYPES : list Z :=
  [0x0001; 0x0006; 0x0008; 0x0009; 0x000A; 0x0020; 0x0024; 0x0025; 0x8022; 0x8028; 0x8029; 0x802A].

Definition addr_wf (a : SocketAddr) : Prop :=
  match a with
  | V4 ip port => blen ip = 4 /\ bytes_ok ip /\ is_u16 port
  | V6 ip port flow scope => blen ip = 16 /\ bytes_ok ip /\ is_u16 port /\ flow = 0 /\ scope = 0
  end.

Definition attr_wf (a : StunAttribute) : Prop :=
  match a with
  | MappedAddress a | XorMappedAddress a => addr_wf a
  | Username s | Software s => utf8_valid s = true /\ bytes_ok s
  | MessageIntegrity h => blen h = 20 /\ bytes_ok h
  | Fingerprint n | Priority n => is_u32 n
  | UseCandidate => True
  | IceControlled n | IceControlling n => is_u64 n
  | ErrorCode code reason => 0 <= code < 25600 /\ utf8_valid reason = true /\ bytes_ok reason
  | UnknownComprehensionRequired types => Forall is_u16 types
  | Unknown t v => is_u16 t /\ ~ t ∈ KNOWN_TYPES /\ bytes_ok v
  end.

Definition tid_wf (tid : bytes) : Prop := blen tid = 12 /\ bytes_ok tid.

Lemma lxor_bound n x y : 0 <= n -> 0 <= x < 2 ^ n -> 0 <= y < 2 ^ n -> 0 <= Z.lxor x y < 2 ^ n.
Proof.
  intros Hn Hx Hy. assert (Z.lxor x y = Z.lxor x y mod 2 ^ n) as ->; [|apply Z.mod_pos_bound; lia].
  apply Z.bits_inj'. intros i Hi. rewrite Z.lxor_spec.
  destruct (Z.lt_ge_cases i n).
  - rewrite Z.mod_pow2_bits_low by lia. by rewrite Z.lxor_spec.
  - rewrite Z.mod_pow2_bits_high by lia.
    rewrite <- (Z.mod_small x (2 ^ n)), <- (Z.mod_small y (2 ^ n)) by lia.
    by rewrite !Z.mod_pow2_bits_high by lia.
Qed.

Lemma lxor_twice x y : Z.lxor (Z.lxor x y) y = x.
Proof. by rewrite Z.lxor_assoc, Z.lxor_nilpotent, Z.lxor_0_r. Qed.

Lemma zip_lxor_twice a b :
  length a = length b -> zip_with Z.lxor (zip_with Z.lxor a b) b = a.
Proof.
  revert b. induction a as [|x a IH]; intros [|y b] H; cbn in *; try done.
  by rewrite lxor_twice, IH by lia.
Qed.

Lemma zip_lxor_ok a b : bytes_ok a -> bytes_ok b -> bytes_ok (zip_with Z.lxor a b).
Proof.
  intros Ha. revert b. induction Ha as [|x a Hx _ IH]; intros [|y b] Hb; cbn; try constructor.
  - inversion Hb; subst. by apply (lxor_bound 8).
  - inversion Hb; subst. by apply IH.
Qed.

Lemma be2_small z : is_u16 z -> from_be (to_be 2 z) = z.
Proof. intros H. apply from_be_to_be_small. unfold is_u16 in H. cbn. lia. Qed.

Lemma mask_length tid : tid_wf tid -> length (xor_mask tid) = 16%nat.
Proof. intros [H _]. unfold xor_mask, blen in *. rewrite length_app, to_be_length. lia. Qed.

Lemma addr_value_reads f p ip n :
  blen p = 2 -> 4 + blen ip = n ->
  blen ([0; f] ++ p ++ ip) = n /\ ([0; f] ++ p ++ ip) !! 1%nat = Some f /\
  get_range ([0; f] ++ p ++ ip) 2 4 = Some p /\ get_range ([0; f] ++ p ++ ip) 4 n = Some ip.
Proof.
  intros Hp Hn. split_and!.
  - rewrite !blen_app, Hp. change (blen [0; f]) with 2. lia.
  - done.
  - apply (get_range_at _ [0; f] p ip); [done|done|lia].
  - apply (get_range_at _ ([0; f] ++ p) ip []); [by rewrite app_nil_r, app_assoc| |lia].
    rewrite blen_app, Hp. done.
Qed.

Lemma decode_mapped_roundtrip a t :
  addr_wf a -> decode_mapped_address (encode_mapped_address a) t = Ok a.
Proof.
  destruct a as [ip port|ip port fl sc]; cbn [addr_wf encode_mapped_address]; unfold decode_mapped_address.
  - intros (Hl & _ & Hp).
    destruct (addr_value_reads 1 (to_be 2 port) ip 8) as (-> & -> & -> & ->); [done|lia|].
    cbn -[to_be]. by rewrite be2_small.
  - intros (Hl & _ & Hp & -> & ->).
    destruct (addr_value_reads 2 (to_be 2 port) ip 20) as (-> & -> & -> & ->); [done|lia|].
    cbn -[to_be]. by rewrite be2_small.
Qed.

Lemma decode_xor_mapped_roundtrip a tid t :
  tid_wf tid -> addr_wf a -> decode_xor_mapped_address (encode_xor_mapped_address a tid) tid t = Ok a.
Proof.
  intros Htid. assert (forall p, is_u16 p -> is_u16 (Z.lxor p COOKIE_PORT)) as Hx.
  { intros p Hp. by apply (lxor_bound 16). }
  destruct a as [ip port|ip port fl sc]; cbn [addr_wf encode_xor_mapped_address];
    unfold decode_xor_mapped_address.
  - intros (Hl & Hok & Hp).
    destruct (addr_value_reads 1 (to_be 2 (Z.lxor port COOKIE_PORT))
                (to_be 4 (Z.lxor (from_be ip) MAGIC_COOKIE)) 8) as (-> & -> & -> & ->); [done..|].
    cbn -[to_be]. rewrite be2_small, lxor_twice by auto.
    pose proof (from_be_range ip Hok) as Hr. rewrite Hl in Hr.
    rewrite from_be_to_be_small by (apply (lxor_bound 32); [done|exact Hr|done]).
    rewrite lxor_twice. by rewrite (to_be_from_be_len ip 4).
  - intros (Hl & Hok & Hp & -> & ->).
    assert (length ip = length (xor_mask tid)) as Hlen by (rewrite mask_length; unfold blen in Hl; [lia|done]).
    destruct (addr_value_reads 2 (to_be 2 (Z.lxor port COOKIE_PORT))
                (zip_with Z.lxor ip (xor_mask tid)) 20) as (-> & -> & -> & ->);
      [done|unfold blen in *; rewrite length_zip_with; lia|].
    cbn -[to_be zip_with xor_mask]. rewrite be2_small, lxor_twice by auto. by rewrite zip_lxor_twice.
Qed.

Lemma u16_chunks_concat types :
  Forall is_u16 types -> u16_chunks (concat (map (to_be 2) types)) = types.
Proof.
  induction 1 as [|t ts Ht _ IH]; [done|]. cbn [map concat].
  change (to_be 2 t) with [t / 256 mod 256; t mod 256]. cbn [app u16_chunks]. rewrite IH. f_equal.
  by apply (be2_small t).
Qed.

Lemma concat_be2_even types : blen (concat (map (to_be 2) types)) mod 2 = 0.
Proof.
  induction types as [|t ts IH]; [done|]. cbn [map concat]. rewrite blen_app, blen_to_be.
  rewrite <- Z.add_mod_idemp_r, IH by lia. done.
Qed.

Lemma get_prefix l n : blen l = n -> get_range l 0 n = Some l.
Proof. intros H. apply (get_range_at _ [] l []); [by rewrite app_nil_r|done|lia]. Qed.

Lemma error_code_roundtrip code reason tid :
  0 <= code < 25600 -> utf8_valid reason = true ->
  decode_one_attribute 0x0009 ([0; 0; (code / 100) mod 256; (code mod 100) mod 256] ++ reason) tid =
    Ok (ErrorCode code reason).
Proof.
  intros Hc Hr. unfold decode_one_attribute. cbn [Z.eqb Pos.eqb]. rewrite blen_app. pose proof (blen_nonneg reason).
  change (blen [0; 0; (code / 100) mod 256; (code mod 100) mod 256]) with 4.
  rewrite (proj2 (Z.ltb_ge _ _)) by lia.
  rewrite (get_from_at _ [0; 0; (code / 100) mod 256; (code mod 100) mod 256] reason) by done.
  cbn -[Z.mul Z.add Z.div Z.modulo from_utf8_lossy sat_add sat_mul]. rewrite from_utf8_lossy_valid by done.
  assert (0 <= code / 100 < 256 /\ 0 <= code mod 100 < 100) as [H1 H2] by (Z.div_mod_to_equations; lia).
  rewrite !Z.mod_small by lia. unfold sat_add, sat_mul, u16_max. do 2 f_equal.
  pose proof (Z.div_mod code 100). lia.
Qed.

Lemma attr_type_u16 a : attr_wf a -> is_u16 (attr_type_of a).
Proof. destruct a; cbn; intros H; try by apply H. all: done. Qed.

Lemma unknown_attr t v tid : ~ t ∈ KNOWN_TYPES -> decode_one_attribute t v tid = Ok (Unknown t v).
Proof.
  unfold KNOWN_TYPES, decode_one_attribute. intros Ht.
  assert (forall k, k ∈ KNOWN_TYPES -> (t =? k) = false) as Hk.
  { intros k Hk. apply Z.eqb_neq. by intros ->. }
  rewrite !Hk by (unfold KNOWN_TYPES; set_solver). done.
Qed.

(** Decoding an attribute's value gives the attribute back. *)
Lemma decode_one_roundtrip a tid :
  tid_wf tid -> attr_wf a -> decode_one_attribute (attr_type_of a) (attr_value a tid) tid = Ok a.
Proof.
  intros Htid. destruct a; cbn [attr_wf attr_type_of attr_value]; intros Hwf;
    lazymatch goal with
    | |- context [ErrorCode] => by apply error_code_roundtrip; apply Hwf
    | |- context [Unknown _ _] => by apply unknown_attr, Hwf
    | _ => unfold decode_one_attribute; cbn [Z.eqb Pos.eqb]
    end.
  - by rewrite decode_mapped_roundtrip.
  - by rewrite decode_xor_mapped_roundtrip.
  - by destruct Hwf as [-> _].
  - destruct Hwf as [Hl _]. rewrite Hl, get_prefix by done. done.
  - rewrite blen_to_be, get_prefix by done. cbn -[to_be]. by rewrite from_be_to_be_small.
  - rewrite blen_to_be, get_prefix by done. cbn -[to_be]. by rewrite from_be_to_be_small.
  - done.
  - rewrite blen_to_be, get_prefix by done. cbn -[to_be]. by rewrite from_be_to_be_small.
  - rewrite blen_to_be, get_prefix by done. cbn -[to_be]. by rewrite from_be_to_be_small.
  - rewrite concat_be2_even. cbn -[to_be concat map]. by rewrite u16_chunks_concat.
  - destruct Hwf as [Hv _]. by rewrite from_utf8_lossy_valid.
Qed.

Lemma attr_value_ok a tid : tid_wf tid -> attr_wf a -> bytes_ok (attr_value a tid).
Proof.
  intros [Htl Ht] Hwf. destruct a as [a|a| | | | | | | | | | |]; cbn [attr_wf attr_value] in *;
    try apply to_be_ok; try by apply Hwf.
  - destruct a; cbn [addr_wf encode_mapped_address] in *; solve_bytes_ok; apply Hwf.
  - destruct a as [ip port|ip port fl sc]; cbn -[to_be zip_with xor_mask] in *; solve_bytes_ok.
    apply zip_lxor_ok; [apply Hwf|]. unfold xor_mask. solve_bytes_ok.
  - constructor.
  - solve_bytes_ok. apply Hwf.
  - clear. induction types as [|t ts IH]; cbn [map concat]; solve_bytes_ok.
Qed.

Lemma encode_attributes_ok attrs tid :
  tid_wf tid -> Forall attr_wf attrs -> bytes_ok (encode_attributes attrs tid).
Proof.
  intros Ht Hwf. rewrite encode_attributes_eq. induction Hwf as [|a l Ha _ IH]; [constructor|].
  cbn [map concat]. apply Forall_app_2; [|done]. by apply tlv_ok, attr_value_ok.
Qed.

(** ** Messages

    A message cut into its header fields and the rest. *)
Definition pieces (ty len cookie tid body : bytes) : bytes := ty ++ len ++ cookie ++ tid ++ body.

Lemma pieces_split raw :
  STUN_HEADER_LEN <= blen raw ->
  exists ty len cookie tid body, raw = pieces ty len cookie tid body /\
    blen ty = 2 /\ blen len = 2 /\ blen cookie = 4 /\ blen tid = 12.
Proof.
  unfold STUN_HEADER_LEN, pieces. intros Hl.
  destruct (split_blen raw 2 (blen raw - 2)) as (ty & r1 & -> & H1 & E1); [lia..|].
  destruct (split_blen r1 2 (blen r1 - 2)) as (len & r2 & -> & H2 & E2); [lia..|].
  destruct (split_blen r2 4 (blen r2 - 4)) as (ck & r3 & -> & H3 & E3); [lia..|].
  destruct (split_blen r3 12 (blen r3 - 12)) as (tid & body & -> & H4 & E4); [lia..|].
  by exists ty, len, ck, tid, body.
Qed.

(** Decoding, in terms of the fields. *)
Definition decode_pieces (ty len cookie tid body : bytes) : result IceError StunMessage :=
  let msg_len := from_be len in
  let total := STUN_HEADER_LEN + blen body in
  if negb (Z.land (from_be ty) 0xC000 =? 0) then Err InvalidMessageTypeBits else
  if negb (msg_len mod 4 =? 0) then Err (MessageLengthNotAligned msg_len) else
  if negb (from_be cookie =? MAGIC_COOKIE) then Err (BadMagicCookie (from_be cookie)) else
  let? (c, m) := decode_type (from_be ty) in
  if total <? STUN_HEADER_LEN + msg_len then Err (StunTruncated (STUN_HEADER_LEN + msg_len) total) else
  let? attrs := decode_attributes (take (Z.to_nat msg_len) body) tid in
  Ok {| class := c; method := m; transaction_id := tid; attributes := attrs |}.

Lemma pieces_reads ty len cookie tid body :
  blen ty = 2 -> blen len = 2 -> blen cookie = 4 -> blen tid = 12 ->
  let raw := pieces ty len cookie tid body in
  blen raw = STUN_HEADER_LEN + blen body /\ u16_at raw 0 = from_be ty /\ u16_at raw 2 = from_be len /\
  from_be [default 0 (raw !! 4%nat); default 0 (raw !! 5%nat);
           default 0 (raw !! 6%nat); default 0 (raw !! 7%nat)] = from_be cookie /\
  get_range raw 8 20 = Some tid.
Proof.
  intros H1 H2 H3 H4. cbv zeta. unfold pieces. split_and!.
  - rewrite !blen_app. unfold STUN_HEADER_LEN. lia.
  - apply u16_at_get. apply (get_range_at _ [] ty (len ++ cookie ++ tid ++ body)); [done..|lia].
  - apply u16_at_get. apply (get_range_at _ ty len (cookie ++ tid ++ body)); [done..|lia].
  - unfold blen in *. destruct ty as [|? [|? [|]]]; try (cbn in H1; lia).
    destruct len as [|? [|? [|]]]; try (cbn in H2; lia).
    by destruct cookie as [|? [|? [|? [|? [|]]]]]; try (cbn in H3; lia).
  - apply (get_range_at _ (ty ++ len ++ cookie) tid body); [by rewrite <- !app_assoc| |lia].
    rewrite !blen_app. lia.
Qed.

Lemma take_body pre body n :
  blen pre = STUN_HEADER_LEN -> 0 <= n <= blen body ->
  get_range (pre ++ body) STUN_HEADER_LEN (STUN_HEADER_LEN + n) = Some (take (Z.to_nat n) body).
Proof.
  intros Hp Hn. apply (get_range_at _ pre _ (drop (Z.to_nat n) body)); [by rewrite take_drop|done|].
  unfold blen in *. rewrite length_take. lia.
Qed.

Lemma stun_decode_pieces ty len cookie tid body :
  blen ty = 2 -> blen len = 2 -> blen cookie = 4 -> blen tid = 12 -> bytes_ok len ->
  stun_decode (pieces ty len cookie tid body) = decode_pieces ty len cookie tid body.
Proof.
  intros H1 H2 H3 H4 Hok. pose proof (blen_nonneg body).
  destruct (pieces_reads ty len cookie tid body H1 H2 H3 H4) as (Hl & Ht & Hn & Hc & Htid).
  unfold stun_decode, decode_pieces. rewrite Hl, Ht, Hn, Hc, Htid.
  rewrite (proj2 (Z.ltb_ge _ _)) by lia. cbv zeta. cbn [ok_or].
  pose proof (from_be_range len Hok) as Hr.
  destruct (_ <? STUN_HEADER_LEN + from_be len) eqn:E; [done|]. simplify_bool.
  unfold pieces. rewrite !app_assoc, (take_body _ body); [done|rewrite !blen_app; unfold STUN_HEADER_LEN; lia|lia].
Qed.

Lemma build_header_app c m tid n body :
  build_header c m tid n ++ body =
  pieces (to_be 2 (encode_type c m)) (to_be 2 (len_u16 n)) (to_be 4 MAGIC_COOKIE) tid body.
Proof. unfold build_header, pieces. by rewrite <- !app_assoc. Qed.

Lemma decode_encode_type c m :
  decode_type (from_be (to_be 2 (encode_type c m))) = Ok (c, m) /\
  Z.land (from_be (to_be 2 (encode_type c m))) 0xC000 = 0.
Proof. destruct c, m; done. Qed.

(** Walking over encoded attributes returns them. *)
Lemma decode_loop_prefix n pre attrs rest tid :
  tid_wf tid -> Forall attr_wf attrs ->
  Forall (fun a => blen (attr_value a tid) <= u16_max) attrs ->
  decode_loop (length attrs + n) (pre ++ encode_attributes attrs tid ++ rest) tid (blen pre) =
    let? l := decode_loop n (pre ++ encode_attributes attrs tid ++ rest) tid
                (blen pre + blen (encode_attributes attrs tid)) in
    Ok (attrs ++ l).
Proof.
  intros Ht. revert pre. induction attrs as [|a attrs IH]; intros pre Hwf Hl.
  - change (encode_attributes [] tid) with (@nil Z). change (blen []) with 0. rewrite Z.add_0_r.
    cbn [length Nat.add app]. by destruct (decode_loop _ _ _ _).
  - inversion Hwf as [|?? Ha Hwf']; subst. inversion Hl as [|?? Hla Hl']; subst.
    rewrite encode_attributes_eq. cbn [map concat length Nat.add]. rewrite <- encode_attributes_eq.
    unfold attr_tlv at 1 2. rewrite <- app_assoc.
    rewrite decode_loop_tlv, decode_one_roundtrip by (try done; by apply attr_type_u16).
    rewrite IH by done. rewrite !blen_app, <- !app_assoc.
    replace (blen pre + blen (tlv _ _) + _) with
      (blen pre + (blen (attr_tlv tid a) + blen (encode_attributes attrs tid))) by (unfold attr_tlv; lia).
    by destruct (decode_loop n _ _ _).
Qed.

Lemma attr_count attrs tid : 4 * Z.of_nat (length attrs) <= blen (encode_attributes attrs tid).
Proof.
  rewrite encode_attributes_eq. induction attrs as [|a l IH]; [done|]. cbn [map concat length].
  rewrite blen_app. unfold attr_tlv at 1. rewrite blen_tlv.
  pose proof (padded_range (blen (attr_value a tid))). pose proof (blen_nonneg (attr_value a tid)). lia.
Qed.

Lemma attr_value_small attrs tid a :
  a ∈ attrs -> blen (attr_value a tid) <= blen (encode_attributes attrs tid).
Proof.
  rewrite encode_attributes_eq. induction attrs as [|b l IH]; [by intros ?%elem_of_nil|].
  cbn [map concat]. rewrite blen_app, elem_of_cons. intros [->|Ha].
  - unfold attr_tlv at 1. rewrite blen_tlv. pose proof (padded_range (blen (attr_value b tid))).
    pose proof (blen_nonneg (concat (map (attr_tlv tid) l))). lia.
  - pose proof (blen_nonneg (attr_tlv tid b)). specialize (IH Ha). lia.
Qed.

Lemma attr_values_small attrs tid :
  blen (encode_attributes attrs tid) <= u16_max ->
  Forall (fun a => blen (attr_value a tid) <= u16_max) attrs.
Proof.
  intros Hl. apply list.Forall_forall. intros a Hin. pose proof (attr_value_small _ tid _ Hin). lia.
Qed.

(** The attributes of a body whose encoded start is known and whose rest decodes. *)
Lemma decode_attrs_then attrs rest l tid :
  tid_wf tid -> Forall attr_wf attrs -> bytes_ok rest -> blen (encode_attributes attrs tid) <= u16_max ->
  decode_loop (S (length rest)) (encode_attributes attrs tid ++ rest) tid
    (blen (encode_attributes attrs tid)) = Ok l ->
  decode_attributes (encode_attributes attrs tid ++ rest) tid = Ok (attrs ++ l).
Proof.
  intros Ht Hwf Hok Hl Hr. unfold decode_attributes. set (A := encode_attributes attrs tid) in *.
  pose proof (attr_count attrs tid) as Hc. fold A in Hc. unfold blen in Hc.
  replace (S (length (A ++ rest))) with (length attrs + (S (length (A ++ rest)) - length attrs))%nat
    by (rewrite length_app; lia).
  etrans; [apply (decode_loop_prefix _ [] attrs rest tid)|]; [done..|by apply attr_values_small|].
  change (blen []) with 0. rewrite Z.add_0_l. cbn [app]. fold A.
  rewrite (decode_loop_fuel _ (S (length rest))), Hr; [done| |apply blen_nonneg|..].
  - apply Forall_app_2; [by apply encode_attributes_ok|done].
  - rewrite blen_app. unfold blen. rewrite length_app. lia.
  - rewrite blen_app. unfold blen. lia.
Qed.

Record message_wf (m : StunMessage) : Prop := {
  mw_tid : tid_wf (transaction_id m);
  mw_attrs : Forall attr_wf (attributes m);
  mw_len : blen (encode_attributes (attributes m) (transaction_id m)) <= u16_max;
}.

(** A header whose length field is right leaves the attributes to decode. *)
Lemma stun_decode_header c m tid n body tail :
  blen tid = 12 -> n = blen body -> n mod 4 = 0 -> n <= u16_max ->
  stun_decode (build_header c m tid n ++ body ++ tail) =
    let? attrs := decode_attributes body tid in
    Ok {| class := c; method := m; transaction_id := tid; attributes := attrs |}.
Proof.
  intros Ht -> Hal Hmax. rewrite build_header_app. pose proof (blen_nonneg body). pose proof (blen_nonneg tail).
  assert (from_be (to_be 2 (len_u16 (blen body))) = blen body) as Hlen.
  { unfold len_u16. rewrite Z.min_l by done. apply be2_small. unfold is_u16, u16_max in *. lia. }
  rewrite stun_decode_pieces by (rewrite ?blen_to_be; auto with shp). unfold decode_pieces. rewrite Hlen.
  destruct (decode_encode_type c m) as [-> ->]. rewrite Hal. cbn [negb Z.eqb].
  change (from_be (to_be 4 MAGIC_COOKIE) =? MAGIC_COOKIE) with true. cbn [negb].
  rewrite (proj2 (Z.ltb_ge _ _)) by (rewrite blen_app; lia).
  replace (Z.to_nat (blen body)) with (length body) by (unfold blen; lia). by rewrite take_app_length.
Qed.

Lemma stun_decode_encode m tail : message_wf m -> stun_decode (stun_encode m ++ tail) = Ok m.
Proof.
  intros [[Ht Htok] Ha Hl]. unfold stun_encode. rewrite <- app_assoc.
  rewrite stun_decode_header by (done || apply attrs_aligned). set (body := encode_attributes _ _) in *.
  assert (decode_attributes body (transaction_id m) = Ok (attributes m)) as ->; [|by destruct m].
  rewrite <- (app_nil_r body), <- (app_nil_r (attributes m)).
  apply decode_attrs_then; [done|done|constructor|done|]. fold body. rewrite app_nil_r. cbn [decode_loop].
  by rewrite Z.leb_refl.
Qed.

(** ** Message integrity *)

Lemma find_loop_encoded n pre attrs rest t tid :
  Forall attr_wf attrs -> Forall (fun a => attr_type_of a <> t) attrs ->
  Forall (fun a => blen (attr_value a tid) <= u16_max) attrs ->
  find_loop (length attrs + n) (pre ++ encode_attributes attrs tid ++ rest) t (blen pre) =
  find_loop n (pre ++ encode_attributes attrs tid ++ rest) t (blen pre + blen (encode_attributes attrs tid)).
Proof.
  intros Hwf Hne Hl. revert pre. induction attrs as [|a l IH]; intros pre.
  - change (encode_attributes [] tid) with (@nil Z). change (blen []) with 0. by rewrite Z.add_0_r.
  - inversion Hwf; subst. inversion Hne; subst. inversion Hl; subst.
    rewrite encode_attributes_eq. cbn [map concat length Nat.add]. rewrite <- encode_attributes_eq.
    unfold attr_tlv at 1 2. rewrite <- app_assoc, find_loop_tlv by (try done; by apply attr_type_u16).
    rewrite (proj2 (Z.eqb_neq _ _)) by done. rewrite IH by done. rewrite !blen_app, <- !app_assoc.
    f_equal. unfold attr_tlv. lia.
Qed.

Lemma find_loop_hit n pre t l rest :
  is_u16 t -> is_u16 l -> l <= blen rest ->
  find_loop (S n) (pre ++ to_be 2 t ++ to_be 2 l ++ rest) t (blen pre) = Ok (STUN_HEADER_LEN + blen pre).
Proof.
  intros Ht Hl Hr. cbn [find_loop].
  assert (u16_at (pre ++ to_be 2 t ++ to_be 2 l ++ rest) (blen pre) = t) as ->.
  { erewrite u16_at_get; [apply (be2_small t Ht)|]. by eapply (get_range_at _ pre (to_be 2 t)). }
  assert (u16_at (pre ++ to_be 2 t ++ to_be 2 l ++ rest) (blen pre + 2) = l) as ->.
  { erewrite u16_at_get; [apply (be2_small l Hl)|].
    eapply (get_range_at _ (pre ++ to_be 2 t) (to_be 2 l)); [by rewrite <- app_assoc|by rewrite blen_app|done]. }
  rewrite !blen_app, !blen_to_be. unfold is_u16 in *. rewrite !(proj2 (Z.ltb_ge _ _)) by lia.
  by rewrite Z.eqb_refl.
Qed.

Lemma set_length_pieces ty len cookie tid body n :
  blen ty = 2 -> blen len = 2 ->
  set_length (pieces ty len cookie tid body) n = pieces ty (to_be 2 (len_u16 n)) cookie tid body.
Proof.
  intros H1 H2. unfold set_length, pieces, copy_at.
  rewrite (proj2 (Z.leb_le _ _)) by
    (rewrite !blen_app; pose proof (blen_nonneg cookie); pose proof (blen_nonneg tid); pose proof (blen_nonneg body); lia).
  unfold blen in *. destruct ty as [|? [|? [|]]]; try (cbn in H1; lia).
  by destruct len as [|? [|? [|]]]; try (cbn in H2; lia).
Qed.

Lemma set_length_header c m tid k body n :
  set_length (build_header c m tid k ++ body) n = build_header c m tid n ++ body.
Proof. rewrite !build_header_app. by rewrite set_length_pieces by apply blen_to_be. Qed.

Lemma blen_build_header c m tid n : blen tid = 12 -> blen (build_header c m tid n) = STUN_HEADER_LEN.
Proof. intros H. unfold build_header. rewrite !blen_app, !blen_to_be, H. done. Qed.

Lemma u16_at_header c m tid n body :
  blen tid = 12 -> 0 <= n <= u16_max -> u16_at (build_header c m tid n ++ body) 2 = n.
Proof.
  intros Ht Hn. rewrite build_header_app.
  destruct (pieces_reads (to_be 2 (encode_type c m)) (to_be 2 (len_u16 n)) (to_be 4 MAGIC_COOKIE) tid body)
    as (_ & _ & -> & _); [done..|]. unfold len_u16. rewrite Z.min_l by lia.
  apply be2_small. unfold is_u16, u16_max in *. lia.
Qed.

Lemma find_attr_encoded c m tid attrs t l rest :
  let A := encode_attributes attrs tid in
  tid_wf tid -> Forall attr_wf attrs -> Forall (fun a => attr_type_of a <> t) attrs ->
  is_u16 t -> is_u16 l -> l <= blen rest -> blen A + 4 + blen rest <= u16_max ->
  find_attr_offset (build_header c m tid (blen A + 4 + blen rest) ++ A ++ to_be 2 t ++ to_be 2 l ++ rest) t
  = Ok (STUN_HEADER_LEN + blen A).
Proof.
  intros A [Ht Htok] Hwf Hne Hty Hl Hlr Hmax. unfold find_attr_offset.
  pose proof (blen_nonneg A). pose proof (blen_nonneg rest).
  set (body := A ++ to_be 2 t ++ to_be 2 l ++ rest).
  assert (blen body = blen A + 4 + blen rest) as Hb.
  { unfold body. rewrite !blen_app, !blen_to_be. lia. }
  rewrite u16_at_header, blen_app, blen_build_header by (done || lia).
  rewrite (proj2 (Z.ltb_ge _ _)) by lia. rewrite <- Hb, take_body by (try apply blen_build_header; done || lia).
  cbn [ok_or]. rewrite take_ge by (unfold blen; lia).
  pose proof (attr_count attrs tid) as Hc. fold A in Hc.
  replace (S (length body)) with (length attrs + S (length body - length attrs))%nat by (unfold blen in *; lia).
  etrans; [apply (find_loop_encoded _ [] attrs (to_be 2 t ++ to_be 2 l ++ rest) t tid); [done|done|]|].
  - apply list.Forall_forall. intros a Hin. pose proof (attr_value_small _ tid _ Hin) as Hs. fold A in Hs. lia.
  - change (blen []) with 0. rewrite Z.add_0_l. by apply find_loop_hit.
Qed.

(** *** The two walks see the same attributes *)

Lemma get_range_take l p a b : b <= p -> get_range l a b <> None -> get_range (take (Z.to_nat p) l) a b = get_range l a b.
Proof.
  intros Hb. unfold get_range. destruct (_ && (b <=? blen l)) eqn:E; [|done]. intros _. simplify_bool.
  unfold blen in *. rewrite length_take. repeat rewrite (proj2 (Z.leb_le _ _)) by lia. cbn [andb].
  f_equal. rewrite skipn_firstn_comm, take_take. f_equal. lia.
Qed.

Lemma u16_at_take l p i : 0 <= i -> i + 2 <= p -> u16_at (take (Z.to_nat p) l) i = u16_at l i.
Proof. intros Hi Hp. unfold u16_at. by rewrite !lookup_take_lt by lia. Qed.

Lemma decode_one_type t v tid a : decode_one_attribute t v tid = Ok a -> attr_type_of a = t.
Proof.
  unfold decode_one_attribute. intros H.
  repeat (destruct (t =? _) eqn:E in H;
    [simplify_bool; subst; cbn [attr_type_of];
     repeat (destruct (decode_mapped_address _ _) in H || destruct (decode_xor_mapped_address _ _ _) in H
             || destruct (ok_or _ _) in H || case_match); by simplify_eq|clear E]).
  by simplify_eq.
Qed.

(** The attribute found first, the attributes before it (which are those of the bytes before
    it) and those behind it. *)
Record found_at (bs tid : bytes) (t pos p : Z) (attrs before : list StunAttribute) (a : StunAttribute)
    (after : list StunAttribute) : Prop := {
  fa_le : pos <= p /\ p + 4 + u16_at bs (p + 2) <= blen bs;
  fa_aligned : pos mod 4 = 0 -> p mod 4 = 0;
  fa_type : u16_at bs p = t;
  fa_value : exists v, get_range bs (p + 4) (p + 4 + u16_at bs (p + 2)) = Some v /\
                       decode_one_attribute t v tid = Ok a;
  fa_attrs : attrs = before ++ a :: after;
  fa_before : decode_loop (S (length bs)) (take (Z.to_nat p) bs) tid pos = Ok before;
  fa_first : Forall (fun b => attr_type_of b <> t) before;
  fa_after : decode_loop (S (length bs)) bs tid (p + 4 + padded (u16_at bs (p + 2))) = Ok after;
}.

Lemma decode_loop_ok n bs tid pos attrs :
  0 <= pos -> decode_loop (S n) bs tid pos = Ok attrs -> pos + 4 <= blen bs ->
  exists v a l, pos + 4 + u16_at bs (pos + 2) <= blen bs /\
    get_range bs (pos + 4) (pos + 4 + u16_at bs (pos + 2)) = Some v /\
    decode_one_attribute (u16_at bs pos) v tid = Ok a /\
    decode_loop n bs tid (pos + 4 + padded (u16_at bs (pos + 2))) = Ok l /\ attrs = a :: l.
Proof.
  intros Hp Hd Hle. rewrite decode_loop_S in Hd by done. cbv zeta in Hd.
  rewrite (proj2 (Z.leb_gt _ _)), (proj2 (Z.ltb_ge (blen bs - pos) _)) in Hd by lia.
  destruct (blen bs <? _) eqn:E; [done|]. simplify_bool.
  destruct (get_range bs _ _) as [v|] eqn:Ev; [|done]. cbn [ok_or] in Hd.
  destruct (decode_one_attribute _ v tid) as [a|] eqn:Ea; [|done].
  destruct (decode_loop n _ _ _) as [l|] eqn:El; [|done]. injection Hd as <-. by exists v, a, l.
Qed.

Lemma find_decode n bs tid t pos off attrs :
  bytes_ok bs -> 0 <= pos -> blen bs - pos < Z.of_nat n ->
  find_loop n bs t pos = Ok off -> decode_loop n bs tid pos = Ok attrs ->
  exists p before a after, off = STUN_HEADER_LEN + p /\ found_at bs tid t pos p attrs before a after.
Proof.
  intros Hok. revert pos attrs. induction n as [|n IH]; intros pos attrs Hp Hn Hf Hd; [done|].
  cbn [find_loop] in Hf. destruct (blen bs <? pos + 4) eqn:E1; [done|].
  destruct (blen bs <? _) eqn:E2 in Hf; [done|]. simplify_bool.
  destruct (decode_loop_ok n bs tid pos attrs Hp Hd E1) as (v & a & l & Hle & Hv & Ha & Hl & ->).
  pose proof (u16_at_range bs (pos + 2) Hok) as Hu. unfold is_u16 in Hu.
  pose proof (padded_range (u16_at bs (pos + 2))) as Hpad.
  destruct (u16_at bs pos =? t) eqn:Et; simplify_bool.
  - injection Hf as <-. exists pos, [], a, l. split; [done|]. subst t. split; try done; eauto.
    + cbn [decode_loop]. rewrite (proj2 (Z.leb_le _ _)); [done|]. unfold blen. rewrite length_take. lia.
    + rewrite <- Hl. apply decode_loop_fuel; unfold blen in *; try done; lia.
  - destruct (IH (pos + 4 + padded (u16_at bs (pos + 2))) l ltac:(lia) ltac:(lia) Hf Hl) as (p & before & b & after & -> & F).
    destruct F as [[F1 F1'] F2 F3 F4 -> F6 F7 F8].
    pose proof (u16_at_range bs (p + 2) Hok) as Hup. unfold is_u16 in Hup.
    exists p, (a :: before), b, after. split; [done|]. split; try done.
    + lia.
    + intros Hm. apply F2. rewrite padded_spec. Z.div_mod_to_equations. lia.
    + assert (blen (take (Z.to_nat p) bs) = p) as Hbt by (unfold blen in *; rewrite length_take; lia).
      rewrite decode_loop_S by done. cbv zeta. rewrite !u16_at_take, Hbt by lia.
      rewrite (proj2 (Z.leb_gt _ _)), !(proj2 (Z.ltb_ge _ _)) by lia.
      rewrite get_range_take, Hv by (lia || by rewrite Hv). cbn [ok_or]. rewrite Ha.
      rewrite (decode_loop_fuel _ (S (length bs))), F6; [done|by apply Forall_take|lia|..]; unfold blen in *; lia.
    + constructor; [|done]. by rewrite (decode_one_type _ _ _ _ Ha).
Qed.

Lemma decode_loop_end n bs tid pos : blen bs <= pos -> decode_loop (S n) bs tid pos = Ok [].
Proof. intros H. cbn [decode_loop]. by rewrite (proj2 (Z.leb_le _ _)). Qed.

Lemma decode_one_min t v tid a :
  decode_one_attribute t v tid = Ok a -> (t = 0x0008 -> 20 <= blen v) /\ (t = 0x8028 -> 4 <= blen v).
Proof.
  intros H. split; intros ->; unfold decode_one_attribute in H; cbn [Z.eqb Pos.eqb] in H;
    destruct (_ <? _) eqn:E in H; try done; by simplify_bool.
Qed.

(** What can stand behind a code at [p] that passed the check on the trailer. *)
Lemma decode_trailer bs tid p after :
  bytes_ok bs -> 0 <= p -> 20 <= u16_at bs (p + 2) -> p + 4 + u16_at bs (p + 2) <= blen bs ->
  blen bs = p + 24 \/ blen bs = p + 32 /\ u16_at bs (p + 24) = 0x8028 ->
  decode_loop (S (length bs)) bs tid (p + 4 + padded (u16_at bs (p + 2))) = Ok after ->
  (length after <= 1)%nat /\
  (u16_at bs (p + 2) = 20 -> after = [] \/ exists crc, after = [Fingerprint crc]).
Proof.
  intros Hok Hp H20 Hle Hb Hd. set (l := u16_at bs (p + 2)) in *. pose proof (padded_range l) as Hpad.
  destruct (Z.le_gt_cases (blen bs) (p + 4 + padded l)) as [Hend|Hmore].
  { rewrite decode_loop_end in Hd by lia. injection Hd as <-. cbn. split; [lia|auto]. }
  destruct Hb as [Hb|[Hb Hfp]]; [lia|]. pose proof (padded_spec l) as Hps.
  assert (p + 4 + padded l = p + 24 \/ p + 4 + padded l = p + 28) as Hq by (Z.div_mod_to_equations; lia).
  destruct (decode_loop_ok (length bs) bs tid (p + 4 + padded l) after ltac:(lia) Hd ltac:(lia))
    as (v & a & rest & Hle2 & Hv & Ha & Hr & ->).
  apply get_range_Some in Hv as (_ & _ & Hvl & _). pose proof (blen_nonneg v).
  set (q := p + 4 + padded l) in *. pose proof (padded_range (u16_at bs (q + 2))) as Hpad2.
  assert (rest = []) as ->.
  { destruct Hq as [Hq|Hq].
    - rewrite Hq in Ha, Hvl, Hr, Hle2, Hpad2. rewrite Hfp in Ha. apply decode_one_min in Ha as [_ Ha]. specialize (Ha eq_refl).
      assert (length bs <> 0)%nat by (unfold blen in Hb; lia). destruct (length bs); [done|].
      rewrite decode_loop_end in Hr by lia. by injection Hr as <-.
    - assert (length bs <> 0)%nat by (unfold blen in Hb; lia). destruct (length bs); [done|].
      rewrite decode_loop_end in Hr by lia. by injection Hr as <-. }
  split; [cbn; lia|]. intros Hl20. right.
  assert (q = p + 24) as Eq by (unfold q; rewrite Hl20; change (padded 20) with 20; lia). rewrite Eq, Hfp in Ha.
  unfold decode_one_attribute in Ha. cbn [Z.eqb Pos.eqb] in Ha. destruct (_ <? 4) in Ha; [done|].
  destruct (get_range v 0 4) as [c|] in Ha; [|done]. injection Ha as <-. eauto.
Qed.

Section WithPrims.
Context `{HL : StunLaws}.

Lemma compute_hmac_total key data :
  exists mac, compute_hmac_sha1 key data = Ok mac /\ blen mac = 20 /\ bytes_ok mac.
Proof.
  destruct (hmac_sha1_total key data) as (mac & E & Hm). exists mac.
  unfold compute_hmac_sha1. by rewrite E.
Qed.

(** A message whose first MESSAGE-INTEGRITY attribute carries the code of what comes before,
    with nothing or eight bytes that start like a FINGERPRINT behind it, passes: whatever
    length [l] the attribute declares. *)
Lemma verify_integrity_at c m tid attrs l mac rest key :
  let A := encode_attributes attrs tid in
  tid_wf tid -> Forall attr_wf attrs -> Forall (fun a => attr_type_of a <> 0x0008) attrs ->
  is_u16 l -> l <= 20 + blen rest -> blen mac = 20 -> blen A + 24 + blen rest <= u16_max ->
  rest = [] \/ blen rest = 8 /\ get_range rest 0 2 = Some (to_be 2 0x8028) ->
  compute_hmac_sha1 key (build_header c m tid (blen A + 24) ++ A) = Ok mac ->
  verify_integrity
    (build_header c m tid (blen A + 24 + blen rest) ++ A ++ to_be 2 0x0008 ++ to_be 2 l ++ mac ++ rest) key
  = Ok tt.
Proof.
  intros A Htid Hwf Hne Hl Hlr Hmac Hmax Hrest Hc. destruct Htid as [Ht Htok].
  pose proof (blen_nonneg A). pose proof (blen_nonneg rest). unfold verify_integrity.
  set (raw := build_header _ _ _ _ ++ _).
  assert (find_attr_offset raw 0x0008 = Ok (STUN_HEADER_LEN + blen A)) as ->.
  { unfold raw. replace (blen A + 24 + blen rest) with (blen A + 4 + blen (mac ++ rest))
      by (rewrite blen_app; lia).
    apply find_attr_encoded; fold A; rewrite ?blen_app; (done || lia). }
  cbn [map_err]. assert (u16_at raw 2 = blen A + 24 + blen rest) as -> by (by apply u16_at_header; [|lia]).
  set (h := build_header c m tid (blen A + 24 + blen rest)) in *.
  assert (blen h = STUN_HEADER_LEN) as Hh by by apply blen_build_header.
  assert (get_range raw (STUN_HEADER_LEN + blen A + 24) (STUN_HEADER_LEN + (blen A + 24 + blen rest)) = Some rest) as ->.
  { apply (get_range_at _ (h ++ A ++ to_be 2 8 ++ to_be 2 l ++ mac) rest []).
    - unfold raw. rewrite app_nil_r. by rewrite <- !app_assoc.
    - rewrite !blen_app, !blen_to_be. lia.
    - lia. }
  assert (get_range raw 0 (STUN_HEADER_LEN + blen A) = Some (h ++ A)) as ->.
  { apply (get_range_at _ [] (h ++ A) (to_be 2 8 ++ to_be 2 l ++ mac ++ rest));
      [unfold raw; by rewrite <- !app_assoc|done|rewrite blen_app; change (blen []) with 0; lia]. }
  assert (get_range raw (STUN_HEADER_LEN + blen A + 4) (STUN_HEADER_LEN + blen A + 4 + 20) = Some mac) as ->.
  { apply (get_range_at _ (h ++ A ++ to_be 2 8 ++ to_be 2 l) mac rest);
      [unfold raw; by rewrite <- !app_assoc|rewrite !blen_app, !blen_to_be; lia|lia]. }
  cbn [ok_or]. change (default [] (Some rest)) with rest. unfold h. rewrite set_length_header.
  replace (sat_sub (STUN_HEADER_LEN + blen A + 24) STUN_HEADER_LEN) with (blen A + 24)
    by (unfold sat_sub, STUN_HEADER_LEN; lia).
  rewrite Hc. unfold bytes_eqb. rewrite (bool_decide_eq_true_2 (mac = mac)) by done.
  destruct Hrest as [->|[H8 Hfp]].
  - change (blen []) with 0. by rewrite (proj2 (Z.ltb_ge _ _)) by lia.
  - rewrite H8, Hfp, bool_decide_eq_true_2 by done. by rewrite andb_false_r.
Qed.

(** *** What an honest sender produces *)

Definition with_attrs (m : StunMessage) (extra : list StunAttribute) : StunMessage :=
  {| class := class m; method := method m; transaction_id := transaction_id m;
     attributes := attributes m ++ extra |}.

Definition attr_bytes_of (m : StunMessage) : bytes :=
  encode_attributes (attributes m) (transaction_id m).

(** The bytes MESSAGE-INTEGRITY is computed over. *)
Definition mac_input (m : StunMessage) : bytes :=
  build_header (class m) (method m) (transaction_id m) (blen (attr_bytes_of m) + 24) ++ attr_bytes_of m.

Lemma tlv_aligned t v : blen v mod 4 = 0 -> blen v <= u16_max -> tlv t v = to_be 2 t ++ to_be 2 (blen v) ++ v.
Proof.
  intros Hv Hl. unfold tlv, push_tlv, len_u16. rewrite Z.min_l by done. rewrite pad_of_mod.
  replace ((- blen v) mod 4) with 0 by (Z.div_mod_to_equations; lia). by rewrite app_nil_r.
Qed.

Lemma stun_encode_extra m extra :
  stun_encode (with_attrs m extra) =
  build_header (class m) (method m) (transaction_id m)
    (blen (attr_bytes_of m) + blen (encode_attributes extra (transaction_id m))) ++
  attr_bytes_of m ++ encode_attributes extra (transaction_id m).
Proof. unfold stun_encode, with_attrs, attr_bytes_of. cbn [attributes transaction_id class method]. by rewrite encode_attributes_app, blen_app. Qed.

Lemma encode_mi mac tid : blen mac = 20 -> encode_attributes [MessageIntegrity mac] tid = to_be 2 0x0008 ++ to_be 2 20 ++ mac.
Proof.
  intros Hm. rewrite encode_attributes_eq. cbn [map concat]. rewrite app_nil_r. unfold attr_tlv.
  cbn [attr_type_of attr_value]. by rewrite tlv_aligned, Hm by (rewrite Hm; done).
Qed.

Lemma encode_with_integrity_eq m key mac :
  compute_hmac_sha1 key (mac_input m) = Ok mac -> blen mac = 20 ->
  encode_with_integrity m key = Ok (stun_encode (with_attrs m [MessageIntegrity mac])).
Proof.
  intros Hc Hm. unfold encode_with_integrity. fold (attr_bytes_of m) (mac_input m). rewrite Hc.
  rewrite stun_encode_extra, encode_mi by done. rewrite !blen_app, !blen_to_be, Hm.
  unfold mac_input. by rewrite <- app_assoc.
Qed.

Lemma encode_fp crc tid : encode_attributes [Fingerprint crc] tid = to_be 2 0x8028 ++ to_be 2 4 ++ to_be 4 crc.
Proof. done. Qed.

Lemma encode_fingerprint_eq m key mac :
  compute_hmac_sha1 key (mac_input m) = Ok mac -> blen mac = 20 -> blen (transaction_id m) = 12 ->
  let m1 := with_attrs m [MessageIntegrity mac] in
  let crc := Z.lxor (crc32 (build_header (class m) (method m) (transaction_id m)
               (blen (attr_bytes_of m1) + 8) ++ attr_bytes_of m1)) 0x5354554E in
  encode_with_integrity_and_fingerprint m key = Ok (stun_encode (with_attrs m1 [Fingerprint crc])).
Proof.
  intros Hc Hm Ht m1 crc. unfold encode_with_integrity_and_fingerprint.
  rewrite (encode_with_integrity_eq m key mac Hc Hm). fold m1.
  rewrite stun_encode_extra. change (transaction_id m1) with (transaction_id m).
  rewrite encode_fp. cbn [class method m1 with_attrs].
  unfold stun_encode. change (class m1) with (class m). change (method m1) with (method m).
  change (transaction_id m1) with (transaction_id m).
  change (encode_attributes (attributes m1) (transaction_id m)) with (attr_bytes_of m1).
  rewrite set_length_header, blen_app, blen_build_header by done.
  replace (sat_sub (STUN_HEADER_LEN + blen (attr_bytes_of m1) + 8) STUN_HEADER_LEN)
    with (blen (attr_bytes_of m1) + 8) by (pose proof (blen_nonneg (attr_bytes_of m1)); unfold sat_sub, STUN_HEADER_LEN; lia).
  fold crc. rewrite !blen_app, !blen_to_be. by rewrite <- app_assoc.
Qed.

Lemma verify_fingerprint_encoded m crc :
  message_wf m -> Forall (fun a => attr_type_of a <> 0x8028) (attributes m) ->
  blen (attr_bytes_of m) + 8 <= u16_max ->
  crc = Z.lxor (crc32 (build_header (class m) (method m) (transaction_id m)
                         (blen (attr_bytes_of m) + 8) ++ attr_bytes_of m)) 0x5354554E ->
  verify_fingerprint (stun_encode (with_attrs m [Fingerprint crc])) = Ok tt.
Proof.
  intros [[Ht Htok] Hwf _] Hne Hmax Hcrc. unfold verify_fingerprint.
  rewrite stun_encode_extra, encode_fp. set (A := attr_bytes_of m) in *. pose proof (blen_nonneg A).
  assert (is_u32 crc) as Hu32.
  { rewrite Hcrc. apply (lxor_bound 32); [done|apply crc32_u32|done]. }
  replace (blen A + blen _) with (blen A + 4 + blen (to_be 4 crc)) by (rewrite !blen_app, !blen_to_be; lia).
  set (h := build_header _ _ _ _). set (raw := h ++ A ++ _).
  assert (find_attr_offset raw 0x8028 = Ok (STUN_HEADER_LEN + blen A)) as ->.
  { apply (find_attr_encoded (class m) (method m) (transaction_id m) (attributes m) 0x8028 4 (to_be 4 crc));
      try done. fold (attr_bytes_of m). fold A. rewrite blen_to_be. lia. }
  assert (u16_at raw 2 = blen A + 8) as ->.
  { unfold raw, h. rewrite u16_at_header; rewrite ?blen_to_be; (done || lia). }
  cbn [map_err].
  assert (blen h = STUN_HEADER_LEN) as Hh by by apply blen_build_header.
  assert (get_range raw 0 (STUN_HEADER_LEN + blen A) = Some (h ++ A)) as ->.
  { eapply (get_range_at _ [] (h ++ A));
      [unfold raw; by rewrite <- !app_assoc|done|rewrite blen_app; change (blen []) with 0; lia]. }
  assert (get_range raw (STUN_HEADER_LEN + blen A + 4) (STUN_HEADER_LEN + blen A + 4 + 4) = Some (to_be 4 crc)) as ->.
  { apply (get_range_at _ (h ++ A ++ to_be 2 0x8028 ++ to_be 2 4) (to_be 4 crc) []);
      [unfold raw; by rewrite app_nil_r, <- !app_assoc|rewrite !blen_app, !blen_to_be; lia|done]. }
  cbn [ok_or]. rewrite (proj2 (Z.eqb_eq _ _)) by lia. cbn [negb].
  unfold h. rewrite set_length_header.
  replace (sat_sub (STUN_HEADER_LEN + blen A + 8) STUN_HEADER_LEN) with (blen A + 8)
    by (unfold sat_sub, STUN_HEADER_LEN; lia).
  rewrite <- Hcrc, from_be_to_be_small by done. by rewrite Z.eqb_refl.
Qed.

Lemma with_attrs_wf m extra :
  message_wf m -> Forall attr_wf extra ->
  blen (attr_bytes_of m) + blen (encode_attributes extra (transaction_id m)) <= u16_max ->
  message_wf (with_attrs m extra).
Proof.
  intros [Ht Hwf _] He Hl. split; cbn [transaction_id attributes with_attrs]; [done|by apply Forall_app_2|].
  rewrite encode_attributes_app, blen_app. done.
Qed.

Definition unprotected (m : StunMessage) : Prop :=
  message_wf m /\ Forall (fun a => attr_type_of a <> 0x0008 /\ attr_type_of a <> 0x8028) (attributes m) /\
  blen (attr_bytes_of m) + 32 <= u16_max.

Lemma verify_protected m mac l rest key n :
  unprotected m -> is_u16 l -> l <= 20 + blen rest -> blen mac = 20 ->
  compute_hmac_sha1 key (mac_input m) = Ok mac ->
  rest = [] \/ blen rest = 8 /\ get_range rest 0 2 = Some (to_be 2 0x8028) ->
  n = blen (attr_bytes_of m) + 24 + blen rest ->
  verify_integrity (build_header (class m) (method m) (transaction_id m) n ++
    attr_bytes_of m ++ to_be 2 0x0008 ++ to_be 2 l ++ mac ++ rest) key = Ok tt.
Proof.
  intros (Hwf & Hty & Hmax) Hl Hlr Hm Hc Hrest ->.
  apply verify_integrity_at; try done; try apply Hwf.
  - eapply list.Forall_impl; [done|]. by intros ? [].
  - fold (attr_bytes_of m). destruct Hrest as [->|[-> _]]; [change (blen []) with 0|]; lia.
Qed.

(** The sender's three encodings decode to the message they were made from, with the
    protection attributes behind, and verify. *)
Lemma protected_roundtrip m key :
  unprotected m ->
  exists mac crc out out',
    encode_with_integrity m key = Ok out /\
    stun_decode out = Ok (with_attrs m [MessageIntegrity mac]) /\ verify_integrity out key = Ok tt /\
    encode_with_integrity_and_fingerprint m key = Ok out' /\
    stun_decode out' = Ok (with_attrs m [MessageIntegrity mac; Fingerprint crc]) /\
    verify_integrity out' key = Ok tt /\ verify_fingerprint out' = Ok tt.
Proof.
  intros Hun. pose proof Hun as (Hwf & Hty & Hmax).
  destruct (compute_hmac_total key (mac_input m)) as (mac & Hc & Hm & Hmok).
  pose proof (mw_tid m Hwf) as [Ht Htok]. set (m1 := with_attrs m [MessageIntegrity mac]).
  assert (message_wf m1) as Hwf1.
  { apply with_attrs_wf; [done|by apply Forall_singleton|]. rewrite encode_mi, !blen_app, !blen_to_be, Hm by done. lia. }
  assert (blen (attr_bytes_of m1) = blen (attr_bytes_of m) + 24) as Hl1.
  { unfold attr_bytes_of, m1, with_attrs. cbn [attributes transaction_id].
    by rewrite encode_attributes_app, encode_mi, !blen_app, !blen_to_be, Hm by done. }
  pose proof (encode_fingerprint_eq m key mac Hc Hm Ht) as Hfp. cbv zeta in Hfp. fold m1 in Hfp.
  set (crc := Z.lxor _ _) in Hfp.
  assert (is_u32 crc) as Hu32 by (apply (lxor_bound 32); [done|apply crc32_u32|done]).
  exists mac, crc, (stun_encode m1), (stun_encode (with_attrs m1 [Fingerprint crc])).
  split_and!; [by apply encode_with_integrity_eq|..|done| | |].
  - rewrite <- (app_nil_r (stun_encode m1)). by apply stun_decode_encode.
  - unfold m1. rewrite stun_encode_extra, encode_mi by done. rewrite <- (app_nil_r mac) at 2.
    apply verify_protected; auto; try done. rewrite !blen_app, !blen_to_be, Hm. change (blen []) with 0. lia.
  - rewrite <- (app_nil_r (stun_encode _)). rewrite stun_decode_encode.
    + unfold with_attrs, m1. cbn. by rewrite <- app_assoc.
    + apply with_attrs_wf; [done|by apply Forall_singleton|]. rewrite encode_fp, !blen_app, !blen_to_be. lia.
  - rewrite stun_encode_extra, encode_fp, Hl1. cbn [class method transaction_id m1 with_attrs].
    change (attr_bytes_of m1) with (encode_attributes (attributes m ++ [MessageIntegrity mac]) (transaction_id m)).
    rewrite encode_attributes_app, encode_mi by done. fold (attr_bytes_of m). rewrite <- !app_assoc.
    apply (verify_protected m); auto; done.
  - apply verify_fingerprint_encoded; [done| |lia|done].
    unfold m1, with_attrs. cbn [attributes]. apply Forall_app_2; [|by repeat constructor].
    eapply list.Forall_impl; [done|]. by intros ? [].
Qed.

(** *** The declared length of MESSAGE-INTEGRITY is not authenticated

    Anyone on the path can do this to a protected message: declare the code's attribute four
    bytes longer and append eight bytes, of which the first four belong to that attribute (and
    look like the start of a FINGERPRINT) and the last four are a USE-CANDIDATE. *)
Definition inject_use_candidate (out : bytes) : bytes :=
  set_length (take (length out - 22) out ++ to_be 2 24 ++ drop (length out - 20) out ++
              to_be 2 0x8028 ++ [0; 0] ++ tlv 0x0025 []) (blen out - STUN_HEADER_LEN + 8).

Lemma inject_shape c m tid len A mac :
  blen mac = 20 -> blen tid = 12 ->
  inject_use_candidate (build_header c m tid len ++ A ++ to_be 2 0x0008 ++ to_be 2 20 ++ mac) =
  build_header c m tid (blen A + 24 + 8) ++ A ++
    to_be 2 0x0008 ++ to_be 2 24 ++ mac ++ (to_be 2 0x8028 ++ [0; 0] ++ tlv 0x0025 []).
Proof.
  intros Hm Ht. unfold inject_use_candidate. pose proof (blen_build_header c m tid len Ht) as Hh.
  set (h := build_header c m tid len) in *. set (out := h ++ _).
  assert (out = (h ++ A ++ to_be 2 8) ++ to_be 2 20 ++ mac) as E1 by (unfold out; by rewrite <- !app_assoc).
  assert (out = (h ++ A ++ to_be 2 8 ++ to_be 2 20) ++ mac) as E2 by (unfold out; by rewrite <- !app_assoc).
  assert (length out = length (h ++ A ++ to_be 2 8) + 22)%nat as L1.
  { rewrite E1, length_app, (length_app (to_be 2 20)), to_be_length. unfold blen in Hm. lia. }
  assert (length out = length (h ++ A ++ to_be 2 8 ++ to_be 2 20) + 20)%nat as L2.
  { rewrite E2, length_app. unfold blen in Hm. lia. }
  assert (take (length out - 22) out = h ++ A ++ to_be 2 8) as ->.
  { rewrite L1, Nat.add_sub, E1. by rewrite take_app_length. }
  assert (drop (length out - 20) out = mac) as ->.
  { rewrite L2, Nat.add_sub, E2. by rewrite drop_app_length. }
  rewrite <- !app_assoc. unfold h. rewrite set_length_header. f_equal. f_equal.
  unfold out. rewrite !blen_app, !blen_to_be, Hm. fold h. lia.
Qed.

Lemma decode_injected A mac tid n :
  blen mac = 20 ->
  decode_loop (S (S (S n))) (A ++ tlv 8 (mac ++ to_be 2 0x8028 ++ [0; 0]) ++ tlv 0x0025 []) tid (blen A) =
    Ok [MessageIntegrity mac; UseCandidate].
Proof.
  intros Hm. rewrite decode_loop_tlv by (done || by rewrite !blen_app, Hm).
  unfold decode_one_attribute at 1. cbn [Z.eqb Pos.eqb].
  rewrite (get_range_at _ [] mac (to_be 2 0x8028 ++ [0; 0])) by done.
  replace (blen (mac ++ to_be 2 0x8028 ++ [0; 0])) with 24 by (by rewrite !blen_app, Hm). cbn [ok_or Z.ltb Z.compare Pos.compare Pos.compare_cont].
  set (pre := A ++ tlv 8 _). rewrite <- (app_nil_r (tlv 0x25 [])), decode_loop_tlv by done.
  cbn [decode_one_attribute Z.eqb Pos.eqb decode_loop]. rewrite app_nil_r. by rewrite Z.leb_refl.
Qed.

Lemma integrity_nomination_injected m key out :
  unprotected m -> encode_with_integrity m key = Ok out ->
  exists mac, verify_integrity (inject_use_candidate out) key = Ok tt /\
    stun_decode (inject_use_candidate out) = Ok (with_attrs m [MessageIntegrity mac; UseCandidate]).
Proof.
  intros Hun Henc. pose proof Hun as (Hwf & Hty & Hmax). pose proof (mw_tid m Hwf) as [Ht Htok].
  destruct (compute_hmac_total key (mac_input m)) as (mac & Hc & Hm & Hmok).
  rewrite (encode_with_integrity_eq m key mac Hc Hm) in Henc. injection Henc as <-. exists mac.
  rewrite stun_encode_extra, encode_mi by done. pose proof (blen_nonneg (attr_bytes_of m)).
  rewrite inject_shape by done. split.
  { by apply (verify_protected m); auto. }
  set (rest := tlv 8 (mac ++ to_be 2 0x8028 ++ [0; 0]) ++ tlv 0x0025 []).
  replace (to_be 2 8 ++ _) with rest.
  2:{ unfold rest. rewrite tlv_aligned by (rewrite !blen_app, Hm; done).
      rewrite !blen_app, Hm. by rewrite <- !app_assoc. }
  assert (blen rest = 32) as Hrl by (unfold rest; rewrite blen_app, !blen_tlv, !blen_app, Hm; done).
  rewrite <- (app_nil_r (attr_bytes_of m ++ rest)), stun_decode_header; [|done|rewrite blen_app; lia| |lia].
  2:{ rewrite <- Z.add_assoc, <- Z.add_mod_idemp_l by lia. unfold attr_bytes_of. by rewrite attrs_aligned. }
  unfold attr_bytes_of at 1. rewrite (decode_attrs_then _ _ [MessageIntegrity mac; UseCandidate]); try apply Hwf; [done| |].
  - apply Forall_app_2; apply tlv_ok; [|constructor]. solve_bytes_ok.
  - unfold blen in Hrl. destruct (length rest) as [|[|n]]; [lia..|]. by apply decode_injected.
Qed.

(** *** What the check guarantees *)

Lemma verify_integrity_Ok raw key :
  verify_integrity raw key = Ok tt ->
  exists off mac,
    find_attr_offset raw 0x0008 = Ok off /\
    (STUN_HEADER_LEN + u16_at raw 2 <= off + 24 \/
     STUN_HEADER_LEN + u16_at raw 2 = off + 32 /\
     get_range raw (off + 24) (off + 26) = Some (to_be 2 0x8028)) /\
    0 <= off <= blen raw /\ get_range raw (off + 4) (off + 24) = Some mac /\
    hmac_sha1 key (set_length (take (Z.to_nat off) raw) (sat_sub (off + 24) STUN_HEADER_LEN)) = Ok mac.
Proof.
  unfold verify_integrity. destruct (find_attr_offset raw 8) as [off|]; [|done]. cbn [map_err].
  set (body_end := STUN_HEADER_LEN + u16_at raw 2). intros Hv.
  destruct ((off + 24 <? body_end) && _) eqn:Et; [done|].
  destruct (get_range raw 0 off) as [pre|] eqn:Ep; [|done]. cbn [ok_or] in Hv.
  unfold compute_hmac_sha1 in Hv. destruct (hmac_sha1 key _) as [mac|] eqn:Em; [|done]. cbn [map_err] in Hv.
  destruct (get_range raw (off + 4) _) as [stored|] eqn:Es; [|done]. cbn [ok_or] in Hv.
  unfold bytes_eqb in Hv. destruct (bool_decide (mac = stored)) eqn:E; [|done].
  apply bool_decide_eq_true in E as <-. exists off, mac.
  pose proof (get_range_Some _ _ _ _ Ep) as (Hoff & Hl & _). split_and!; try done; try lia.
  - destruct (Z.ltb_spec (off + 24) body_end) as [Hlt|]; [right|by left]. cbn [andb] in Et. simplify_bool.
    destruct (get_range raw (off + 24) body_end) as [tr|] eqn:Etr; [|done].
    change (default [] (Some tr)) with tr in *.
    apply get_range_Some in Etr as (Hr & Hbe & Htl & El). split; [lia|].
    match goal with E : bool_decide _ = true |- _ => apply bool_decide_eq_true in E; apply get_range_Some in E as (_ & _ & _ & Ehd) end.
    apply (get_range_at _ (take (Z.to_nat (off + 24)) raw) _ (drop (Z.to_nat 2) tr ++ drop (Z.to_nat body_end) raw)).
    + rewrite El at 1. f_equal. rewrite app_assoc. f_equal. exact Ehd.
    + unfold blen in *. rewrite length_take. lia.
    + rewrite blen_to_be. lia.
  - by replace (off + 24) with (off + 4 + 20) by lia.
  - rewrite <- Em. do 2 f_equal. unfold get_range in Ep. destruct (_ && _) in Ep; [|done].
    injection Ep as <-. rewrite drop_0. f_equal. lia.
Qed.

Lemma find_attr_Ok raw t off :
  find_attr_offset raw t = Ok off ->
  exists ty len cookie tid body, raw = pieces ty len cookie tid body /\
    blen ty = 2 /\ blen len = 2 /\ blen cookie = 4 /\ blen tid = 12 /\ 0 <= from_be len <= blen body /\
    u16_at raw 2 = from_be len /\
    let bs := take (Z.to_nat (from_be len)) body in
    blen bs = from_be len /\ find_loop (S (length bs)) bs t 0 = Ok off.
Proof.
  unfold find_attr_offset. destruct (_ <? _) eqn:E; [done|]. simplify_bool.
  destruct (pieces_split raw E) as (ty & len & ck & tid & body & -> & H1 & H2 & H3 & H4).
  destruct (pieces_reads ty len ck tid body H1 H2 H3 H4) as (Hl & _ & Hn & _ & _). rewrite Hn.
  destruct (get_range _ STUN_HEADER_LEN _) as [bs|] eqn:Eb; [|done]. cbn [ok_or]. intros Hf.
  pose proof (get_range_Some _ _ _ _ Eb) as (Hr & Hr2 & Hbl & _). rewrite Hl in Hr2.
  assert (bs = take (Z.to_nat (from_be len)) body) as Ebs.
  { unfold pieces in Eb. rewrite !app_assoc in Eb.
    rewrite take_body in Eb; [by injection Eb|rewrite !blen_app; unfold STUN_HEADER_LEN; lia|lia]. }
  exists ty, len, ck, tid, body. cbv zeta. rewrite <- Ebs. split_and!; try done; lia.
Qed.

Lemma pieces_body ty len cookie tid body a b :
  blen ty = 2 -> blen len = 2 -> blen cookie = 4 -> blen tid = 12 -> 0 <= a ->
  get_range (pieces ty len cookie tid body) (STUN_HEADER_LEN + a) (STUN_HEADER_LEN + b) = get_range body a b.
Proof.
  intros H1 H2 H3 H4 Ha. unfold pieces. rewrite !app_assoc. set (h := ((ty ++ len) ++ cookie) ++ tid).
  assert (blen h = STUN_HEADER_LEN) as Hh by (unfold h; rewrite !blen_app; unfold STUN_HEADER_LEN; lia).
  unfold get_range. rewrite blen_app, Hh.
  assert (forall x y, (STUN_HEADER_LEN + x <=? STUN_HEADER_LEN + y) = (x <=? y)) as Hs.
  { intros x y. destruct (Z.leb_spec x y); [apply Z.leb_le; lia|apply Z.leb_gt; lia]. }
  rewrite !Hs. rewrite (proj2 (Z.leb_le 0 (STUN_HEADER_LEN + a))), (proj2 (Z.leb_le 0 a)) by (unfold STUN_HEADER_LEN; lia).
  destruct (_ && _); [|done]. f_equal. f_equal; [lia|].
  rewrite drop_app_ge by (unfold blen, STUN_HEADER_LEN in *; lia). f_equal. unfold blen, STUN_HEADER_LEN in *; lia.
Qed.

Lemma get_range_sub l a b v n :
  get_range l a b = Some v -> 0 <= n <= b - a -> get_range v 0 n = get_range l a (a + n).
Proof.
  intros Hv Hn. pose proof (get_range_Some _ _ _ _ Hv) as (Ha & Hb & Hl & El).
  destruct (split_blen v n (blen v - n)) as (x & y & -> & Hx & Hy); [lia..|].
  etrans; [by apply (get_range_at _ [] x y); [done|done|lia]|]. symmetry.
  apply (get_range_at _ (take (Z.to_nat a) l) x (y ++ drop (Z.to_nat b) l)); [|unfold blen in *; rewrite length_take; lia|lia].
  rewrite El at 1. by rewrite <- app_assoc.
Qed.

Lemma decode_pieces_Ok ty len cookie tid body m :
  decode_pieces ty len cookie tid body = Ok m ->
  from_be len mod 4 = 0 /\ transaction_id m = tid /\
  decode_attributes (take (Z.to_nat (from_be len)) body) tid = Ok (attributes m) /\
  forall len' body' attrs',
    from_be len' mod 4 = 0 -> from_be len' <= blen body' ->
    decode_attributes (take (Z.to_nat (from_be len')) body') tid = Ok attrs' ->
    decode_pieces ty len' cookie tid body' =
      Ok {| class := class m; method := method m; transaction_id := tid; attributes := attrs' |}.
Proof.
  unfold decode_pieces. destruct (negb (Z.land _ _ =? 0)); [done|].
  destruct (from_be len mod 4 =? 0) eqn:El; [|done]. destruct (negb (from_be cookie =? _)); [done|].
  destruct (decode_type _) as [[c k]|]; [|done]. cbn [negb]. destruct (_ <? _); [done|].
  destruct (decode_attributes _ tid) as [attrs|]; [|done]. intros [= <-]. simplify_bool. split_and!; try done.
  intros len' body' attrs' Hal Hle Ha. rewrite Hal, Ha. cbn [negb Z.eqb].
  by rewrite (proj2 (Z.ltb_ge _ _)) by lia.
Qed.

(** The attribute at the found place is the stored code. *)
Lemma found_mac body bs tid p n attrs before a after mac :
  bs = take (Z.to_nat n) body -> 0 <= n <= blen body ->
  found_at bs tid 0x0008 0 p attrs before a after -> get_range body (p + 4) (p + 24) = Some mac ->
  a = MessageIntegrity mac /\ 20 <= u16_at bs (p + 2).
Proof.
  intros -> Hn F Hmac. set (bs := take _ _) in *. assert (blen bs = n) as Hbs by (unfold bs, blen in *; rewrite length_take; lia).
  destruct (fa_value _ _ _ _ _ _ _ _ _ F) as (v & Hv & Ha).
  pose proof (get_range_Some _ _ _ _ Hv) as (Hr & Hle & Hvl & _).
  apply decode_one_min in Ha as Hmin. destruct Hmin as [Hmin _]. specialize (Hmin eq_refl).
  split; [|lia]. unfold decode_one_attribute in Ha. cbn [Z.eqb Pos.eqb] in Ha.
  rewrite (proj2 (Z.ltb_ge _ _)) in Ha by lia.
  rewrite (get_range_sub _ _ _ _ 20 Hv) in Ha by lia. replace (p + 4 + 20) with (p + 24) in Ha by lia.
  unfold bs in Ha. rewrite get_range_take, Hmac in Ha; [by injection Ha|lia|by rewrite Hmac].
Qed.

(** Decoding what stands before the code, with the length field set accordingly. *)
Lemma decode_covered ty len cookie tid body m p attrs before a after :
  let bs := take (Z.to_nat (from_be len)) body in
  blen ty = 2 -> blen len = 2 -> blen cookie = 4 -> blen tid = 12 -> bytes_ok len -> bytes_ok body ->
  0 <= from_be len <= blen body -> decode_pieces ty len cookie tid body = Ok m ->
  found_at bs tid 0x0008 0 p attrs before a after ->
  stun_decode (set_length (take (Z.to_nat (STUN_HEADER_LEN + p)) (pieces ty len cookie tid body)) p) =
    Ok {| class := class m; method := method m; transaction_id := tid; attributes := before |}.
Proof.
  intros bs H1 H2 H3 H4 Hlok Hbok Hlen Hd F.
  destruct F as [[F1 F1'] F2 _ _ _ F6 _ _]. specialize (F2 eq_refl).
  pose proof (from_be_range len Hlok) as Hr. rewrite H2 in Hr. change (256 ^ 2) with 65536 in Hr.
  assert (blen bs = from_be len) as Hbs by (unfold bs, blen in *; rewrite length_take; lia).
  assert (bytes_ok bs) as Hbsok by by apply Forall_take.
  pose proof (u16_at_range bs (p + 2) Hbsok) as Hu. unfold is_u16 in Hu.
  assert (take (Z.to_nat (STUN_HEADER_LEN + p)) (pieces ty len cookie tid body) =
          pieces ty len cookie tid (take (Z.to_nat p) body)) as ->.
  { unfold pieces. rewrite !app_assoc. rewrite take_app_ge by (rewrite !length_app; unfold blen, STUN_HEADER_LEN in *; lia).
    do 2 f_equal. rewrite !length_app. unfold blen, STUN_HEADER_LEN in *. lia. }
  rewrite set_length_pieces by done. rewrite stun_decode_pieces by (rewrite ?blen_to_be; auto with shp).
  assert (from_be (to_be 2 (len_u16 p)) = p) as Hp.
  { unfold len_u16, u16_max. rewrite Z.min_l by lia. apply be2_small. unfold is_u16. lia. }
  destruct (decode_pieces_Ok _ _ _ _ _ _ Hd) as (_ & _ & _ & Hgen). apply Hgen; rewrite Hp.
  - done.
  - unfold blen in *. rewrite length_take. lia.
  - rewrite take_take, Nat.min_id. unfold decode_attributes. rewrite <- F6. unfold bs. rewrite take_take.
    replace (Z.to_nat p `min` Z.to_nat (from_be len))%nat with (Z.to_nat p) by lia.
    apply decode_loop_fuel; [by apply Forall_take|lia|..]; unfold blen in *; rewrite !length_take; lia.
Qed.

(** Whatever [encode] makes of a well-formed message decodes to that message, also with
    bytes behind it; [encode_with_integrity] and [encode_with_integrity_and_fingerprint] always
    succeed, decode to the message with the code (and the checksum) appended, and pass
    [verify_integrity] under the same key and [verify_fingerprint]. *)
Lemma stun_messages_roundtrip m key tail :
  unprotected m ->
  stun_decode (stun_encode m ++ tail) = Ok m /\
  exists mac crc out out',
    encode_with_integrity m key = Ok out /\
    stun_decode out = Ok (with_attrs m [MessageIntegrity mac]) /\ verify_integrity out key = Ok tt /\
    encode_with_integrity_and_fingerprint m key = Ok out' /\
    stun_decode out' = Ok (with_attrs m [MessageIntegrity mac; Fingerprint crc]) /\
    verify_integrity out' key = Ok tt /\ verify_fingerprint out' = Ok tt.
Proof. intros Hun. split; [by apply stun_decode_encode, Hun|by apply protected_roundtrip]. Qed.

(** C15. What a message that passes [verify_integrity] is: the bytes before its first
    MESSAGE-INTEGRITY attribute, with the length field set as the sender had it, have exactly
    the stored code under the key; they are themselves a message with the same class, method
    and transaction, and its attributes are the first ones of the message; at most one
    attribute follows the code, and it is a FINGERPRINT if the code's attribute declares its
    length of 20. *)
Theorem stun_integrity_covers raw key m :
  bytes_ok raw -> verify_integrity raw key = Ok tt -> stun_decode raw = Ok m ->
  exists off mac before after,
    let covered := take (Z.to_nat off) raw in
    hmac_sha1 key (set_length covered (off + 24 - STUN_HEADER_LEN)) = Ok mac /\
    stun_decode (set_length covered (off - STUN_HEADER_LEN)) =
      Ok {| class := class m; method := method m; transaction_id := transaction_id m;
            attributes := before |} /\
    attributes m = before ++ MessageIntegrity mac :: after /\
    Forall (fun a => forall h, a <> MessageIntegrity h) before /\
    (length after <= 1)%nat /\
    (u16_at raw (off + 2) = 20 -> after = [] \/ exists crc, after = [Fingerprint crc]).
Proof.
  intros Hok Hv Hd. destruct (verify_integrity_Ok _ _ Hv) as (off & mac & Hf & Htr & _ & Hmac & Hh).
  destruct (find_attr_Ok _ _ _ Hf) as (ty & len & ck & tid & body & -> & H1 & H2 & H3 & H4 & Hlen & Hu & Hbs & Hfl).
  set (bs := take _ body) in *. rewrite Hu in Htr.
  apply Forall_app in Hok as [_ [Hlok [_ [_ Hbok]%Forall_app]%Forall_app]%Forall_app].
  rewrite stun_decode_pieces in Hd by done.
  destruct (decode_pieces_Ok _ _ _ _ _ _ Hd) as (Hal & Htid & Hattrs & _). fold bs in Hattrs.
  assert (bytes_ok bs) as Hbsok by by apply Forall_take.
  destruct (find_decode (S (length bs)) bs tid 8 0 off (attributes m) Hbsok ltac:(lia) ltac:(unfold blen; lia) Hfl Hattrs)
    as (p & before & a & after & -> & F).
  assert (0 <= p) as Hp by apply (fa_le _ _ _ _ _ _ _ _ _ F).
  rewrite <- Z.add_assoc, <- Z.add_assoc, pieces_body in Hmac by lia.
  destruct (found_mac body bs tid p (from_be len) _ _ _ _ _ eq_refl Hlen F Hmac) as [-> H20].
  pose proof (proj2 (fa_le _ _ _ _ _ _ _ _ _ F)) as Hin.
  destruct (decode_trailer bs tid p after) as [Ha1 Ha2]; try done.
  { destruct Htr as [Htr|[Htr Hfp]]; [left; lia|right]. split; [lia|].
    rewrite <- !Z.add_assoc, pieces_body in Hfp by lia.
    rewrite (u16_at_get bs (p + 24) (to_be 2 0x8028)); [done|].
    replace (p + 24 + 2) with (p + 26) by lia. unfold bs. by rewrite get_range_take, Hfp by (lia || by rewrite Hfp). }
  { apply (fa_after _ _ _ _ _ _ _ _ _ F). }
  exists (STUN_HEADER_LEN + p), mac, before, after. cbv zeta. rewrite Htid. split_and!.
  - rewrite <- Hh. f_equal. f_equal. unfold sat_sub, STUN_HEADER_LEN. lia.
  - replace (STUN_HEADER_LEN + p - STUN_HEADER_LEN) with p by lia. by eapply decode_covered.
  - apply (fa_attrs _ _ _ _ _ _ _ _ _ F).
  - eapply list.Forall_impl; [apply (fa_first _ _ _ _ _ _ _ _ _ F)|]. intros b Hb h ->. by apply Hb.
  - done.
  - intros Hl. apply Ha2. rewrite <- Hl. unfold bs. rewrite u16_at_take by lia.
    destruct (get_range_total body (p + 2) (p + 2 + 2)) as (x & Hx & _); [lia..|].
    rewrite (u16_at_get _ _ _ Hx). symmetry. apply u16_at_get.
    replace (STUN_HEADER_LEN + p + 2 + 2) with (STUN_HEADER_LEN + (p + 2 + 2)) by lia.
    rewrite <- Z.add_assoc, pieces_body by lia. exact Hx.
Qed.

End WithPrims.

(** ** The primitives are satisfiable, and the theorems at concrete messages *)

#[local] Instance toy_stun_prims : StunPrims := {|
  hmac_sha1 key data := Ok (to_be 20 (from_be (key ++ data) * 31 + blen data));
  crc32 data := from_be data mod 4294967296;
|}.

#[local] Instance toy_stun_laws : StunLaws.
Proof.
  split.
  - intros key data. eexists. split; [reflexivity|]. split; [by rewrite blen_to_be|apply to_be_ok].
  - intros data. unfold is_u32. apply Z.mod_pos_bound. lia.
Qed.

Definition toy_request : StunMessage :=
  {| class := Request; method := Binding; transaction_id := to_be 12 123456789;
     attributes := [Username (lit "ab:cd"); Priority 1862270975; IceControlling 77;
                    XorMappedAddress (V4 [192; 0; 2; 1] 4242); Unknown 0x7777 [1; 2; 3]] |}.

Lemma toy_unprotected : unprotected toy_request.
Proof.
  assert (bytes_ok (lit "ab:cd")) by (by apply bytes_okb_ok). split_and!.
  - split; [split; [done|apply to_be_ok]| |by vm_compute].
    repeat (apply Forall_cons_2); [done|done|done| | |constructor].
    + split_and!; [done|by apply bytes_okb_ok|done].
    + split_and!; [done| |by apply bytes_okb_ok]. by apply (bool_decide_unpack _).
  - repeat (apply Forall_cons_2); [done..|constructor].
  - by vm_compute.
Qed.

Lemma stun_messages_roundtrip_witness :
  stun_decode (stun_encode toy_request ++ [7]) = Ok toy_request.
Proof. exact (proj1 (stun_messages_roundtrip toy_request (lit "pw") [7] toy_unprotected)). Defined.

Definition toy_signed : bytes := default [] (ok (encode_with_integrity toy_request (lit "pw"))).

Lemma stun_integrity_covers_witness :
  exists m before mac after,
    stun_decode toy_signed = Ok m /\ attributes m = before ++ MessageIntegrity mac :: after /\
    (length after <= 1)%nat.
Proof.
  assert (bytes_ok toy_signed) as H1 by (apply bytes_okb_ok; by vm_compute).
  assert (verify_integrity toy_signed (lit "pw") = Ok tt) as H2 by (by vm_compute).
  assert (exists m, stun_decode toy_signed = Ok m) as [m H3] by (eexists; vm_compute; reflexivity).
  destruct (stun_integrity_covers toy_signed (lit "pw") m H1 H2 H3)
    as (off & mac & before & after & _ & _ & Ha & _ & Hl & _).
  exists m, before, mac, after. exact (conj H3 (conj Ha Hl)).
Defined.
