(* ===== verification/NatSim.v ===== *)
(** * sh-ice: the simulated network (crates/sh-ice/src/transport.rs)

    The socket trait of the ICE agent and the fabric of sockets behind NATs on which it is tested.
    A [HashMap] of sockets is a list of pairs in its iteration order, which is arbitrary: the
    theorems hold for every order, and [resolve_unique] says when the order cannot matter.  The lock
    of the fabric is not poisoned, which takes a panic inside it.

    [nat_sim_as_documented] is the table of the module's documentation as a property of every run:
    no two mappings share an external port, cone NATs use one external address, symmetric ones one
    per destination, and what a socket receives passed the filter of its NAT type. *)

From stdpp Require Import base numbers list option strings sets.
From S2P Require Import Prelude Stun.

(** ** Addresses *)

Inductive IpAddr := IpV4 (octets : bytes) | IpV6 (octets : bytes).
#[global] Instance IpAddr_eq_dec : EqDecision IpAddr. Proof. solve_decision. Defined.

Definition addr_ip (a : SocketAddr) : IpAddr := match a with V4 o _ => IpV4 o | V6 o _ _ _ => IpV6 o end.
Definition addr_port (a : SocketAddr) : Z := match a with V4 _ p => p | V6 _ p _ _ => p end.
Definition socket_addr_new (ip : IpAddr) (port : Z) : SocketAddr :=
  match ip with IpV4 o => V4 o port | IpV6 o => V6 o port 0 0 end.

Lemma addr_port_new ip p : addr_port (socket_addr_new ip p) = p.
Proof. by destruct ip. Qed.

(** ** The socket trait *)

(** [recv_from] takes the length of the buffer and returns the bytes written to it. *)
Class UdpTransport (T : Type) := {
  send_to : T -> bytes -> SocketAddr -> T * result IceError unit;
  recv_from : T -> Z -> T * result IceError (bytes * SocketAddr);
  local_addr : T -> result IceError SocketAddr;
}.

(** ** The fabric *)

Inductive NatType := FullCone | RestrictedCone | PortRestricted | Symmetric.
#[global] Instance NatType_eq_dec : EqDecision NatType. Proof. solve_decision. Defined.

Record Pending := { pd_data : bytes; pd_from : SocketAddr }.

Record SocketState := {
  nat_type : NatType;
  external_addr : SocketAddr;
  sym_mappings : list (SocketAddr * SocketAddr);
  sent_to : list SocketAddr;
  inbox : list Pending;
}.

Record NetworkInner := { sockets : list (SocketAddr * SocketState); next_ext_port : Z; external_ip : IpAddr }.

(** [HashMap::get] and [insert] on a list of pairs. *)
Definition get {A} (l : list (SocketAddr * A)) (a : SocketAddr) : option A :=
  snd <$> find (fun p => bool_decide (fst p = a)) l.
Definition put {A} (l : list (SocketAddr * A)) (a : SocketAddr) (x : A) : list (SocketAddr * A) :=
  if existsb (fun p => bool_decide (fst p = a)) l
  then map (fun p => if bool_decide (fst p = a) then (a, x) else p) l
  else l ++ [(a, x)].

(** [get_mut] and an update. *)
Definition modify (n : NetworkInner) (a : SocketAddr) (f : SocketState -> SocketState) : NetworkInner :=
  {| sockets := map (fun p => if bool_decide (fst p = a) then (fst p, f (snd p)) else p) (sockets n);
     next_ext_port := next_ext_port n; external_ip := external_ip n |}.

Definition with_port (n : NetworkInner) (p : Z) : NetworkInner :=
  {| sockets := sockets n; next_ext_port := p; external_ip := external_ip n |}.

Definition port_in_use (n : NetworkInner) (p : Z) : bool :=
  existsb (fun '(_, s) => (addr_port (external_addr s) =? p) || existsb (fun '(_, e) => addr_port e =? p) (sym_mappings s)) (sockets n).

(** The [for] loop; [fuel] is the number of its turns. *)
Fixpoint alloc_loop (fuel : nat) (n : NetworkInner) : NetworkInner * result IceError Z :=
  match fuel with
  | O => (n, Err (TransportError "external port space exhausted"))
  | S fuel =>
      let p := next_ext_port n in
      let next := (p + 1) mod 65536 in
      let n := with_port n (if next <? 1024 then 1024 else next) in
      if (1024 <=? p) && negb (port_in_use n p) then (n, Ok p) else alloc_loop fuel n
  end.

Definition alloc_ext_port (n : NetworkInner) : NetworkInner * result IceError Z := alloc_loop (Z.to_nat 65535) n.

Definition add_mapping (dest ext : SocketAddr) (s : SocketState) : SocketState :=
  {| nat_type := nat_type s; external_addr := external_addr s; sym_mappings := put (sym_mappings s) dest ext;
     sent_to := sent_to s; inbox := inbox s |}.

Definition external_for (n : NetworkInner) (internal dest : SocketAddr) : NetworkInner * option SocketAddr :=
  match get (sockets n) internal with
  | None => (n, None)
  | Some s =>
      match nat_type s with
      | Symmetric =>
          match get (sym_mappings s) dest with
          | Some mapped => (n, Some mapped)
          | None =>
              match alloc_ext_port n with
              | (n, Err _) => (n, None)
              | (n, Ok ext_port) =>
                  let ext := socket_addr_new (external_ip n) ext_port in
                  (modify n internal (add_mapping dest ext), Some ext)
              end
          end
      | _ => (n, Some (external_addr s))
      end
  end.

(** The filter of a NAT type. *)
Definition nat_filter (s : SocketState) (src_external : SocketAddr) : bool :=
  match nat_type s with
  | FullCone => true
  | RestrictedCone => existsb (fun d => bool_decide (addr_ip d = addr_ip src_external)) (sent_to s)
  | PortRestricted | Symmetric => bool_decide (src_external ∈ sent_to s)
  end.

Definition can_deliver (n : NetworkInner) (src_external dest_internal : SocketAddr) : bool :=
  match get (sockets n) dest_internal with
  | None => false
  | Some s => nat_filter s src_external
  end.

Definition record_send (dest : SocketAddr) (s : SocketState) : SocketState :=
  {| nat_type := nat_type s; external_addr := external_addr s; sym_mappings := sym_mappings s;
     sent_to := if bool_decide (dest ∈ sent_to s) then sent_to s else sent_to s ++ [dest]; inbox := inbox s |}.

Definition push_inbox (p : Pending) (s : SocketState) : SocketState :=
  {| nat_type := nat_type s; external_addr := external_addr s; sym_mappings := sym_mappings s;
     sent_to := sent_to s; inbox := inbox s ++ [p] |}.

(** Whether a socket answers to an address, its own or one of its NAT's. *)
Definition answers_to (dest_addr : SocketAddr) '((int_addr, s) : SocketAddr * SocketState) : bool :=
  bool_decide (int_addr = dest_addr) || bool_decide (external_addr s = dest_addr) ||
  existsb (fun '(_, e) => bool_decide (e = dest_addr)) (sym_mappings s).

Definition resolve (n : NetworkInner) (dest_addr : SocketAddr) : option SocketAddr :=
  fst <$> find (answers_to dest_addr) (sockets n).

Definition deliver (n : NetworkInner) (src_internal dest_addr : SocketAddr) (data : bytes) : NetworkInner :=
  let n := modify n src_internal (record_send dest_addr) in
  match external_for n src_internal dest_addr with
  | (n, None) => n
  | (n, Some src_external) =>
      match resolve n dest_addr with
      | None => n
      | Some dest_internal =>
          let pending := {| pd_data := data; pd_from := src_external |} in
          if bool_decide (dest_internal = src_internal) then modify n dest_internal (push_inbox pending) else
          if negb (can_deliver n src_external dest_internal) then n else
          modify n dest_internal (push_inbox pending)
      end
  end.

Definition network_new (external_ip : IpAddr) : NetworkInner :=
  {| sockets := []; next_ext_port := 20000; external_ip := external_ip |}.

Definition create_socket (n : NetworkInner) (nat : NatType) (internal_addr : SocketAddr) : NetworkInner * result IceError unit :=
  match alloc_ext_port n with
  | (n, Err e) => (n, Err e)
  | (n, Ok ext_port) =>
      ({| sockets := put (sockets n) internal_addr
            {| nat_type := nat; external_addr := socket_addr_new (external_ip n) ext_port; sym_mappings := [];
               sent_to := []; inbox := [] |};
          next_ext_port := next_ext_port n; external_ip := external_ip n |}, Ok tt)
  end.

Definition external_addr_for (n : NetworkInner) (internal_addr : SocketAddr) : option SocketAddr :=
  external_addr <$> get (sockets n) internal_addr.

(** ** The simulated socket *)

Record SimSocket := { internal_addr : SocketAddr; network : NetworkInner }.

Definition sim_external_addr (s : SimSocket) : result IceError SocketAddr :=
  ok_or (external_addr_for (network s) (internal_addr s)) (TransportError "socket not found in network").

Definition sim_send (n : NetworkInner) (from : SocketAddr) (data : bytes) (addr : SocketAddr) : NetworkInner := deliver n from addr data.

Definition pop_inbox (s : SocketState) : SocketState :=
  {| nat_type := nat_type s; external_addr := external_addr s; sym_mappings := sym_mappings s;
     sent_to := sent_to s; inbox := tail (inbox s) |}.

Definition sim_recv (n : NetworkInner) (at_addr : SocketAddr) (buf : Z) : NetworkInner * result IceError (bytes * SocketAddr) :=
  match get (sockets n) at_addr with
  | None => (n, Err (TransportError "socket not found in network"))
  | Some s =>
      match inbox s with
      | pending :: _ =>
          let len := Z.min (blen (pd_data pending)) buf in
          (modify n at_addr pop_inbox, Ok (take (Z.to_nat len) (pd_data pending), pd_from pending))
      | [] => (n, Err (TransportError "no data available"))
      end
  end.

#[export] Instance sim_socket : UdpTransport SimSocket := {
  send_to s data addr :=
    ({| internal_addr := internal_addr s; network := sim_send (network s) (internal_addr s) data addr |}, Ok tt);
  recv_from s buf :=
    let '(n, r) := sim_recv (network s) (internal_addr s) buf in ({| internal_addr := internal_addr s; network := n |}, r);
  local_addr s := Ok (internal_addr s);
}.

(** ** Runs *)

Inductive NetOp :=
| OpCreate (nat : NatType) (internal : SocketAddr)
| OpSend (from : SocketAddr) (data : bytes) (to : SocketAddr)
| OpRecv (at_addr : SocketAddr) (buf : Z).

Definition net_step (n : NetworkInner) (op : NetOp) : NetworkInner :=
  match op with
  | OpCreate nat internal => fst (create_socket n nat internal)
  | OpSend from data to => sim_send n from data to
  | OpRecv at_addr buf => fst (sim_recv n at_addr buf)
  end.
Definition net_run (n : NetworkInner) (ops : list NetOp) : NetworkInner := fold_left net_step ops n.

(** The external addresses of a socket, and the ports in use. *)
Definition externals (s : SocketState) : list SocketAddr := external_addr s :: map snd (sym_mappings s).
Definition ports (l : list (SocketAddr * SocketState)) : list Z := flat_map (fun p => map addr_port (externals (snd p))) l.

(** A received datagram came from a source the filter admits, or from the socket itself. *)
Definition admitted (s : SocketState) (p : Pending) : Prop := pd_from p ∈ externals s \/ nat_filter s (pd_from p) = true.

Record socket_ok (s : SocketState) : Prop := {
  so_cone : nat_type s <> Symmetric -> sym_mappings s = [];
  so_keys : NoDup (map fst (sym_mappings s));
  so_inbox : Forall (admitted s) (inbox s);
}.

Record net_inv (n : NetworkInner) : Prop := {
  ni_keys : NoDup (map fst (sockets n));
  ni_next : 1024 <= next_ext_port n <= 65535;
  ni_ports : NoDup (ports (sockets n));
  ni_range : Forall (fun p => 1024 <= p <= 65535) (ports (sockets n));
  ni_sockets : Forall (fun p => socket_ok (snd p)) (sockets n);
}.

(** A socket found in the list, and the list around it. *)
Lemma get_split (l : list (SocketAddr * SocketState)) a s : NoDup (map fst l) -> get l a = Some s ->
  exists l1 l2, l = l1 ++ (a, s) :: l2 /\
    forall f, map (fun p => if bool_decide (fst p = a) then (fst p, f (snd p)) else p) l = l1 ++ (a, f s) :: l2.
Proof.
  induction l as [|[b s'] l IH]; [done|]. unfold get. cbn [map fst find]. intros [Hn Hd]%list.NoDup_cons.
  case_bool_decide as E.
  - intros [= ->]. subst b. exists [], l. split; [done|]. intros f. cbn. f_equal.
    rewrite <- (map_id l) at 2. apply map_ext_in. intros [c t] Hin. cbn. rewrite bool_decide_eq_false_2; [done|].
    intros ->. apply Hn. apply list_elem_of_In, in_map_iff. by exists (a, t).
  - intros Hg. destruct (IH Hd Hg) as (l1 & l2 & -> & Hf). exists ((b, s') :: l1), l2. split; [done|].
    intros f. cbn [map fst app]. by rewrite Hf.
Qed.

Lemma get_None_modify (l : list (SocketAddr * SocketState)) a f : get l a = None ->
  map (fun p => if bool_decide (fst p = a) then (fst p, f (snd p)) else p) l = l.
Proof.
  induction l as [|[b s] l IH]; [done|]. unfold get. cbn [find fst map]. case_bool_decide; [done|]. intros H'. by rewrite IH.
Qed.

(** An update that keeps the mappings and admits what it keeps. *)
Lemma modify_inv n a f : net_inv n ->
  (forall s, get (sockets n) a = Some s -> socket_ok s -> externals (f s) = externals s /\ socket_ok (f s)) -> net_inv (modify n a f).
Proof.
  intros Hn Hf. destruct (get (sockets n) a) as [s|] eqn:E.
  - destruct Hn as [Hk Hp Hd Hr Hs]. destruct (get_split _ a s Hk E) as (l1 & l2 & El & Hm).
    unfold modify. constructor; cbn [sockets next_ext_port]; rewrite ?Hm; rewrite El in Hk, Hd, Hr, Hs.
    + rewrite map_app in *. exact Hk.
    + done.
    + apply Forall_app in Hs as [_ [Hs _]%Forall_cons]. destruct (Hf s eq_refl Hs) as [He _].
      unfold ports in *. rewrite flat_map_app in *. cbn [flat_map snd] in *. by rewrite He.
    + apply Forall_app in Hs as [_ [Hs _]%Forall_cons]. destruct (Hf s eq_refl Hs) as [He _].
      unfold ports in *. rewrite flat_map_app in *. cbn [flat_map snd] in *. by rewrite He.
    + apply Forall_app in Hs as [H1 [Hs H2]%Forall_cons]. apply Forall_app. split; [done|]. apply Forall_cons. split; [|done]. by apply Hf.
  - unfold modify. destruct Hn. constructor; cbn [sockets next_ext_port]; rewrite ?(get_None_modify _ _ _ E); done.
Qed.

Lemma port_in_use_spec n p : port_in_use n p = false -> p ∉ ports (sockets n).
Proof.
  intros H Hin. apply not_true_iff_false in H. apply H. clear H. unfold port_in_use. apply existsb_exists.
  apply list_elem_of_In, in_flat_map in Hin as ([a s] & Hs & Hp). exists (a, s). split; [done|].
  cbn [snd externals map] in Hp. destruct Hp as [<-|Hp]; [by rewrite Z.eqb_refl|]. apply orb_true_iff. right.
  rewrite map_map in Hp. apply in_map_iff in Hp as ([d e] & <- & He). apply existsb_exists. exists (d, e). split; [done|]. apply Z.eqb_refl.
Qed.

Lemma alloc_loop_spec fuel n : 1024 <= next_ext_port n <= 65535 ->
  let '(n', r) := alloc_loop fuel n in
  sockets n' = sockets n /\ external_ip n' = external_ip n /\ 1024 <= next_ext_port n' <= 65535 /\
  (forall p, r = Ok p -> 1024 <= p <= 65535 /\ p ∉ ports (sockets n)).
Proof.
  revert n. induction fuel as [|fuel IH]; intros n Hn; [done|]. cbn [alloc_loop].
  set (n1 := with_port n _). assert (1024 <= next_ext_port n1 <= 65535) as H1.
  { subst n1. cbn. pose proof (Z.mod_pos_bound (next_ext_port n + 1) 65536). destruct (_ <? 1024) eqn:E; simplify_bool; lia. }
  destruct (_ && _) eqn:E.
  - apply andb_true_iff in E as [Ep Eu]. simplify_bool. split_and!; try done; try lia.
    intros p [= <-]. split; [lia|]. by apply (port_in_use_spec n1).
  - specialize (IH n1 H1). by destruct (alloc_loop fuel n1).
Qed.

Lemma alloc_inv n : net_inv n ->
  let '(n', r) := alloc_ext_port n in
  net_inv n' /\ sockets n' = sockets n /\ (forall p, r = Ok p -> 1024 <= p <= 65535 /\ p ∉ ports (sockets n)).
Proof.
  intros Hn. unfold alloc_ext_port. generalize (Z.to_nat 65535). intros fuel.
  pose proof (alloc_loop_spec fuel n (ni_next n Hn)) as H. destruct (alloc_loop fuel n) as [n' r].
  destruct H as (Es & _ & Hr & Hp). split; [|done]. destruct Hn. constructor; rewrite ?Es; done.
Qed.

(** One more port, next to a socket's others. *)
Lemma ports_add l1 l2 a s s' p : map addr_port (externals s') = map addr_port (externals s) ++ [p] ->
  ports (l1 ++ (a, s') :: l2) ≡ₚ p :: ports (l1 ++ (a, s) :: l2).
Proof.
  intros H. unfold ports. rewrite !flat_map_app. cbn [flat_map snd]. rewrite H.
  rewrite <- (assoc_L (++)), !(assoc_L (++)). set (x := flat_map _ l1). set (y := map addr_port (externals s)).
  rewrite <- !(assoc_L (++)). cbn [app]. rewrite !Permutation_middle. by rewrite (assoc_L (++)).
Qed.

(** A new mapping of a symmetric NAT. *)
Lemma add_mapping_inv n a s dest ext : net_inv n -> get (sockets n) a = Some s -> nat_type s = Symmetric ->
  get (sym_mappings s) dest = None -> 1024 <= addr_port ext <= 65535 -> addr_port ext ∉ ports (sockets n) ->
  net_inv (modify n a (add_mapping dest ext)).
Proof.
  intros [Hk Hx Hd Hr Hs] E Hsym Hm Hp Hu. destruct (get_split _ a s Hk E) as (l1 & l2 & El & Hmod).
  assert (put (sym_mappings s) dest ext = sym_mappings s ++ [(dest, ext)]) as Eput.
  { unfold put. destruct (existsb _ _) eqn:Ex; [|done]. apply existsb_exists in Ex as (q & Hin & Hq).
    unfold get in Hm. destruct (find _ _) eqn:Ef; [done|]. by rewrite (find_none _ _ Ef q Hin) in Hq. }
  assert (map addr_port (externals (add_mapping dest ext s)) = map addr_port (externals s) ++ [addr_port ext]) as Hext.
  { unfold externals. cbn [add_mapping external_addr sym_mappings map]. rewrite Eput, !map_app. done. }
  rewrite El in *. pose proof (ports_add l1 l2 a s (add_mapping dest ext s) _ Hext) as Hperm.
  unfold modify. constructor; cbn [sockets next_ext_port]; rewrite ?El, ?Hmod.
  - rewrite map_app in *. exact Hk.
  - done.
  - rewrite Hperm. apply list.NoDup_cons. done.
  - rewrite Hperm. apply Forall_cons. done.
  - apply Forall_app in Hs as [H1 [Hs H2]%Forall_cons]. apply Forall_app. split; [done|]. apply Forall_cons. split; [|done].
    cbn [snd] in *. destruct Hs as [Hc Hkeys Hin]. constructor; cbn [add_mapping nat_type sym_mappings inbox].
    + done.
    + rewrite Eput, map_app. cbn [map fst]. apply NoDup_app. split_and!; [done| |by apply NoDup_singleton].
      intros x Hx1 ->%list_elem_of_singleton. apply list_elem_of_In, in_map_iff in Hx1 as (q & <- & Hq).
      unfold get in Hm. destruct (find _ _) eqn:Ef; [done|]. pose proof (find_none _ _ Ef q Hq) as Hf. cbn in Hf.
      by rewrite bool_decide_eq_true_2 in Hf.
    + eapply list.Forall_impl; [exact Hin|]. intros p [Ha|Ha]; [left|by right].
      unfold externals in *. cbn [add_mapping external_addr sym_mappings]. rewrite Eput, map_app.
      rewrite elem_of_cons in *. destruct Ha; [by left|right]. apply elem_of_app. by left.
Qed.

Lemma record_send_ok dest s : socket_ok s -> externals (record_send dest s) = externals s /\ socket_ok (record_send dest s).
Proof.
  intros [Hc Hk Hi]. split; [done|]. constructor; [exact Hc|exact Hk|]. cbn [record_send push_inbox pop_inbox inbox]. eapply list.Forall_impl; [exact Hi|].
  intros p [Ha|Ha]; [by left|right]. unfold nat_filter in *. cbn [record_send nat_type sent_to].
  assert (forall x, x ∈ sent_to s -> x ∈ (if bool_decide (dest ∈ sent_to s) then sent_to s else sent_to s ++ [dest])) as Hsub.
  { intros x Hx. destruct (bool_decide (dest ∈ sent_to s)); [exact Hx|]. apply elem_of_app. by left. }
  destruct (nat_type s); [done| | |].
  - apply existsb_exists in Ha as (d & Hd & He). apply existsb_exists. exists d. split; [|done].
    apply list_elem_of_In, Hsub, list_elem_of_In, Hd.
  - apply bool_decide_eq_true in Ha. apply bool_decide_eq_true. auto.
  - apply bool_decide_eq_true in Ha. apply bool_decide_eq_true. auto.
Qed.

Lemma push_inbox_ok p s : admitted s p -> socket_ok s -> externals (push_inbox p s) = externals s /\ socket_ok (push_inbox p s).
Proof.
  intros Ha [Hc Hk Hi]. split; [done|]. constructor; [exact Hc|exact Hk|]. cbn [record_send push_inbox pop_inbox inbox]. apply Forall_app. split; [done|]. by apply Forall_singleton.
Qed.

Lemma pop_inbox_ok s : socket_ok s -> externals (pop_inbox s) = externals s /\ socket_ok (pop_inbox s).
Proof.
  intros [Hc Hk Hi]. split; [done|]. constructor; [exact Hc|exact Hk|]. cbn [record_send push_inbox pop_inbox inbox]. destruct (inbox s); [done|]. by apply Forall_cons in Hi as [_ ?].
Qed.

Lemma external_for_inv n a dest : net_inv n ->
  let '(n', r) := external_for n a dest in
  net_inv n' /\ forall src, r = Some src -> exists s, get (sockets n') a = Some s /\ src ∈ externals s.
Proof.
  intros Hn. unfold external_for. destruct (get (sockets n) a) as [s|] eqn:E; [|done].
  assert (forall src, Some (external_addr s) = Some src -> exists s0, Some s = Some s0 /\ src ∈ externals s0) as Hbase.
  { intros src [= <-]. exists s. split; [done|]. apply list_elem_of_here. }
  destruct (nat_type s) eqn:Et; try (rewrite E; done).
  destruct (get (sym_mappings s) dest) as [m|] eqn:Em.
  - split; [done|]. intros src [= <-]. rewrite E. exists s. split; [done|]. apply list_elem_of_further.
    unfold get in Em. destruct (find _ _) as [q|] eqn:Ef; [|done]. injection Em as <-. apply find_some in Ef as [Hin _].
    apply list_elem_of_In, in_map_iff. eauto.
  - pose proof (alloc_inv n Hn) as H. destruct (alloc_ext_port n) as [n' [p|e]]; destruct H as (Hn' & Es & Hp); [|done].
    destruct (Hp p eq_refl) as [Hr Hu]. rewrite <- Es in E, Hu. split.
    + apply (add_mapping_inv n' a s); rewrite ?addr_port_new; done.
    + intros src [= <-]. destruct (get_split _ a s (ni_keys n' Hn') E) as (l1 & l2 & El & Hm).
      exists (add_mapping dest (socket_addr_new (external_ip n') p) s). split.
      * unfold modify. cbn [sockets]. rewrite Hm. pose proof (ni_keys n' Hn') as Hk. rewrite El in Hk. clear -Hk.
        unfold get. induction l1 as [|[b t] l1 IH]; cbn in *; [by rewrite bool_decide_eq_true_2|].
        apply list.NoDup_cons in Hk as [Hk Hd]. rewrite bool_decide_eq_false_2; [by apply IH|].
        intros ->. apply Hk. rewrite map_app. apply elem_of_app. right. apply list_elem_of_here.
      * apply list_elem_of_further. cbn [add_mapping sym_mappings]. unfold put.
        destruct (existsb _ _) eqn:Ex; [|rewrite map_app; apply elem_of_app; right; apply list_elem_of_here].
        apply existsb_exists in Ex as (q & Hin & Hq). unfold get in Em. destruct (find _ _) eqn:Ef; [done|].
        pose proof (find_none _ _ Ef q Hin). cbn beta in *. congruence.
Qed.

Lemma get_elem (l : list (SocketAddr * SocketState)) a s : get l a = Some s -> (a, s) ∈ l.
Proof.
  unfold get. destruct (find _ _) as [[b t]|] eqn:E; [|done]. intros [= ->]. apply find_some in E as [Hin Hb%bool_decide_eq_true].
  cbn in Hb. subst. by apply list_elem_of_In.
Qed.

Lemma deliver_inv n src dest data : net_inv n -> net_inv (deliver n src dest data).
Proof.
  intros Hn. unfold deliver. set (n1 := modify n src (record_send dest)).
  assert (net_inv n1) as H1 by (apply modify_inv; [done|]; intros s _; apply record_send_ok).
  pose proof (external_for_inv n1 src dest H1) as H. destruct (external_for n1 src dest) as [n2 [ext|]]; destruct H as [H2 Hext]; [|done].
  destruct (resolve n2 dest) as [d|]; [|done]. case_bool_decide as Ed.
  - subst d. apply modify_inv; [done|]. intros s E. apply push_inbox_ok. destruct (Hext ext eq_refl) as (s' & E' & Hin).
    left. cbn. congruence.
  - destruct (can_deliver n2 ext d) eqn:Ec; cbn [negb]; [|done]. apply modify_inv; [done|]. intros s E. apply push_inbox_ok.
    right. unfold can_deliver in Ec. by rewrite E in Ec.
Qed.

Lemma create_inv n nat a : net_inv n -> net_inv (fst (create_socket n nat a)).
Proof.
  intros Hn. unfold create_socket. pose proof (alloc_inv n Hn) as H. destruct (alloc_ext_port n) as [n' [p|e]];
    destruct H as (Hn' & Es & Hp); [|done]. destruct (Hp p eq_refl) as [Hr Hu]. rewrite <- Es in Hu. clear Hp Es Hn n.
  set (s := {| nat_type := nat |}). assert (socket_ok s) as Hs by (constructor; [done|apply NoDup_nil_2|apply Forall_nil_2]).
  assert (ports [(a, s)] = [p]) as Ep by (unfold ports; cbn; by rewrite addr_port_new).
  destruct Hn' as [Hk Hx Hd Hg Hok]. unfold put. cbn [fst]. destruct (existsb _ _) eqn:Ex.
  - assert (exists s0, get (sockets n') a = Some s0) as [s0 E].
    { unfold get. apply existsb_exists in Ex as (q & Hin & Hq). destruct (find _ _) eqn:Ef; [eauto|].
      pose proof (find_none _ _ Ef q Hin). cbn beta in *. congruence. }
    destruct (get_split _ a s0 Hk E) as (l1 & l2 & El & Hm).
    assert (map (fun q => if bool_decide (fst q = a) then (a, s) else q) (sockets n') = l1 ++ (a, s) :: l2) as ->.
    { rewrite <- (Hm (fun _ => s)). apply map_ext. intros q. by case_bool_decide; subst. }
    rewrite El in *. unfold ports in *. rewrite flat_map_app in *. cbn [flat_map snd] in *.
    assert (p ∉ flat_map (fun q => map addr_port (externals (snd q))) l1 ++ flat_map (fun q => map addr_port (externals (snd q))) l2) as Hu'.
    { intros Hin. apply Hu. rewrite !elem_of_app in *. tauto. }
    constructor; cbn [sockets next_ext_port]; unfold ports; rewrite ?flat_map_app; cbn [flat_map snd].
    + rewrite map_app in *. exact Hk.
    + done.
    + rewrite app_nil_r in Ep. rewrite Ep. cbn [app]. rewrite <- Permutation_middle. apply list.NoDup_cons. split; [done|].
      rewrite (Permutation_app_swap_app _ (map addr_port _)) in Hd. by apply NoDup_app in Hd as (_ & _ & Hd).
    + rewrite app_nil_r in Ep. rewrite Ep. cbn [app]. rewrite !Forall_app in *. rewrite Forall_cons. tauto.
    + rewrite !Forall_app, !Forall_cons in *. tauto.
  - constructor; cbn [sockets next_ext_port]; unfold ports; rewrite ?flat_map_app.
    + rewrite map_app. apply NoDup_app. split_and!; [done| |by apply NoDup_singleton].
      intros x Hx1 ->%list_elem_of_singleton. apply list_elem_of_In, in_map_iff in Hx1 as (q & Hq & Hin).
      apply not_true_iff_false in Ex. apply Ex. apply existsb_exists. exists q. split; [done|]. by apply bool_decide_eq_true.
    + done.
    + fold (ports [(a, s)]). rewrite Ep. apply NoDup_app. split_and!; [done| |by apply NoDup_singleton].
      intros x Hx1 ->%list_elem_of_singleton. done.
    + fold (ports [(a, s)]). rewrite Ep. apply Forall_app. split; [done|]. by apply Forall_singleton.
    + apply Forall_app. split; [done|]. by apply Forall_singleton.
Qed.

Lemma net_step_inv n op : net_inv n -> net_inv (net_step n op).
Proof.
  intros Hn. destruct op as [nat a|from data to|a buf]; cbn [net_step].
  - by apply create_inv.
  - by apply deliver_inv.
  - unfold sim_recv. destruct (get (sockets n) a) as [s|] eqn:E; [|done]. destruct (inbox s) eqn:Ei; [done|].
    apply modify_inv; [done|]. intros s' _. apply pop_inbox_ok.
Qed.

(** The documented table, over every run of a new network: external ports are from 1024 up and no
    two mappings share one; a cone NAT has one external address, a symmetric one a mapping per
    destination at most; and what is in a socket's inbox came, its own datagrams apart, from
    anywhere (full cone), from a host it has sent to (restricted cone), or from an address and port
    it has sent to (port-restricted and symmetric). *)
Lemma nat_sim_as_documented ip ops :
  let n := net_run (network_new ip) ops in
  NoDup (ports (sockets n)) /\ Forall (fun p => 1024 <= p <= 65535) (ports (sockets n)) /\
  forall a s, (a, s) ∈ sockets n ->
    (nat_type s <> Symmetric -> sym_mappings s = []) /\ NoDup (map fst (sym_mappings s)) /\
    forall p, p ∈ inbox s -> pd_from p ∉ externals s ->
      match nat_type s with
      | FullCone => True
      | RestrictedCone => exists d, d ∈ sent_to s /\ addr_ip d = addr_ip (pd_from p)
      | PortRestricted | Symmetric => pd_from p ∈ sent_to s
      end.
Proof.
  cbn zeta. set (n := net_run _ _). assert (net_inv n) as [Hk Hx Hd Hr Hs].
  { subst n. unfold net_run. assert (net_inv (network_new ip)) as H0.
    { constructor; cbn; [apply NoDup_nil_2|lia|apply NoDup_nil_2|apply Forall_nil_2|apply Forall_nil_2]. }
    revert H0. generalize (network_new ip). induction ops as [|op ops IH]; intros n Hn; [done|]. by apply IH, net_step_inv. }
  split_and!; [done|done|]. intros a s Hin. rewrite list.Forall_forall in Hs. destruct (Hs _ Hin) as [H1 H2 H3]. cbn [snd] in *.
  split_and!; [done|done|]. intros p Hp Hn. rewrite list.Forall_forall in H3. destruct (H3 p Hp) as [|Hf]; [done|].
  unfold nat_filter in Hf. destruct (nat_type s); [done| |by apply bool_decide_eq_true in Hf..].
  apply existsb_exists in Hf as (d & Hd' & He). exists d. split; [by apply list_elem_of_In|]. by apply bool_decide_eq_true in He.
Qed.

(** Where internal and external addresses do not mix, at most one socket answers to an address, so
    the order in which the sockets are visited does not matter. *)
Lemma resolve_unique n dest a1 s1 a2 s2 : NoDup (map fst (sockets n)) -> NoDup (ports (sockets n)) ->
  (forall a s b t, (a, s) ∈ sockets n -> (b, t) ∈ sockets n -> a ∉ externals t) ->
  (a1, s1) ∈ sockets n -> (a2, s2) ∈ sockets n ->
  answers_to dest (a1, s1) = true -> answers_to dest (a2, s2) = true -> a1 = a2.
Proof.
  intros Hk Hp Hmix Hin1 Hin2 A1 A2.
  assert (forall a s, answers_to dest (a, s) = true -> a = dest \/ dest ∈ externals s) as Hans.
  { intros a s. unfold answers_to, externals. rewrite !orb_true_iff, !bool_decide_eq_true, elem_of_cons. intros [[?|?]|H]; [by left|by right; left|].
    right. right. apply existsb_exists in H as ([d e] & Hd & He%bool_decide_eq_true). subst e. apply list_elem_of_In, in_map_iff. by exists (d, dest). }
  destruct (Hans _ _ A1) as [->|E1], (Hans _ _ A2) as [->|E2]; [done| | |].
  - by destruct (Hmix _ _ _ _ Hin1 Hin2).
  - by destruct (Hmix _ _ _ _ Hin2 Hin1).
  - clear Hmix A1 A2 Hans. revert Hk Hp Hin1 Hin2. generalize (sockets n). intros l. clear n. induction l as [|[b t] l IH]; [by intros _ _ ?%elem_of_nil|].
    cbn [map fst]. change (ports ((b, t) :: l)) with (map addr_port (externals t) ++ ports l).
    intros [_ Hk]%list.NoDup_cons (Hp1 & Hp2 & Hp3)%NoDup_app Hin1 Hin2.
    assert (forall a s, (a, s) ∈ l -> dest ∈ externals s -> addr_port dest ∈ ports l) as Hport.
    { intros a s Hin He. apply list_elem_of_In, in_flat_map. exists (a, s). split; [by apply list_elem_of_In|].
      apply in_map_iff. exists dest. split; [done|]. by apply list_elem_of_In. }
    assert (dest ∈ externals t -> addr_port dest ∈ map addr_port (externals t)) as Hhd by apply list_elem_of_fmap_2.
    apply elem_of_cons in Hin1 as [[= -> ->]|Hin1], Hin2 as [[= -> ->]|Hin2]; [done| | |by apply IH].
    + destruct (Hp2 (addr_port dest)); eauto.
    + destruct (Hp2 (addr_port dest)); eauto.
Qed.

(** Two port-restricted sockets that send to each other's external address are through with the
    second datagram; from behind a symmetric NAT nothing reaches a port-restricted one, which has
    sent to another port than the one the datagrams come from. *)
Definition toy_net (nat_a nat_b : NatType) : NetworkInner :=
  let a := V4 [10; 0; 0; 1] 1000 in
  let b := V4 [10; 0; 0; 2] 1000 in
  let n := net_run (network_new (IpV4 [10; 0; 0; 254])) [OpCreate nat_a a; OpCreate nat_b b] in
  match external_addr_for n a, external_addr_for n b with
  | Some ea, Some eb => net_run n [OpSend a [1] eb; OpSend b [2] ea; OpSend a [3] eb]
  | _, _ => n
  end.

Lemma hole_punching :
  map (fun p => map pd_data (inbox (snd p))) (sockets (toy_net PortRestricted PortRestricted)) = [[[2]]; [[3]]] /\
  map (fun p => map pd_data (inbox (snd p))) (sockets (toy_net Symmetric PortRestricted)) = [[[2]]; []] /\
  map (fun p => map pd_data (inbox (snd p))) (sockets (toy_net FullCone Symmetric)) = [[[2]]; [[3]]].
Proof. vm_compute. repeat split; reflexivity. Qed.
