(* ===== verification/Candidate.v ===== *)
(** * ICE candidates and pairs (crates/sh-ice/src/candidate.rs)

    With the [Display] of socket addresses, which the foundation of a candidate contains.
    Strings are their bytes. *)

From stdpp Require Import base numbers list option strings.
From S2P Require Import Prelude Decimal Stun.

(** ** [SocketAddr] as text *)

Definition join (sep : bytes) (parts : list bytes) : bytes :=
  match parts with
  | [] => []
  | p :: ps => p ++ concat (map (fun q => sep ++ q) ps)
  end.

Definition ipv4_display (ip : bytes) : bytes := join (lit ".") (map (dec 3) ip).

(** The eight segments of an IPv6 address. *)
Fixpoint segments (ip : bytes) : list Z :=
  match ip with
  | a :: b :: r => a * 256 + b :: segments r
  | _ => []
  end.

(** The first longest run of zero segments: its start and its length. *)
Definition zero_span (segs : list Z) : nat * nat :=
  let step acc seg :=
    let '(i, (cs, cl), (ls, ll)) := acc in
    if seg =? 0 then
      let cs := if (cl =? 0)%nat then i else cs in
      let cl := S cl in
      (S i, (cs, cl), if (ll <? cl)%nat then (cs, cl) else (ls, ll))
    else (S i, (0%nat, 0%nat), (ls, ll)) in
  snd (fold_left step segs (0%nat, (0%nat, 0%nat), (0%nat, 0%nat))).

Definition hex_groups (segs : list Z) : bytes := join (lit ":") (map (hex 4) segs).

Definition ipv6_display (ip : bytes) : bytes :=
  if bool_decide (take 12 ip = replicate 10 0 ++ [255; 255])
  then lit "::ffff:" ++ ipv4_display (drop 12 ip)
  else
    let segs := segments ip in
    let '(s, n) := zero_span segs in
    if (1 <? n)%nat then hex_groups (take s segs) ++ lit "::" ++ hex_groups (drop (s + n) segs)
    else hex_groups segs.

Definition socket_addr_display (a : SocketAddr) : bytes :=
  match a with
  | V4 ip port => ipv4_display ip ++ lit ":" ++ dec 5 port
  | V6 ip port _ scope =>
      lit "[" ++ ipv6_display ip ++ (if scope =? 0 then [] else lit "%" ++ dec 10 scope) ++ lit "]:" ++ dec 5 port
  end.

(** ** Candidates *)

Inductive CandidateKind := Host | ServerReflexive | Relay.

#[global] Instance CandidateKind_eq_dec : EqDecision CandidateKind.
Proof. solve_decision. Defined.

Definition type_preference (k : CandidateKind) : Z :=
  match k with Host => 126 | ServerReflexive => 100 | Relay => 0 end.

Definition foundation_prefix (k : CandidateKind) : bytes :=
  match k with Host => lit "h" | ServerReflexive => lit "s" | Relay => lit "r" end.

Definition compute_priority (kind : CandidateKind) (local_preference component : Z) : Z :=
  let type_pref := type_preference kind in
  let a := sat_mul u32_max (2 ^ 24) type_pref in
  let b := sat_mul u32_max (2 ^ 8) local_preference in
  let c := sat_sub 256 component in
  sat_add u32_max (sat_add u32_max a b) c.

Definition compute_foundation (kind : CandidateKind) (base : SocketAddr) : bytes :=
  foundation_prefix kind ++ socket_addr_display base.

Record Candidate := {
  cand_kind : CandidateKind;
  cand_addr : SocketAddr;
  cand_base : SocketAddr;
  cand_priority : Z;
  foundation : bytes;
  component : Z;
}.

Definition with_local_preference (kind : CandidateKind) (addr base : SocketAddr)
    (component local_preference : Z) : Candidate :=
  {| cand_kind := kind; cand_addr := addr; cand_base := base;
     cand_priority := compute_priority kind local_preference component;
     foundation := compute_foundation kind base; component := component |}.

Definition candidate_new (kind : CandidateKind) (addr base : SocketAddr) (component : Z) : Candidate :=
  with_local_preference kind addr base component 65535.

(** ** Pairs *)

Inductive PairState := Waiting | InProgress | Succeeded | PairFailed | Frozen.

#[global] Instance PairState_eq_dec : EqDecision PairState.
Proof. solve_decision. Defined.

Record CandidatePair := {
  pair_id : Z;
  pair_local : Candidate;
  pair_remote : Candidate;
  pair_state : PairState;
  pair_priority : Z;
  nominated : bool;
  rtt_us : option Z;
}.

Definition compute_pair_priority (g d : Z) (is_controlling : bool) : Z :=
  let '(controlling_p, controlled_p) := if is_controlling then (g, d) else (d, g) in
  let min_p := Z.min controlling_p controlled_p in
  let max_p := Z.max controlling_p controlled_p in
  let tie := if controlled_p <? controlling_p then 1 else 0 in
  sat_add u64_max (sat_add u64_max (sat_mul u64_max (2 ^ 32) min_p) (sat_mul u64_max 2 max_p)) tie.

Definition pair_new (id : Z) (local remote : Candidate) (is_controlling : bool) : CandidatePair :=
  {| pair_id := id; pair_local := local; pair_remote := remote; pair_state := Frozen;
     pair_priority := compute_pair_priority (cand_priority local) (cand_priority remote) is_controlling;
     nominated := false; rtt_us := None |}.

(** ** Properties *)

(** No saturation for 16-bit preferences and 8-bit components: the priority is a [u32], and
    the kind decides before the preference, the preference before the component. *)
Lemma compute_priority_exact k lp c :
  0 <= lp < 65536 -> 0 <= c <= 256 ->
  compute_priority k lp c = 16777216 * type_preference k + 256 * lp + (256 - c) /\
  0 <= compute_priority k lp c < 4294967296.
Proof.
  intros Hlp Hc. unfold compute_priority, sat_add, sat_mul, sat_sub, u32_max.
  change (2 ^ 24) with 16777216. change (2 ^ 8) with 256. destruct k; cbn [type_preference]; lia.
Qed.

Lemma compute_priority_kind k k' lp lp' c c' :
  0 <= lp < 65536 -> 0 <= lp' < 65536 -> 1 <= c <= 256 -> 1 <= c' <= 256 ->
  type_preference k < type_preference k' -> compute_priority k lp c < compute_priority k' lp' c'.
Proof.
  intros H1 H2 H3 H4 Hk.
  rewrite (proj1 (compute_priority_exact k lp c H1 ltac:(lia))), (proj1 (compute_priority_exact k' lp' c' H2 ltac:(lia))).
  destruct k, k'; cbn [type_preference] in *; lia.
Qed.

(** Both sides compute the same priority for a pair, and it is never the saturated value but
    at the very top. *)
Lemma pair_priority_agrees a b : compute_pair_priority a b true = compute_pair_priority b a false.
Proof. done. Qed.

Lemma pair_priority_exact g d c :
  0 <= g < 4294967296 -> 0 <= d < 4294967296 -> Z.min g d < 4294967294 ->
  compute_pair_priority g d c =
    4294967296 * Z.min g d + 2 * Z.max g d + (if (if c then d <? g else g <? d) then 1 else 0).
Proof.
  intros Hg Hd Hm. unfold compute_pair_priority, sat_add, sat_mul, u64_max. change (2 ^ 32) with 4294967296.
  destruct c; cbv zeta beta iota; [destruct (Z.ltb_spec d g)|destruct (Z.ltb_spec g d)]; lia.
Qed.
