(* ===== verification/IceAgent.v ===== *)
(** * The ICE agent (crates/sh-ice/src/agent.rs)

    The agent owns a socket, a clock and a random generator.  What it sends through the socket
    is the log [sent]; what the socket delivers during a call of [step] and the clock's reading
    are arguments of it; the generator is a state of type [R] with the class [Rng].  Every path
    of the handlers of incoming datagrams returns [Ok(())], so they return the agent alone.
    Strings are their bytes. *)

From stdpp Require Import base numbers list option strings.
From S2P Require Import Prelude Stun Candidate.

(** ** Configuration and state *)

Record TurnServerConfig := { turn_addr : SocketAddr; turn_username : bytes; turn_password : bytes }.

Inductive IceRole := Controlling | Controlled.

#[global] Instance IceRole_eq_dec : EqDecision IceRole.
Proof. solve_decision. Defined.

Record IceConfig := {
  stun_servers : list SocketAddr;
  turn_servers : list TurnServerConfig;
  local_addrs : list SocketAddr;
  role : IceRole;
  tie_breaker : Z;
  local_ufrag : bytes;
  local_pwd : bytes;
  remote_ufrag : bytes;
  remote_pwd : bytes;
}.

Inductive IceState := IceNew | Gathering | Checking | Connected | IceFailed | Restarting.

#[global] Instance IceState_eq_dec : EqDecision IceState.
Proof. solve_decision. Defined.

Definition CHECK_TIMEOUT_US : Z := 5000000.

(** [rng.fill_bytes] on a 12-byte transaction id. *)
Class Rng (R : Type) := generate_tid : R -> R * bytes.

Abbreviation datagram := (bytes * SocketAddr)%type.

Record IceAgent (R : Type) := {
  ag_config : IceConfig;
  ag_rng : R;
  ag_state : IceState;
  local_candidates : list Candidate;
  remote_candidates : list Candidate;
  check_list : list CandidatePair;
  nominated_idx : option nat;
  checking_started_us : option Z;
  outgoing : list datagram;
  in_flight : list (bytes * nat);
  next_pair_id : Z;
  sent : list datagram;
}.
Arguments ag_config {R} _.
Arguments ag_rng {R} _.
Arguments ag_state {R} _.
Arguments local_candidates {R} _.
Arguments remote_candidates {R} _.
Arguments check_list {R} _.
Arguments nominated_idx {R} _.
Arguments checking_started_us {R} _.
Arguments outgoing {R} _.
Arguments in_flight {R} _.
Arguments next_pair_id {R} _.
Arguments sent {R} _.

Section Agent.
Context {R : Type} `{!Rng R} `{!StunPrims}.
Implicit Types a : IceAgent R.

Definition agent_new (config : IceConfig) (rng : R) : IceAgent R :=
  {| ag_config := config; ag_rng := rng; ag_state := IceNew; local_candidates := []; remote_candidates := [];
     check_list := []; nominated_idx := None; checking_started_us := None; outgoing := []; in_flight := [];
     next_pair_id := 0; sent := [] |}.

(** ** Assignments to the fields *)

Definition set_state a s : IceAgent R :=
  {| ag_config := ag_config a; ag_rng := ag_rng a; ag_state := s;
     local_candidates := local_candidates a; remote_candidates := remote_candidates a;
     check_list := check_list a; nominated_idx := nominated_idx a;
     checking_started_us := checking_started_us a; outgoing := outgoing a; in_flight := in_flight a;
     next_pair_id := next_pair_id a; sent := sent a |}.

Definition set_candidates a locals remotes : IceAgent R :=
  {| ag_config := ag_config a; ag_rng := ag_rng a; ag_state := ag_state a;
     local_candidates := locals; remote_candidates := remotes;
     check_list := check_list a; nominated_idx := nominated_idx a;
     checking_started_us := checking_started_us a; outgoing := outgoing a; in_flight := in_flight a;
     next_pair_id := next_pair_id a; sent := sent a |}.

(** The check list with the indices into it. *)
Definition set_checks a l nom fl id : IceAgent R :=
  {| ag_config := ag_config a; ag_rng := ag_rng a; ag_state := ag_state a;
     local_candidates := local_candidates a; remote_candidates := remote_candidates a;
     check_list := l; nominated_idx := nom;
     checking_started_us := checking_started_us a; outgoing := outgoing a; in_flight := fl;
     next_pair_id := id; sent := sent a |}.

Definition set_started a t : IceAgent R :=
  {| ag_config := ag_config a; ag_rng := ag_rng a; ag_state := ag_state a;
     local_candidates := local_candidates a; remote_candidates := remote_candidates a;
     check_list := check_list a; nominated_idx := nominated_idx a;
     checking_started_us := t; outgoing := outgoing a; in_flight := in_flight a;
     next_pair_id := next_pair_id a; sent := sent a |}.

Definition set_rng a r : IceAgent R :=
  {| ag_config := ag_config a; ag_rng := r; ag_state := ag_state a;
     local_candidates := local_candidates a; remote_candidates := remote_candidates a;
     check_list := check_list a; nominated_idx := nominated_idx a;
     checking_started_us := checking_started_us a; outgoing := outgoing a; in_flight := in_flight a;
     next_pair_id := next_pair_id a; sent := sent a |}.

Definition set_out a out snt : IceAgent R :=
  {| ag_config := ag_config a; ag_rng := ag_rng a; ag_state := ag_state a;
     local_candidates := local_candidates a; remote_candidates := remote_candidates a;
     check_list := check_list a; nominated_idx := nominated_idx a;
     checking_started_us := checking_started_us a; outgoing := out; in_flight := in_flight a;
     next_pair_id := next_pair_id a; sent := snt |}.

Definition set_list a l : IceAgent R := set_checks a l (nominated_idx a) (in_flight a) (next_pair_id a).

Definition set_nominated a i : IceAgent R := set_checks a (check_list a) i (in_flight a) (next_pair_id a).

Definition set_in_flight a fl : IceAgent R := set_checks a (check_list a) (nominated_idx a) fl (next_pair_id a).

(** A datagram to a relayed address is queued for the caller, any other is given to the
    socket ([let _ = self.transport.send_to(..)]). *)
Definition route a (relay : bool) (d : datagram) : IceAgent R :=
  if relay then set_out a (outgoing a ++ [d]) (sent a) else set_out a (outgoing a) (sent a ++ [d]).

(** [Some(pair) = self.check_list.get_mut(i)]. *)
Definition set_pair (st : PairState) (nom : bool) (p : CandidatePair) : CandidatePair :=
  {| pair_id := pair_id p; pair_local := pair_local p; pair_remote := pair_remote p; pair_state := st;
     pair_priority := pair_priority p; nominated := nom; rtt_us := rtt_us p |}.

Definition is_relay (k : CandidateKind) : bool := bool_decide (k = Relay).

Definition is_controlling a : bool := bool_decide (role (ag_config a) = Controlling).

(** [iter().position(..)]. *)
Definition position_of (P : CandidatePair -> bool) (l : list CandidatePair) : option nat :=
  fst <$> list_find (fun p => P p = true) l.

(** ** Gathering and the check list *)

Definition gather a : IceAgent R * result IceError (list Candidate) :=
  if bool_decide (local_addrs (ag_config a) = [])
  then (set_state a IceFailed, Err (GatherFailed "no local addresses configured"))
  else
    let a := set_state a Gathering in
    let cs := map (fun addr => candidate_new Host addr addr 1) (local_addrs (ag_config a)) in
    (set_candidates a cs (remote_candidates a), Ok cs).

(** Pairs numbered from [id] on, with the counter saturating, all [Waiting]. *)
Fixpoint number_pairs (id : Z) (l : list CandidatePair) : list CandidatePair * Z :=
  match l with
  | [] => ([], id)
  | p :: l' =>
      let '(ps, id') := number_pairs (sat_add u64_max id 1) l' in
      ({| pair_id := id; pair_local := pair_local p; pair_remote := pair_remote p; pair_state := Waiting;
          pair_priority := pair_priority p; nominated := nominated p; rtt_us := rtt_us p |} :: ps, id')
  end.

Definition by_priority (l : list CandidatePair) : list CandidatePair :=
  sort_by_key (fun p => - pair_priority p) l.

Definition mark_nominated (i : nat) (l : list CandidatePair) : list CandidatePair :=
  alter (set_pair Succeeded true) i l.

Definition same_key (p q : CandidatePair) : bool :=
  bool_decide (cand_base (pair_local q) = cand_base (pair_local p)) &&
  bool_decide (cand_kind (pair_local q) = cand_kind (pair_local p)) &&
  bool_decide (cand_addr (pair_remote q) = cand_addr (pair_remote p)) &&
  bool_decide (cand_kind (pair_remote q) = cand_kind (pair_remote p)).

Definition cross_pairs a : list CandidatePair :=
  local ← local_candidates a; (fun remote => pair_new 0 local remote (is_controlling a)) <$> remote_candidates a.

Definition rebuild_check_list a : IceAgent R :=
  let nominated_key := i ← nominated_idx a; check_list a !! i in
  let '(pairs, id) := number_pairs (next_pair_id a) (cross_pairs a) in
  let l := by_priority pairs in
  match nominated_key with
  | Some p =>
      match position_of (same_key p) l with
      | Some i => set_checks a (mark_nominated i l) (Some i) [] id
      | None => set_checks a l None [] id
      end
  | None => set_checks a l None [] id
  end.

Definition add_remote_candidate a (c : Candidate) : IceAgent R :=
  rebuild_check_list (set_candidates a (local_candidates a) (remote_candidates a ++ [c])).

Definition has_id (id : Z) (p : CandidatePair) : bool := pair_id p =? id.

(** Moving the indices to the pairs' new places. *)
Definition remap (l l' : list CandidatePair) (fl : list (bytes * nat)) : list (bytes * nat) :=
  let ids := omap (fun '(tid, i) => p ← l !! i; Some (tid, pair_id p)) fl in
  omap (fun '(tid, id) => j ← position_of (has_id id) l'; Some (tid, j)) ids.

Definition extend_check_list a (new_local : Candidate) : IceAgent R :=
  let l := check_list a in
  let nominated_pair_id := i ← nominated_idx a; pair_id <$> l !! i in
  let '(new_pairs, id) :=
    number_pairs (next_pair_id a)
      ((fun remote => pair_new 0 new_local remote (is_controlling a)) <$> remote_candidates a) in
  let l' := by_priority (l ++ new_pairs) in
  let fl := remap l l' (in_flight a) in
  match nominated_pair_id with
  | Some pid =>
      match position_of (has_id pid) l' with
      | Some i => set_checks a (mark_nominated i l') (Some i) fl id
      | None => set_checks a l' None fl id
      end
  | None => set_checks a l' (nominated_idx a) fl id
  end.

Definition state_name (s : IceState) : string :=
  match s with
  | IceNew => "New" | Gathering => "Gathering" | Checking => "Checking" | Connected => "Connected"
  | IceFailed => "Failed" | Restarting => "Restarting"
  end.

Definition add_relay_candidate a (relay_addr base_addr : SocketAddr) : IceAgent R * result IceError unit :=
  match ag_state a with
  | Gathering | Checking | Connected =>
      let c := candidate_new Relay relay_addr base_addr 1 in
      let a := set_candidates a (local_candidates a ++ [c]) (remote_candidates a) in
      if bool_decide (remote_candidates a = []) then (a, Ok tt) else
      match ag_state a with
      | Checking | Connected => (extend_check_list a c, Ok tt)
      | _ => (rebuild_check_list a, Ok tt)
      end
  | other =>
      (a, Err (CheckFailed ("add_relay_candidate called in invalid state " +:+ state_name other +:+
        "; call gather() first and wait for Gathering/Checking/Connected")))
  end.

(** ** Binding requests *)

Definition build_binding_request (tid : bytes) (cfg : IceConfig) (local_priority : Z) (nominate : bool)
    : result IceError bytes :=
  let attrs :=
    [Username (remote_ufrag cfg ++ lit ":" ++ local_ufrag cfg); Stun.Priority local_priority;
     match role cfg with
     | Controlling => IceControlling (tie_breaker cfg)
     | Controlled => IceControlled (tie_breaker cfg)
     end] ++ (if nominate then [UseCandidate] else []) in
  encode_with_integrity
    {| class := Request; method := Binding; transaction_id := tid; attributes := attrs |} (remote_pwd cfg).

(** Draws a transaction id, sends the request for the pair at [idx] and records it. *)
Definition send_check a (idx : nat) (p : CandidatePair) (nominate : bool) (dest : SocketAddr) (relay : bool)
    : IceAgent R * bool :=
  let '(r, tid) := generate_tid (ag_rng a) in
  let a := set_rng a r in
  match build_binding_request tid (ag_config a) (cand_priority (pair_local p)) nominate with
  | Ok b => let a := route a relay (b, dest) in (set_in_flight a (in_flight a ++ [(tid, idx)]), true)
  | Err _ => (a, false)
  end.

Definition check_one a (idx : nat) : IceAgent R :=
  match check_list a !! idx with
  | Some p =>
      if bool_decide (pair_state p = Waiting) then
        let a := set_list a (alter (fun p => set_pair InProgress (nominated p) p) idx (check_list a)) in
        fst (send_check a idx p false (cand_addr (pair_remote p)) (is_relay (cand_kind (pair_remote p))))
      else a
  | None => a
  end.

Definition check_pairs a : IceAgent R * result IceError unit :=
  if bool_decide (check_list a = []) then (a, Err (CheckFailed "check list is empty"))
  else (fold_left check_one (seq 0 (length (check_list a))) a, Ok tt).

(** [u.split_once(':')], the part behind the colon. *)
Fixpoint after_colon (u : bytes) : option bytes :=
  match u with
  | [] => None
  | b :: r => if b =? 58 then Some r else after_colon r
  end.

Definition username_valid (cfg : IceConfig) (attrs : list StunAttribute) : bool :=
  existsb (fun at_ => match at_ with
                     | Username u => bool_decide (after_colon u = Some (local_ufrag cfg))
                     | _ => false
                     end) attrs.

Definition has_use_candidate (attrs : list StunAttribute) : bool :=
  existsb (fun at_ => match at_ with UseCandidate => true | _ => false end) attrs.

Definition has_controlling (attrs : list StunAttribute) : bool :=
  existsb (fun at_ => match at_ with IceControlling _ => true | _ => false end) attrs.

Definition to_addr (from : SocketAddr) (p : CandidatePair) : bool :=
  bool_decide (cand_addr (pair_remote p) = from).

Definition is_open (p : CandidatePair) : bool :=
  bool_decide (pair_state p = InProgress) || bool_decide (pair_state p = Waiting).

(** The controlling peer's USE-CANDIDATE. *)
Definition apply_nomination a (from : SocketAddr) : IceAgent R :=
  match position_of (to_addr from) (check_list a) with
  | Some i => set_nominated (set_list a (mark_nominated i (check_list a))) (Some i)
  | None => a
  end.

Definition open_to (from : SocketAddr) (p : CandidatePair) : bool := to_addr from p && is_open p.

(** Every pair to the sender that is still open has now succeeded. *)
Definition succeed_open a (from : SocketAddr) : IceAgent R :=
  set_list a ((fun p => if open_to from p then set_pair Succeeded (nominated p) p else p) <$> check_list a).

(** The triggered check on the first of them. *)
Definition trigger_check a (triggered : option nat) (from : SocketAddr) : IceAgent R :=
  match triggered with
  | None => a
  | Some idx =>
      match check_list a !! idx with
      | None => a
      | Some p =>
          let should_nominate := is_controlling a && bool_decide (nominated_idx a = None) in
          let '(a, was_sent) := send_check a idx p should_nominate from (is_relay (cand_kind (pair_remote p))) in
          if was_sent && should_nominate
          then set_nominated (set_list a (alter (fun p => set_pair (pair_state p) true p) idx (check_list a))) (Some idx)
          else a
      end
  end.

Definition handle_binding_request a (raw : bytes) (msg : StunMessage) (from : SocketAddr) : IceAgent R :=
  if negb (is_ok (verify_integrity raw (local_pwd (ag_config a)))) then a else
  if negb (username_valid (ag_config a) (attributes msg)) then a else
  let use_candidate := has_use_candidate (attributes msg) && has_controlling (attributes msg) in
  match encode_with_integrity
          {| class := SuccessResponse; method := Binding; transaction_id := transaction_id msg;
             attributes := [XorMappedAddress from] |} (local_pwd (ag_config a)) with
  | Err _ => a
  | Ok resp_bytes =>
      let is_relay_src :=
        existsb (fun p => to_addr from p && is_relay (cand_kind (pair_remote p))) (check_list a) in
      let a := route a is_relay_src (resp_bytes, from) in
      let a := if use_candidate then apply_nomination a from else a in
      let triggered := position_of (open_to from) (check_list a) in
      trigger_check (succeed_open a from) triggered from
  end.

(** ** Binding responses *)

Definition handle_binding_response a (raw : bytes) (msg : StunMessage) (from : SocketAddr) : IceAgent R :=
  if negb (is_ok (verify_integrity raw (remote_pwd (ag_config a)))) then a else
  match list_find (fun e => e.1 = transaction_id msg) (in_flight a) with
  | None => a
  | Some (pos, (_, idx)) =>
      let a := set_in_flight a (delete pos (in_flight a)) in
      match check_list a !! idx with
      | None => a
      | Some p =>
          if negb (to_addr from p) then a else
          let nominate := is_controlling a && bool_decide (nominated_idx a = None) in
          let a := set_list a (alter (fun p => set_pair Succeeded (nominated p || nominate) p) idx (check_list a)) in
          if nominate
          then fst (send_check (set_nominated a (Some idx)) idx p true from (is_relay (cand_kind (pair_remote p))))
          else a
      end
  end.

(** ** Events *)

Definition handle_incoming a (data : bytes) (from : SocketAddr) : IceAgent R :=
  match stun_decode data with
  | Err _ => a
  | Ok msg =>
      match class msg with
      | Request => handle_binding_request a data msg from
      | SuccessResponse => handle_binding_response a data msg from
      | ErrorResponse | Indication => a
      end
  end.

(** At most 64 datagrams, each cut to the 2048 bytes of the buffer. *)
Definition clip (d : datagram) : datagram := (take (Z.to_nat 2048) d.1, d.2).

Definition drain_transport_inbox a (inbox : list datagram) : IceAgent R :=
  fold_left (fun a d => handle_incoming a d.1 d.2) (clip <$> take (Z.to_nat 64) inbox) a.

Definition now_us (now_secs : Z) : Z := i64_clamp (now_secs * 1000000).

(** What [step] does after the incoming datagrams, by state; [inbox] is what the socket
    delivers while the checks are sent. *)
Definition step_state a (inbox : list datagram) (now_secs : Z) : IceAgent R * result IceError unit :=
  match ag_state a with
  | IceNew =>
      if bool_decide (local_addrs (ag_config a) = []) then (a, Ok tt)
      else let '(a, r) := gather a in (a, let? _ := r in Ok tt)
  | Gathering =>
      if bool_decide (remote_candidates a = []) then (a, Ok tt)
      else
        let a := rebuild_check_list a in
        (set_started (set_state a Checking) (Some (now_us now_secs)), Ok tt)
  | Checking =>
      let a := fst (check_pairs a) in
      let a := drain_transport_inbox a inbox in
      let timed_out := match checking_started_us a with
                       | Some started => CHECK_TIMEOUT_US <? i64_sat_sub (now_us now_secs) started
                       | None => false
                       end in
      if timed_out then (set_state a IceFailed, Err IceTimeout)
      else match nominated_idx a with
           | Some _ => (set_state a Connected, Ok tt)
           | None => (a, Ok tt)
           end
  | IceFailed => (set_state a Restarting, Ok tt)
  | Restarting =>
      let a := set_candidates a [] [] in
      let a := set_checks a [] None [] (next_pair_id a) in
      (set_state (set_started a None) IceNew, Ok tt)
  | Connected => (a, Ok tt)
  end.

Definition agent_step a (incoming : option datagram) (inbox1 inbox2 : list datagram) (now_secs : Z)
    : IceAgent R * result IceError (list datagram) :=
  let a := match incoming with Some (data, from) => handle_incoming a data from | None => a end in
  let a := drain_transport_inbox a inbox1 in
  let out := outgoing a in
  let a := set_out a [] (sent a) in
  match step_state a inbox2 now_secs with
  | (a, Err e) => (a, Err e)
  | (a, Ok _) => (set_out a [] (sent a), Ok (out ++ outgoing a))
  end.

Definition nominated_pair a : option CandidatePair := i ← nominated_idx a; check_list a !! i.

End Agent.
