(* ===== verification/IceSafety.v ===== *)
(** * What an ICE agent's nominated path rests on (crates/sh-ice/src/agent.rs)

    Runs of an agent are sequences of its public operations, with arbitrary datagrams in the
    steps.  The invariant [agent_inv] ties the check list, the indices into it and the
    nomination to the datagrams heard so far. *)

From stdpp Require Import base numbers list option strings sorting sets.
From S2P Require Import Prelude Utf8 Stun StunWire Candidate IceAgent.

(** ** Lists of pairs *)

(** What the handlers never change in a pair. *)
Definition static (p : CandidatePair) : Z * Candidate * Candidate * Z :=
  (pair_id p, pair_local p, pair_remote p, pair_priority p).

Lemma fmap_alter_same {A B} (g : A -> B) (f : A -> A) i (l : list A) :
  (forall x, g (f x) = g x) -> g <$> alter f i l = g <$> l.
Proof.
  intros Hg. apply list_eq. intros j. rewrite !list_lookup_fmap.
  destruct (decide (i = j)) as [->|Hne].
  - rewrite list_lookup_alter_eq. destruct (l !! j); cbn; [|done]. by rewrite Hg.
  - by rewrite list_lookup_alter_ne.
Qed.

Lemma position_of_Some P l i :
  position_of P l = Some i -> exists p, l !! i = Some p /\ P p = true.
Proof.
  unfold position_of. intros ([j p] & [Hl [Hp _]]%list_find_Some & ->)%fmap_Some. eauto.
Qed.

Lemma position_of_is_Some P l p : p ∈ l -> P p = true -> is_Some (position_of P l).
Proof.
  intros Hin Hp. unfold position_of. destruct (list_find_elem_of (fun p => P p = true) l p Hin Hp) as [? ->].
  eauto.
Qed.

Lemma lookup_static (l l' : list CandidatePair) (i : nat) p :
  static <$> l = static <$> l' -> l !! i = Some p ->
  exists p', l' !! i = Some p' /\ static p' = static p.
Proof.
  intros E Hl. assert ((static <$> l) !! i = Some (static p)) as H by by rewrite list_lookup_fmap, Hl.
  rewrite E, list_lookup_fmap in H. destruct (l' !! i) as [p'|]; [|done]. cbn in H. injection H as H1 H2 H3 H4.
  exists p'. split; [done|]. unfold static. congruence.
Qed.

Lemma static_length (l l' : list CandidatePair) : static <$> l = static <$> l' -> length l = length l'.
Proof. intros E. by rewrite <- (length_fmap static l), E, length_fmap. Qed.

(** Numbering: while the counter has room, the numbers are fresh and consecutive. *)
Lemma number_pairs_spec id l :
  let '(ps, id') := number_pairs id l in
  0 <= id -> id' < u64_max ->
  id' = id + Z.of_nat (length l) /\ pair_id <$> ps = seqZ id (Z.of_nat (length l)).
Proof.
  revert id. induction l as [|p l IH]; intros id; cbn [number_pairs].
  { intros _ _. split; [cbn; lia|done]. }
  specialize (IH (sat_add u64_max id 1)). destruct (number_pairs (sat_add u64_max id 1) l) as [ps id'].
  intros Hid Hmax. unfold sat_add in *.
  assert (0 <= Z.min u64_max (id + 1)) as H0 by (unfold u64_max; lia).
  destruct (IH H0 Hmax) as [IH1 IH2]. cbn [length] in *.
  assert (id < u64_max) as Hlt by (unfold u64_max in *; lia).
  rewrite Z.min_r in IH1, IH2 by lia. split; [lia|]. rewrite fmap_cons, IH2. cbn [pair_id].
  replace (Z.of_nat (S (length l))) with (Z.succ (Z.of_nat (length l))) by lia.
  rewrite (seqZ_cons id) by lia. by rewrite Z.pred_succ, Z.add_1_r.
Qed.

Lemma number_pairs_same id l :
  Forall2 (fun p q => pair_local q = pair_local p /\ pair_remote q = pair_remote p) l (fst (number_pairs id l)).
Proof.
  revert id. induction l as [|p l IH]; intros id; cbn [number_pairs]; [constructor|].
  specialize (IH (sat_add u64_max id 1)). destruct (number_pairs (sat_add u64_max id 1) l) as [ps id'].
  by constructor.
Qed.

Lemma number_pairs_ge id l : id <= u64_max -> id <= snd (number_pairs id l) <= u64_max.
Proof.
  revert id. induction l as [|p l IH]; intros id Hid; cbn [number_pairs]; [cbn; lia|].
  specialize (IH (sat_add u64_max id 1)). destruct (number_pairs (sat_add u64_max id 1) l) as [ps id'].
  cbn [snd] in *. unfold sat_add in *. lia.
Qed.

(** ** The invariant *)

Section Safety.
Context {R : Type} `{!Rng R} `{!StunPrims}.
Implicit Types a : IceAgent R.

(** A datagram that the agent was handed came from [addr] and is an authenticated STUN message:
    a request under the local password whose USERNAME the agent accepts, or a success response
    under the remote password. *)
Definition authentic (cfg : IceConfig) (heard : list datagram) (addr : SocketAddr) : Prop :=
  exists data msg, (data, addr) ∈ heard /\ stun_decode data = Ok msg /\
    (class msg = Request /\ verify_integrity data (local_pwd cfg) = Ok tt /\ username_valid cfg (attributes msg) = true \/
     class msg = SuccessResponse /\ verify_integrity data (remote_pwd cfg) = Ok tt).

Lemma authentic_mono cfg h h' addr : h ⊆ h' -> authentic cfg h addr -> authentic cfg h' addr.
Proof. intros Hs (d & msg & Hd & Hv). exists d, msg. auto. Qed.

Record list_ok (next : Z) (l : list CandidatePair) : Prop := {
  lo_sorted : StronglySorted Z.ge (pair_priority <$> l);
  lo_ids : NoDup (pair_id <$> l);
  lo_bound : Forall (fun id => id < next) (pair_id <$> l);
}.

(** The pairs are made of the current candidates. *)
Definition from_candidates a : Prop :=
  Forall (fun p => pair_local p ∈ local_candidates a /\ pair_remote p ∈ remote_candidates a) (check_list a).

Definition nominated_ok a (heard : list datagram) : Prop :=
  forall i, nominated_idx a = Some i ->
  exists p, check_list a !! i = Some p /\ nominated p = true /\ pair_state p = Succeeded /\
            authentic (ag_config a) heard (cand_addr (pair_remote p)).

Record agent_inv (heard : list datagram) a : Prop := {
  ai_list : list_ok (next_pair_id a) (check_list a);
  ai_next : 0 <= next_pair_id a <= u64_max;
  ai_pairs : ag_state a = Checking \/ ag_state a = Connected -> from_candidates a;
  ai_flight : Forall (fun e => (e.2 < length (check_list a))%nat) (in_flight a);
  ai_nom : nominated_ok a heard;
  ai_conn : ag_state a = Connected -> nominated_idx a <> None;
}.

Lemma agent_inv_mono h h' a : h ⊆ h' -> agent_inv h a -> agent_inv h' a.
Proof.
  intros Hs [H1 H2 H3 H4 H5 H6]. split; try done. intros i Hi.
  destruct (H5 i Hi) as (p & Hp & Hn & Hst & Ha). exists p. split_and!; try done. by eapply authentic_mono.
Qed.

Lemma agent_inv_new cfg r h : agent_inv h (agent_new cfg r).
Proof.
  split; cbn; try done; try constructor; try done; try constructor.
Qed.

(** *** Operations that leave the check list's shape alone *)

Lemma list_ok_static n (l l' : list CandidatePair) : static <$> l = static <$> l' -> list_ok n l -> list_ok n l'.
Proof.
  intros E [H1 H2 H3].
  assert (pair_id <$> l = pair_id <$> l') as Eid.
  { apply (f_equal (fmap (fun s : Z * Candidate * Candidate * Z => s.1.1.1))) in E.
    by rewrite <- !list_fmap_compose in E. }
  assert (pair_priority <$> l = pair_priority <$> l') as Epr.
  { apply (f_equal (fmap (fun s : Z * Candidate * Candidate * Z => s.2))) in E.
    by rewrite <- !list_fmap_compose in E. }
  split; by rewrite <- ?Eid, <- ?Epr.
Qed.

Lemma from_candidates_static a a' :
  static <$> check_list a = static <$> check_list a' ->
  local_candidates a' = local_candidates a -> remote_candidates a' = remote_candidates a ->
  from_candidates a -> from_candidates a'.
Proof.
  unfold from_candidates. intros E -> -> Hc. apply list.Forall_forall. intros p Hp.
  apply list_elem_of_lookup in Hp as [i Hi].
  destruct (lookup_static _ (check_list a) _ _ (eq_sym E) Hi) as (q & Hq & Es).
  rewrite Forall_lookup in Hc. specialize (Hc i q Hq). unfold static in Es. by injection Es as _ <- <- _.
Qed.

(** An agent that kept everything but pair states, nomination, transactions and traffic. *)
Record keeps a a' : Prop := {
  k_config : ag_config a' = ag_config a;
  k_state : ag_state a' = ag_state a;
  k_local : local_candidates a' = local_candidates a;
  k_remote : remote_candidates a' = remote_candidates a;
  k_static : static <$> check_list a = static <$> check_list a';
  k_next : next_pair_id a' = next_pair_id a;
  k_started : checking_started_us a' = checking_started_us a;
  k_nominated : nominated_idx a <> None -> nominated_idx a' <> None;
}.

Lemma keeps_refl a : keeps a a.
Proof. by split. Qed.

Lemma keeps_trans a1 a2 a3 : keeps a1 a2 -> keeps a2 a3 -> keeps a1 a3.
Proof. intros [] []. split; try congruence. auto. Qed.

Lemma keeps_inv h a a' :
  keeps a a' -> Forall (fun e => (e.2 < length (check_list a'))%nat) (in_flight a') -> nominated_ok a' h ->
  agent_inv h a -> agent_inv h a'.
Proof.
  intros K Hf Hn [H1 H2 H3 H4 H5 H6]. split; try done.
  - rewrite (k_next _ _ K). eapply list_ok_static; [apply K|done].
  - by rewrite (k_next _ _ K).
  - rewrite (k_state _ _ K). intros Hs. eapply from_candidates_static; try apply K. by apply H3.
  - rewrite (k_state _ _ K). intros Hs. apply K. by apply H6.
Qed.

(** *** The pieces of the handlers *)

Lemma set_pair_static st n p : static (set_pair st n p) = static p.
Proof. done. Qed.

Lemma route_keeps a b d : keeps a (route a b d).
Proof. by destruct b; split. Qed.

Lemma route_same a b d :
  check_list (route a b d) = check_list a /\ in_flight (route a b d) = in_flight a /\
  nominated_idx (route a b d) = nominated_idx a /\ ag_config (route a b d) = ag_config a.
Proof. by destruct b. Qed.

(** Changing the pairs in place, without touching a nominated pair's claim. *)
Lemma set_list_inv h a l :
  static <$> check_list a = static <$> l ->
  (forall i p, nominated_idx a = Some i -> check_list a !! i = Some p -> nominated p = true ->
     pair_state p = Succeeded -> exists p', l !! i = Some p' /\ nominated p' = true /\ pair_state p' = Succeeded) ->
  agent_inv h a -> agent_inv h (set_list a l) /\ keeps a (set_list a l).
Proof.
  intros E Hn Hi. assert (keeps a (set_list a l)) as K by (by split). split; [|done].
  apply (keeps_inv h a); try done.
  - cbn. rewrite <- (static_length _ _ E). apply Hi.
  - intros i Hnom. cbn in Hnom. destruct (ai_nom _ _ Hi i Hnom) as (p & Hp & Hpn & Hps & Ha).
    destruct (Hn i p Hnom Hp Hpn Hps) as (p' & Hp' & Hpn' & Hps'). exists p'. cbn. split_and!; try done.
    destruct (lookup_static _ _ _ _ E Hp) as (q & Hq & Eq). rewrite Hp' in Hq. injection Hq as <-.
    unfold static in Eq. by injection Eq as _ _ -> _.
Qed.

Lemma alter_inv h a f idx :
  (forall p, static (f p) = static p) ->
  (forall p, nominated p = true -> pair_state p = Succeeded -> nominated (f p) = true /\ pair_state (f p) = Succeeded) ->
  agent_inv h a -> agent_inv h (set_list a (alter f idx (check_list a))) /\
  keeps a (set_list a (alter f idx (check_list a))).
Proof.
  intros Hs Hf. apply set_list_inv; [by rewrite fmap_alter_same|].
  intros i p _ Hp Hpn Hps. destruct (decide (idx = i)) as [->|Hne].
  - exists (f p). rewrite list_lookup_alter_eq, Hp. by destruct (Hf p Hpn Hps).
  - exists p. by rewrite list_lookup_alter_ne.
Qed.

(** Nominating the pair at [i], to whose address an authenticated datagram was heard. *)
Lemma nominate_inv h a i p :
  check_list a !! i = Some p -> nominated p = true -> pair_state p = Succeeded ->
  authentic (ag_config a) h (cand_addr (pair_remote p)) ->
  agent_inv h a -> agent_inv h (set_nominated a (Some i)) /\ keeps a (set_nominated a (Some i)).
Proof.
  intros Hp Hn Hs Ha Hi. assert (keeps a (set_nominated a (Some i))) as K by by split. split; [|done].
  apply (keeps_inv h a); try done; [apply Hi|]. intros j [= <-]. by exists p.
Qed.

Lemma send_check_spec h a idx p nom dest relay :
  (idx < length (check_list a))%nat -> agent_inv h a ->
  let a' := fst (send_check a idx p nom dest relay) in
  agent_inv h a' /\ keeps a a' /\ check_list a' = check_list a /\ nominated_idx a' = nominated_idx a /\
  ag_config a' = ag_config a.
Proof.
  intros Hidx Hi. unfold send_check. destruct (generate_tid (ag_rng a)) as [r tid].
  destruct (build_binding_request _ _ _ _) as [b|]; cbn [fst].
  - set (a1 := route _ _ _). assert (keeps a a1 /\ check_list a1 = check_list a /\ in_flight a1 = in_flight a /\
      nominated_idx a1 = nominated_idx a /\ ag_config a1 = ag_config a) as (K & E1 & E2 & E3 & E4).
    { unfold a1. by destruct relay. }
    assert (keeps a (set_in_flight a1 (in_flight a1 ++ [(tid, idx)]))) as K'.
    { destruct K. by split. }
    split_and!; try done. apply (keeps_inv h a); try done; cbn; rewrite ?E1, ?E2.
    + apply Forall_app_2; [apply Hi|]. by constructor.
    + intros i Hn. cbn in Hn. rewrite E3 in Hn. destruct (ai_nom _ _ Hi i Hn) as (q & Hq).
      exists q. cbn. by rewrite E1, E4.
  - assert (keeps a (set_rng a r)) as K by by split. split_and!; try done.
    apply (keeps_inv h a); try done; [apply Hi|apply Hi].
Qed.

Lemma route_inv h a b d : agent_inv h a -> agent_inv h (route a b d).
Proof.
  intros Hi. apply (keeps_inv h a); try done; [apply route_keeps|..]; by destruct b; apply Hi.
Qed.

Lemma apply_nomination_inv h a from :
  authentic (ag_config a) h from -> agent_inv h a ->
  agent_inv h (apply_nomination a from) /\ keeps a (apply_nomination a from).
Proof.
  intros Ha Hi. unfold apply_nomination. destruct (position_of _ _) as [i|] eqn:Ep; [|split; [done|apply keeps_refl]].
  destruct (position_of_Some _ _ _ Ep) as (p & Hp & Ht). unfold to_addr in Ht. apply bool_decide_eq_true in Ht.
  unfold mark_nominated.
  destruct (alter_inv h a (set_pair Succeeded true) i) as [Hi1 K1]; [done|done|done|].
  set (a1 := set_list a _) in *.
  destruct (nominate_inv h a1 i (set_pair Succeeded true p)) as [Hi2 K2]; try done.
  - cbn. by rewrite list_lookup_alter_eq, Hp.
  - cbn. by rewrite Ht.
  - split; [done|]. by eapply keeps_trans.
Qed.

Lemma succeed_open_inv h a from :
  agent_inv h a -> agent_inv h (succeed_open a from) /\ keeps a (succeed_open a from).
Proof.
  intros Hi. unfold succeed_open. apply set_list_inv; [|..|done].
  - rewrite <- list_fmap_compose. apply list_fmap_ext. intros i p _. cbn. by destruct (open_to from p).
  - intros i p _ Hp Hpn Hps. exists p. rewrite list_lookup_fmap, Hp. cbn.
    unfold open_to, is_open. rewrite Hps. cbn. by rewrite andb_false_r.
Qed.

Lemma trigger_check_inv h a t from :
  authentic (ag_config a) h from ->
  (forall i, t = Some i -> exists p, check_list a !! i = Some p /\ cand_addr (pair_remote p) = from /\ pair_state p = Succeeded) ->
  agent_inv h a -> agent_inv h (trigger_check a t from) /\ keeps a (trigger_check a t from).
Proof.
  intros Ha Ht Hi. unfold trigger_check. destruct t as [idx|]; [|split; [done|apply keeps_refl]].
  destruct (Ht idx eq_refl) as (p & Hp & Hf & Hs). rewrite Hp.
  set (nom := _ && _).
  pose proof (send_check_spec h a idx p nom from (is_relay (cand_kind (pair_remote p)))
    (lookup_lt_Some _ _ _ Hp) Hi) as Hsend.
  destruct (send_check a idx p nom from _) as [a1 was_sent]. cbn [fst] in Hsend.
  destruct Hsend as (Hi1 & K1 & E1 & E2 & E3). destruct (was_sent && nom); [|done].
  destruct (alter_inv h a1 (fun p => set_pair (pair_state p) true p) idx) as [Hi2 K2]; [done|by intros|done|].
  set (a2 := set_list a1 _) in *.
  destruct (nominate_inv h a2 idx (set_pair (pair_state p) true p)) as [Hi3 K3]; try done.
  - cbn. by rewrite list_lookup_alter_eq, E1, Hp.
  - cbn. by rewrite E3, Hf.
  - split; [done|]. by eapply keeps_trans; [|eapply keeps_trans].
Qed.

(** *** The handlers *)

Lemma is_ok_unit (r : result IceError unit) : is_ok r = true -> r = Ok tt.
Proof. by destruct r as [[]|]. Qed.

Lemma request_inv h a raw msg from :
  (raw, from) ∈ h -> stun_decode raw = Ok msg -> class msg = Request -> agent_inv h a ->
  agent_inv h (handle_binding_request a raw msg from) /\ keeps a (handle_binding_request a raw msg from).
Proof.
  intros Hh Hdec Hcl Hi. unfold handle_binding_request.
  destruct (is_ok _) eqn:Ev; cbn [negb]; [|split; [done|apply keeps_refl]].
  destruct (username_valid _ _) eqn:Eu; cbn [negb]; [|split; [done|apply keeps_refl]].
  destruct (encode_with_integrity _ _) as [resp|]; [|split; [done|apply keeps_refl]].
  set (a1 := route a _ _). set (use := _ && _).
  assert (authentic (ag_config a) h from) as Ha.
  { exists raw, msg. split; [done|]. split; [done|]. left. split; [done|]. split; [by apply is_ok_unit|done]. }
  pose proof (route_inv h a (existsb (fun p => to_addr from p && is_relay (cand_kind (pair_remote p))) (check_list a)) (resp, from) Hi) as Hi1.
  pose proof (route_keeps a (existsb (fun p => to_addr from p && is_relay (cand_kind (pair_remote p))) (check_list a)) (resp, from)) as K1. fold a1 in Hi1, K1.
  set (a2 := if use then _ else _).
  assert (agent_inv h a2 /\ keeps a1 a2) as [Hi2 K2].
  { unfold a2. destruct use; [|split; [done|apply keeps_refl]].
    apply apply_nomination_inv; [|done]. by rewrite (k_config _ _ K1). }
  destruct (succeed_open_inv h a2 from Hi2) as [Hi3 K3].
  destruct (trigger_check_inv h (succeed_open a2 from) (position_of (open_to from) (check_list a2)) from) as [Hi4 K4].
  - by rewrite (k_config _ _ K3), (k_config _ _ K2), (k_config _ _ K1).
  - intros i (p & Hp & Ho)%position_of_Some. exists (set_pair Succeeded (nominated p) p). cbn.
    rewrite list_lookup_fmap, Hp. cbn. rewrite Ho. split_and!; try done.
    unfold open_to, to_addr in Ho. apply andb_true_iff in Ho as [Ho _]. by apply bool_decide_eq_true in Ho.
  - done.
  - split; [done|]. by eapply keeps_trans; [|eapply keeps_trans; [|eapply keeps_trans]].
Qed.

Lemma response_inv h a raw msg from :
  (raw, from) ∈ h -> stun_decode raw = Ok msg -> class msg = SuccessResponse -> agent_inv h a ->
  agent_inv h (handle_binding_response a raw msg from) /\ keeps a (handle_binding_response a raw msg from).
Proof.
  intros Hh Hdec Hcl Hi. unfold handle_binding_response.
  destruct (is_ok _) eqn:Ev; cbn [negb]; [|split; [done|apply keeps_refl]].
  destruct (list_find _ _) as [[pos [tid idx]]|] eqn:Ef; [|split; [done|apply keeps_refl]].
  set (a1 := set_in_flight a _).
  assert (agent_inv h a1 /\ keeps a a1) as [Hi1 K1].
  { assert (keeps a a1) as K by by split. split; [|done]. apply (keeps_inv h a); try done; [|apply Hi].
    cbn. pose proof (ai_flight _ _ Hi) as Hf. rewrite list.Forall_forall in Hf |- *. intros e He.
    apply Hf. by eapply list_subseteq_delete. }
  destruct (check_list a1 !! idx) as [p|] eqn:Ep; [|done].
  destruct (to_addr from p) eqn:Et; cbn [negb]; [|done]. apply bool_decide_eq_true in Et.
  set (nom := _ && _).
  destruct (alter_inv h a1 (fun p => set_pair Succeeded (nominated p || nom) p) idx) as [Hi2 K2];
    [done|intros q ->; done|done|].
  set (a2 := set_list a1 _) in *. destruct nom eqn:Enom; [|by split; [|eapply keeps_trans]].
  destruct (nominate_inv h a2 idx (set_pair Succeeded (nominated p || true) p)) as [Hi3 K3]; try done.
  - cbn in Ep |- *. by rewrite list_lookup_alter_eq, Ep.
  - cbn. by rewrite orb_true_r.
  - cbn. rewrite Et. exists raw, msg. split; [done|]. split; [done|]. right. split; [done|by apply is_ok_unit].
  - destruct (send_check_spec h (set_nominated a2 (Some idx)) idx p true from (is_relay (cand_kind (pair_remote p))))
      as (Hi4 & K4 & _); [|done|].
    + cbn. rewrite length_alter. by eapply lookup_lt_Some.
    + split; [done|]. by eapply keeps_trans; [|eapply keeps_trans; [|eapply keeps_trans]].
Qed.

Lemma incoming_inv h a data from :
  (data, from) ∈ h -> agent_inv h a ->
  agent_inv h (handle_incoming a data from) /\ keeps a (handle_incoming a data from).
Proof.
  intros Hh Hi. unfold handle_incoming. destruct (stun_decode data) as [msg|] eqn:Edec; [|split; [done|apply keeps_refl]].
  destruct (class msg) eqn:Ecl; try (split; [done|apply keeps_refl]); [by apply request_inv|by apply response_inv].
Qed.

Lemma handle_all_inv h l a :
  l ⊆ h -> agent_inv h a ->
  let a' := fold_left (fun a d => handle_incoming a d.1 d.2) l a in agent_inv h a' /\ keeps a a'.
Proof.
  revert a. induction l as [|[data from] l IH]; intros a Hs Hi; cbn [fold_left]; [split; [done|apply keeps_refl]|].
  destruct (incoming_inv h a data from) as [Hi1 K1]; [apply Hs; left|done|].
  destruct (IH (handle_incoming a data from)) as [Hi2 K2]; [intros e He; apply Hs; by right|done|].
  split; [done|by eapply keeps_trans].
Qed.

Lemma drain_inv h a inbox :
  clip <$> inbox ⊆ h -> agent_inv h a ->
  agent_inv h (drain_transport_inbox a inbox) /\ keeps a (drain_transport_inbox a inbox).
Proof.
  intros Hs. apply handle_all_inv. intros d Hd. apply Hs. rewrite fmap_take in Hd.
  by eapply (sublist_subseteq _ _ (sublist_take _ _)).
Qed.

Lemma check_one_inv h a idx : agent_inv h a -> agent_inv h (check_one a idx) /\ keeps a (check_one a idx).
Proof.
  intros Hi. unfold check_one. destruct (check_list a !! idx) as [p|] eqn:Ep; [|split; [done|apply keeps_refl]].
  destruct (bool_decide (pair_state p = Waiting)) eqn:Ew; [|split; [done|apply keeps_refl]].
  apply bool_decide_eq_true in Ew.
  destruct (set_list_inv h a (alter (fun p => set_pair InProgress (nominated p) p) idx (check_list a))) as [Hi1 K1];
    [by rewrite fmap_alter_same| |done|].
  { intros i q _ Hq Hn Hs. exists q. destruct (decide (idx = i)) as [->|]; [|by rewrite list_lookup_alter_ne].
    congruence. }
  set (a1 := set_list a _) in *.
  destruct (send_check_spec h a1 idx p false (cand_addr (pair_remote p)) (is_relay (cand_kind (pair_remote p))))
    as (Hi2 & K2 & _); [|done|].
  - cbn. rewrite length_alter. by eapply lookup_lt_Some.
  - split; [done|by eapply keeps_trans].
Qed.

Lemma check_pairs_inv h a : agent_inv h a -> agent_inv h (fst (check_pairs a)) /\ keeps a (fst (check_pairs a)).
Proof.
  unfold check_pairs. destruct (bool_decide _); cbn [fst]; [intros Hi; split; [done|apply keeps_refl]|].
  generalize (seq 0 (length (check_list a))). intros l. revert a.
  induction l as [|idx l IH]; intros a Hi; cbn [fold_left]; [split; [done|apply keeps_refl]|].
  destruct (check_one_inv h a idx Hi) as [Hi1 K1]. destruct (IH _ Hi1) as [Hi2 K2].
  split; [done|by eapply keeps_trans].
Qed.

(** *** Building and extending the check list *)

Lemma sorted_fmap_priority l :
  StronglySorted (fun p q => - pair_priority p <= - pair_priority q) l -> StronglySorted Z.ge (pair_priority <$> l).
Proof.
  induction 1 as [|p l _ IH Hf]; [constructor|]. rewrite fmap_cons. constructor; [done|].
  apply Forall_fmap. eapply list.Forall_impl; [done|]. cbn. lia.
Qed.

Lemma by_priority_ok next id l :
  id <= next -> NoDup (pair_id <$> l) -> Forall (fun i => i < id) (pair_id <$> l) -> list_ok next (by_priority l).
Proof.
  intros Hle Hn Hb. assert (pair_id <$> by_priority l ≡ₚ pair_id <$> l) as Hp by (unfold by_priority; by rewrite sort_by_key_perm).
  split; [apply sorted_fmap_priority, sort_by_key_sorted|by rewrite Hp|].
  rewrite Hp. eapply list.Forall_impl; [done|]. cbn. lia.
Qed.

Lemma numbered_ok id l :
  0 <= id -> snd (number_pairs id l) < u64_max ->
  NoDup (pair_id <$> fst (number_pairs id l)) /\
  Forall (fun i => id <= i < snd (number_pairs id l)) (pair_id <$> fst (number_pairs id l)).
Proof.
  intros Hid Hmax. pose proof (number_pairs_spec id l) as Hs. destruct (number_pairs id l) as [ps id']. cbn [fst snd] in *.
  destruct (Hs Hid Hmax) as [-> ->]. split; [apply NoDup_seqZ|].
  apply list.Forall_forall. intros i Hi%elem_of_seqZ. lia.
Qed.

Lemma mark_ok n i l : list_ok n l -> list_ok n (mark_nominated i l).
Proof. apply list_ok_static. unfold mark_nominated. by rewrite fmap_alter_same. Qed.

Lemma mark_from a l i : from_candidates (set_list a l) -> from_candidates (set_list a (mark_nominated i l)).
Proof.
  apply from_candidates_static; [|done..]. cbn. unfold mark_nominated. by rewrite fmap_alter_same.
Qed.

(** The invariant of an agent whose list, nomination and transactions were all replaced. *)
Lemma set_checks_inv h a l i fl id :
  list_ok id l -> 0 <= id <= u64_max ->
  from_candidates (set_list a l) -> Forall (fun e => (e.2 < length l)%nat) fl ->
  (exists p, l !! i = Some p /\ authentic (ag_config a) h (cand_addr (pair_remote p))) ->
  agent_inv h (set_checks a (mark_nominated i l) (Some i) fl id).
Proof.
  intros Hl Hid Hc Hf (p & Hp & Ha). split; cbn; try done.
  - by apply mark_ok.
  - intros _. by apply mark_from.
  - unfold mark_nominated. by rewrite length_alter.
  - intros j [= <-]. exists (set_pair Succeeded true p). cbn. unfold mark_nominated.
    by rewrite list_lookup_alter_eq, Hp.
Qed.

Lemma set_checks_none_inv h a l fl id :
  list_ok id l -> 0 <= id <= u64_max ->
  from_candidates (set_list a l) -> Forall (fun e => (e.2 < length l)%nat) fl -> ag_state a <> Connected ->
  agent_inv h (set_checks a l None fl id).
Proof. intros Hl Hid Hc Hf Hs. split; cbn; try done. Qed.

Lemma same_key_iff p q :
  same_key p q = true <->
  cand_base (pair_local q) = cand_base (pair_local p) /\ cand_kind (pair_local q) = cand_kind (pair_local p) /\
  cand_addr (pair_remote q) = cand_addr (pair_remote p) /\ cand_kind (pair_remote q) = cand_kind (pair_remote p).
Proof. unfold same_key. rewrite !andb_true_iff, !bool_decide_eq_true. tauto. Qed.

Lemma rebuilt_from a id p :
  p ∈ by_priority (fst (number_pairs id (cross_pairs a))) ->
  pair_local p ∈ local_candidates a /\ pair_remote p ∈ remote_candidates a.
Proof.
  unfold by_priority. rewrite sort_by_key_perm. intros [i Hi]%list_elem_of_lookup.
  pose proof (number_pairs_same id (cross_pairs a)) as H2.
  destruct (Forall2_lookup_r _ _ _ _ _ H2 Hi) as (q & Hq & -> & ->).
  apply list_elem_of_lookup_2 in Hq. unfold cross_pairs in Hq.
  apply list_elem_of_bind in Hq as (local & (remote & -> & Hr)%list_elem_of_fmap & Hl). done.
Qed.

Lemma rebuilt_has a id local remote :
  local ∈ local_candidates a -> remote ∈ remote_candidates a ->
  exists p, p ∈ by_priority (fst (number_pairs id (cross_pairs a))) /\ pair_local p = local /\ pair_remote p = remote.
Proof.
  intros Hl Hr. set (q := pair_new 0 local remote (is_controlling a)).
  assert (q ∈ cross_pairs a) as [i Hi]%list_elem_of_lookup.
  { unfold cross_pairs. apply list_elem_of_bind. exists local. split; [|done]. apply list_elem_of_fmap. eauto. }
  pose proof (number_pairs_same id (cross_pairs a)) as H2.
  destruct (Forall2_lookup_l _ _ _ _ _ H2 Hi) as (p & Hp & E1 & E2). exists p. split; [|done].
  unfold by_priority. rewrite sort_by_key_perm. by eapply list_elem_of_lookup_2.
Qed.

Lemma rebuild_inv h a :
  agent_inv h a -> next_pair_id (rebuild_check_list a) < u64_max -> agent_inv h (rebuild_check_list a).
Proof.
  intros Hi. pose proof (ai_next _ _ Hi) as Hn.
  pose proof (number_pairs_ge (next_pair_id a) (cross_pairs a) (proj2 Hn)) as Hge.
  pose proof (numbered_ok (next_pair_id a) (cross_pairs a) (proj1 Hn)) as Hnum.
  pose proof (rebuilt_from a (next_pair_id a)) as Hfrom. pose proof (rebuilt_has a (next_pair_id a)) as Hhas.
  unfold rebuild_check_list. destruct (number_pairs (next_pair_id a) (cross_pairs a)) as [ps id]. cbn [fst snd] in *.
  intros Hmax. assert (id < u64_max) as Hid by (repeat case_match; done). destruct (Hnum Hid) as [Hnd Hb].
  assert (list_ok id (by_priority ps)) as Hok.
  { apply (by_priority_ok id id); [lia|done|]. eapply list.Forall_impl; [done|]. cbn. lia. }
  assert (from_candidates (set_list a (by_priority ps))) as Hc.
  { apply list.Forall_forall. intros p Hp. exact (Hfrom p Hp). }
  destruct (nominated_idx a) as [i|] eqn:En; cbn [mbind option_bind].
  - destruct (ai_nom _ _ Hi i En) as (p & Hp & _ & _ & Ha). rewrite Hp.
    destruct (position_of (same_key p) (by_priority ps)) as [j|] eqn:Ej.
    + destruct (position_of_Some _ _ _ Ej) as (q & Hq & (_ & _ & Er & _)%same_key_iff).
      apply set_checks_inv; try done; [lia|]. exists q. by rewrite Er.
    + apply set_checks_none_inv; try done; [lia|]. intros Hs.
      pose proof (ai_pairs _ _ Hi (or_intror Hs)) as Hcand. unfold from_candidates in Hcand.
      rewrite Forall_lookup in Hcand. destruct (Hcand i p Hp) as [H1 H2].
      destruct (Hhas _ _ H1 H2) as (q & Hq & Eq1 & Eq2).
      destruct (position_of_is_Some (same_key p) _ q Hq) as [k Hk]; [|congruence].
      apply same_key_iff. by rewrite Eq1, Eq2.
  - apply set_checks_none_inv; try done; [lia|]. intros Hs. by apply (ai_conn _ _ Hi Hs).
Qed.

Lemma has_id_unique n l i j p q :
  list_ok n l -> l !! i = Some p -> l !! j = Some q -> pair_id p = pair_id q -> i = j /\ p = q.
Proof.
  intros [_ Hn _] Hp Hq E.
  assert (i = j) as ->; [|split; congruence].
  apply (NoDup_lookup _ _ _ (pair_id p) Hn); rewrite list_lookup_fmap; [by rewrite Hp|by rewrite Hq, E].
Qed.

(** A pair of the list is found by its number. *)
Lemma position_of_id n l p :
  list_ok n l -> p ∈ l -> exists i, position_of (has_id (pair_id p)) l = Some i /\ l !! i = Some p.
Proof.
  intros Hok Hp. destruct (position_of_is_Some (has_id (pair_id p)) l p Hp) as [i Hi]; [apply Z.eqb_refl|].
  exists i. split; [done|]. destruct (position_of_Some _ _ _ Hi) as (q & Hq & E). apply Z.eqb_eq in E.
  apply list_elem_of_lookup in Hp as [j Hj]. by destruct (has_id_unique n l i j q p Hok Hq Hj E) as [_ <-].
Qed.

Lemma remap_valid l l' fl : Forall (fun e => (e.2 < length l')%nat) (remap l l' fl).
Proof.
  unfold remap. set (ids := omap _ fl). clearbody ids. induction ids as [|[tid id] ids IH]; [constructor|].
  cbn [omap list_omap]. destruct (position_of (has_id id) l') as [j|] eqn:E; cbn; [|done].
  constructor; [|done]. destruct (position_of_Some _ _ _ E) as (p & Hp & _). by eapply lookup_lt_Some.
Qed.

Lemma extended_list_ok next l new :
  0 <= next -> list_ok next l -> snd (number_pairs next new) < u64_max -> next <= snd (number_pairs next new) ->
  list_ok (snd (number_pairs next new)) (by_priority (l ++ fst (number_pairs next new))).
Proof.
  intros H0 [_ Hn Hb] Hmax Hge. destruct (numbered_ok next new H0 Hmax) as [Hn2 Hb2].
  apply (by_priority_ok _ (snd (number_pairs next new))); [lia|..]; rewrite fmap_app.
  - apply NoDup_app. split_and!; [done| |done]. intros x Hx Hx2.
    rewrite list.Forall_forall in Hb, Hb2. specialize (Hb x Hx). specialize (Hb2 x Hx2). lia.
  - apply Forall_app_2; (eapply list.Forall_impl; [done|]); cbn; lia.
Qed.

Definition new_pairs a (c : Candidate) : list CandidatePair :=
  (fun remote => pair_new 0 c remote (is_controlling a)) <$> remote_candidates a.

Lemma extended_from a c id :
  from_candidates a -> c ∈ local_candidates a ->
  from_candidates (set_list a (by_priority (check_list a ++ fst (number_pairs id (new_pairs a c))))).
Proof.
  intros Hc Hin. unfold from_candidates. cbn. unfold by_priority. rewrite sort_by_key_perm.
  apply Forall_app_2; [done|]. apply list.Forall_forall. intros p [i Hi]%list_elem_of_lookup.
  pose proof (number_pairs_same id (new_pairs a c)) as H2.
  destruct (Forall2_lookup_r _ _ _ _ _ H2 Hi) as (q & Hq & -> & ->).
  apply list_elem_of_lookup_2 in Hq. unfold new_pairs in Hq. by apply list_elem_of_fmap in Hq as (r & -> & Hr).
Qed.

Lemma extend_inv h a c :
  agent_inv h a -> c ∈ local_candidates a -> ag_state a = Checking \/ ag_state a = Connected ->
  next_pair_id (extend_check_list a c) < u64_max ->
  agent_inv h (extend_check_list a c) /\
  (forall p, nominated_pair a = Some p ->
     exists p', nominated_pair (extend_check_list a c) = Some p' /\ static p' = static p).
Proof.
  intros Hi Hin Hst. pose proof (ai_next _ _ Hi) as Hn.
  pose proof (number_pairs_ge (next_pair_id a) (new_pairs a c) (proj2 Hn)) as Hge.
  pose proof (extended_list_ok (next_pair_id a) (check_list a) (new_pairs a c) (proj1 Hn) (ai_list _ _ Hi)) as Hok.
  pose proof (extended_from a c (next_pair_id a) (ai_pairs _ _ Hi Hst) Hin) as Hc.
  unfold extend_check_list. fold (new_pairs a c).
  destruct (number_pairs (next_pair_id a) (new_pairs a c)) as [ps id]. cbn [fst snd] in *.
  set (l' := by_priority (check_list a ++ ps)) in *. set (fl := remap _ _ _).
  assert (Forall (fun e => (e.2 < length l')%nat) fl) as Hfl by apply remap_valid.
  intros Hmax. assert (id < u64_max) as Hid by (repeat case_match; done). specialize (Hok Hid (proj1 Hge)).
  unfold nominated_pair at 1. destruct (nominated_idx a) as [i|] eqn:En; cbn [mbind option_bind].
  - destruct (ai_nom _ _ Hi i En) as (p & Hp & _ & _ & Ha). rewrite Hp. cbn [fmap option_fmap option_map].
    destruct (position_of_id id l' p Hok) as (j & -> & Hj).
    { unfold l', by_priority. rewrite sort_by_key_perm. apply elem_of_app. left. by eapply list_elem_of_lookup_2. }
    split; [apply set_checks_inv; try done; [lia|eauto]|].
    intros q [= <-]. exists (set_pair Succeeded true p). cbn. unfold mark_nominated. by rewrite list_lookup_alter_eq, Hj.
  - split; [|done]. apply set_checks_none_inv; try done; [lia|]. intros Hs. by apply (ai_conn _ _ Hi Hs).
Qed.

Lemma rebuilt_nominated h a p :
  agent_inv h a -> ag_state a = Connected -> nominated_pair a = Some p ->
  exists p', nominated_pair (rebuild_check_list a) = Some p' /\ same_key p p' = true.
Proof.
  intros Hi Hs Hp. unfold nominated_pair in Hp. destruct (nominated_idx a) as [i|] eqn:En; [|done].
  cbn [mbind option_bind] in Hp. pose proof (ai_pairs _ _ Hi (or_intror Hs)) as Hcand.
  unfold from_candidates in Hcand. rewrite Forall_lookup in Hcand. destruct (Hcand i p Hp) as [H1 H2].
  destruct (rebuilt_has a (next_pair_id a) _ _ H1 H2) as (q & Hq & Eq1 & Eq2).
  unfold rebuild_check_list. destruct (number_pairs _ _) as [ps id]. cbn [fst] in Hq.
  rewrite En. cbn [mbind option_bind]. rewrite Hp.
  destruct (position_of_is_Some (same_key p) _ q Hq) as [k Hk]; [apply same_key_iff; by rewrite Eq1, Eq2|].
  rewrite Hk. destruct (position_of_Some _ _ _ Hk) as (p' & Hp' & Hkey).
  exists (set_pair Succeeded true p'). unfold nominated_pair. cbn. unfold mark_nominated.
  by rewrite list_lookup_alter_eq, Hp'.
Qed.

(** ** Operations and runs *)

Inductive ice_op :=
| OpGather
| OpRemote (c : Candidate)
| OpRelay (relay_addr base_addr : SocketAddr)
| OpStep (incoming : option datagram) (inbox1 inbox2 : list datagram) (now_secs : Z).

Definition ice_apply a (op : ice_op) : IceAgent R :=
  match op with
  | OpGather => fst (gather a)
  | OpRemote c => add_remote_candidate a c
  | OpRelay r b => fst (add_relay_candidate a r b)
  | OpStep inc i1 i2 now => fst (agent_step a inc i1 i2 now)
  end.

(** The datagrams handed to the agent. *)
Definition heard_in (op : ice_op) : list datagram :=
  match op with
  | OpStep inc i1 i2 _ => option_list inc ++ (clip <$> i1) ++ (clip <$> i2)
  | _ => []
  end.

Definition ice_run a (ops : list ice_op) : IceAgent R := fold_left ice_apply ops a.

(** Adding candidates keeps the invariant. *)
Lemma grow_inv h a locals remotes :
  local_candidates a ⊆ locals -> remote_candidates a ⊆ remotes -> agent_inv h a ->
  agent_inv h (set_candidates a locals remotes).
Proof.
  intros Hl Hr [H1 H2 H3 H4 H5 H6]. split; cbn; try done. intros Hs. specialize (H3 Hs).
  unfold from_candidates in *. cbn. eapply list.Forall_impl; [done|]. cbn. intros p [Hp1 Hp2]. auto.
Qed.

Lemma gather_inv h a : agent_inv h a -> agent_inv h (fst (gather a)).
Proof.
  intros [H1 H2 H3 H4 H5 H6]. unfold gather. destruct (bool_decide _); cbn [fst]; split; cbn; try done;
    try (intros [Hs|Hs]; done).
Qed.

Lemma add_remote_inv h a c :
  agent_inv h a -> next_pair_id (add_remote_candidate a c) < u64_max -> agent_inv h (add_remote_candidate a c).
Proof. intros Hi Hm. apply rebuild_inv; [|done]. apply grow_inv; [done|set_solver|done]. Qed.

Lemma add_relay_inv h a r b :
  agent_inv h a -> next_pair_id (fst (add_relay_candidate a r b)) < u64_max ->
  agent_inv h (fst (add_relay_candidate a r b)).
Proof.
  intros Hi. unfold add_relay_candidate. set (c := candidate_new _ _ _ _). set (a1 := set_candidates a _ _).
  assert (agent_inv h a1) as Hi1 by (apply grow_inv; [set_solver|done|done]).
  assert (c ∈ local_candidates a1) as Hin by (cbn; set_solver).
  destruct (ag_state a) eqn:Es; cbn [fst]; try done.
  all: destruct (bool_decide (remote_candidates a1 = [])); [done|].
  all: change (ag_state a1) with (ag_state a); rewrite Es; cbn [fst]; intros Hm.
  - by apply rebuild_inv.
  - apply extend_inv; try done. left. done.
  - apply extend_inv; try done. right. done.
Qed.

Lemma set_out_inv h a out snt : agent_inv h a -> agent_inv h (set_out a out snt).
Proof. intros [H1 H2 H3 H4 H5 H6]. by split. Qed.

(** The states that mean nothing for the check list. *)
Lemma set_state_inv h a s :
  (s = Checking -> from_candidates a) -> (s = Connected -> from_candidates a /\ nominated_idx a <> None) ->
  agent_inv h a -> agent_inv h (set_state a s).
Proof.
  intros Hs1 Hs2 [H1 H2 H3 H4 H5 H6]. split; cbn; try done.
  - intros [E|E]; [by apply Hs1|by apply Hs2].
  - intros E. by apply Hs2.
Qed.

Lemma rebuild_from a : from_candidates (rebuild_check_list a).
Proof.
  unfold rebuild_check_list. pose proof (rebuilt_from a (next_pair_id a)) as Hfrom.
  destruct (number_pairs (next_pair_id a) (cross_pairs a)) as [ps id]. cbn [fst] in *.
  assert (from_candidates (set_list a (by_priority ps))) as Hc.
  { apply list.Forall_forall. intros p Hp. exact (Hfrom p Hp). }
  destruct (_ ≫= _) as [p|]; [|done]. destruct (position_of _ _) as [i|]; [|done]. by apply (mark_from a).
Qed.

Lemma step_state_inv h a inbox now :
  clip <$> inbox ⊆ h -> agent_inv h a -> next_pair_id (fst (step_state a inbox now)) < u64_max ->
  agent_inv h (fst (step_state a inbox now)).
Proof.
  intros Hin Hi. unfold step_state. destruct (ag_state a) eqn:Es.
  - destruct (bool_decide _); [done|]. pose proof (gather_inv h a Hi) as Hg.
    destruct (gather a) as [a' r]. by intros _.
  - destruct (bool_decide _); [done|]. cbn [fst]. intros Hm.
    assert (agent_inv h (set_state (rebuild_check_list a) Checking)) as [H1 H2 H3 H4 H5 H6]; [|by split].
    apply set_state_inv; [intros _; apply rebuild_from|done|by apply rebuild_inv].
  - destruct (check_pairs_inv h a Hi) as [Hi1 K1]. destruct (drain_inv h _ inbox Hin Hi1) as [Hi2 K2].
    set (a2 := drain_transport_inbox _ _) in *.
    assert (from_candidates a2) as Hc.
    { apply (ai_pairs _ _ Hi2). left. by rewrite (k_state _ _ K2), (k_state _ _ K1). }
    destruct (match checking_started_us a2 with Some _ => _ | None => _ end); cbn [fst]; intros _.
    + by apply set_state_inv.
    + destruct (nominated_idx a2) eqn:En; cbn [fst]; [|done]. apply set_state_inv; [done| |done].
      by rewrite En.
  - done.
  - intros _. by apply set_state_inv.
  - intros _. cbn [fst]. destruct Hi as [_ H2 _ _ _ _]. split; cbn; try done; [by split; try constructor|..].
    intros _. constructor.
Qed.

(** The counter never goes back. *)
Definition counts a a' : Prop :=
  next_pair_id a <= u64_max -> next_pair_id a <= next_pair_id a' <= u64_max.

Lemma counts_trans a1 a2 a3 : counts a1 a2 -> counts a2 a3 -> counts a1 a3.
Proof. unfold counts. intros H1 H2 Hm. specialize (H1 Hm). specialize (H2 (proj2 H1)). lia. Qed.

Lemma next_send_check a idx p nom dest relay :
  next_pair_id (fst (send_check a idx p nom dest relay)) = next_pair_id a.
Proof.
  unfold send_check. destruct (generate_tid _) as [r tid]. destruct (build_binding_request _ _ _ _); [|done].
  by destruct relay.
Qed.

Lemma next_incoming a data from : next_pair_id (handle_incoming a data from) = next_pair_id a.
Proof.
  unfold handle_incoming. destruct (stun_decode data) as [msg|]; [|done]. destruct (class msg); try done.
  - unfold handle_binding_request. repeat (case_match; [done|]). case_match; [|done].
    match goal with |- context [succeed_open ?x _] => set (a1 := x) end.
    assert (next_pair_id a1 = next_pair_id a) as E1.
    { unfold a1, apply_nomination, route. repeat case_match; done. }
    unfold trigger_check. destruct (position_of _ _) as [i|]; [|done]. destruct (check_list _ !! i) as [p|]; [|done].
    set (nom := _ && _). pose proof (next_send_check (succeed_open a1 from) i p nom from (is_relay (cand_kind (pair_remote p)))) as E2.
    destruct (send_check _ _ _ _ _ _) as [a2 w]. cbn [fst] in E2. by destruct (w && nom); cbn; rewrite E2.
  - unfold handle_binding_response. repeat case_match; try done. by rewrite next_send_check.
Qed.

Lemma next_fold {B} (f : IceAgent R -> B -> IceAgent R) l a :
  (forall a b, next_pair_id (f a b) = next_pair_id a) -> next_pair_id (fold_left f l a) = next_pair_id a.
Proof. intros Hf. revert a. induction l as [|b l IH]; intros a; cbn [fold_left]; [done|]. by rewrite IH, Hf. Qed.

Lemma next_drain a inbox : next_pair_id (drain_transport_inbox a inbox) = next_pair_id a.
Proof. apply next_fold. intros. apply next_incoming. Qed.

Lemma next_check_pairs a : next_pair_id (fst (check_pairs a)) = next_pair_id a.
Proof.
  unfold check_pairs. case_match; [done|]. apply next_fold. intros a' i. unfold check_one.
  destruct (check_list a' !! i); [|done]. case_match; [|done]. by rewrite next_send_check.
Qed.

Lemma rebuild_counts a : counts a (rebuild_check_list a).
Proof.
  intros Hm. pose proof (number_pairs_ge (next_pair_id a) (cross_pairs a) Hm) as Hge. unfold rebuild_check_list.
  destruct (number_pairs _ _) as [ps id]. repeat case_match; done.
Qed.

Lemma extend_counts a c : counts a (extend_check_list a c).
Proof.
  intros Hm. pose proof (number_pairs_ge (next_pair_id a) (new_pairs a c) Hm) as Hge.
  unfold extend_check_list. fold (new_pairs a c). destruct (number_pairs _ _) as [ps id]. repeat case_match; done.
Qed.

Lemma step_state_counts a inbox now : counts a (fst (step_state a inbox now)).
Proof.
  unfold step_state. destruct (ag_state a).
  - unfold gather. repeat case_match; simplify_eq; by intros ?.
  - case_match; [by intros ?|]. apply rebuild_counts.
  - intros Hm. cbv zeta. repeat case_match; cbn [fst set_state next_pair_id];
      rewrite next_drain, next_check_pairs; lia.
  - by intros ?.
  - by intros ?.
  - by intros ?.
Qed.

Lemma ice_apply_counts a op : counts a (ice_apply a op).
Proof.
  destruct op as [|c|r b|inc i1 i2 now]; cbn [ice_apply].
  - unfold gather. case_match; by intros ?.
  - apply (rebuild_counts (set_candidates a _ _)).
  - unfold add_relay_candidate. set (a1 := set_candidates a _ _).
    repeat case_match; cbn [fst]; try (by intros ?);
      first [apply (rebuild_counts a1)|apply (extend_counts a1)].
  - unfold agent_step. match goal with |- context [drain_transport_inbox ?x i1] => set (a1 := x) end.
    assert (next_pair_id a1 = next_pair_id a) as E1 by (unfold a1; repeat case_match; [apply next_incoming|done]).
    intros Hm. set (a2 := set_out _ _ _).
    assert (next_pair_id a2 = next_pair_id a) as E2 by (unfold a2; cbn; by rewrite next_drain).
    pose proof (step_state_counts a2 i2 now) as Hc. unfold counts in Hc. rewrite E2 in Hc. specialize (Hc Hm).
    destruct (step_state a2 i2 now) as [a3 [|]]; done.
Qed.

Lemma ice_apply_inv h a op :
  agent_inv h a -> next_pair_id (ice_apply a op) < u64_max -> agent_inv (h ++ heard_in op) (ice_apply a op).
Proof.
  intros Hi. apply (agent_inv_mono h (h ++ heard_in op)) in Hi; [|set_solver].
  destruct op as [|c|r b|inc i1 i2 now]; cbn [ice_apply].
  - intros _. by apply gather_inv.
  - by apply add_remote_inv.
  - by apply add_relay_inv.
  - set (h' := h ++ _) in *. unfold agent_step. match goal with |- context [drain_transport_inbox ?x i1] => set (a1 := x) end.
    assert (agent_inv h' a1) as Hi1.
    { unfold a1. destruct inc as [[data from]|]; [|done]. apply incoming_inv; [|done].
      unfold h'. cbn. set_solver. }
    destruct (drain_inv h' a1 i1) as [Hi2 _]; [unfold h'; cbn; set_solver|done|].
    apply (set_out_inv h' _ [] (sent (drain_transport_inbox a1 i1))) in Hi2.
    pose proof (step_state_inv h' _ i2 now ltac:(unfold h'; cbn; set_solver) Hi2) as Hs.
    destruct (step_state _ i2 now) as [a3 [|]]; cbn [fst] in *; [|done].
    intros Hm. by apply set_out_inv, Hs.
Qed.

Definition heard_all (ops : list ice_op) : list datagram := ops ≫= heard_in.

Lemma ice_run_counts a ops : counts a (ice_run a ops).
Proof.
  revert a. induction ops as [|op ops IH]; intros a; cbn; [by intros ?|].
  eapply counts_trans; [apply ice_apply_counts|apply IH].
Qed.

Lemma ice_run_inv h a ops :
  agent_inv h a -> next_pair_id (ice_run a ops) < u64_max -> agent_inv (h ++ heard_all ops) (ice_run a ops).
Proof.
  revert h a. induction ops as [|op ops IH]; intros h a Hi Hm; cbn; [by rewrite app_nil_r|].
  pose proof (ice_apply_counts a op (proj2 (ai_next _ _ Hi))) as H1.
  pose proof (ice_run_counts (ice_apply a op) ops (proj2 H1)) as H2. cbn in Hm. unfold ice_run in H2.
  rewrite app_assoc. apply IH; [|done]. apply ice_apply_inv; [done|lia].
Qed.

(** ** The nominated path *)

(** Transactions in flight with the number of the pair each one checks. *)
Definition flights a : list (bytes * option Z) :=
  (fun e => (e.1, pair_id <$> check_list a !! e.2)) <$> in_flight a.

Lemma remap_flights n (l l' : list CandidatePair) fl :
  list_ok n l' -> (forall p, p ∈ l -> p ∈ l') -> Forall (fun e => (e.2 < length l)%nat) fl ->
  (fun e => (e.1, pair_id <$> l' !! e.2)) <$> remap l l' fl = (fun e => (e.1, pair_id <$> l !! e.2)) <$> fl.
Proof.
  intros Hok Hsub Hf. unfold remap. induction Hf as [|[tid i] fl Hi _ IH]; [done|]. cbn [snd] in Hi.
  destruct (lookup_lt_is_Some_2 _ _ Hi) as [p Hp].
  destruct (position_of_id n l' p Hok) as (j & Ej & Hj); [by apply Hsub; eapply list_elem_of_lookup_2|].
  rewrite fmap_cons. cbn [omap list_omap fst snd]. rewrite Hp. cbn [mbind option_bind omap list_omap].
  rewrite Ej. cbn [mbind option_bind]. rewrite fmap_cons. cbn [fst snd]. rewrite Hj. f_equal. exact IH.
Qed.

Lemma extend_flights h a c :
  agent_inv h a -> next_pair_id (extend_check_list a c) < u64_max -> flights (extend_check_list a c) = flights a.
Proof.
  intros Hi. pose proof (ai_next _ _ Hi) as Hn.
  pose proof (number_pairs_ge (next_pair_id a) (new_pairs a c) (proj2 Hn)) as Hge.
  pose proof (extended_list_ok (next_pair_id a) (check_list a) (new_pairs a c) (proj1 Hn) (ai_list _ _ Hi)) as Hok.
  unfold extend_check_list. fold (new_pairs a c).
  destruct (number_pairs (next_pair_id a) (new_pairs a c)) as [ps id]. cbn [fst snd] in *.
  set (l' := by_priority (check_list a ++ ps)) in *. intros Hmax.
  assert (id < u64_max) as Hid by (repeat case_match; done). specialize (Hok Hid (proj1 Hge)).
  assert (flights (set_checks a l' None (remap (check_list a) l' (in_flight a)) id) = flights a) as E.
  { eapply remap_flights; [done| |apply Hi]. intros p Hp. unfold l', by_priority. rewrite sort_by_key_perm. set_solver. }
  assert (forall i nom, flights (set_checks a (mark_nominated i l') nom (remap (check_list a) l' (in_flight a)) id) = flights a) as E'.
  { intros i nom. rewrite <- E. unfold flights. cbn. apply list_fmap_ext. intros k e _. f_equal. unfold mark_nominated.
    rewrite <- !list_lookup_fmap. by rewrite fmap_alter_same. }
  repeat case_match; by rewrite ?E'.
Qed.

Lemma rebuild_state a : ag_state (rebuild_check_list a) = ag_state a.
Proof. unfold rebuild_check_list. repeat case_match; done. Qed.

Lemma extend_state a c : ag_state (extend_check_list a c) = ag_state a.
Proof. unfold extend_check_list. repeat case_match; done. Qed.

(** C13. Whatever datagrams an agent is handed and in whatever order its operations are called
    (fewer than 2^64 - 1 pairs made): a connected agent has a nominated pair, and a pair is
    nominated only if a datagram that came from exactly its remote address was a STUN binding
    request with a MESSAGE-INTEGRITY valid under the local ICE password and a USERNAME the agent
    accepts, or a success response valid under the remote ICE password.  The nominated pair is
    marked succeeded; that mark is part of the nomination and does not say that this very pair
    was checked: it is messages from its remote address that were authenticated. *)
Theorem ice_nomination_authenticated cfg r ops :
  let a := ice_run (agent_new cfg r) ops in
  next_pair_id a < u64_max ->
  (ag_state a = Connected -> is_Some (nominated_pair a)) /\
  forall p, nominated_pair a = Some p ->
    nominated p = true /\ pair_state p = Succeeded /\
    exists data msg, (data, cand_addr (pair_remote p)) ∈ heard_all ops /\ stun_decode data = Ok msg /\
      (class msg = Request /\ verify_integrity data (local_pwd (ag_config a)) = Ok tt /\
         username_valid (ag_config a) (attributes msg) = true \/
       class msg = SuccessResponse /\ verify_integrity data (remote_pwd (ag_config a)) = Ok tt).
Proof.
  intros a Hm. pose proof (ice_run_inv [] (agent_new cfg r) ops (agent_inv_new cfg r []) Hm) as Hi.
  cbn [app] in Hi. fold a in Hi. unfold nominated_pair. split.
  - intros Hs. pose proof (ai_conn _ _ Hi Hs) as Hn. destruct (nominated_idx a) as [i|] eqn:En; [|done].
    destruct (ai_nom _ _ Hi i En) as (p & Hp & _). cbn. rewrite Hp. eauto.
  - intros p. destruct (nominated_idx a) as [i|] eqn:En; cbn [mbind option_bind]; [|done]. intros Hp.
    destruct (ai_nom _ _ Hi i En) as (q & Hq & Hnom & Hst & Ha). rewrite Hp in Hq. by injection Hq as <-.
Qed.

(** Trickling candidates in does not tear a connection down: from any reachable connected
    agent, a new remote or relay candidate leaves it connected, its nominated pair still
    between the same local base and the same remote address, the check list in descending
    order of priority with unique pair numbers; a relay candidate even keeps the very pair, and
    every transaction in flight still belongs to the pair it was sent for. *)
Lemma ice_path_survives_trickle cfg r ops op p :
  let a := ice_run (agent_new cfg r) ops in
  let a' := ice_apply a op in
  next_pair_id a' < u64_max -> ag_state a = Connected -> nominated_pair a = Some p ->
  (exists c, op = OpRemote c) \/ (exists ra ba, op = OpRelay ra ba) ->
  ag_state a' = Connected /\
  (exists p', nominated_pair a' = Some p' /\ same_key p p' = true /\
     ((exists ra ba, op = OpRelay ra ba) -> static p' = static p /\ flights a' = flights a)) /\
  StronglySorted Z.ge (pair_priority <$> check_list a') /\ NoDup (pair_id <$> check_list a').
Proof.
  intros a a' Hm Hs Hp Hop.
  pose proof (ice_run_counts (agent_new cfg r) ops ltac:(by vm_compute)) as Hc.
  pose proof (ice_apply_counts a op (proj2 Hc)) as Hc'. fold a a' in Hc, Hc'.
  assert (next_pair_id a < u64_max) as Hma by lia.
  pose proof (ice_run_inv [] (agent_new cfg r) ops (agent_inv_new cfg r []) Hma) as Hi. fold a in Hi. cbn [app] in Hi.
  pose proof (ice_apply_inv _ a op Hi Hm) as Hi'. fold a' in Hi'.
  assert (same_key p p = true) as Hkk by by apply same_key_iff.
  split_and!; try apply (ai_list _ _ Hi').
  - destruct Hop as [[c ->]|(ra & ba & ->)]; unfold a'; cbn.
    + unfold add_remote_candidate. by rewrite rebuild_state.
    + unfold add_relay_candidate. rewrite Hs. case_match; [done|].
      cbn [set_candidates ag_state]. rewrite Hs. cbn [fst]. by rewrite extend_state.
  - destruct Hop as [[c ->]|(ra & ba & ->)].
    + destruct (rebuilt_nominated (heard_all ops) (set_candidates a (local_candidates a) (remote_candidates a ++ [c])) p) as (p' & E & Hk);
        [apply grow_inv; [done|set_solver|done]|done|done|]. exists p'. split_and!; try done. by intros (? & ? & ?).
    + unfold a' in *. cbn in Hm |- *. unfold add_relay_candidate in *. rewrite Hs in *.
      set (c := candidate_new _ _ _ _) in *. set (a1 := set_candidates a _ _) in *.
      assert (agent_inv (heard_all ops) a1) as Hi1 by (apply grow_inv; [set_solver|done|done]).
      destruct (bool_decide (remote_candidates a1 = [])); cbn [fst] in *.
      * exists p. done.
      * change (ag_state a1) with (ag_state a) in *. rewrite Hs in *. cbn [fst] in *.
        destruct (extend_inv (heard_all ops) a1 c Hi1) as [_ Hn]; [cbn; set_solver|by right|done|].
        destruct (Hn p Hp) as (p' & E & Est). exists p'. split_and!; [done| |intros _; split; [done|]].
        -- unfold static in Est. injection Est as _ E1 E2 _. apply same_key_iff. by rewrite E1, E2.
        -- exact (extend_flights (heard_all ops) a1 c Hi1 Hm).
Qed.

End Safety.

(** ** At a concrete agent: the controlled side of an exchange *)

#[export] Instance toy_rng : Rng nat := fun n => (S n, to_be 12 (Z.of_nat n)).

#[local] Existing Instance toy_stun_prims.

Definition toy_config (r : IceRole) (addr : SocketAddr) (pwd peer_pwd : bytes) : IceConfig :=
  {| stun_servers := []; turn_servers := []; local_addrs := [addr]; role := r; tie_breaker := 7;
     local_ufrag := lit "uf"; local_pwd := pwd; remote_ufrag := lit "uf"; remote_pwd := peer_pwd |}.

Definition toy_x : SocketAddr := V4 [10; 0; 0; 1] 4000.
Definition toy_y : SocketAddr := V4 [10; 0; 0; 2] 4000.
Definition toy_controlling : IceConfig := toy_config Controlling toy_x (lit "pa") (lit "pb").
Definition toy_controlled : IceConfig := toy_config Controlled toy_y (lit "pb") (lit "pa").

Definition toy_nomination : bytes :=
  default [] (ok (build_binding_request (to_be 12 9) toy_controlling 5 true)).

Definition toy_ops : list ice_op :=
  [OpGather; OpRemote (candidate_new Host toy_x toy_x 1); OpStep None [] [] 100;
   OpStep (Some (toy_nomination, toy_x)) [] [] 101].

Lemma ice_nomination_authenticated_witness :
  exists p, nominated_pair (ice_run (agent_new toy_controlled 3%nat) toy_ops) = Some p /\ pair_state p = Succeeded.
Proof.
  assert (next_pair_id (ice_run (agent_new toy_controlled 3%nat) toy_ops) < u64_max) as Hm by (by vm_compute).
  assert (ag_state (ice_run (agent_new toy_controlled 3%nat) toy_ops) = Connected) as Hs by (by vm_compute).
  destruct (ice_nomination_authenticated toy_controlled 3%nat toy_ops Hm) as [H1 H2].
  destruct (H1 Hs) as [p Hp]. exists p. split; [exact Hp|]. exact (proj1 (proj2 (H2 p Hp))).
Defined.

Lemma ice_path_survives_trickle_witness :
  ag_state (ice_apply (ice_run (agent_new toy_controlled 3%nat) toy_ops) (OpRelay toy_x toy_y)) = Connected.
Proof.
  assert (next_pair_id (ice_apply (ice_run (agent_new toy_controlled 3%nat) toy_ops) (OpRelay toy_x toy_y)) < u64_max) as Hm
    by (by vm_compute).
  assert (ag_state (ice_run (agent_new toy_controlled 3%nat) toy_ops) = Connected) as Hs by (by vm_compute).
  assert (exists p, nominated_pair (ice_run (agent_new toy_controlled 3%nat) toy_ops) = Some p) as [p Hp]
    by (eexists; vm_compute; reflexivity).
  exact (proj1 (ice_path_survives_trickle toy_controlled 3%nat toy_ops (OpRelay toy_x toy_y) p Hm Hs Hp
    (or_intror (ex_intro _ toy_x (ex_intro _ toy_y eq_refl))))).
Defined.
