(* ===== verification/IceConnect.v ===== *)
(** * Two ICE agents that know each other (crates/sh-ice/src/agent.rs)

    What honest agents make of each other's datagrams: the check, its answer and the
    nomination, up to both sides being connected; and the two ways the agent's handling of a
    request departs from what its comments promise. *)

From stdpp Require Import base numbers list option strings.
From S2P Require Import Prelude Utf8 Stun StunWire Candidate IceAgent IceSafety.

(** ** What honest requests carry *)

(** ICE user fragments are ASCII and have no colon. *)
Definition ufrag_ok (u : bytes) : Prop := Forall (fun b => 0 <= b < 128 /\ b <> 58) u /\ blen u <= 256.

Definition config_ok (c : IceConfig) : Prop :=
  ufrag_ok (local_ufrag c) /\ ufrag_ok (remote_ufrag c) /\ is_u64 (tie_breaker c).

(** Each side's remote credentials are the other side's local ones. *)
Definition peers (c d : IceConfig) : Prop :=
  remote_pwd c = local_pwd d /\ remote_pwd d = local_pwd c /\
  remote_ufrag c = local_ufrag d /\ remote_ufrag d = local_ufrag c.

Definition check_message (tid : bytes) (cfg : IceConfig) (prio : Z) (nominate : bool) : StunMessage :=
  {| class := Request; method := Binding; transaction_id := tid;
     attributes :=
       [Username (remote_ufrag cfg ++ lit ":" ++ local_ufrag cfg); Stun.Priority prio;
        match role cfg with
        | Controlling => IceControlling (tie_breaker cfg)
        | Controlled => IceControlled (tie_breaker cfg)
        end] ++ (if nominate then [UseCandidate] else []) |}.

Lemma username_ascii u v : ufrag_ok u -> ufrag_ok v -> Forall (fun b => 0 <= b < 128) (u ++ lit ":" ++ v).
Proof.
  intros [Hu _] [Hv _]. apply Forall_app_2; [|apply Forall_app_2].
  - eapply list.Forall_impl; [done|]. by intros ? [].
  - repeat constructor; done.
  - eapply list.Forall_impl; [done|]. by intros ? [].
Qed.

Lemma after_colon_username u v : ufrag_ok u -> after_colon (u ++ lit ":" ++ v) = Some v.
Proof.
  intros [Hu _]. induction Hu as [|b u [_ Hb] _ IH]; [done|]. cbn [app after_colon].
  by rewrite (proj2 (Z.eqb_neq _ _)).
Qed.

Lemma check_message_ok tid cfg prio nom :
  tid_wf tid -> config_ok cfg -> is_u32 prio -> unprotected (check_message tid cfg prio nom).
Proof.
  intros Ht (Hl & Hr & Htb) Hp.
  pose proof (username_ascii _ _ Hr Hl) as Hasc.
  assert (utf8_valid (remote_ufrag cfg ++ lit ":" ++ local_ufrag cfg) = true) as Hutf.
  { apply utf8_valid_Some. eexists. by apply utf8_decode_ascii. }
  assert (bytes_ok (remote_ufrag cfg ++ lit ":" ++ local_ufrag cfg)) as Hok.
  { eapply list.Forall_impl; [exact Hasc|]. cbn. unfold is_u8. lia. }
  assert (blen (encode_attributes (attributes (check_message tid cfg prio nom)) tid) + 32 <= u16_max) as Hlen.
  { rewrite encode_attributes_eq. cbn [check_message attributes]. rewrite map_app, concat_app, blen_app.
    cbn [map concat]. rewrite !blen_app. unfold attr_tlv. cbn [attr_type_of attr_value]. rewrite !blen_tlv.
    pose proof (padded_range (blen (remote_ufrag cfg ++ lit ":" ++ local_ufrag cfg))) as Hpad.
    rewrite !blen_app in Hpad |- *. change (blen (lit ":")) with 1 in *.
    destruct Hl as [_ Hl], Hr as [_ Hr]. rewrite !blen_to_be.
    change (padded (Z.of_nat 4)) with 4. change (blen []) with 0.
    assert (forall r x y, 4 + padded (blen (attr_value (match r with Controlling => IceControlling x | Controlled => IceControlled y end) tid)) = 12) as Hrole.
    { by intros [] x y. }
    destruct (role cfg), nom; cbn [map concat attr_type_of attr_value app] in *; rewrite ?blen_to_be;
      change (padded (Z.of_nat 8)) with 8; rewrite ?blen_app, ?blen_tlv; change (padded (blen [])) with 0;
      change (blen []) with 0; unfold u16_max; lia. }
  split_and!; [split; [done| |]|..].
  - cbn [attributes check_message]. apply Forall_app_2.
    + repeat apply Forall_cons_2; [done|done|by destruct (role cfg)|constructor].
    + destruct nom; repeat constructor.
  - cbn [transaction_id check_message]. lia.
  - cbn [attributes check_message]. apply Forall_app_2.
    + repeat apply Forall_cons_2; [done|done|by destruct (role cfg)|constructor].
    + destruct nom; repeat constructor; done.
  - done.
Qed.

(** ** A request and its answer *)

Section Honest.
Context {R : Type} `{!Rng R} `{HP : !StunPrims} `{!StunLaws}.
Implicit Types a : IceAgent R.

Lemma honest_request tid cfg prio nom :
  tid_wf tid -> config_ok cfg -> is_u32 prio ->
  exists out mac, build_binding_request tid cfg prio nom = Ok out /\
    stun_decode out = Ok (with_attrs (check_message tid cfg prio nom) [MessageIntegrity mac]) /\
    verify_integrity out (remote_pwd cfg) = Ok tt.
Proof.
  intros Ht Hc Hp.
  destruct (protected_roundtrip (check_message tid cfg prio nom) (remote_pwd cfg)) as (mac & _ & out & _ & H1 & H2 & H3 & _);
    [by apply check_message_ok|]. by exists out, mac.
Qed.

Definition answer_message (tid : bytes) (from : SocketAddr) : StunMessage :=
  {| class := SuccessResponse; method := Binding; transaction_id := tid; attributes := [XorMappedAddress from] |}.

Lemma honest_answer tid from key :
  tid_wf tid -> addr_wf from ->
  exists out mac, encode_with_integrity (answer_message tid from) key = Ok out /\
    stun_decode out = Ok (with_attrs (answer_message tid from) [MessageIntegrity mac]) /\
    verify_integrity out key = Ok tt.
Proof.
  intros Ht Ha.
  assert (blen (encode_attributes [XorMappedAddress from] tid) + 32 <= u16_max) as Hl.
  { rewrite encode_attributes_eq. cbn [map concat]. rewrite app_nil_r. unfold attr_tlv.
    rewrite blen_tlv. pose proof (padded_range (blen (attr_value (XorMappedAddress from) tid))) as Hpad.
    assert (blen (attr_value (XorMappedAddress from) tid) <= 20) as H20; [|unfold u16_max; lia].
    destruct from as [ip p|ip p f s]; cbn [attr_value encode_xor_mapped_address addr_wf] in *;
      rewrite !blen_app, ?blen_to_be; unfold blen in *; rewrite ?length_zip_with; cbn [length]; lia. }
  assert (unprotected (answer_message tid from)) as Hu.
  { split_and!; [split; [done|by apply Forall_singleton|]|by apply Forall_singleton|done].
    cbn [attributes transaction_id answer_message]. lia. }
  destruct (protected_roundtrip _ key Hu) as (mac & _ & out & _ & H1 & H2 & H3 & _). by exists out, mac.
Qed.

(** The test an agent applies to the user name of a request from its peer: the peer puts its
    own fragment behind the colon. *)
Lemma peer_username_valid c d tid prio nom extra :
  config_ok c -> config_ok d -> peers c d -> Forall (fun x => attr_type_of x <> 0x0006) extra ->
  username_valid d (attributes (with_attrs (check_message tid c prio nom) extra)) =
  bool_decide (local_ufrag c = local_ufrag d).
Proof.
  intros Hc Hd (_ & _ & Hr & _) He. unfold username_valid. cbn [attributes with_attrs check_message].
  rewrite <- app_assoc. cbn [app existsb]. rewrite after_colon_username by apply Hc.
  assert (forall l, Forall (fun x => attr_type_of x <> 0x0006) l ->
    existsb (fun at_ => match at_ with
      | Username u => bool_decide (after_colon u = Some (local_ufrag d)) | _ => false end) l = false) as Hno.
  { induction 1 as [|x l Hx _ IH]; [done|]. cbn [existsb]. rewrite IH. by destruct x. }
  assert (Forall (fun x => attr_type_of x <> 0x0006) ((if nom then [UseCandidate] else []) ++ extra)) as Hf.
  { apply Forall_app_2; [|done]. destruct nom; repeat constructor; done. }
  destruct (role c); cbn [orb]; rewrite (Hno _ Hf), orb_false_r; apply bool_decide_ext;
    (split; [by intros [=]|by intros ->]).
Qed.

(** RFC 8445 has the receiver's fragment before the colon and the sender's behind it, and
    that is how requests are built; the handler compares the part behind the colon with its own
    fragment.  Agents whose fragments differ therefore drop every check of the other side. *)
Lemma distinct_ufrags_dropped cfg a tid prio nom out from :
  config_ok cfg -> config_ok (ag_config a) -> peers cfg (ag_config a) ->
  local_ufrag cfg <> local_ufrag (ag_config a) -> tid_wf tid -> is_u32 prio ->
  build_binding_request tid cfg prio nom = Ok out -> handle_incoming a out from = a.
Proof.
  intros Hc Hd Hp Hne Ht Hpr Hb. destruct (honest_request tid cfg prio nom Ht Hc Hpr) as (o & mac & H1 & H2 & H3).
  assert (o = out) as -> by congruence. unfold handle_incoming. rewrite H2. cbn [class with_attrs check_message].
  unfold handle_binding_request. destruct Hp as (Hpw & Hrest). rewrite <- Hpw, H3. cbn [is_ok negb].
  rewrite (peer_username_valid cfg); [|done|done|done|by apply Forall_singleton].
  by rewrite bool_decide_eq_false_2.
Qed.

End Honest.

(** ** The exchange that connects them *)

Section Exchange.
Context {R : Type} `{!Rng R} `{HP : !StunPrims} `{!StunLaws}.
Implicit Types a : IceAgent R.

Definition host (x : SocketAddr) : Candidate := candidate_new Host x x 1.

(** An agent with one pair, from [x] to [y], checking since [started]. *)
Definition solo cfg (r : R) x y (st : PairState) (nom : bool) (id : Z) started fl snt : IceAgent R :=
  {| ag_config := cfg; ag_rng := r; ag_state := Checking;
     local_candidates := [host x]; remote_candidates := [host y];
     check_list := [set_pair st nom (pair_new id (host x) (host y) (bool_decide (role cfg = Controlling)))];
     nominated_idx := if nom then Some 0%nat else None; checking_started_us := Some started;
     outgoing := []; in_flight := fl; next_pair_id := id + 1; sent := snt |}.

(** Gathering, the peer's candidate, and the step that starts checking. *)
Definition set_up (y : SocketAddr) (t : Z) : list ice_op := [OpGather; OpRemote (host y); OpStep None [] [] t].

Lemma set_up_solo cfg r x y t :
  local_addrs cfg = [x] ->
  ice_run (agent_new cfg r) (set_up y t) = solo cfg r x y Waiting false 1 (now_us t) [] [].
Proof. destruct cfg as [ss ts la ro tb lu lp ru rp]. cbn. intros ->. reflexivity. Qed.

Lemma no_timeout s t : s <= t <= s + 5 -> (CHECK_TIMEOUT_US <? i64_sat_sub (now_us t) (now_us s)) = false.
Proof. intros Hst. apply Z.ltb_ge. unfold CHECK_TIMEOUT_US, i64_sat_sub, now_us, i64_clamp, i64_min, i64_max. lia. Qed.

Definition connected_if (nom : bool) a : IceAgent R := if nom then set_state a Connected else a.

Lemma check_pairs_solo cfg r x y st nom id s fl snt :
  st <> Waiting -> fst (check_pairs (solo cfg r x y st nom id s fl snt)) = solo cfg r x y st nom id s fl snt.
Proof. intros Hst. unfold check_pairs. cbn. unfold check_one. cbn. by destruct st. Qed.

Lemma check_pairs_first cfg r x y id s fl snt out :
  let '(r', tid) := generate_tid r in
  build_binding_request tid cfg (cand_priority (host x)) false = Ok out ->
  fst (check_pairs (solo cfg r x y Waiting false id s fl snt)) =
  solo cfg r' x y InProgress false id s (fl ++ [(tid, 0%nat)]) (snt ++ [(out, y)]).
Proof.
  destruct (generate_tid r) as [r' tid] eqn:Er. intros Hb. unfold check_pairs. cbn -[check_one].
  unfold check_one. cbn -[send_check]. unfold send_check. cbn -[build_binding_request generate_tid host].
  rewrite Er. cbn -[build_binding_request host]. by rewrite Hb.
Qed.

(** A step that hears nothing while it checks. *)
Lemma step_checks a a' (nom : bool) s t :
  s <= t <= s + 5 -> ag_state a = Checking -> fst (check_pairs a) = a' ->
  nominated_idx a' = (if nom then Some 0%nat else None) -> checking_started_us a' = Some (now_us s) ->
  step_state a [] t = (connected_if nom a', Ok tt).
Proof.
  intros Ht Hs Hc Hn Hst. unfold step_state. rewrite Hs, Hc. unfold drain_transport_inbox.
  change (take (Z.to_nat 64) (@nil datagram)) with (@nil datagram). cbn [fmap list_fmap fold_left].
  rewrite Hst, no_timeout, Hn by done. by destruct nom.
Qed.

Lemma step_solo a (inc : option datagram) cfg r x y st nom id s t fl snt (nom' : bool) r' st' fl' snt' :
  s <= t <= s + 5 ->
  match inc with Some (data, from) => handle_incoming a data from | None => a end =
    solo cfg r x y st nom id (now_us s) fl snt ->
  fst (check_pairs (solo cfg r x y st nom id (now_us s) fl snt)) = solo cfg r' x y st' nom' id (now_us s) fl' snt' ->
  ice_apply a (OpStep inc [] [] t) = connected_if nom' (solo cfg r' x y st' nom' id (now_us s) fl' snt').
Proof.
  intros Ht Hi Hc. cbn [ice_apply]. unfold agent_step. rewrite Hi.
  change (drain_transport_inbox (solo cfg r x y st nom id (now_us s) fl snt) []) with (solo cfg r x y st nom id (now_us s) fl snt).
  change (set_out (solo cfg r x y st nom id (now_us s) fl snt) [] (sent (solo cfg r x y st nom id (now_us s) fl snt)))
    with (solo cfg r x y st nom id (now_us s) fl snt).
  erewrite (step_checks _ _ nom'); [|exact Ht|reflexivity|exact Hc|reflexivity|reflexivity]. by destruct nom'.
Qed.

(** *** The four datagrams *)

Lemma position_of_one P p : position_of P [p] = if P p then Some 0%nat else None.
Proof. unfold position_of. cbn. case_decide as E; by destruct (P p). Qed.

Lemma to_addr_solo y st nom id x b : to_addr y (set_pair st nom (pair_new id (host x) (host y) b)) = true.
Proof. by apply bool_decide_eq_true_2. Qed.

(** The answer leaves through the socket: the peer is not behind a relay. *)
Lemma route_answer cfg r x y st nom id s fl snt d :
  route (solo cfg r x y st nom id s fl snt)
    (existsb (fun p => to_addr y p && is_relay (cand_kind (pair_remote p)))
       (check_list (solo cfg r x y st nom id s fl snt))) d =
  solo cfg r x y st nom id s fl (snt ++ [d]).
Proof. cbn [solo check_list existsb]. by rewrite to_addr_solo. Qed.

Lemma succeed_solo cfg r x y st nom id s fl snt :
  succeed_open (solo cfg r x y st nom id s fl snt) y =
  solo cfg r x y (if is_open (set_pair st nom (pair_new id (host x) (host y) true)) then Succeeded else st) nom id s fl snt.
Proof.
  unfold succeed_open. cbn [solo check_list fmap list_fmap]. unfold open_to. rewrite to_addr_solo. by destruct st.
Qed.

Lemma send_check_solo cfg r x y st nom id s fl snt p nominate dest out :
  pair_local p = host x ->
  let '(r', tid) := generate_tid r in
  build_binding_request tid cfg (cand_priority (host x)) nominate = Ok out ->
  send_check (solo cfg r x y st nom id s fl snt) 0 p nominate dest false =
  (solo cfg r' x y st nom id s (fl ++ [(tid, 0%nat)]) (snt ++ [(out, dest)]), true).
Proof.
  intros Hp. destruct (generate_tid r) as [r' tid] eqn:Er. intros Hb. unfold send_check.
  cbn [ag_rng solo]. rewrite Er. cbn [ag_config set_rng solo]. by rewrite Hp, Hb.
Qed.

Lemma trigger_solo cfg r x y st nom id s fl snt dest out :
  role cfg = Controlled ->
  let '(r', tid) := generate_tid r in
  build_binding_request tid cfg (cand_priority (host x)) false = Ok out ->
  trigger_check (solo cfg r x y st nom id s fl snt) (Some 0%nat) dest =
  solo cfg r' x y st nom id s (fl ++ [(tid, 0%nat)]) (snt ++ [(out, dest)]).
Proof.
  intros Hr. set (p := set_pair st nom (pair_new id (host x) (host y) (bool_decide (role cfg = Controlling)))).
  pose proof (send_check_solo cfg r x y st nom id s fl snt p false dest) as Hsend.
  destruct (generate_tid r) as [r' tid] eqn:Er. intros Hb. unfold trigger_check.
  change (check_list (solo cfg r x y st nom id s fl snt) !! 0%nat) with (Some p).
  assert (is_controlling (solo cfg r x y st nom id s fl snt) = false) as ->.
  { unfold is_controlling. cbn [ag_config solo]. by rewrite Hr. }
  change (is_relay (cand_kind (pair_remote p))) with false. cbn [andb].
  by rewrite (Hsend out eq_refl Hb).
Qed.

(** A check from [y] at an agent that has not checked the pair yet, or waits for the answer to
    its check. *)
Lemma hear_check cfg d r x y st id s fl snt tid out resp :
  config_ok cfg -> config_ok d -> peers d cfg -> local_ufrag d = local_ufrag cfg -> role cfg = Controlled ->
  (st = Waiting \/ st = InProgress) -> tid_wf tid ->
  build_binding_request tid d (cand_priority (host y)) false = Ok out ->
  encode_with_integrity (answer_message tid y) (local_pwd cfg) = Ok resp ->
  let '(r', tid') := generate_tid r in
  forall trig, build_binding_request tid' cfg (cand_priority (host x)) false = Ok trig ->
  handle_incoming (solo cfg r x y st false id s fl snt) out y =
  solo cfg r' x y Succeeded false id s (fl ++ [(tid', 0%nat)]) (snt ++ [(resp, y)] ++ [(trig, y)]).
Proof.
  intros Hc Hd Hp Hu Hr Hst Ht Hb Hresp. destruct (generate_tid r) as [r' tid'] eqn:Er. intros trig Htrig.
  destruct (honest_request tid d (cand_priority (host y)) false Ht Hd ltac:(done)) as (o & mac & H1 & H2 & H3).
  assert (o = out) as -> by congruence. unfold handle_incoming. rewrite H2. cbn [class with_attrs check_message].
  pose proof (proj1 Hp) as Hpw. unfold handle_binding_request. cbn [ag_config solo]. rewrite <- Hpw, H3. cbn [is_ok negb].
  rewrite (peer_username_valid d); [|done|done|done|by apply Forall_singleton].
  rewrite bool_decide_eq_true_2 by done. cbn [negb transaction_id with_attrs check_message].
  rewrite Hpw. fold (answer_message tid y). rewrite Hresp, route_answer.
  assert (forall c, (has_use_candidate (attributes (with_attrs (check_message tid d c false) [MessageIntegrity mac])) &&
    has_controlling (attributes (with_attrs (check_message tid d c false) [MessageIntegrity mac]))) = false) as ->.
  { intros c. cbn. by destruct (role d). }
  cbn [solo check_list]. rewrite position_of_one. unfold open_to at 1. rewrite to_addr_solo.
  fold (solo cfg r x y st false id s fl (snt ++ [(resp, y)])). rewrite succeed_solo.
  pose proof (trigger_solo cfg r x y Succeeded false id s fl (snt ++ [(resp, y)]) y trig Hr) as Htr. rewrite Er in Htr.
  assert (forall b, is_open (set_pair st false (pair_new id (host x) (host y) b)) = true) as Ho
    by (intros b; by destruct Hst as [-> | ->]).
  rewrite !Ho. cbn [andb]. rewrite Htr by done. by rewrite <- app_assoc.
Qed.

(** The answer from [y] to the controlling agent's check. *)
Lemma hear_answer cfg r x y id s tid snt resp mac :
  role cfg = Controlling -> stun_decode resp = Ok (with_attrs (answer_message tid x) [MessageIntegrity mac]) ->
  verify_integrity resp (remote_pwd cfg) = Ok tt ->
  let '(r', tid') := generate_tid r in
  forall out, build_binding_request tid' cfg (cand_priority (host x)) true = Ok out ->
  handle_incoming (solo cfg r x y InProgress false id s [(tid, 0%nat)] snt) resp y =
  solo cfg r' x y Succeeded true id s [(tid', 0%nat)] (snt ++ [(out, y)]).
Proof.
  intros Hr Hd Hv.
  set (p := set_pair InProgress false (pair_new id (host x) (host y) (bool_decide (role cfg = Controlling)))).
  pose proof (send_check_solo cfg r x y Succeeded true id s [] snt p true y) as Hsend.
  destruct (generate_tid r) as [r' tid'] eqn:Er. intros out Hb. specialize (Hsend out eq_refl Hb).
  unfold handle_incoming. rewrite Hd. cbn [class with_attrs answer_message].
  unfold handle_binding_response. change (ag_config (solo cfg r x y InProgress false id s [(tid, 0%nat)] snt)) with cfg.
  rewrite Hv. cbn [is_ok negb transaction_id with_attrs answer_message].
  cbn [in_flight solo list_find fst]. rewrite decide_True by done.
  fold (solo cfg r x y InProgress false id s [(tid, 0%nat)] snt). cbn [delete list_delete].
  change (set_in_flight (solo cfg r x y InProgress false id s [(tid, 0%nat)] snt) []) with
    (solo cfg r x y InProgress false id s [] snt).
  change (check_list (solo cfg r x y InProgress false id s [] snt) !! 0%nat) with (Some p).
  cbv beta iota. assert (to_addr y p = true) as -> by apply to_addr_solo. cbn [negb].
  assert (is_controlling (solo cfg r x y InProgress false id s [] snt) = true) as ->.
  { unfold is_controlling. cbn [ag_config solo]. by apply bool_decide_eq_true_2. }
  change (bool_decide (nominated_idx (solo cfg r x y InProgress false id s [] snt) = None)) with true.
  cbn [andb]. change (is_relay (cand_kind (pair_remote p))) with false.
  exact (f_equal fst Hsend).
Qed.

(** The nomination at the controlled agent. *)
Lemma hear_nomination cfg d r x y id s fl snt tid out resp :
  config_ok cfg -> config_ok d -> peers d cfg -> local_ufrag d = local_ufrag cfg -> role d = Controlling ->
  tid_wf tid ->
  build_binding_request tid d (cand_priority (host y)) true = Ok out ->
  encode_with_integrity (answer_message tid y) (local_pwd cfg) = Ok resp ->
  handle_incoming (solo cfg r x y Succeeded false id s fl snt) out y =
  solo cfg r x y Succeeded true id s fl (snt ++ [(resp, y)]).
Proof.
  intros Hc Hd Hp Hu Hr Ht Hb Hresp.
  destruct (honest_request tid d (cand_priority (host y)) true Ht Hd ltac:(done)) as (o & mac & H1 & H2 & H3).
  assert (o = out) as -> by congruence. unfold handle_incoming. rewrite H2. cbn [class with_attrs check_message].
  pose proof (proj1 Hp) as Hpw. unfold handle_binding_request. cbn [ag_config solo]. rewrite <- Hpw, H3. cbn [is_ok negb].
  rewrite (peer_username_valid d); [|done|done|done|by apply Forall_singleton].
  rewrite bool_decide_eq_true_2 by done. cbn [negb transaction_id with_attrs check_message].
  rewrite Hpw. fold (answer_message tid y). rewrite Hresp, route_answer.
  cbn [attributes with_attrs check_message app]. rewrite Hr.
  cbn [has_use_candidate has_controlling existsb app andb orb].
  unfold apply_nomination. cbn [check_list solo]. rewrite position_of_one, to_addr_solo.
  match goal with |- trigger_check (succeed_open ?a y) _ y = _ =>
    change a with (solo cfg r x y Succeeded true id s fl (snt ++ [(resp, y)])) end.
  cbn [check_list solo]. rewrite position_of_one. unfold open_to at 1. rewrite to_addr_solo.
  change (is_open (set_pair Succeeded true _)) with false. cbn [andb trigger_check].
  fold (solo cfg r x y Succeeded true id s fl (snt ++ [(resp, y)])). by rewrite succeed_solo.
Qed.

Definition first_check y s t : list ice_op := set_up y s ++ [OpStep None [] [] t].
Definition first_heard y s t check : list ice_op := set_up y s ++ [OpStep (Some (check, y)) [] [] t].

Lemma run_snoc a ops op : ice_run a (ops ++ [op]) = ice_apply (ice_run a ops) op.
Proof. unfold ice_run. by rewrite fold_left_app. Qed.

Lemma controlling_side c (r r1 r2 : R) x y s t t1 t3 check nom ans mac :
  local_addrs c = [x] -> role c = Controlling -> s <= t <= s + 5 ->
  generate_tid r = (r1, t1) -> generate_tid r1 = (r2, t3) ->
  build_binding_request t1 c (cand_priority (host x)) false = Ok check ->
  build_binding_request t3 c (cand_priority (host x)) true = Ok nom ->
  stun_decode ans = Ok (with_attrs (answer_message t1 x) [MessageIntegrity mac]) ->
  verify_integrity ans (remote_pwd c) = Ok tt ->
  let a1 := ice_run (agent_new c r) (first_check y s t) in
  a1 = solo c r1 x y InProgress false 1 (now_us s) [(t1, 0%nat)] [(check, y)] /\
  ice_apply a1 (OpStep (Some (ans, y)) [] [] t) =
    set_state (solo c r2 x y Succeeded true 1 (now_us s) [(t3, 0%nat)] [(check, y); (nom, y)]) Connected.
Proof.
  intros Hl Hr Ht E1 E3 Hc Hn Hd Hv. cbv zeta. unfold first_check. rewrite run_snoc, (set_up_solo _ _ x y s Hl).
  pose proof (check_pairs_first c r x y 1 (now_us s) [] [] check) as F1. rewrite E1 in F1.
  rewrite (step_solo _ None c r x y Waiting false 1 s t [] [] false r1 InProgress [(t1, 0%nat)] [(check, y)])
    by (done || by apply F1).
  split; [done|]. cbn [connected_if].
  pose proof (hear_answer c r1 x y 1 (now_us s) t1 [(check, y)] ans mac) as F3. rewrite E3 in F3.
  by rewrite (step_solo _ (Some (ans, y)) c r2 x y Succeeded true 1 s t [(t3, 0%nat)] [(check, y); (nom, y)]
             true r2 Succeeded [(t3, 0%nat)] [(check, y); (nom, y)])
    by (done || by apply check_pairs_solo || by apply F3).
Qed.

Lemma controlled_side c d (r r1 : R) x y s t t1 t2 t3 check ans trig nom conf :
  config_ok c -> config_ok d -> peers d c -> local_ufrag d = local_ufrag c ->
  role c = Controlled -> role d = Controlling -> local_addrs c = [x] -> s <= t <= s + 5 ->
  tid_wf t1 -> tid_wf t3 -> generate_tid r = (r1, t2) ->
  build_binding_request t1 d (cand_priority (host y)) false = Ok check ->
  build_binding_request t3 d (cand_priority (host y)) true = Ok nom ->
  build_binding_request t2 c (cand_priority (host x)) false = Ok trig ->
  encode_with_integrity (answer_message t1 y) (local_pwd c) = Ok ans ->
  encode_with_integrity (answer_message t3 y) (local_pwd c) = Ok conf ->
  let b1 := ice_run (agent_new c r) (first_heard y s t check) in
  b1 = solo c r1 x y Succeeded false 1 (now_us s) [(t2, 0%nat)] [(ans, y); (trig, y)] /\
  ice_apply b1 (OpStep (Some (nom, y)) [] [] t) =
    set_state (solo c r1 x y Succeeded true 1 (now_us s) [(t2, 0%nat)] [(ans, y); (trig, y); (conf, y)]) Connected.
Proof.
  intros Hc Hd Hp Hu Hr Hrd Hl Ht Ht1 Ht3 E2 Hcheck Hnom Htrig Hans Hconf. cbv zeta. unfold first_heard.
  rewrite run_snoc, (set_up_solo _ _ x y s Hl).
  pose proof (hear_check c d r x y Waiting 1 (now_us s) [] [] t1 check ans) as F2. rewrite E2 in F2.
  rewrite (step_solo _ (Some (check, y)) c r1 x y Succeeded false 1 s t [(t2, 0%nat)] [(ans, y); (trig, y)]
             false r1 Succeeded [(t2, 0%nat)] [(ans, y); (trig, y)])
    by (done || by apply check_pairs_solo || by apply F2; auto).
  split; [done|]. cbn [connected_if].
  by rewrite (step_solo _ (Some (nom, y)) c r1 x y Succeeded true 1 s t [(t2, 0%nat)] [(ans, y); (trig, y); (conf, y)]
             true r1 Succeeded [(t2, 0%nat)] [(ans, y); (trig, y); (conf, y)])
    by (done || by apply check_pairs_solo || by apply (hear_nomination c d r1 x y 1 (now_us s) _ [(ans, y); (trig, y)] t3 nom conf)).
Qed.

(** C14. Two agents that share credentials, use the same user fragment and take the two roles
    connect, whatever their random generators produce: after each has gathered its address and
    learnt the other's, the controlling agent's check, the controlled agent's answer and the
    nomination leave both of them connected within the five seconds, with the pair between the
    two addresses nominated on both sides; every datagram the exchange needs is one the other
    agent sent. *)
Theorem ice_agents_connect cA cB x y (rA rB : R) s t :
  config_ok cA -> config_ok cB -> peers cA cB -> local_ufrag cA = local_ufrag cB ->
  role cA = Controlling -> role cB = Controlled -> local_addrs cA = [x] -> local_addrs cB = [y] ->
  addr_wf x -> addr_wf y -> (forall r : R, tid_wf (snd (generate_tid r))) -> s <= t <= s + 5 ->
  exists check answer triggered nomination confirmation,
    let a1 := ice_run (agent_new cA rA) (first_check y s t) in
    let b1 := ice_run (agent_new cB rB) (first_heard x s t check) in
    let a2 := ice_apply a1 (OpStep (Some (answer, y)) [] [] t) in
    let b2 := ice_apply b1 (OpStep (Some (nomination, x)) [] [] t) in
    sent a1 = [(check, y)] /\ sent b1 = [(answer, x); (triggered, x)] /\
    sent a2 = [(check, y); (nomination, y)] /\ sent b2 = [(answer, x); (triggered, x); (confirmation, x)] /\
    ag_state a2 = Connected /\ ag_state b2 = Connected /\
    (exists p, nominated_pair a2 = Some p /\ cand_addr (pair_local p) = x /\ cand_addr (pair_remote p) = y) /\
    (exists p, nominated_pair b2 = Some p /\ cand_addr (pair_local p) = y /\ cand_addr (pair_remote p) = x).
Proof.
  intros HcA HcB Hp Hu HrA HrB HlA HlB Hx Hy Htid Ht.
  assert (peers cB cA) as Hp' by (unfold peers in *; tauto).
  destruct (generate_tid rA) as [rA1 t1] eqn:E1. destruct (generate_tid rB) as [rB1 t2] eqn:E2.
  destruct (generate_tid rA1) as [rA2 t3] eqn:E3.
  assert (tid_wf t1 /\ tid_wf t2 /\ tid_wf t3) as (Ht1 & Ht2 & Ht3).
  { pose proof (Htid rA) as G1. pose proof (Htid rB) as G2. pose proof (Htid rA1) as G3.
    rewrite E1 in G1. rewrite E2 in G2. by rewrite E3 in G3. }
  destruct (honest_request t1 cA (cand_priority (host x)) false) as (check & _ & Hcheck & _ & _); try done.
  destruct (honest_request t2 cB (cand_priority (host y)) false) as (trig & _ & Htrig & _ & _); try done.
  destruct (honest_request t3 cA (cand_priority (host x)) true) as (nom & _ & Hnom & _ & _); try done.
  destruct (honest_answer t1 x (local_pwd cB)) as (ans & mac & Hans & Hdec & Hver); try done.
  destruct (honest_answer t3 x (local_pwd cB)) as (conf & _ & Hconf & _ & _); try done.
  exists check, ans, trig, nom, conf. cbv zeta.
  destruct (controlling_side cA rA rA1 rA2 x y s t t1 t3 check nom ans mac) as [A1 A2]; try done;
    [by rewrite (proj1 Hp)|].
  destruct (controlled_side cB cA rB rB1 y x s t t1 t2 t3 check ans trig nom conf) as [B1 B2]; try done.
  rewrite A2, B2, A1, B1. split_and!; try done; eexists; split_and!; reflexivity.
Qed.

End Exchange.

(** ** At concrete agents *)

#[local] Existing Instance toy_stun_prims.
#[local] Existing Instance toy_stun_laws.

Lemma toy_ufrag_ok : ufrag_ok (lit "uf").
Proof. split; [|done]. apply Forall_fold_right. by cbn. Qed.

Lemma toy_config_ok r addr p q : config_ok (toy_config r addr p q).
Proof. split_and!; try apply toy_ufrag_ok; done. Qed.

Lemma ice_agents_connect_witness :
  exists check answer triggered nomination confirmation,
    ag_state (ice_apply (ice_run (agent_new toy_controlling 3%nat) (first_check toy_y 100 101))
                (OpStep (Some (answer, toy_y)) [] [] 101)) = Connected /\
    sent (ice_run (agent_new toy_controlled 8%nat) (first_heard toy_x 100 101 check)) = [(answer, toy_x); (triggered, toy_x)] /\
    blen nomination >= 0 /\ blen confirmation >= 0.
Proof.
  destruct (ice_agents_connect toy_controlling toy_controlled toy_x toy_y 3%nat 8%nat 100 101
    ltac:(apply toy_config_ok) ltac:(apply toy_config_ok) ltac:(done) eq_refl eq_refl eq_refl eq_refl eq_refl
    ltac:(split_and!; [done|by apply bytes_okb_ok|done]) ltac:(split_and!; [done|by apply bytes_okb_ok|done])
    ltac:(intros r; split; [apply blen_to_be|apply to_be_ok]) ltac:(lia))
    as (check & answer & trig & nom & conf & _ & Hb & _ & _ & Hs & _).
  exists check, answer, trig, nom, conf. split; [exact Hs|]. split; [exact Hb|].
  split; apply Z.le_ge, blen_nonneg.
Defined.

(** ** Two relay candidates with one base *)

Definition toy_relay (n : Z) : SocketAddr := V4 [203; 0; 113; n] 5000.

Definition toy_relay_ops : list ice_op :=
  [OpGather; OpRelay (toy_relay 1) toy_x; OpRelay (toy_relay 2) toy_x; OpRemote (host toy_y);
   OpStep None [] [] 100; OpStep None [] [] 100;
   OpStep (Some (default [] (ok (encode_with_integrity (answer_message (to_be 12 5) toy_x) (lit "pb"))), toy_y)) [] [] 100].

(** The base and kind of the local candidate and the remote candidate do not identify a pair:
    allocations from two TURN servers share the base.  A nomination of the second one's pair
    moves to the first one's, which was never checked, when a remote candidate trickles in. *)
Lemma rebuild_moves_nomination :
  let a := ice_run (agent_new toy_controlling 3%nat) toy_relay_ops in
  let a' := ice_apply a (OpRemote (host (toy_relay 9))) in
  ag_state a' = Connected /\
  (cand_addr ∘ pair_local <$> nominated_pair a) = Some (toy_relay 2) /\
  (cand_addr ∘ pair_local <$> nominated_pair a') = Some (toy_relay 1) /\
  (pair_state <$> check_list a !! 1%nat) = Some InProgress /\
  (cand_addr ∘ pair_local <$> check_list a !! 1%nat) = Some (toy_relay 1).
Proof. vm_compute. split_and!; reflexivity. Qed.
