(* ===== verification/Steering.v ===== *)
(** * Relay steering (crates/sh-ice/src/steering.rs)

    Scoring and choice of a relay from both sides' probes, and the time-limited TURN
    credentials.  The base64 engine is the class [Base64]. *)

From stdpp Require Import base numbers list option strings sorting.
From S2P Require Import Prelude Decimal Stun StunWire.

(** ** Scores *)

Record RelayProbeResult := { pr_server : SocketAddr; pr_rtt_us : Z; pr_jitter_us : Z }.
Record RelayScore := { rs_server : SocketAddr; score : Z }.

Definition find_server (server : SocketAddr) (l : list RelayProbeResult) : option RelayProbeResult :=
  snd <$> list_find (fun r => pr_server r = server) l.

Definition combined_score (init resp : RelayProbeResult) : Z :=
  let jitter_half := sat_add u64_max (pr_jitter_us init) (pr_jitter_us resp) / 2 in
  sat_add u64_max (sat_add u64_max (pr_rtt_us init) (pr_rtt_us resp)) jitter_half.

Definition score_one (responder_results : list RelayProbeResult) (init : RelayProbeResult) : option RelayScore :=
  resp ← find_server (pr_server init) responder_results;
  Some {| rs_server := pr_server init; score := combined_score init resp |}.

Definition score_relays (initiator_results responder_results : list RelayProbeResult) : list RelayScore :=
  sort_by_key score (omap (score_one responder_results) initiator_results).

(** ** Selection *)

Record RelaySelection := { primary : RelayScore; standby : option RelayScore }.

Definition select_relay (scores : list RelayScore) : option RelaySelection :=
  primary ← head scores;
  let standby :=
    s ← scores !! 1%nat;
    if sat_sub (score s) (score primary) <=? 10000 then Some s else None in
  Some {| primary := primary; standby := standby |}.

(** ** Credentials *)

(** The [base64] crate's STANDARD engine: encoding can be undone. *)
Class Base64 := base64_encode : bytes -> bytes.
Class Base64Laws `{Base64} := base64_encode_inj a b : base64_encode a = base64_encode b -> a = b.

Record TurnCredentials := { tc_username : bytes; tc_password : bytes; expires_at : Z }.

(** Decimal form of an [i64]. *)
Definition dec_i64 (z : Z) : bytes := if z <? 0 then lit "-" ++ dec 20 (- z) else dec 20 z.

Section Credentials.
Context `{HP : StunPrims} `{HB : Base64}.

Definition hmac_sha1_base64 (key data : bytes) : result IceError bytes :=
  let? mac := map_err (fun e => TransportError ("HMAC-SHA1 key error: " +:+ e)) (hmac_sha1 key data) in
  Ok (base64_encode mac).

Definition generate (shared_key user_id : bytes) (ttl_secs now_unix_secs : Z) : result IceError TurnCredentials :=
  let sum := now_unix_secs + ttl_secs in
  if (sum <? i64_min) || (i64_max <? sum) then Err TurnCredTimestampOverflow else
  let username := dec_i64 sum ++ lit ":" ++ user_id in
  let? password := hmac_sha1_base64 shared_key username in
  Ok {| tc_username := username; tc_password := password; expires_at := sum |}.

Definition is_valid (c : TurnCredentials) (now_unix_secs : Z) : bool :=
  now_unix_secs <? i64_sat_sub (expires_at c) 60.

End Credentials.

(** ** Properties *)

(** The servers both sides probed, with the score of each. *)
Definition probed_by_both (inits resps : list RelayProbeResult) (s : RelayScore) : Prop :=
  exists init resp, init ∈ inits /\ find_server (pr_server init) resps = Some resp /\
    s = {| rs_server := pr_server init; score := combined_score init resp |}.

Lemma score_relays_elem inits resps s : s ∈ score_relays inits resps <-> probed_by_both inits resps s.
Proof.
  unfold score_relays. rewrite (sort_by_key_perm score), list_elem_of_omap. unfold score_one, probed_by_both.
  split.
  - intros (init & Hin & H). destruct (find_server _ _) as [resp|] eqn:E; [|done]. injection H as <-. by exists init, resp.
  - intros (init & resp & Hin & E & ->). exists init. split; [done|]. by rewrite E.
Qed.

Lemma find_server_Some server l r : find_server server l = Some r -> r ∈ l /\ pr_server r = server.
Proof.
  unfold find_server. destruct (list_find _ l) as [[i r']|] eqn:E; [|done]. intros [= <-].
  apply list_find_Some in E as (H & Hs & _). split; [by eapply list_elem_of_lookup_2|done].
Qed.

Lemma sorted_head_min s l x : StronglySorted (fun a b => score a <= score b) (s :: l) -> x ∈ s :: l -> score s <= score x.
Proof.
  intros Hs Hx. apply StronglySorted_inv in Hs as [_ Hf]. rewrite list.Forall_forall in Hf.
  apply elem_of_cons in Hx as [->|Hx]; [lia|auto].
Qed.

(** The relay the two sides settle on: none when no server answered both of them; otherwise one
    that did, and none that did has a lower combined score.  What is left of the list behind it
    holds the other candidates: the standby is the best of them when it is within 10 ms of the
    primary, and there is no standby exactly when all of them are farther away. *)
Lemma relay_choice_optimal inits resps :
  match select_relay (score_relays inits resps) with
  | None => forall s, ~ probed_by_both inits resps s
  | Some sel =>
      probed_by_both inits resps (primary sel) /\
      (forall s, probed_by_both inits resps s -> score (primary sel) <= score s) /\
      exists rest, omap (score_one resps) inits ≡ₚ primary sel :: rest /\
        match standby sel with
        | Some t => t ∈ rest /\ score t <= score (primary sel) + 10000 /\ Forall (fun s => score t <= score s) rest
        | None => Forall (fun s => score (primary sel) + 10000 < score s) rest
        end
  end.
Proof.
  pose proof (score_relays_elem inits resps) as He. pose proof (sort_by_key_sorted score (omap (score_one resps) inits)) as Hs.
  pose proof (sort_by_key_perm score (omap (score_one resps) inits)) as Hp. fold (score_relays inits resps) in Hs, Hp.
  destruct (score_relays inits resps) as [|p rest]; cbn [select_relay head mbind option_bind primary standby].
  { intros s Hb. apply He in Hb. by apply elem_of_nil in Hb. }
  split_and!; [apply He, list_elem_of_here| |].
  { intros s Hb. apply He in Hb. by eapply sorted_head_min. }
  exists rest. split; [by rewrite Hp|]. apply StronglySorted_inv in Hs as [Hs Hf]. rewrite list.Forall_forall in Hf.
  change ((p :: rest) !! 1%nat) with (rest !! 0%nat). destruct rest as [|t rest]; [constructor|].
  cbn [lookup list_lookup mbind option_bind]. pose proof (Hf t (list_elem_of_here t rest)) as Hpt. unfold sat_sub.
  destruct (Z.leb_spec (Z.max 0 (score t - score p)) 10000).
  - split_and!; [apply list_elem_of_here|lia|]. apply list.Forall_forall. intros s Hin. by eapply sorted_head_min.
  - apply list.Forall_forall. intros s Hin. assert (score t <= score s) by (by eapply sorted_head_min). lia.
Qed.

Section CredentialLaws.
Context `{HL : StunLaws} `{HB : Base64}.

Lemma dec_range z : is_i64 z -> 0 <= Z.abs z < 10 ^ Z.of_nat 20.
Proof. unfold is_i64, i64_min, i64_max. change (10 ^ Z.of_nat 20) with 100000000000000000000. lia. Qed.

Lemma dec_i64_abs z : dec_i64 z = (if z <? 0 then [45] else []) ++ dec 20 (Z.abs z).
Proof. unfold dec_i64. destruct (Z.ltb_spec z 0); [by rewrite Z.abs_neq by lia|by rewrite Z.abs_eq by lia]. Qed.

(** The text of an expiry ends at the first colon, whatever follows it. *)
Lemma dec_i64_colon a b u v :
  is_i64 a -> is_i64 b -> dec_i64 a ++ lit ":" ++ u = dec_i64 b ++ lit ":" ++ v -> a = b /\ u = v.
Proof.
  intros Ha Hb. rewrite !dec_i64_abs, <- !app_assoc. pose proof (dec_range a Ha). pose proof (dec_range b Hb).
  assert (forall z, 0 <= z < 10 ^ Z.of_nat 20 -> exists d l, dec 20 z = d :: l /\ 48 <= d) as Hd.
  { intros z Hz. pose proof (dec_digits 20 z ltac:(lia)) as Hf. destruct (dec 20 z) as [|d l] eqn:E.
    - destruct (dec_to_dec 20 z Hz ltac:(lia)) as (k & _ & Hk & Ht). rewrite E in *.
      cbn [dec] in E. destruct (z <? 10); [done|]. by apply app_eq_nil in E as [_ ?].
    - exists d, l. split; [done|]. apply list.Forall_cons in Hf as [? _]. lia. }
  destruct (Hd _ (dec_range a Ha)) as (da & la & Ea & Hda). destruct (Hd _ (dec_range b Hb)) as (db & lb & Eb & Hdb).
  intros E.
  assert ((a <? 0) = (b <? 0) /\ dec 20 (Z.abs a) ++ 58 :: u = dec 20 (Z.abs b) ++ 58 :: v) as [Es E'].
  { change (lit ":") with [58] in E. rewrite Ea, Eb in *.
    destruct (a <? 0), (b <? 0); cbn [app] in E; (split; [try done; injection E; lia|]); [|injection E; lia..|].
    - injection E as E1 E2. cbn [app]. congruence.
    - done. }
  apply split_at_stop in E' as [E1 ->]; [|lia|apply dec_digits; lia|apply dec_digits; lia].
  apply dec_inj in E1; [|done|done|lia]. split; [|done].
  destruct (Z.ltb_spec a 0), (Z.ltb_spec b 0); try done; lia.
Qed.

(** Credentials are made for every expiry an [i64] holds and only for those, are refused from
    60 seconds before it on, and bind it: the password is the code of a user name that gives
    the expiry and the user back. *)
Lemma turn_credentials_bind key user ttl now :
  is_i64 now -> 0 <= ttl ->
  match generate key user ttl now with
  | Ok c =>
      expires_at c = now + ttl /\
      (exists mac, hmac_sha1 key (tc_username c) = Ok mac /\ tc_password c = base64_encode mac) /\
      (forall t, is_i64 t -> i64_min + 60 <= now + ttl -> is_valid c t = true <-> t + 60 < now + ttl) /\
      (forall key' user' ttl' now' c', is_i64 now' -> 0 <= ttl' -> generate key' user' ttl' now' = Ok c' ->
         tc_username c' = tc_username c -> expires_at c' = expires_at c /\ user' = user)
  | Err e => e = TurnCredTimestampOverflow /\ i64_max < now + ttl
  end.
Proof.
  intros Hnow Httl. unfold generate. unfold is_i64 in Hnow.
  destruct (Z.ltb_spec (now + ttl) i64_min); [lia|]. destruct (Z.ltb_spec i64_max (now + ttl)); [done|].
  cbn [orb]. unfold hmac_sha1_base64. destruct (hmac_sha1_total key (dec_i64 (now + ttl) ++ lit ":" ++ user)) as (mac & E & _).
  rewrite E. cbn [map_err expires_at tc_username tc_password]. split_and!; [done|by exists mac| |].
  - intros t Ht Hm. unfold is_valid, i64_sat_sub, i64_clamp. cbn [expires_at]. rewrite Z.ltb_lt.
    unfold is_i64 in *. lia.
  - intros key' user' ttl' now' c' Hn' Ht'. unfold is_i64 in Hn'.
    destruct (Z.ltb_spec (now' + ttl') i64_min); [lia|]. destruct (Z.ltb_spec i64_max (now' + ttl')); [done|]. cbn [orb].
    destruct (hmac_sha1 key' _) as [mac'|]; [|done]. cbn [map_err]. intros [= <-]. cbn [tc_username expires_at].
    intros Hu. by apply dec_i64_colon in Hu as [-> ->]; [|unfold is_i64; lia..].
Qed.

End CredentialLaws.
