(* ===== verification/Turn.v ===== *)
(** * The TURN client (crates/sh-ice/src/turn.rs)

    Messages of RFC 8656 and the client's allocation state machine.  turn.rs has its own copy of
    the STUN codec, and so has this file; [TurnWire.v] relates the two.  MD5 is the class [Md5];
    what a send through the socket returns is the argument [tx] of the operations that send, and
    the datagrams given to the socket are the log [t_sent]. *)

From stdpp Require Import base numbers list option strings pretty.
From S2P Require Import Prelude Utf8 Decimal Stun IceAgent.

(** ** Constants *)

Definition METHOD_ALLOCATE : Z := 0x003.
Definition METHOD_REFRESH : Z := 0x004.
Definition METHOD_SEND : Z := 0x006.
Definition METHOD_DATA : Z := 0x007.
Definition METHOD_CREATE_PERMISSION : Z := 0x008.
Definition METHOD_CHANNEL_BIND : Z := 0x009.

Definition ATTR_USERNAME : Z := 0x0006.
Definition ATTR_MESSAGE_INTEGRITY : Z := 0x0008.
Definition ATTR_ERROR_CODE : Z := 0x0009.
Definition ATTR_CHANNEL_NUMBER : Z := 0x000C.
Definition ATTR_LIFETIME : Z := 0x000D.
Definition ATTR_XOR_PEER_ADDRESS : Z := 0x0012.
Definition ATTR_DATA : Z := 0x0013.
Definition ATTR_REALM : Z := 0x0014.
Definition ATTR_NONCE : Z := 0x0015.
Definition ATTR_XOR_RELAYED_ADDRESS : Z := 0x0016.
Definition ATTR_REQUESTED_TRANSPORT : Z := 0x0019.
Definition ATTR_XOR_MAPPED_ADDRESS : Z := 0x0020.

Definition TURN_MAGIC_COOKIE : Z := 0x2112A442.
Definition STUN_HDR : Z := 20.
Definition CHANNEL_HDR : Z := 4.
Definition CHANNEL_MIN : Z := 0x4000.
Definition CHANNEL_MAX : Z := 0x7FFF.

(** ** Data *)

Inductive TurnState := Unallocated | Allocating | AllocatingAuthenticated | Allocated | Refreshing | Expired.

#[global] Instance TurnState_eq_dec : EqDecision TurnState.
Proof. solve_decision. Defined.

Record TurnConfig := { server_addr : SocketAddr; t_username : bytes; t_password : bytes; lifetime_secs : Z }.

Inductive TurnAttr :=
| TXorRelayedAddress (a : SocketAddr)
| TXorPeerAddress (a : SocketAddr)
| TXorMappedAddress (a : SocketAddr)
| TLifetime (secs : Z)
| TChannelNumber (ch : Z)
| TData (d : bytes)
| TRealm (r : bytes)
| TNonce (n : bytes)
| TErrorCode (code : Z) (reason : bytes)
| TRequestedTransport (proto : Z)
| TUsername (u : bytes)
| TMessageIntegrity (h : bytes)
| TUnknown (attr_type : Z) (value : bytes).

(** [t_class]: 0 request, 1 indication, 2 success, 3 error. *)
Record TurnMessage := { t_method : Z; t_class : Z; t_tid : bytes; t_attrs : list TurnAttr }.

(** ** Encoding *)

Definition turn_build_header (method class : Z) (tid : bytes) (attr_len : Z) : bytes :=
  let c1 := Z.land (Z.shiftr class 1) 1 in
  let c0 := Z.land class 1 in
  let m_bits := Z.lor (Z.lor (Z.shiftl (Z.land method 0xF80) 2) (Z.shiftl (Z.land method 0x070) 1))
                      (Z.land method 0x00F) in
  let type_word := Z.lor (Z.lor m_bits (Z.shiftl c1 8)) (Z.shiftl c0 4) in
  to_be 2 type_word ++ to_be 2 (Z.min attr_len u16_max) ++ to_be 4 TURN_MAGIC_COOKIE ++ tid.

Definition turn_push_tlv (buf : bytes) (at_ : Z) (value : bytes) : bytes :=
  let pad := Z.land ((- blen value) mod 18446744073709551616) 3 in
  buf ++ to_be 2 at_ ++ to_be 2 (Z.min (blen value) u16_max) ++ value ++ replicate (Z.to_nat pad) 0.

Definition cookie_mask (tid : bytes) : bytes := to_be 4 TURN_MAGIC_COOKIE ++ tid.

Definition xor_addr (addr : SocketAddr) (tid : bytes) : bytes :=
  match addr with
  | V4 ip port =>
      [0; 1] ++ to_be 2 (Z.lxor port (Z.shiftr TURN_MAGIC_COOKIE 16)) ++
      to_be 4 (Z.lxor (from_be ip) TURN_MAGIC_COOKIE)
  | V6 ip port _ _ =>
      [0; 2] ++ to_be 2 (Z.lxor port (Z.shiftr TURN_MAGIC_COOKIE 16)) ++ zip_with Z.lxor ip (cookie_mask tid)
  end.

Definition encode_one_attr (attr : TurnAttr) (tid buf : bytes) : bytes :=
  match attr with
  | TXorRelayedAddress a => turn_push_tlv buf ATTR_XOR_RELAYED_ADDRESS (xor_addr a tid)
  | TXorPeerAddress a => turn_push_tlv buf ATTR_XOR_PEER_ADDRESS (xor_addr a tid)
  | TXorMappedAddress a => turn_push_tlv buf ATTR_XOR_MAPPED_ADDRESS (xor_addr a tid)
  | TLifetime s => turn_push_tlv buf ATTR_LIFETIME (to_be 4 s)
  | TChannelNumber ch => turn_push_tlv buf ATTR_CHANNEL_NUMBER (to_be 2 ch ++ [0; 0])
  | TData d => turn_push_tlv buf ATTR_DATA d
  | TRealm r => turn_push_tlv buf ATTR_REALM r
  | TNonce n => turn_push_tlv buf ATTR_NONCE n
  | TErrorCode code reason =>
      turn_push_tlv buf ATTR_ERROR_CODE ([0; 0; (code / 100) mod 256; (code mod 100) mod 256] ++ reason)
  | TRequestedTransport proto => turn_push_tlv buf ATTR_REQUESTED_TRANSPORT [proto; 0; 0; 0]
  | TUsername u => turn_push_tlv buf ATTR_USERNAME u
  | TMessageIntegrity h => turn_push_tlv buf ATTR_MESSAGE_INTEGRITY h
  | TUnknown t value => turn_push_tlv buf t value
  end.

Definition encode_attrs (attrs : list TurnAttr) (tid : bytes) : bytes :=
  fold_left (fun out attr => encode_one_attr attr tid out) attrs [].

Definition turn_encode (m : TurnMessage) : bytes :=
  let attr_body := encode_attrs (t_attrs m) (t_tid m) in
  turn_build_header (t_method m) (t_class m) (t_tid m) (blen attr_body) ++ attr_body.

(** ** Decoding *)

Definition dxor_addr (value tid : bytes) (at_ : Z) : result IceError SocketAddr :=
  let e := StunAttrTruncated at_ in
  if blen value <? 4 then Err e else
  let family := default 0 (value !! 1%nat) in
  let port := Z.lxor (u16_at value 2) (Z.shiftr TURN_MAGIC_COOKIE 16) in
  if family =? 1 then
    if blen value <? 8 then Err e else
    let? xip := ok_or (get_range value 4 8) e in
    Ok (V4 (to_be 4 (Z.lxor (from_be xip) TURN_MAGIC_COOKIE)) port)
  else if family =? 2 then
    if blen value <? 20 then Err e else
    let? xip := ok_or (get_range value 4 20) e in
    Ok (V6 (zip_with Z.lxor xip (cookie_mask tid)) port 0 0)
  else Err e.

Definition decode_one_attr (at_ : Z) (value tid : bytes) : result IceError TurnAttr :=
  let e := StunAttrTruncated at_ in
  if at_ =? ATTR_XOR_RELAYED_ADDRESS then let? a := dxor_addr value tid at_ in Ok (TXorRelayedAddress a)
  else if at_ =? ATTR_XOR_PEER_ADDRESS then let? a := dxor_addr value tid at_ in Ok (TXorPeerAddress a)
  else if at_ =? ATTR_XOR_MAPPED_ADDRESS then let? a := dxor_addr value tid at_ in Ok (TXorMappedAddress a)
  else if at_ =? ATTR_LIFETIME then let? b := ok_or (get_range value 0 4) e in Ok (TLifetime (from_be b))
  else if at_ =? ATTR_CHANNEL_NUMBER then
    if blen value <? 2 then Err e else Ok (TChannelNumber (u16_at value 0))
  else if at_ =? ATTR_DATA then Ok (TData value)
  else if at_ =? ATTR_REALM then Ok (TRealm (from_utf8_lossy value))
  else if at_ =? ATTR_NONCE then Ok (TNonce value)
  else if at_ =? ATTR_ERROR_CODE then
    if blen value <? 4 then Err e else
    let class := default 0 (value !! 2%nat) in
    let num := default 0 (value !! 3%nat) in
    let code := sat_add u16_max (sat_mul u16_max class 100) num in
    Ok (TErrorCode code (from_utf8_lossy (default [] (get_from value 4))))
  else if at_ =? ATTR_REQUESTED_TRANSPORT then let? p := ok_or (head value) e in Ok (TRequestedTransport p)
  else if at_ =? ATTR_USERNAME then if utf8_valid value then Ok (TUsername value) else Err e
  else if at_ =? ATTR_MESSAGE_INTEGRITY then
    if blen value <? 20 then Err e else
    let? h := ok_or (get_range value 0 20) e in Ok (TMessageIntegrity h)
  else Ok (TUnknown at_ value).

Fixpoint attrs_loop (fuel : nat) (attr_bytes tid : bytes) (pos : Z) : result IceError (list TurnAttr) :=
  match fuel with
  | O => Ok []
  | S n =>
      if blen attr_bytes <=? pos then Ok [] else
      if blen attr_bytes - pos <? 4
      then Err (StunTruncated (pos + 4) (blen attr_bytes + STUN_HDR)) else
      let at_ := u16_at attr_bytes pos in
      let al := u16_at attr_bytes (pos + 2) in
      let v_start := pos + 4 in
      let v_end := v_start + al in
      if blen attr_bytes <? v_end then Err (StunAttrTruncated at_) else
      let? value := ok_or (get_range attr_bytes v_start v_end) (StunAttrTruncated at_) in
      let? attr := decode_one_attr at_ value tid in
      let? attrs := attrs_loop n attr_bytes tid (v_start + padded al) in
      Ok (attr :: attrs)
  end.

Definition decode_attrs (attr_bytes tid : bytes) : result IceError (list TurnAttr) :=
  attrs_loop (S (length attr_bytes)) attr_bytes tid 0.

Definition turn_decode (raw : bytes) : result IceError TurnMessage :=
  let len := blen raw in
  if len <? STUN_HDR then Err (StunTruncated STUN_HDR len) else
  let type_word := u16_at raw 0 in
  if negb (Z.land type_word 0xC000 =? 0) then Err InvalidMessageTypeBits else
  let msg_len := u16_at raw 2 in
  if negb (msg_len mod 4 =? 0) then Err (MessageLengthNotAligned msg_len) else
  let cookie := from_be [default 0 (raw !! 4%nat); default 0 (raw !! 5%nat);
                         default 0 (raw !! 6%nat); default 0 (raw !! 7%nat)] in
  if negb (cookie =? TURN_MAGIC_COOKIE) then Err (BadMagicCookie cookie) else
  let method := Z.lor (Z.lor (Z.land (Z.shiftr type_word 2) 0xF80) (Z.land (Z.shiftr type_word 1) 0x070))
                      (Z.land type_word 0x00F) in
  let c1 := Z.land (Z.shiftr type_word 8) 1 in
  let c0 := Z.land (Z.shiftr type_word 4) 1 in
  let class := Z.lor (Z.shiftl c1 1) c0 in
  let? tid := ok_or (get_range raw 8 20) (StunTruncated 20 len) in
  let total := STUN_HDR + msg_len in
  if len <? total then Err (StunTruncated total len) else
  let? attr_bytes := ok_or (get_range raw STUN_HDR total) (StunTruncated total len) in
  let? attrs := decode_attrs attr_bytes tid in
  Ok {| t_method := method; t_class := class; t_tid := tid; t_attrs := attrs |}.

(** ** Message integrity *)

Fixpoint find_attr_loop (fuel : nat) (ab : bytes) (target pos : Z) : result IceError Z :=
  match fuel with
  | O => Err IntegrityMismatch
  | S n =>
      if blen ab <? pos + 4 then Err IntegrityMismatch else
      let t := u16_at ab pos in
      let l := u16_at ab (pos + 2) in
      if blen ab <? pos + 4 + l then Err (StunAttrTruncated t) else
      if t =? target then Ok (STUN_HDR + pos) else
      find_attr_loop n ab target (pos + 4 + padded l)
  end.

Definition find_attr (raw : bytes) (target : Z) : result IceError Z :=
  if blen raw <? STUN_HDR then Err (StunTruncated STUN_HDR (blen raw)) else
  let total := STUN_HDR + u16_at raw 2 in
  let? ab := ok_or (get_range raw STUN_HDR total) (StunTruncated total (blen raw)) in
  find_attr_loop (S (length ab)) ab target 0.

Section TurnIntegrity.
Context `{HP : StunPrims}.

Definition turn_hmac_sha1 (key data : bytes) : result IceError bytes :=
  map_err (fun e => TransportError ("HMAC-SHA1: " +:+ e)) (hmac_sha1 key data).

Definition turn_encode_with_integrity (m : TurnMessage) (lt_key : bytes) : result IceError bytes :=
  let attr_body := encode_attrs (t_attrs m) (t_tid m) in
  let mi_msg_len := blen attr_body + 24 in
  let out := turn_build_header (t_method m) (t_class m) (t_tid m) mi_msg_len ++ attr_body in
  let? hmac := turn_hmac_sha1 lt_key out in
  Ok (out ++ to_be 2 ATTR_MESSAGE_INTEGRITY ++ to_be 2 20 ++ hmac).

Definition turn_verify_integrity (raw lt_key : bytes) : result IceError unit :=
  let? mi_off := find_attr raw ATTR_MESSAGE_INTEGRITY in
  let mi_end := mi_off + 24 in
  let body_end := STUN_HDR + u16_at raw 2 in
  let trailer := default [] (get_range raw mi_end body_end) in
  let is_only_fp := (blen trailer =? 8) && bool_decide (get_range trailer 0 2 = Some (to_be 2 0x8028)) in
  if (mi_end <? body_end) && negb is_only_fp then Err (AttrOrderingViolation "MESSAGE-INTEGRITY") else
  let? prefix := ok_or (get_range raw 0 mi_off) (StunTruncated mi_off (blen raw)) in
  let hmac_msg_len := sat_sub (mi_off + 24) STUN_HDR in
  let? expected := turn_hmac_sha1 lt_key (set_length prefix hmac_msg_len) in
  let v_start := mi_off + 4 in
  let? stored := ok_or (get_range raw v_start (v_start + 20)) IntegrityMismatch in
  if bytes_eqb expected stored then Ok tt else Err IntegrityMismatch.

End TurnIntegrity.

(** ** Accessors *)

(** [iter().find_map(..)]. *)
Definition find_map {A B} (f : A -> option B) (l : list A) : option B := head (omap f l).

Definition relay_address (m : TurnMessage) : option SocketAddr :=
  find_map (fun a => match a with TXorRelayedAddress addr => Some addr | _ => None end) (t_attrs m).
Definition msg_realm (m : TurnMessage) : option bytes :=
  find_map (fun a => match a with TRealm r => Some r | _ => None end) (t_attrs m).
Definition msg_nonce (m : TurnMessage) : option bytes :=
  find_map (fun a => match a with TNonce n => Some n | _ => None end) (t_attrs m).
Definition error_code (m : TurnMessage) : option Z :=
  find_map (fun a => match a with TErrorCode code _ => Some code | _ => None end) (t_attrs m).
Definition msg_lifetime (m : TurnMessage) : option Z :=
  find_map (fun a => match a with TLifetime l => Some l | _ => None end) (t_attrs m).
Definition peer_address (m : TurnMessage) : option SocketAddr :=
  find_map (fun a => match a with TXorPeerAddress p => Some p | _ => None end) (t_attrs m).
Definition msg_data (m : TurnMessage) : option bytes :=
  find_map (fun a => match a with TData d => Some d | _ => None end) (t_attrs m).

(** ** The client *)

Class Md5 := md5 : bytes -> bytes.

Definition long_term_key `{Md5} (username realm password : bytes) : bytes :=
  md5 (username ++ lit ":" ++ realm ++ lit ":" ++ password).

Record TurnClient (R : Type) := {
  t_config : TurnConfig;
  t_rng : R;
  t_state : TurnState;
  relay_addr : option SocketAddr;
  realm : option bytes;
  nonce : option bytes;
  lt_key : option bytes;
  t_expires_at : option Z;
  pending_tid : option bytes;
  auth_attempts : Z;
  t_sent : list datagram;
}.
Arguments t_config {R} _.
Arguments t_rng {R} _.
Arguments t_state {R} _.
Arguments relay_addr {R} _.
Arguments realm {R} _.
Arguments nonce {R} _.
Arguments lt_key {R} _.
Arguments t_expires_at {R} _.
Arguments pending_tid {R} _.
Arguments auth_attempts {R} _.
Arguments t_sent {R} _.

Section Client.
Context {R : Type} `{!Rng R} `{!StunPrims} `{!Md5}.
Implicit Types c : TurnClient R.

Definition turn_new (config : TurnConfig) (rng : R) : TurnClient R :=
  {| t_config := config; t_rng := rng; t_state := Unallocated; relay_addr := None; realm := None; nonce := None;
     lt_key := None; t_expires_at := None; pending_tid := None; auth_attempts := 0; t_sent := [] |}.

(** Assignments to the fields. *)
Definition with_state c s : TurnClient R :=
  {| t_config := t_config c; t_rng := t_rng c; t_state := s; relay_addr := relay_addr c; realm := realm c;
     nonce := nonce c; lt_key := lt_key c; t_expires_at := t_expires_at c; pending_tid := pending_tid c;
     auth_attempts := auth_attempts c; t_sent := t_sent c |}.

Definition with_relay c a : TurnClient R :=
  {| t_config := t_config c; t_rng := t_rng c; t_state := t_state c; relay_addr := a; realm := realm c;
     nonce := nonce c; lt_key := lt_key c; t_expires_at := t_expires_at c; pending_tid := pending_tid c;
     auth_attempts := auth_attempts c; t_sent := t_sent c |}.

Definition with_auth c r n k att : TurnClient R :=
  {| t_config := t_config c; t_rng := t_rng c; t_state := t_state c; relay_addr := relay_addr c; realm := r;
     nonce := n; lt_key := k; t_expires_at := t_expires_at c; pending_tid := pending_tid c;
     auth_attempts := att; t_sent := t_sent c |}.

Definition with_expiry c e : TurnClient R :=
  {| t_config := t_config c; t_rng := t_rng c; t_state := t_state c; relay_addr := relay_addr c; realm := realm c;
     nonce := nonce c; lt_key := lt_key c; t_expires_at := e; pending_tid := pending_tid c;
     auth_attempts := auth_attempts c; t_sent := t_sent c |}.

Definition with_tid c r tid : TurnClient R :=
  {| t_config := t_config c; t_rng := r; t_state := t_state c; relay_addr := relay_addr c; realm := realm c;
     nonce := nonce c; lt_key := lt_key c; t_expires_at := t_expires_at c; pending_tid := tid;
     auth_attempts := auth_attempts c; t_sent := t_sent c |}.

(** [self.transport.send_to(&bytes, self.config.server_addr)]. *)
Definition to_server c (b : bytes) : TurnClient R :=
  {| t_config := t_config c; t_rng := t_rng c; t_state := t_state c; relay_addr := relay_addr c; realm := realm c;
     nonce := nonce c; lt_key := lt_key c; t_expires_at := t_expires_at c; pending_tid := pending_tid c;
     auth_attempts := auth_attempts c; t_sent := t_sent c ++ [(b, server_addr (t_config c))] |}.

Definition request (method : Z) (tid : bytes) (attrs : list TurnAttr) : TurnMessage :=
  {| t_method := method; t_class := 0; t_tid := tid; t_attrs := attrs |}.

(** [encode_with_integrity(&lt_key)?], then the send. *)
Definition send_signed c (m : TurnMessage) (key : bytes) (tx : result IceError unit)
    : TurnClient R * result IceError unit :=
  match turn_encode_with_integrity m key with
  | Err e => (c, Err e)
  | Ok b => (to_server c b, tx)
  end.

Definition start_allocate c (tx : result IceError unit) : TurnClient R * result IceError unit :=
  let c := with_state c Allocating in
  let '(r, tid) := generate_tid (t_rng c) in
  let c := with_tid c r (Some tid) in
  (to_server c (turn_encode (request METHOD_ALLOCATE tid
     [TRequestedTransport 17; TLifetime (lifetime_secs (t_config c))])), tx).

Definition send_authenticated_allocate c (tx : result IceError unit) : TurnClient R * result IceError unit :=
  match realm c, nonce c, lt_key c with
  | None, _, _ => (c, Err (CheckFailed "TURN realm not set"))
  | Some _, None, _ => (c, Err (CheckFailed "TURN nonce not set"))
  | Some _, Some _, None => (c, Err (CheckFailed "TURN lt_key not set"))
  | Some rl, Some nc, Some key =>
      let c := with_state c AllocatingAuthenticated in
      let '(r, tid) := generate_tid (t_rng c) in
      let c := with_tid c r (Some tid) in
      send_signed c (request METHOD_ALLOCATE tid
        [TRequestedTransport 17; TLifetime (lifetime_secs (t_config c)); TUsername (t_username (t_config c));
         TRealm rl; TNonce nc]) key tx
  end.

(** The guards the requests on an allocation share. *)
Definition credentials c : result IceError (bytes * bytes * bytes) :=
  let? key := ok_or (lt_key c) (CheckFailed "TURN lt_key not set") in
  let? rl := ok_or (realm c) (CheckFailed "TURN realm not set") in
  let? nc := ok_or (nonce c) (CheckFailed "TURN nonce not set") in
  Ok (key, rl, nc).

Definition is_allocated c : bool := bool_decide (t_state c = Allocated).

Definition send_refresh c (tx : result IceError unit) : TurnClient R * result IceError unit :=
  if negb (is_allocated c) then (c, Err (CheckFailed "TURN Refresh requires Allocated state")) else
  match credentials c with
  | Err e => (c, Err e)
  | Ok (key, rl, nc) =>
      let c := with_state c Refreshing in
      let '(r, tid) := generate_tid (t_rng c) in
      let c := with_tid c r (Some tid) in
      send_signed c (request METHOD_REFRESH tid
        [TLifetime (lifetime_secs (t_config c)); TUsername (t_username (t_config c)); TRealm rl; TNonce nc]) key tx
  end.

Definition create_permission c (peer : SocketAddr) (tx : result IceError unit) : TurnClient R * result IceError unit :=
  if negb (is_allocated c) then (c, Err (CheckFailed "TURN CreatePermission requires Allocated state")) else
  match credentials c with
  | Err e => (c, Err e)
  | Ok (key, rl, nc) =>
      let '(r, tid) := generate_tid (t_rng c) in
      let c := with_tid c r (pending_tid c) in
      send_signed c (request METHOD_CREATE_PERMISSION tid
        [TXorPeerAddress peer; TUsername (t_username (t_config c)); TRealm rl; TNonce nc]) key tx
  end.

(** [{:#06x}]. *)
Definition hex06 (z : Z) : string :=
  let h := hex 20 z in
  "0x" +:+ String.string_of_list_ascii
    (map (fun b => Ascii.ascii_of_nat (Z.to_nat b)) (replicate (4 - length h) 48 ++ h)).

Definition valid_channel (channel : Z) : bool := (CHANNEL_MIN <=? channel) && (channel <=? CHANNEL_MAX).

Definition channel_bind c (channel : Z) (peer : SocketAddr) (tx : result IceError unit)
    : TurnClient R * result IceError unit :=
  if negb (is_allocated c) then (c, Err (CheckFailed "TURN ChannelBind requires Allocated state")) else
  if negb (valid_channel channel)
  then (c, Err (CheckFailed ("invalid TURN channel " +:+ hex06 channel +:+ ": must be " +:+
                             hex06 CHANNEL_MIN +:+ "–" +:+ hex06 CHANNEL_MAX))) else
  match credentials c with
  | Err e => (c, Err e)
  | Ok (key, rl, nc) =>
      let '(r, tid) := generate_tid (t_rng c) in
      let c := with_tid c r (pending_tid c) in
      send_signed c (request METHOD_CHANNEL_BIND tid
        [TChannelNumber channel; TXorPeerAddress peer; TUsername (t_username (t_config c)); TRealm rl; TNonce nc])
        key tx
  end.

Definition send_indication c (peer : SocketAddr) (data : bytes) (tx : result IceError unit)
    : TurnClient R * result IceError unit :=
  if negb (is_allocated c) then (c, Err (CheckFailed "TURN Send indication requires Allocated state")) else
  let '(r, tid) := generate_tid (t_rng c) in
  let c := with_tid c r (pending_tid c) in
  (to_server c (turn_encode {| t_method := METHOD_SEND; t_class := 1; t_tid := tid;
                               t_attrs := [TXorPeerAddress peer; TData data] |}), tx).

Definition build_channel_data (channel : Z) (data : bytes) : result IceError bytes :=
  if negb (valid_channel channel) then Err (CheckFailed ("invalid channel " +:+ hex06 channel)) else
  let pad := Z.land ((- blen data) mod 18446744073709551616) 3 in
  Ok (to_be 2 channel ++ to_be 2 (Z.min (blen data) u16_max) ++ data ++ replicate (Z.to_nat pad) 0).

Definition decode_channel_data (raw : bytes) : result IceError (Z * bytes) :=
  if blen raw <? CHANNEL_HDR then Err (StunTruncated CHANNEL_HDR (blen raw)) else
  let channel := u16_at raw 0 in
  let len := u16_at raw 2 in
  let end_ := CHANNEL_HDR + len in
  if blen raw <? end_ then Err (StunTruncated end_ (blen raw)) else
  let? data := ok_or (get_range raw CHANNEL_HDR end_) (StunTruncated end_ (blen raw)) in
  Ok (channel, data).

(** ** Incoming datagrams *)

Definition lifetime_from c (m : TurnMessage) (now : Z) : option Z :=
  Some (i64_sat_add now (default (lifetime_secs (t_config c)) (msg_lifetime m))).

Definition allocate_success c (m : TurnMessage) (now : Z) : TurnClient R :=
  let c := match relay_address m with Some relay => with_relay c (Some relay) | None => c end in
  with_state (with_expiry c (lifetime_from c m now)) Allocated.

(** The fields of a 401 challenge. *)
Definition take_challenge c (m : TurnMessage) : TurnClient R :=
  let rl := match msg_realm m with Some r => Some r | None => realm c end in
  let nc := match msg_nonce m with Some n => Some n | None => nonce c end in
  let key := match rl, nc with
             | Some r, Some _ => Some (long_term_key (t_username (t_config c)) r (t_password (t_config c)))
             | _, _ => lt_key c
             end in
  with_auth c rl nc key (auth_attempts c).

Definition allocate_error c (m : TurnMessage) (tx : result IceError unit) : TurnClient R * result IceError unit :=
  let code := default 0 (error_code m) in
  if ((code =? 401) || (code =? 438)) && (1 <=? auth_attempts c)
  then (with_state c Expired, Err (CheckFailed "TURN auth failed: too many retries")) else
  let c := if (code =? 401) || (code =? 438)
           then with_auth c (realm c) (nonce c) (lt_key c) (sat_add 255 (auth_attempts c) 1) else c in
  if code =? 401 then send_authenticated_allocate (take_challenge c m) tx
  else if code =? 438 then
    let c := match msg_nonce m with
             | Some n => with_auth c (realm c) (Some n) (lt_key c) (auth_attempts c)
             | None => c
             end in
    send_authenticated_allocate c tx
  else (with_state c Expired, Err (CheckFailed ("TURN Allocate error " +:+ pretty code))).

(** A response to another transaction, and a message that should be signed and is not. *)
Definition stale_response c (m : TurnMessage) : bool :=
  ((t_class m =? 2) || (t_class m =? 3)) &&
  match pending_tid c with Some tid => bool_decide (t_tid m <> tid) | None => false end.

Definition unsigned_message c (raw : bytes) (m : TurnMessage) : bool :=
  let is_auth_challenge := (t_class m =? 3) && (bool_decide (error_code m = Some 401) || bool_decide (error_code m = Some 438)) in
  let is_indication := t_class m =? 1 in
  negb is_auth_challenge && negb is_indication &&
  match lt_key c with Some key => negb (is_ok (turn_verify_integrity raw key)) | None => false end.

Definition turn_handle_incoming c (raw : bytes) (now : Z) (tx : result IceError unit)
    : TurnClient R * result IceError (option (SocketAddr * bytes)) :=
  match turn_decode raw with
  | Err _ => (c, Ok None)
  | Ok m =>
      if stale_response c m then (c, Ok None) else
      if unsigned_message c raw m then (c, Ok None) else
      if (t_method m =? METHOD_ALLOCATE) && (t_class m =? 2) then (allocate_success c m now, Ok None)
      else if (t_method m =? METHOD_ALLOCATE) && (t_class m =? 3) then
        let '(c, r) := allocate_error c m tx in (c, let? _ := r in Ok None)
      else if (t_method m =? METHOD_REFRESH) && (t_class m =? 2) then
        (with_state (with_expiry c (lifetime_from c m now)) Allocated, Ok None)
      else if (t_method m =? METHOD_REFRESH) && (t_class m =? 3) then
        (with_state c Expired, Err (CheckFailed "TURN Refresh rejected"))
      else if (t_method m =? METHOD_DATA) && (t_class m =? 1) then
        match peer_address m, msg_data m with
        | Some peer_addr, Some payload => (c, Ok (Some (peer_addr, payload)))
        | _, _ => (c, Ok None)
        end
      else (c, Ok None)
  end.

Definition is_expired c (now : Z) : bool :=
  match t_expires_at c with Some exp => exp <=? now | None => false end.

Definition mark_expired c : TurnClient R := with_relay (with_state c Expired) None.

End Client.
