(* ===== verification/TurnWire.v ===== *)
(** * TURN messages on the wire (crates/sh-ice/src/turn.rs)

    turn.rs repeats the codec of stun.rs with its own attribute set: the two copies agree where
    they overlap, and the proofs on attributes and message integrity carry over. *)

From stdpp Require Import base numbers list option strings sets.
From S2P Require Import Prelude Utf8 Stun StunWire IceAgent Turn.

(** ** The two copies of the codec *)

Lemma turn_push_tlv_eq buf t v : turn_push_tlv buf t v = push_tlv buf t v.
Proof. done. Qed.

Lemma xor_addr_eq a tid : xor_addr a tid = encode_xor_mapped_address a tid.
Proof. by destruct a. Qed.

Lemma dxor_addr_eq v tid t : dxor_addr v tid t = decode_xor_mapped_address v tid t.
Proof.
  unfold dxor_addr, decode_xor_mapped_address. destruct (blen v <? 4) eqn:E; [done|]. simplify_bool.
  destruct (v !! 1%nat) as [f|] eqn:Ef; [|apply lookup_ge_None in Ef; unfold blen in E; lia].
  destruct (get_range_total v 2 4) as (b & Hb & _); [lia..|]. rewrite Hb. cbn [ok_or default].
  by rewrite (u16_at_get v 2 b Hb).
Qed.

Lemma find_attr_loop_eq n ab t pos :
  find_attr_loop n ab t pos = map_err (missing_as IntegrityMismatch) (find_loop n ab t pos).
Proof.
  revert pos. induction n as [|n IH]; intros pos; [done|]. cbn [find_attr_loop find_loop].
  destruct (_ <? _); [done|]. destruct (_ <? _); [done|]. destruct (_ =? _); [done|]. apply IH.
Qed.

Lemma find_attr_eq raw t : find_attr raw t = map_err (missing_as IntegrityMismatch) (find_attr_offset raw t).
Proof.
  unfold find_attr, find_attr_offset. change STUN_HDR with STUN_HEADER_LEN. destruct (_ <? _); [done|].
  destruct (get_range _ _ _); [|done]. cbn [ok_or]. apply find_attr_loop_eq.
Qed.

(** ** Attributes *)

Definition t_type (a : TurnAttr) : Z :=
  match a with
  | TXorRelayedAddress _ => 0x0016 | TXorPeerAddress _ => 0x0012 | TXorMappedAddress _ => 0x0020
  | TLifetime _ => 0x000D | TChannelNumber _ => 0x000C | TData _ => 0x0013 | TRealm _ => 0x0014
  | TNonce _ => 0x0015 | TErrorCode _ _ => 0x0009 | TRequestedTransport _ => 0x0019
  | TUsername _ => 0x0006 | TMessageIntegrity _ => 0x0008 | TUnknown t _ => t
  end.

Definition t_value (a : TurnAttr) (tid : bytes) : bytes :=
  match a with
  | TXorRelayedAddress a | TXorPeerAddress a | TXorMappedAddress a => xor_addr a tid
  | TLifetime s => to_be 4 s
  | TChannelNumber ch => to_be 2 ch ++ [0; 0]
  | TData d | TNonce d | TRealm d | TUsername d | TMessageIntegrity d | TUnknown _ d => d
  | TErrorCode code reason => [0; 0; (code / 100) mod 256; (code mod 100) mod 256] ++ reason
  | TRequestedTransport p => [p; 0; 0; 0]
  end.

Definition T_KNOWN : list Z :=
  [0x0006; 0x0008; 0x0009; 0x000C; 0x000D; 0x0012; 0x0013; 0x0014; 0x0015; 0x0016; 0x0019; 0x0020].

Definition tattr_wf (a : TurnAttr) : Prop :=
  match a with
  | TXorRelayedAddress a | TXorPeerAddress a | TXorMappedAddress a => addr_wf a
  | TLifetime s => is_u32 s
  | TChannelNumber ch => is_u16 ch
  | TData d | TNonce d => bytes_ok d
  | TRealm s | TUsername s => utf8_valid s = true /\ bytes_ok s
  | TErrorCode code reason => 0 <= code < 25600 /\ utf8_valid reason = true /\ bytes_ok reason
  | TRequestedTransport p => is_u8 p
  | TMessageIntegrity h => blen h = 20 /\ bytes_ok h
  | TUnknown t v => is_u16 t /\ ~ t ∈ T_KNOWN /\ bytes_ok v
  end.

Definition t_tlv (tid : bytes) (a : TurnAttr) : bytes := tlv (t_type a) (t_value a tid).

Lemma encode_attrs_eq attrs tid : encode_attrs attrs tid = concat (map (t_tlv tid) attrs).
Proof.
  unfold encode_attrs. rewrite <- (app_nil_l (concat _)). generalize (@nil Z).
  induction attrs as [|a attrs IH]; intros buf; cbn [fold_left map concat]; [by rewrite app_nil_r|].
  rewrite IH, app_assoc. f_equal. by destruct a.
Qed.

Lemma t_aligned attrs tid : blen (encode_attrs attrs tid) mod 4 = 0.
Proof.
  rewrite encode_attrs_eq. induction attrs as [|a attrs IH]; [done|]. cbn [map concat].
  rewrite blen_app. unfold t_tlv at 1. rewrite blen_tlv, padded_spec.
  rewrite <- Z.add_mod_idemp_r, IH by lia. Z.div_mod_to_equations. lia.
Qed.

Lemma t_type_u16 a : tattr_wf a -> is_u16 (t_type a).
Proof. destruct a; cbn; intros H; try by apply H. all: done. Qed.

Lemma t_unknown t v tid : ~ t ∈ T_KNOWN -> decode_one_attr t v tid = Ok (TUnknown t v).
Proof.
  intros Ht. unfold decode_one_attr.
  assert (forall k, k ∈ T_KNOWN -> (t =? k) = false) as Hk.
  { intros k Hk. apply Z.eqb_neq. by intros ->. }
  rewrite !Hk by (unfold T_KNOWN; set_solver). done.
Qed.

Lemma t_error_code code reason tid :
  0 <= code < 25600 -> utf8_valid reason = true ->
  decode_one_attr 0x0009 ([0; 0; (code / 100) mod 256; (code mod 100) mod 256] ++ reason) tid = Ok (TErrorCode code reason).
Proof.
  intros Hc Hr. pose proof (error_code_roundtrip code reason tid Hc Hr) as E.
  unfold decode_one_attr, decode_one_attribute in *. cbn [Z.eqb Pos.eqb] in *.
  destruct (blen _ <? 4); [done|]. cbn -[Z.mul Z.add Z.div Z.modulo from_utf8_lossy sat_add sat_mul get_from] in *.
  injection E as E1 E2. by rewrite E1, E2.
Qed.

Lemma decode_one_attr_roundtrip a tid :
  tid_wf tid -> tattr_wf a -> decode_one_attr (t_type a) (t_value a tid) tid = Ok a.
Proof.
  intros Ht. destruct a; cbn [tattr_wf t_type t_value]; intros Hwf;
    lazymatch goal with
    | |- context [TErrorCode] => by apply t_error_code; apply Hwf
    | |- context [TUnknown _ _] => by apply t_unknown, Hwf
    | _ => cbv [decode_one_attr ATTR_USERNAME ATTR_MESSAGE_INTEGRITY ATTR_ERROR_CODE ATTR_CHANNEL_NUMBER ATTR_LIFETIME
             ATTR_XOR_PEER_ADDRESS ATTR_DATA ATTR_REALM ATTR_NONCE ATTR_XOR_RELAYED_ADDRESS ATTR_REQUESTED_TRANSPORT
             ATTR_XOR_MAPPED_ADDRESS Z.eqb Pos.eqb]
    end.
  1-3: by rewrite dxor_addr_eq, xor_addr_eq, decode_xor_mapped_roundtrip.
  - rewrite get_prefix by (by rewrite blen_to_be). cbn -[to_be]. by rewrite from_be_to_be_small.
  - rewrite (u16_at_get _ 0 (to_be 2 ch)) by (by apply (get_range_at _ [] (to_be 2 ch) [0; 0])).
    cbn -[to_be from_be]. by rewrite be2_small.
  - done.
  - by rewrite from_utf8_lossy_valid by apply Hwf.
  - done.
  - done.
  - by destruct Hwf as [-> _].
  - destruct Hwf as [Hl _]. by rewrite Hl, get_prefix.
Qed.

Lemma t_value_ok a tid : tid_wf tid -> tattr_wf a -> bytes_ok (t_value a tid).
Proof.
  intros Ht Hwf. destruct a; cbn [tattr_wf t_value] in *; try apply to_be_ok; try by apply Hwf.
  1-3: rewrite xor_addr_eq; by apply (attr_value_ok (XorMappedAddress _) tid).
  all: solve_bytes_ok; apply Hwf.
Qed.

Lemma encode_attrs_ok attrs tid : tid_wf tid -> Forall tattr_wf attrs -> bytes_ok (encode_attrs attrs tid).
Proof.
  intros Ht Hwf. rewrite encode_attrs_eq. induction Hwf as [|a l Ha _ IH]; [constructor|].
  cbn [map concat]. apply Forall_app_2; [|done]. by apply tlv_ok, t_value_ok.
Qed.

(** ** The walk over the attributes *)

Lemma attrs_loop_tlv n pre t v rest tid :
  is_u16 t -> blen v <= u16_max ->
  attrs_loop (S n) (pre ++ tlv t v ++ rest) tid (blen pre) =
    let? attr := decode_one_attr t v tid in
    let? attrs := attrs_loop n ((pre ++ tlv t v) ++ rest) tid (blen (pre ++ tlv t v)) in
    Ok (attr :: attrs).
Proof.
  intros Ht Hv. pose proof (blen_nonneg pre). cbn [attrs_loop]. cbv zeta.
  destruct (tlv_reads pre t v rest Ht Hv) as (-> & -> & ->).
  pose proof (blen_tlv_le pre t v rest) as Hle. pose proof (blen_nonneg v).
  rewrite (proj2 (Z.leb_gt _ _)), !(proj2 (Z.ltb_ge _ _)) by lia. cbn [ok_or].
  rewrite (blen_app pre), blen_tlv, <- app_assoc. by rewrite Z.add_assoc.
Qed.

Lemma attrs_loop_encoded n pre attrs tid :
  tid_wf tid -> Forall tattr_wf attrs -> Forall (fun a => blen (t_value a tid) <= u16_max) attrs ->
  (length attrs < n)%nat ->
  attrs_loop n (pre ++ encode_attrs attrs tid) tid (blen pre) = Ok attrs.
Proof.
  intros Ht Hwf Hl. rewrite encode_attrs_eq. revert pre n.
  induction attrs as [|a attrs IH]; intros pre n Hn; (destruct n as [|n]; [lia|]); cbn [map concat].
  - cbn [attrs_loop]. by rewrite app_nil_r, Z.leb_refl.
  - inversion Hwf; subst. inversion Hl; subst. unfold t_tlv at 1.
    rewrite attrs_loop_tlv, decode_one_attr_roundtrip by (try done; by apply t_type_u16).
    rewrite IH; try done. cbn in Hn. lia.
Qed.

Lemma t_count attrs tid : (4 * length attrs <= length (encode_attrs attrs tid))%nat.
Proof.
  rewrite encode_attrs_eq. induction attrs as [|a l IH]; [cbn; lia|]. cbn [map concat length].
  rewrite length_app. pose proof (blen_tlv (t_type a) (t_value a tid)) as Hb. fold (t_tlv tid a) in Hb.
  pose proof (padded_range (blen (t_value a tid))). pose proof (blen_nonneg (t_value a tid)).
  assert (4 <= blen (t_tlv tid a)) as H4 by lia. unfold blen in H4. lia.
Qed.

Lemma t_values_small attrs tid :
  blen (encode_attrs attrs tid) <= u16_max -> Forall (fun a => blen (t_value a tid) <= u16_max) attrs.
Proof.
  rewrite encode_attrs_eq. induction attrs as [|a l IH]; intros Hl; [constructor|]. cbn [map concat] in Hl.
  rewrite blen_app in Hl. unfold t_tlv at 1 in Hl. rewrite blen_tlv in Hl.
  pose proof (padded_range (blen (t_value a tid))). pose proof (blen_nonneg (t_value a tid)).
  pose proof (blen_nonneg (concat (map (t_tlv tid) l))). constructor; [lia|]. apply IH. lia.
Qed.

Lemma decode_attrs_encoded attrs tid :
  tid_wf tid -> Forall tattr_wf attrs -> blen (encode_attrs attrs tid) <= u16_max ->
  decode_attrs (encode_attrs attrs tid) tid = Ok attrs.
Proof.
  intros Ht Hwf Hl. unfold decode_attrs. apply (attrs_loop_encoded _ []); try done.
  - by apply t_values_small.
  - pose proof (t_count attrs tid). lia.
Qed.

(** ** Headers *)

Definition type_word (method class : Z) : Z :=
  Z.lor (Z.lor (Z.lor (Z.lor (Z.shiftl (Z.land method 0xF80) 2) (Z.shiftl (Z.land method 0x070) 1)) (Z.land method 0x00F))
    (Z.shiftl (Z.land (Z.shiftr class 1) 1) 8)) (Z.shiftl (Z.land class 1) 4).

Definition word_method (w : Z) : Z :=
  Z.lor (Z.lor (Z.land (Z.shiftr w 2) 0xF80) (Z.land (Z.shiftr w 1) 0x070)) (Z.land w 0x00F).

Definition word_class (w : Z) : Z :=
  Z.lor (Z.shiftl (Z.land (Z.shiftr w 8) 1) 1) (Z.land (Z.shiftr w 4) 1).

Lemma type_words_ok :
  forallb (fun m => forallb (fun c =>
    let w := from_be (to_be 2 (type_word m c)) in
    (word_method w =? m) && (word_class w =? c) && (Z.land w 0xC000 =? 0)) (seqZ 0 4)) (seqZ 0 4096) = true.
Proof. vm_compute. reflexivity. Qed.

Lemma type_word_roundtrip m c :
  0 <= m < 4096 -> 0 <= c < 4 ->
  let w := from_be (to_be 2 (type_word m c)) in word_method w = m /\ word_class w = c /\ Z.land w 0xC000 = 0.
Proof.
  intros Hm Hc. pose proof type_words_ok as Hall. rewrite forallb_forall in Hall.
  specialize (Hall m). rewrite forallb_forall in Hall.
  specialize (Hall ltac:(apply list_elem_of_In, elem_of_seqZ; lia) c ltac:(apply list_elem_of_In, elem_of_seqZ; lia)).
  cbv zeta in *. simplify_bool. done.
Qed.

Lemma turn_header_app m c tid n body :
  turn_build_header m c tid n ++ body =
  pieces (to_be 2 (type_word m c)) (to_be 2 (len_u16 n)) (to_be 4 MAGIC_COOKIE) tid body.
Proof. unfold turn_build_header, pieces, type_word, len_u16. by rewrite <- !app_assoc. Qed.

Record turn_wf (m : TurnMessage) : Prop := {
  tw_method : 0 <= t_method m < 4096;
  tw_class : 0 <= t_class m < 4;
  tw_tid : tid_wf (t_tid m);
  tw_attrs : Forall tattr_wf (t_attrs m);
  tw_len : blen (encode_attrs (t_attrs m) (t_tid m)) + 24 <= u16_max;
}.

Lemma turn_decode_body m c tid body tail attrs :
  0 <= m < 4096 -> 0 <= c < 4 -> blen tid = 12 -> blen body mod 4 = 0 -> blen body <= u16_max ->
  decode_attrs body tid = Ok attrs ->
  turn_decode (turn_build_header m c tid (blen body) ++ body ++ tail) =
    Ok {| t_method := m; t_class := c; t_tid := tid; t_attrs := attrs |}.
Proof.
  intros Hm Hc Ht Hal Hmax Hd. rewrite turn_header_app. pose proof (blen_nonneg body). pose proof (blen_nonneg tail).
  assert (from_be (to_be 2 (len_u16 (blen body))) = blen body) as Hlen.
  { unfold len_u16. rewrite Z.min_l by done. apply be2_small. unfold is_u16, u16_max in *. lia. }
  destruct (pieces_reads (to_be 2 (type_word m c)) (to_be 2 (len_u16 (blen body))) (to_be 4 MAGIC_COOKIE) tid (body ++ tail))
    as (Hl & Hty & Hn & Hck & Htid); [by rewrite ?blen_to_be..|].
  destruct (type_word_roundtrip m c Hm Hc) as (Hwm & Hwc & Hwb).
  unfold turn_decode. change STUN_HDR with STUN_HEADER_LEN. rewrite Hl, Hty, Hn, Hck, Htid, Hlen, Hwb, Hal.
  rewrite (proj2 (Z.ltb_ge _ _)) by (pose proof (blen_nonneg (body ++ tail)); lia). cbv zeta.
  cbn [negb Z.eqb]. change (from_be (to_be 4 MAGIC_COOKIE) =? TURN_MAGIC_COOKIE) with true. cbn [negb ok_or].
  rewrite (proj2 (Z.ltb_ge _ _)) by (rewrite blen_app; lia).
  unfold pieces. rewrite !app_assoc, <- (app_assoc _ body tail).
  rewrite take_body; [|rewrite !blen_app, !blen_to_be; unfold STUN_HEADER_LEN; lia|rewrite blen_app; lia].
  replace (Z.to_nat (blen body)) with (length body) by (unfold blen; lia). rewrite take_app_length. cbn [ok_or].
  rewrite Hd. fold (word_method (from_be (to_be 2 (type_word m c)))) (word_class (from_be (to_be 2 (type_word m c)))).
  by rewrite Hwm, Hwc.
Qed.

Lemma turn_decode_encode m tail : turn_wf m -> turn_decode (turn_encode m ++ tail) = Ok m.
Proof.
  intros [Hm Hc Ht Ha Hl]. unfold turn_encode. rewrite <- app_assoc.
  rewrite (turn_decode_body _ _ _ _ _ (t_attrs m)); try done; [by destruct m|apply Ht|apply t_aligned|lia|].
  apply decode_attrs_encoded; try done. lia.
Qed.

(** ** Message integrity *)

Lemma t_find n pre attrs t l rest tid :
  Forall tattr_wf attrs -> Forall (fun a => t_type a <> t) attrs ->
  Forall (fun a => blen (t_value a tid) <= u16_max) attrs -> (length attrs < n)%nat ->
  is_u16 t -> is_u16 l -> l <= blen rest ->
  find_loop n (pre ++ encode_attrs attrs tid ++ to_be 2 t ++ to_be 2 l ++ rest) t (blen pre) =
    Ok (STUN_HEADER_LEN + (blen pre + blen (encode_attrs attrs tid))).
Proof.
  intros Hwf Hne Hsm Hn Ht Hl Hr. rewrite encode_attrs_eq. revert pre n Hn.
  induction attrs as [|a attrs IH]; intros pre n Hn; (destruct n as [|n]; [lia|]); cbn [map concat].
  - change (blen []) with 0. rewrite Z.add_0_r. cbn [app]. by apply find_loop_hit.
  - inversion Hwf; subst. inversion Hne; subst. inversion Hsm; subst. unfold t_tlv at 1 3. rewrite <- app_assoc.
    rewrite find_loop_tlv by (try done; by apply t_type_u16). rewrite (proj2 (Z.eqb_neq _ _)) by done.
    cbn [length] in Hn. rewrite IH by (done || lia). rewrite !blen_app. do 2 f_equal. lia.
Qed.

Section TurnIntegrityLaws.
Context `{HL : StunLaws}.

Lemma turn_hmac_eq key data mac : turn_hmac_sha1 key data = Ok mac <-> compute_hmac_sha1 key data = Ok mac.
Proof. unfold turn_hmac_sha1, compute_hmac_sha1. destruct (hmac_sha1 key data); cbn; split; congruence. Qed.

(** The two copies of the integrity check accept the same messages. *)
Lemma turn_verify_iff raw key : turn_verify_integrity raw key = Ok tt <-> verify_integrity raw key = Ok tt.
Proof.
  unfold turn_verify_integrity, verify_integrity. change STUN_HDR with STUN_HEADER_LEN.
  change ATTR_MESSAGE_INTEGRITY with 8. rewrite find_attr_eq.
  destruct (map_err _ _) as [off|]; [|done]. destruct (_ && _); [done|].
  destruct (ok_or (get_range raw 0 off) _) as [pre|]; [|done].
  pose proof (turn_hmac_eq key (set_length pre (sat_sub (off + 24) STUN_HEADER_LEN))) as Hh.
  destruct (turn_hmac_sha1 key _) as [m1|], (compute_hmac_sha1 key _) as [m2|]; try done.
  - by rewrite (proj1 (Hh m1) eq_refl) || (pose proof (proj1 (Hh m1) eq_refl) as E; injection E as ->).
  - by pose proof (proj1 (Hh m1) eq_refl).
  - by pose proof (proj2 (Hh m2) eq_refl).
Qed.

Definition turn_with (m : TurnMessage) (extra : list TurnAttr) : TurnMessage :=
  {| t_method := t_method m; t_class := t_class m; t_tid := t_tid m; t_attrs := t_attrs m ++ extra |}.

Lemma encode_attrs_app l1 l2 tid : encode_attrs (l1 ++ l2) tid = encode_attrs l1 tid ++ encode_attrs l2 tid.
Proof. rewrite !encode_attrs_eq. by rewrite map_app, concat_app. Qed.

Lemma encode_t_mi mac tid : blen mac = 20 -> encode_attrs [TMessageIntegrity mac] tid = to_be 2 0x0008 ++ to_be 2 20 ++ mac.
Proof.
  intros Hm. rewrite encode_attrs_eq. cbn [map concat]. rewrite app_nil_r. unfold t_tlv.
  cbn [t_type t_value]. by rewrite tlv_aligned, Hm by (rewrite Hm; done).
Qed.

Definition t_body (m : TurnMessage) : bytes := encode_attrs (t_attrs m) (t_tid m).

(** A message in its fields, with the code attribute [mac] behind its attributes. *)
Definition mac_tlv (mac : bytes) : bytes := to_be 2 0x0008 ++ to_be 2 20 ++ mac.

Definition signed_raw (m : TurnMessage) (mac : bytes) : bytes :=
  turn_build_header (t_method m) (t_class m) (t_tid m) (blen (t_body m) + 24) ++ t_body m ++ mac_tlv mac.

Lemma blen_mac_tlv mac : blen mac = 20 -> blen (mac_tlv mac) = 24.
Proof. intros Hm. unfold mac_tlv. rewrite !blen_app, !blen_to_be. lia. Qed.

Lemma signed_reads m mac :
  turn_wf m -> blen mac = 20 ->
  blen (signed_raw m mac) = STUN_HEADER_LEN + blen (t_body m) + 24 /\ u16_at (signed_raw m mac) 2 = blen (t_body m) + 24 /\
  forall a b, 0 <= a ->
    get_range (signed_raw m mac) (STUN_HEADER_LEN + a) (STUN_HEADER_LEN + b) = get_range (t_body m ++ mac_tlv mac) a b.
Proof.
  intros Hwf Hm. pose proof (tw_len _ Hwf) as Hl. fold (t_body m) in Hl. pose proof (blen_nonneg (t_body m)).
  pose proof (tw_tid _ Hwf) as [Ht _]. unfold signed_raw. rewrite turn_header_app.
  destruct (pieces_reads (to_be 2 (type_word (t_method m) (t_class m))) (to_be 2 (len_u16 (blen (t_body m) + 24)))
    (to_be 4 MAGIC_COOKIE) (t_tid m) (t_body m ++ mac_tlv mac)) as (Hrl & _ & Hrn & _ & _); [apply blen_to_be..|done|].
  rewrite Hrl, Hrn, blen_app, blen_mac_tlv by done. split_and!; [lia| |].
  - unfold len_u16. rewrite Z.min_l by done. apply be2_small. unfold is_u16, u16_max in *. lia.
  - intros a b Ha. apply pieces_body; try apply blen_to_be; done.
Qed.

Lemma find_attr_signed m mac :
  turn_wf m -> Forall (fun a => t_type a <> 0x0008) (t_attrs m) -> blen mac = 20 ->
  find_attr (signed_raw m mac) ATTR_MESSAGE_INTEGRITY = Ok (STUN_HEADER_LEN + blen (t_body m)).
Proof.
  intros Hwf Hne Hm. destruct (signed_reads m mac Hwf Hm) as (Hl & Hn & Hb). pose proof (tw_len _ Hwf) as Hmax.
  fold (t_body m) in Hmax. pose proof (blen_nonneg (t_body m)).
  rewrite find_attr_eq. unfold find_attr_offset. rewrite Hl, Hn, (proj2 (Z.ltb_ge _ _)) by lia.
  rewrite <- (Z.add_0_r STUN_HEADER_LEN) at 1. rewrite Hb, get_prefix by (rewrite ?blen_app, ?blen_mac_tlv; done || lia).
  cbn [ok_or]. pose proof (t_count (t_attrs m) (t_tid m)) as Hcnt. fold (t_body m) in Hcnt.
  pose proof (t_find (S (length (t_body m ++ mac_tlv mac))) [] (t_attrs m) 8 20 mac (t_tid m) (tw_attrs _ Hwf) Hne) as Hf.
  fold (t_body m) in Hf. fold (mac_tlv mac) in Hf. change (blen []) with 0 in Hf. cbn [app] in Hf. rewrite Z.add_0_l in Hf.
  change ATTR_MESSAGE_INTEGRITY with 8. rewrite Hf; try done; [|rewrite length_app; lia|lia].
  apply t_values_small. fold (t_body m). lia.
Qed.

Lemma turn_verify_signed m mac key :
  turn_wf m -> Forall (fun a => t_type a <> 0x0008) (t_attrs m) -> blen mac = 20 ->
  turn_hmac_sha1 key (turn_build_header (t_method m) (t_class m) (t_tid m) (blen (t_body m) + 24) ++ t_body m) = Ok mac ->
  turn_verify_integrity (signed_raw m mac) key = Ok tt.
Proof.
  intros Hwf Hne Hm Hmac. unfold turn_verify_integrity. rewrite find_attr_signed by done.
  destruct (signed_reads m mac Hwf Hm) as (Hl & Hn & Hb). change STUN_HDR with STUN_HEADER_LEN. rewrite Hn.
  rewrite (proj2 (Z.ltb_ge _ _)) by lia. cbn [andb]. pose proof (blen_nonneg (t_body m)).
  set (h := turn_build_header _ _ _ _) in Hmac.
  assert (blen h = STUN_HEADER_LEN) as Hh.
  { unfold h, turn_build_header. rewrite !blen_app, !blen_to_be, (proj1 (tw_tid _ Hwf)). done. }
  assert (get_range (signed_raw m mac) 0 (STUN_HEADER_LEN + blen (t_body m)) = Some (h ++ t_body m)) as ->.
  { apply (get_range_at _ [] _ (mac_tlv mac)); [unfold signed_raw; by rewrite <- !app_assoc|done|].
    rewrite blen_app, Hh. lia. }
  cbn [ok_or]. replace (set_length (h ++ t_body m) _) with (h ++ t_body m).
  2:{ unfold h. rewrite turn_header_app, set_length_pieces by apply blen_to_be. do 3 f_equal.
      unfold sat_sub, STUN_HEADER_LEN. lia. }
  rewrite Hmac. replace (STUN_HEADER_LEN + blen (t_body m) + 4) with (STUN_HEADER_LEN + (blen (t_body m) + 4)) by lia.
  rewrite <- Z.add_assoc, Hb by lia.
  rewrite (get_range_at _ (t_body m ++ to_be 2 8 ++ to_be 2 20) mac []);
    [|unfold mac_tlv; by rewrite app_nil_r, <- !app_assoc|rewrite !blen_app, !blen_to_be; lia|lia].
  cbn [ok_or]. unfold bytes_eqb. by rewrite bool_decide_eq_true_2.
Qed.

(** A signed message decodes to the message with the code behind, and passes the check. *)
Lemma turn_signed m key :
  turn_wf m -> Forall (fun a => t_type a <> 0x0008) (t_attrs m) ->
  exists mac out, turn_encode_with_integrity m key = Ok out /\
    turn_decode out = Ok (turn_with m [TMessageIntegrity mac]) /\ turn_verify_integrity out key = Ok tt.
Proof.
  intros Hwf Hne.
  destruct (compute_hmac_total key (turn_build_header (t_method m) (t_class m) (t_tid m) (blen (t_body m) + 24) ++ t_body m))
    as (mac & Hmac%turn_hmac_eq & Hm & Hmok).
  exists mac, (signed_raw m mac). split_and!.
  - unfold turn_encode_with_integrity, signed_raw. fold (t_body m). rewrite Hmac. by rewrite <- app_assoc.
  - destruct Hwf as [H1 H2 H3 H4 H5]. unfold signed_raw. fold (t_body m) in H5.
    assert (t_body m ++ mac_tlv mac = encode_attrs (t_attrs m ++ [TMessageIntegrity mac]) (t_tid m)) as Hb.
    { by rewrite encode_attrs_app, encode_t_mi. }
    replace (blen (t_body m) + 24) with (blen (t_body m ++ mac_tlv mac)) by (rewrite blen_app, blen_mac_tlv; done).
    rewrite <- (app_nil_r (t_body m ++ mac_tlv mac)) at 2.
    assert (blen (t_body m ++ mac_tlv mac) <= u16_max) as Hmax by (rewrite blen_app, blen_mac_tlv; done).
    rewrite Hb in *. apply turn_decode_body; try done; [apply H3|apply t_aligned|].
    apply decode_attrs_encoded; try done. apply Forall_app_2; [done|by apply Forall_singleton].
  - by apply turn_verify_signed.
Qed.

(** ** ChannelData *)

Lemma channel_data_roundtrip ch data :
  CHANNEL_MIN <= ch <= CHANNEL_MAX -> blen data <= u16_max ->
  exists frame, build_channel_data ch data = Ok frame /\ blen frame mod 4 = 0 /\
    forall tail, decode_channel_data (frame ++ tail) = Ok (ch, data).
Proof.
  intros Hch Hd. unfold build_channel_data, valid_channel.
  rewrite (proj2 (Z.leb_le _ _) (proj1 Hch)), (proj2 (Z.leb_le _ _) (proj2 Hch)). cbn [andb negb].
  eexists. split; [reflexivity|]. unfold CHANNEL_MIN, CHANNEL_MAX in Hch.
  rewrite Z.min_l by done. change (Z.land (_ mod _) 3) with (pad_of (blen data)).
  pose proof (blen_tlv ch data) as Hlen. unfold tlv, push_tlv, len_u16 in Hlen. rewrite Z.min_l in Hlen by done. cbn [app] in Hlen.
  split; [rewrite Hlen, padded_spec; Z.div_mod_to_equations; lia|]. intros tail.
  pose proof (tlv_reads [] ch data tail ltac:(unfold is_u16; lia) Hd) as (Ht & Hl & Hv).
  unfold tlv, push_tlv, len_u16 in Ht, Hl, Hv. rewrite Z.min_l in Ht, Hl, Hv by done. cbn [app] in Ht, Hl, Hv.
  change (blen [] + 2) with 2 in Hl. change (blen []) with 0 in Ht, Hv. change (0 + 4) with CHANNEL_HDR in Hv.
  unfold decode_channel_data. rewrite Ht, Hl, Hv. cbn [ok_or].
  pose proof (padded_range (blen data)). pose proof (blen_nonneg data). pose proof (blen_nonneg tail).
  rewrite blen_app, Hlen. unfold CHANNEL_HDR. by rewrite !(proj2 (Z.ltb_ge _ _)) by lia.
Qed.

End TurnIntegrityLaws.
