(* ===== verification/TurnSafety.v ===== *)
(** * The TURN client's allocation (crates/sh-ice/src/turn.rs)

    Any sequence of the client's operations, with any datagrams arriving; the exchange with a
    server that follows RFC 8656; and what the cap on authentication attempts rules out. *)

From stdpp Require Import base numbers list option strings.
From S2P Require Import Prelude Utf8 Stun StunWire IceAgent IceSafety Turn TurnWire.

(** ** Runs *)

Inductive turn_op :=
| TStart (tx : result IceError unit)
| TRefresh (tx : result IceError unit)
| TPermission (peer : SocketAddr) (tx : result IceError unit)
| TBind (channel : Z) (peer : SocketAddr) (tx : result IceError unit)
| TIndication (peer : SocketAddr) (data : bytes) (tx : result IceError unit)
| TIncoming (raw : bytes) (now : Z) (tx : result IceError unit)
| TMarkExpired.

Section Turn.
Context {R : Type} `{!Rng R} `{HP : !StunPrims} `{!StunLaws} `{!Md5}.
Implicit Types c : TurnClient R.

Definition turn_apply c (op : turn_op) : TurnClient R :=
  match op with
  | TStart tx => fst (start_allocate c tx)
  | TRefresh tx => fst (send_refresh c tx)
  | TPermission peer tx => fst (create_permission c peer tx)
  | TBind ch peer tx => fst (channel_bind c ch peer tx)
  | TIndication peer data tx => fst (send_indication c peer data tx)
  | TIncoming raw now tx => fst (turn_handle_incoming c raw now tx)
  | TMarkExpired => mark_expired c
  end.

Definition turn_run c (ops : list turn_op) : TurnClient R := fold_left turn_apply ops c.

(** The credentials a client holds: a key belongs to its realm, comes with a nonce, and stands
    for the one challenge it answers. *)
Record turn_inv (cfg : TurnConfig) c : Prop := {
  ti_config : t_config c = cfg;
  ti_attempts : auth_attempts c = 0 \/ auth_attempts c = 1;
  ti_none : auth_attempts c = 0 -> realm c = None /\ nonce c = None /\ lt_key c = None;
  ti_key : forall k, lt_key c = Some k ->
    is_Some (nonce c) /\ exists r, realm c = Some r /\ k = long_term_key (t_username cfg) r (t_password cfg);
  ti_pending : is_Some (lt_key c) -> is_Some (pending_tid c);
}.

(** The fields the invariant speaks of. *)
Definition same_auth c c' : Prop :=
  t_config c' = t_config c /\ auth_attempts c' = auth_attempts c /\ realm c' = realm c /\ nonce c' = nonce c /\
  lt_key c' = lt_key c /\ (is_Some (pending_tid c) -> is_Some (pending_tid c')).

Lemma same_auth_refl c : same_auth c c.
Proof. done. Qed.

Lemma same_auth_inv cfg c c' : same_auth c c' -> turn_inv cfg c -> turn_inv cfg c'.
Proof. intros (E1 & E2 & E3 & E4 & E5 & E6) [H1 H2 H3 H4 H5]. split; rewrite ?E1, ?E2, ?E3, ?E4, ?E5; auto. Qed.

Lemma send_signed_auth c m k tx : same_auth c (fst (send_signed c m k tx)).
Proof. unfold send_signed. by destruct (turn_encode_with_integrity m k). Qed.

Lemma same_auth_trans c1 c2 c3 : same_auth c1 c2 -> same_auth c2 c3 -> same_auth c1 c3.
Proof. unfold same_auth. intros (->&->&->&->&->&H1) (->&->&->&->&->&H2). split_and!; auto. Qed.

Lemma auth_allocate_auth c tx : same_auth c (fst (send_authenticated_allocate c tx)).
Proof.
  unfold send_authenticated_allocate. destruct (realm c) eqn:Er; [|done]. destruct (nonce c) eqn:En; [|done].
  destruct (lt_key c) eqn:Ek; [|done]. destruct (generate_tid _) as [r t].
  eapply same_auth_trans; [|apply send_signed_auth]. done.
Qed.

Lemma auth_allocate_pending c tx :
  is_Some (realm c) -> is_Some (nonce c) -> is_Some (lt_key c) ->
  is_Some (pending_tid (fst (send_authenticated_allocate c tx))).
Proof.
  intros [r Er] [n En] [k Ek]. unfold send_authenticated_allocate. rewrite Er, En, Ek.
  destruct (generate_tid _) as [r' t]. by apply send_signed_auth.
Qed.

Lemma refresh_auth c tx : same_auth c (fst (send_refresh c tx)).
Proof.
  unfold send_refresh. destruct (negb _); [done|]. destruct (credentials c) as [[[k r] n]|]; [|done].
  destruct (generate_tid _). eapply same_auth_trans; [|apply send_signed_auth]. done.
Qed.

Lemma permission_auth c peer tx : same_auth c (fst (create_permission c peer tx)).
Proof.
  unfold create_permission. destruct (negb _); [done|]. destruct (credentials c) as [[[k r] n]|]; [|done].
  destruct (generate_tid _). eapply same_auth_trans; [|apply send_signed_auth]. done.
Qed.

Lemma bind_auth c ch peer tx : same_auth c (fst (channel_bind c ch peer tx)).
Proof.
  unfold channel_bind. destruct (negb _); [done|]. destruct (negb _); [done|]. destruct (credentials c) as [[[k r] n]|]; [|done].
  destruct (generate_tid _). eapply same_auth_trans; [|apply send_signed_auth]. done.
Qed.

Lemma indication_auth c peer data tx : same_auth c (fst (send_indication c peer data tx)).
Proof. unfold send_indication. destruct (negb _); [done|]. by destruct (generate_tid _). Qed.

Lemma start_auth c tx : same_auth c (fst (start_allocate c tx)).
Proof. unfold start_allocate. by destruct (generate_tid _). Qed.

Lemma allocate_error_inv cfg c m tx : turn_inv cfg c -> turn_inv cfg (fst (allocate_error c m tx)).
Proof.
  intros [H1 H2 H3 H4 H5]. unfold allocate_error. set (code := default 0 (error_code m)).
  destruct ((code =? 401) || (code =? 438)) eqn:Ec; cbn [andb].
  - destruct (Z.leb_spec 1 (auth_attempts c)) as [|Hlt]; [by split|].
    assert (auth_attempts c = 0) as E0 by lia. destruct (H3 E0) as (Er & En & Ek). rewrite E0.
    change (sat_add 255 0 1) with 1.
    destruct (code =? 401).
    + unfold take_challenge. cbn [realm nonce lt_key t_config with_auth auth_attempts]. rewrite Er, En, Ek.
      match goal with |- context [send_authenticated_allocate ?x tx] => set (c1 := x) end.
      pose proof (auth_allocate_auth c1 tx) as (E1 & E2 & E3 & E4 & E5 & _).
      split; rewrite ?E1, ?E2, ?E3, ?E4, ?E5; [done|by right|done|..].
      * intros k. cbn. destruct (msg_realm m) as [r|]; [|done]. destruct (msg_nonce m) as [n|]; [|done].
        intros [= <-]. split; [done|]. exists r. by rewrite H1.
      * intros Hk. apply auth_allocate_pending; [..|done]; cbn in Hk |- *;
          destruct (msg_realm m), (msg_nonce m); cbn in *; by destruct Hk.
    + destruct (code =? 438); [|done]. eapply same_auth_inv; [apply auth_allocate_auth|].
      destruct (msg_nonce m); cbn; (split; cbn; [done|by right|done|by rewrite Ek|rewrite Ek; by intros []]).
  - apply orb_false_iff in Ec as [-> ->]. by split.
Qed.

Lemma incoming_turn_inv cfg c raw now tx : turn_inv cfg c -> turn_inv cfg (fst (turn_handle_incoming c raw now tx)).
Proof.
  intros Hi. unfold turn_handle_incoming. destruct (turn_decode raw) as [m|]; [|done].
  destruct (stale_response c m); [done|]. destruct (unsigned_message c raw m); [done|].
  destruct (_ && _). { unfold allocate_success. destruct (relay_address m); by apply (same_auth_inv cfg c). }
  destruct (_ && _).
  { pose proof (allocate_error_inv cfg c m tx Hi) as H'. by destruct (allocate_error c m tx). }
  destruct (_ && _); [by apply (same_auth_inv cfg c)|]. destruct (_ && _); [by apply (same_auth_inv cfg c)|].
  destruct (_ && _); [|done]. destruct (peer_address m), (msg_data m); done.
Qed.

Lemma turn_apply_inv cfg c op : turn_inv cfg c -> turn_inv cfg (turn_apply c op).
Proof.
  intros Hi. destruct op; cbn [turn_apply].
  - by eapply same_auth_inv; [apply start_auth|].
  - by eapply same_auth_inv; [apply refresh_auth|].
  - by eapply same_auth_inv; [apply permission_auth|].
  - by eapply same_auth_inv; [apply bind_auth|].
  - by eapply same_auth_inv; [apply indication_auth|].
  - by apply incoming_turn_inv.
  - by apply (same_auth_inv cfg c).
Qed.

Lemma turn_run_inv cfg r ops : turn_inv cfg (turn_run (turn_new cfg r) ops).
Proof.
  unfold turn_run. assert (turn_inv cfg (turn_new cfg r)) as Hi.
  { split; cbn; auto; done. }
  revert Hi.
  generalize (turn_new cfg r). induction ops as [|op ops IH]; intros c Hi; [done|]. by apply IH, turn_apply_inv.
Qed.

(** ** What a keyed client accepts *)

(** The allocation as the caller sees it. *)
Definition same_allocation c c' : Prop :=
  relay_addr c' = relay_addr c /\ t_expires_at c' = t_expires_at c /\ (t_state c' = Allocated -> t_state c = Allocated).

Lemma auth_allocate_keeps c tx : same_allocation c (fst (send_authenticated_allocate c tx)).
Proof.
  unfold send_authenticated_allocate. destruct (realm c), (nonce c), (lt_key c); try (by split_and!).
  destruct (generate_tid _). unfold send_signed. destruct (turn_encode_with_integrity _ _); by split_and!.
Qed.

Lemma allocate_error_keeps c m tx : same_allocation c (fst (allocate_error c m tx)).
Proof.
  unfold allocate_error. set (code := default 0 _). destruct (_ && (1 <=? _)); [by split_and!|].
  assert (forall d, same_allocation c d -> same_allocation c (fst (send_authenticated_allocate d tx))) as Hs.
  { intros d (E1 & E2 & E3). destruct (auth_allocate_keeps d tx) as (F1 & F2 & F3). unfold same_allocation.
    rewrite F1, F2. auto. }
  destruct (code =? 401); [apply Hs; destruct (_ || _); by split_and!|].
  destruct (code =? 438); [apply Hs; destruct (_ || _), (msg_nonce m); by split_and!|].
  destruct (_ || _); by split_and!.
Qed.

Lemma incoming_accepted c raw now tx k :
  lt_key c = Some k ->
  same_allocation c (fst (turn_handle_incoming c raw now tx)) \/
  exists m, turn_decode raw = Ok m /\ turn_verify_integrity raw k = Ok tt /\ t_class m = 2 /\
    (t_method m = METHOD_ALLOCATE \/ t_method m = METHOD_REFRESH) /\
    forall t, pending_tid c = Some t -> t_tid m = t.
Proof.
  intros Hk. unfold turn_handle_incoming. destruct (turn_decode raw) as [m|]; [|by left].
  destruct (stale_response c m) eqn:Est; [by left|]. destruct (unsigned_message c raw m) eqn:Eu; [by left|].
  assert (t_class m = 2 -> turn_verify_integrity raw k = Ok tt /\ forall t, pending_tid c = Some t -> t_tid m = t) as Hok.
  { intros E2. unfold unsigned_message in Eu. rewrite E2, Hk in Eu. cbn [Z.eqb Pos.eqb andb negb] in Eu.
    unfold stale_response in Est. rewrite E2 in Est. cbn [Z.eqb Pos.eqb orb andb] in Est. split.
    - apply is_ok_unit. by destruct (is_ok _).
    - intros t Ht. rewrite Ht in Est. apply bool_decide_eq_false in Est. by destruct (decide (t_tid m = t)). }
  destruct (_ && (t_class m =? 2)) eqn:E1; simplify_bool; [right; destruct (Hok ltac:(done)); eauto 8|].
  destruct (_ && (t_class m =? 3)).
  { left. pose proof (allocate_error_keeps c m tx) as H'. by destruct (allocate_error c m tx). }
  destruct ((t_method m =? METHOD_REFRESH) && (t_class m =? 2)) eqn:E2; simplify_bool; [right; destruct (Hok ltac:(done)); eauto 8|].
  left. destruct (_ && (t_class m =? 3)); [by split_and!|]. destruct (_ && (t_class m =? 1)); [|done].
  by destruct (peer_address m), (msg_data m).
Qed.

(** C16. Once a TURN client has answered a challenge it holds the long-term key of its own user
    name and password, and from then on no datagram moves its relayed address, extends its
    allocation or makes it allocated unless it is a success response to the transaction the
    client is waiting for that carries a MESSAGE-INTEGRITY valid under that key; this holds
    after any sequence of operations and datagrams. *)
Theorem turn_allocation_authenticated cfg (r : R) ops raw now tx k :
  let c := turn_run (turn_new cfg r) ops in
  let c' := turn_apply c (TIncoming raw now tx) in
  lt_key c = Some k ->
  (exists rl, realm c = Some rl /\ k = long_term_key (t_username cfg) rl (t_password cfg)) /\
  (relay_addr c' <> relay_addr c \/ t_expires_at c' <> t_expires_at c \/
     (t_state c' = Allocated /\ t_state c <> Allocated) ->
   exists m, turn_decode raw = Ok m /\ t_class m = 2 /\ (t_method m = METHOD_ALLOCATE \/ t_method m = METHOD_REFRESH) /\
     pending_tid c = Some (t_tid m) /\ turn_verify_integrity raw k = Ok tt).
Proof.
  intros c c' Hk. pose proof (turn_run_inv cfg r ops) as [H1 H2 H3 H4 H5]. fold c in H1, H2, H3, H4, H5.
  destruct (H4 k Hk) as [_ Hr]. split; [done|]. intros Hch.
  destruct (incoming_accepted c raw now tx k Hk) as [(E1 & E2 & E3)|(m & Hd & Hv & Hc & Hm & Ht)].
  - unfold c' in Hch. cbn [turn_apply] in Hch. rewrite E1, E2 in Hch. tauto.
  - exists m. destruct (H5 ltac:(by rewrite Hk)) as [t Hp]. by rewrite Hp, (Ht t Hp).
Qed.

(** ** The cap on authentication attempts *)

(** The retry that the docs promise for a stale nonce cannot happen: a client that has a key
    has used its one attempt, and one that has none has no realm to sign with. *)
Lemma stale_nonce_never_retried cfg (r : R) ops raw now tx m :
  let c := turn_run (turn_new cfg r) ops in
  turn_decode raw = Ok m -> error_code m = Some 438 ->
  t_sent (turn_apply c (TIncoming raw now tx)) = t_sent c.
Proof.
  intros c Hd He. pose proof (turn_run_inv cfg r ops) as [H1 H2 H3 H4 H5]. fold c in H1, H2, H3, H4, H5.
  cbn [turn_apply]. unfold turn_handle_incoming. rewrite Hd. destruct (stale_response c m); [done|].
  destruct (unsigned_message c raw m); [done|].
  destruct (_ && _). { unfold allocate_success. by destruct (relay_address m). }
  destruct (_ && _).
  { unfold allocate_error. rewrite He. cbn [default Z.eqb Pos.eqb orb andb].
    destruct (Z.leb_spec 1 (auth_attempts c)); [done|]. destruct (H3 ltac:(lia)) as (Er & _ & _).
    unfold send_authenticated_allocate. destruct (msg_nonce m); cbn [realm with_auth]; by rewrite Er. }
  destruct (_ && _); [done|]. destruct (_ && _); [done|]. destruct (_ && _); [|done].
  by destruct (peer_address m), (msg_data m).
Qed.

(** A client that has allocated once cannot do it again: the first Allocate of a new attempt is
    unsigned, the server challenges it, and the challenge is taken for a failed retry. *)
Lemma no_second_allocation cfg (r : R) ops tx tx' raw now m :
  let c := turn_run (turn_new cfg r) ops in
  is_Some (lt_key c) ->
  let c1 := turn_apply c (TStart tx) in
  turn_decode raw = Ok m -> t_method m = METHOD_ALLOCATE -> t_class m = 3 -> error_code m = Some 401 ->
  pending_tid c1 = Some (t_tid m) ->
  t_state (turn_apply c1 (TIncoming raw now tx')) = Expired /\ t_sent (turn_apply c1 (TIncoming raw now tx')) = t_sent c1.
Proof.
  intros c Hk c1 Hd Hm Hc He Hp. pose proof (turn_run_inv cfg r (ops ++ [TStart tx])) as [H1 H2 H3 H4 H5].
  unfold turn_run in *. rewrite fold_left_app in H1, H2, H3, H4, H5. cbn [fold_left] in *. fold c c1 in H1, H2, H3, H4, H5.
  assert (is_Some (lt_key c1)) as Hk1.
  { pose proof (start_auth c tx) as (_ & _ & _ & _ & E & _). unfold c1. cbn [turn_apply]. by rewrite E. }
  cbn [turn_apply]. unfold turn_handle_incoming. rewrite Hd.
  assert (stale_response c1 m = false) as ->.
  { unfold stale_response. rewrite Hp. rewrite bool_decide_eq_false_2 by tauto. by rewrite andb_false_r. }
  assert (unsigned_message c1 raw m = false) as ->.
  { unfold unsigned_message. rewrite Hc, He. rewrite bool_decide_eq_true_2 by done. done. }
  rewrite Hm, Hc. cbn [Z.eqb Pos.eqb andb METHOD_ALLOCATE]. unfold allocate_error. rewrite He. cbn [default Z.eqb Pos.eqb orb andb].
  destruct H2 as [H2|H2]; [destruct (H3 H2) as (_ & _ & E); rewrite E in Hk1; by destruct Hk1|]. by rewrite H2.
Qed.

(** Before its first request a client has no transaction to compare with and no key: any
    Allocate success makes it allocated, at the address the message names. *)
Lemma unsolicited_success_accepted cfg (r : R) raw now tx m a :
  turn_decode raw = Ok m -> t_method m = METHOD_ALLOCATE -> t_class m = 2 -> relay_address m = Some a ->
  let c := turn_apply (turn_new cfg r) (TIncoming raw now tx) in
  t_state c = Allocated /\ relay_addr c = Some a.
Proof.
  intros Hd Hm Hc Ha. cbv zeta. cbn [turn_apply]. unfold turn_handle_incoming. rewrite Hd.
  unfold stale_response, unsigned_message. cbn [turn_new pending_tid lt_key]. rewrite !andb_false_r, Hm, Hc.
  cbn [Z.eqb Pos.eqb andb METHOD_ALLOCATE]. unfold allocate_success. by rewrite Ha.
Qed.

(** ** The exchange with a server *)

Definition text_ok (s : bytes) : Prop := utf8_valid s = true /\ bytes_ok s.

(** The signed request that answers the challenge. *)
Definition auth_request (cfg : TurnConfig) (tid rl nc : bytes) : TurnMessage :=
  request METHOD_ALLOCATE tid
    [TRequestedTransport 17; TLifetime (lifetime_secs cfg); TUsername (t_username cfg); TRealm rl; TNonce nc].

Lemma auth_request_wf cfg tid rl nc :
  text_ok (t_username cfg) -> is_u32 (lifetime_secs cfg) -> tid_wf tid -> text_ok rl -> bytes_ok nc ->
  blen (t_username cfg) + blen rl + blen nc <= 60000 -> turn_wf (auth_request cfg tid rl nc).
Proof.
  intros Hu Hl Ht Hr Hn Hlen. split; cbn [t_method t_class t_tid t_attrs auth_request request]; try done.
  - by repeat apply Forall_cons_2.
  - rewrite encode_attrs_eq. cbn [map concat]. unfold t_tlv. rewrite !blen_app, !blen_tlv. cbn [t_value].
    pose proof (padded_range (blen (t_username cfg))). pose proof (padded_range (blen rl)). pose proof (padded_range (blen nc)).
    rewrite blen_to_be. change (padded (blen [17; 0; 0; 0])) with 4. change (padded (Z.of_nat 4)) with 4.
    change (blen []) with 0. unfold u16_max. lia.
Qed.

(** A challenge to the unsigned request. *)
Lemma hear_challenge c raw now tx m rl nc (r' : R) tid' :
  lt_key c = None -> auth_attempts c = 0 -> turn_decode raw = Ok m ->
  t_method m = METHOD_ALLOCATE -> t_class m = 3 -> pending_tid c = Some (t_tid m) ->
  error_code m = Some 401 -> msg_realm m = Some rl -> msg_nonce m = Some nc ->
  generate_tid (t_rng c) = (r', tid') ->
  let key := long_term_key (t_username (t_config c)) rl (t_password (t_config c)) in
  forall out, turn_encode_with_integrity (auth_request (t_config c) tid' rl nc) key = Ok out ->
  let c' := fst (turn_handle_incoming c raw now tx) in
  lt_key c' = Some key /\ pending_tid c' = Some tid' /\ t_config c' = t_config c /\ t_state c' = AllocatingAuthenticated /\
  t_sent c' = t_sent c ++ [(out, server_addr (t_config c))].
Proof.
  intros Hk Ha Hd Hm Hc Hp He Hr Hn Hg key out Ho. cbv zeta. unfold turn_handle_incoming. rewrite Hd.
  unfold stale_response, unsigned_message. rewrite Hp, Hk, !andb_false_r. rewrite bool_decide_eq_false_2 by tauto.
  rewrite andb_false_r, Hm, Hc. cbn [Z.eqb Pos.eqb andb METHOD_ALLOCATE]. unfold allocate_error. rewrite He.
  change (default 0 (Some 401)) with 401. rewrite Ha. cbn [Z.eqb Pos.eqb orb andb Z.leb Z.compare]. unfold take_challenge. rewrite Hr, Hn.
  cbn [with_auth t_config realm nonce lt_key auth_attempts]. unfold send_authenticated_allocate.
  cbn [with_auth with_state t_config realm nonce lt_key auth_attempts t_rng]. rewrite Hg.
  cbn [with_tid with_auth with_state t_config]. unfold send_signed. fold key. fold (auth_request (t_config c) tid' rl nc).
  by rewrite Ho.
Qed.

Lemma hear_success c raw now tx m k a :
  lt_key c = Some k -> turn_decode raw = Ok m -> t_method m = METHOD_ALLOCATE -> t_class m = 2 ->
  pending_tid c = Some (t_tid m) -> turn_verify_integrity raw k = Ok tt -> relay_address m = Some a ->
  let c' := fst (turn_handle_incoming c raw now tx) in
  t_state c' = Allocated /\ relay_addr c' = Some a /\ t_expires_at c' = lifetime_from c m now /\ t_sent c' = t_sent c.
Proof.
  intros Hk Hd Hm Hc Hp Hv Ha. cbv zeta. unfold turn_handle_incoming. rewrite Hd.
  unfold stale_response, unsigned_message. rewrite Hp, Hk, Hv. rewrite bool_decide_eq_false_2 by tauto.
  cbn [is_ok negb]. rewrite !andb_false_r, Hm, Hc. cbn [Z.eqb Pos.eqb andb METHOD_ALLOCATE]. unfold allocate_success.
  by rewrite Ha.
Qed.

(** C17. The client obtains its relay: whatever transaction ids it draws, if the server answers the
    unsigned Allocate with a 401 challenge and the signed one with a success that carries a
    relayed address and the long-term key's MESSAGE-INTEGRITY, the client ends allocated at
    that address until the granted lifetime is over; the two requests it sends decode to an
    Allocate for UDP with the configured lifetime, the second with the user name and the
    challenge's realm and nonce, and pass the integrity check under the long-term key. *)
Theorem turn_client_allocates cfg (r : R) now tx1 tx2 tx3 :
  text_ok (t_username cfg) -> is_u32 (lifetime_secs cfg) -> (forall r : R, tid_wf (snd (generate_tid r))) ->
  exists req1 tid1,
    let c1 := turn_apply (turn_new cfg r) (TStart tx1) in
    t_sent c1 = [(req1, server_addr cfg)] /\
    turn_decode req1 = Ok (request METHOD_ALLOCATE tid1 [TRequestedTransport 17; TLifetime (lifetime_secs cfg)]) /\
    forall raw1 m1 rl nc,
      turn_decode raw1 = Ok m1 -> t_method m1 = METHOD_ALLOCATE -> t_class m1 = 3 -> t_tid m1 = tid1 ->
      error_code m1 = Some 401 -> msg_realm m1 = Some rl -> msg_nonce m1 = Some nc -> text_ok rl -> bytes_ok nc ->
      blen (t_username cfg) + blen rl + blen nc <= 60000 ->
      let key := long_term_key (t_username cfg) rl (t_password cfg) in
      let c2 := turn_apply c1 (TIncoming raw1 now tx2) in
      exists req2 tid2 mac,
        t_sent c2 = [(req1, server_addr cfg); (req2, server_addr cfg)] /\
        turn_decode req2 = Ok (turn_with (auth_request cfg tid2 rl nc) [TMessageIntegrity mac]) /\
        turn_verify_integrity req2 key = Ok tt /\
        forall raw2 m2 a,
          turn_decode raw2 = Ok m2 -> t_method m2 = METHOD_ALLOCATE -> t_class m2 = 2 -> t_tid m2 = tid2 ->
          turn_verify_integrity raw2 key = Ok tt -> relay_address m2 = Some a ->
          let c3 := turn_apply c2 (TIncoming raw2 now tx3) in
          t_state c3 = Allocated /\ relay_addr c3 = Some a /\
          t_expires_at c3 = Some (i64_sat_add now (default (lifetime_secs cfg) (msg_lifetime m2))).
Proof.
  intros Hu Hl Htid. destruct (generate_tid r) as [r1 tid1] eqn:E1. destruct (generate_tid r1) as [r2 tid2] eqn:E2.
  pose proof (Htid r) as Ht1. rewrite E1 in Ht1. pose proof (Htid r1) as Ht2. rewrite E2 in Ht2. cbn [snd] in *.
  set (m0 := request METHOD_ALLOCATE tid1 [TRequestedTransport 17; TLifetime (lifetime_secs cfg)]).
  assert (turn_apply (turn_new cfg r) (TStart tx1) =
          to_server (with_tid (with_state (turn_new cfg r) Allocating) r1 (Some tid1)) (turn_encode m0)) as Ec1.
  { cbn [turn_apply]. unfold start_allocate. cbn [with_state turn_new t_rng]. by rewrite E1. }
  exists (turn_encode m0), tid1. rewrite Ec1. cbv zeta. split_and!; [done|..].
  { rewrite <- (app_nil_r (turn_encode m0)). apply turn_decode_encode.
    split; cbn [t_method t_class t_tid t_attrs m0 request]; try done. by repeat apply Forall_cons_2. }
  intros raw1 m1 rl nc Hd1 Hm1 Hc1 Hi1 He Hr Hn Hrl Hnc Hlen.
  destruct (turn_signed (auth_request cfg tid2 rl nc) (long_term_key (t_username cfg) rl (t_password cfg)))
    as (mac & out & Ho & Hdo & Hvo); [by apply auth_request_wf|repeat (constructor; [done|]); constructor|].
  set (c1 := to_server _ _) in *.
  destruct (hear_challenge c1 raw1 now tx2 m1 rl nc r2 tid2) with (out := out)
    as (F1 & F2 & F3 & F4 & F5); try done; [by rewrite Hi1|].
  exists out, tid2, mac. split_and!; [done..|]. intros raw2 m2 a Hd2 Hm2 Hc2 Hi2 Hv2 Ha2. cbn [turn_apply].
  set (c2 := fst (turn_handle_incoming c1 raw1 now tx2)) in *.
  destruct (hear_success c2 raw2 now tx3 m2 _ a F1) as (G1 & G2 & G3 & _); try done; [by rewrite F2, Hi2|].
  split_and!; [done..|]. rewrite G3. unfold lifetime_from. by rewrite F3.
Qed.

End Turn.

(** ** At a concrete client *)

#[local] Existing Instance toy_stun_prims.
#[local] Existing Instance toy_stun_laws.
#[local] Instance toy_md5 : Md5 := fun b => to_be 16 (from_be b).

Definition toy_turn_config : TurnConfig :=
  {| server_addr := V4 [203; 0; 113; 1] 3478; t_username := lit "user"; t_password := lit "pass"; lifetime_secs := 600 |}.

Definition toy_challenge_msg : TurnMessage :=
  {| t_method := METHOD_ALLOCATE; t_class := 3; t_tid := to_be 12 3;
     t_attrs := [TErrorCode 401 (lit "Unauthorized"); TRealm (lit "realm"); TNonce [1; 2; 3]] |}.

Definition toy_challenge : bytes := turn_encode toy_challenge_msg.

Definition toy_turn_ops : list turn_op := [TStart (Ok tt); TIncoming toy_challenge 50 (Ok tt)].

Definition toy_key : bytes := long_term_key (lit "user") (lit "realm") (lit "pass").

Definition toy_success_msg : TurnMessage :=
  {| t_method := METHOD_ALLOCATE; t_class := 2; t_tid := to_be 12 4;
     t_attrs := [TXorRelayedAddress toy_y; TLifetime 300] |}.

Definition toy_success : bytes := default [] (ok (turn_encode_with_integrity toy_success_msg toy_key)).

Definition toy_success_mac : bytes := drop (length toy_success - 20) toy_success.

Lemma turn_allocation_authenticated_witness :
  exists m, turn_decode toy_success = Ok m /\ turn_verify_integrity toy_success toy_key = Ok tt.
Proof.
  assert (lt_key (turn_run (turn_new toy_turn_config 3%nat) toy_turn_ops) = Some toy_key) as Hk by (by vm_compute).
  destruct (turn_allocation_authenticated toy_turn_config 3%nat toy_turn_ops toy_success 60 (Ok tt) toy_key Hk) as [_ H].
  destruct H as (m & H1 & _ & _ & _ & H2); [left; by vm_compute|]. exists m. exact (conj H1 H2).
Defined.

Definition sent_tid (d : option datagram) : option bytes :=
  d' ← d; t_tid <$> ok (turn_decode (fst d')).

Lemma turn_client_allocates_witness :
  let c := turn_apply (turn_apply (turn_apply (turn_new toy_turn_config 3%nat) (TStart (Ok tt)))
    (TIncoming toy_challenge 50 (Ok tt))) (TIncoming toy_success 50 (Ok tt)) in
  t_state c = Allocated /\ relay_addr c = Some toy_y /\ t_expires_at c = Some 350.
Proof.
  destruct (turn_client_allocates toy_turn_config 3%nat 50 (Ok tt) (Ok tt) (Ok tt)
    ltac:(split; [by vm_compute|by apply bytes_okb_ok]) ltac:(done)
    ltac:(intros r; split; [apply blen_to_be|apply to_be_ok])) as (req1 & tid1 & Hs & Hd & H).
  assert (sent_tid (head (t_sent (turn_apply (turn_new toy_turn_config 3%nat) (TStart (Ok tt))))) = Some (to_be 12 3)) as Ht
    by (by vm_compute).
  rewrite Hs in Ht. unfold sent_tid in Ht. cbn [head mbind option_bind fst] in Ht. rewrite Hd in Ht. injection Ht as ->.
  assert (turn_decode toy_challenge = Ok toy_challenge_msg) as C1 by (by vm_compute).
  destruct (H toy_challenge toy_challenge_msg (lit "realm") [1; 2; 3] C1 eq_refl eq_refl eq_refl eq_refl eq_refl eq_refl
    ltac:(split; [by vm_compute|by apply bytes_okb_ok]) ltac:(by apply bytes_okb_ok) ltac:(by vm_compute))
    as (req2 & tid2 & mac & Hs2 & Hd2 & _ & G).
  assert (sent_tid (t_sent (turn_apply (turn_apply (turn_new toy_turn_config 3%nat) (TStart (Ok tt)))
    (TIncoming toy_challenge 50 (Ok tt))) !! 1%nat) = Some (to_be 12 4)) as Ht2 by (by vm_compute).
  rewrite Hs2 in Ht2. unfold sent_tid in Ht2. cbn [lookup list_lookup mbind option_bind fst] in Ht2. rewrite Hd2 in Ht2.
  injection Ht2 as ->.
  assert (turn_decode toy_success = Ok (turn_with toy_success_msg [TMessageIntegrity toy_success_mac])) as D1 by (by vm_compute).
  destruct (G toy_success _ toy_y D1 eq_refl eq_refl eq_refl ltac:(by vm_compute) eq_refl) as (S1 & S2 & S3).
  exact (conj S1 (conj S2 S3)).
Defined.
