(* ===== verification/SessionSetup.v ===== *)
(** * Session establishment (crates/sh-core/src/session.rs)

    The capability exchange, the choice of transport, and the gate that ties a WebRTC transport
    to the peer certificate of the Noise handshake.  The signaling channel and the transport
    factory are the traits of the source, as classes; their [async] methods return the new state
    next to the result.  A transport is a value of the type [T] the factory builds. *)

From stdpp Require Import base numbers list option strings.
From S2P Require Import Prelude Types ShpWire ShpCaps ShpClaims CryptoTypes Identity BindCert Handshake Signaling Stun.

(** ** Data *)

Record IcePathOutcome := { path_local : SocketAddr; path_remote : SocketAddr; is_relay_path : bool }.

Inductive SessionError :=
| SessionSignaling (reason : string)
| SessionProtocol (e : ProtocolError)
| SessionCrypto (e : CryptoError)
| SessionNegotiation (e : NegotiationError)
| SessionTransport (reason : string)
| SessionDtlsBindingMissing
| UnexpectedDtlsCommitment
| EnvelopeKindMismatch (expected got : string)
| CapsPayloadWrongLength (expected got : Z)
| NoNominatedPath.

Class SignalingChannel (S : Type) := {
  sig_send : S -> SignalingEnvelope -> S * result SessionError unit;
  sig_recv : S -> S * result SessionError SignalingEnvelope;
}.

Class TransportFactory (F T : Type) :=
  tf_build : F -> TransportKind -> IcePathOutcome -> option bytes -> result SessionError T.

(** [{:?}] of a message kind. *)
Definition kind_name (k : MessageKind) : string :=
  match k with
  | Hello => "Hello" | Offer => "Offer" | Answer => "Answer" | Signaling.Candidate => "Candidate"
  | EndOfCandidates => "EndOfCandidates" | Bye => "Bye" | ErrorMsg => "Error" | Challenge => "Challenge"
  | Noise => "Noise"
  end.

Record SessionEstablisher (S F : Type) := {
  local_caps : TransportCaps;
  signaling : S;
  factory : F;
  local_fp : bytes;
  peer_fp : bytes;
  est_session_id : bytes;
}.
Arguments local_caps {S F} _.
Arguments signaling {S F} _.
Arguments factory {S F} _.
Arguments local_fp {S F} _.
Arguments peer_fp {S F} _.
Arguments est_session_id {S F} _.

Section Establish.
Context {S F T : Type} `{!SignalingChannel S} `{!TransportFactory F T}.
Implicit Types e : SessionEstablisher S F.

Definition establisher_new (caps : TransportCaps) (s : S) (f : F) (lfp pfp sid : bytes) : SessionEstablisher S F :=
  {| local_caps := caps; signaling := s; factory := f; local_fp := lfp; peer_fp := pfp; est_session_id := sid |}.

Definition make_caps_envelope e (k : MessageKind) (wire : bytes) : SignalingEnvelope :=
  {| kind := k; session_id := est_session_id e; from_fp := local_fp e; to_fp := peer_fp e; payload := wire |}.

Definition parse_peer_caps (expected_kind : MessageKind) (env : SignalingEnvelope) : result SessionError TransportCaps :=
  if negb (bool_decide (kind env = expected_kind))
  then Err (EnvelopeKindMismatch (kind_name expected_kind) (kind_name (kind env))) else
  if negb (blen (payload env) =? TRANSPORT_CAPS_LEN)
  then Err (CapsPayloadWrongLength TRANSPORT_CAPS_LEN (blen (payload env))) else
  map_err SessionProtocol (decode_transport_caps (take (Z.to_nat TRANSPORT_CAPS_LEN) (payload env))).

Definition recv_peer_caps (s : S) (expected_kind : MessageKind) : S * result SessionError TransportCaps :=
  let '(s, r) := sig_recv s in
  (s, let? env := r in parse_peer_caps expected_kind env).

(** The pin the factory is given. *)
Definition security_gate (k : TransportKind) (o : HandshakeOutcome) : result SessionError (option bytes) :=
  match k with
  | Webrtc =>
      let? pin := map_err (fun _ => SessionDtlsBindingMissing) (outcome_require_webrtc_dtls_pin o) in
      Ok (Some pin)
  | Quic =>
      if bool_decide (is_Some (peer_dtls_pin o)) then Err UnexpectedDtlsCommitment else Ok None
  end.

Definition negotiate_and_build e (o : HandshakeOutcome) (path : IcePathOutcome) (peer_caps : TransportCaps)
    : result SessionError (TransportKind * T) :=
  let? k := map_err SessionNegotiation (negotiate (local_caps e) peer_caps) in
  let? pin := security_gate k o in
  let? t := tf_build (factory e) k path pin in
  Ok (k, t).

Definition establish_as_initiator e (o : HandshakeOutcome) (path : IcePathOutcome)
    : S * result SessionError (TransportKind * T) :=
  let local_wire := encode_transport_caps (local_caps e) in
  let '(s, r) := sig_send (signaling e) (make_caps_envelope e Signaling.Candidate local_wire) in
  match r with
  | Err x => (s, Err x)
  | Ok _ =>
      let '(s, r) := recv_peer_caps s Signaling.Candidate in
      (s, let? peer_caps := r in negotiate_and_build e o path peer_caps)
  end.

Definition establish_as_responder e (o : HandshakeOutcome) (path : IcePathOutcome)
    : S * result SessionError (TransportKind * T) :=
  let '(s, r) := recv_peer_caps (signaling e) Signaling.Candidate in
  match r with
  | Err x => (s, Err x)
  | Ok peer_caps =>
      let local_wire := encode_transport_caps (local_caps e) in
      let '(s, r) := sig_send s (make_caps_envelope e Signaling.Candidate local_wire) in
      (s, let? _ := r in negotiate_and_build e o path peer_caps)
  end.

(** ** What an established transport rests on *)

Lemma negotiate_both a b k :
  negotiate a b = Ok k -> caps_has a k = true /\ caps_has b k = true /\ (k = Webrtc -> ~ (supports_quic a = true /\ supports_quic b = true)).
Proof.
  unfold negotiate. destruct a as [[] []], b as [[] []]; cbn; intros H; simplify_eq; split_and!; try done; by intros ? [].
Qed.

(** The gate lets a WebRTC transport through only with the usable commitment of the peer's
    certificate, and a QUIC transport only when the certificate has none. *)
Lemma security_gate_iff k o pin :
  security_gate k o = Ok pin <->
  match k with
  | Webrtc => dtls_fpr_alg (bc_fields (peer_bind_cert o)) = DTLS_FPR_ALG_SHA256 /\
      dtls_fpr_commit (bc_fields (peer_bind_cert o)) <> ZERO32 /\
      pin = Some (dtls_fpr_commit (bc_fields (peer_bind_cert o)))
  | Quic => dtls_fpr_alg (bc_fields (peer_bind_cert o)) <> DTLS_FPR_ALG_SHA256 /\ pin = None
  end.
Proof.
  destruct k; cbn [security_gate].
  - unfold peer_dtls_pin, dtls_pin. destruct (Z.eqb_spec (dtls_fpr_alg (bc_fields (peer_bind_cert o))) DTLS_FPR_ALG_SHA256).
    + rewrite bool_decide_eq_true_2 by done. split; [done|]. by intros [].
    + rewrite bool_decide_eq_false_2 by (by intros []). split; [by intros [= <-]|by intros [_ ->]].
  - unfold outcome_require_webrtc_dtls_pin, require_webrtc_dtls_pin, bytes_eqb.
    destruct (Z.eqb_spec (dtls_fpr_alg (bc_fields (peer_bind_cert o))) DTLS_FPR_ALG_SHA256); cbn [negb map_err];
      [|split; [done|by intros (? & _)]].
    case_bool_decide; cbn [map_err]; split; [done|by intros (_ & ? & _)|by intros [= <-]|by intros (_ & _ & ->)].
Qed.

(** The whole of [negotiate_and_build]. *)
Lemma negotiate_and_build_iff e o path peer_caps k t :
  negotiate_and_build e o path peer_caps = Ok (k, t) <->
  negotiate (local_caps e) peer_caps = Ok k /\
  exists pin, security_gate k o = Ok pin /\ tf_build (factory e) k path pin = Ok t.
Proof.
  unfold negotiate_and_build. destruct (negotiate _ _) as [k'|]; cbn [map_err]; [|by split; [|intros []]].
  destruct (security_gate k' o) as [pin|] eqn:Eg.
  - destruct (tf_build _ _ _ _) as [t'|] eqn:Et.
    + split; [intros [= <- <-]; eauto|]. intros ([= <-] & p & Hp & Ht). rewrite Eg in Hp. injection Hp as <-. congruence.
    + split; [done|]. intros ([= <-] & p & Hp & Ht). rewrite Eg in Hp. injection Hp as <-. congruence.
  - split; [done|]. intros ([= <-] & p & Hp & _). congruence.
Qed.

Lemma parse_peer_caps_iff env c :
  parse_peer_caps Signaling.Candidate env = Ok c <->
  kind env = Signaling.Candidate /\ blen (payload env) = 2 /\ decode_transport_caps (payload env) = Ok c.
Proof.
  unfold parse_peer_caps. case_bool_decide as Ek; cbn [negb]; [|split; [done|by intros []]].
  unfold TRANSPORT_CAPS_LEN. destruct (Z.eqb_spec (blen (payload env)) 2) as [El|]; cbn [negb];
    [|split; [done|by intros (_ & ? & _)]].
  rewrite take_ge by (unfold blen in El; lia).
  destruct (decode_transport_caps _); cbn [map_err]; split; [intros [= ->]; done|by intros (_ & _ & [= ->])|done|by intros (_ & _ & ?)].
Qed.

(** Whatever the signaling channel does: what either side established was negotiated from an
    envelope it received. *)
Lemma established_from e o path k t :
  snd (establish_as_initiator e o path) = Ok (k, t) \/ snd (establish_as_responder e o path) = Ok (k, t) ->
  exists s env peer_caps, snd (sig_recv s) = Ok env /\ parse_peer_caps Signaling.Candidate env = Ok peer_caps /\
    negotiate_and_build e o path peer_caps = Ok (k, t).
Proof.
  unfold establish_as_initiator, establish_as_responder, recv_peer_caps. intros [H|H].
  - destruct (sig_send _ _) as [s r]. destruct r; [|done]. destruct (sig_recv s) as [s' r'] eqn:Er. destruct r' as [env|]; [|done].
    cbn [snd] in H. destruct (parse_peer_caps _ env) as [c|] eqn:Ep; [|done]. exists s, env, c. by rewrite Er.
  - destruct (sig_recv (signaling e)) as [s' r'] eqn:Er. destruct r' as [env|]; [|done].
    destruct (parse_peer_caps _ env) as [c|] eqn:Ep; [|done]. destruct (sig_send s' _) as [s2 r2]. destruct r2; [|done].
    exists (signaling e), env, c. by rewrite Er.
Qed.

End Establish.

(** ** Composition with the handshake *)

Section Pinned.
Context `{CP : CryptoPrims} `{SP : SigPrims} `{KP : !KeyPrims} `{SN : Snow}.
Context {S F T : Type} `{!SignalingChannel S} `{!TransportFactory F T}.

(** C20. Whatever the relay delivers in the capability exchange and in the handshake, an established
    session has a transport both capability sets name, and that transport is tied to the
    handshake: a WebRTC transport was built with the DTLS fingerprint that the peer's
    certificate commits to, a usable one, and a QUIC transport without a pin and only for a
    certificate that commits to none; the certificate is the one this handshake verified for a
    peer the key store trusts. *)
Theorem session_transport_pinned {K} `{KS : Keystore K} (ks ks' : K) st ps ctx d now p r h0 ops h oks o
    (e : SessionEstablisher S F) path k (t : T) :
  new_inner ks st ps ctx d now p r = Ok h0 -> hs_run h0 ops = (h, oks) -> complete h ks' = Ok o ->
  snd (establish_as_initiator e o path) = Ok (k, t) \/ snd (establish_as_responder e o path) = Ok (k, t) ->
  let cert := bc_fields (peer_bind_cert o) in
  (exists s env peer_caps, snd (sig_recv s) = Ok env /\ kind env = Signaling.Candidate /\
     decode_transport_caps (payload env) = Ok peer_caps /\
     caps_has (local_caps e) k = true /\ caps_has peer_caps k = true) /\
  match k with
  | Webrtc => dtls_fpr_alg cert = DTLS_FPR_ALG_SHA256 /\ dtls_fpr_commit cert <> ZERO32 /\
              tf_build (factory e) Webrtc path (Some (dtls_fpr_commit cert)) = Ok t
  | Quic => dtls_fpr_alg cert <> DTLS_FPR_ALG_SHA256 /\ tf_build (factory e) Quic path None = Ok t
  end /\
  ks_is_trusted ks' (peer_identity o) = Ok true /\
  exists msg now' before after, verified_at before after msg now' (peer_identity o) (peer_bind_cert o).
Proof.
  intros Hn Hrun Hc He cert. destruct (handshake_verified ks ks' st ps ctx d now p r h0 ops h oks o Hn Hrun Hc)
    as (_ & (msg & now' & _ & Hv) & Ht & _).
  destruct (established_from e o path k t He) as (s & env & pc & Hr & Hp & Hb).
  apply parse_peer_caps_iff in Hp as (Hk & _ & Hd). apply negotiate_and_build_iff in Hb as (Hneg & pin & Hg & Hbuild).
  destruct (negotiate_both _ _ _ Hneg) as (H1 & H2 & _). split_and!; [by exists s, env, pc| |done|eauto].
  apply security_gate_iff in Hg. destruct k; destruct Hg as [? Hg]; [subst pin; done|]. by destruct Hg as [? ->].
Qed.

End Pinned.

(** ** Two honest sides *)

Record Mailbox := { inbox : list SignalingEnvelope; outbox : list SignalingEnvelope }.

#[export] Instance mailbox_channel : SignalingChannel Mailbox := {|
  sig_send m env := ({| inbox := inbox m; outbox := outbox m ++ [env] |}, Ok tt);
  sig_recv m := match inbox m with
                | env :: rest => ({| inbox := rest; outbox := outbox m |}, Ok env)
                | [] => (m, Err (SessionSignaling "channel closed"))
                end;
|}.

Section Agree.
Context {F G T U : Type} `{!TransportFactory F T} `{!TransportFactory G U}.

(** One side's way from the transport both support to the result. *)
Definition finish {F' T'} `{!TransportFactory F' T'} (common : list TransportKind) (a b : TransportCaps) (f : F')
    (o : HandshakeOutcome) (path : IcePathOutcome) : result SessionError (TransportKind * T') :=
  match common with
  | [] => Err (SessionNegotiation (NoCommonTransport a b))
  | k :: _ => let? pin := security_gate k o in let? t := tf_build f k path pin in Ok (k, t)
  end.

Lemma negotiate_common a b :
  negotiate a b = match common_transports a b with [] => Err (NoCommonTransport a b) | k :: _ => Ok k end.
Proof. by destruct a as [[] []], b as [[] []]. Qed.

Lemma common_sym a b : common_transports a b = common_transports b a.
Proof. by destruct a as [[] []], b as [[] []]. Qed.

(** C21. Two sides whose envelopes arrive unchanged choose the same transport: the first of QUIC and
    WebRTC that both support, or none for both; each then succeeds exactly when its own gate on
    the other's certificate and its factory do, and sends exactly one envelope, the one the
    other side reads. *)
Theorem session_peers_agree a b (f : F) (g : G) fpa fpb sid oA oB pathA pathB :
  let boxA := {| inbox := [{| kind := Signaling.Candidate; session_id := sid; from_fp := fpb; to_fp := fpa;
                              payload := encode_transport_caps b |}]; outbox := [] |} in
  let boxB := {| inbox := [{| kind := Signaling.Candidate; session_id := sid; from_fp := fpa; to_fp := fpb;
                              payload := encode_transport_caps a |}]; outbox := [] |} in
  let '(endA, resA) := establish_as_initiator (establisher_new a boxA f fpa fpb sid) oA pathA in
  let '(endB, resB) := establish_as_responder (establisher_new b boxB g fpb fpa sid) oB pathB in
  outbox endA = inbox boxB /\ outbox endB = inbox boxA /\
  resA = finish (common_transports a b) a b f oA pathA /\ resB = finish (common_transports a b) b a g oB pathB.
Proof.
  assert (forall c, parse_peer_caps Signaling.Candidate
    {| kind := Signaling.Candidate; session_id := sid; from_fp := fpb; to_fp := fpa; payload := encode_transport_caps c |} = Ok c) as P1
    by by intros [[] []].
  assert (forall c, parse_peer_caps Signaling.Candidate
    {| kind := Signaling.Candidate; session_id := sid; from_fp := fpa; to_fp := fpb; payload := encode_transport_caps c |} = Ok c) as P2
    by by intros [[] []].
  cbv zeta. unfold establish_as_initiator, establish_as_responder, recv_peer_caps. cbn -[negotiate_and_build common_transports finish encode_transport_caps parse_peer_caps].
  rewrite P1, P2. cbn -[negotiate_and_build common_transports finish encode_transport_caps]. split_and!; try done.
  - unfold negotiate_and_build, finish. cbn [local_caps establisher_new factory]. rewrite negotiate_common.
    by destruct (common_transports a b).
  - unfold negotiate_and_build, finish. cbn [local_caps establisher_new factory]. rewrite negotiate_common, (common_sym b a).
    by destruct (common_transports a b).
Qed.

(** Peers that both support QUIC cannot meet if their certificates commit to a DTLS fingerprint,
    as a peer that also supports WebRTC must, since the handshake comes before the exchange. *)
Lemma dual_capable_commitment_refused (a b : TransportCaps) (f : F) o path :
  supports_quic a = true -> supports_quic b = true ->
  dtls_fpr_alg (bc_fields (peer_bind_cert o)) = DTLS_FPR_ALG_SHA256 ->
  finish (common_transports a b) a b f o path = Err UnexpectedDtlsCommitment.
Proof.
  intros Ha Hb Hd. assert (exists l, common_transports a b = Quic :: l) as [l ->].
  { destruct a as [qa wa], b as [qb wb]. cbn in Ha, Hb. subst. destruct wa, wb; eexists; reflexivity. }
  cbn [finish security_gate]. unfold peer_dtls_pin, dtls_pin. by rewrite Hd.
Qed.

End Agree.

(** ** At a concrete session *)

Definition toy_path : IcePathOutcome :=
  {| path_local := V4 [10; 0; 0; 1] 4000; path_remote := V4 [10; 0; 0; 2] 4000; is_relay_path := false |}.

(** A factory that records what it was asked for. *)
#[local] Instance toy_factory : TransportFactory unit (TransportKind * option bytes) := fun _ k _ pin => Ok (k, pin).

Definition toy_establisher : SessionEstablisher Mailbox unit :=
  establisher_new {| supports_quic := false; supports_webrtc := true |}
    {| inbox := [{| kind := Signaling.Candidate; session_id := []; from_fp := []; to_fp := [];
                    payload := [1; 3] |}]; outbox := [] |} tt [] [] [].

Lemma session_transport_pinned_witness :
  exists h0 h oks o,
    toy_hi = Ok h0 /\ hs_run h0 toy_hs_ops = (h, oks) /\ complete h toy_client = Ok o /\
    tf_build tt Webrtc toy_path (Some (dtls_fpr_commit (bc_fields (peer_bind_cert o)))) = Ok (Webrtc, Some (to_be 32 99)).
Proof.
  assert (match toy_hi with
          | Ok h0 => match complete (fst (hs_run h0 toy_hs_ops)) toy_client with
                     | Ok o => snd (establish_as_initiator toy_establisher o toy_path) = Ok (Webrtc, (Webrtc, Some (to_be 32 99)))
                     | Err _ => False
                     end
          | Err _ => False end) as Hc by (vm_compute; reflexivity).
  destruct toy_hi as [h0|] eqn:E0; [|destruct Hc].
  destruct (hs_run h0 toy_hs_ops) as [h oks] eqn:E1. cbn [fst] in Hc.
  destruct (complete h toy_client) as [o|] eqn:E2; [|destruct Hc].
  exists h0, h, oks, o. split; [exact eq_refl|]. split; [exact E1|]. split; [exact E2|].
  exact (proj2 (proj2 (proj1 (proj2 (session_transport_pinned toy_client toy_client [1] (Some (toy_x25519 [2])) [] None 1000 Xk
    Initiator h0 toy_hs_ops h oks o toy_establisher toy_path Webrtc (Webrtc, Some (to_be 32 99)) E0 E1 E2 (or_introl Hc)))))).
Defined.
