(* ===== verification/Transport.v ===== *)
(** * sh-transport: the QUIC connection and its channels

    crates/sh-transport/src/connection.rs and channel.rs with the errors of error.rs that they
    return: datagrams, the channel-open header, the length-delimited framing of a stream.

    quinn is a parameter.  Of datagrams: what it answers to the k-th request (its datagram
    limit, whether it takes a datagram, the time) is a function of k.  Of streams: a send stream
    and a receive stream are any instances of [SendStream] and [RecvStream], whose laws are the
    documented behaviour of [write_all], [set_priority] and [read_exact]; what happens between
    the two ends is a hypothesis of the theorem. *)

From stdpp Require Import base numbers list option strings.
From S2P Require Import Prelude Types.

(** ** Errors *)

(** quinn's reasons for refusing a datagram: the code tells one of them from the others. *)
Inductive SendDatagramError := UnsupportedByPeer | OtherSendError.

(** quinn's reasons for losing a connection, which the code does not look into. *)
Inductive ConnectionError := ConnectionLost.

(** quinn's reasons for a failed write, which the code does not look into. *)
Inductive WriteError := WriteFailed.

Inductive ReadExactError := FinishedEarly (n : Z) | ReadFailed.

Inductive TransportError :=
| TE_DatagramsNotSupported
| TE_SendDatagram (e : SendDatagramError)
| TE_Connection (e : ConnectionError)
| TE_StreamClosed
| TE_MessageTooLarge (len : Z)
| TE_Io (e : WriteError)
| TE_StreamAlreadyClosed
| TE_StreamRead (e : ReadExactError)
| TE_InvalidChannelHeader (reason : string).

(** ** Datagrams *)

(** What quinn answers to the k-th request. *)
Record Quinn := {
  q_limit : nat -> option Z;
  q_accept : nat -> bytes -> option SendDatagramError;
  q_clock : nat -> Z;
}.

(** A connection: how many requests it has answered, and the datagrams it has taken. *)
Record Connection := { conn_requests : nat; conn_sent : list bytes }.

Definition connection_new : Connection := {| conn_requests := 0; conn_sent := [] |}.

Definition conn_tick (c : Connection) : Connection :=
  {| conn_requests := S (conn_requests c); conn_sent := conn_sent c |}.

Definition max_datagram_size (q : Quinn) (c : Connection) : Connection * option Z :=
  (conn_tick c, q_limit q (conn_requests c)).

Definition send_datagram_wait (q : Quinn) (c : Connection) (data : bytes)
  : Connection * result TransportError () :=
  match q_accept q (conn_requests c) data with
  | Some UnsupportedByPeer => (conn_tick c, Err TE_DatagramsNotSupported)
  | Some other => (conn_tick c, Err (TE_SendDatagram other))
  | None => ({| conn_requests := S (conn_requests c); conn_sent := conn_sent c ++ [data] |}, Ok tt)
  end.

(** [Instant::now()] *)
Definition instant_now (q : Quinn) (c : Connection) : Connection * Z :=
  (conn_tick c, q_clock q (conn_requests c)).

(** ** Channel specifications *)

Definition MAX_FRAME_LEN : Z := 16 * 1024 * 1024.
Definition HEADER_LEN : Z := 2.

Inductive Reliability := Unreliable | Reliable.

#[global] Instance Reliability_eq_dec : EqDecision Reliability.
Proof. solve_decision. Defined.

Record ChannelSpec := { spec_channel : ChannelId; reliability : Reliability; spec_priority : Z }.

#[global] Instance ChannelSpec_eq_dec : EqDecision ChannelSpec.
Proof. solve_decision. Defined.

Definition quinn_priority (s : ChannelSpec) : Z := sat_sub u8_max (spec_priority s).

Definition spec_input : ChannelSpec :=
  {| spec_channel := Input; reliability := Reliable; spec_priority := 0 |}.
Definition spec_video : ChannelSpec :=
  {| spec_channel := Video; reliability := Unreliable; spec_priority := 0 |}.
Definition spec_control : ChannelSpec :=
  {| spec_channel := Control; reliability := Reliable; spec_priority := 1 |}.
Definition spec_clipboard : ChannelSpec :=
  {| spec_channel := Clipboard; reliability := Reliable; spec_priority := 2 |}.
Definition spec_file : ChannelSpec :=
  {| spec_channel := File; reliability := Reliable; spec_priority := 6 |}.

Definition encode_header (s : ChannelSpec) : bytes := [channel_to_u8 (spec_channel s); spec_priority s].

Definition decode_header (b0 b1 : Z) : result TransportError ChannelSpec :=
  let? channel := map_err (fun _ => TE_InvalidChannelHeader "unknown channel discriminant byte")
                          (channel_try_from b0) in
  Ok {| spec_channel := channel; reliability := Reliable; spec_priority := b1 |}.

Definition fuzz_decode_framing (data : bytes) : result TransportError () :=
  let byte i := default 0 (data !! i) in
  let? _ := decode_header (byte 0%nat) (byte 1%nat) in
  let len := from_be [byte 2%nat; byte 3%nat; byte 4%nat; byte 5%nat] in
  if MAX_FRAME_LEN <? len then Err (TE_MessageTooLarge len) else Ok tt.

(** ** Streams *)

(** A send stream, and the bytes it has taken.  A failed [write_all] may have taken a first part;
    [set_priority] fails ([None]) on a closed stream and writes nothing. *)
Class SendStream (S : Type) := {
  write_all : S -> bytes -> S * result WriteError ();
  set_priority : S -> Z -> option S;
  written : S -> bytes;
}.

Class SendStreamLaws (S : Type) `{SendStream S} : Prop := {
  write_all_takes s data s' r : write_all s data = (s', r) ->
    exists taken, written s' = written s ++ taken /\ taken `prefix_of` data /\ (r = Ok tt -> taken = data);
  set_priority_writes s p s' : set_priority s p = Some s' -> written s' = written s;
}.

(** A stream that takes whatever it is given. *)
Definition never_fails (S : Type) `{SendStream S} : Prop :=
  (forall (s : S) data, is_ok (snd (write_all s data)) = true) /\ (forall (s : S) p, is_Some (set_priority s p)).

(** How a stream ends: the peer finished it, or it was reset or lost. *)
Inductive StreamEnd := Fin | Reset_.

(** A receive stream: the bytes that are still to come before its end.  [read_exact] reads them
    in order; a stream that is finished too early reports how many it had. *)
Class RecvStream (R : Type) := {
  read_exact : R -> Z -> R * result ReadExactError bytes;
  to_come : R -> bytes;
  ending : R -> StreamEnd;
}.

Class RecvStreamLaws (R : Type) `{RecvStream R} : Prop := {
  read_exact_reads r n : 0 <= n <= blen (to_come r) ->
    exists r', read_exact r n = (r', Ok (take (Z.to_nat n) (to_come r))) /\
      to_come r' = drop (Z.to_nat n) (to_come r) /\ ending r' = ending r;
  read_exact_early r n : blen (to_come r) < n -> ending r = Fin ->
    snd (read_exact r n) = Err (FinishedEarly (blen (to_come r)));
  read_exact_lost r n : blen (to_come r) < n -> ending r = Reset_ -> snd (read_exact r n) = Err ReadFailed;
}.

(** ** Channels *)

Record ReliableChannel (S R : Type) := { rc_send : S; rc_recv : R; rc_spec : ChannelSpec }.
Arguments rc_send {S R} _.
Arguments rc_recv {S R} _.
Arguments rc_spec {S R} _.

Inductive QuicChannel (S R : Type) := QReliable (c : ReliableChannel S R) | QDatagram (spec : ChannelSpec).
Arguments QReliable {S R} _.
Arguments QDatagram {S R} _.

Section Channels.
Context {S R : Type} `{!SendStream S} `{!RecvStream R}.
Abbreviation ReliableChannel := (ReliableChannel S R).
Abbreviation QuicChannel := (QuicChannel S R).

Definition with_send (c : ReliableChannel) (s : S) : ReliableChannel :=
  {| rc_send := s; rc_recv := rc_recv c; rc_spec := rc_spec c |}.

Definition with_recv (c : ReliableChannel) (s : R) : ReliableChannel :=
  {| rc_send := rc_send c; rc_recv := s; rc_spec := rc_spec c |}.

Definition reliable_send (c : ReliableChannel) (msg : bytes) : ReliableChannel * result TransportError () :=
  if u32_max <? blen msg then (c, Err (TE_MessageTooLarge u32_max)) else
  if MAX_FRAME_LEN <? blen msg then (c, Err (TE_MessageTooLarge (blen msg))) else
  let '(s, r) := write_all (rc_send c) (to_be 4 (blen msg) ++ msg) in
  (with_send c s, map_err TE_Io r).

Definition reliable_recv (c : ReliableChannel) : ReliableChannel * result TransportError (option bytes) :=
  match read_exact (rc_recv c) 4 with
  | (s, Err (FinishedEarly n)) =>
      if n =? 0 then (with_recv c s, Ok None) else (with_recv c s, Err TE_StreamClosed)
  | (s, Err e) => (with_recv c s, Err (TE_StreamRead e))
  | (s, Ok len_buf) =>
      let payload_len := from_be len_buf in
      if MAX_FRAME_LEN <? payload_len then (with_recv c s, Err (TE_MessageTooLarge payload_len)) else
      match read_exact s payload_len with
      | (s, Err (FinishedEarly _)) => (with_recv c s, Err TE_StreamClosed)
      | (s, Err e) => (with_recv c s, Err (TE_StreamRead e))
      | (s, Ok payload) => (with_recv c s, Ok (Some payload))
      end
  end.

(** A channel over datagrams is the connection with a specification. *)
Definition datagram_send (q : Quinn) (c : Connection) (msg : bytes)
  : Connection * result TransportError () := send_datagram_wait q c msg.

(** [read_datagram], [None] never: a datagram channel has no end of stream. *)
Definition datagram_recv (read : result ConnectionError bytes) : result TransportError (option bytes) :=
  match read with
  | Ok d => Ok (Some d)
  | Err e => Err (TE_Connection e)
  end.

(** [bi] is what [open_bi] answers. *)
Definition open_channel (bi : result ConnectionError (S * R)) (spec : ChannelSpec)
  : result TransportError QuicChannel :=
  match reliability spec with
  | Reliable =>
      let? streams := map_err TE_Connection bi in
      let '(send, recv) := streams in
      let? send := ok_or (set_priority send (quinn_priority spec)) TE_StreamAlreadyClosed in
      match write_all send (encode_header spec) with
      | (_, Err e) => Err (TE_Io e)
      | (send, Ok tt) => Ok (QReliable {| rc_send := send; rc_recv := recv; rc_spec := spec |})
      end
  | Unreliable => Ok (QDatagram spec)
  end.

(** [bi] is what [accept_bi] answers. *)
Definition accept_channel (bi : result ConnectionError (S * R))
  : result TransportError ReliableChannel :=
  let? streams := map_err TE_Connection bi in
  let '(send, recv) := streams in
  match read_exact recv HEADER_LEN with
  | (_, Err (FinishedEarly _)) => Err (TE_InvalidChannelHeader "stream closed before header")
  | (_, Err e) => Err (TE_StreamRead e)
  | (recv, Ok header) =>
      let? spec := decode_header (default 0 (header !! 0%nat)) (default 0 (header !! 1%nat)) in
      Ok {| rc_send := send; rc_recv := recv; rc_spec := spec |}
  end.

End Channels.

(** ** Specifications *)

(** The header carries the channel and the priority; the peer learns a reliable channel. *)
Lemma header_roundtrip s :
  reliability s = Reliable ->
  decode_header (channel_to_u8 (spec_channel s)) (spec_priority s) = Ok s.
Proof.
  intros H. unfold decode_header. rewrite channel_try_from_to. cbn. destruct s. cbn in *. by subst.
Qed.

(** Input is scheduled before control, control before the clipboard, and files come last. *)
Lemma priorities_ordered :
  map quinn_priority [spec_input; spec_control; spec_clipboard; spec_file] = [255; 254; 253; 249].
Proof. reflexivity. Qed.

(** ** The framing *)

Definition frame_of (msg : bytes) : bytes := to_be 4 (blen msg) ++ msg.

Definition message_ok (msg : bytes) : Prop := blen msg <= MAX_FRAME_LEN.

Lemma frame_length msg :
  message_ok msg -> from_be (to_be 4 (blen msg)) = blen msg /\ (MAX_FRAME_LEN <? blen msg) = false.
Proof.
  unfold message_ok. intros Hm. split; [|by apply Z.ltb_ge].
  apply from_be_to_be_small. pose proof (blen_nonneg msg). unfold MAX_FRAME_LEN in Hm. cbn. lia.
Qed.

Lemma frame_of_not_nil msg : (4 <= length (frame_of msg))%nat.
Proof. unfold frame_of. rewrite length_app, to_be_length. lia. Qed.

(** What was received, [k] messages, and the bytes [rest] of the next one that came before the
    end of the stream. *)
Definition received_prefix (msgs : list bytes) (seen : bytes) (k : nat) (rest : bytes) : Prop :=
  (k <= length msgs)%nat /\ seen = concat (map frame_of (take k msgs)) ++ rest /\
  (rest = [] \/ exists msg, msgs !! k = Some msg /\ rest `prefix_of` frame_of msg /\ rest <> frame_of msg).

Section Framing.
Context {S R : Type} `{SL : SendStreamLaws S} `{RL : RecvStreamLaws R}.
Implicit Types c : ReliableChannel S R.

(** A send writes the frame, or a first part of it and fails with quinn's error. *)
Lemma reliable_send_writes c msg :
  message_ok msg ->
  exists c' r taken, reliable_send c msg = (c', r) /\ written (rc_send c') = written (rc_send c) ++ taken /\
    taken `prefix_of` frame_of msg /\ (r = Ok tt -> taken = frame_of msg) /\
    (r = Ok tt \/ exists e, r = Err (TE_Io e)) /\ rc_recv c' = rc_recv c /\ rc_spec c' = rc_spec c /\
    (never_fails S -> r = Ok tt).
Proof.
  unfold message_ok, MAX_FRAME_LEN. intros Hm. unfold reliable_send, MAX_FRAME_LEN, u32_max.
  rewrite !(proj2 (Z.ltb_ge _ _)) by lia. destruct (write_all _ _) as [s' r] eqn:E.
  destruct (write_all_takes _ _ _ _ E) as (taken & Hw & Hp & Hok). eexists _, _, taken.
  split; [done|]. split_and!; try done.
  - intros Hr. apply Hok. by destruct r as [[]|].
  - destruct r as [[]|e]; [by left|right; by exists e].
  - intros [Hn _]. specialize (Hn (rc_send c) (to_be 4 (blen msg) ++ msg)). rewrite E in Hn. by destruct r as [[]|].
Qed.

(** A message over the limit is refused before a byte is written. *)
Lemma reliable_send_too_large c msg :
  MAX_FRAME_LEN < blen msg ->
  reliable_send c msg = (c, Err (TE_MessageTooLarge (Z.min u32_max (blen msg)))).
Proof.
  intros Hm. unfold reliable_send, MAX_FRAME_LEN in *. destruct (Z.ltb_spec u32_max (blen msg)).
  - by rewrite Z.min_l by lia.
  - rewrite (proj2 (Z.ltb_lt _ _)) by done. by rewrite Z.min_r by lia.
Qed.

(** Sending a list of messages. *)
Fixpoint send_messages c (msgs : list bytes) : ReliableChannel S R * result TransportError () :=
  match msgs with
  | [] => (c, Ok tt)
  | msg :: msgs =>
      match reliable_send c msg with
      | (c, Ok tt) => send_messages c msgs
      | (c, Err e) => (c, Err e)
      end
  end.

Lemma send_messages_writes msgs : forall c,
  Forall message_ok msgs ->
  exists c' r taken, send_messages c msgs = (c', r) /\ written (rc_send c') = written (rc_send c) ++ taken /\
    taken `prefix_of` concat (map frame_of msgs) /\ (r = Ok tt -> taken = concat (map frame_of msgs)) /\
    (r = Ok tt \/ exists e, r = Err (TE_Io e)) /\ (never_fails S -> r = Ok tt).
Proof.
  induction msgs as [|msg msgs IH]; intros c Hm; cbn [send_messages].
  { exists c, (Ok tt), []. rewrite app_nil_r. split_and!; try done. by left. }
  apply Forall_cons in Hm as [Hm Hms].
  destruct (reliable_send_writes c msg Hm) as (c1 & r1 & t1 & -> & Hw1 & Hp1 & Hok1 & Hr1 & _ & _ & Hn1).
  cbn [map concat]. destruct r1 as [[]|e].
  - destruct (IH c1 Hms) as (c' & r & t & -> & Hw & Hp & Hok & Hr & Hn). rewrite (Hok1 eq_refl) in Hw1.
    exists c', r, (frame_of msg ++ t). rewrite Hw, Hw1, <- app_assoc. split_and!; try done.
    + by apply prefix_app.
    + intros ->. by rewrite Hok.
  - exists c1, (Err e), t1. split_and!; try done. by apply prefix_app_r.
Qed.

(** Receiving until the channel ends: the messages, and how it ended ([None]: out of fuel). *)
Fixpoint recv_messages (fuel : nat) c : list bytes * option (result TransportError ()) :=
  match fuel with
  | O => ([], None)
  | Datatypes.S fuel =>
      match reliable_recv c with
      | (c, Ok (Some msg)) => let '(msgs, e) := recv_messages fuel c in (msg :: msgs, e)
      | (_, Ok None) => ([], Some (Ok tt))
      | (_, Err e) => ([], Some (Err e))
      end
  end.

Lemma read_exact_app (r : R) a b :
  to_come r = a ++ b -> exists r', read_exact r (blen a) = (r', Ok a) /\ to_come r' = b /\ ending r' = ending r.
Proof.
  intros Hr. pose proof (blen_nonneg a). pose proof (blen_nonneg b).
  destruct (read_exact_reads r (blen a)) as (r' & E & Hd & He); [rewrite Hr, blen_app; lia|].
  exists r'. rewrite E, Hd, Hr. unfold blen. rewrite Nat2Z.id, take_app_length, drop_app_length. done.
Qed.

Lemma reliable_recv_frame c msg rest :
  message_ok msg -> to_come (rc_recv c) = frame_of msg ++ rest ->
  exists r', reliable_recv c = (with_recv c r', Ok (Some msg)) /\ to_come r' = rest /\ ending r' = ending (rc_recv c).
Proof.
  intros Hm Hd. destruct (frame_length msg Hm) as [Hf Hl]. unfold frame_of in Hd. rewrite <- app_assoc in Hd.
  destruct (read_exact_app _ _ _ Hd) as (r1 & E1 & H1 & He1). rewrite blen_to_be in E1. change (Z.of_nat 4) with 4 in E1.
  destruct (read_exact_app r1 _ _ H1) as (r2 & E2 & H2 & He2).
  exists r2. unfold reliable_recv. rewrite E1, Hf, Hl, E2. by rewrite He2.
Qed.

(** A stream that ends inside a frame: a clean end only where no byte of it was sent. *)
Lemma reliable_recv_cut c msg cut rest :
  message_ok msg -> ending (rc_recv c) = Fin -> to_come (rc_recv c) = cut ->
  frame_of msg = cut ++ rest -> rest <> [] ->
  (reliable_recv c).2 = if decide (cut = []) then Ok None else Err TE_StreamClosed.
Proof.
  intros Hm He Hd Hf Hr. destruct (frame_length msg Hm) as [Hv Hl]. unfold reliable_recv.
  destruct (Z.le_gt_cases 4 (blen cut)) as [H4|H4].
  - assert (exists cut2, cut = to_be 4 (blen msg) ++ cut2 /\ msg = cut2 ++ rest) as (cut2 & Hc & Hmsg).
    { unfold frame_of in Hf. apply app_eq_inv in Hf as [(k & Hk & ->)|(k & -> & ->)]; [|by exists k].
      apply (f_equal blen) in Hk as Hlen. rewrite blen_app, blen_to_be in Hlen.
      destruct k; [|unfold blen in *; cbn [length] in *; lia].
      exists []. by rewrite !app_nil_r in *. }
    rewrite Hc in Hd. destruct (read_exact_app _ _ _ Hd) as (r1 & E1 & H1 & He1).
    rewrite blen_to_be in E1. change (Z.of_nat 4) with 4 in E1. rewrite E1, Hv, Hl. rewrite He in He1.
    pose proof (read_exact_early r1 (blen msg)) as H2. rewrite H1 in H2.
    destruct (read_exact r1 (blen msg)) as [r2 x]. cbn [snd] in H2. rewrite H2; [|rewrite Hmsg, blen_app|done].
    2: { destruct rest; [done|]. unfold blen. cbn [length]. lia. }
    rewrite decide_False; [done|]. intros E. rewrite E in H4. unfold blen in H4. cbn in H4. lia.
  - pose proof (read_exact_early (rc_recv c) 4) as H2. rewrite Hd in H2.
    destruct (read_exact (rc_recv c) 4) as [r2 x]. cbn [snd] in H2. rewrite H2 by (done || lia).
    destruct cut as [|b cut]; [done|]. unfold blen at 1. cbn [length]. rewrite (proj2 (Z.eqb_neq _ _)) by lia.
    by rewrite decide_False.
Qed.

Lemma recv_messages_prefix msgs : forall fuel c seen,
  Forall message_ok msgs -> seen `prefix_of` concat (map frame_of msgs) ->
  to_come (rc_recv c) = seen -> ending (rc_recv c) = Fin -> (length seen < fuel)%nat ->
  exists k rest, received_prefix msgs seen k rest /\
    recv_messages fuel c =
    (take k msgs, Some (if decide (rest = []) then Ok tt else Err TE_StreamClosed)).
Proof.
  unfold received_prefix.
  induction msgs as [|msg msgs IH]; intros [|fuel] c seen Hm Hp Hd He Hf; try lia; cbn [recv_messages].
  { apply prefix_nil_inv in Hp. rewrite Hp in *. exists 0%nat, []. split; [by auto with lia|].
    pose proof (read_exact_early (rc_recv c) 4) as H2. rewrite Hd in H2. unfold reliable_recv.
    destruct (read_exact (rc_recv c) 4) as [r2 x]. cbn [snd] in H2. by rewrite H2. }
  apply Forall_cons in Hm as [Hm Hms]. cbn [map concat] in Hp.
  destruct (decide (frame_of msg `prefix_of` seen)) as [[seen' Hs]|Hn].
  - rewrite Hs in Hp. apply prefix_app_inv in Hp.
    destruct (reliable_recv_frame c msg seen' Hm) as (r' & -> & Hr' & He'); [by rewrite Hd|].
    pose proof (frame_of_not_nil msg). rewrite Hs, length_app in Hf.
    destruct (IH fuel (with_recv c r') seen' Hms Hp Hr') as (k & rest & (Hk & Hcat & Hrest) & ->);
      [by cbn; rewrite He'|lia|].
    exists (Datatypes.S k), rest. split; [|done]. cbn [take map concat length lookup].
    split; [lia|]. split; [|done]. by rewrite Hs, Hcat, <- app_assoc.
  - assert (exists rest, frame_of msg = seen ++ rest /\ rest <> []) as (rest & Hr & Hne).
    { destruct (prefix_weak_total seen (frame_of msg) (frame_of msg ++ concat (map frame_of msgs)))
        as [[rest Hr]|Hc]; [done|by apply prefix_app_r|exists rest|done].
      split; [done|]. intros ->. apply Hn. rewrite Hr, app_nil_r. done. }
    pose proof (reliable_recv_cut c msg seen rest Hm He Hd Hr Hne) as Hcut.
    destruct (reliable_recv c) as [c' r]. cbn [snd] in Hcut. subst r.
    exists 0%nat, seen. split.
    + split; [lia|]. split; [done|]. right. exists msg. split; [done|]. split; [by exists rest|].
      intros ->. apply Hn. done.
    + by destruct (decide (seen = [])).
Qed.

(** Everything the peer sent. *)
Lemma received_all msgs k rest :
  received_prefix msgs (concat (map frame_of msgs)) k rest -> k = length msgs /\ rest = [].
Proof.
  intros (Hk & Hcat & Hrest). rewrite <- (take_drop k msgs) in Hcat at 1.
  rewrite map_app, concat_app in Hcat. apply app_inv_head in Hcat.
  destruct (drop k msgs) as [|m l] eqn:E.
  - cbn in Hcat. subst rest. split; [|done]. apply (f_equal length) in E. rewrite length_drop in E. cbn in E. lia.
  - exfalso. assert (msgs !! k = Some m) as Hl.
    { rewrite <- (Nat.add_0_r k), <- lookup_drop, E. done. }
    cbn [map concat] in Hcat. pose proof (frame_of_not_nil m) as H4.
    destruct Hrest as [->|(m' & Hm' & Hp & Hne)].
    + apply (f_equal length) in Hcat. rewrite length_app in Hcat. cbn in Hcat. lia.
    + rewrite Hl in Hm'. injection Hm' as <-. apply Hne. subst rest.
      destruct Hp as [z Hz]. rewrite <- app_assoc in Hz.
      rewrite <- (app_nil_r (frame_of m)) in Hz at 1. apply app_inv_head in Hz.
      symmetry in Hz. apply app_eq_nil in Hz as [-> _]. by rewrite app_nil_r.
Qed.

(** Opening a channel writes its header, if quinn lets it. *)
Lemma open_channel_writes spec (s : S) (r : R) :
  reliability spec = Reliable -> written s = [] ->
  (forall c, open_channel (Ok (s, r)) spec = Ok (QReliable c) ->
     written (rc_send c) = encode_header spec /\ rc_recv c = r /\ rc_spec c = spec) /\
  (never_fails S -> exists c, open_channel (Ok (s, r)) spec = Ok (QReliable c)).
Proof.
  intros Hrel Hw. unfold open_channel. rewrite Hrel. cbn [map_err]. split.
  - intros c. destruct (set_priority s _) as [s1|] eqn:E1; cbn [ok_or]; [|done].
    destruct (write_all s1 _) as [s2 [[]|]] eqn:E2; [|done]. intros [= <-]. cbn [rc_send rc_recv rc_spec].
    destruct (write_all_takes _ _ _ _ E2) as (t & -> & _ & ->); [|done].
    rewrite (set_priority_writes _ _ _ E1), Hw. done.
  - intros [Hn Hp]. destruct (Hp s (quinn_priority spec)) as [s1 ->]. cbn [ok_or].
    specialize (Hn s1 (encode_header spec)). destruct (write_all s1 _) as [s2 [[]|]]; [|done]. by eexists.
Qed.

(** Accepting one reads it. *)
Lemma accept_channel_reads spec (s : S) (r : R) rest :
  reliability spec = Reliable -> to_come r = encode_header spec ++ rest ->
  exists r', accept_channel (Ok (s, r)) = Ok {| rc_send := s; rc_recv := r'; rc_spec := spec |} /\
    to_come r' = rest /\ ending r' = ending r.
Proof.
  intros Hrel Hr. destruct (read_exact_app _ _ _ Hr) as (r' & E & Hd & He). exists r'.
  unfold accept_channel. cbn [map_err]. change (blen (encode_header spec)) with HEADER_LEN in E. rewrite E.
  change (default 0 (encode_header spec !! 0%nat)) with (channel_to_u8 (spec_channel spec)).
  change (default 0 (encode_header spec !! 1%nat)) with (spec_priority spec).
  by rewrite header_roundtrip.
Qed.

(** C31. Messages over a stream channel, on any QUIC streams whose reads and writes behave as
    quinn documents: open a reliable channel and send messages of at most 16 MiB.  A send fails
    only with an error of quinn's own, and over streams that do not fail the channel opens and
    every message is sent.  Let any first part of the written bytes reach the peer before the
    stream is finished: without the two header bytes the peer accepts no channel; otherwise it
    gets a channel with the same channel id and priority, receives exactly the messages that
    arrived whole, in order, and reports a clean end only when the stream stopped between two
    messages ([StreamClosed] otherwise); when every send succeeded and every byte arrives it
    receives every message. *)
Theorem stream_channel_delivers spec msgs (s : S) (r : R) :
  reliability spec = Reliable -> Forall message_ok msgs -> written s = [] ->
  (never_fails S -> exists c c', open_channel (Ok (s, r)) spec = Ok (QReliable c) /\ send_messages c msgs = (c', Ok tt)) /\
  forall c c' res, open_channel (Ok (s, r)) spec = Ok (QReliable c) -> send_messages c msgs = (c', res) ->
    (res = Ok tt \/ exists e, res = Err (TE_Io e)) /\
    forall (peer_send : S) (peer : R), to_come peer `prefix_of` written (rc_send c') -> ending peer = Fin ->
      let accepted := accept_channel (Ok (peer_send, peer)) in
      if blen (to_come peer) <? HEADER_LEN
      then accepted = Err (TE_InvalidChannelHeader "stream closed before header")
      else exists a k rest,
        accepted = Ok a /\ rc_spec a = spec /\
        received_prefix msgs (drop 2 (to_come peer)) k rest /\
        recv_messages (length (to_come peer)) a
          = (take k msgs, Some (if decide (rest = []) then Ok tt else Err TE_StreamClosed)) /\
        (res = Ok tt -> to_come peer = written (rc_send c') -> k = length msgs /\ rest = []).
Proof.
  intros Hrel Hm Hw. destruct (open_channel_writes spec s r Hrel Hw) as [Hopen Hlive]. split.
  { intros Hn. destruct (Hlive Hn) as [c Hc]. destruct (send_messages_writes msgs c Hm) as (c' & res & t & E & _ & _ & _ & _ & Hr).
    exists c, c'. split; [done|]. rewrite E. by rewrite (Hr Hn). }
  intros c c' res Hc Hs. destruct (Hopen c Hc) as (Hwc & _ & _).
  destruct (send_messages_writes msgs c Hm) as (c1 & r1 & t & E & Hwt & Hpt & Hok & Hres & _).
  rewrite E in Hs. injection Hs as <- <-. rewrite Hwc in Hwt. split; [done|].
  intros ps peer Hp He. cbn zeta. rewrite Hwt in Hp.
  destruct (Z.ltb_spec (blen (to_come peer)) HEADER_LEN) as [Hs|Hs]; unfold HEADER_LEN in Hs.
  { unfold accept_channel. cbn [map_err]. pose proof (read_exact_early peer HEADER_LEN Hs He) as H2.
    destruct (read_exact peer HEADER_LEN) as [r2 x]. cbn [snd] in H2. by rewrite H2. }
  assert (exists seen, to_come peer = encode_header spec ++ seen /\ seen `prefix_of` t) as (seen & Hseen & Hpre).
  { destruct (to_come peer) as [|b0 [|b1 seen]]; [unfold blen in Hs; cbn in Hs; lia..|]. exists seen.
    apply (prefix_cons_inv_1 b0) in Hp as Hb0. apply prefix_cons_inv_2 in Hp.
    apply (prefix_cons_inv_1 b1) in Hp as Hb1. apply prefix_cons_inv_2 in Hp. by subst b0 b1. }
  destruct (accept_channel_reads spec ps peer seen Hrel Hseen) as (r' & Ha & Hr' & He'). rewrite Ha, Hseen.
  destruct (recv_messages_prefix msgs (length (encode_header spec ++ seen)) {| rc_send := ps; rc_recv := r'; rc_spec := spec |} seen Hm)
    as (k & rest & Hk & Hrecv); [by etrans|done|by cbn; rewrite He'|cbn; lia|].
  eexists _, k, rest. split_and!; [done|done|done|exact Hrecv|].
  intros Hr Hall. rewrite Hwt in Hall. apply app_inv_head in Hall. rewrite Hall, (Hok Hr) in Hk. by apply received_all.
Qed.
End Framing.

(** ** Streams over lists *)

(** [ls_room] bytes are still taken before the stream fails; [None]: it does not fail. *)
Record ListSend := { ls_written : bytes; ls_room : option Z }.
Record ListRecv := { lr_data : bytes; lr_end : StreamEnd }.

#[export] Instance list_send : SendStream ListSend := {
  write_all s data :=
    match ls_room s with
    | Some room =>
        if blen data <=? room
        then ({| ls_written := ls_written s ++ data; ls_room := Some (room - blen data) |}, Ok tt)
        else ({| ls_written := ls_written s ++ take (Z.to_nat room) data; ls_room := Some 0 |}, Err WriteFailed)
    | None => ({| ls_written := ls_written s ++ data; ls_room := None |}, Ok tt)
    end;
  set_priority s _ := Some s;
  written := ls_written;
}.

#[export] Instance list_send_laws : SendStreamLaws ListSend.
Proof.
  split; [|by intros s p s' [= <-]]. intros s data s' r. cbn.
  destruct (ls_room s) as [room|]; [destruct (blen data <=? room)|]; intros [= <- <-]; cbn;
    (eexists; split; [reflexivity|]); (split; [|done]); [done|apply prefix_take|done].
Qed.

#[export] Instance list_recv_stream : RecvStream ListRecv := {
  read_exact s n :=
    if n <=? blen (lr_data s)
    then ({| lr_data := drop (Z.to_nat n) (lr_data s); lr_end := lr_end s |}, Ok (take (Z.to_nat n) (lr_data s)))
    else ({| lr_data := []; lr_end := lr_end s |},
          Err (match lr_end s with Fin => FinishedEarly (blen (lr_data s)) | Reset_ => ReadFailed end));
  to_come := lr_data;
  ending := lr_end;
}.

#[export] Instance list_recv_laws : RecvStreamLaws ListRecv.
Proof.
  split; cbn; intros r n H; [rewrite (proj2 (Z.leb_le _ _)) by lia; by eexists| |];
    intros He; rewrite (proj2 (Z.leb_gt _ _)) by lia; cbn; by rewrite He.
Qed.

(** A send stream that does not fail, and a receive stream that is finished behind its bytes. *)
Definition fresh_send : ListSend := {| ls_written := []; ls_room := None |}.
Definition finished (data : bytes) : ListRecv := {| lr_data := data; lr_end := Fin |}.

(** Three messages, one of them empty; the peer sees the stream cut inside the last. *)
Lemma stream_channel_delivers_witness :
  exists c c',
    open_channel (Ok (fresh_send, finished [])) spec_file = Ok (QReliable c) /\
    send_messages c [[1; 2; 3]; []; [9; 8]] = (c', Ok tt) /\
    exists a, accept_channel (Ok (fresh_send, finished (take 18 (written (rc_send c'))))) = Ok a /\
      rc_spec a = spec_file /\
      recv_messages 18 a = ([[1; 2; 3]; []], Some (Err TE_StreamClosed)).
Proof.
  set (seen := [4; 6; 0; 0; 0; 3; 1; 2; 3; 0; 0; 0; 0; 0; 0; 0; 2; 9]).
  assert (Forall message_ok [[1; 2; 3]; []; [9; 8]]) as Hm by (repeat constructor; by vm_compute).
  assert (written fresh_send = []) as Hw0 by reflexivity.
  destruct (open_channel (Ok (fresh_send, finished [])) spec_file) as [[c|]|] eqn:Hopen; [|vm_compute in Hopen; discriminate..].
  destruct (send_messages c [[1; 2; 3]; []; [9; 8]]) as [c' r] eqn:Hsend.
  destruct (stream_channel_delivers spec_file [[1; 2; 3]; []; [9; 8]] fresh_send (finished []) eq_refl Hm Hw0) as [_ H].
  destruct (H c c' r Hopen Hsend) as [_ Hp].
  assert (r = Ok tt /\ written (rc_send c') = seen ++ [8]) as [-> Hw].
  { vm_compute in Hopen. injection Hopen as <-. vm_compute in Hsend. injection Hsend as <- <-. by vm_compute. }
  exists c, c'. split; [done|]. split; [done|]. rewrite Hw. change (take 18 (seen ++ [8])) with seen.
  destruct (Hp fresh_send (finished seen)) as (a & k & rest & Ha & Hspec & _); [rewrite Hw; by exists [8]|done|].
  exists a. split; [done|]. split; [done|]. vm_compute in Ha. injection Ha as <-. by vm_compute.
Defined.
