(* ===== verification/Sdp.v ===== *)
(** * sh-transport: the texts of the WebRTC bridge

    crates/sh-transport/src/webrtc.rs: the label that carries a channel's specification
    ([open_channel_impl], [parse_channel_label]) and the DTLS fingerprint of an SDP offer
    ([parse_sdp_fingerprint], [decode_fingerprint_hex]).  A [&str] is its UTF-8 bytes; every
    separator looked for is ASCII. *)

From stdpp Require Import base numbers list option strings.
From S2P Require Import Prelude Types Decimal Transport.

(** ** [u8::from_str_radix] and [str::parse::<u8>] *)

Definition digit_val (radix b : Z) : option Z :=
  let v := if (48 <=? b) && (b <=? 57) then b - 48
           else if (97 <=? b) && (b <=? 122) then b - 87
           else if (65 <=? b) && (b <=? 90) then b - 55
           else radix in
  if v <? radix then Some v else None.

Fixpoint parse_digits (radix acc : Z) (l : bytes) : option Z :=
  match l with
  | [] => Some acc
  | b :: l =>
      d ← digit_val radix b;
      let v := acc * radix + d in
      if u8_max <? v then None else parse_digits radix v l
  end.

(** An optional plus sign, then at least one digit. *)
Definition parse_u8 (radix : Z) (s : bytes) : option Z :=
  match s with
  | [] => None
  | b :: r =>
      if b =? 43 then match r with [] => None | _ => parse_digits radix 0 r end
      else parse_digits radix 0 s
  end.

(** [s.split_once(sep)] *)
Fixpoint split_once (sep : Z) (s : bytes) : option (bytes * bytes) :=
  match s with
  | [] => None
  | b :: s => if b =? sep then Some ([], s) else
              p ← split_once sep s; Some (b :: p.1, p.2)
  end.

(** [s.split(sep)] *)
Fixpoint split_on (sep : Z) (s : bytes) : list bytes :=
  match s with
  | [] => [[]]
  | b :: s =>
      if b =? sep then [] :: split_on sep s else
      match split_on sep s with
      | g :: gs => (b :: g) :: gs
      | [] => [[b]]
      end
  end.

(** [s.splitn(n, sep)] *)
Fixpoint splitn (n : nat) (sep : Z) (s : bytes) : list bytes :=
  match n with
  | O => []
  | S O => [s]
  | S n => match split_once sep s with
           | Some (a, b) => a :: splitn n sep b
           | None => [s]
           end
  end.

(** ** Channel labels *)

Definition COLON : Z := 58.

Definition channel_label (spec : ChannelSpec) : bytes :=
  let ordered_u8 := if bool_decide (reliability spec = Reliable) then 1 else 0 in
  dec 3 (channel_to_u8 (spec_channel spec)) ++ [COLON] ++ dec 3 (spec_priority spec) ++ [COLON]
  ++ dec 3 ordered_u8.

Definition parse_channel_label (label : bytes) : ChannelSpec :=
  let parts := splitn 3 COLON label in
  let channel := default Control (
    s ← parts !! 0%nat; b ← parse_u8 10 s; ok (channel_try_from b)) in
  let priority := default 0 (s ← parts !! 1%nat; parse_u8 10 s) in
  let reliability := default Reliable (
    s ← parts !! 2%nat; b ← parse_u8 10 s; Some (if b =? 0 then Unreliable else Reliable)) in
  {| spec_channel := channel; reliability := reliability; spec_priority := priority |}.

(** ** The fingerprint of an offer *)

Inductive SdpBridgeError :=
| SdpTooLarge (actual max : Z)
| NoFingerprint
| FingerprintParseError (reason : string)
| CandidateParseError
| SdpParseError
| OfferRejected
| InvalidPin (reason : string).

Record DtlsFingerprint := { hash_func : bytes; fp_bytes : bytes }.

#[global] Instance DtlsFingerprint_eq_dec : EqDecision DtlsFingerprint.
Proof. solve_decision. Defined.

Definition MAX_SDP_BYTES : Z := 64 * 1024.
Definition MAX_SDP_LINES : Z := 10000.
Definition MAX_SDP_LINE_LEN : Z := 200.

Definition SHA_256 : bytes := lit "sha-256".
Definition PREFIX : bytes := lit "a=fingerprint:sha-256 ".

Fixpoint decode_groups (groups : list bytes) : result SdpBridgeError bytes :=
  match groups with
  | [] => Ok []
  | group :: groups =>
      if negb (blen group =? 2)
      then Err (FingerprintParseError "each hex group must be exactly 2 characters") else
      let? byte := ok_or (parse_u8 16 group)
                         (FingerprintParseError "fingerprint hex group is not valid hexadecimal") in
      let? rest := decode_groups groups in
      Ok (byte :: rest)
  end.

Definition decode_fingerprint_hex (hex_part : bytes) : result SdpBridgeError DtlsFingerprint :=
  let groups := split_on COLON hex_part in
  if bool_decide (groups = []) then Err (FingerprintParseError "fingerprint hex part is empty") else
  let? bytes := decode_groups groups in
  if negb (blen bytes =? 32)
  then Err (FingerprintParseError "SHA-256 fingerprint must be exactly 32 bytes") else
  Ok {| hash_func := SHA_256; fp_bytes := bytes |}.

(** [str::lines]: a line ends at a line feed, with a carriage return before it; text behind the
    last line feed is a line too. *)
Fixpoint split_lines (cur l : bytes) : list (bytes * bool) :=
  match l with
  | [] => match cur with [] => [] | _ => [(cur, false)] end
  | b :: l => if b =? 10 then (cur, true) :: split_lines [] l else split_lines (cur ++ [b]) l
  end.

Definition strip_cr (s : bytes) : bytes :=
  if bool_decide (last s = Some 13) then take (length s - 1) s else s.

Definition lines (l : bytes) : list bytes :=
  map (fun p => if (p : bytes * bool).2 then strip_cr p.1 else p.1) (split_lines [] l).

Definition ascii_lower (b : Z) : Z := if (65 <=? b) && (b <=? 90) then b + 32 else b.

Definition strip_prefix (p s : bytes) : option bytes :=
  if bool_decide (take (length p) s = p) then Some (drop (length p) s) else None.

(** The part of a line behind the prefix, as written or in lower case. *)
Definition fingerprint_part (line : bytes) : option bytes :=
  match strip_prefix PREFIX line with
  | Some hex_part => Some hex_part
  | None => strip_prefix PREFIX (map ascii_lower line)
  end.

Fixpoint scan_lines (ls : list bytes) : result SdpBridgeError DtlsFingerprint :=
  match ls with
  | [] => Err NoFingerprint
  | line :: ls =>
      if MAX_SDP_LINE_LEN <? blen line then scan_lines ls else
      match fingerprint_part line with
      | Some hex_part => decode_fingerprint_hex hex_part
      | None => scan_lines ls
      end
  end.

Definition parse_sdp_fingerprint (sdp : bytes) : result SdpBridgeError DtlsFingerprint :=
  scan_lines (take (Z.to_nat MAX_SDP_LINES) (lines sdp)).

(** ** Labels round-trip *)

Definition all_specs : list ChannelSpec :=
  c ← [Video; Audio; Input; Clipboard; File; Control];
  r ← [Unreliable; Reliable];
  p ← seqZ 0 256;
  [{| spec_channel := c; reliability := r; spec_priority := p |}].

Lemma all_specs_spec s : is_u8 (spec_priority s) -> s ∈ all_specs.
Proof.
  intros Hp. destruct s as [c r p]. cbn in Hp. unfold all_specs. unfold is_u8 in Hp.
  apply list_elem_of_bind. exists c. split; [|apply list_elem_of_In; destruct c; cbn; tauto].
  apply list_elem_of_bind. exists r. split; [|apply list_elem_of_In; destruct r; cbn; tauto].
  apply list_elem_of_bind. exists p. split; [by apply list_elem_of_singleton|].
  apply elem_of_seqZ. lia.
Qed.

(** The accepting peer reads back the specification the opening peer wrote. *)
Lemma channel_label_roundtrip s : is_u8 (spec_priority s) -> parse_channel_label (channel_label s) = s.
Proof.
  intros Hs%all_specs_spec.
  assert (forallb (fun s => bool_decide (parse_channel_label (channel_label s) = s)) all_specs = true) as H
    by (vm_compute; reflexivity).
  rewrite forallb_forall in H. apply (bool_decide_eq_true _), H. by apply list_elem_of_In.
Qed.

(** Labels that are not ours: a control channel. *)
Lemma foreign_label :
  parse_channel_label (lit "chat") = {| spec_channel := Control; reliability := Reliable; spec_priority := 0 |}.
Proof. reflexivity. Qed.

(** ** Fingerprints *)

(** The text of one byte, in upper or lower case. *)
Definition hex_pair (a : Z) (b : Z) : bytes :=
  let digit d := if d <? 10 then 48 + d else a + d in [digit (b / 16); digit (b mod 16)].

(** [AA:BB:..]: upper case for [a = 55], lower case for [a = 87]. *)
Fixpoint fingerprint_text (a : Z) (fp : bytes) : bytes :=
  match fp with
  | [] => []
  | [b] => hex_pair a b
  | b :: fp => hex_pair a b ++ [COLON] ++ fingerprint_text a fp
  end.

Definition letter_base (a : Z) : Prop := a = 55 \/ a = 87.

Lemma hex_pair_parse a b : letter_base a -> is_u8 b -> parse_u8 16 (hex_pair a b) = Some b.
Proof.
  intros Ha Hb.
  assert (forall a, letter_base a ->
            all_u8 256 (fun b => bool_decide (parse_u8 16 (hex_pair a b) = Some b)) = true) as H.
  { intros ? [->| ->]; vm_compute; reflexivity. }
  apply (bool_decide_eq_true _). by apply (all_u8_spec 256 _ (H a Ha)).
Qed.

Lemma hex_pair_no_colon a b : letter_base a -> is_u8 b -> Forall (fun c => c <> COLON /\ c <> 10) (hex_pair a b).
Proof.
  intros Ha Hb. unfold hex_pair.
  assert (forall d, 0 <= d < 16 -> (if d <? 10 then 48 + d else a + d) <> COLON /\
                                   (if d <? 10 then 48 + d else a + d) <> 10) as H.
  { intros d Hd. unfold COLON. destruct Ha; destruct (Z.ltb_spec d 10); lia. }
  unfold is_u8 in Hb. repeat constructor; apply H.
  1-2: split; [apply Z.div_pos; lia|apply Z.div_lt_upper_bound; lia].
  all: apply Z.mod_pos_bound; lia.
Qed.

Lemma split_on_head sep g s :
  Forall (fun c => c <> sep) g -> split_on sep (g ++ sep :: s) = g :: split_on sep s.
Proof.
  induction g as [|c g IH]; intros Hg; cbn [app split_on]; [by rewrite Z.eqb_refl|].
  apply Forall_cons in Hg as [Hc Hg]. rewrite (proj2 (Z.eqb_neq _ _) Hc). by rewrite IH.
Qed.

Lemma split_on_last sep g : Forall (fun c => c <> sep) g -> split_on sep g = [g].
Proof.
  induction g as [|c g IH]; intros Hg; cbn [split_on]; [done|].
  apply Forall_cons in Hg as [Hc Hg]. rewrite (proj2 (Z.eqb_neq _ _) Hc). by rewrite IH.
Qed.

Lemma split_on_fingerprint a fp :
  letter_base a -> bytes_ok fp -> fp <> [] ->
  split_on COLON (fingerprint_text a fp) = map (hex_pair a) fp.
Proof.
  intros Ha. induction fp as [|b fp IH]; intros Hb Hne; [done|].
  apply Forall_cons in Hb as [Hb Hfp].
  assert (Forall (fun c => c <> COLON) (hex_pair a b)) as Hc.
  { eapply list.Forall_impl; [by apply hex_pair_no_colon|]. by intros ? []. }
  destruct fp as [|b' fp]; [cbn [fingerprint_text map]; by apply split_on_last|].
  change (fingerprint_text a (b :: b' :: fp)) with (hex_pair a b ++ COLON :: fingerprint_text a (b' :: fp)).
  rewrite split_on_head by done. by rewrite IH.
Qed.

Lemma decode_groups_pairs a fp :
  letter_base a -> bytes_ok fp -> decode_groups (map (hex_pair a) fp) = Ok fp.
Proof.
  intros Ha. induction 1 as [|b fp Hb _ IH]; [done|]. cbn [map decode_groups].
  change (blen (hex_pair a b)) with 2. cbn [Z.eqb negb]. rewrite hex_pair_parse by done. cbn [ok_or].
  by rewrite IH.
Qed.

(** A SHA-256 fingerprint written out is read back, in either case. *)
Lemma fingerprint_roundtrip a fp :
  letter_base a -> bytes_ok fp -> blen fp = 32 ->
  decode_fingerprint_hex (fingerprint_text a fp) = Ok {| hash_func := SHA_256; fp_bytes := fp |}.
Proof.
  intros Ha Hb Hl. unfold decode_fingerprint_hex.
  rewrite split_on_fingerprint by (done || by intros ->). rewrite decode_groups_pairs by done.
  rewrite bool_decide_false by (destruct fp; done). by rewrite Hl.
Qed.

Lemma parse_digits_range radix l : forall acc v,
  0 <= acc <= u8_max -> 0 <= radix -> (forall b d, digit_val radix b = Some d -> 0 <= d) ->
  parse_digits radix acc l = Some v -> is_u8 v.
Proof.
  induction l as [|b l IH]; intros acc v Ha Hr Hd; cbn [parse_digits].
  - intros [= <-]. unfold u8_max, is_u8 in *. lia.
  - destruct (digit_val radix b) as [d|] eqn:E; [|done]. cbn. specialize (Hd b d E) as Hd0.
    destruct (Z.ltb_spec u8_max (acc * radix + d)); [done|]. apply IH; [nia|done|done].
Qed.

Lemma digit_val_nonneg radix b d : 0 <= radix -> digit_val radix b = Some d -> 0 <= d.
Proof.
  intros Hr. unfold digit_val.
  destruct ((48 <=? b) && (b <=? 57)) eqn:E1; [|destruct ((97 <=? b) && (b <=? 122)) eqn:E2;
    [|destruct ((65 <=? b) && (b <=? 90)) eqn:E3]]; destruct (_ <? radix); try done; intros [= <-]; simplify_bool; lia.
Qed.

Lemma parse_u8_range radix s v : 0 <= radix -> parse_u8 radix s = Some v -> is_u8 v.
Proof.
  intros Hr. unfold parse_u8. destruct s as [|b r]; [done|].
  assert (forall l, parse_digits radix 0 l = Some v -> is_u8 v) as H.
  { intros l. apply parse_digits_range; [unfold u8_max; lia|done|]. intros. by eapply digit_val_nonneg. }
  destruct (b =? 43); [destruct r; [done|apply H]|apply H].
Qed.

(** Whatever is accepted is 32 bytes long. *)
Lemma decode_groups_ok gs fp : decode_groups gs = Ok fp -> bytes_ok fp.
Proof.
  revert fp. induction gs as [|g gs IH]; intros fp; cbn [decode_groups]; [intros [= <-]; constructor|].
  destruct (negb _); [done|]. destruct (parse_u8 16 g) as [b|] eqn:Eb; [|done]. cbn [ok_or].
  destruct (decode_groups gs) as [rest|]; [|done]. intros [= <-].
  constructor; [apply (parse_u8_range 16 g); [lia|done]|by apply IH].
Qed.

Lemma scan_lines_ok ls f :
  scan_lines ls = Ok f -> hash_func f = SHA_256 /\ blen (fp_bytes f) = 32 /\ bytes_ok (fp_bytes f).
Proof.
  induction ls as [|line ls IH]; cbn [scan_lines]; [done|]. destruct (_ <? blen line); [done|].
  destruct (fingerprint_part line) as [h|]; [|done]. unfold decode_fingerprint_hex.
  destruct (bool_decide _); [done|]. destruct (decode_groups _) as [fp|] eqn:E; [|done].
  destruct (Z.eqb_spec (blen fp) 32); [|done]. intros [= <-]. split_and!; [done|done|by eapply decode_groups_ok].
Qed.

(** ** An offer's lines *)

(** Lines ended with carriage return and line feed. *)
Definition crlf (ls : list bytes) : bytes := concat (map (fun s => s ++ [13; 10]) ls).

Definition line_ok (s : bytes) : Prop := Forall (fun b => b <> 10) s.

Lemma split_lines_one s : forall cur rest,
  line_ok s -> split_lines cur (s ++ 10 :: rest) = (cur ++ s, true) :: split_lines [] rest.
Proof.
  induction s as [|b s IH]; intros cur rest Hs; cbn [app split_lines].
  - by rewrite app_nil_r.
  - apply Forall_cons in Hs as [Hb Hs]. rewrite (proj2 (Z.eqb_neq _ _) Hb), IH by done.
    by rewrite <- app_assoc.
Qed.

Lemma strip_cr_snoc s : strip_cr (s ++ [13]) = s.
Proof.
  unfold strip_cr. rewrite last_snoc, bool_decide_true by done.
  rewrite length_app. cbn [length]. by rewrite Nat.add_sub, take_app_length.
Qed.

Lemma lines_crlf ls : Forall line_ok ls -> lines (crlf ls) = ls.
Proof.
  unfold lines, crlf. induction 1 as [|s ls Hs _ IH]; [done|]. cbn [map concat].
  replace ((s ++ [13; 10]) ++ concat (map (fun s => s ++ [13; 10]) ls))
    with ((s ++ [13]) ++ 10 :: concat (map (fun s => s ++ [13; 10]) ls))
    by (rewrite <- !app_assoc; done).
  rewrite split_lines_one by (apply Forall_app; split; [done|repeat constructor; lia]).
  cbn [map fst snd app]. by rewrite strip_cr_snoc, IH.
Qed.

Lemma scan_lines_skip ls1 ls2 :
  Forall (fun s => fingerprint_part s = None) ls1 -> scan_lines (ls1 ++ ls2) = scan_lines ls2.
Proof.
  induction 1 as [|s ls1 Hs _ IH]; [done|]. cbn [app scan_lines]. rewrite Hs, IH. by destruct (_ <? _).
Qed.

Lemma fingerprint_text_length a fp : bytes_ok fp -> fp <> [] -> blen (fingerprint_text a fp) = 3 * blen fp - 1.
Proof.
  induction 1 as [|b fp Hb _ IH]; intros Hne; [done|]. destruct fp as [|b' fp]; [done|].
  change (fingerprint_text a (b :: b' :: fp)) with (hex_pair a b ++ COLON :: fingerprint_text a (b' :: fp)).
  rewrite blen_app. change (COLON :: fingerprint_text a (b' :: fp)) with ([COLON] ++ fingerprint_text a (b' :: fp)).
  rewrite blen_app, IH by done. change (blen (hex_pair a b)) with 2. change (blen [COLON]) with 1.
  unfold blen. cbn [length]. lia.
Qed.

Lemma fingerprint_part_prefix h : fingerprint_part (PREFIX ++ h) = Some h.
Proof.
  unfold fingerprint_part, strip_prefix. rewrite take_app_length, bool_decide_true by done.
  by rewrite drop_app_length.
Qed.

(** The fingerprint read from an offer is that of its first fingerprint line, whatever the
    other lines hold. *)
Lemma parse_sdp_first pre post a fp :
  Forall line_ok pre -> Forall line_ok post -> Forall (fun s => fingerprint_part s = None) pre ->
  Z.of_nat (length pre) < MAX_SDP_LINES -> letter_base a -> bytes_ok fp -> blen fp = 32 ->
  line_ok (PREFIX ++ fingerprint_text a fp) ->
  parse_sdp_fingerprint (crlf (pre ++ [PREFIX ++ fingerprint_text a fp] ++ post))
    = Ok {| hash_func := SHA_256; fp_bytes := fp |}.
Proof.
  intros Hpre Hpost Hno Hlen Ha Hb Hl Hline. unfold parse_sdp_fingerprint.
  rewrite lines_crlf by (rewrite !Forall_app; split_and!; [done|by constructor|done]).
  rewrite take_app. rewrite (take_ge pre) by lia.
  rewrite scan_lines_skip by done. destruct (_ - length pre)%nat eqn:E; [lia|]. cbn [app take scan_lines].
  rewrite fingerprint_part_prefix, (proj2 (Z.ltb_ge _ _)); [by apply fingerprint_roundtrip|].
  rewrite blen_app, fingerprint_text_length by (done || by intros ->). rewrite Hl. by vm_compute.
Qed.

(** A group of two characters may be a plus sign and one digit. *)
Lemma plus_sign_accepted :
  parse_u8 16 (lit "+A") = Some 10 /\
  decode_fingerprint_hex (lit "+A" ++ concat (replicate 31 (lit ":00")))
    = Ok {| hash_func := SHA_256; fp_bytes := 10 :: replicate 31 0 |}.
Proof. by vm_compute. Qed.
