(* ===== verification/WebRtc.v ===== *)
(** * sh-transport: the WebRTC transport

    crates/sh-transport/src/webrtc.rs: the queues between the str0m engine and the channels
    ([WebRtcInner]), [WebRtcChannel], and the bridge that accepts a browser's offer and pins the
    peer's DTLS certificate ([SdpBridgeBuilder], [WebRtcTransportBuilder]).

    str0m is a parameter.  Its outputs and events are inputs of the definitions; of its engine
    the bridge uses the operations of [Str0m].  Every locked section is one definition; a task
    that parks on a [Notify] is given what the drive loop does until it wakes, and the list ends
    where the task is still parked (or its deadline passes).  Channel ids are integers, instants
    nanoseconds. *)

From stdpp Require Import base numbers list option gmap fin_maps fin_sets sets strings.
From S2P Require Import Prelude Types Stun Transport Sdp.

(** ** The queues *)

Definition MAX_RECV_QUEUE_DEPTH : nat := 512.

(** [str0m::net::Transmit]: the contents and their destination. *)
Definition Datagram : Type := bytes * SocketAddr.

(** The keys of the notifier maps; a [Notify] itself holds no data. *)
Record WebRtcInner := {
  recv_queues : gmap Z (list bytes);
  recv_notifiers : gset Z;
  open_notifiers : gset Z;
  drop_counters : gmap Z Z;
  outbound : list Datagram;
  accept_queue : list (Z * bytes);
  next_timeout : option Z;
  locally_opened : gset Z;
}.

Definition inner_new : WebRtcInner :=
  {| recv_queues := ∅; recv_notifiers := ∅; open_notifiers := ∅; drop_counters := ∅; outbound := [];
     accept_queue := []; next_timeout := None; locally_opened := ∅ |}.

Inductive Event :=
| ChannelOpen (id : Z) (label : bytes)
| ChannelData (id : Z) (binary : bool) (data : bytes)
| ChannelClose (id : Z)
| OtherEvent.

(** The notifications given: [notify_waiters] of an open notifier, [notify_one] of the accept
    notifier or of a receive notifier, [notify_waiters] of a receive notifier. *)
Inductive Wake := WakeOpen (id : Z) | WakeAccept | WakeRecv (id : Z) | WakeRecvAll (id : Z).

Definition with_queues (w : WebRtcInner) (qs : gmap Z (list bytes)) : WebRtcInner :=
  {| recv_queues := qs; recv_notifiers := recv_notifiers w; open_notifiers := open_notifiers w;
     drop_counters := drop_counters w; outbound := outbound w; accept_queue := accept_queue w;
     next_timeout := next_timeout w; locally_opened := locally_opened w |}.

Definition with_drops (w : WebRtcInner) (ds : gmap Z Z) : WebRtcInner :=
  {| recv_queues := recv_queues w; recv_notifiers := recv_notifiers w; open_notifiers := open_notifiers w;
     drop_counters := ds; outbound := outbound w; accept_queue := accept_queue w;
     next_timeout := next_timeout w; locally_opened := locally_opened w |}.

Definition with_accept (w : WebRtcInner) (q : list (Z * bytes)) : WebRtcInner :=
  {| recv_queues := recv_queues w; recv_notifiers := recv_notifiers w; open_notifiers := open_notifiers w;
     drop_counters := drop_counters w; outbound := outbound w; accept_queue := q;
     next_timeout := next_timeout w; locally_opened := locally_opened w |}.

Definition with_outbound (w : WebRtcInner) (o : list Datagram) (t : option Z) : WebRtcInner :=
  {| recv_queues := recv_queues w; recv_notifiers := recv_notifiers w; open_notifiers := open_notifiers w;
     drop_counters := drop_counters w; outbound := o; accept_queue := accept_queue w;
     next_timeout := t; locally_opened := locally_opened w |}.

(** [entry(id).or_default()] *)
Definition queue_of (w : WebRtcInner) (id : Z) : list bytes := default [] (recv_queues w !! id).

Definition wake_if (b : bool) (wk : Wake) : list Wake := if b then [wk] else [].

Definition handle_event (w : WebRtcInner) (event : Event) : WebRtcInner * list Wake :=
  match event with
  | ChannelOpen id label =>
      let w := with_queues w (<[id := queue_of w id]> (recv_queues w)) in
      let wakes := wake_if (bool_decide (id ∈ open_notifiers w)) (WakeOpen id) in
      if bool_decide (id ∈ locally_opened w) then (w, wakes) else
      (with_accept w (accept_queue w ++ [(id, label)]), wakes ++ [WakeAccept])
  | ChannelData id true data =>
      let drop_counter := default 0 (drop_counters w !! id) in
      let queue := queue_of w id in
      if (length queue <? MAX_RECV_QUEUE_DEPTH)%nat
      then (with_drops (with_queues w (<[id := queue ++ [data]]> (recv_queues w)))
              (<[id := drop_counter]> (drop_counters w)),
            wake_if (bool_decide (id ∈ recv_notifiers w)) (WakeRecv id))
      else (with_drops (with_queues w (<[id := queue]> (recv_queues w)))
              (<[id := sat_add u64_max drop_counter 1]> (drop_counters w)), [])
  | ChannelData _ false _ => (w, [])
  | ChannelClose id =>
      (with_queues w (delete id (recv_queues w)),
       wake_if (bool_decide (id ∈ recv_notifiers w)) (WakeRecvAll id))
  | OtherEvent => (w, [])
  end.

(** What the engine puts out before it asks for a timeout; [final] is that timeout, or the
    engine's error. *)
Inductive RtcOutput := Transmit (t : Datagram) | RtcEvent (e : Event).

Definition drain_one (w : WebRtcInner) (o : RtcOutput) : WebRtcInner * list Wake :=
  match o with
  | Transmit t => (with_outbound w (outbound w ++ [t]) (next_timeout w), [])
  | RtcEvent e => handle_event w e
  end.

Fixpoint drain_outputs (w : WebRtcInner) (outs : list RtcOutput) : WebRtcInner * list Wake :=
  match outs with
  | [] => (w, [])
  | o :: outs =>
      let '(w, wk) := drain_one w o in
      let '(w, wks) := drain_outputs w outs in (w, wk ++ wks)
  end.

Inductive WebRtcError := Webrtc | WStreamClosed.

Definition drain_output (w : WebRtcInner) (outs : list RtcOutput) (final : option Z)
  : WebRtcInner * list Wake * result WebRtcError () :=
  let '(w, wk) := drain_outputs w outs in
  match final with
  | Some t => (with_outbound w (outbound w) (Some t), wk, Ok tt)
  | None => (w, wk, Err Webrtc)
  end.

(** [drive] and [handle_receive]: [accepted] is whether the engine took the input. *)
Definition inner_input (w : WebRtcInner) (accepted : bool) (outs : list RtcOutput) (final : option Z)
  : WebRtcInner * list Wake * result WebRtcError () :=
  if accepted then drain_output w outs final else (w, [], Err Webrtc).

Definition take_outbound (w : WebRtcInner) : WebRtcInner * list Datagram :=
  (with_outbound w [] (next_timeout w), outbound w).

(** [WebRtcTransport::drive] *)
Definition drive (w : WebRtcInner) (accepted : bool) (outs : list RtcOutput) (final : option Z)
  : WebRtcInner * list Wake * result WebRtcError (list Datagram) :=
  match inner_input w accepted outs final with
  | (w, wk, Ok tt) => let '(w, o) := take_outbound w in (w, wk, Ok o)
  | (w, wk, Err e) => (w, wk, Err e)
  end.

Definition notifiers_for (w : WebRtcInner) (id : Z) : WebRtcInner :=
  {| recv_queues := recv_queues w; recv_notifiers := {[id]} ∪ recv_notifiers w;
     open_notifiers := {[id]} ∪ open_notifiers w; drop_counters := drop_counters w;
     outbound := outbound w; accept_queue := accept_queue w; next_timeout := next_timeout w;
     locally_opened := locally_opened w |}.

(** ** Opening and accepting *)

Record WebRtcChannel := { wc_id : Z; wc_spec : ChannelSpec }.

(** [id] is the engine's answer to [create_data_channel]; the label goes to the peer. *)
Definition open_channel_impl (w : WebRtcInner) (id : Z) (spec : ChannelSpec)
  : WebRtcInner * WebRtcChannel * bytes :=
  let w := with_queues w (<[id := queue_of w id]> (recv_queues w)) in
  let w := {| recv_queues := recv_queues w; recv_notifiers := recv_notifiers w;
              open_notifiers := open_notifiers w; drop_counters := drop_counters w;
              outbound := outbound w; accept_queue := accept_queue w; next_timeout := next_timeout w;
              locally_opened := {[id]} ∪ locally_opened w |} in
  (notifiers_for w id, {| wc_id := id; wc_spec := spec |}, channel_label spec).

(** One look at the accept queue; [None]: park. *)
Definition try_accept (w : WebRtcInner) : WebRtcInner * option WebRtcChannel :=
  match accept_queue w with
  | (id, label) :: rest =>
      (notifiers_for (with_accept w rest) id,
       Some {| wc_id := id; wc_spec := parse_channel_label label |})
  | [] => (w, None)
  end.

Definition handle_events (w : WebRtcInner) (es : list Event) : WebRtcInner :=
  fold_left (fun w e => (handle_event w e).1) es w.

(** The events until each wake-up; the list ends when the 30 s have passed. *)
Fixpoint accept_channel_impl (w : WebRtcInner) (wakes : list (list Event))
  : WebRtcInner * result WebRtcError WebRtcChannel :=
  match try_accept w with
  | (w, Some ch) => (w, Ok ch)
  | (w, None) =>
      match wakes with
      | [] => (w, Err WStreamClosed)
      | es :: wakes => accept_channel_impl (handle_events w es) wakes
      end
  end.

(** ** Sending and receiving *)

(** What the engine answers to one attempt to write: whether the channel is there, whether it
    takes the message, and what it puts out then. *)
Record Attempt := {
  at_channel : bool;
  at_write : bool;
  at_outs : list RtcOutput;
  at_final : option Z;
}.

(** One locked section of [send]; [None]: park. *)
Definition try_send (w : WebRtcInner) (id : Z) (a : Attempt)
  : WebRtcInner * option (result WebRtcError ()) :=
  if at_channel a then
    if at_write a
    then let '(w, _, r) := drain_output w (at_outs a) (at_final a) in (w, Some r)
    else (w, Some (Err Webrtc))
  else if bool_decide (recv_queues w !! id = None) && negb (bool_decide (id ∈ locally_opened w))
  then (w, Some (Err WStreamClosed))
  else (w, None).

(** The slow path: the attempt at once, then one after each wake-up, until the deadline. *)
Fixpoint send_wait (w : WebRtcInner) (id : Z) (a : Attempt) (wakes : list (list Event * Attempt))
  : WebRtcInner * result WebRtcError () :=
  match try_send w id a with
  | (w, Some r) => (w, r)
  | (w, None) =>
      match wakes with
      | [] => (w, Err WStreamClosed)
      | (es, a) :: wakes => send_wait (handle_events w es) id a wakes
      end
  end.

Definition channel_send (w : WebRtcInner) (id : Z) (fast slow : Attempt) (wakes : list (list Event * Attempt))
  : WebRtcInner * result WebRtcError () :=
  match try_send w id fast with
  | (w, Some r) => (w, r)
  | (w, None) => send_wait w id slow wakes
  end.

(** One locked section of [recv]; [None]: park. *)
Definition try_recv (w : WebRtcInner) (id : Z) : WebRtcInner * option (result WebRtcError bytes) :=
  match recv_queues w !! id with
  | None => (w, Some (Err WStreamClosed))
  | Some [] => (w, None)
  | Some (msg :: rest) => (with_queues w (<[id := rest]> (recv_queues w)), Some (Ok msg))
  end.

(** [None]: still parked. *)
Fixpoint channel_recv (w : WebRtcInner) (id : Z) (wakes : list (list Event))
  : WebRtcInner * option (result WebRtcError bytes) :=
  match try_recv w id with
  | (w, Some r) => (w, Some r)
  | (w, None) =>
      match wakes with
      | [] => (w, None)
      | es :: wakes => channel_recv (handle_events w es) id wakes
      end
  end.

(** ** The bridge to a browser *)

(** str0m's engine as the bridge uses it: [rtc_remote_pin] is the fingerprint its DTLS handshake
    checks the peer's certificate against. *)
Class Str0m (R : Type) := {
  rtc_local_fingerprint : R -> DtlsFingerprint;
  rtc_parse_offer : bytes -> bool;
  rtc_accept_offer : R -> bytes -> option (R * bytes);
  rtc_add_remote_candidate : R -> bytes -> option R;
  rtc_add_local_host : R -> option (R * bytes);
  rtc_set_remote_fingerprint : R -> DtlsFingerprint -> R;
  rtc_remote_pin : R -> option DtlsFingerprint;
}.

(** [set_remote_fingerprint] replaces the fingerprint to check; candidates leave it alone. *)
Class Str0mLaws (R : Type) `{!Str0m R} : Prop := {
  rtc_pin_set (r : R) f : rtc_remote_pin (rtc_set_remote_fingerprint r f) = Some f;
  rtc_pin_remote (r r' : R) c : rtc_add_remote_candidate r c = Some r' -> rtc_remote_pin r' = rtc_remote_pin r;
  rtc_pin_local (r r' : R) sdp : rtc_add_local_host r = Some (r', sdp) -> rtc_remote_pin r' = rtc_remote_pin r;
}.

Record PinnedWebRtcTransport (R : Type) := { pt_rtc : R; pt_inner : WebRtcInner }.
Arguments pt_rtc {R}.
Arguments pt_inner {R}.

Record SdpBridgeResult (R : Type) := {
  answer_sdp : bytes;
  local_dtls_fingerprint : DtlsFingerprint;
  br_transport : PinnedWebRtcTransport R;
}.
Arguments answer_sdp {R}.
Arguments local_dtls_fingerprint {R}.
Arguments br_transport {R}.

Section Bridge.
Context {R : Type} `{!Str0m R}.

(** The only way to a transport. *)
Definition pin_remote_dtls (rtc : R) (fingerprint : DtlsFingerprint) : PinnedWebRtcTransport R :=
  {| pt_rtc := rtc_set_remote_fingerprint rtc fingerprint; pt_inner := inner_new |}.

(** [SdpBridgeBuilder::add_remote_candidate] *)
Definition builder_add_remote_candidate (rtc : R) (candidate_sdp : bytes) : result SdpBridgeError R :=
  ok_or (rtc_add_remote_candidate rtc candidate_sdp) CandidateParseError.

Definition accept_offer_inner (rtc : R) (offer_sdp : bytes) (remote_fp : DtlsFingerprint)
  : result SdpBridgeError (SdpBridgeResult R) :=
  let byte_len := blen offer_sdp in
  if MAX_SDP_BYTES <? byte_len then Err (SdpTooLarge byte_len MAX_SDP_BYTES) else
  if negb (rtc_parse_offer offer_sdp) then Err SdpParseError else
  match rtc_accept_offer rtc offer_sdp with
  | None => Err OfferRejected
  | Some (rtc, sdp_answer) =>
      Ok {| answer_sdp := sdp_answer; local_dtls_fingerprint := rtc_local_fingerprint rtc;
            br_transport := pin_remote_dtls rtc remote_fp |}
  end.

Definition accept_browser_offer (rtc : R) (offer_sdp : bytes) : result SdpBridgeError (SdpBridgeResult R) :=
  let byte_len := blen offer_sdp in
  if MAX_SDP_BYTES <? byte_len then Err (SdpTooLarge byte_len MAX_SDP_BYTES) else
  let? remote_fp := parse_sdp_fingerprint offer_sdp in
  accept_offer_inner rtc offer_sdp remote_fp.

Definition accept_browser_offer_with_pin (rtc : R) (offer_sdp pinned_fp : bytes)
  : result SdpBridgeError (SdpBridgeResult R) :=
  if bool_decide (pinned_fp = replicate 32 0)
  then Err (InvalidPin "all-zero DTLS pin (anti-downgrade sentinel) is not a valid commitment") else
  accept_offer_inner rtc offer_sdp {| hash_func := SHA_256; fp_bytes := pinned_fp |}.

(** [PinnedWebRtcTransport::add_remote_candidate] *)
Definition pinned_add_remote_candidate (t : PinnedWebRtcTransport R) (candidate_sdp : bytes)
  : result SdpBridgeError (PinnedWebRtcTransport R) :=
  match rtc_add_remote_candidate (pt_rtc t) candidate_sdp with
  | None => Err CandidateParseError
  | Some rtc => Ok {| pt_rtc := rtc; pt_inner := pt_inner t |}
  end.

(** [add_local_host_candidate]: the transport and the candidate's text. *)
Definition add_local_host_candidate (t : PinnedWebRtcTransport R)
  : result SdpBridgeError (PinnedWebRtcTransport R * bytes) :=
  match rtc_add_local_host (pt_rtc t) with
  | None => Err CandidateParseError
  | Some (rtc, sdp) => Ok ({| pt_rtc := rtc; pt_inner := pt_inner t |}, sdp)
  end.

(** The bridge pins the fingerprint it was given, whatever fingerprint the offer carries, and
    never the all-zero one. *)
Lemma bridge_pins_given `{!Str0mLaws R} rtc offer pin res :
  accept_browser_offer_with_pin rtc offer pin = Ok res ->
  rtc_remote_pin (pt_rtc (br_transport res)) = Some {| hash_func := SHA_256; fp_bytes := pin |} /\
  pin <> replicate 32 0 /\ blen offer <= MAX_SDP_BYTES.
Proof.
  unfold accept_browser_offer_with_pin, accept_offer_inner. case_bool_decide; [done|].
  destruct (Z.ltb_spec MAX_SDP_BYTES (blen offer)); [done|]. destruct (negb _); [done|].
  destruct (rtc_accept_offer rtc offer) as [[rtc' a]|]; [|done]. intros [= <-]. cbn.
  by rewrite rtc_pin_set.
Qed.

(** Without a given pin it is the offer's own fingerprint, 32 bytes of SHA-256. *)
Lemma bridge_pins_offer `{!Str0mLaws R} rtc offer res :
  accept_browser_offer rtc offer = Ok res ->
  exists f, parse_sdp_fingerprint offer = Ok f /\
    rtc_remote_pin (pt_rtc (br_transport res)) = Some f /\ hash_func f = SHA_256 /\ blen (fp_bytes f) = 32.
Proof.
  unfold accept_browser_offer, accept_offer_inner.
  destruct (Z.ltb_spec MAX_SDP_BYTES (blen offer)); [done|].
  destruct (parse_sdp_fingerprint offer) as [f|] eqn:Ef; [|done]. destruct (negb _); [done|].
  destruct (rtc_accept_offer rtc offer) as [[rtc' a]|]; [|done]. intros [= <-]. cbn.
  apply scan_lines_ok in Ef as (? & ? & _). exists f. by rewrite rtc_pin_set.
Qed.

End Bridge.

(** ** What a channel delivers *)

(** Everything that touches the queues: an event of the engine, a reading task, a local open, an
    accepting task. *)
Inductive WOp := OpEvent (e : Event) | OpRecv (id : Z) | OpOpen (id : Z) (spec : ChannelSpec) | OpAccept.

(** The message a reader of [id] takes in one step. *)
Definition wstep (w : WebRtcInner) (op : WOp) : WebRtcInner * option (Z * bytes) :=
  match op with
  | OpEvent e => ((handle_event w e).1, None)
  | OpRecv id => match try_recv w id with
                 | (w, Some (Ok msg)) => (w, Some (id, msg))
                 | (w, _) => (w, None)
                 end
  | OpOpen id spec => ((open_channel_impl w id spec).1.1, None)
  | OpAccept => ((try_accept w).1, None)
  end.

Fixpoint wrun (w : WebRtcInner) (ops : list WOp) : WebRtcInner * list (Z * bytes) :=
  match ops with
  | [] => (w, [])
  | op :: ops =>
      let '(w, o) := wstep w op in
      let '(w, os) := wrun w ops in
      (w, match o with Some m => m :: os | None => os end)
  end.

(** The frames that arrived on a channel, and those its reader took. *)
Definition arrived (id : Z) (ops : list WOp) : list bytes :=
  omap (fun op => match op with
                  | OpEvent (ChannelData i true d) => if i =? id then Some d else None
                  | _ => None
                  end) ops.

Definition taken (id : Z) (os : list (Z * bytes)) : list bytes :=
  omap (fun m : Z * bytes => if m.1 =? id then Some m.2 else None) os.

Definition closes (id : Z) (op : WOp) : Prop := op = OpEvent (ChannelClose id).

(** [got] taken so far out of [arr] that arrived. *)
Record fifo_inv (id : Z) (w : WebRtcInner) (arr got : list bytes) : Prop := {
  fi_sub : sublist (got ++ queue_of w id) arr;
  fi_room : (length (queue_of w id) <= MAX_RECV_QUEUE_DEPTH)%nat;
  fi_drops : default 0 (drop_counters w !! id) =
             Z.min u64_max (Z.of_nat (length arr) - Z.of_nat (length (got ++ queue_of w id)));
}.

Lemma fifo_inv_same id w w' arr got :
  queue_of w' id = queue_of w id -> drop_counters w' !! id = drop_counters w !! id ->
  fifo_inv id w arr got -> fifo_inv id w' arr got.
Proof. intros Hq Hd []. by constructor; rewrite ?Hq, ?Hd. Qed.

Lemma queue_of_insert w id i q :
  default [] (<[i := q]> (recv_queues w) !! id) = if decide (i = id) then q else queue_of w id.
Proof.
  unfold queue_of. case_decide; subst; [by rewrite lookup_insert_eq|by rewrite lookup_insert_ne].
Qed.

Lemma fifo_data id w arr got d :
  fifo_inv id w arr got -> fifo_inv id (handle_event w (ChannelData id true d)).1 (arr ++ [d]) got.
Proof.
  intros [Hs Hr Hd]. cbn [handle_event].
  destruct (Nat.ltb_spec (length (queue_of w id)) MAX_RECV_QUEUE_DEPTH) as [Hl|Hl]; cbn [fst].
  - assert (forall w', recv_queues w' = <[id := queue_of w id ++ [d]]> (recv_queues w) ->
              queue_of w' id = queue_of w id ++ [d]) as Hq.
    { intros w' Hw'. unfold queue_of at 1. rewrite Hw', queue_of_insert. by rewrite decide_True. }
    constructor; cbn [drop_counters with_drops with_queues]; rewrite ?Hq by done.
    + rewrite app_assoc. by apply sublist_app.
    + rewrite length_app. cbn. lia.
    + rewrite lookup_insert_eq. cbn. rewrite Hd, !length_app. cbn. f_equal. lia.
  - assert (forall w', recv_queues w' = <[id := queue_of w id]> (recv_queues w) ->
              queue_of w' id = queue_of w id) as Hq.
    { intros w' Hw'. unfold queue_of at 1. rewrite Hw', queue_of_insert. by rewrite decide_True. }
    constructor; cbn [drop_counters with_drops with_queues]; rewrite ?Hq by done.
    + by apply sublist_inserts_r.
    + done.
    + rewrite lookup_insert_eq. cbn. rewrite Hd, (length_app arr). cbn [length]. unfold sat_add. lia.
Qed.

Lemma fifo_other_event id w e arr got :
  (forall b d, e <> ChannelData id b d) -> e <> ChannelClose id ->
  fifo_inv id w arr got -> fifo_inv id (handle_event w e).1 arr got.
Proof.
  intros Hdata Hclose. destruct e as [i label|i [] d|i|]; cbn [handle_event]; [| |done| |done].
  - assert (forall w', recv_queues w' = <[i := queue_of w i]> (recv_queues w) ->
              queue_of w' id = queue_of w id) as Hq.
    { intros w' Hw'. unfold queue_of at 1. rewrite Hw', queue_of_insert. by case_decide; subst. }
    destruct (bool_decide (i ∈ _)); apply fifo_inv_same; by rewrite ?Hq.
  - assert (i <> id) as Hi by (intros ->; by eapply Hdata).
    assert (forall w' q, recv_queues w' = <[i := q]> (recv_queues w) ->
              queue_of w' id = queue_of w id) as Hq.
    { intros w' q Hw'. unfold queue_of at 1. rewrite Hw', queue_of_insert. by case_decide. }
    destruct (_ <? _)%nat; apply fifo_inv_same; cbn; rewrite ?lookup_insert_ne by done;
      done || by eapply Hq.
  - assert (i <> id) as Hi by (intros ->; done).
    apply fifo_inv_same; [|done]. unfold queue_of. cbn. by rewrite lookup_delete_ne.
Qed.

Lemma fifo_step id w op arr got :
  ~ closes id op -> fifo_inv id w arr got ->
  fifo_inv id (wstep w op).1 (arr ++ arrived id [op]) (got ++ taken id (option_list (wstep w op).2)).
Proof.
  intros Hc Hi. destruct op as [e|i|i spec|]; cbn [wstep].
  - cbn [fst snd option_list taken omap list_omap]. rewrite app_nil_r.
    destruct e as [i l|i [] d|i|]; cbn [arrived omap list_omap]; rewrite ?app_nil_r;
      try (apply fifo_other_event; [done|intros [= ->]; by apply Hc|done]).
    + destruct (Z.eqb_spec i id) as [->|Hne]; rewrite ?app_nil_r; [by apply fifo_data|].
      apply fifo_other_event; [congruence|done|done].
    + done.
  - cbn. rewrite app_nil_r. unfold try_recv. destruct (recv_queues w !! i) as [[|m q]|] eqn:E; cbn;
      rewrite ?app_nil_r; [done| |done].
    destruct (Z.eqb_spec i id) as [->|Hne]; rewrite ?app_nil_r.
    + destruct Hi as [Hs Hr Hd]. assert (queue_of w id = m :: q) as Hq by (unfold queue_of; by rewrite E).
      assert (queue_of (with_queues w (<[id := q]> (recv_queues w))) id = q) as Hq'.
      { unfold queue_of. cbn. by rewrite lookup_insert_eq. }
      rewrite Hq in *. constructor; cbn [drop_counters with_queues]; rewrite ?Hq', <- ?app_assoc; [done| |done].
      cbn in Hr. lia.
    + apply fifo_inv_same with w; [|done|done]. unfold queue_of. cbn. by rewrite lookup_insert_ne.
  - cbn. rewrite !app_nil_r. apply fifo_inv_same with w; [|done|done]. unfold queue_of. cbn.
    destruct (decide (i = id)) as [->|]; [by rewrite lookup_insert_eq|by rewrite lookup_insert_ne].
  - cbn. rewrite !app_nil_r. unfold try_accept. destruct (accept_queue w) as [|[i l] q]; [done|].
    by apply fifo_inv_same with w.
Qed.

Lemma wrun_inv id ops : forall w arr got,
  Forall (fun op => ~ closes id op) ops -> fifo_inv id w arr got ->
  fifo_inv id (wrun w ops).1 (arr ++ arrived id ops) (got ++ taken id (wrun w ops).2).
Proof.
  induction ops as [|op ops IH]; intros w arr got Hc Hi; cbn [wrun].
  { cbn. by rewrite !app_nil_r. }
  apply Forall_cons in Hc as [Hc Hcs]. pose proof (fifo_step id w op arr got Hc Hi) as Hstep.
  destruct (wstep w op) as [w1 o]. cbn [fst snd] in Hstep. specialize (IH w1 _ _ Hcs Hstep).
  destruct (wrun w1 ops) as [w2 os]. cbn [fst snd] in *.
  replace (arrived id (op :: ops)) with (arrived id [op] ++ arrived id ops)
    by (unfold arrived; by rewrite <- omap_app).
  replace (taken id (match o with Some m => m :: os | None => os end))
    with (taken id (option_list o) ++ taken id os) by (unfold taken; rewrite <- omap_app; by destruct o).
  by rewrite !app_assoc.
Qed.

(** C32. What a WebRTC channel delivers, under any interleaving of engine events, readers, local
    opens and accepts, as long as the channel is not closed: the messages a reader has taken and
    those still queued are frames that arrived, in the order they arrived; at most 512 wait; the
    drop counter is exactly the number of frames lost (up to its 64-bit limit); and while it is
    zero no frame is lost or reordered. *)
Theorem webrtc_channel_fifo id ops :
  Forall (fun op => ~ closes id op) ops ->
  let w := (wrun inner_new ops).1 in
  let got := taken id (wrun inner_new ops).2 in
  sublist (got ++ queue_of w id) (arrived id ops) /\
  (length (queue_of w id) <= MAX_RECV_QUEUE_DEPTH)%nat /\
  default 0 (drop_counters w !! id)
    = Z.min u64_max (Z.of_nat (length (arrived id ops)) - Z.of_nat (length (got ++ queue_of w id))) /\
  (default 0 (drop_counters w !! id) = 0 -> got ++ queue_of w id = arrived id ops).
Proof.
  intros Hc w got. destruct (wrun_inv id ops inner_new [] [] Hc) as [Hs Hr Hd].
  { assert (queue_of inner_new id = []) as Hq by (unfold queue_of; cbn; by rewrite lookup_empty).
    constructor; rewrite ?Hq; [constructor|unfold MAX_RECV_QUEUE_DEPTH; cbn; lia|].
    cbn. by rewrite lookup_empty. }
  cbn [app] in Hs, Hd. fold w got in Hs, Hr, Hd. split_and!; [done|done|done|].
  intros H0. rewrite Hd in H0. apply sublist_length in Hs as Hl.
  assert (length (got ++ queue_of w id) = length (arrived id ops)) as Hlen by (unfold u64_max in H0; lia).
  clear -Hs Hlen. revert Hs Hlen. generalize (got ++ queue_of w id) as a, (arrived id ops) as b. intros a b.
  induction 1 as [|x a b Hs IH|x a b Hs IH]; cbn; intros Hlen; [done|by rewrite IH; [|lia]|].
  apply sublist_length in Hs. lia.
Qed.

(** ** Waking, closing *)

(** A frame that is queued for a channel somebody holds wakes its reader, and a close wakes them
    all: no reader stays parked on a queue that has changed. *)
Lemma queue_change_wakes w id :
  id ∈ recv_notifiers w ->
  (forall d, (length (queue_of w id) < MAX_RECV_QUEUE_DEPTH)%nat ->
     (handle_event w (ChannelData id true d)).2 = [WakeRecv id]) /\
  (handle_event w (ChannelClose id)).2 = [WakeRecvAll id].
Proof.
  intros Hid. cbn [handle_event]. rewrite bool_decide_true by done. split; [|done]. intros d Hd.
  by rewrite (proj2 (Nat.ltb_lt _ _) Hd).
Qed.

(** Both ways to a channel register its notifiers. *)
Lemma channels_notified w id spec :
  id ∈ recv_notifiers (open_channel_impl w id spec).1.1 /\
  forall w' ch, try_accept w = (w', Some ch) -> wc_id ch ∈ recv_notifiers w'.
Proof.
  split; [cbn; set_solver|]. unfold try_accept. destruct (accept_queue w) as [|[i l] q]; [done|].
  intros w' ch [= <- <-]. cbn. set_solver.
Qed.

(** A close drops what was queued: the next read fails though frames had arrived. *)
Lemma close_discards w id :
  (try_recv (handle_event w (ChannelClose id)).1 id).2 = Some (Err WStreamClosed).
Proof. unfold try_recv. cbn. by rewrite lookup_delete_eq. Qed.

(** A channel the peer opened reaches the accepting task with the specification it was opened
    with; one opened here is not offered to it. *)
Lemma remote_open_accepted w id spec :
  is_u8 (spec_priority spec) -> accept_queue w = [] -> id ∉ locally_opened w ->
  exists w', accept_channel_impl w [[ChannelOpen id (channel_label spec)]]
             = (w', Ok {| wc_id := id; wc_spec := spec |}).
Proof.
  intros Hp Ha Hl. cbn [accept_channel_impl]. unfold try_accept at 1. rewrite Ha.
  unfold handle_events. cbn [fold_left handle_event]. rewrite bool_decide_false by done.
  unfold try_accept. cbn [fst accept_queue with_accept with_queues]. rewrite Ha. cbn [app].
  rewrite channel_label_roundtrip by done. by eexists.
Qed.

Lemma local_open_not_accepted w id label :
  id ∈ locally_opened w -> accept_queue (handle_event w (ChannelOpen id label)).1 = accept_queue w.
Proof. intros Hl. cbn. by rewrite bool_decide_true. Qed.

(** Two channels, frames interleaved, one read in between. *)
Lemma webrtc_channel_fifo_witness :
  let ops := [OpEvent (ChannelOpen 1 (lit "0:0:0")); OpEvent (ChannelData 1 true [10]);
              OpEvent (ChannelData 2 true [77]); OpEvent (ChannelData 1 false [0]); OpRecv 1;
              OpEvent (ChannelData 1 true [11]); OpEvent (ChannelData 1 true [12])] in
  taken 1 (wrun inner_new ops).2 ++ queue_of (wrun inner_new ops).1 1 = [[10]; [11]; [12]].
Proof.
  intros ops. destruct (webrtc_channel_fifo 1 ops) as (_ & _ & _ & H).
  - repeat constructor; by intros [=].
  - etransitivity; [apply H|]; by vm_compute.
Defined.
