(* ===== verification/WebHost.v ===== *)
(** * streamhaul-webrtc-host: from signalling to a pinned transport

    bins/streamhaul-webrtc-host/src/lib.rs: [run_webrtc_host] up to the point where the data
    channels take over, with the Noise responder, the offer, the candidates and their helpers.

    The signalling client is the sequence of what its [recv] yields (an envelope, the end of the
    connection, an error, or the end of a step's 30 s) and the envelopes it was given to send;
    [sg_fail] says which of its sends fail.  Randomness and the clock are arguments, str0m and
    the Noise library the classes of WebRtc.v and Handshake.v.  Of an error the message is
    kept, that of an inner [context] not. *)

From stdpp Require Import base numbers list option strings sets.
From S2P Require Import Prelude Utf8 Types CryptoTypes Identity BindCert Handshake Signaling Transport Sdp WebRtc.

Definition NOISE_SUB_HELLO : Z := 0.
Definition NOISE_SUB_HOST_STATIC_PUB : Z := 1.
Definition NOISE_SUB_MSG : Z := 2.

(** ** Helpers *)

(** [hex.as_bytes().chunks(2)], each through [from_str_radix]. *)
Fixpoint parse_hex_pairs (s : bytes) : option bytes :=
  match s with
  | [] => Some []
  | [a] => b ← parse_u8 16 [a]; Some [b]
  | a :: b :: s => v ← parse_u8 16 [a; b]; rest ← parse_hex_pairs s; Some (v :: rest)
  end.

Definition parse_session_id (s : bytes) : result string bytes :=
  if negb (blen s =? 32) then Err "session-id must be 32 hex chars" else
  let? b := ok_or (parse_hex_pairs s) "invalid hex in session-id" in
  if negb (blen b =? 16) then Err "session-id length mismatch (internal error)" else Ok b.

Definition hex_encode (b : bytes) : bytes := lit (hex_string b).

(** A key store that trusts every peer and keeps nothing. *)
Inductive TrustAllKeystore := trust_all.

#[global] Instance trust_all_keystore : Keystore TrustAllKeystore := {
  ks_device_identity _ :=
    Err (HandshakeFailed "TrustAllKeystore has no device identity (first-pairing trust-check only)");
  ks_sign _ _ := Err (HandshakeFailed "TrustAllKeystore cannot sign (first-pairing trust-check only)");
  ks_trust_peer k _ := (k, Ok tt);
  ks_is_trusted _ _ := Ok true;
  ks_revoke_peer k _ := (k, Ok tt);
  ks_was_peer_revoked _ _ := Ok false;
  ks_trust_peer_if_not_revoked k _ := (k, Ok Pinned);
}.

(** Both digits of one byte. *)
Lemma hex_pair_parse_lit b r :
  is_u8 b -> parse_hex_pairs (lit (hex_string (b :: r))) = v ← parse_hex_pairs (lit (hex_string r)); Some (b :: v).
Proof.
  intros Hb.
  set (pair b := [Z.of_nat (Ascii.nat_of_ascii (hex_digit (b / 16))); Z.of_nat (Ascii.nat_of_ascii (hex_digit (b mod 16)))]).
  assert (parse_u8 16 (pair b) = Some b) as H.
  { assert (all_u8 256 (fun b => bool_decide (parse_u8 16 (pair b) = Some b)) = true) as H by (vm_compute; reflexivity).
    apply (bool_decide_eq_true _). by apply (all_u8_spec 256 _ H). }
  change (lit (hex_string (b :: r))) with (pair b ++ lit (hex_string r)). unfold pair in *. cbn [app parse_hex_pairs].
  rewrite H. done.
Qed.

(** A printed session id is read back. *)
Lemma session_id_roundtrip b : bytes_ok b -> blen b = 16 -> parse_session_id (hex_encode b) = Ok b.
Proof.
  intros Hb Hl. unfold parse_session_id, hex_encode.
  assert (parse_hex_pairs (lit (hex_string b)) = Some b) as Hp.
  { clear Hl. induction Hb as [|x b Hx _ IH]; [done|]. by rewrite hex_pair_parse_lit, IH. }
  assert (blen (lit (hex_string b)) = 2 * blen b) as Hh.
  { clear. induction b as [|x b IH]; [done|]. unfold blen, lit in *.
    cbn [hex_string String.list_ascii_of_string map length] in *. lia. }
  rewrite Hh, Hl, Hp. cbn [ok_or]. by rewrite Hl.
Qed.

(** Text that is not hexadecimal passes when a pair is a plus sign and a digit. *)
Lemma session_id_plus_sign :
  parse_session_id (concat (replicate 16 (lit "+7"))) = Ok (replicate 16 7).
Proof. by vm_compute. Qed.

(** ** Signalling *)

Inductive SigEvent := SigEnv (env : SignalingEnvelope) | SigClosed | SigError | SigTimeout.

Record HostSig := {
  sg_in : list SigEvent;
  sg_out : list SignalingEnvelope;
  sg_fail : nat -> bool;
}.

Definition sg_send (g : HostSig) (env : SignalingEnvelope) : HostSig * result string () :=
  if sg_fail g (length (sg_out g)) then (g, Err "failed to send envelope") else
  ({| sg_in := sg_in g; sg_out := sg_out g ++ [env]; sg_fail := sg_fail g |}, Ok tt).

Definition with_in (g : HostSig) (ins : list SigEvent) : HostSig :=
  {| sg_in := ins; sg_out := sg_out g; sg_fail := sg_fail g |}.

Fixpoint recv_noise_hello (ins : list SigEvent) : list SigEvent * result string bytes :=
  match ins with
  | [] => ([], Err "timed out waiting for Noise hello")
  | SigTimeout :: ins => (ins, Err "timed out waiting for Noise hello")
  | SigError :: ins => (ins, Err "signaling recv failed (Noise hello)")
  | SigClosed :: ins => (ins, Err "signaling connection closed before Noise hello")
  | SigEnv env :: ins =>
      if bool_decide (kind env = Noise) then
        match payload env with
        | b :: _ => if b =? NOISE_SUB_HELLO then (ins, Ok (from_fp env)) else recv_noise_hello ins
        | [] => recv_noise_hello ins
        end
      else recv_noise_hello ins
  end.

Fixpoint recv_noise_msg (expected_fp : bytes) (ins : list SigEvent) : list SigEvent * result string bytes :=
  match ins with
  | [] => ([], Err "timed out waiting for Noise handshake message")
  | SigTimeout :: ins => (ins, Err "timed out waiting for Noise handshake message")
  | SigError :: ins => (ins, Err "signaling recv failed (Noise handshake message)")
  | SigClosed :: ins => (ins, Err "signaling connection closed before Noise handshake message")
  | SigEnv env :: ins =>
      if bool_decide (kind env = Noise) && bool_decide (from_fp env = expected_fp) then
        match payload env with
        | b :: body => if b =? NOISE_SUB_MSG then (ins, Ok body) else recv_noise_msg expected_fp ins
        | [] => recv_noise_msg expected_fp ins
        end
      else recv_noise_msg expected_fp ins
  end.

Definition send_noise (g : HostSig) (session_id from to : bytes) (sub_type : Z) (body : bytes)
  : HostSig * result string () :=
  sg_send g {| kind := Noise; session_id := session_id; from_fp := from; to_fp := to;
               payload := sub_type :: body |}.

Fixpoint receive_offer (expected_fp : bytes) (ins : list SigEvent) : list SigEvent * result string bytes :=
  match ins with
  | [] => ([], Err "timed out waiting for SDP offer")
  | SigTimeout :: ins => (ins, Err "timed out waiting for SDP offer")
  | SigError :: ins => (ins, Err "signaling recv failed (SDP offer)")
  | SigClosed :: ins => (ins, Err "signaling connection closed before SDP offer")
  | SigEnv env :: ins =>
      if bool_decide (kind env = Offer) && bool_decide (from_fp env = expected_fp) then
        if utf8_valid (payload env) then (ins, Ok (payload env))
        else (ins, Err "offer payload is not UTF-8")
      else receive_offer expected_fp ins
  end.

Section Host.
Context `{CP : CryptoPrims} `{SP : SigPrims} `{KP : !KeyPrims} `{SN : Snow}.
Context {K : Type} `{KS : Keystore K}.

(** [t0], [t1], [t2]: the clock when the responder is made and when it reads; [rng]: what the
    handshake message draws. *)
Definition run_noise_responder (g : HostSig) (keystore : K) (sid local_fp_hex local_dtls_commit : bytes)
    (local_static : bytes) (t0 t1 t2 : Z) (rng : bytes) : HostSig * result string (bytes * bytes) :=
  match recv_noise_hello (sg_in g) with
  | (ins, Err e) => (with_in g ins, Err e)
  | (ins, Ok browser_fp) =>
  match send_noise (with_in g ins) sid local_fp_hex browser_fp NOISE_SUB_HOST_STATIC_PUB
          (x25519_public local_static) with
  | (g, Err _) => (g, Err "failed to send host static pub")
  | (g, Ok tt) =>
  match responder_xk_with_dtls keystore local_static [] (dtls_commitment_sha256 local_dtls_commit) t0 with
  | Err _ => (g, Err "failed to construct XK responder")
  | Ok hs =>
  match recv_noise_msg browser_fp (sg_in g) with
  | (ins, Err e) => (with_in g ins, Err e)
  | (ins, Ok msg0) =>
  let g := with_in g ins in
  match read_message hs msg0 t1 with
  | (_, Err _) => (g, Err "failed to read Noise msg0")
  | (hs, Ok _) =>
  match write_message hs rng with
  | (_, Err _) => (g, Err "failed to write Noise msg1")
  | (hs, Ok msg1) =>
  match send_noise g sid local_fp_hex browser_fp NOISE_SUB_MSG msg1 with
  | (g, Err _) => (g, Err "failed to send Noise msg1")
  | (g, Ok tt) =>
  match recv_noise_msg browser_fp (sg_in g) with
  | (ins, Err e) => (with_in g ins, Err e)
  | (ins, Ok msg2) =>
  let g := with_in g ins in
  match read_message hs msg2 t2 with
  | (_, Err _) => (g, Err "failed to read Noise msg2")
  | (hs, Ok _) =>
  if negb (is_finished hs) then (g, Err "Noise handshake did not finish after 3 messages") else
  match complete hs trust_all with
  | Err _ => (g, Err "Noise complete (first pairing) failed")
  | Ok outcome =>
  match outcome_require_webrtc_dtls_pin outcome with
  | Err _ => (g, Err "browser BindCert carries no DTLS fingerprint (downgrade)")
  | Ok pin => (g, Ok (browser_fp, pin))
  end end end end end end end end end end end.

Context {R : Type} `{!Str0m R}.

(** Until the end of the candidates, a close, an error or the 30 s. *)
Fixpoint pump_candidates (t : PinnedWebRtcTransport R) (ins : list SigEvent)
  : PinnedWebRtcTransport R * result string () :=
  match ins with
  | [] => (t, Ok tt)
  | SigTimeout :: _ => (t, Ok tt)
  | SigError :: _ => (t, Err "signaling recv during candidate pump")
  | SigClosed :: _ => (t, Ok tt)
  | SigEnv env :: ins =>
      match kind env with
      | Signaling.Candidate =>
          if utf8_valid (payload env) then
            match pinned_add_remote_candidate t (payload env) with
            | Ok t => pump_candidates t ins
            | Err _ => pump_candidates t ins
            end
          else pump_candidates t ins
      | EndOfCandidates | Bye => (t, Ok tt)
      | _ => pump_candidates t ins
      end
  end.

(** The steps of [run_webrtc_host] up to the candidate pump; [connected] and [bound] are
    whether the signalling server and the UDP socket are there. *)
Definition host_setup (g : HostSig) (rtc : R) (keystore : K) (sid local_static : bytes) (t0 t1 t2 : Z)
    (rng : bytes) (connected bound : bool) : HostSig * result string (PinnedWebRtcTransport R) :=
  let local_fp := rtc_local_fingerprint rtc in
  let local_fp_hex := hex_encode (fp_bytes local_fp) in
  if negb (blen local_fp_hex =? 64) then (g, Err "unexpected fingerprint length") else
  if negb (blen (fp_bytes local_fp) =? 32)
  then (g, Err "local DTLS fingerprint is not 32 bytes (expected SHA-256)") else
  if negb connected then (g, Err "failed to connect to signaling server") else
  match run_noise_responder g keystore sid local_fp_hex (fp_bytes local_fp) local_static t0 t1 t2 rng with
  | (g, Err _) => (g, Err "identity-bound Noise handshake failed")
  | (g, Ok (browser_fp, browser_dtls_pin)) =>
  match receive_offer browser_fp (sg_in g) with
  | (ins, Err e) => (with_in g ins, Err e)
  | (ins, Ok offer_sdp) =>
  let g := with_in g ins in
  if negb bound then (g, Err "failed to bind UDP socket") else
  match accept_browser_offer_with_pin rtc offer_sdp browser_dtls_pin with
  | Err _ => (g, Err "SDP bridge error")
  | Ok bridge =>
  match add_local_host_candidate (br_transport bridge) with
  | Err _ => (g, Err "failed to register local ICE candidate")
  | Ok (transport, candidate) =>
  let envelope k p := {| kind := k; session_id := sid; from_fp := local_fp_hex; to_fp := browser_fp;
                         payload := p |} in
  match sg_send g (envelope Answer (answer_sdp bridge)) with
  | (g, Err _) => (g, Err "failed to send SDP answer")
  | (g, Ok tt) =>
  match sg_send g (envelope Signaling.Candidate candidate) with
  | (g, Err _) => (g, Err "failed to send local ICE candidate")
  | (g, Ok tt) =>
  match sg_send g (envelope EndOfCandidates []) with
  | (g, Err _) => (g, Err "failed to send EndOfCandidates")
  | (g, Ok tt) => (g, Ok transport)
  end end end end end end end.

(** ** What the host pins *)

Lemma hs_step_read h m t h' u : read_message h m t = (h', Ok u) -> hs_step h (HsRead m t) = (h', true).
Proof. intros H. unfold hs_step. by rewrite H. Qed.

Lemma hs_step_write h r h' m : write_message h r = (h', Ok m) -> hs_step h (HsWrite r) = (h', true).
Proof. intros H. unfold hs_step. by rewrite H. Qed.

(** A Noise message [m] that signalling delivered under the fingerprint [fp]. *)
Definition noise_delivered (ins : list SigEvent) (fp m : bytes) : Prop :=
  exists env, SigEnv env ∈ ins /\ kind env = Noise /\ from_fp env = fp /\ payload env = NOISE_SUB_MSG :: m.

Lemma recv_noise_hello_rest ins ins' r : recv_noise_hello ins = (ins', r) -> ins' ⊆ ins.
Proof.
  induction ins as [|e ins IH]; cbn [recv_noise_hello]; [intros [= <- _]; set_solver|].
  assert (recv_noise_hello ins = (ins', r) -> ins' ⊆ e :: ins) as Hr by (intros H%IH; set_solver).
  destruct e as [env| | |]; try (intros [= <- _]; set_solver).
  destruct (bool_decide _), (payload env) as [|b l]; try done.
  destruct (b =? NOISE_SUB_HELLO); [intros [= <- _]; set_solver|done].
Qed.

Lemma recv_noise_msg_from fp ins ins' m :
  recv_noise_msg fp ins = (ins', Ok m) -> noise_delivered ins fp m /\ ins' ⊆ ins.
Proof.
  induction ins as [|e ins IH]; cbn [recv_noise_msg]; [done|].
  assert (recv_noise_msg fp ins = (ins', Ok m) -> noise_delivered (e :: ins) fp m /\ ins' ⊆ e :: ins) as Hr.
  { intros [(env & Hin & Henv) Hs]%IH. split; [exists env; split; [by right|done]|set_solver]. }
  destruct e as [env| | |]; try done. destruct (_ && _) eqn:Ek; [|exact Hr]. apply andb_true_iff in Ek as [Hk%bool_decide_eq_true Hf%bool_decide_eq_true].
  destruct (payload env) as [|b body] eqn:Ep; [exact Hr|]. destruct (Z.eqb_spec b NOISE_SUB_MSG) as [->|]; [|exact Hr].
  intros [= <- <-]. split; [|set_solver]. exists env. split; [by left|done].
Qed.

Lemma send_noise_in g sid a b sub body g' r : send_noise g sid a b sub body = (g', r) -> sg_in g' = sg_in g.
Proof. unfold send_noise, sg_send. case_match; by intros [= <- _]. Qed.

Lemma noise_delivered_mono ins ins' fp m : ins ⊆ ins' -> noise_delivered ins fp m -> noise_delivered ins' fp m.
Proof. intros Hs (env & Hin & H). exists env. split; [by apply Hs|done]. Qed.

(** The pin comes out of a completed handshake of three messages. *)
Lemma run_noise_responder_ok g ks sid lfp commit st t0 t1 t2 rng g' fp pin :
  run_noise_responder g ks sid lfp commit st t0 t1 t2 rng = (g', Ok (fp, pin)) ->
  exists h0 m0 m2 h oks o,
    responder_xk_with_dtls ks st [] (dtls_commitment_sha256 commit) t0 = Ok h0 /\
    noise_delivered (sg_in g) fp m0 /\ noise_delivered (sg_in g) fp m2 /\
    hs_run h0 [HsRead m0 t1; HsWrite rng; HsRead m2 t2] = (h, oks) /\
    complete h trust_all = Ok o /\ outcome_require_webrtc_dtls_pin o = Ok pin.
Proof.
  unfold run_noise_responder.
  destruct (recv_noise_hello (sg_in g)) as [ins [bfp|]] eqn:Eh; [|done]. apply recv_noise_hello_rest in Eh.
  destruct (send_noise _ _ _ _ _ _) as [g1 [[]|]] eqn:Es1; [|done]. apply send_noise_in in Es1. cbn [sg_in with_in] in Es1.
  destruct (responder_xk_with_dtls _ _ _ _ _) as [h0|]; [|done].
  destruct (recv_noise_msg bfp (sg_in g1)) as [ins1 [m0|]] eqn:Er1; [|done]. apply recv_noise_msg_from in Er1 as [D1 S1].
  destruct (read_message h0 m0 t1) as [h1 [u|]] eqn:E1; [|done].
  destruct (write_message h1 rng) as [h2 [msg1|]] eqn:E2; [|done].
  destruct (send_noise _ _ _ _ _ _) as [g2 [[]|]] eqn:Es2; [|done]. apply send_noise_in in Es2. cbn [sg_in with_in] in Es2.
  destruct (recv_noise_msg bfp (sg_in g2)) as [ins2 [m2|]] eqn:Er2; [|done]. apply recv_noise_msg_from in Er2 as [D2 _].
  destruct (read_message h2 m2 t2) as [h3 [u'|]] eqn:E3; [|done].
  destruct (negb _); [done|]. destruct (complete h3 trust_all) as [o|] eqn:Ec; [|done].
  destruct (outcome_require_webrtc_dtls_pin o) as [p|] eqn:Ep; [|done]. intros [= _ <- <-].
  exists h0, m0, m2, h3, [true; true; true], o. split_and!; [done| | | |done|done].
  - eapply noise_delivered_mono; [|exact D1]. by rewrite Es1.
  - eapply noise_delivered_mono; [|exact D2]. rewrite Es2, S1, Es1. done.
  - unfold hs_run. cbn [fold_left]. rewrite (hs_step_read _ _ _ _ _ E1), (hs_step_write _ _ _ _ E2).
    by rewrite (hs_step_read _ _ _ _ _ E3).
Qed.

Context `{!Str0mLaws R}.

Lemma host_setup_ok g rtc ks sid st t0 t1 t2 rng cn bd g' t :
  host_setup g rtc ks sid st t0 t1 t2 rng cn bd = (g', Ok t) ->
  exists g2 bfp pin, run_noise_responder g ks sid (hex_encode (fp_bytes (rtc_local_fingerprint rtc)))
      (fp_bytes (rtc_local_fingerprint rtc)) st t0 t1 t2 rng = (g2, Ok (bfp, pin)) /\
    rtc_remote_pin (pt_rtc t) = Some {| hash_func := SHA_256; fp_bytes := pin |}.
Proof.
  unfold host_setup. destruct (negb _); [done|]. destruct (negb _); [done|]. destruct (negb cn); [done|].
  destruct (run_noise_responder _ _ _ _ _ _ _ _ _ _) as [g2 [[bfp pin]|]] eqn:En; [|done].
  destruct (receive_offer bfp (sg_in g2)) as [ins [offer|]]; [|done]. destruct (negb bd); [done|].
  destruct (accept_browser_offer_with_pin rtc offer pin) as [br|] eqn:Eb; [|done].
  apply bridge_pins_given in Eb as [Hp _].
  unfold add_local_host_candidate. destruct (rtc_add_local_host _) as [[rtc' cand]|] eqn:Ea; [|done].
  apply rtc_pin_local in Ea. do 3 (destruct (sg_send _ _) as [? [[]|]]; [|done]).
  intros [= _ <-]. exists g2, bfp, pin. split; [done|]. cbn. by rewrite Ea.
Qed.

Lemma pump_keeps_pin ins : forall t,
  rtc_remote_pin (pt_rtc (fst (pump_candidates t ins))) = rtc_remote_pin (pt_rtc t).
Proof.
  induction ins as [|[env| | |] ins IH]; intros t; cbn [pump_candidates]; try done.
  destruct (kind env); try done. destruct (utf8_valid _); [|done].
  unfold pinned_add_remote_candidate. destruct (rtc_add_remote_candidate _ _) as [r|] eqn:E; [|done].
  rewrite IH. by apply rtc_pin_remote in E.
Qed.

Lemma require_pin_ok c pin :
  require_webrtc_dtls_pin c = Ok pin ->
  pin = dtls_fpr_commit (bc_fields c) /\ dtls_fpr_alg (bc_fields c) = DTLS_FPR_ALG_SHA256 /\ pin <> ZERO32.
Proof.
  unfold require_webrtc_dtls_pin, bytes_eqb. destruct (Z.eqb_spec (dtls_fpr_alg (bc_fields c)) DTLS_FPR_ALG_SHA256); [|done].
  case_bool_decide; [done|]. by intros [= <-].
Qed.

(** C22. The host lets nobody but its handshake's peer choose the DTLS certificate it talks to:
    whatever signalling delivers as hello, handshake messages, offer and candidates, a transport
    that the host sets up comes from one completed Noise handshake, made with the host's own
    keys and certificate and run over two messages delivered under one fingerprint, and it checks
    the peer's DTLS certificate against the SHA-256 fingerprint, not all zero, of the binding
    certificate that this handshake decrypted from the last message next to an identity key and
    verified as signed by that key for the peer's static key; neither the fingerprint in the
    offer nor the candidates that follow change it.  The host trusts every identity that
    completes the handshake (first use), so the theorem does not say who the peer is: a relay
    that runs the handshake itself, under an identity of its own, is the peer that is pinned. *)
Theorem webrtc_host_pins_browser g rtc ks sid st t0 t1 t2 rng cn bd g' t ins :
  host_setup g rtc ks sid st t0 t1 t2 rng cn bd = (g', Ok t) ->
  exists h0 bfp m0 m2 h oks o,
    responder_xk_with_dtls ks st [] (dtls_commitment_sha256 (fp_bytes (rtc_local_fingerprint rtc))) t0 = Ok h0 /\
    noise_delivered (sg_in g) bfp m0 /\ noise_delivered (sg_in g) bfp m2 /\
    hs_run h0 [HsRead m0 t1; HsWrite rng; HsRead m2 t2] = (h, oks) /\ complete h trust_all = Ok o /\
    let cert := peer_bind_cert o in
    verified_at (fst (hs_run h0 [HsRead m0 t1; HsWrite rng])) h m2 t2 (peer_identity o) cert /\
    rtc_remote_pin (pt_rtc (fst (pump_candidates t ins)))
      = Some {| hash_func := SHA_256; fp_bytes := dtls_fpr_commit (bc_fields cert) |} /\
    dtls_fpr_alg (bc_fields cert) = DTLS_FPR_ALG_SHA256 /\ dtls_fpr_commit (bc_fields cert) <> ZERO32.
Proof.
  intros (g2 & bfp & pin & Hn & Hpin)%host_setup_ok.
  apply run_noise_responder_ok in Hn as (h0 & m0 & m2 & h & oks & o & Hnew & D0 & D2 & Hrun & Hc & Hp).
  destruct (handshake_verified ks trust_all _ _ _ _ _ _ _ _ _ _ _ _ Hnew Hrun Hc)
    as (_ & (msg & now' & Hop & Hv) & _).
  cbn in Hop. injection Hop as <- <-. apply require_pin_ok in Hp as (-> & Halg & Hz).
  exists h0, bfp, m0, m2, h, oks, o. change (Z.to_nat (receive_bind_cert_at Responder Xk)) with 2%nat in Hv.
  cbn [take] in Hv. rewrite Hrun in Hv. split_and!; try done.
  by rewrite pump_keeps_pin.
Qed.

End Host.

(** ** Witness: a browser that commits to one certificate behind a relay that writes another
    fingerprint into the offer *)

Record ToyRtc := { toy_pin : option DtlsFingerprint }.

#[export] Instance toy_str0m : Str0m ToyRtc := {
  rtc_local_fingerprint _ := {| hash_func := SHA_256; fp_bytes := to_be 32 99 |};
  rtc_parse_offer _ := true;
  rtc_accept_offer r offer :=
    Some ({| toy_pin := ok (parse_sdp_fingerprint offer) |}, lit "answer");
  rtc_add_remote_candidate r _ := Some r;
  rtc_add_local_host r := Some (r, lit "candidate:1");
  rtc_set_remote_fingerprint _ f := {| toy_pin := Some f |};
  rtc_remote_pin := toy_pin;
}.

#[export] Instance toy_str0m_laws : Str0mLaws ToyRtc.
Proof. split; [done|by intros r r' c [= <-]|by intros r r' sdp [= <- _]]. Qed.

Definition toy_browser_fp : bytes := replicate 64 97.

Definition toy_noise (sub : Z) (body : bytes) : SigEvent :=
  SigEnv {| kind := Noise; session_id := to_be 16 7; from_fp := toy_browser_fp; to_fp := []; payload := sub :: body |}.

(** The browser's two messages, given what the host answers to the first. *)
Definition toy_browser : option (bytes * bytes) :=
  match initiator_xk_with_dtls toy_client [1] (toy_x25519 [2]) [] (dtls_commitment_sha256 (to_be 32 55)) 1000,
        responder_xk_with_dtls toy_host [2] [] (dtls_commitment_sha256 (to_be 32 99)) 1000 with
  | Ok hi, Ok hr =>
      match write_message hi [] with
      | (hi, Ok m0) =>
          match write_message (fst (read_message hr m0 1001)) [] with
          | (_, Ok m1) =>
              match write_message (fst (read_message hi m1 1002)) [] with
              | (_, Ok m2) => Some (m0, m2)
              | _ => None
              end
          | _ => None
          end
      | _ => None
      end
  | _, _ => None
  end.

(** An offer that names the certificate 77, not the committed 55. *)
Definition toy_offer : bytes := crlf [lit "v=0"; PREFIX ++ fingerprint_text 55 (to_be 32 77)].

Definition toy_sig : HostSig :=
  let '(m0, m2) := default ([], []) toy_browser in
  {| sg_in := [toy_noise 0 []; toy_noise 2 m0; toy_noise 2 m2;
               SigEnv {| kind := Offer; session_id := to_be 16 7; from_fp := toy_browser_fp; to_fp := [];
                         payload := toy_offer |}];
     sg_out := []; sg_fail := fun _ => false |}.

Lemma webrtc_host_pins_browser_witness :
  exists g t, host_setup toy_sig {| toy_pin := None |} toy_host (to_be 16 7) [2] 1000 1001 1002 [] true true = (g, Ok t) /\
    parse_sdp_fingerprint toy_offer = Ok {| hash_func := SHA_256; fp_bytes := to_be 32 77 |} /\
    rtc_remote_pin (pt_rtc t) = Some {| hash_func := SHA_256; fp_bytes := to_be 32 55 |} /\
    exists cert, rtc_remote_pin (pt_rtc (fst (pump_candidates t []))) =
      Some {| hash_func := SHA_256; fp_bytes := dtls_fpr_commit (bc_fields cert) |}.
Proof.
  assert (match host_setup toy_sig {| toy_pin := None |} toy_host (to_be 16 7) [2] 1000 1001 1002 [] true true with
          | (_, Ok t) => rtc_remote_pin (pt_rtc t) = Some {| hash_func := SHA_256; fp_bytes := to_be 32 55 |}
          | _ => False
          end) as Hc by (vm_compute; reflexivity).
  destruct (host_setup _ _ _ _ _ _ _ _ _ _ _) as [g [t|]] eqn:E; [|destruct Hc].
  exists g, t. split; [exact eq_refl|]. split; [by vm_compute|]. split; [exact Hc|].
  destruct (webrtc_host_pins_browser _ _ _ _ _ _ _ _ _ _ _ _ _ [] E)
    as (h0 & bfp & m0 & m2 & h & oks & o & _ & _ & _ & _ & _ & _ & Hp & _).
  by exists (peer_bind_cert o).
Defined.
