(* ===== verification/Driver.v ===== *)
(** * sh-transport: the drive loop of a WebRTC transport

    crates/sh-transport/src/driver.rs: the task that owns the socket of a transport.  A turn of its
    loop is given what wakes the [select!] and what the engine answers ([Wakeup]); the clock
    readings are arguments, in nanoseconds, of tokio's clock unless said otherwise.  [limit] is the
    last instant the platform's clocks can represent.  The socket is the class [AsyncUdpSocket].

    [driver_faithful]: for every sequence of wake-ups, the datagrams handed to the socket are those
    the engine put out, in order, none twice, and those that are still to be sent are in the
    transport's queue; the engine sees each datagram received, and a clock that only advances. *)

From stdpp Require Import base numbers list option gmap.
From S2P Require Import Prelude Float64 Stun WebRtc.

Local Open Scope Z_scope.

(** ** Sockets *)

Class AsyncUdpSocket (S : Type) := {
  local_addr : S -> SocketAddr;
  send_to : S -> bytes -> SocketAddr -> S * result WebRtcError unit;
}.

(** What every sequence of sends leaves. *)
Definition send_all {S} `{AsyncUdpSocket S} (socket : S) (transmits : list Datagram) : S :=
  fold_left (fun s '(contents, destination) => fst (send_to s contents destination)) transmits socket.

(** ** Clocks *)

Definition checked_add (limit a d : Z) : option Z := if a + d <=? limit then Some (a + d) else None.

(** [now] is tokio's clock. *)
Definition std_now (limit std_base tokio_base now : Z) : Z :=
  let elapsed := saturating_duration_since now tokio_base in
  default std_base (checked_add limit std_base elapsed).

Definition default_poll : Z := 50 * 10 ^ 6.
Definition MILLI : Z := 10 ^ 6.

(** The deadline of a turn, from the engine's. *)
Definition sleep_until (limit std_base tokio_base now : Z) (next_drive_at : option Z) : Z :=
  let fallback := default tokio_base (checked_add limit tokio_base default_poll) in
  let raw := match next_drive_at with
             | Some std_instant =>
                 let offset := default 0 (checked_duration_since std_instant std_base) in
                 default fallback (checked_add limit tokio_base offset)
             | None => fallback
             end in
  Z.max raw (default now (checked_add limit now MILLI)).

(** ** The task *)

(** What the engine does with an input. *)
Record Answer := { an_accepted : bool; an_outs : list RtcOutput; an_final : option Z }.

(** What ends the wait, with the readings of the clock that follow. *)
Inductive Wakeup :=
| TimerFired (now : Z) (driven : Answer)
| Received (data : bytes) (from : SocketAddr) (now : Z) (received : Answer) (now2 : Z) (driven : Answer)
| RecvFailed
| ShutdownSignal.

(** What the engine is given, in its own clock. *)
Inductive EngineInput := InTimeout (now : Z) | InReceive (now : Z) (from to : SocketAddr) (data : bytes).

Record Driver (S : Type) := { d_inner : WebRtcInner; d_socket : S; d_inputs : list EngineInput; d_deadlines : list (Z * Z) }.
Arguments d_inner {S} _.
Arguments d_socket {S} _.
Arguments d_inputs {S} _.
Arguments d_deadlines {S} _.

Section Task.
Context {S : Type} `{!AsyncUdpSocket S}.
Context (limit std_base tokio_base : Z).
Implicit Types d : Driver S.

(** [transport.drive(now)] and sending what it returns; [false] leaves the loop. *)
Definition drive_and_send d (now : Z) (a : Answer) : Driver S * bool :=
  let inputs := d_inputs d ++ [InTimeout (std_now limit std_base tokio_base now)] in
  match drive (d_inner d) (an_accepted a) (an_outs a) (an_final a) with
  | (w, _, Ok transmits) =>
      ({| d_inner := w; d_socket := send_all (d_socket d) transmits; d_inputs := inputs; d_deadlines := d_deadlines d |}, true)
  | (w, _, Err _) =>
      ({| d_inner := w; d_socket := d_socket d; d_inputs := inputs; d_deadlines := d_deadlines d |}, false)
  end.

(** An error of [handle_receive] is only logged. *)
Definition feed d (data : bytes) (from : SocketAddr) (now : Z) (a : Answer) : Driver S :=
  let '(w, _, _) := inner_input (d_inner d) (an_accepted a) (an_outs a) (an_final a) in
  {| d_inner := w; d_socket := d_socket d;
     d_inputs := d_inputs d ++ [InReceive (std_now limit std_base tokio_base now) from (local_addr (d_socket d)) data];
     d_deadlines := d_deadlines d |}.

Definition set_deadline d (now : Z) : Driver S :=
  {| d_inner := d_inner d; d_socket := d_socket d; d_inputs := d_inputs d;
     d_deadlines := d_deadlines d ++ [(now, sleep_until limit std_base tokio_base now (next_timeout (d_inner d)))] |}.

Definition turn d (top : Z) (wake : Wakeup) : Driver S * bool :=
  let d := set_deadline d top in
  match wake with
  | TimerFired now a => drive_and_send d now a
  | Received data from now a now2 a2 => drive_and_send (feed d data from now a) now2 a2
  | RecvFailed => (d, false)
  | ShutdownSignal => (d, false)
  end.

(** The list ends where the task is still waiting. *)
Fixpoint driver_loop d (wakes : list (Z * Wakeup)) : Driver S * bool :=
  match wakes with
  | [] => (d, true)
  | (top, wake) :: wakes =>
      match turn d top wake with
      | (d, true) => driver_loop d wakes
      | (d, false) => (d, false)
      end
  end.

Definition driver_task (transport : WebRtcInner) (socket : S) (now : Z) (first : Answer) (wakes : list (Z * Wakeup))
  : Driver S * bool :=
  match drive_and_send {| d_inner := transport; d_socket := socket; d_inputs := []; d_deadlines := [] |} now first with
  | (d, true) => driver_loop d wakes
  | (d, false) => (d, false)
  end.

(** ** What the loop does *)

Definition transmits_of (outs : list RtcOutput) : list Datagram :=
  omap (fun o => match o with Transmit t => Some t | RtcEvent _ => None end) outs.

(** What the engine put out in answer to the inputs it took. *)
Definition put_out (a : Answer) : list Datagram := if an_accepted a then transmits_of (an_outs a) else [].
Definition wake_out (wake : Wakeup) : list Datagram :=
  match wake with
  | TimerFired _ a => put_out a
  | Received _ _ _ a _ a2 => put_out a ++ put_out a2
  | _ => []
  end.

(** Whether a wake-up lets the loop go on. *)
Definition good_answer (a : Answer) : bool := an_accepted a && bool_decide (is_Some (an_final a)).
Definition goes_on (wake : Wakeup) : bool :=
  match wake with
  | TimerFired _ a => good_answer a
  | Received _ _ _ _ _ a2 => good_answer a2
  | _ => false
  end.

(** The wake-ups the task sees: up to the first that ends it. *)
Fixpoint seen (wakes : list (Z * Wakeup)) : list Wakeup :=
  match wakes with
  | [] => []
  | (_, wake) :: wakes => wake :: (if goes_on wake then seen wakes else [])
  end.

Lemma handle_event_outbound w e : outbound (fst (handle_event w e)) = outbound w /\ next_timeout (fst (handle_event w e)) = next_timeout w.
Proof. destruct e as [id label|id [] data|id|]; cbn; try done; repeat case_match; done. Qed.

Lemma drain_outputs_outbound w outs :
  outbound (fst (drain_outputs w outs)) = outbound w ++ transmits_of outs /\ next_timeout (fst (drain_outputs w outs)) = next_timeout w.
Proof.
  revert w. induction outs as [|o outs IH]; intros w; cbn [drain_outputs]; [cbn; by rewrite app_nil_r|].
  destruct (drain_one w o) as [w1 wk] eqn:E. specialize (IH w1). destruct (drain_outputs w1 outs) as [w2 wks]. cbn [fst] in *.
  destruct IH as [-> ->]. destruct o as [t|e]; cbn [drain_one] in E.
  - injection E as <- <-. cbn. by rewrite <- (assoc_L (++)).
  - pose proof (handle_event_outbound w e) as H. rewrite E in H. cbn in H. destruct H as [-> ->]. done.
Qed.

Lemma inner_input_spec w (a : Answer) :
  let '(w', _, r) := inner_input w (an_accepted a) (an_outs a) (an_final a) in
  outbound w' = outbound w ++ put_out a /\ is_ok r = good_answer a /\
  next_timeout w' = (if good_answer a then an_final a else next_timeout w).
Proof.
  unfold inner_input, put_out, good_answer. destruct (an_accepted a); cbn [andb]; [|by rewrite app_nil_r].
  unfold drain_output. pose proof (drain_outputs_outbound w (an_outs a)) as [Ho Ht].
  destruct (drain_outputs w (an_outs a)) as [w1 wk]. cbn [fst] in *. destruct (an_final a); cbn; by rewrite ?Ho, ?Ht.
Qed.

(** The invariant of the loop: what was sent and what waits are what was put out. *)
Record driver_inv (s0 : S) (o0 out : list Datagram) d : Prop := {
  di_sent : exists sent, d_socket d = send_all s0 sent /\ sent ++ outbound (d_inner d) = o0 ++ out;
}.

Lemma send_all_app s a b : send_all s (a ++ b) = send_all (send_all s a) b.
Proof. apply fold_left_app. Qed.

Lemma drive_and_send_spec s0 o0 out d now a : driver_inv s0 o0 out d ->
  let '(d', go) := drive_and_send d now a in
  driver_inv s0 o0 (out ++ put_out a) d' /\ go = good_answer a /\
  d_inputs d' = d_inputs d ++ [InTimeout (std_now limit std_base tokio_base now)] /\ d_deadlines d' = d_deadlines d /\
  (go = true -> outbound (d_inner d') = [] /\ next_timeout (d_inner d') = an_final a).
Proof.
  intros [(sent & Hs & Ho)]. unfold drive_and_send, drive. pose proof (inner_input_spec (d_inner d) a) as H.
  destruct (inner_input _ _ _ _) as [[w wk] r]. destruct H as (H1 & H2 & H3). destruct r as [[]|e]; cbn [is_ok] in H2.
  - cbn. rewrite <- H2. split_and!; try done.
    + constructor. exists (sent ++ outbound w). cbn. rewrite send_all_app, Hs, app_nil_r. split; [done|]. by rewrite H1, (assoc_L (++)), Ho, <- (assoc_L (++)).
    + intros _. split; [done|]. rewrite H3, <- H2. done.
  - rewrite <- H2. split_and!; try done. constructor. exists sent. cbn. split; [done|]. by rewrite H1, (assoc_L (++)), Ho, <- (assoc_L (++)).
Qed.

Lemma feed_spec s0 o0 out d data from now a : driver_inv s0 o0 out d ->
  let d' := feed d data from now a in
  driver_inv s0 o0 (out ++ put_out a) d' /\ d_deadlines d' = d_deadlines d /\
  d_inputs d' = d_inputs d ++ [InReceive (std_now limit std_base tokio_base now) from (local_addr (d_socket d)) data].
Proof.
  intros [(sent & Hs & Ho)]. unfold feed. pose proof (inner_input_spec (d_inner d) a) as H.
  destruct (inner_input _ _ _ _) as [[w wk] r]. destruct H as (H1 & _). split; [|done]. constructor. exists sent. cbn.
  split; [done|]. by rewrite H1, (assoc_L (++)), Ho, <- (assoc_L (++)).
Qed.

(** The inputs a wake-up gives the engine. *)
Definition wake_inputs (to : SocketAddr) (wake : Wakeup) : list EngineInput :=
  let std now := std_now limit std_base tokio_base now in
  match wake with
  | TimerFired now _ => [InTimeout (std now)]
  | Received data from now _ now2 _ => [InReceive (std now) from to data; InTimeout (std now2)]
  | _ => []
  end.

(** Every deadline is the engine's, and at least a millisecond ahead. *)
Definition deadline_ok '(top, deadline) : Prop :=
  exists t, deadline = sleep_until limit std_base tokio_base top (Some t) /\ (top + MILLI <= limit -> top + MILLI <= deadline).

Context (same_addr : forall (s : S) b a, local_addr (fst (send_to s b a)) = local_addr s).

Lemma good_answer_final a : good_answer a = true -> is_Some (an_final a).
Proof. unfold good_answer. by intros [_ ?%bool_decide_eq_true]%andb_true_iff. Qed.

Lemma send_all_addr s l : local_addr (send_all s l) = local_addr s.
Proof. revert s. induction l as [|[b a] l IH]; intros s; [done|]. cbn. unfold send_all in IH. rewrite IH. apply same_addr. Qed.

Lemma set_deadline_ok d top : is_Some (next_timeout (d_inner d)) -> Forall deadline_ok (d_deadlines d) ->
  Forall deadline_ok (d_deadlines (set_deadline d top)).
Proof.
  intros [t Ht] Hf. cbn. apply Forall_app. split; [done|]. apply Forall_singleton. exists t. rewrite Ht. split; [done|].
  intros Hl. unfold sleep_until, checked_add. rewrite (proj2 (Z.leb_le (top + MILLI) limit) Hl). cbn. lia.
Qed.

Lemma turn_spec s0 o0 out d top wake : driver_inv s0 o0 out d -> is_Some (next_timeout (d_inner d)) ->
  let '(d', go) := turn d top wake in
  driver_inv s0 o0 (out ++ wake_out wake) d' /\ go = goes_on wake /\
  d_inputs d' = d_inputs d ++ wake_inputs (local_addr s0) wake /\
  (Forall deadline_ok (d_deadlines d) -> Forall deadline_ok (d_deadlines d')) /\
  (go = true -> outbound (d_inner d') = [] /\ is_Some (next_timeout (d_inner d'))).
Proof.
  intros Hd Ht. pose proof (fun H => set_deadline_ok d top Ht H) as Hdl. set (d1 := set_deadline d top) in *.
  assert (driver_inv s0 o0 out d1) as H1 by (constructor; apply Hd).
  unfold turn. fold d1. destruct wake as [now a|data from now a now2 a2| |].
  - pose proof (drive_and_send_spec s0 o0 out d1 now a H1) as H. destruct (drive_and_send d1 now a) as [d' go].
    destruct H as (I & G & In & Dl & Ho). split_and!; [done|done|done|by rewrite Dl|]. intros E. destruct (Ho E) as [-> ->].
    split; [done|]. apply good_answer_final. congruence.
  - pose proof (feed_spec s0 o0 out d1 data from now a H1) as (I2 & D2 & In2). set (d2 := feed d1 data from now a) in *.
    pose proof (drive_and_send_spec s0 o0 _ d2 now2 a2 I2) as H. destruct (drive_and_send d2 now2 a2) as [d' go].
    destruct H as (I & G & In & Dl & Ho). cbn [wake_out]. rewrite (assoc_L (++)). split_and!; [done|done| |by rewrite Dl, D2|].
    + rewrite In, In2, <- (assoc_L (++)). destruct H1 as [(sent & Hs & _)]. rewrite Hs, send_all_addr. done.
    + intros E. destruct (Ho E) as [-> ->]. split; [done|]. apply good_answer_final. congruence.
  - cbn. rewrite !app_nil_r. done.
  - cbn. rewrite !app_nil_r. done.
Qed.

Lemma driver_loop_spec s0 o0 out d wakes : driver_inv s0 o0 out d -> is_Some (next_timeout (d_inner d)) ->
  let '(d', go) := driver_loop d wakes in
  driver_inv s0 o0 (out ++ concat (map wake_out (seen wakes))) d' /\ go = forallb (fun p => goes_on (snd p)) wakes /\
  d_inputs d' = d_inputs d ++ concat (map (wake_inputs (local_addr s0)) (seen wakes)) /\
  (Forall deadline_ok (d_deadlines d) -> Forall deadline_ok (d_deadlines d')) /\
  (go = true -> outbound (d_inner d) = [] -> outbound (d_inner d') = []).
Proof.
  revert out d. induction wakes as [|[top wake] wakes IH]; intros out d Hd Ht; cbn [driver_loop seen forallb map concat snd].
  { by rewrite !app_nil_r. }
  pose proof (turn_spec s0 o0 out d top wake Hd Ht) as H. destruct (turn d top wake) as [d1 go].
  destruct H as (I & G & In & Dl & Ho). subst go. destruct (goes_on wake) eqn:Eg; cbn [andb].
  - destruct (Ho eq_refl) as [Ho1 Ht1]. specialize (IH _ d1 I Ht1). destruct (driver_loop d1 wakes) as [d2 go].
    destruct IH as (I2 & G2 & In2 & Dl2 & Ho2). rewrite !(assoc_L (++)), <- In. split_and!; auto.
  - cbn. rewrite !app_nil_r. split_and!; done.
Qed.

(** The task, from its first drive: nothing the engine puts out is lost, repeated or reordered;
    while the task runs nothing waits; it runs on exactly while the engine takes its inputs, the
    socket receives and no shutdown comes; the engine is given every datagram received and the
    time; and every wait is until the engine's deadline, but at least a millisecond. *)
Lemma driver_faithful transport socket now first wakes :
  let '(d, go) := driver_task transport socket now first wakes in
  let all := TimerFired now first :: (if good_answer first then seen wakes else []) in
  (exists sent, d_socket d = send_all socket sent /\
     sent ++ outbound (d_inner d) = outbound transport ++ concat (map wake_out all)) /\
  (go = true -> outbound (d_inner d) = []) /\
  go = good_answer first && forallb (fun p => goes_on (snd p)) wakes /\
  d_inputs d = concat (map (wake_inputs (local_addr socket)) all) /\
  Forall deadline_ok (d_deadlines d).
Proof.
  unfold driver_task. set (d0 := {| d_inner := transport |}).
  assert (driver_inv socket (outbound transport) [] d0) as H0 by (constructor; exists []; cbn; by rewrite app_nil_r).
  pose proof (drive_and_send_spec socket _ [] d0 now first H0) as H. destruct (drive_and_send d0 now first) as [d1 go].
  destruct H as (I & G & In & Dl & Ho). subst go. cbn [app] in I, In. destruct (good_answer first) eqn:Eg; cbn [andb map concat wake_out].
  - destruct (Ho eq_refl) as [Ho1 Ht1].
    assert (is_Some (next_timeout (d_inner d1))) as Hs.
    { rewrite Ht1. by apply good_answer_final. }
    pose proof (driver_loop_spec socket _ _ d1 wakes I Hs) as H. destruct (driver_loop d1 wakes) as [d2 go].
    destruct H as ([I2] & G2 & In2 & Dl2 & Ho2). split_and!; [done|auto|done| |].
    + rewrite In2, In. done.
    + apply Dl2. rewrite Dl. apply Forall_nil_2.
  - cbn. rewrite !app_nil_r. destruct I as [I]. rewrite Dl. split_and!; [done|done|done|done|apply Forall_nil_2].
Qed.

(** When the deadline has come, the engine's own clock has reached the time it asked for. *)
Lemma deadline_reaches_engine top t now : std_base <= t -> tokio_base + (t - std_base) <= limit ->
  sleep_until limit std_base tokio_base top (Some t) <= now -> std_base + (now - tokio_base) <= limit ->
  t <= std_now limit std_base tokio_base now.
Proof.
  intros Ht Hl Hn Hl2. unfold sleep_until, std_now, checked_add, checked_duration_since, saturating_duration_since in *.
  rewrite (proj2 (Z.ltb_ge t std_base) Ht) in Hn. cbn in Hn.
  rewrite (proj2 (Z.leb_le _ _) Hl) in Hn. cbn [default from_option id] in Hn. unfold id in Hn.
  destruct (Z.leb_spec (std_base + Z.max 0 (now - tokio_base)) limit); cbn; lia.
Qed.

Lemma std_now_mono now now' : now <= now' -> std_base + Z.max 0 (now' - tokio_base) <= limit ->
  std_now limit std_base tokio_base now <= std_now limit std_base tokio_base now'.
Proof.
  intros Hn Hl. unfold std_now, checked_add, saturating_duration_since. rewrite !(proj2 (Z.leb_le _ limit)) by lia. cbn. lia.
Qed.
End Task.

(** ** A run *)

Record LogSocket := { ls_addr : SocketAddr; ls_sent : list Datagram }.
#[export] Instance log_socket : AsyncUdpSocket LogSocket := {
  local_addr := ls_addr;
  send_to s b a := ({| ls_addr := ls_addr s; ls_sent := ls_sent s ++ [(b, a)] |}, Ok tt);
}.

Definition toy_addr (p : Z) : SocketAddr := V4 [10; 0; 0; 1] p.
Definition toy_answer (l : list bytes) (t : Z) : Answer :=
  {| an_accepted := true; an_outs := map (fun b => Transmit (b, toy_addr 9)) l; an_final := Some t |}.

(** A receive the engine rejects is survived; its failure to drive is not. *)
Lemma driver_run :
  let rejected := {| an_accepted := false; an_outs := []; an_final := None |} in
  let '(d, go) := driver_task (10 ^ 30) 1000 500 inner_new {| ls_addr := toy_addr 7; ls_sent := [] |} 600
    (toy_answer [[1]; [2]] (10 ^ 8)) 
    [(700, Received [42] (toy_addr 9) 800 rejected 900 (toy_answer [[3]] 1200)); (1000, TimerFired 2000 rejected);
     (3000, TimerFired 4000 (toy_answer [[4]] 5000))] in
  ls_sent (d_socket d) = [([1], toy_addr 9); ([2], toy_addr 9); ([3], toy_addr 9)] /\ go = false /\
  d_inputs d = [InTimeout 1100; InReceive 1300 (toy_addr 9) (toy_addr 7) [42]; InTimeout 1400; InTimeout 2500] /\
  d_deadlines d = [(700, 10 ^ 8 - 500); (1000, 1000 + MILLI)].
Proof. vm_compute. repeat split; reflexivity. Qed.
