(* ===== verification/CryptoWasm.v ===== *)
(** * sh-crypto-wasm: identities and handshakes in the browser

    [crates/sh-crypto-wasm/src/lib.rs]: the objects a browser's script holds.  They wrap the key
    store, the identity proof and the handshake of sh-crypto; a handshake object is emptied by
    completing it.  [entropy] is what WebCrypto gives when it is there ([None]: it is not), and
    [date_now] the value of [Date.now()], in milliseconds. *)

From Stdlib Require Import SpecFloat.
From stdpp Require Import base numbers list option strings gmap.
From S2P Require Import Prelude Float64 CryptoTypes Identity BindCert PeerAuth Handshake.

Inductive JsError := JsCrypto (e : CryptoError) | JsText (msg : string).

Definition crypto_err (e : CryptoError) : JsError := JsCrypto e.

(** [x as i64]: truncation, saturating, NaN to zero. *)
Definition f_to_i64 (x : f64) : Z :=
  match x with
  | S754_nan | S754_zero _ => 0
  | S754_infinity s => if s then i64_min else i64_max
  | S754_finite s m e =>
      let n := if 0 <=? e then Zpos m * 2 ^ e else Zpos m / 2 ^ (- e) in
      Z.max i64_min (Z.min i64_max (if s then - n else n))
  end.

(** [WasmClock::now_unix_secs] *)
Definition now_unix_secs (date_now : f64) : Z := f_to_i64 (f_div date_now (f_of_Z 1000)).

Definition probe_entropy (entropy : option bytes) : result JsError bytes :=
  ok_or entropy (JsText "WebCrypto entropy unavailable").

(** [bytes.try_into()] for an array of [n] bytes. *)
Definition array_of (n : Z) (b : bytes) (msg : string) : result JsError bytes :=
  if blen b =? n then Ok b else Err (JsText msg).

Section Wasm.
Context `{CP : CryptoPrims} `{SP : SigPrims} `{KP : !KeyPrims} `{SN : Snow}.

Definition identity_from_pubkey_bytes (b : bytes) : result JsError DeviceIdentity :=
  let? arr := array_of 32 b "public key must be exactly 32 bytes" in
  map_err crypto_err (from_public_key_bytes arr).

(** ** The key store *)

Record WasmKeystore := { wk_inner : SoftwareKeystore }.

Definition wk_generate (entropy : option bytes) : result JsError WasmKeystore :=
  let? rng := probe_entropy entropy in
  Ok {| wk_inner := generate_with_rng rng |}.

Definition wk_fingerprint (k : WasmKeystore) : result JsError Fingerprint :=
  let? id := map_err crypto_err (ks_device_identity (wk_inner k)) in
  Ok (fingerprint id).

Definition wk_public_key_bytes (k : WasmKeystore) : result JsError bytes :=
  let? id := map_err crypto_err (ks_device_identity (wk_inner k)) in
  Ok (public_key_bytes id).

Definition trust_peer_by_key (k : WasmKeystore) (peer_pubkey_bytes : bytes) : WasmKeystore * result JsError () :=
  match identity_from_pubkey_bytes peer_pubkey_bytes with
  | Err e => (k, Err e)
  | Ok id => let '(ks, r) := ks_trust_peer (wk_inner k) id in ({| wk_inner := ks |}, map_err crypto_err r)
  end.

Definition is_trusted_by_key (k : WasmKeystore) (peer_pubkey_bytes : bytes) : result JsError bool :=
  let? id := identity_from_pubkey_bytes peer_pubkey_bytes in
  map_err crypto_err (ks_is_trusted (wk_inner k) id).

Definition revoke_peer_by_key (k : WasmKeystore) (peer_pubkey_bytes : bytes) : WasmKeystore * result JsError () :=
  match identity_from_pubkey_bytes peer_pubkey_bytes with
  | Err e => (k, Err e)
  | Ok id => let '(ks, r) := ks_revoke_peer (wk_inner k) id in ({| wk_inner := ks |}, map_err crypto_err r)
  end.

(** ** Identity proofs *)

Definition create_identity_proof (k : WasmKeystore) (session_id challenge : bytes) : result JsError bytes :=
  let? session_id_arr := array_of 16 session_id "session_id must be exactly 16 bytes" in
  let? challenge_arr := array_of 32 challenge "challenge must be exactly 32 bytes" in
  let? proof := map_err crypto_err (proof_create (wk_inner k) session_id_arr challenge_arr) in
  Ok (proof_encode proof).

Definition verify_identity_proof (proof_bytes : bytes) (expected_fp : Fingerprint)
    (expected_session_id expected_challenge : bytes) : result JsError () :=
  let? session_id_arr := array_of 16 expected_session_id "expected_session_id must be exactly 16 bytes" in
  let? challenge_arr := array_of 32 expected_challenge "expected_challenge must be exactly 32 bytes" in
  let? proof := map_err crypto_err (proof_decode proof_bytes) in
  map_err crypto_err (proof_verify proof expected_fp session_id_arr challenge_arr).

Definition decode_identity_proof_pubkey (proof_bytes : bytes) : result JsError bytes :=
  let? proof := map_err crypto_err (proof_decode proof_bytes) in
  Ok (device_pubkey proof).

Definition fingerprint_from_pubkey (pubkey_bytes : bytes) : result JsError Fingerprint :=
  let? id := identity_from_pubkey_bytes pubkey_bytes in
  Ok (fingerprint id).

(** ** The handshake *)

Record WasmNoiseHandshake := { wn_inner : option NoiseHandshake }.

(** The four constructors; the drawn randomness is the static secret. *)
Definition wn_initiator (create : SoftwareKeystore -> bytes -> bytes -> bytes -> DtlsCommitment -> Z -> result CryptoError NoiseHandshake)
    (k : WasmKeystore) (peer_static_pub local_dtls_fp session_context : bytes) (entropy : option bytes) (date_now : f64)
  : result JsError WasmNoiseHandshake :=
  let? peer_pub := array_of 32 peer_static_pub "peer_static_pub must be exactly 32 bytes" in
  let? dtls_fp := array_of 32 local_dtls_fp "local_dtls_fp must be exactly 32 bytes" in
  let commitment := dtls_commitment_sha256 dtls_fp in
  let? local_static := probe_entropy entropy in
  let? hs := map_err crypto_err
    (create (wk_inner k) local_static peer_pub session_context commitment (now_unix_secs date_now)) in
  Ok {| wn_inner := Some hs |}.

Definition wn_responder (create : SoftwareKeystore -> bytes -> bytes -> DtlsCommitment -> Z -> result CryptoError NoiseHandshake)
    (k : WasmKeystore) (local_dtls_fp session_context : bytes) (entropy : option bytes) (date_now : f64)
  : result JsError WasmNoiseHandshake :=
  let? dtls_fp := array_of 32 local_dtls_fp "local_dtls_fp must be exactly 32 bytes" in
  let commitment := dtls_commitment_sha256 dtls_fp in
  let? local_static := probe_entropy entropy in
  let? hs := map_err crypto_err
    (create (wk_inner k) local_static session_context commitment (now_unix_secs date_now)) in
  Ok {| wn_inner := Some hs |}.

Definition wn_initiator_xk_with_dtls := wn_initiator initiator_xk_with_dtls.
Definition wn_responder_xk_with_dtls := wn_responder responder_xk_with_dtls.
Definition wn_initiator_ik_with_dtls := wn_initiator initiator_ik_with_dtls.
Definition wn_responder_ik_with_dtls := wn_responder responder_ik_with_dtls.

Definition CONSUMED : JsError := JsText "handshake has already been completed or consumed".

Definition wn_write_message (w : WasmNoiseHandshake) (rng : bytes) : WasmNoiseHandshake * result JsError bytes :=
  match wn_inner w with
  | None => (w, Err CONSUMED)
  | Some hs => let '(hs, r) := write_message hs rng in ({| wn_inner := Some hs |}, map_err crypto_err r)
  end.

Definition wn_read_message (w : WasmNoiseHandshake) (msg : bytes) (date_now : f64)
  : WasmNoiseHandshake * result JsError () :=
  match wn_inner w with
  | None => (w, Err CONSUMED)
  | Some hs =>
      let '(hs, r) := read_message hs msg (now_unix_secs date_now) in
      ({| wn_inner := Some hs |}, map_err crypto_err r)
  end.

Definition wn_is_finished (w : WasmNoiseHandshake) : bool :=
  match wn_inner w with Some hs => is_finished hs | None => false end.

(** ** The outcome *)

Record WasmHandshakeOutcome := {
  wo_peer_fingerprint : Fingerprint;
  wo_peer_pubkey : bytes;
  wo_pin : option bytes;
}.

Definition from_native (o : HandshakeOutcome) : WasmHandshakeOutcome :=
  {| wo_peer_fingerprint := fingerprint (peer_identity o);
     wo_peer_pubkey := public_key_bytes (peer_identity o);
     wo_pin := option_map pin_commit (dtls_pin (peer_bind_cert o)) |}.

Definition wo_dtls_pin (o : WasmHandshakeOutcome) : option bytes :=
  match wo_pin o with
  | Some pin => if bool_decide (pin = ZERO32) then None else Some pin
  | None => None
  end.

Definition wo_require_dtls_pin (o : WasmHandshakeOutcome) : result JsError bytes :=
  match wo_pin o with
  | Some pin => if bool_decide (pin = ZERO32) then Err (crypto_err DtlsBindingMissing) else Ok pin
  | None => Err (crypto_err DtlsBindingMissing)
  end.

Definition wo_has_dtls_pin (o : WasmHandshakeOutcome) : bool :=
  match wo_pin o with Some p => negb (bool_decide (p = ZERO32)) | None => false end.

Definition is_ascii (s : string) : bool :=
  forallb (fun b => b <? 128) (lit s).

Definition verify_peer_fingerprint (o : WasmHandshakeOutcome) (pinned_fp : string) : result JsError bool :=
  if negb (blen (lit pinned_fp) =? 64) || negb (is_ascii pinned_fp)
  then Err (JsText "pinned_fp must be exactly 64 ASCII hex characters") else
  Ok (bool_decide (wo_peer_fingerprint o = pinned_fp)).

(** ** Completion *)

(** The store used for first pairing: a fresh key store whose trust check always succeeds. *)
Record FirstPairingKeystore := { fp_inner : SoftwareKeystore }.

Definition first_pairing_new (rng : bytes) : FirstPairingKeystore := {| fp_inner := generate_with_rng rng |}.

#[global] Instance first_pairing_keystore : Keystore FirstPairingKeystore := {
  ks_device_identity k := ks_device_identity (fp_inner k);
  ks_sign k data := ks_sign (fp_inner k) data;
  ks_trust_peer k id := let '(i, r) := ks_trust_peer (fp_inner k) id in ({| fp_inner := i |}, r);
  ks_is_trusted _ _ := Ok true;
  ks_revoke_peer k id := let '(i, r) := ks_revoke_peer (fp_inner k) id in ({| fp_inner := i |}, r);
  ks_was_peer_revoked k id := ks_was_peer_revoked (fp_inner k) id;
  ks_trust_peer_if_not_revoked k id :=
    match ks_was_peer_revoked (fp_inner k) id with
    | Err e => (k, Err e)
    | Ok true => (k, Ok WasRevoked)
    | Ok false =>
        let '(i, r) := ks_trust_peer (fp_inner k) id in
        ({| fp_inner := i |}, let? _ := r in Ok Pinned)
    end;
}.

Definition complete_trusted (w : WasmNoiseHandshake) (k : WasmKeystore)
  : WasmNoiseHandshake * result JsError WasmHandshakeOutcome :=
  match wn_inner w with
  | None => (w, Err CONSUMED)
  | Some hs =>
      ({| wn_inner := None |},
       let? outcome := map_err crypto_err (complete hs (wk_inner k)) in Ok (from_native outcome))
  end.

Definition complete_for_first_pairing (w : WasmNoiseHandshake) (entropy : option bytes)
  : WasmNoiseHandshake * result JsError WasmHandshakeOutcome :=
  match probe_entropy entropy with
  | Err e => (w, Err e)
  | Ok rng =>
      match wn_inner w with
      | None => (w, Err CONSUMED)
      | Some hs =>
          ({| wn_inner := None |},
           let? outcome := map_err crypto_err (complete hs (first_pairing_new rng)) in Ok (from_native outcome))
      end
  end.

End Wasm.

(** ** A script's calls on one handshake object *)

Inductive JsCall :=
| JsWrite (rng : bytes)
| JsRead (msg : bytes) (date_now : f64)
| JsCompleteTrusted (k : WasmKeystore)
| JsCompleteFirst (entropy : option bytes).

Section Calls.
Context `{CP : CryptoPrims} `{SP : SigPrims} `{KP : !KeyPrims} `{SN : Snow}.

(** The object after a call, and the outcome if it returned one. *)
Definition js_call (w : WasmNoiseHandshake) (c : JsCall) : WasmNoiseHandshake * option WasmHandshakeOutcome :=
  match c with
  | JsWrite rng => (fst (wn_write_message w rng), None)
  | JsRead msg date_now => (fst (wn_read_message w msg date_now), None)
  | JsCompleteTrusted k => let '(w, r) := complete_trusted w k in (w, ok r)
  | JsCompleteFirst entropy => let '(w, r) := complete_for_first_pairing w entropy in (w, ok r)
  end.

Fixpoint js_run (w : WasmNoiseHandshake) (cs : list JsCall) : list (JsCall * WasmHandshakeOutcome) :=
  match cs with
  | [] => []
  | c :: cs =>
      let '(w, r) := js_call w c in
      match r with Some o => (c, o) :: js_run w cs | None => js_run w cs end
  end.

(** The objects the constructors return. *)
Inductive wn_created : WasmNoiseHandshake -> Prop :=
| created_initiator_xk k p f ctx en t w : wn_initiator_xk_with_dtls k p f ctx en t = Ok w -> wn_created w
| created_responder_xk k f ctx en t w : wn_responder_xk_with_dtls k f ctx en t = Ok w -> wn_created w
| created_initiator_ik k p f ctx en t w : wn_initiator_ik_with_dtls k p f ctx en t = Ok w -> wn_created w
| created_responder_ik k f ctx en t w : wn_responder_ik_with_dtls k f ctx en t = Ok w -> wn_created w.

Lemma wn_initiator_Ok create k p f ctx en t w : wn_initiator create k p f ctx en t = Ok w ->
  exists s c now h, create (wk_inner k) s p ctx c now = Ok h /\ w = {| wn_inner := Some h |}.
Proof.
  unfold wn_initiator, array_of. destruct (blen p =? 32); [|done]. destruct (blen f =? 32); [|done].
  destruct en as [s|]; [|done]. cbn [probe_entropy ok_or]. destruct (create _ _ _ _ _ _) as [h|] eqn:E; [|done].
  intros [= <-]. eauto 6.
Qed.

Lemma wn_responder_Ok create k f ctx en t w : wn_responder create k f ctx en t = Ok w ->
  exists s c now h, create (wk_inner k) s ctx c now = Ok h /\ w = {| wn_inner := Some h |}.
Proof.
  unfold wn_responder, array_of. destruct (blen f =? 32); [|done].
  destruct en as [s|]; [|done]. cbn [probe_entropy ok_or]. destruct (create _ _ _ _ _) as [h|] eqn:E; [|done].
  intros [= <-]. eauto 6.
Qed.

Lemma wn_created_new w : wn_created w ->
  exists ks s ps ctx d now p r h, new_inner (K := SoftwareKeystore) ks s ps ctx d now p r = Ok h /\ w = {| wn_inner := Some h |}.
Proof.
  intros [k p f ctx en t w' H|k f ctx en t w' H|k p f ctx en t w' H|k f ctx en t w' H];
    [apply wn_initiator_Ok in H|apply wn_responder_Ok in H|apply wn_initiator_Ok in H|apply wn_responder_Ok in H];
    destruct H as (s & c & now & h & E & ->); do 9 eexists; (split; [exact E|done]).
Qed.

(** Nothing is left of a completed handshake. *)
Lemma js_run_consumed cs : js_run {| wn_inner := None |} cs = [].
Proof. induction cs as [|[rng|msg t|k|[en|]] cs IH]; [done|..]; cbn; exact IH. Qed.

(** The outcome object of a handshake, for the peer it verified. *)
Record outcome_for (o : WasmHandshakeOutcome) (id : DeviceIdentity) (cert : BindCert) : Prop := {
  of_fingerprint : wo_peer_fingerprint o = fingerprint id;
  of_pubkey : wo_peer_pubkey o = verifying_key id;
  of_pin p : wo_dtls_pin o = Some p <->
    dtls_fpr_alg (bc_fields cert) = DTLS_FPR_ALG_SHA256 /\ dtls_fpr_commit (bc_fields cert) = p /\ p <> ZERO32;
  of_require p : wo_require_dtls_pin o = Ok p <-> wo_dtls_pin o = Some p;
  of_has : wo_has_dtls_pin o = true <-> is_Some (wo_dtls_pin o);
}.

Lemma from_native_for o : outcome_for (from_native o) (peer_identity o) (peer_bind_cert o).
Proof.
  assert (wo_pin (from_native o) = if dtls_fpr_alg (bc_fields (peer_bind_cert o)) =? DTLS_FPR_ALG_SHA256
    then Some (dtls_fpr_commit (bc_fields (peer_bind_cert o))) else None) as E.
  { cbn. unfold dtls_pin. by destruct (_ =? _). }
  split; [done|done|intros p; unfold wo_dtls_pin|intros p; unfold wo_require_dtls_pin, wo_dtls_pin|unfold wo_has_dtls_pin, wo_dtls_pin];
    rewrite E; destruct (Z.eqb_spec (dtls_fpr_alg (bc_fields (peer_bind_cert o))) DTLS_FPR_ALG_SHA256); try case_bool_decide.
  all: try (split; [by intros [= <-]|by intros [= <-]]); try (by split; [|intros [? ?]]); try (split; [done|by intros (? & <- & ?)]).
  - split; [intros [= <-]; done|by intros (_ & -> & _)].
Qed.

(** What a completion at any point of a run returns. *)
Lemma complete_outcome {K} `{Keystore K} (ks0 : SoftwareKeystore) (ks : K) s ps ctx d now p r h0 ops h oks o :
  new_inner ks0 s ps ctx d now p r = Ok h0 -> hs_run h0 ops = (h, oks) -> complete h ks = Ok o ->
  exists before after msg t, verified_at before after msg t (peer_identity o) (peer_bind_cert o) /\
    outcome_for (from_native o) (peer_identity o) (peer_bind_cert o) /\ ks_is_trusted ks (peer_identity o) = Ok true.
Proof.
  intros Hn Hr Hc. destruct (handshake_verified ks0 ks _ _ _ _ _ _ _ _ _ _ _ _ Hn Hr Hc) as (_ & (msg & t & _ & Hv) & Ht & _).
  do 4 eexists. split; [exact Hv|]. split; [apply from_native_for|done].
Qed.

Definition good_outcome (c : JsCall) (o : WasmHandshakeOutcome) : Prop :=
  exists id cert before after msg t, verified_at before after msg t id cert /\ outcome_for o id cert /\
    forall k, c = JsCompleteTrusted k -> ks_is_trusted (wk_inner k) id = Ok true.

Lemma js_run_outcomes ks s ps ctx d now p r h0 ops h oks cs :
  new_inner (K := SoftwareKeystore) ks s ps ctx d now p r = Ok h0 -> hs_run h0 ops = (h, oks) ->
  let outs := js_run {| wn_inner := Some h |} cs in
  (length outs <= 1)%nat /\ Forall (fun '(c, o) => good_outcome c o) outs.
Proof.
  intros Hn. revert ops h oks. induction cs as [|c cs IH]; intros ops h oks Hr; [by split; [cbn; lia|constructor]|].
  destruct c as [rng|msg t|k|en]; cbn [js_run js_call].
  - unfold wn_write_message. cbn [wn_inner]. destruct (write_message h rng) as [h' x] eqn:E. cbn [fst].
    apply (IH (ops ++ [HsWrite rng]) h' (oks ++ [is_ok x])). rewrite hs_run_snoc, Hr. cbn [hs_step]. by rewrite E.
  - unfold wn_read_message. cbn [wn_inner]. destruct (read_message h msg _) as [h' x] eqn:E. cbn [fst].
    apply (IH (ops ++ [HsRead msg (now_unix_secs t)]) h' (oks ++ [is_ok x])). rewrite hs_run_snoc, Hr. cbn [hs_step]. by rewrite E.
  - unfold complete_trusted. cbn [wn_inner]. destruct (complete h (wk_inner k)) as [o|e] eqn:E; cbn [map_err ok].
    + rewrite js_run_consumed. split; [cbn; lia|]. apply Forall_cons. split; [|done].
      destruct (complete_outcome ks (wk_inner k) _ _ _ _ _ _ _ _ _ _ _ _ Hn Hr E) as (b & a & m & t & Hv & Ho & Ht).
      do 6 eexists. split; [exact Hv|]. split; [done|]. by intros k' [= <-].
    + rewrite js_run_consumed. split; [cbn; lia|constructor].
  - unfold complete_for_first_pairing. cbn [wn_inner]. destruct en as [rng|]; cbn [probe_entropy ok_or ok]; [|by apply (IH ops h oks)].
    destruct (complete h (first_pairing_new rng)) as [o|e] eqn:E; cbn [map_err ok].
    + rewrite js_run_consumed. split; [cbn; lia|]. apply Forall_cons. split; [|done].
      destruct (complete_outcome ks (first_pairing_new rng) _ _ _ _ _ _ _ _ _ _ _ _ Hn Hr E) as (b & a & m & t & Hv & Ho & Ht).
      do 6 eexists. split; [exact Hv|]. split; [done|]. done.
    + rewrite js_run_consumed. split; [cbn; lia|constructor].
Qed.

(** C18. What a browser's script can get out of a handshake object, whatever it calls in whatever
    order and whatever bytes it feeds: at most one outcome, after which the object is spent.  The
    outcome names the identity whose binding certificate the handshake decrypted and verified
    against its own static key; the DTLS pin it offers is the certificate's SHA-256 commitment
    when that is not all zero, and nothing otherwise, with [require_dtls_pin] and [has_dtls_pin]
    in agreement; and an outcome of [complete_trusted] is for a peer the given key store trusts. *)
Theorem browser_handshake_sound w0 cs : wn_created w0 ->
  (length (js_run w0 cs) <= 1)%nat /\ Forall (fun '(c, o) => good_outcome c o) (js_run w0 cs).
Proof.
  intros (ks & s & ps & ctx & d & now & p & r & h & Hn & ->)%wn_created_new. by eapply (js_run_outcomes _ _ _ _ _ _ _ _ _ []).
Qed.

(** ** Trust by key *)

Lemma trust_by_key_Ok k b k' : trust_peer_by_key k b = (k', Ok tt) -> is_trusted_by_key k' b = Ok true.
Proof.
  unfold trust_peer_by_key, is_trusted_by_key. destruct (identity_from_pubkey_bytes b) as [id|]; [|done]. cbn [ks_trust_peer software_keystore].
  unfold sw_trust_peer. destruct (lock_poisoned (wk_inner k)) eqn:E; intros [= <-].
  cbn [wk_inner ks_is_trusted software_keystore]. unfold sw_is_trusted. cbn [lock_poisoned set_peer peers]. rewrite E, lookup_insert_eq. done.
Qed.

Lemma revoke_by_key_Ok k b k' : revoke_peer_by_key k b = (k', Ok tt) -> is_trusted_by_key k' b = Ok false.
Proof.
  unfold revoke_peer_by_key, is_trusted_by_key. destruct (identity_from_pubkey_bytes b) as [id|]; [|done]. cbn [ks_revoke_peer software_keystore].
  unfold sw_revoke_peer. destruct (lock_poisoned (wk_inner k)) eqn:E; intros [= <-].
  cbn [wk_inner ks_is_trusted software_keystore]. unfold sw_is_trusted. cbn [lock_poisoned set_peer peers]. rewrite E, lookup_insert_eq. done.
Qed.

(** The store of a first pairing has no revocation list of its own to honour. *)
Lemma first_pairing_revokes_nobody rng id : ks_was_peer_revoked (first_pairing_new rng) id = Ok false.
Proof. done. Qed.

End Calls.

Section ProofRoundtrip.
Context `{SP : SigPrims} `{KP : !KeyPrims} `{SL : !SigLaws}.

(** A proof made by one browser verifies in another, under the first one's fingerprint. *)
Lemma identity_proof_roundtrip (k : WasmKeystore) id s c :
  usable (wk_inner k) id -> blen s = 16 -> blen c = 32 ->
  exists b, create_identity_proof k s c = Ok b /\ verify_identity_proof b (fingerprint id) s c = Ok tt /\
    decode_identity_proof_pubkey b = Ok (verifying_key id).
Proof.
  intros (Hs & Hk & Hl) Hls Hlc. destruct (proof_create_verifies (wk_inner k) id s c Hs Hk) as (p & Ep & Ev & Hok).
  specialize (Hok Hl Hlc). pose proof Ep as Ep'. exists (proof_encode p).
  assert (proof_decode (proof_encode p) = Ok p) as Ed by (by apply proof_decode_iff).
  unfold create_identity_proof, verify_identity_proof, decode_identity_proof_pubkey, array_of. rewrite Hls, Hlc. cbn [Z.eqb Pos.eqb].
  rewrite Ep, Ed. cbn [map_err]. rewrite Ev. split; [done|]. split; [done|]. f_equal.
  unfold proof_create in Ep'. destruct Hs as [Hid _]. rewrite Hid in Ep'. destruct (ks_sign _ _); [|done]. by injection Ep' as <-.
Qed.

End ProofRoundtrip.

(** ** Witness: a browser that reconnects to the toy host *)

Definition toy_js_object : WasmNoiseHandshake :=
  default {| wn_inner := None |}
    (ok (wn_initiator_xk_with_dtls {| wk_inner := toy_client |} (toy_x25519 [2]) (to_be 32 55) [] (Some [1]) (f_of_Z 1000000))).

(** The host's answer to the browser's first message. *)
Definition toy_js_m1 : bytes :=
  match snd (wn_write_message toy_js_object []), responder_xk_with_dtls toy_host [2] [] (dtls_commitment_sha256 (to_be 32 99)) 1000 with
  | Ok m0, Ok hr => default [] (ok (snd (write_message (fst (read_message hr m0 1001)) [])))
  | _, _ => []
  end.

Definition toy_js_calls : list JsCall :=
  [JsWrite []; JsRead toy_js_m1 (f_of_Z 1002500); JsWrite []; JsCompleteTrusted {| wk_inner := toy_client |};
   JsCompleteFirst (Some [3])].

Lemma browser_handshake_sound_witness :
  match js_run toy_js_object toy_js_calls with
  | [(JsCompleteTrusted _, o)] => wo_dtls_pin o = Some (to_be 32 99) /\ wo_peer_fingerprint o = fingerprint (identity toy_host)
  | _ => False
  end /\ (length (js_run toy_js_object toy_js_calls) <= 1)%nat.
Proof.
  split; [vm_compute; by split|]. apply browser_handshake_sound. unfold toy_js_object.
  assert (is_ok (wn_initiator_xk_with_dtls {| wk_inner := toy_client |} (toy_x25519 [2]) (to_be 32 55) [] (Some [1]) (f_of_Z 1000000)) = true)
    as Hok by (vm_compute; reflexivity).
  destruct (wn_initiator_xk_with_dtls _ _ _ _ _ _) as [w|] eqn:E; [|discriminate Hok]. exact (created_initiator_xk _ _ _ _ _ _ w E).
Defined.
