(* ===== verification/WebClient.v ===== *)
(** * sh-web-client: the browser's session (crates/sh-web-client/src/lib.rs)

    The parser of the DTLS fingerprint of a session description, its comparison with the pin, and
    [WebClient], which applies a remote description only behind it.  A string is the list of its
    characters, with its length in UTF-8 bytes where the code takes [len].  The browser's peer
    connection is the class [RtcPeerConnection]; [RtcLaws] says which of its operations apply a
    remote description. *)

From stdpp Require Import base numbers list option strings.
From S2P Require Import Prelude Utf8 Types Decimal Transport Sdp.

(** ** Strings *)

Definition text : Type := list Z.
Definition str_len (s : text) : Z := blen (utf8_encode s).

(** [char::is_whitespace] *)
Definition is_whitespace (c : Z) : bool :=
  ((0x09 <=? c) && (c <=? 0x0D)) || (c =? 0x20) || (c =? 0x85) || (c =? 0xA0) || (c =? 0x1680) ||
  ((0x2000 <=? c) && (c <=? 0x200A)) || (c =? 0x2028) || (c =? 0x2029) || (c =? 0x202F) || (c =? 0x205F) || (c =? 0x3000).

Fixpoint trim_start (p : Z -> bool) (s : text) : text :=
  match s with
  | c :: r => if p c then trim_start p r else s
  | [] => []
  end.
Definition trim_end (p : Z -> bool) (s : text) : text := rev (trim_start p (rev s)).
Definition trim (s : text) : text := trim_end is_whitespace (trim_start is_whitespace s).

(** [splitn(2, char::is_whitespace)]: the part before the first whitespace, and the rest if there
    is any. *)
Fixpoint split_ws (s : text) : text * option text :=
  match s with
  | [] => ([], None)
  | c :: r => if is_whitespace c then ([], Some r) else let '(a, b) := split_ws r in (c :: a, b)
  end.

Definition eq_ignore_ascii_case (a b : text) : bool := bool_decide (map ascii_lower a = map ascii_lower b).

(** ** The fingerprint *)

Definition SHA256_FP_LEN : Z := 32.
Definition WEB_MAX_SDP_BYTES : Z := 65536.

(** The characters of a group, after [byte]. *)
Fixpoint decode_group (byte : Z) (cs : text) : result string Z :=
  match cs with
  | [] => Ok byte
  | ch :: cs =>
      match digit_val 16 ch with
      | Some n => let nibble := Z.land n 0xF in decode_group (Z.lor (Z.shiftl byte 4 mod 256) nibble) cs
      | None => Err "fingerprint contains a non-hex character"%string
      end
  end.

Fixpoint decode_tokens (tokens : list text) (out : bytes) : result string bytes :=
  match tokens with
  | [] => Ok out
  | token :: tokens =>
      if negb (str_len token =? 2) then Err "each fingerprint hex group must be exactly two hex digits"%string else
      let? byte := decode_group 0 token in
      if blen out =? SHA256_FP_LEN then Err "fingerprint has more than 32 bytes"%string else
      decode_tokens tokens (out ++ [byte])
  end.

Definition decode_colon_hex (value : text) : result string bytes :=
  let? out := decode_tokens (split_on COLON value) [] in
  if negb (blen out =? SHA256_FP_LEN) then Err "fingerprint did not decode to exactly 32 bytes"%string else Ok out.

(** The value of a line that carries a SHA-256 fingerprint. *)
Definition fingerprint_value (raw_line : text) : option text :=
  let line := trim (trim_end (fun c => c =? 13) raw_line) in
  rest ← strip_prefix (lit "a=fingerprint:") line;
  let '(alg, value) := split_ws rest in
  value ← value;
  if eq_ignore_ascii_case alg (lit "sha-256") then Some (trim value) else None.

Fixpoint scan_fingerprint (ls : list text) : result string bytes :=
  match ls with
  | [] => Err "no a=fingerprint:sha-256 attribute found in SDP"%string
  | raw_line :: ls =>
      match fingerprint_value raw_line with
      | None => scan_fingerprint ls
      | Some value => decode_colon_hex value
      end
  end.

Definition parse_sdp_fingerprint_inner (sdp : text) : result string bytes :=
  if WEB_MAX_SDP_BYTES <? str_len sdp then Err "SDP exceeds maximum allowed length"%string else
  scan_fingerprint (split_on 10 sdp).

(** The thrown value: an error with a message of this crate, or what the browser threw. *)
Inductive JsThrown := WebError (msg : string) | Thrown.

Definition web_parse_sdp_fingerprint (sdp : text) : result JsThrown bytes := map_err WebError (parse_sdp_fingerprint_inner sdp).

Definition VERIFICATION_FAILED : JsThrown := WebError "DTLS fingerprint verification failed".

(** The constant-time comparison. *)
Fixpoint compare_loop (n : nat) (i : nat) (parsed pin : bytes) (diff : Z) : result JsThrown Z :=
  match n with
  | O => Ok diff
  | S n =>
      match parsed !! i, pin !! i with
      | Some a, Some b => compare_loop n (S i) parsed pin (Z.lor diff (Z.lxor a b))
      | _, _ => Err VERIFICATION_FAILED
      end
  end.

Definition verify_sdp_fingerprint_pin (sdp : text) (pin : bytes) : result JsThrown unit :=
  if negb (blen pin =? SHA256_FP_LEN) then Err (WebError "pin must be exactly 32 bytes") else
  let? parsed := map_err (fun _ => VERIFICATION_FAILED) (parse_sdp_fingerprint_inner sdp) in
  let? diff := compare_loop (Z.to_nat SHA256_FP_LEN) 0 parsed pin 0 in
  if diff =? 0 then Ok tt else Err VERIFICATION_FAILED.

(** ** The client *)

Inductive RtcSdpType := SdpOffer | SdpAnswer.
Inductive IceConnectionState := IceNew | IceChecking | IceConnected | IceCompleted | IceFailed | IceDisconnected | IceClosed | IceOther.
Record IceCandidateInit := { ci_candidate : text; ci_sdp_mid : text; ci_sdp_m_line_index : Z }.

(** web-sys: a connection, its channels, and whether an operation throws. *)
Class RtcPeerConnection (P Ch : Type) := {
  pc_create_data_channel : P -> text -> P * Ch;
  pc_create_offer : P -> P * option text;
  pc_create_answer : P -> P * option text;
  pc_set_local_description : P -> RtcSdpType -> text -> P * bool;
  pc_set_remote_description : P -> RtcSdpType -> text -> P * bool;
  pc_local_description : P -> option text;
  pc_add_ice_candidate : P -> IceCandidateInit -> P * bool;
  pc_send : P -> Ch -> bytes -> P * bool;
  pc_set_onmessage : P -> Ch -> P;
  pc_set_ondatachannel : P -> P;
  pc_set_onicecandidate : P -> P;
  pc_ice_connection_state : P -> IceConnectionState;
  pc_close : P -> P;
}.

Record WebClient (P Ch : Type) := {
  pc : P;
  video_channel : option Ch;
  input_channel : option Ch;
  clipboard_channel : option Ch;
  dtls_pin : option bytes;
}.
Arguments pc {P Ch} _.
Arguments video_channel {P Ch} _.
Arguments input_channel {P Ch} _.
Arguments clipboard_channel {P Ch} _.
Arguments dtls_pin {P Ch} _.

Section Client.
Context {P Ch : Type} `{!RtcPeerConnection P Ch}.
Implicit Types w : WebClient P Ch.

(** [new_pc] is what the browser's constructor gives. *)
Definition web_client_new (new_pc : option P) : result JsThrown (WebClient P Ch) :=
  let? p := ok_or new_pc Thrown in
  Ok {| pc := p; video_channel := None; input_channel := None; clipboard_channel := None; dtls_pin := None |}.

Definition set_pc w (p : P) : WebClient P Ch :=
  {| pc := p; video_channel := video_channel w; input_channel := input_channel w;
     clipboard_channel := clipboard_channel w; dtls_pin := dtls_pin w |}.

Definition set_dtls_pin w (pin : bytes) : WebClient P Ch * result JsThrown unit :=
  if negb (blen pin =? SHA256_FP_LEN) then (w, Err (WebError "DTLS pin must be exactly 32 bytes")) else
  ({| pc := pc w; video_channel := video_channel w; input_channel := input_channel w;
      clipboard_channel := clipboard_channel w; dtls_pin := Some pin |}, Ok tt).

Definition local_dtls_fingerprint w : result JsThrown bytes :=
  let? sdp := ok_or (pc_local_description (pc w)) (WebError "no local description set yet") in
  web_parse_sdp_fingerprint sdp.

(** A channel that is made unless it is there. *)
Definition ensure_channel (p : P) (ch : option Ch) (label : text) : P * option Ch :=
  match ch with
  | Some _ => (p, ch)
  | None => let '(p, c) := pc_create_data_channel p label in (p, Some c)
  end.

Definition local_sdp (p : P) : result JsThrown text :=
  ok_or (pc_local_description p) (WebError "no local description after setLocalDescription").

(** Create a description, set it as the local one and read it back. *)
Definition make_local w (kind : RtcSdpType) (create : P -> P * option text) : WebClient P Ch * result JsThrown text :=
  match create (pc w) with
  | (p, None) => (set_pc w p, Err Thrown)
  | (p, Some desc) =>
      match pc_set_local_description p kind desc with
      | (p, false) => (set_pc w p, Err Thrown)
      | (p, true) => (set_pc w p, local_sdp p)
      end
  end.

Definition create_offer w : WebClient P Ch * result JsThrown text :=
  let '(p, video) := ensure_channel (pc w) (video_channel w) (lit "0:128:1") in
  let '(p, input) := ensure_channel p (input_channel w) (lit "2:0:1") in
  let '(p, clipboard) := ensure_channel p (clipboard_channel w) (lit "3:2:1") in
  make_local {| pc := p; video_channel := video; input_channel := input; clipboard_channel := clipboard; dtls_pin := dtls_pin w |}
    SdpOffer pc_create_offer.

Definition guard_remote_sdp w (remote_sdp : text) : result JsThrown unit :=
  let? pin := ok_or (dtls_pin w)
    (WebError "DTLS pin not set: Noise handshake must complete and set_dtls_pin must be called before applying remote SDP") in
  verify_sdp_fingerprint_pin remote_sdp pin.

Definition apply_remote w (kind : RtcSdpType) (sdp : text) : WebClient P Ch * result JsThrown unit :=
  let '(p, ok) := pc_set_remote_description (pc w) kind sdp in (set_pc w p, if ok then Ok tt else Err Thrown).

Definition create_answer w (remote_offer : text) : WebClient P Ch * result JsThrown text :=
  match apply_remote w SdpOffer remote_offer with
  | (w, Err e) => (w, Err e)
  | (w, Ok _) => make_local w SdpAnswer pc_create_answer
  end.

Definition connect_as_offerer w (remote_sdp_answer : text) : WebClient P Ch * result JsThrown unit :=
  match guard_remote_sdp w remote_sdp_answer with
  | Err e => (w, Err e)
  | Ok _ => apply_remote w SdpAnswer remote_sdp_answer
  end.

Definition connect_as_answerer w (remote_sdp_offer : text) : WebClient P Ch * result JsThrown text :=
  match guard_remote_sdp w remote_sdp_offer with
  | Err e => (w, Err e)
  | Ok _ => create_answer w remote_sdp_offer
  end.

Definition web_add_ice_candidate w (candidate : text) : WebClient P Ch * result JsThrown unit :=
  if bool_decide (candidate = []) then (w, Ok tt) else
  let '(p, ok) := pc_add_ice_candidate (pc w) {| ci_candidate := candidate; ci_sdp_mid := lit "0"; ci_sdp_m_line_index := 0 |} in
  (set_pc w p, if ok then Ok tt else Err Thrown).

Definition send_on w (ch : option Ch) (missing : string) (data : bytes) : WebClient P Ch * result JsThrown unit :=
  match ch with
  | None => (w, Err (WebError missing))
  | Some c => let '(p, ok) := pc_send (pc w) c data in (set_pc w p, if ok then Ok tt else Err Thrown)
  end.

Definition send_frame w (frame : bytes) := send_on w (video_channel w) "no video DataChannel open" frame.
Definition send_input w (event : bytes) := send_on w (input_channel w) "no input DataChannel open" event.
Definition send_clipboard w (update : bytes) := send_on w (clipboard_channel w) "no clipboard DataChannel open" update.

Definition listen_on w (ch : option Ch) (missing : string) : WebClient P Ch * result JsThrown unit :=
  match ch with
  | None => (w, Err (WebError missing))
  | Some c => (set_pc w (pc_set_onmessage (pc w) c), Ok tt)
  end.

Definition on_frame w := listen_on w (video_channel w) "no video DataChannel to attach on_frame to".
Definition on_clipboard w := listen_on w (clipboard_channel w) "no clipboard DataChannel to attach on_clipboard to".

Definition on_data_channel w : WebClient P Ch := set_pc w (pc_set_ondatachannel (pc w)).
Definition on_ice_candidate w : WebClient P Ch := set_pc w (pc_set_onicecandidate (pc w)).

Definition ice_connection_state w : text :=
  match pc_ice_connection_state (pc w) with
  | IceNew => lit "new" | IceChecking => lit "checking" | IceConnected => lit "connected" | IceCompleted => lit "completed"
  | IceFailed => lit "failed" | IceDisconnected => lit "disconnected" | IceClosed => lit "closed" | IceOther => lit "unknown"
  end.

Definition web_close w : WebClient P Ch :=
  {| pc := pc_close (pc w); video_channel := None; input_channel := None; clipboard_channel := None; dtls_pin := dtls_pin w |}.

End Client.

(** ** The gate *)

Lemma decode_colon_hex_length v fp : decode_colon_hex v = Ok fp -> blen fp = 32.
Proof.
  unfold decode_colon_hex. destruct (decode_tokens _ _) as [out|]; [|done]. cbn. destruct (Z.eqb_spec (blen out) SHA256_FP_LEN); [|done].
  by intros <-%Ok_inj.
Qed.

Lemma parse_inner_length sdp fp : parse_sdp_fingerprint_inner sdp = Ok fp -> blen fp = 32.
Proof.
  unfold parse_sdp_fingerprint_inner. destruct (_ <? _); [done|]. induction (split_on 10 sdp) as [|l ls IH]; [done|]. cbn.
  destruct (fingerprint_value l); [apply decode_colon_hex_length|done].
Qed.

(** The comparison finds every difference. *)
Lemma compare_loop_zero n i parsed pin diff : length parsed = (i + n)%nat -> length pin = (i + n)%nat ->
  exists d, compare_loop n i parsed pin diff = Ok d /\ (d = 0 <-> diff = 0 /\ drop i parsed = drop i pin).
Proof.
  revert i diff. induction n as [|n IH]; intros i diff H1 H2.
  { exists diff. split; [done|]. rewrite !drop_ge by lia. tauto. }
  destruct (lookup_lt_is_Some_2 parsed i ltac:(lia)) as [a Ha]. destruct (lookup_lt_is_Some_2 pin i ltac:(lia)) as [b Hb].
  cbn [compare_loop]. rewrite Ha, Hb. destruct (IH (S i) (Z.lor diff (Z.lxor a b))) as (d & -> & Hd); [lia|lia|].
  exists d. split; [done|]. rewrite Hd, Z.lor_eq_0_iff, Z.lxor_eq_0_iff, (drop_S parsed a i Ha), (drop_S pin b i Hb).
  split; [intros ((? & ->) & ->)|intros (? & [= -> ->])]; done.
Qed.

Lemma verify_pin_iff sdp pin :
  verify_sdp_fingerprint_pin sdp pin = Ok tt <-> blen pin = 32 /\ parse_sdp_fingerprint_inner sdp = Ok pin.
Proof.
  unfold verify_sdp_fingerprint_pin. destruct (Z.eqb_spec (blen pin) SHA256_FP_LEN) as [Hp|Hp]; cbn [negb]; [|by split; [|intros [? _]]].
  destruct (parse_sdp_fingerprint_inner sdp) as [fp|e] eqn:E; cbn; [|by split; [|intros [_ ?]]].
  pose proof (parse_inner_length _ _ E) as Hl. unfold blen in *. unfold SHA256_FP_LEN in *.
  destruct (compare_loop_zero 32 0 fp pin 0) as (d & Ed & Hd); [lia|lia|]. change (Z.to_nat 32) with 32%nat. rewrite Ed. cbn.
  destruct (Z.eqb_spec d 0) as [Hz|Hz].
  - split; [|done]. intros _. split; [done|]. apply Hd in Hz as [_ Hz]. rewrite !drop_0 in Hz. by rewrite Hz.
  - split; [done|]. intros [_ [= ->]]. destruct Hz. by apply Hd.
Qed.

(** What the parser returns is the value of the first line with a SHA-256 fingerprint. *)
Lemma parse_inner_iff sdp fp : parse_sdp_fingerprint_inner sdp = Ok fp <->
  str_len sdp <= WEB_MAX_SDP_BYTES /\ exists pre line post value,
    split_on 10 sdp = pre ++ line :: post /\ Forall (fun l => fingerprint_value l = None) pre /\
    fingerprint_value line = Some value /\ decode_colon_hex value = Ok fp.
Proof.
  unfold parse_sdp_fingerprint_inner. destruct (Z.ltb_spec WEB_MAX_SDP_BYTES (str_len sdp)); [split; [done|intros [? _]; lia]|].
  transitivity (exists pre line post value, split_on 10 sdp = pre ++ line :: post /\ Forall (fun l => fingerprint_value l = None) pre /\
    fingerprint_value line = Some value /\ decode_colon_hex value = Ok fp); [|tauto].
  induction (split_on 10 sdp) as [|l ls IH]; cbn [scan_fingerprint].
  { split; [done|]. by intros (pre & ? & ? & ? & ?%(f_equal length) & _); rewrite length_app in *; cbn in *; lia. }
  destruct (fingerprint_value l) as [v|] eqn:Ev.
  - split; [intros Hd; exists [], l, ls, v; auto|]. intros (pre & line & post & value & Hs & Hf & Hl & Hd).
    destruct pre as [|x pre]; simplify_eq/=; [done|]. apply Forall_cons in Hf as [Hf _]. congruence.
  - rewrite IH. split.
    + intros (pre & line & post & value & -> & Hf & Hl & Hd). exists (l :: pre), line, post, value. rewrite Forall_cons. auto.
    + intros (pre & line & post & value & Hs & Hf & Hl & Hd). destruct pre as [|x pre]; simplify_eq/=.
      apply Forall_cons in Hf as [_ Hf]. exists pre, line, post, value. auto.
Qed.

(** ** Every script *)

(** [remote_log] is the remote descriptions that were applied, in order. *)
Class RtcLaws (P Ch : Type) `{RP : RtcPeerConnection P Ch} := {
  remote_log : P -> list text;
  rl_channel p l : remote_log (fst (pc_create_data_channel p l)) = remote_log p;
  rl_offer p : remote_log (fst (pc_create_offer p)) = remote_log p;
  rl_answer p : remote_log (fst (pc_create_answer p)) = remote_log p;
  rl_local p k s : remote_log (fst (pc_set_local_description p k s)) = remote_log p;
  rl_remote p k s : remote_log (fst (pc_set_remote_description p k s)) =
    remote_log p ++ (if snd (pc_set_remote_description p k s) then [s] else []);
  rl_ice p c : remote_log (fst (pc_add_ice_candidate p c)) = remote_log p;
  rl_send p c b : remote_log (fst (pc_send p c b)) = remote_log p;
  rl_onmessage p c : remote_log (pc_set_onmessage p c) = remote_log p;
  rl_ondatachannel p : remote_log (pc_set_ondatachannel p) = remote_log p;
  rl_onicecandidate p : remote_log (pc_set_onicecandidate p) = remote_log p;
  rl_close p : remote_log (pc_close p) = remote_log p;
}.

(** The calls a page can make. *)
Inductive WebCall :=
| CallSetPin (pin : bytes) | CallCreateOffer | CallConnectAsOfferer (sdp : text) | CallConnectAsAnswerer (sdp : text)
| CallAddCandidate (c : text) | CallSendFrame (b : bytes) | CallSendInput (b : bytes) | CallSendClipboard (b : bytes)
| CallOnFrame | CallOnClipboard | CallOnDataChannel | CallOnIceCandidate | CallClose.

Section Script.
Context {P Ch : Type} `{RL : RtcLaws P Ch}.
Implicit Types w : WebClient P Ch.

Definition web_call w (c : WebCall) : WebClient P Ch :=
  match c with
  | CallSetPin pin => fst (set_dtls_pin w pin)
  | CallCreateOffer => fst (create_offer w)
  | CallConnectAsOfferer sdp => fst (connect_as_offerer w sdp)
  | CallConnectAsAnswerer sdp => fst (connect_as_answerer w sdp)
  | CallAddCandidate c => fst (web_add_ice_candidate w c)
  | CallSendFrame b => fst (send_frame w b)
  | CallSendInput b => fst (send_input w b)
  | CallSendClipboard b => fst (send_clipboard w b)
  | CallOnFrame => fst (on_frame w)
  | CallOnClipboard => fst (on_clipboard w)
  | CallOnDataChannel => on_data_channel w
  | CallOnIceCandidate => on_ice_candidate w
  | CallClose => web_close w
  end.
Definition web_run w (cs : list WebCall) : WebClient P Ch := fold_left web_call cs w.

(** The pins a script sets. *)
Definition pins_of (cs : list WebCall) : list bytes :=
  omap (fun c => match c with CallSetPin pin => if blen pin =? 32 then Some pin else None | _ => None end) cs.

(** Steps that change neither pin nor remote description. *)
Definition keeps w w' : Prop := dtls_pin w' = dtls_pin w /\ remote_log (pc w') = remote_log (pc w).

Lemma make_local_keeps w kind create : (forall p, remote_log (fst (create p)) = remote_log p) -> keeps w (fst (make_local w kind create)).
Proof.
  intros Hc. unfold make_local. specialize (Hc (pc w)). destruct (create (pc w)) as [p [d|]]; cbn [fst] in Hc; [|done].
  pose proof (rl_local p kind d) as Hl. destruct (pc_set_local_description p kind d) as [p' []]; cbn [fst] in Hl;
    (split; [done|]); cbn [fst set_pc pc]; congruence.
Qed.

Lemma create_offer_keeps w : keeps w (fst (create_offer w)).
Proof.
  unfold create_offer.
  assert (forall p c l, remote_log (fst (ensure_channel p c l)) = remote_log p) as He.
  { intros p [c|] l; [done|]. cbn. pose proof (rl_channel p l) as H. by destruct (pc_create_data_channel p l). }
  destruct (ensure_channel (pc w) _ _) as [p1 c1] eqn:E1. destruct (ensure_channel p1 _ _) as [p2 c2] eqn:E2.
  destruct (ensure_channel p2 _ _) as [p3 c3] eqn:E3.
  pose proof (He (pc w) (video_channel w) (lit "0:128:1")) as H1. rewrite E1 in H1.
  pose proof (He p1 (input_channel w) (lit "2:0:1")) as H2. rewrite E2 in H2.
  pose proof (He p2 (clipboard_channel w) (lit "3:2:1")) as H3. rewrite E3 in H3. cbn [fst] in *.
  set (w1 := {| pc := p3 |}). destruct (make_local_keeps w1 SdpOffer pc_create_offer rl_offer) as [D L]. split; [by rewrite D|].
  rewrite L. cbn. congruence.
Qed.

Lemma send_on_keeps w c m b : keeps w (fst (send_on w c m b)).
Proof. destruct c as [c|]; [|done]. cbn. pose proof (rl_send (pc w) c b) as H. by destruct (pc_send (pc w) c b). Qed.

Lemma listen_on_keeps w c m : keeps w (fst (listen_on w c m)).
Proof. destruct c as [c|]; [|done]. split; [done|]. apply rl_onmessage. Qed.

(** A step that applies at most one description, which passed the gate. *)
Definition gated w w' : Prop := dtls_pin w' = dtls_pin w /\
  exists new, remote_log (pc w') = remote_log (pc w) ++ new /\
    (new = [] \/ exists sdp, new = [sdp] /\ guard_remote_sdp w sdp = Ok tt).

Lemma keeps_gated w w' : keeps w w' -> gated w w'.
Proof. intros [D L]. split; [done|]. exists []. rewrite app_nil_r. auto. Qed.

Lemma gated_keeps w w1 w2 : gated w w1 -> keeps w1 w2 -> gated w w2.
Proof. intros [D1 (new & L1 & Hn)] [D2 L2]. split; [congruence|]. exists new. split; [congruence|done]. Qed.

Lemma apply_remote_gated w kind sdp : guard_remote_sdp w sdp = Ok tt -> gated w (fst (apply_remote w kind sdp)).
Proof.
  intros Hg. unfold apply_remote. pose proof (rl_remote (pc w) kind sdp) as Hr. destruct (pc_set_remote_description _ _ _) as [p ok].
  split; [done|]. cbn [fst snd set_pc pc] in *. eexists. split; [exact Hr|]. destruct ok; [right; eauto|by left].
Qed.

Lemma web_call_gated w c : pins_of [c] = [] -> gated w (web_call w c).
Proof.
  destruct c as [pin| |sdp|sdp|cd|b|b|b| | | | |]; cbn [web_call]; intros Hp.
  - apply keeps_gated. unfold set_dtls_pin, SHA256_FP_LEN. unfold pins_of in Hp. cbn in Hp. by destruct (blen pin =? 32).
  - apply keeps_gated, create_offer_keeps.
  - unfold connect_as_offerer. destruct (guard_remote_sdp w sdp) as [[]|] eqn:E; [by apply apply_remote_gated|by apply keeps_gated].
  - unfold connect_as_answerer. destruct (guard_remote_sdp w sdp) as [[]|] eqn:E; [|by apply keeps_gated]. unfold create_answer.
    pose proof (apply_remote_gated w SdpOffer sdp E) as Hr. destruct (apply_remote w SdpOffer sdp) as [w1 [u|e]]; [|done].
    eapply gated_keeps; [exact Hr|]. apply make_local_keeps, rl_answer.
  - apply keeps_gated. unfold web_add_ice_candidate. case_bool_decide; [done|].
    pose proof (rl_ice (pc w) {| ci_candidate := cd; ci_sdp_mid := lit "0"; ci_sdp_m_line_index := 0 |}) as Hr.
    by destruct (pc_add_ice_candidate _ _).
  - apply keeps_gated, send_on_keeps.
  - apply keeps_gated, send_on_keeps.
  - apply keeps_gated, send_on_keeps.
  - apply keeps_gated, listen_on_keeps.
  - apply keeps_gated, listen_on_keeps.
  - apply keeps_gated. split; [done|]. apply rl_ondatachannel.
  - apply keeps_gated. split; [done|]. apply rl_onicecandidate.
  - apply keeps_gated. split; [done|]. apply rl_close.
Qed.

(** A new pin replaces the old one and applies nothing. *)
Lemma web_call_pin w c pin : pins_of [c] = [pin] -> dtls_pin (web_call w c) = Some pin /\ remote_log (pc (web_call w c)) = remote_log (pc w).
Proof.
  unfold pins_of. destruct c as [q| | | | | | | | | | | |]; cbn; try done. destruct (blen q =? 32) eqn:E; [|done]. intros [= <-].
  unfold set_dtls_pin, SHA256_FP_LEN. by rewrite E.
Qed.

Lemma pins_of_one c : pins_of [c] = [] \/ exists pin, pins_of [c] = [pin].
Proof. unfold pins_of. destruct c; cbn; auto. destruct (blen pin =? 32); eauto. Qed.

(** The pin in force is the last one set. *)
Lemma web_run_pin w cs : dtls_pin w = None -> dtls_pin (web_run w cs) = last (pins_of cs).
Proof.
  intros Hw. induction cs as [|c cs IH] using rev_ind; [done|]. unfold web_run, pins_of in *. rewrite fold_left_app, omap_app. cbn [fold_left].
  destruct (pins_of_one c) as [Hp|[pin Hp]].
  - destruct (web_call_gated (fold_left web_call cs w) c Hp) as [-> _]. unfold pins_of in Hp. rewrite Hp, app_nil_r. exact IH.
  - destruct (web_call_pin (fold_left web_call cs w) c pin Hp) as [-> _]. unfold pins_of in Hp. rewrite Hp. by rewrite last_snoc.
Qed.

(** C19. The browser applies only a pinned remote description, whatever the page calls in whatever
    order and whatever the signalling server delivers: every description that reaches the peer
    connection does so in a call made when a pin was set, and the first SHA-256 fingerprint in it
    decodes to the last pin set before; a call applies at most one.  Conversely the gate lets a
    description through exactly when it is at most 64 KiB long and that fingerprint is the pin. *)
Theorem web_client_applies_pinned_only p w cs c :
  web_client_new (Some p) = Ok w -> 
  (exists new, remote_log (pc (web_run w (cs ++ [c]))) = remote_log (pc (web_run w cs)) ++ new /\
     (new = [] \/ exists sdp pin, new = [sdp] /\ last (pins_of cs) = Some pin /\ parse_sdp_fingerprint_inner sdp = Ok pin)) /\
  (forall sdp, guard_remote_sdp (web_run w cs) sdp = Ok tt <->
     exists pin pre line post value, last (pins_of cs) = Some pin /\ str_len sdp <= WEB_MAX_SDP_BYTES /\
       split_on 10 sdp = pre ++ line :: post /\ Forall (fun l => fingerprint_value l = None) pre /\
       fingerprint_value line = Some value /\ decode_colon_hex value = Ok pin).
Proof.
  intros Hnew. assert (dtls_pin w = None) as Hn by (by injection Hnew as <-).
  pose proof (web_run_pin w cs Hn) as Hpin. set (w1 := web_run w cs) in *.
  assert (forall sdp, guard_remote_sdp w1 sdp = Ok tt <-> exists pin, last (pins_of cs) = Some pin /\ parse_sdp_fingerprint_inner sdp = Ok pin) as Hg.
  { intros sdp. unfold guard_remote_sdp. rewrite Hpin. destruct (last (pins_of cs)) as [pin|]; cbn; [|split; [done|by intros (? & ? & _)]].
    rewrite verify_pin_iff. split; [intros [_ Hp]; eauto|]. intros (q & [= <-] & Hp). split; [by eapply parse_inner_length|done]. }
  split.
  - unfold web_run. rewrite fold_left_app. cbn [fold_left]. change (fold_left web_call cs w) with w1.
    destruct (pins_of_one c) as [Hp|[pin Hp]].
    + destruct (web_call_gated w1 c Hp) as [_ (new & -> & Hc)]. exists new. split; [done|]. destruct Hc as [->|(sdp & -> & Hs)]; [by left|right].
      apply Hg in Hs as (pin & ? & ?). eauto 6.
    + destruct (web_call_pin w1 c pin Hp) as [_ ->]. exists []. rewrite app_nil_r. auto.
  - intros sdp. rewrite Hg. split.
    + intros (pin & Hl & (Hs & pre & line & post & value & H1 & H2 & H3 & H4)%parse_inner_iff). eauto 12.
    + intros (pin & pre & line & post & value & Hl & Hs & H1 & H2 & H3 & H4). exists pin. split; [done|]. apply parse_inner_iff. eauto 10.
Qed.
End Script.

(** ** A page *)

Record ToyPc := { tp_remote : list text; tp_local : option text }.

#[export] Instance toy_pc : RtcPeerConnection ToyPc text := {
  pc_create_data_channel p l := (p, l);
  pc_create_offer p := (p, Some []); pc_create_answer p := (p, Some []);
  pc_set_local_description p _ s := ({| tp_remote := tp_remote p; tp_local := Some s |}, true);
  pc_set_remote_description p _ s := ({| tp_remote := tp_remote p ++ [s]; tp_local := tp_local p |}, true);
  pc_local_description := tp_local;
  pc_add_ice_candidate p _ := (p, true); pc_send p _ _ := (p, true); pc_set_onmessage p _ := p; pc_set_ondatachannel p := p; pc_set_onicecandidate p := p;
  pc_ice_connection_state _ := IceNew; pc_close p := p;
}.
#[export] Program Instance toy_pc_laws : RtcLaws ToyPc text := {| remote_log := tp_remote |}.
Solve All Obligations with done.

Definition toy_pin : bytes := replicate 32 0xAB.
Definition toy_fp_line (fp : bytes) : text := lit "a=fingerprint:SHA-256  " ++ fingerprint_text 87 fp ++ [13; 10].
Definition toy_sdp : text := lit "v=0" ++ [13; 10] ++ lit "a=fingerprint:sha-1 00" ++ [13; 10] ++ toy_fp_line toy_pin.
Definition toy_page : WebClient ToyPc text :=
  {| pc := {| tp_remote := []; tp_local := None |}; video_channel := None; input_channel := None; clipboard_channel := None; dtls_pin := None |}.
Definition toy_script : list WebCall :=
  [CallConnectAsOfferer toy_sdp; CallSetPin [1; 2]; CallSetPin toy_pin; CallCreateOffer; CallConnectAsOfferer (lit "v=0")].

Lemma web_client_applies_pinned_only_witness :
  remote_log (pc (web_run toy_page toy_script)) = [] /\
  remote_log (pc (web_run toy_page (toy_script ++ [CallConnectAsAnswerer toy_sdp]))) = [toy_sdp] /\
  guard_remote_sdp (web_run toy_page toy_script) toy_sdp = Ok tt.
Proof.
  destruct (web_client_applies_pinned_only {| tp_remote := []; tp_local := None |} toy_page toy_script (CallConnectAsAnswerer toy_sdp) eq_refl) as [_ Hg].
  split; [vm_compute; reflexivity|]. split; [vm_compute; reflexivity|]. apply Hg. exists toy_pin, [lit "v=0" ++ [13]; lit "a=fingerprint:sha-1 00" ++ [13]].
  exists (lit "a=fingerprint:SHA-256  " ++ fingerprint_text 87 toy_pin ++ [13]), [[]], (fingerprint_text 87 toy_pin).
  split_and!; try (vm_compute; reflexivity); [vm_compute; discriminate|]. repeat apply List.Forall_cons; try apply List.Forall_nil; vm_compute; reflexivity.
Defined.

(** Only the first fingerprint is compared: a description that carries the pinned one at session
    level and another one at media level, which takes precedence for that medium, passes. *)
Lemma later_fingerprint_not_checked :
  let sdp := lit "v=0" ++ [13; 10] ++ toy_fp_line toy_pin ++ lit "m=application 9 UDP/DTLS/SCTP webrtc-datachannel" ++ [13; 10] ++
             toy_fp_line (replicate 32 0x66) in
  verify_sdp_fingerprint_pin sdp toy_pin = Ok tt.
Proof. vm_compute. reflexivity. Qed.
