(* ===== verification/Clipboard.v ===== *)
(** * Clipboard text (crates/sh-clipboard)

    The sanitizer of sanitize.rs, the trait [ClipboardAccess] of access.rs as a class with its
    two instances [NoopClipboard] and [RecordingClipboard], and the proof that the one-pass
    sanitizer is the character-by-character filter its documentation describes. *)

From stdpp Require Import base numbers list option strings.
From S2P Require Import Prelude Utf8.

(** ** sanitize.rs *)

(** [lo..=hi] as a pattern. *)
Definition between (lo hi u : Z) : bool := (lo <=? u) && (u <=? hi).

Definition is_forbidden_in_paste_output (u : Z) : bool :=
  between 0x00 0x08 u || between 0x0B 0x1F u
  || (u =? 0x7F)
  || between 0x80 0x9F u
  || (u =? 0xAD)
  || (u =? 0x061C)
  || (u =? 0x180E)
  || (u =? 0x2028) || (u =? 0x2029)
  || between 0x200B 0x200F u
  || between 0x202A 0x202E u
  || between 0x2060 0x2064 u
  || between 0x2066 0x2069 u
  || between 0x206A 0x206F u
  || (u =? 0xFEFF)
  || between 0xFFF9 0xFFFB u
  || between 0xFDD0 0xFDEF u
  || between 0x1D173 0x1D17A u
  || between 0xE0000 0xE007F u
  || (Z.land u 0xFFFE =? 0xFFFE).

Definition LF : Z := 0x0A.
Definition CR : Z := 0x0D.

(** The loop over the peekable iterator; the value is what is pushed to [out]. *)
Fixpoint sanitize_chars (chars : list Z) : list Z :=
  match chars with
  | [] => []
  | c :: rest =>
      if c =? CR then
        match rest with
        | c' :: rest' => if c' =? LF then LF :: sanitize_chars rest' else LF :: sanitize_chars rest
        | [] => [LF]
        end
      else if (c =? 0x2028) || (c =? 0x2029) then LF :: sanitize_chars rest
      else if is_forbidden_in_paste_output c then sanitize_chars rest
      else c :: sanitize_chars rest
  end.

(** [input] is a [&str]: a valid byte string, of which [chars()] are the scalar values. *)
Definition sanitize_clipboard_text (input : bytes) : bytes :=
  utf8_encode (sanitize_chars (default [] (utf8_decode input))).

Definition sanitize_for_paste (input : bytes) : option bytes :=
  let out := sanitize_clipboard_text input in
  if bool_decide (out = []) then None else Some out.

(** ** access.rs, noop.rs, recording.rs *)

Inductive ClipboardError := ClipboardUnsupported (reason : string) | ClipboardBackend (msg : bytes).

Class ClipboardAccess (C : Type) := {
  get_text : C -> C * result ClipboardError (option bytes);
  set_text : C -> bytes -> C * result ClipboardError unit;
}.

Inductive NoopClipboard := Noop.

#[export] Instance noop_access : ClipboardAccess NoopClipboard := {
  get_text c := (c, Ok None);
  set_text c _ := (c, Ok tt);
}.

Record RecordingClipboard := { rec_writes : list bytes; rec_read_value : option bytes }.

Definition recording_new : RecordingClipboard := {| rec_writes := []; rec_read_value := None |}.

Definition set_read_value (c : RecordingClipboard) (value : option bytes) : RecordingClipboard :=
  {| rec_writes := rec_writes c; rec_read_value := value |}.

Definition recording_clear (c : RecordingClipboard) : RecordingClipboard :=
  {| rec_writes := []; rec_read_value := rec_read_value c |}.

#[export] Instance recording_access : ClipboardAccess RecordingClipboard := {
  get_text c := (c, Ok (rec_read_value c));
  set_text c text := ({| rec_writes := rec_writes c ++ [text]; rec_read_value := rec_read_value c |}, Ok tt);
}.

(** ** The filter, character by character

    What a character becomes depends on itself and on the character before it: a line feed
    behind a carriage return is dropped, line separators become line feeds, forbidden
    characters go, everything else stays. *)

Definition is_separator (c : Z) : bool := (c =? CR) || (c =? 0x2028) || (c =? 0x2029).

Definition clean_char (before c : Z) : option Z :=
  if (c =? LF) && (before =? CR) then None
  else if is_separator c then Some LF
  else if is_forbidden_in_paste_output c then None
  else Some c.

Definition clean_chars (cs : list Z) : list Z :=
  omap (fun '(before, c) => clean_char before c) (zip (0 :: cs) cs).

Lemma LF_allowed : is_forbidden_in_paste_output LF = false.
Proof. done. Qed.

Lemma separator_forbidden c : is_separator c = true -> is_forbidden_in_paste_output c = true.
Proof.
  unfold is_separator. intros [[->%Z.eqb_eq| ->%Z.eqb_eq]%orb_true_iff| ->%Z.eqb_eq]%orb_true_iff; done.
Qed.

(** The loop, from any position whose line feed is not already taken by a carriage return. *)
Lemma sanitize_chars_from p cs :
  (p = CR -> head cs <> Some LF) ->
  sanitize_chars cs = omap (fun '(before, c) => clean_char before c) (zip (p :: cs) cs).
Proof.
  remember (length cs) as n eqn:Hn. revert p cs Hn.
  induction n as [n IH] using lt_wf_ind. intros p [|c rest] Hn Hp; [done|].
  cbn [length] in Hn. cbn [sanitize_chars zip zip_with omap list_omap].
  unfold clean_char at 1. unfold is_separator.
  destruct (c =? CR) eqn:Ec; simplify_bool; [subst c|].
  - cbn. destruct rest as [|c' rest']; [done|]. cbn [length] in Hn. destruct (c' =? LF) eqn:El; simplify_bool.
    + subst c'. rewrite (IH (length rest')) with (p := LF) by (done || lia). done.
    + rewrite (IH (length (c' :: rest'))) with (p := CR) by (cbn [length]; lia || naive_solver). done.
  - replace ((c =? LF) && (p =? CR)) with false.
    2:{ symmetry. apply andb_false_iff. destruct (Z.eqb_spec c LF) as [->|]; [right|by left].
        apply Z.eqb_neq. intros ->. by apply Hp. }
    cbn [orb]. rewrite (IH (length rest)) with (p := c) by (done || lia).
    destruct (_ || (c =? 0x2029)); [done|]. by destruct (is_forbidden_in_paste_output c).
Qed.

Lemma sanitize_chars_clean cs : sanitize_chars cs = clean_chars cs.
Proof. by apply sanitize_chars_from. Qed.

(** No forbidden character is left, and nothing but scalar values comes out. *)
Lemma clean_chars_allowed cs : Forall (fun c => is_forbidden_in_paste_output c = false) (clean_chars cs).
Proof.
  unfold clean_chars. apply list.Forall_forall. intros x ([b c] & _ & Hx)%list_elem_of_omap.
  unfold clean_char in Hx. repeat case_match; simplify_eq; auto using LF_allowed.
Qed.

Lemma sanitize_chars_scalar cs : Forall is_scalar cs -> Forall is_scalar (sanitize_chars cs).
Proof.
  rewrite sanitize_chars_clean. intros Hs. unfold clean_chars. apply list.Forall_forall.
  intros x ([b c] & Hz & Hx)%list_elem_of_omap. apply elem_of_zip_r in Hz.
  rewrite list.Forall_forall in Hs. specialize (Hs c Hz).
  unfold clean_char in Hx. repeat case_match; simplify_eq; auto. unfold is_scalar, LF. lia.
Qed.

(** Allowed text is left alone. *)
Lemma sanitize_chars_id cs :
  Forall (fun c => is_forbidden_in_paste_output c = false) cs -> sanitize_chars cs = cs.
Proof.
  induction 1 as [|c cs Hc _ IH]; [done|]. cbn [sanitize_chars].
  assert (is_separator c = false) as Hs.
  { apply not_true_iff_false. intros Hs%separator_forbidden. congruence. }
  unfold is_separator in Hs. simplify_bool.
  rewrite (proj2 (Z.eqb_neq _ _)), (proj2 (Z.eqb_neq c 0x2028)), (proj2 (Z.eqb_neq c 0x2029)), Hc, IH by done. done.
Qed.

(** The encoded text never grows. *)
Lemma utf8_encode_cons c cs : utf8_encode (c :: cs) = utf8_encode_char c ++ utf8_encode cs.
Proof. done. Qed.

Lemma utf8_encode_char_pos c : 1 <= blen (utf8_encode_char c).
Proof. unfold utf8_encode_char, blen. repeat case_match; cbn; lia. Qed.

Lemma sanitize_chars_size cs : blen (utf8_encode (sanitize_chars cs)) <= blen (utf8_encode cs).
Proof.
  remember (length cs) as n eqn:Hn. revert cs Hn.
  induction n as [n IH] using lt_wf_ind. intros [|c rest] Hn; [done|]. cbn [length] in Hn.
  assert (blen (utf8_encode_char LF) = 1) as HL by done.
  pose proof (utf8_encode_char_pos c) as Hc. pose proof (IH (length rest) ltac:(lia) rest eq_refl) as Hr.
  cbn [sanitize_chars]. rewrite (utf8_encode_cons c rest), blen_app.
  destruct (c =? CR).
  - destruct rest as [|c' rest'].
    + change (blen (utf8_encode [LF])) with 1. change (blen (utf8_encode [])) with 0. lia.
    + cbn [length] in Hn. destruct (c' =? LF); rewrite utf8_encode_cons, blen_app; [|lia].
      pose proof (IH (length rest') ltac:(lia) rest' eq_refl) as Hr'. rewrite (utf8_encode_cons c' rest'), blen_app.
      pose proof (utf8_encode_char_pos c'). lia.
  - destruct (_ || (c =? 0x2029)); [rewrite utf8_encode_cons, blen_app; lia|].
    destruct (is_forbidden_in_paste_output c); [lia|]. rewrite utf8_encode_cons, blen_app. lia.
Qed.

(** When nothing is left: every character was one the filter drops. *)
Lemma clean_chars_nil cs :
  clean_chars cs = [] <-> Forall (fun c => is_forbidden_in_paste_output c = true /\ is_separator c = false) cs.
Proof.
  rewrite <- sanitize_chars_clean. split.
  - induction cs as [|c cs IH]; [done|]. cbn [sanitize_chars]. intros Hn.
    destruct (c =? CR) eqn:E1; [by repeat case_match|]. destruct (_ || (c =? 0x2029)) eqn:E2; [done|].
    destruct (is_forbidden_in_paste_output c) eqn:Ef; [|done]. constructor; [|by apply IH].
    split; [done|]. unfold is_separator. by rewrite E1.
  - induction 1 as [|c cs [Hf Hs] _ IH]; [done|]. unfold is_separator in Hs. cbn [sanitize_chars].
    rewrite Hf, IH. by destruct (c =? CR), (c =? 0x2028), (c =? 0x2029).
Qed.

(** A [&str]: bytes that are valid UTF-8. *)
Definition is_str (s : bytes) : Prop := bytes_ok s /\ utf8_valid s = true.

Lemma is_str_chars s : is_str s -> exists cs, utf8_decode s = Some cs /\ utf8_encode cs = s /\ Forall is_scalar cs.
Proof.
  intros [Hb (cs & Hd)%utf8_valid_Some]. destruct (utf8_encode_decode s cs Hd Hb) as [He Hs]. eauto.
Qed.

Lemma utf8_encode_nil cs : utf8_encode cs = [] <-> cs = [].
Proof.
  split; [|by intros ->]. destruct cs as [|c cs]; [done|]. rewrite utf8_encode_cons.
  intros [H _]%app_eq_nil. by apply utf8_encode_char_nonempty in H.
Qed.

(** The characters of the sanitized text. *)
Lemma sanitize_decode s cs :
  bytes_ok s -> utf8_decode s = Some cs ->
  sanitize_clipboard_text s = utf8_encode (clean_chars cs) /\
  utf8_decode (sanitize_clipboard_text s) = Some (clean_chars cs) /\ blen (sanitize_clipboard_text s) <= blen s.
Proof.
  intros Hb Hd. destruct (utf8_encode_decode s cs Hd Hb) as [He Hs].
  unfold sanitize_clipboard_text. rewrite Hd. cbn [default from_option].
  change (id cs) with cs. split; [by rewrite sanitize_chars_clean|]. split.
  - rewrite utf8_decode_encode by by apply sanitize_chars_scalar. by rewrite sanitize_chars_clean.
  - rewrite <- He. apply sanitize_chars_size.
Qed.

(** The one-pass sanitizer is the filter its documentation describes, on every valid text: the
    characters of the result are those of the input with carriage returns and line separators
    turned into line feeds (the line feed of a CRLF dropped) and every other forbidden character
    removed, so none is left; text without forbidden characters is unchanged, a second pass
    changes nothing, and the result is valid UTF-8 that is not longer than the input.
    [sanitize_for_paste] gives nothing exactly when every character is one that is removed. *)
Lemma sanitizer_exact s cs :
  bytes_ok s -> utf8_decode s = Some cs ->
  let out := sanitize_clipboard_text s in
  utf8_decode out = Some (clean_chars cs) /\
  Forall (fun c => is_forbidden_in_paste_output c = false) (clean_chars cs) /\
  blen out <= blen s /\
  sanitize_clipboard_text out = out /\
  (Forall (fun c => is_forbidden_in_paste_output c = false) cs -> out = s) /\
  sanitize_for_paste s =
    (if forallb (fun c => is_forbidden_in_paste_output c && negb (is_separator c)) cs then None else Some out).
Proof.
  intros Hb Hd. destruct (sanitize_decode s cs Hb Hd) as (Ho & Hdo & Hl).
  pose proof (clean_chars_allowed cs) as Ha. split_and!; [done|done|done| | |].
  - unfold sanitize_clipboard_text at 1. rewrite Hdo. change (default [] (Some (clean_chars cs))) with (clean_chars cs).
    by rewrite sanitize_chars_id, Ho.
  - intros Hc. unfold sanitize_clipboard_text. rewrite Hd. change (default [] (Some cs)) with cs.
    rewrite sanitize_chars_id by done. by apply utf8_encode_decode.
  - unfold sanitize_for_paste.
    assert (bool_decide (sanitize_clipboard_text s = []) =
            forallb (fun c => is_forbidden_in_paste_output c && negb (is_separator c)) cs) as ->; [|done].
    apply eq_true_iff_eq.
    rewrite bool_decide_eq_true, Ho, utf8_encode_nil, clean_chars_nil, forallb_forall, List.Forall_forall.
    setoid_rewrite andb_true_iff. by setoid_rewrite negb_true_iff.
Qed.

Lemma sanitizer_exact_witness :
  let s := [0x6C; 0x73; 0x0D; 0x0A; 0x1B; 0x5B; 0xE2; 0x80; 0xAE; 0xC3; 0xA9] in
  sanitize_clipboard_text s = [0x6C; 0x73; 0x0A; 0x5B; 0xC3; 0xA9] /\
  sanitize_clipboard_text (sanitize_clipboard_text s) = sanitize_clipboard_text s.
Proof.
  split; [reflexivity|].
  exact (proj1 (proj2 (proj2 (proj2 (sanitizer_exact [0x6C; 0x73; 0x0D; 0x0A; 0x1B; 0x5B; 0xE2; 0x80; 0xAE; 0xC3; 0xA9]
    [0x6C; 0x73; 0x0D; 0x0A; 0x1B; 0x5B; 0x202E; 0xE9] ltac:(by apply bytes_okb_ok) eq_refl))))).
Defined.
