(* ===== verification/InputCore.v ===== *)
(** * Input injection: the portable part (crates/sh-input)

    error.rs, the trait [InputInjector] of injector.rs as a class with the instances of noop.rs
    and recording.rs, the mapping of normalized pointer coordinates to pixels of coord.rs, and
    the token bucket of rate_limiter.rs, in the [f64] arithmetic the code uses. *)

From stdpp Require Import base numbers list option strings.
From S2P Require Import Prelude ShpMessages Float64.

Inductive InputError :=
| ZeroSizeAxis (width height : Z)
| InputUnsupported (reason : string)
| InputBackend (msg : bytes).

(** ** injector.rs, noop.rs, recording.rs *)

Definition DEFINED_BUTTON_BITS : Z := 0x07.

(** [release_all] is a no-op unless the injector overrides it. *)
Class InputInjector (I : Type) := {
  inject : I -> InputEvent.t -> I * result InputError unit;
  release_all : I -> I;
}.

Inductive NoopInjector := NoopInj.

#[export] Instance noop_injector : InputInjector NoopInjector := {
  inject i _ := (i, Ok tt);
  release_all i := i;
}.

Record RecordingInjector := { rec_events : list InputEvent.t }.

Definition recording_injector_new : RecordingInjector := {| rec_events := [] |}.

Definition recording_injector_clear (i : RecordingInjector) : RecordingInjector := {| rec_events := [] |}.

#[export] Instance recording_injector : InputInjector RecordingInjector := {
  inject i e := ({| rec_events := rec_events i ++ [e] |}, Ok tt);
  release_all i := i;
}.

(** ** coord.rs *)

Definition i32_max : Z := 2147483647.
Definition i32_min : Z := -2147483648.
Definition i32_sat_add (a b : Z) : Z := Z.max i32_min (Z.min i32_max (a + b)).

Record TargetRect := { origin_x : Z; origin_y : Z; width : Z; height : Z }.
Record MappedPoint := { px : Z; py : Z }.
Record CoordMapper := { rect : TargetRect }.

Definition target_rect_new (ox oy w h : Z) : result InputError TargetRect :=
  if (w =? 0) || (h =? 0) then Err (ZeroSizeAxis w h)
  else Ok {| origin_x := ox; origin_y := oy; width := w; height := h |}.

Definition coord_mapper_new (r : TargetRect) : result InputError CoordMapper :=
  if (width r =? 0) || (height r =? 0) then Err (ZeroSizeAxis (width r) (height r))
  else Ok {| rect := r |}.

Definition map_axis (norm extent : Z) : Z :=
  if extent =? 1 then 0 else
  let offset := (norm * (extent - 1) + 32767) / 65535 in
  if offset <=? i32_max then offset else i32_max.

Definition coord_map (m : CoordMapper) (norm_x norm_y : Z) : MappedPoint :=
  {| px := i32_sat_add (origin_x (rect m)) (map_axis norm_x (width (rect m)));
     py := i32_sat_add (origin_y (rect m)) (map_axis norm_y (height (rect m))) |}.

(** A rectangle of machine integers. *)
Definition rect_ok (r : TargetRect) : Prop :=
  i32_min <= origin_x r <= i32_max /\ i32_min <= origin_y r <= i32_max /\
  is_u32 (width r) /\ is_u32 (height r).

Lemma rounded_offset norm e : 0 <= norm <= 65535 -> 0 <= e ->
  let o := (norm * e + 32767) / 65535 in
  0 <= o <= e /\ Z.abs (65535 * o - norm * e) <= 32767.
Proof. intros Hn He. cbn zeta. assert (0 <= norm * e <= 65535 * e) by nia. Z.div_mod_to_equations. lia. Qed.

(** The offset on an axis: inside the extent, the nearest pixel wherever an [i32] reaches. *)
Lemma map_axis_spec norm extent : 0 <= norm <= 65535 -> 1 <= extent ->
  let o := map_axis norm extent in
  0 <= o <= Z.min (extent - 1) i32_max /\
  (extent - 1 <= i32_max -> Z.abs (65535 * o - norm * (extent - 1)) <= 32767).
Proof.
  intros Hn He. unfold map_axis. destruct (extent =? 1) eqn:E; simplify_bool.
  - subst. cbn. unfold i32_max. lia.
  - pose proof (rounded_offset norm (extent - 1) Hn ltac:(lia)) as Hr. cbn zeta in *.
    destruct (_ <=? i32_max) eqn:Eo; simplify_bool; [lia|]. unfold i32_max in *. lia.
Qed.

Lemma map_axis_mono n n' extent : 0 <= n <= n' -> n' <= 65535 -> 1 <= extent -> map_axis n extent <= map_axis n' extent.
Proof.
  intros Hn Hn' He. unfold map_axis. destruct (extent =? 1); [done|].
  assert ((n * (extent - 1) + 32767) / 65535 <= (n' * (extent - 1) + 32767) / 65535) by (apply Z.div_le_mono; nia).
  destruct (_ <=? i32_max) eqn:E1, ((n' * (extent - 1) + 32767) / 65535 <=? i32_max) eqn:E2; simplify_bool; lia.
Qed.

(** Every pixel of an extent of at most [2^16] is hit: by the coordinate nearest to it. *)
Lemma map_axis_onto o extent : 1 <= extent <= 65536 -> 0 <= o < extent ->
  exists norm, 0 <= norm <= 65535 /\ map_axis norm extent = o.
Proof.
  intros He Ho. unfold map_axis. destruct (extent =? 1) eqn:E; simplify_bool; [exists 0; lia|].
  set (e := extent - 1). exists ((65535 * o + e / 2) / e).
  assert (0 <= (65535 * o + e / 2) / e <= 65535) as Hr.
  { split; [apply Z.div_pos; [|lia]; pose proof (Z.div_pos e 2); lia|].
    apply Z.lt_succ_r. apply Z.div_lt_upper_bound; [lia|]. pose proof (Z.div_lt e 2). nia. }
  split; [done|].
  assert ((((65535 * o + e / 2) / e) * e + 32767) / 65535 = o) as ->.
  { pose proof (Z.div_mod (65535 * o + e / 2) e ltac:(lia)) as Hd.
    pose proof (Z.mod_pos_bound (65535 * o + e / 2) e ltac:(lia)) as Hm.
    pose proof (Z.div_mod e 2 ltac:(lia)). pose proof (Z.mod_pos_bound e 2 ltac:(lia)).
    symmetry. apply (Z.div_unique_pos _ _ _ (((65535 * o + e / 2) / e) * e + 32767 - 65535 * o)); [|lia]. lia. }
  unfold i32_max. rewrite (proj2 (Z.leb_le _ _)) by lia. done.
Qed.

(** The documented middle value holds up to [2^16] pixels, and not beyond. *)
Lemma map_axis_center extent : 1 <= extent <= 65536 -> map_axis 32767 extent = (extent - 1) / 2.
Proof.
  intros He. unfold map_axis, i32_max. destruct (extent =? 1) eqn:E; simplify_bool; [by subst|].
  rewrite (proj2 (Z.leb_le _ _)); Z.div_mod_to_equations; lia.
Qed.

Lemma map_axis_center_large : map_axis 32767 65537 = 32767 /\ (65537 - 1) / 2 = 32768.
Proof. split; reflexivity. Qed.

(** What a mapping of one axis promises: inside the extent and monotone; and, where the last pixel
    is an [i32], the ends map to the ends, every value to a nearest pixel, and every pixel of an
    extent of at most 65536 is reached. *)
Definition axis_exact (origin extent : Z) (f : Z -> Z) : Prop :=
  (forall n, is_u16 n -> origin <= f n <= origin + extent - 1) /\
  (forall n n', is_u16 n -> is_u16 n' -> n <= n' -> f n <= f n') /\
  (Z.max origin 0 + extent - 1 <= i32_max ->
     f 0 = origin /\ f 65535 = origin + extent - 1 /\
     (forall n, is_u16 n -> Z.abs (65535 * (f n - origin) - n * (extent - 1)) <= 32767) /\
     (extent <= 65536 -> forall x, origin <= x < origin + extent -> exists n, is_u16 n /\ f n = x)).

Lemma map_axis_exact origin extent : i32_min <= origin <= i32_max -> 1 <= extent ->
  axis_exact origin extent (fun n => i32_sat_add origin (map_axis n extent)).
Proof.
  intros Ho He. unfold axis_exact, is_u16, i32_sat_add.
  assert (forall n, 0 <= n <= 65535 -> _) as Hs by exact (fun n Hn => map_axis_spec n extent Hn He).
  cbn zeta in Hs. unfold i32_min, i32_max in *. split_and!.
  - intros n Hn. specialize (Hs n ltac:(lia)). lia.
  - intros n n' Hn Hn' Hle. pose proof (map_axis_mono n n' extent). lia.
  - intros Hend. split_and!; [specialize (Hs 0)|specialize (Hs 65535)| |]; [lia|lia| |].
    + intros n Hn. specialize (Hs n ltac:(lia)). lia.
    + intros H16 x Hx. destruct (map_axis_onto (x - origin) extent) as (n & Hn & Hm); [lia|lia|].
      exists n. rewrite Hm. lia.
Qed.

(** Every normalized position maps into the target rectangle, whatever its origin and size, and
    the mapping is monotone on each axis.  Where the rectangle's last pixel is an [i32], the
    corners map to the corners and every position maps to a nearest pixel; on an axis of at most
    65536 pixels every pixel can be reached.  A rectangle is refused exactly when an axis is
    empty. *)
Lemma pointer_mapping r : rect_ok r ->
  match coord_mapper_new r with
  | Ok m => 
      (forall nx ny ny', px (coord_map m nx ny) = px (coord_map m nx ny')) /\
      (forall nx nx' ny, py (coord_map m nx ny) = py (coord_map m nx' ny)) /\
      axis_exact (origin_x r) (width r) (fun nx => px (coord_map m nx 0)) /\
      axis_exact (origin_y r) (height r) (fun ny => py (coord_map m 0 ny))
  | Err e => e = ZeroSizeAxis (width r) (height r) /\ (width r = 0 \/ height r = 0)
  end.
Proof.
  intros (Hox & Hoy & Hw & Hh). unfold coord_mapper_new, is_u32 in *.
  destruct (_ || (height r =? 0)) eqn:E0.
  - split; [done|]. apply orb_true_iff in E0 as [?%Z.eqb_eq|?%Z.eqb_eq]; auto.
  - simplify_bool. split_and!; [done|done| |]; apply map_axis_exact; lia.
Qed.

Lemma pointer_mapping_witness :
  axis_exact (-1920) 1920
    (fun nx => px (coord_map {| rect := {| origin_x := -1920; origin_y := 0; width := 1920; height := 1080 |} |} nx 0)).
Proof.
  pose proof (pointer_mapping {| origin_x := -1920; origin_y := 0; width := 1920; height := 1080 |}) as H.
  apply H. unfold rect_ok; cbn; unfold i32_min, i32_max, is_u32; lia.
Defined.

(** ** rate_limiter.rs *)

Record RateLimiter := { rl_capacity : f64; refill_per_sec : f64; rl_tokens : f64; rl_last : option Z }.

Definition rate_limiter_new (refill burst : Z) : RateLimiter :=
  let capacity := f_of_Z (Z.max burst 1) in
  {| rl_capacity := capacity; refill_per_sec := f_of_Z refill; rl_tokens := capacity; rl_last := None |}.

(** The refill for the time since the last call. *)
Definition limiter_refill (l : RateLimiter) (now : Z) : RateLimiter :=
  match rl_last l with
  | Some last =>
      let elapsed := as_secs_f64 (saturating_duration_since now last) in
      let refilled := f_add (rl_tokens l) (f_mul elapsed (refill_per_sec l)) in
      {| rl_capacity := rl_capacity l; refill_per_sec := refill_per_sec l;
         rl_tokens := f_min refilled (rl_capacity l); rl_last := Some (Z.max last now) |}
  | None =>
      {| rl_capacity := rl_capacity l; refill_per_sec := refill_per_sec l;
         rl_tokens := rl_tokens l; rl_last := Some now |}
  end.

Definition allow (l : RateLimiter) (now : Z) : RateLimiter * bool :=
  let l := limiter_refill l now in
  if f_le f_one (rl_tokens l)
  then ({| rl_capacity := rl_capacity l; refill_per_sec := refill_per_sec l;
           rl_tokens := f_sub (rl_tokens l) f_one; rl_last := rl_last l |}, true)
  else (l, false).
