(* ===== verification/RateLimit.v ===== *)
(** * The rate the token bucket of rate_limiter.rs really allows

    The bucket counts in [f64].  With [g] fraction bits (as many as the capacity leaves room for),
    every refill adds at most the exact amount plus three units of [2^-g] tokens, and taking a
    token is exact; so the number of admitted calls is bounded by the burst, the rate times the
    elapsed time, and three such units per call. *)

From Stdlib Require Import SpecFloat.
From stdpp Require Import base numbers list option.
From S2P Require Import Prelude Float64 FloatOrder InputCore.

(** The calls of [allow] at given times, and how many are admitted. *)
Fixpoint allow_run (l : RateLimiter) (ts : list Z) : RateLimiter * Z :=
  match ts with
  | [] => (l, 0)
  | t :: ts =>
      let '(l, a) := allow l t in
      let '(l, n) := allow_run l ts in
      (l, (if a then 1 else 0) + n)
  end.

(** ** Representable grids *)

Lemma rep_grid c k : 0 <= c < 2 ^ 53 -> 0 <= k <= 1474 -> rep (c * 2 ^ k).
Proof. intros Hc Hk. by exists c, k. Qed.

Lemma rep_pow k : 0 <= k <= 1474 -> rep (2 ^ k).
Proof. intros Hk. rewrite <- (Z.mul_1_l (2 ^ k)). apply rep_grid; lia. Qed.

Definition ceil_div (a b : Z) : Z := (a + b - 1) / b.

Lemma ceil_div_spec a b : 0 < b -> a <= b * ceil_div a b < a + b.
Proof. intros Hb. unfold ceil_div. Z.div_mod_to_equations. nia. Qed.

Lemma nanos_f64 : f_of_Z NANOS_PER_SEC = S754_finite false 8388608000000000 (-23).
Proof. reflexivity. Qed.

(** The value of an integer. *)
Lemma of_Z_bound z : 0 <= z < 2 ^ 53 -> fin_le (f_of_Z z) (z * 2 ^ 1074).
Proof. intros Hz. apply fin_le_of_Z; [apply rep_grid; lia|lia|lia]. Qed.

(** Seconds on the grid of [2^-h]: one rounding up. *)
Lemma as_secs_grid el h : 0 <= el -> 0 <= h <= 1074 -> ceil_div (el * 2 ^ h) NANOS_PER_SEC < 2 ^ 53 -> el / NANOS_PER_SEC < 2 ^ 53 ->
  fin_le (as_secs_f64 el) (ceil_div (el * 2 ^ h) NANOS_PER_SEC * 2 ^ (1074 - h)).
Proof.
  intros Hel Hh Hc Hq. unfold as_secs_f64. set (q := el / NANOS_PER_SEC) in *. set (r := el mod NANOS_PER_SEC).
  assert (el = NANOS_PER_SEC * q + r) as Hqr by (apply Z.div_mod; done).
  assert (0 <= r < NANOS_PER_SEC) as Hr by (apply Z.mod_pos_bound; done).
  assert (0 <= q) as Hq0 by (apply Z.div_pos; done). pose proof (Z.pow_pos_nonneg 2 h) as Hp.
  assert (ceil_div (el * 2 ^ h) NANOS_PER_SEC = q * 2 ^ h + ceil_div (r * 2 ^ h) NANOS_PER_SEC) as Hs.
  { unfold ceil_div. rewrite Hqr. replace ((NANOS_PER_SEC * q + r) * 2 ^ h + NANOS_PER_SEC - 1)
      with (r * 2 ^ h + NANOS_PER_SEC - 1 + (q * 2 ^ h) * NANOS_PER_SEC) by ring. rewrite Z.div_add by done. lia. }
  pose proof (ceil_div_spec (r * 2 ^ h) NANOS_PER_SEC ltac:(done)) as Hcr. unfold NANOS_PER_SEC in Hcr, Hr.
  assert (0 <= ceil_div (r * 2 ^ h) NANOS_PER_SEC) as Hcr0 by (unfold NANOS_PER_SEC; nia).
  assert (2 ^ h * 2 ^ (1074 - h) = 2 ^ 1074) as HU by (rewrite <- Z.pow_add_r by lia; f_equal; lia).
  apply (fin_le_add _ _ (q * 2 ^ 1074) (ceil_div (r * 2 ^ h) NANOS_PER_SEC * 2 ^ (1074 - h))).
  - apply rep_grid; lia.
  - apply rep_grid; nia || lia.
  - apply rep_grid; [|lia]. rewrite Hs in *. nia.
  - apply of_Z_bound. lia.
  - rewrite nanos_f64. apply (fin_le_div _ _ _ (r * 2 ^ 1074)); [apply rep_grid; lia|apply rep_grid; nia || lia|apply of_Z_bound; lia|lia|].
    change (Zpos 8388608000000000 * 2 ^ (-23 + 1074)) with (1000000000 * 2 ^ 1074).
    pose proof (Z.pow_pos_nonneg 2 (1074 - h)). unfold NANOS_PER_SEC in *. rewrite <- HU at 1. nia.
  - rewrite Hs. rewrite <- HU. nia.
Qed.

(** Coarse bounds for any time an [Instant] can measure. *)
Lemma as_secs_coarse el : 0 <= el < 2 ^ 64 * NANOS_PER_SEC -> fin_le (as_secs_f64 el) (2 ^ 1139).
Proof.
  intros Hel. unfold as_secs_f64. assert (0 <= el mod NANOS_PER_SEC < NANOS_PER_SEC) as Hr by (apply Z.mod_pos_bound; done).
  assert (0 <= el / NANOS_PER_SEC < 2 ^ 64) as Hq. { split; [apply Z.div_pos; [lia|done]|]. apply Z.div_lt_upper_bound; [done|lia]. }
  apply (fin_le_add _ _ (2 ^ 1138) (2 ^ 1138)); try (apply rep_pow; lia).
  - apply fin_le_of_Z; [apply rep_pow; lia|lia|]. change (2 ^ 1138) with (2 ^ 64 * 2 ^ 1074). apply Z.mul_le_mono_nonneg_r; [by apply Z.pow_nonneg|lia].
  - rewrite nanos_f64. apply (fin_le_div _ _ _ (NANOS_PER_SEC * 2 ^ 1074)); [by apply rep_grid|apply rep_pow; lia| |lia|].
    + eapply fin_le_mono; [|apply of_Z_bound; unfold NANOS_PER_SEC in *; lia]. apply Z.mul_le_mono_nonneg_r; [by apply Z.pow_nonneg|lia].
    + vm_compute. done.
  - vm_compute. done.
Qed.

(** ** One refill *)

Section Bucket.
Context (cap rate g : Z).
Context (Hcap : 1 <= cap < 2 ^ 32) (Hrate : 0 <= rate < 2 ^ 32) (Hg : 0 <= g) (Hroom : cap * 2 ^ g < 2 ^ 51).

Lemma g_small : g <= 51.
Proof.
  destruct (Z.le_gt_cases g 51); [done|]. pose proof (Z.pow_le_mono_r 2 52 g). pose proof (Z.pow_pos_nonneg 2 g). nia.
Qed.

Lemma unit_grid : 2 ^ g * 2 ^ (1074 - g) = 2 ^ 1074.
Proof. pose proof g_small. rewrite <- Z.pow_add_r by lia. f_equal. lia. Qed.

(** The refill of [el] nanoseconds, on the grid: at most three units above the exact amount, when
    that is at most the capacity. *)
Lemma refill_grid el : 0 <= el -> 0 < rate -> el * rate <= cap * NANOS_PER_SEC ->
  exists c, 0 <= c /\ NANOS_PER_SEC * c <= el * rate * 2 ^ g + 3 * NANOS_PER_SEC /\
    fin_le (f_mul (as_secs_f64 el) (f_of_Z rate)) (c * 2 ^ (1074 - g)).
Proof.
  intros Hel Hr0 Hsmall. pose proof g_small as Hg51. pose proof (digits_pos_bound rate Hr0) as [L U].
  assert (1 <= Zdigits2 rate) as Hd1 by (destruct rate; cbn in *; lia).
  assert (Zdigits2 rate <= 32) as Hd32. { change 32 with (Zdigits2 (2 ^ 32 - 1)). apply digits_mono. lia. }
  set (w := Zdigits2 rate - 1) in *. set (h := g + w). 
  pose proof (Z.pow_pos_nonneg 2 w ltac:(lia) ltac:(lia)) as Hw. pose proof (Z.pow_pos_nonneg 2 g ltac:(lia) Hg) as Hpg.
  assert (2 ^ h = 2 ^ g * 2 ^ w) as Hh by (apply Z.pow_add_r; lia).
  assert (rate < 2 * 2 ^ w) as Hu. { rewrite <- Z.pow_succ_r by lia. replace (Z.succ w) with (Zdigits2 rate) by lia. done. }
  set (c2 := ceil_div (el * 2 ^ h) NANOS_PER_SEC). pose proof (ceil_div_spec (el * 2 ^ h) NANOS_PER_SEC ltac:(done)) as H2. fold c2 in H2.
  set (c3 := ceil_div (c2 * rate) (2 ^ w)). pose proof (ceil_div_spec (c2 * rate) (2 ^ w) Hw) as H3. fold c3 in H3.
  assert (el * 2 ^ w <= cap * NANOS_PER_SEC) as Hew by nia.
  assert (NANOS_PER_SEC * c2 < cap * 2 ^ g * NANOS_PER_SEC + NANOS_PER_SEC) as H2' by (rewrite Hh in H2; nia).
  unfold NANOS_PER_SEC in *.
  assert (0 <= c2 <= 2 ^ 52) as Hc2. { split; [|lia]. assert (0 <= el * 2 ^ h) by nia. lia. }
  assert (0 <= c3) as Hc3 by (assert (0 <= c2 * rate) by nia; nia).
  exists c3. split; [done|]. assert (1000000000 * c3 * 2 ^ w <= (el * rate * 2 ^ g + 3000000000) * 2 ^ w) as Hk.
  { rewrite Hh in H2. nia. }
  split; [nia|].
  assert (c3 < 2 ^ 53) as Hc3'. { assert (1000000000 * c3 <= (cap * 2 ^ g + 3) * 1000000000) by nia. lia. }
  apply (fin_le_mul _ _ (c2 * 2 ^ (1074 - h)) (rate * 2 ^ 1074)).
  - apply rep_grid; lia.
  - apply rep_grid; lia.
  - apply rep_grid; lia.
  - apply as_secs_grid; [lia|lia|unfold NANOS_PER_SEC; fold c2; lia|].
    apply Z.div_lt_upper_bound; [done|]. unfold NANOS_PER_SEC. nia.
  - apply of_Z_bound. lia.
  - replace (c2 * 2 ^ (1074 - h) * (rate * 2 ^ 1074)) with (c2 * rate * 2 ^ (1074 - h) * 2 ^ 1074) by ring.
    apply Z.mul_le_mono_nonneg_r; [by apply Z.pow_nonneg|].
    replace (1074 - g) with (w + (1074 - h)) by (unfold h; lia). rewrite Z.pow_add_r by lia. rewrite Z.mul_assoc.
    apply Z.mul_le_mono_nonneg_r; [apply Z.pow_nonneg; lia|]. lia.
Qed.

Lemma refill_coarse el : 0 <= el < 2 ^ 64 * NANOS_PER_SEC -> fin_le (f_mul (as_secs_f64 el) (f_of_Z rate)) (2 ^ 1172).
Proof.
  intros Hel. apply (fin_le_mul _ _ (2 ^ 1139) (2 ^ 1107)); try (apply rep_pow; lia).
  - by apply as_secs_coarse.
  - eapply fin_le_mono; [|apply of_Z_bound; lia]. change (2 ^ 1107) with (2 ^ 33 * 2 ^ 1074).
    apply Z.mul_le_mono_nonneg_r; [by apply Z.pow_nonneg|lia].
  - vm_compute. done.
Qed.

(** The tokens are at most [tau] units of [2^-g]. *)
Record bucket_inv (l : RateLimiter) (tau : Z) : Prop := {
  bi_capacity : rl_capacity l = f_of_Z cap;
  bi_rate : refill_per_sec l = f_of_Z rate;
  bi_tokens : fin_le (rl_tokens l) (tau * 2 ^ (1074 - g));
  bi_canonical : canonical (rl_tokens l);
  bi_range : 0 <= tau <= cap * 2 ^ g;
}.

Lemma cap_grid : cap * 2 ^ 1074 = cap * 2 ^ g * 2 ^ (1074 - g).
Proof. rewrite <- unit_grid. ring. Qed.

(** Adding a refill and capping it. *)
Lemma refill_capped l tau add c : bucket_inv l tau -> canonical add -> fin_le add (c * 2 ^ (1074 - g)) -> 0 <= c <= cap * 2 ^ g + 3 ->
  let x := f_min (f_add (rl_tokens l) add) (f_of_Z cap) in
  fin_le x (Z.min (tau + c) (cap * 2 ^ g) * 2 ^ (1074 - g)) /\ canonical x.
Proof.
  intros [_ _ Ht Hc Hr] Ca Ha Hcc. cbn zeta. pose proof g_small.
  assert (fin_le (f_add (rl_tokens l) add) ((tau + c) * 2 ^ (1074 - g))) as Hs.
  { apply (fin_le_add _ _ (tau * 2 ^ (1074 - g)) (c * 2 ^ (1074 - g))); try done; try (apply rep_grid; lia). lia. }
  destruct (f_min_fval _ (f_of_Z cap) _ (cap * 2 ^ 1074) Hs) as (_ & Hm & Cm); [apply of_Z_bound; lia|auto with canon|auto with canon|].
  split; [|done]. eapply fin_le_mono; [|exact Hm]. rewrite cap_grid. pose proof (Z.pow_pos_nonneg 2 (1074 - g)).
  rewrite <- Z.mul_min_distr_nonneg_r by lia. done.
Qed.

Lemma refill_inv l tau last now : bucket_inv l tau -> rl_last l = Some last -> now - last < 2 ^ 64 * NANOS_PER_SEC ->
  exists tau', bucket_inv (limiter_refill l now) tau' /\ rl_last (limiter_refill l now) = Some (Z.max last now) /\
    NANOS_PER_SEC * tau' <= NANOS_PER_SEC * tau + (Z.max last now - last) * rate * 2 ^ g + 3 * NANOS_PER_SEC.
Proof.
  intros Hl Hlast Hnow. pose proof Hl as [E1 E2 Ht Hc Hr]. unfold limiter_refill, saturating_duration_since. rewrite Hlast, E1, E2.
  set (el := Z.max 0 (now - last)). replace (Z.max last now - last) with el by lia.
  assert (0 <= el < 2 ^ 64 * NANOS_PER_SEC) as Hel by (unfold NANOS_PER_SEC in *; lia).
  set (add := f_mul (as_secs_f64 el) (f_of_Z rate)). assert (canonical add) as Ca by (unfold add; auto with canon).
  pose proof (Z.pow_pos_nonneg 2 g ltac:(lia) Hg) as Hpg. pose proof g_small.
  destruct (Z.le_gt_cases (el * rate) (cap * NANOS_PER_SEC)) as [Hs|Hs].
  - assert (exists c, 0 <= c /\ NANOS_PER_SEC * c <= el * rate * 2 ^ g + 3 * NANOS_PER_SEC /\ fin_le add (c * 2 ^ (1074 - g))) as (c & C0 & C1 & C2).
    { destruct (Z.eq_dec rate 0) as [E0|]; [|apply refill_grid; lia]. exists 0. split; [done|]. split; [unfold NANOS_PER_SEC; nia|].
      unfold add. rewrite E0. apply (fin_le_mul _ _ (2 ^ 1139) 0 (0 * 2 ^ (1074 - g))); [by apply rep_pow|by apply (rep_grid 0 0)|apply rep_grid; lia|by apply as_secs_coarse|done|lia]. }
    assert (c <= cap * 2 ^ g + 3) as C3 by (unfold NANOS_PER_SEC in *; nia).
    destruct (refill_capped l tau add c Hl Ca C2) as [F1 F2]; [lia|].
    exists (Z.min (tau + c) (cap * 2 ^ g)). split; [split; cbn; auto; nia|]. split; [done|]. unfold NANOS_PER_SEC in *. lia.
  - exists (cap * 2 ^ g). split; [|split; [done|unfold NANOS_PER_SEC in *; nia]].
    destruct (f_min_fval (f_add (rl_tokens l) add) (f_of_Z cap) (2 ^ 1173) (cap * 2 ^ 1074)) as (_ & F1 & F2); auto with canon; [|apply of_Z_bound; lia|].
    + apply (fin_le_add _ _ (2 ^ 1172) (2 ^ 1172)); try (apply rep_pow; lia); [|by apply refill_coarse|by vm_compute].
      eapply fin_le_mono; [|exact Ht]. etrans; [apply Z.mul_le_mono_nonneg_r; [apply Z.pow_nonneg; lia|apply Hr]|].
      rewrite <- cap_grid. change (2 ^ 1172) with (2 ^ 98 * 2 ^ 1074). apply Z.mul_le_mono_nonneg_r; [by apply Z.pow_nonneg|lia].
    + split; cbn; auto; [|nia]. eapply fin_le_mono; [|exact F1]. rewrite cap_grid. lia.
Qed.

(** Taking a token. *)
Lemma take_inv l tau : bucket_inv l tau -> f_le f_one (rl_tokens l) = true ->
  bucket_inv {| rl_capacity := rl_capacity l; refill_per_sec := refill_per_sec l;
                rl_tokens := f_sub (rl_tokens l) f_one; rl_last := rl_last l |} (tau - 2 ^ g).
Proof.
  intros [E1 E2 Ht Hc Hr] Hle. assert (canonical f_one) as C1 by apply f_of_Z_canonical.
  assert (fin_le f_one (2 ^ 1074)) as F1 by (apply (of_Z_bound 1); lia).
  rewrite (f_le_fval f_one _ (2 ^ 1074) _ F1 Ht C1 Hc) in Hle. apply Z.leb_le in Hle.
  change (fval f_one) with (2 ^ 1074) in Hle. destruct (fin_le_fval _ _ Ht) as [_ [_ Hv]].
  pose proof unit_grid as HU. pose proof g_small. pose proof (Z.pow_pos_nonneg 2 (1074 - g) ltac:(lia) ltac:(lia)) as HG.
  assert (2 ^ g <= tau) as Hlow. { apply (Z.mul_le_mono_pos_r _ _ (2 ^ (1074 - g))); lia. }
  split; cbn; auto; [| |lia].
  - eapply fin_le_mono; [|eapply (f_sub_one _ _ Ht Hc)]; [lia|]. split; [done|].
    eapply Z.le_lt_trans; [apply Hv|]. eapply Z.le_lt_trans; [apply Z.mul_le_mono_nonneg_r; [lia|apply Hr]|].
    rewrite <- cap_grid. change (2 ^ 1127) with (2 ^ 53 * 2 ^ 1074). apply Z.mul_lt_mono_pos_r; [by apply Z.pow_pos_nonneg|lia].
  - apply f_sub_canonical; done.
Qed.

Lemma allow_inv l tau last now l' a : bucket_inv l tau -> rl_last l = Some last -> now - last < 2 ^ 64 * NANOS_PER_SEC ->
  allow l now = (l', a) ->
  exists tau', bucket_inv l' tau' /\ rl_last l' = Some (Z.max last now) /\
    NANOS_PER_SEC * (tau' + (if a then 2 ^ g else 0)) <=
      NANOS_PER_SEC * tau + (Z.max last now - last) * rate * 2 ^ g + 3 * NANOS_PER_SEC.
Proof.
  intros Hl Hlast Hnow. unfold allow. destruct (refill_inv l tau last now Hl Hlast Hnow) as (t1 & I1 & L1 & B1).
  destruct (f_le f_one _) eqn:Ef; intros [= <- <-].
  - exists (t1 - 2 ^ g). split; [by apply take_inv|]. split; [done|]. lia.
  - exists t1. split; [done|]. split; [done|]. lia.
Qed.

Lemma allow_run_bound T l tau last ts : bucket_inv l tau -> rl_last l = Some last -> last <= T ->
  Forall (fun t => t <= T /\ 0 <= t) ts -> 0 <= last -> T < 2 ^ 64 * NANOS_PER_SEC ->
  NANOS_PER_SEC * 2 ^ g * snd (allow_run l ts) <=
    NANOS_PER_SEC * tau + (T - last) * rate * 2 ^ g + 3 * NANOS_PER_SEC * Z.of_nat (length ts).
Proof.
  intros Hl Hlast HT Hts H0 Hmax. revert l tau last Hl Hlast HT H0. pose proof (Z.pow_pos_nonneg 2 g ltac:(lia) Hg) as Hpg.
  induction Hts as [|t ts [Ht Ht0] _ IH]; intros l tau last Hl Hlast HT H0; cbn [allow_run snd length].
  { pose proof (bi_range _ _ Hl) as [Hr _]. assert (0 <= (T - last) * rate * 2 ^ g) by (repeat apply Z.mul_nonneg_nonneg; lia).
    unfold NANOS_PER_SEC. lia. }
  destruct (allow l t) as [l1 a] eqn:Ea. destruct (allow_inv l tau last t l1 a Hl Hlast ltac:(lia) Ea) as (t1 & I1 & L1 & B1).
  specialize (IH l1 t1 (Z.max last t) I1 L1 ltac:(lia) ltac:(lia)). destruct (allow_run l1 ts) as [l2 n]. cbn [snd] in *.
  rewrite Nat2Z.inj_succ. unfold NANOS_PER_SEC in *. destruct a; lia.
Qed.

End Bucket.

(** However often and whenever it is asked, the bucket admits no more than its burst plus the rate
    times the elapsed time, in spite of its floating-point arithmetic: with [g] the fraction bits
    that the burst leaves room for below 51 bits, the excess is below three parts in [2^g] of a
    call per call.  (For the host's burst of 120, [g = 44]: less than one call in five million
    million.) *)
Lemma rate_limiter_caps rate burst g t0 ts T :
  is_u32 rate -> is_u32 burst -> 0 <= g -> Z.max burst 1 * 2 ^ g < 2 ^ 51 ->
  Forall (fun t => 0 <= t <= T) (t0 :: ts) -> T < 2 ^ 64 * NANOS_PER_SEC ->
  NANOS_PER_SEC * 2 ^ g * snd (allow_run (rate_limiter_new rate burst) (t0 :: ts)) <=
    2 ^ g * (NANOS_PER_SEC * Z.max burst 1 + rate * (T - t0)) + 3 * NANOS_PER_SEC * Z.of_nat (length ts).
Proof.
  unfold is_u32. intros Hrate Hburst Hg Hroom Hts HT. apply Forall_cons_1 in Hts as [H0 Hts].
  set (cap := Z.max burst 1) in *. assert (1 <= cap < 2 ^ 32) as Hcap by lia.
  assert (bucket_inv cap rate g (limiter_refill (rate_limiter_new rate burst) t0) (cap * 2 ^ g)) as Hl.
  { split; cbn; [done|done| |apply f_of_Z_canonical|nia || lia]. rewrite <- (cap_grid cap g) by (done || lia). apply of_Z_bound. lia. }
  assert (rl_last (limiter_refill (rate_limiter_new rate burst) t0) = Some t0) as HL by done.
  cbn [allow_run]. unfold allow. set (l0 := limiter_refill _ _) in *.
  assert (forall l tau, bucket_inv cap rate g l tau -> rl_last l = Some t0 ->
    NANOS_PER_SEC * 2 ^ g * snd (allow_run l ts) <=
      NANOS_PER_SEC * tau + (T - t0) * rate * 2 ^ g + 3 * NANOS_PER_SEC * Z.of_nat (length ts)) as Hrun.
  { intros l tau I L. eapply (allow_run_bound cap rate g); [done|lia|done|done|exact I|exact L|lia| |lia|done].
    eapply list.Forall_impl; [exact Hts|]. cbn. lia. }
  destruct (f_le f_one (rl_tokens l0)) eqn:Ef.
  - pose proof (take_inv cap rate g Hcap Hg Hroom l0 _ Hl Ef) as Hl1. specialize (Hrun _ _ Hl1 HL).
    destruct (allow_run _ ts) as [l2 n]. cbn [snd] in *. unfold NANOS_PER_SEC in *. lia.
  - specialize (Hrun _ _ Hl HL). destruct (allow_run _ ts) as [l2 n]. cbn [snd] in *. unfold NANOS_PER_SEC in *. lia.
Qed.

(** The bucket is not merely closed: at one instant exactly the host's burst passes. *)
Lemma rate_limiter_at t : fst (allow (rate_limiter_new 500 120) t) =
  {| rl_capacity := f_of_Z 120; refill_per_sec := f_of_Z 500; rl_tokens := f_of_Z 119; rl_last := Some t |}.
Proof. vm_compute. reflexivity. Qed.

(** At the instant of the last call nothing is refilled. *)
Lemma allow_same_instant l t : rl_last l = Some t ->
  allow l t = let x := f_min (f_add (rl_tokens l) (f_mul f_zero (refill_per_sec l))) (rl_capacity l) in
              if f_le f_one x
              then ({| rl_capacity := rl_capacity l; refill_per_sec := refill_per_sec l; rl_tokens := f_sub x f_one; rl_last := Some t |}, true)
              else ({| rl_capacity := rl_capacity l; refill_per_sec := refill_per_sec l; rl_tokens := x; rl_last := Some t |}, false).
Proof.
  intros Hl. unfold allow, limiter_refill, saturating_duration_since. rewrite Hl, Z.sub_diag, !Z.max_id. change (as_secs_f64 0) with f_zero. done.
Qed.

(** The calls of one instant, without the time. *)
Fixpoint burst_count (n : nat) (cap rate tokens : f64) : Z :=
  match n with
  | O => 0
  | S n =>
      let x := f_min (f_add tokens (f_mul f_zero rate)) cap in
      if f_le f_one x then 1 + burst_count n cap rate (f_sub x f_one) else burst_count n cap rate x
  end.

Lemma allow_run_burst n l t : rl_last l = Some t ->
  snd (allow_run l (replicate n t)) = burst_count n (rl_capacity l) (refill_per_sec l) (rl_tokens l).
Proof.
  revert l. induction n as [|n IH]; intros l Hl; [done|]. cbn [replicate allow_run burst_count].
  rewrite (allow_same_instant l t Hl). cbn zeta. set (x := f_min _ _).
  destruct (f_le f_one x); match goal with |- context [allow_run ?l' (replicate n t)] =>
    pose proof (IH l' eq_refl) as E; destruct (allow_run l' (replicate n t)) end; cbn in *; lia.
Qed.

Lemma host_burst_any t : snd (allow_run (rate_limiter_new 500 120) (replicate 300 t)) = 120.
Proof.
  assert (burst_count 299 (f_of_Z 120) (f_of_Z 500) (f_of_Z 119) = 119) as Hb by (vm_compute; reflexivity).
  change (replicate 300 t) with (t :: replicate 299 t). cbn [allow_run]. pose proof (rate_limiter_at t) as H1.
  assert (snd (allow (rate_limiter_new 500 120) t) = true) as H2 by (vm_compute; reflexivity).
  destruct (allow _ t) as [l a]. cbn [fst snd] in H1, H2. subst.
  pose proof (allow_run_burst 299 {| rl_capacity := f_of_Z 120; refill_per_sec := f_of_Z 500; rl_tokens := f_of_Z 119;
    rl_last := Some t |} t eq_refl) as E. cbn [rl_capacity refill_per_sec rl_tokens] in E.
  destruct (allow_run _ (replicate 299 t)) as [l n]. cbn [snd] in *. rewrite Hb in E. lia.
Qed.
