(* ===== verification/Pacer.v ===== *)
(** * sh-adaptive: the file channel's token bucket

    [crates/sh-adaptive/src/pacer.rs], and the rate it really allows: like the input limiter of
    RateLimit.v it counts in [f64], with a fill rate that may change and requests of any size. *)

From Stdlib Require Import SpecFloat.
From stdpp Require Import base numbers list option.
From S2P Require Import Prelude Types Float64 FloatOrder InputCore RateLimit JsNumber.

Definition TOKEN_SLACK : f64 := f_lit 1 2.

Record TokenBucket := {
  fill_bytes_per_sec : f64;
  capacity_bytes : f64;
  tokens_bytes : f64;
}.

Definition bytes_per_sec (rate : Bitrate.t) : f64 := f_div (f_of_Z (Bitrate.bps rate)) (f_of_Z 8).

Definition bucket_new (rate : Bitrate.t) (burst : Z) : TokenBucket :=
  let fill := bytes_per_sec rate in
  let capacity := f_max (f_mul fill (as_secs_f64 burst)) f_zero in
  {| fill_bytes_per_sec := fill; capacity_bytes := capacity; tokens_bytes := capacity |}.

Definition set_rate (b : TokenBucket) (rate : Bitrate.t) (burst : Z) : TokenBucket :=
  let fill := bytes_per_sec rate in
  let capacity := f_max (f_mul fill (as_secs_f64 burst)) f_zero in
  {| fill_bytes_per_sec := fill; capacity_bytes := capacity;
     tokens_bytes := if f_lt capacity (tokens_bytes b) then capacity else tokens_bytes b |}.

Definition advance (b : TokenBucket) (elapsed : Z) : TokenBucket :=
  let added := f_mul (fill_bytes_per_sec b) (as_secs_f64 elapsed) in
  {| fill_bytes_per_sec := fill_bytes_per_sec b; capacity_bytes := capacity_bytes b;
     tokens_bytes := f_min (f_add (tokens_bytes b) added) (capacity_bytes b) |}.

Definition try_consume (b : TokenBucket) (bytes : Z) : TokenBucket * bool :=
  let want := f_of_Z bytes in
  if f_le want (f_add (tokens_bytes b) TOKEN_SLACK) then
    let tokens := f_sub (tokens_bytes b) want in
    ({| fill_bytes_per_sec := fill_bytes_per_sec b; capacity_bytes := capacity_bytes b;
        tokens_bytes := if f_lt tokens f_zero then f_zero else tokens |}, true)
  else (b, false).

Definition time_until (b : TokenBucket) (bytes : Z) : option Z :=
  let want := f_of_Z bytes in
  if f_le want (f_add (tokens_bytes b) TOKEN_SLACK) then Some 0 else
  if f_le (fill_bytes_per_sec b) f_zero || f_lt (f_add (capacity_bytes b) TOKEN_SLACK) want then None else
  let deficit := f_sub want (tokens_bytes b) in
  Some (default DURATION_MAX (try_from_secs_f64 (f_div deficit (fill_bytes_per_sec b)))).

(** ** The documented use, and where it stops working *)

(** Advancing by the reported wait makes a 16 KiB chunk available. *)
Lemma wait_then_consume :
  let b := fst (try_consume (bucket_new (Bitrate.from_mbps 8) (from_millis 50)) 50000) in
  exists wait, time_until b 16384 = Some wait /\ snd (try_consume b 16384) = false /\
    snd (try_consume (advance b wait) 16384) = true.
Proof. eexists. split; [vm_compute; reflexivity|]. split; vm_compute; reflexivity. Qed.

(** At 100 Gbit/s the wait for three bytes rounds to zero nanoseconds: a caller that waits the
    reported time and retries makes no progress. *)
Lemma zero_wait_without_tokens :
  let b := fst (try_consume (bucket_new (Bitrate.from_mbps 100000) (from_millis 10)) 125000000) in
  time_until b 3 = Some 0 /\ advance b 0 = b /\ snd (try_consume b 3) = false.
Proof. split; [vm_compute; reflexivity|]. split; vm_compute; reflexivity. Qed.

(** ** Subtraction, bounded *)

Lemma round_opp p e : binary_round 53 1024 true p e = SFopp (binary_round 53 1024 false p e).
Proof.
  unfold binary_round. destruct (shl_align p e _) as [mz ez]. unfold binary_round_aux.
  destruct (shr_fexp _ _ _ _ _) as [r e']. destruct (shr_fexp _ _ _ e' _) as [r2 e2]. destruct (shr_m r2); [done| |done].
  by destruct (e2 <=? _).
Qed.

(** A difference, cut off at zero, is at most any representable bound of the exact one. *)
Lemma f_sub_le x y Bx By B : rep By -> rep B -> fin_le x Bx -> fin_le y By -> fval x <= 2 ^ 1474 -> fval x - fval y <= B ->
  fin_le (let d := f_sub x y in if f_lt d f_zero then f_zero else d) B.
Proof.
  intros RBy RB Hx Hy Hbig Hd. pose proof (rep_nonneg B RB) as HB. cbn zeta.
  destruct x as [s|s| |s m e], y as [s'|s'| |s' m' e']; try done; cbn [fval] in *.
  - by destruct s, s'.
  - destruct Hy as (-> & _ & _). by cbn.
  - destruct Hx as (-> & He & _). cbn. split; [done|]. split; [done|lia].
  - destruct Hx as (-> & He & Hx), Hy as (-> & He' & Hy). cbn [f_sub SFsub cond_Zopp].
    set (ez := Z.min e e'). pose proof (shl_align_spec m e ez) as S1. pose proof (shl_align_spec m' e' ez) as S2.
    destruct (shl_align m e ez) as [m1 e1], (shl_align m' e' ez) as [m2 e2]. cbn [fst]. destruct S1 as [-> S1], S2 as [-> S2].
    replace (Z.min e ez) with ez in S1 by lia. replace (Z.min e' ez) with ez in S2 by lia.
    assert ((Zpos m1 - Zpos m2) * 2 ^ (ez + 1074) = Zpos m * 2 ^ (e + 1074) - Zpos m' * 2 ^ (e' + 1074)) as E.
    { rewrite S1, S2, Z.mul_sub_distr_r, <- !Z.mul_assoc, <- !Z.pow_add_r by lia.
      replace (e - ez + (ez + 1074)) with (e + 1074) by lia. by replace (e' - ez + (ez + 1074)) with (e' + 1074) by lia. }
    pose proof (Z.pow_pos_nonneg 2 (ez + 1074)) as Hp.
    assert (ez <= 453) as Hez.
    { pose proof (fin_le_exp false m' e' By RBy ltac:(by split)). lia. }
    destruct (Zpos m1 - Zpos m2) as [|p|p] eqn:Ed; cbn [binary_normalize]; [by cbn| |].
    + assert (fin_le (binary_round 53 1024 false p ez) B) as Hf.
      { apply binary_round_le; [done|lia|]. replace (ez + 4000) with (ez + 1074 + 2926) by lia.
        rewrite (Z.pow_add_r _ _ 2926), Z.mul_assoc by lia. apply Z.mul_le_mono_nonneg_r; [by apply Z.pow_nonneg|lia]. }
      by destruct (f_lt _ f_zero).
    + assert (fin_le (binary_round 53 1024 false p ez) By) as Hf.
      { apply binary_round_le; [done|lia|]. replace (ez + 4000) with (ez + 1074 + 2926) by lia.
        rewrite (Z.pow_add_r _ _ 2926), Z.mul_assoc by lia. apply Z.mul_le_mono_nonneg_r; [by apply Z.pow_nonneg|].
        pose proof (Z.pow_pos_nonneg 2 (e + 1074)). lia. }
      rewrite round_opp. destruct (binary_round 53 1024 false p ez) as [s|s| |s m3 e3]; try done.
      destruct Hf as (-> & _ & _). by cbn.
Qed.

(** ** Runs *)

Inductive POp := PSetRate (rate : Bitrate.t) (burst : Z) | PAdvance (elapsed : Z) | PConsume (bytes : Z).

(** The bucket after a sequence of calls, and the bytes consumed. *)
Fixpoint prun (b : TokenBucket) (ops : list POp) : TokenBucket * Z :=
  match ops with
  | [] => (b, 0)
  | PSetRate rate burst :: ops => prun (set_rate b rate burst) ops
  | PAdvance elapsed :: ops => prun (advance b elapsed) ops
  | PConsume n :: ops =>
      let '(b, taken) := try_consume b n in
      let '(b, sent) := prun b ops in
      (b, (if taken then n else 0) + sent)
  end.

(** What the link offered: bits per second times nanoseconds, under the rate of the moment. *)
Fixpoint offered (rate : Z) (ops : list POp) : Z :=
  match ops with
  | [] => 0
  | PSetRate r _ :: ops => offered (Bitrate.bps r) ops
  | PAdvance elapsed :: ops => rate * elapsed + offered rate ops
  | PConsume _ :: ops => offered rate ops
  end.

Definition is_advance (op : POp) : bool := match op with PAdvance _ => true | _ => false end.
Definition is_consume (op : POp) : bool := match op with PConsume _ => true | _ => false end.
Definition count (p : POp -> bool) (ops : list POp) : Z := Z.of_nat (length (List.filter p ops)).

Lemma count_cons p op ops : count p (op :: ops) = (if p op then 1 else 0) + count p ops.
Proof. unfold count. cbn [List.filter]. destruct (p op); cbn [length]; lia. Qed.

Lemma count_nonneg p ops : 0 <= count p ops.
Proof. unfold count. lia. Qed.

Section Grid.
Context (g : Z) (Hg : 1 <= g <= 40).

(** Rates and bursts that leave [g] fraction bits, times of a [Duration], sizes an [f64] holds. *)
Definition op_ok (op : POp) : Prop :=
  match op with
  | PSetRate rate burst =>
      0 <= Bitrate.bps rate < 2 ^ 53 /\ 0 <= burst <= DURATION_MAX /\
      Bitrate.bps rate * burst * 2 ^ g <= 8 * NANOS_PER_SEC * 2 ^ 49
  | PAdvance elapsed => 0 <= elapsed <= DURATION_MAX
  | PConsume n => 0 <= n < 2 ^ 53
  end.

Abbreviation units c := (c * 2 ^ (1074 - g)).

Lemma units_rep c : 0 <= c < 2 ^ 53 -> rep (units c).
Proof. intros Hc. apply rep_grid; lia. Qed.

Lemma units_one : 2 ^ 1074 = units (2 ^ g).
Proof. rewrite <- Z.pow_add_r by lia. f_equal. lia. Qed.

Lemma fill_bound rate : 0 <= rate < 2 ^ 53 -> fin_le (bytes_per_sec (Bitrate.mk rate)) (rate * 2 ^ 1071) /\ canonical (bytes_per_sec (Bitrate.mk rate)).
Proof.
  intros Hr. unfold bytes_per_sec. cbn [Bitrate.bps]. split; [|auto with canon].
  change (f_of_Z 8) with (S754_finite false 4503599627370496 (-49)).
  apply (fin_le_div _ _ _ (rate * 2 ^ 1074)); [apply rep_grid; lia|apply rep_grid; lia|by apply of_Z_bound|lia|].
  change (Zpos 4503599627370496 * 2 ^ (-49 + 1074)) with (2 ^ 3 * 2 ^ 1074). change (2 ^ 1074) with (2 ^ 1071 * 2 ^ 3) at 1. lia.
Qed.

(** What a time adds, when it is within the burst: two units above the exact amount at most. *)
Lemma added_bound rate el : 0 <= rate < 2 ^ 53 -> 0 <= el <= DURATION_MAX -> rate * el * 2 ^ g <= 8 * NANOS_PER_SEC * 2 ^ 49 ->
  exists c, 0 <= c <= 2 ^ 49 + 2 /\ 8 * NANOS_PER_SEC * c <= rate * el * 2 ^ g + 16 * NANOS_PER_SEC /\
    fin_le (f_mul (bytes_per_sec (Bitrate.mk rate)) (as_secs_f64 el)) (units c).
Proof.
  intros Hr Hel Hs. destruct (fill_bound rate Hr) as [Ff _]. unfold DURATION_MAX, u64_max, NANOS_PER_SEC in *.
  destruct (Z.eq_dec rate 0) as [->|Hr0].
  { exists 0. split; [lia|]. split; [lia|]. apply (fin_le_mul _ _ 0 (2 ^ 1139)); [by apply (rep_grid 0 0)|by apply rep_pow|by apply units_rep|done| |lia].
    apply as_secs_coarse. unfold NANOS_PER_SEC. lia. }
  pose proof (digits_pos_bound rate ltac:(lia)) as [L U].
  assert (1 <= Zdigits2 rate <= 53) as Hd.
  { split; [destruct rate; cbn in *; lia|]. change 53 with (Zdigits2 (2 ^ 53 - 1)). apply digits_mono. lia. }
  set (w := Zdigits2 rate - 1) in *. set (h := g + w). pose proof (Z.pow_pos_nonneg 2 w ltac:(lia) ltac:(lia)) as Hw.
  pose proof (Z.pow_pos_nonneg 2 g ltac:(lia) ltac:(lia)) as Hpg. assert (2 ^ h = 2 ^ g * 2 ^ w) as Hh by (apply Z.pow_add_r; lia).
  assert (rate < 2 * 2 ^ w) as Hu. { rewrite <- Z.pow_succ_r by lia. replace (Z.succ w) with (Zdigits2 rate) by lia. done. }
  set (c2 := ceil_div (el * 2 ^ h) 1000000000). pose proof (ceil_div_spec (el * 2 ^ h) 1000000000 ltac:(lia)) as H2. fold c2 in H2.
  set (c3 := ceil_div (c2 * rate) (8 * 2 ^ w)). pose proof (ceil_div_spec (c2 * rate) (8 * 2 ^ w) ltac:(lia)) as H3. fold c3 in H3.
  assert (el * 2 ^ h <= rate * el * 2 ^ g) as Hew by (rewrite Hh; nia).
  assert (0 <= el * 2 ^ h) as Hnn by (apply Z.mul_nonneg_nonneg; [lia|apply Z.pow_nonneg; lia]).
  assert (1000000000 * c2 < 8000000000 * 2 ^ 49 + 1000000000) as H2' by lia.
  assert (0 <= c2 < 2 ^ 53) as Hc2 by (split; [lia|change (2 ^ 53) with (8 * 2 ^ 49 + 8 * 2 ^ 49); change (2 ^ 49) with 562949953421312 in *; lia]).
  assert (0 <= c3) as Hc3 by (assert (0 <= c2 * rate) by nia; nia).
  assert (8000000000 * c3 * 2 ^ w <= (rate * el * 2 ^ g + 16000000000) * 2 ^ w) as Hk by (rewrite Hh in H2; nia).
  assert (8000000000 * c3 <= rate * el * 2 ^ g + 16000000000) as Hk' by nia.
  exists c3. split; [lia|]. split; [lia|].
  apply (fin_le_mul _ _ (rate * 2 ^ 1071) (c2 * 2 ^ (1074 - h))); [apply rep_grid; lia|apply rep_grid; lia|apply units_rep; lia|done| |].
  - apply as_secs_grid; [lia|lia|unfold NANOS_PER_SEC; fold c2; lia|]. unfold NANOS_PER_SEC.
    apply Z.div_lt_upper_bound; [lia|]. pose proof (Z.pow_pos_nonneg 2 h). nia.
  - replace (2 ^ 1074) with (2 ^ 1071 * 8) by done. replace (1074 - g) with (w + (1074 - h)) by (unfold h; lia). rewrite Z.pow_add_r by lia.
    pose proof (Z.pow_pos_nonneg 2 (1074 - h) ltac:(lia) ltac:(unfold h; lia)) as P1.
    replace (rate * 2 ^ 1071 * (c2 * 2 ^ (1074 - h))) with (c2 * rate * (2 ^ 1071 * 2 ^ (1074 - h))) by ring.
    replace (c3 * (2 ^ w * 2 ^ (1074 - h)) * (2 ^ 1071 * 8)) with (8 * 2 ^ w * c3 * (2 ^ 1071 * 2 ^ (1074 - h))) by ring.
    apply Z.mul_le_mono_nonneg_r; [|lia]. apply Z.mul_nonneg_nonneg; [by apply Z.pow_nonneg|lia].
Qed.

Lemma added_coarse rate el : 0 <= rate < 2 ^ 53 -> 0 <= el <= DURATION_MAX ->
  fin_le (f_mul (bytes_per_sec (Bitrate.mk rate)) (as_secs_f64 el)) (2 ^ 1189).
Proof.
  intros Hr Hel. destruct (fill_bound rate Hr) as [Ff _].
  apply (fin_le_mul _ _ (2 ^ 1124) (2 ^ 1139)); try (apply rep_pow; lia); [| |done].
  - eapply fin_le_mono; [|exact Ff]. change (2 ^ 1124) with (2 ^ 53 * 2 ^ 1071). apply Z.mul_le_mono_nonneg_r; [by apply Z.pow_nonneg|lia].
  - apply as_secs_coarse. unfold DURATION_MAX, u64_max, NANOS_PER_SEC in *. lia.
Qed.

(** The tokens are at most [tau] units, and within the capacity. *)
Record pacer_inv (b : TokenBucket) (rate burst tau : Z) : Prop := {
  pi_rate : 0 <= rate < 2 ^ 53 /\ 0 <= burst <= DURATION_MAX;
  pi_fill : fill_bytes_per_sec b = bytes_per_sec (Bitrate.mk rate);
  pi_cap : exists K, 0 <= K <= 2 ^ 49 + 2 /\ 8 * NANOS_PER_SEC * K <= rate * burst * 2 ^ g + 16 * NANOS_PER_SEC /\
    fin_le (capacity_bytes b) (units K) /\ tau <= K;
  pi_canonical : canonical (capacity_bytes b) /\ canonical (tokens_bytes b);
  pi_tokens : fin_le (tokens_bytes b) (units tau) /\ 0 <= tau;
  pi_within : fval (tokens_bytes b) <= fval (capacity_bytes b);
  pi_small : rate * burst * 2 ^ g <= 8 * NANOS_PER_SEC * 2 ^ 49;
}.

(** The capacity that a rate and a burst give. *)
Lemma capacity_bound rate burst : op_ok (PSetRate (Bitrate.mk rate) burst) ->
  let cap := f_max (f_mul (bytes_per_sec (Bitrate.mk rate)) (as_secs_f64 burst)) f_zero in
  canonical cap /\ exists K, 0 <= K <= 2 ^ 49 + 2 /\ 8 * NANOS_PER_SEC * K <= rate * burst * 2 ^ g + 16 * NANOS_PER_SEC /\ fin_le cap (units K).
Proof.
  intros (Hr & Hb & Hs). cbn [Bitrate.bps] in *. destruct (added_bound rate burst Hr Hb Hs) as (K & HK & Hle & Hf).
  destruct (fill_bound rate Hr) as [_ Cf]. cbn zeta. split.
  - unfold f_max. repeat case_match; auto with canon; done.
  - exists K. split; [done|]. split; [done|]. apply fin_le_max; [done|]. pose proof (Z.pow_pos_nonneg 2 (1074 - g)). cbn. nia.
Qed.

Lemma bucket_new_inv rate burst : op_ok (PSetRate rate burst) ->
  exists tau, pacer_inv (bucket_new rate burst) (Bitrate.bps rate) burst tau /\
    8 * NANOS_PER_SEC * tau <= Bitrate.bps rate * burst * 2 ^ g + 16 * NANOS_PER_SEC.
Proof.
  intros Hok. destruct rate as [r]. destruct (capacity_bound r burst Hok) as (Cc & K & HK & Hle & Hf). destruct Hok as (Hr & Hb & Hs).
  exists K. split; [|done]. cbn [Bitrate.bps] in *. split; try done; cbn [bucket_new capacity_bytes tokens_bytes].
  - exists K. done.
  - split; [done|lia].
Qed.

Lemma set_rate_inv b rate burst tau r' burst' : pacer_inv b rate burst tau -> op_ok (PSetRate r' burst') ->
  exists tau', pacer_inv (set_rate b r' burst') (Bitrate.bps r') burst' tau' /\ tau' <= tau.
Proof.
  intros [Hr Hfill Hcap [Cc Ct] [Ft H0] Hw Hsm] Hok. destruct r' as [r']. destruct (capacity_bound r' burst' Hok) as (Cc' & K & HK & Hle & Hf).
  destruct Hok as (Hr' & Hb' & Hs'). cbn [Bitrate.bps] in *. set (cap := f_max _ f_zero) in *.
  exists (Z.min tau K). split; [|lia]. pose proof (Z.pow_pos_nonneg 2 (1074 - g) ltac:(lia) ltac:(lia)) as HG.
  destruct (fin_le_fval _ _ Ft) as [Ft' [_ Lt]], (fin_le_fval _ _ Hf) as [Hf' [_ Lc]].
  pose proof (f_lt_fval cap (tokens_bytes b) _ _ Hf Ft Cc' Ct) as El.
  assert (units (Z.min tau K) = Z.min (units tau) (units K)) as Emin by (by rewrite Z.mul_min_distr_nonneg_r by lia).
  split; try done; unfold set_rate; cbn [fill_bytes_per_sec capacity_bytes tokens_bytes]; fold cap; rewrite ?El.
  - exists K. split; [done|]. split; [done|]. split; [done|lia].
  - by destruct (fval cap <? fval (tokens_bytes b)).
  - rewrite Emin. split; [|lia]. destruct (Z.ltb_spec (fval cap) (fval (tokens_bytes b))).
    + eapply fin_le_mono; [|exact Hf']. lia.
    + eapply fin_le_mono; [|exact Ft']. lia.
  - destruct (Z.ltb_spec (fval cap) (fval (tokens_bytes b))); lia.
Qed.

(** Waiting: at most the exact amount and two units more. *)
Lemma advance_inv b rate burst tau el : pacer_inv b rate burst tau -> 0 <= el <= DURATION_MAX ->
  exists tau', pacer_inv (advance b el) rate burst tau' /\
    8 * NANOS_PER_SEC * tau' <= 8 * NANOS_PER_SEC * tau + rate * el * 2 ^ g + 16 * NANOS_PER_SEC.
Proof.
  intros [[Hr Hb] Hfill (K & HK & HKle & HKf & HtK) [Cc Ct] [Ft H0] Hw Hsm] Hel.
  pose proof (Z.pow_pos_nonneg 2 (1074 - g) ltac:(lia) ltac:(lia)) as HG. pose proof (Z.pow_pos_nonneg 2 g ltac:(lia) ltac:(lia)) as Hpg.
  destruct (fill_bound rate Hr) as [_ Cf]. set (added := f_mul (bytes_per_sec (Bitrate.mk rate)) (as_secs_f64 el)).
  assert (canonical (f_add (tokens_bytes b) added)) as Cs by (unfold added; auto with canon).
  assert (exists B tau', fin_le (f_add (tokens_bytes b) added) B /\ Z.min B (units K) <= units tau' /\ 0 <= tau' <= K /\
    8 * NANOS_PER_SEC * tau' <= 8 * NANOS_PER_SEC * tau + rate * el * 2 ^ g + 16 * NANOS_PER_SEC) as (B & tau' & HB & Hmin & Ht' & Hle).
  { destruct (Z.le_gt_cases el burst) as [Hlt|Hgt].
    - assert (rate * el * 2 ^ g <= rate * burst * 2 ^ g) as Hmono
        by (apply Z.mul_le_mono_nonneg_r; [lia|]; apply Z.mul_le_mono_nonneg_l; lia).
      destruct (added_bound rate el Hr Hel ltac:(lia)) as (c & Hc & Hcle & Hcf). exists (units (tau + c)), (Z.min (tau + c) K).
      split; [|split; [rewrite Z.mul_min_distr_nonneg_r by lia; lia|split; [lia|unfold NANOS_PER_SEC in *; lia]]].
      apply (fin_le_add _ _ (units tau) (units c)); try (apply units_rep; lia); try done; lia.
    - exists (2 ^ 1190), K. split; [|split; [lia|split; [lia|]]].
      + apply (fin_le_add _ _ (2 ^ 1189) (2 ^ 1189)); try (apply rep_pow; lia); [|by apply added_coarse|done].
        eapply fin_le_mono; [|exact Ft]. apply (Z.le_trans _ (2 ^ 53 * 2 ^ 1074)); [|done].
        apply Z.mul_le_mono_nonneg; [lia|lia|lia|apply Z.pow_le_mono_r; lia].
      + assert (rate * burst * 2 ^ g <= rate * el * 2 ^ g)
          by (apply Z.mul_le_mono_nonneg_r; [lia|]; apply Z.mul_le_mono_nonneg_l; lia). unfold NANOS_PER_SEC in *. lia. }
  destruct (f_min_fval _ (capacity_bytes b) B (units K) HB HKf Cs Cc) as (Ev & Fm & Cm).
  exists tau'. split; [|done]. split; try done; unfold advance; cbn [fill_bytes_per_sec capacity_bytes tokens_bytes]; rewrite ?Hfill; fold added; [|done| |].
  - exists K. split; [done|]. split; [done|]. split; [done|lia].
  - split; [|lia]. by eapply fin_le_mono, Fm.
  - rewrite Ev. lia.
Qed.

Lemma rep_fval x B : fin_le x B -> canonical x -> B < 2 ^ 1127 -> rep (fval x).
Proof.
  intros Hx Hc HB. destruct (fin_le_fval x B Hx) as [_ [_ Hle]].
  destruct x as [s|s| |s m e]; try (by apply (rep_grid 0 0)). cbn [fval] in *.
  destruct (canonical_small s m e Hc ltac:(lia)) as [He Hm]. apply rep_grid; lia.
Qed.

Lemma slack_bound : fin_le TOKEN_SLACK (units (2 ^ (g - 1))) /\ canonical TOKEN_SLACK.
Proof.
  split; [|vm_compute; done]. rewrite <- Z.pow_add_r by lia. replace (g - 1 + (1074 - g)) with 1073 by lia. vm_compute. done.
Qed.

(** Consuming takes what it grants, but for half a byte. *)
Lemma consume_inv b rate burst tau n b' taken : pacer_inv b rate burst tau -> 0 <= n < 2 ^ 53 -> try_consume b n = (b', taken) ->
  exists tau', pacer_inv b' rate burst tau' /\ tau' + (if taken then n * 2 ^ g else 0) <= tau + 2 ^ (g - 1).
Proof.
  intros Hinv Hn. pose proof Hinv as [Hr Hfill (K & HK & HKle & HKf & HtK) [Cc Ct] [Ft H0] Hw Hsm].
  pose proof (Z.pow_pos_nonneg 2 (1074 - g) ltac:(lia) ltac:(lia)) as HG. pose proof (Z.pow_pos_nonneg 2 (g - 1) ltac:(lia) ltac:(lia)) as Hh.
  assert (2 ^ (g - 1) <= 2 ^ 39) as Hh39 by (apply Z.pow_le_mono_r; lia).
  destruct slack_bound as [Fs Cs]. destruct (fval_of_Z n Hn) as [En Fn]. pose proof (f_of_Z_canonical n) as Cn.
  assert (fin_le (f_add (tokens_bytes b) TOKEN_SLACK) (units (tau + 2 ^ (g - 1)))) as Fa.
  { apply (fin_le_add _ _ (units tau) (units (2 ^ (g - 1)))); [apply units_rep; lia|apply units_rep; lia|apply units_rep; lia|exact Ft|exact Fs|lia]. }
  assert (canonical (f_add (tokens_bytes b) TOKEN_SLACK)) as Ca by (apply f_add_canonical; [exact Ct|exact Cs]).
  unfold try_consume. rewrite (f_le_fval _ _ _ _ Fn Fa Cn Ca), En.
  destruct (Z.leb_spec (n * 2 ^ 1074) (fval (f_add (tokens_bytes b) TOKEN_SLACK))) as [Hle|]; intros [= <- <-]; [|exists tau; split; [done|lia]].
  destruct (fin_le_fval _ _ Fa) as [_ [_ La]], (fin_le_fval _ _ Ft) as [Ft' [_ Lt]].
  assert (n * 2 ^ g <= tau + 2 ^ (g - 1)) as Hbound.
  { apply (Z.mul_le_mono_pos_r _ _ (2 ^ (1074 - g)) HG). rewrite <- Z.mul_assoc, <- units_one. lia. }
  assert (units tau < 2 ^ 1127) as Hsmall.
  { apply (Z.lt_le_trans _ (2 ^ 53 * 2 ^ (1074 - g))); [apply Z.mul_lt_mono_pos_r; lia|]. rewrite <- Z.pow_add_r by lia. apply Z.pow_le_mono_r; lia. }
  assert (forall B, rep B -> fval (tokens_bytes b) - fval (f_of_Z n) <= B ->
    fin_le (let d := f_sub (tokens_bytes b) (f_of_Z n) in if f_lt d f_zero then f_zero else d) B) as Hsub.
  { intros B HB HBle. apply (f_sub_le _ _ (units tau) (n * 2 ^ 1074)); [apply rep_grid; lia|exact HB|exact Ft|exact Fn| |exact HBle].
    apply (Z.le_trans _ (2 ^ 1127)); [lia|]. apply Z.pow_le_mono_r; lia. }
  assert (0 <= n * 2 ^ g) as Hn0 by (apply Z.mul_nonneg_nonneg; [lia|apply Z.pow_nonneg; lia]).
  assert (0 <= n * 2 ^ 1074) as Hn1 by (apply Z.mul_nonneg_nonneg; [lia|apply Z.pow_nonneg; lia]).
  assert (fval (tokens_bytes b) - n * 2 ^ 1074 <= units (Z.max 0 (tau - n * 2 ^ g))) as Hdiff.
  { apply (Z.le_trans _ (units (tau - n * 2 ^ g))); [rewrite units_one, Z.mul_sub_distr_r, Z.mul_assoc; lia|]. apply Z.mul_le_mono_nonneg_r; lia. }
  exists (Z.max 0 (tau - n * 2 ^ g)). split; [|lia].
  split; cbn [fill_bytes_per_sec capacity_bytes tokens_bytes]; [exact Hr|exact Hfill| | | | |exact Hsm].
  - exists K. split; [exact HK|]. split; [exact HKle|]. split; [exact HKf|lia].
  - split; [exact Cc|]. destruct (f_lt _ f_zero); [exact I|]. by apply f_sub_canonical.
  - split; [|lia]. apply Hsub; [apply units_rep; lia|]. rewrite En. exact Hdiff.
  - assert (fval (tokens_bytes b) - fval (f_of_Z n) <= fval (tokens_bytes b)) as Hless by (rewrite En; lia).
    destruct (fin_le_fval _ _ (Hsub _ (rep_fval _ _ Ft Ct Hsmall) Hless)) as [_ [_ Hl]]. exact (Z.le_trans _ _ _ Hl Hw).
Qed.

Lemma prun_bound ops : forall b rate burst tau, Forall op_ok ops -> pacer_inv b rate burst tau ->
  exists rate' burst' tau', pacer_inv (fst (prun b ops)) rate' burst' tau' /\
    8 * NANOS_PER_SEC * 2 ^ g * snd (prun b ops) <= 8 * NANOS_PER_SEC * tau + 2 ^ g * offered rate ops +
      16 * NANOS_PER_SEC * count is_advance ops + 8 * NANOS_PER_SEC * 2 ^ (g - 1) * count is_consume ops.
Proof.
  induction ops as [|op ops IH]; intros b rate burst tau Hok Hinv.
  { exists rate, burst, tau. split; [done|]. cbn. pose proof (proj2 (pi_tokens _ _ _ _ Hinv)). unfold count, NANOS_PER_SEC. cbn. lia. }
  apply Forall_cons_1 in Hok as [Hop Hok]. rewrite !count_cons. destruct op as [r bu|el|n]; cbn [prun offered is_advance is_consume].
  - destruct (set_rate_inv _ _ _ _ _ _ Hinv Hop) as (t1 & I1 & Hle). destruct (IH _ _ _ _ Hok I1) as (r2 & b2 & t2 & I2 & B2).
    exists r2, b2, t2. split; [done|]. unfold NANOS_PER_SEC in *. lia.
  - destruct (advance_inv _ _ _ _ el Hinv Hop) as (t1 & I1 & Hle). destruct (IH _ _ _ _ Hok I1) as (r2 & b2 & t2 & I2 & B2).
    exists r2, b2, t2. split; [done|]. unfold NANOS_PER_SEC in *. lia.
  - destruct (try_consume b n) as [b1 taken] eqn:E. destruct (consume_inv _ _ _ _ n b1 taken Hinv Hop E) as (t1 & I1 & Hle).
    destruct (IH _ _ _ _ Hok I1) as (r2 & b2 & t2 & I2 & B2). destruct (prun b1 ops) as [b3 sent]. cbn [fst snd] in *.
    exists r2, b2, t2. split; [done|]. unfold NANOS_PER_SEC in *. destruct taken; lia.
Qed.

End Grid.

(** C25. The file channel never gets more than its allocation.  For every sequence of rate changes,
    waits and requests, the bytes granted are at most the burst, plus the rate of the moment
    times the time waited, plus half a byte per request (the slack) and two parts in [2^g] of a
    byte per wait (the rounding of floating point), where [g] is any number of fraction bits, at
    most 40, that rates times bursts leave below [2^49]; and the balance never leaves the range
    from zero to the capacity. *)
Theorem pacer_rate_bounded g rate burst ops :
  1 <= g <= 40 -> op_ok g (PSetRate rate burst) -> Forall (op_ok g) ops ->
  let '(b, sent) := prun (bucket_new rate burst) ops in
  8 * NANOS_PER_SEC * 2 ^ g * sent <= 2 ^ g * (Bitrate.bps rate * burst + offered (Bitrate.bps rate) ops) +
    16 * NANOS_PER_SEC * (1 + count is_advance ops) + 8 * NANOS_PER_SEC * 2 ^ (g - 1) * count is_consume ops /\
  f_le f_zero (tokens_bytes b) = true /\ f_le (tokens_bytes b) (capacity_bytes b) = true.
Proof.
  intros Hg Hnew Hok. destruct (bucket_new_inv g Hg rate burst Hnew) as (tau & Hinv & Hle).
  destruct (prun_bound g Hg ops _ _ _ _ Hok Hinv) as (r & bu & t & [_ _ (K & _ & _ & Fc & _) [Cc Ct] [Ft _] Hw _] & Hb).
  destruct (prun _ ops) as [b sent]. cbn [fst snd] in *. split; [unfold NANOS_PER_SEC in *; lia|].
  destruct (fin_le_fval _ _ Ft) as [Ft' [? _]]. split.
  - rewrite (f_le_fval f_zero _ 0 _ ltac:(done) Ft ltac:(done) Ct). by apply Z.leb_le.
  - rewrite (f_le_fval _ _ _ _ Ft Fc Ct Cc). by apply Z.leb_le.
Qed.

(** 8 Mbit/s with a burst of 10 ms, a rate change, and chunks of 5000 bytes. *)
Definition toy_pacer_ops : list POp :=
  [PConsume 5000; PConsume 5000; PConsume 5000; PAdvance (from_millis 5); PConsume 5000; PConsume 5000;
   PSetRate (Bitrate.from_mbps 16) (from_millis 10); PAdvance (from_secs 3600); PConsume 20000; PConsume 1].

Lemma pacer_rate_bounded_witness :
  snd (prun (bucket_new (Bitrate.from_mbps 8) (from_millis 10)) toy_pacer_ops) = 35000 /\
  let '(b, sent) := prun (bucket_new (Bitrate.from_mbps 8) (from_millis 10)) toy_pacer_ops in
  f_le (tokens_bytes b) (capacity_bytes b) = true.
Proof.
  split; [vm_compute; reflexivity|].
  assert (Forall (op_ok 34) toy_pacer_ops) as Hok by (repeat constructor; vm_compute; discriminate).
  pose proof (pacer_rate_bounded 34 (Bitrate.from_mbps 8) (from_millis 10) toy_pacer_ops ltac:(lia)
    ltac:(repeat split; vm_compute; discriminate || reflexivity) Hok) as H.
  destruct (prun _ _) as [b sent]. exact (proj2 (proj2 H)).
Defined.
