(* ===== verification/HostInput.v ===== *)
(** * The host's input path (bins/streamhaul-webrtc-host/src/lib.rs)

    From the bytes a peer sends on the input channel to the operating system: [decode_input],
    [admit_input] and [forward_input] in the receiving task, the bounded queue, and the
    injection thread of [spawn_injection_thread].  The two run concurrently; [host_step] takes
    their steps in any order.  The injector is any instance of [InputInjector], and the queue
    any instance of tokio's channel, [Mpsc]. *)

From stdpp Require Import base numbers list option.
From S2P Require Import Prelude ShpWire ShpMessages Float64 InputCore RateLimit.

Definition INPUT_QUEUE_DEPTH : Z := 256.
Definition MAX_THROTTLED_INPUT_PER_SEC : Z := 500.
Definition THROTTLED_INPUT_BURST : Z := 120.

Definition decode_input (b : bytes) : option InputEvent.t :=
  if negb (blen b =? InputEvent.INPUT_EVENT_LEN) then None else
  match InputEvent.decode b with Ok event => Some event | Err _ => None end.

(** [!x] on a [u8]. *)
Definition not_u8 (x : Z) : Z := 255 - x.

Definition held_buttons (event : InputEvent.t) : Z := Z.land (InputEvent.button_mask event) DEFINED_BUTTON_BITS.

(** Clears a held button and presses none. *)
Definition pure_release (event : InputEvent.t) (admitted_button_mask : Z) : bool :=
  let curr := held_buttons event in
  let released := Z.land admitted_button_mask (not_u8 curr) in
  let newly_pressed := Z.land curr (not_u8 admitted_button_mask) in
  negb (released =? 0) && (newly_pressed =? 0).

Definition admit_input (event : InputEvent.t) (limiter : RateLimiter) (now admitted_button_mask : Z)
    : RateLimiter * bool :=
  match InputEvent.event_type event with
  | InputEvent.PointerMove | InputEvent.Wheel | InputEvent.Key | InputEvent.Touch | InputEvent.Pen => allow limiter now
  | InputEvent.Button => if pure_release event admitted_button_mask then (limiter, true) else allow limiter now
  end.

(** ** The receiving task, the queue and the injection thread *)

(** [queue] is the channel between them, [senders_open] whether the receiving task still holds
    its sender. *)
Record HostInput (I Q : Type) := {
  hi_limiter : RateLimiter;
  throttled : Z;
  admitted_button_mask : Z;
  queue : Q;
  senders_open : bool;
  injector : I;
  thread_done : bool;
}.
Arguments hi_limiter {I Q} _.
Arguments throttled {I Q} _.
Arguments admitted_button_mask {I Q} _.
Arguments queue {I Q} _.
Arguments senders_open {I Q} _.
Arguments injector {I Q} _.
Arguments thread_done {I Q} _.

Section Host.
Context {I Q : Type} `{!InputInjector I} `{M : !Mpsc InputEvent.t Q}.
Implicit Types s : HostInput I Q.

(** [spawn_injection_thread] and the start of [run_input_recv]. *)
Definition host_input_new (i : I) : HostInput I Q :=
  {| hi_limiter := rate_limiter_new MAX_THROTTLED_INPUT_PER_SEC THROTTLED_INPUT_BURST; throttled := 0;
     admitted_button_mask := 0; queue := mpsc_channel INPUT_QUEUE_DEPTH; senders_open := true; injector := i;
     thread_done := false |}.

Definition set_limiter s l : HostInput I Q :=
  {| hi_limiter := l; throttled := throttled s; admitted_button_mask := admitted_button_mask s; queue := queue s;
     senders_open := senders_open s; injector := injector s; thread_done := thread_done s |}.
Definition set_queue s q : HostInput I Q :=
  {| hi_limiter := hi_limiter s; throttled := throttled s; admitted_button_mask := admitted_button_mask s; queue := q;
     senders_open := senders_open s; injector := injector s; thread_done := thread_done s |}.
Definition set_mask s m : HostInput I Q :=
  {| hi_limiter := hi_limiter s; throttled := throttled s; admitted_button_mask := m; queue := queue s;
     senders_open := senders_open s; injector := injector s; thread_done := thread_done s |}.
Definition set_throttled s n : HostInput I Q :=
  {| hi_limiter := hi_limiter s; throttled := n; admitted_button_mask := admitted_button_mask s; queue := queue s;
     senders_open := senders_open s; injector := injector s; thread_done := thread_done s |}.

Definition forward_input s (b : bytes) (now : Z) : HostInput I Q :=
  match decode_input b with
  | None => s
  | Some event =>
      let '(l, admitted) := admit_input event (hi_limiter s) now (admitted_button_mask s) in
      let s := set_limiter s l in
      if admitted then
        let '(q, sent) := mpsc_try_send (queue s) event in
        let s := set_queue s q in
        if is_ok sent && bool_decide (InputEvent.event_type event = InputEvent.Button)
        then set_mask s (held_buttons event) else s
      else set_throttled s (sat_add u64_max (throttled s) 1)
  end.

(** One turn of the thread's loop, [blocking_recv]: an event is injected, an error is only
    logged; at the end of the channel [release_all] runs and the thread ends, dropping its
    receiver; otherwise it waits. *)
Definition thread_turn s : HostInput I Q :=
  if thread_done s then s else
  match mpsc_recv (queue s) with
  | (q, Received event) =>
      {| hi_limiter := hi_limiter s; throttled := throttled s; admitted_button_mask := admitted_button_mask s;
         queue := q; senders_open := senders_open s; injector := fst (inject (injector s) event);
         thread_done := false |}
  | (q, Waiting) => set_queue s q
  | (q, Ended) =>
      {| hi_limiter := hi_limiter s; throttled := throttled s; admitted_button_mask := admitted_button_mask s;
         queue := mpsc_drop_receiver q; senders_open := senders_open s; injector := release_all (injector s);
         thread_done := true |}
  end.

(** The end of the session drops the senders. *)
Definition drop_senders s : HostInput I Q :=
  {| hi_limiter := hi_limiter s; throttled := throttled s; admitted_button_mask := admitted_button_mask s;
     queue := mpsc_drop_senders (queue s); senders_open := false; injector := injector s; thread_done := thread_done s |}.

(** The receiver's steps need its sender. *)
Inductive host_event := Message (b : bytes) (now : Z) | ThreadTurn | EndSession.

Definition host_step s (e : host_event) : HostInput I Q :=
  match e with
  | Message b now => if senders_open s then forward_input s b now else s
  | ThreadTurn => thread_turn s
  | EndSession => drop_senders s
  end.

Definition host_run s (es : list host_event) : HostInput I Q := fold_left host_step es s.

(** ** The events that pass, in order *)

Definition is_button (e : InputEvent.t) : bool := bool_decide (InputEvent.event_type e = InputEvent.Button).

(** The event a step appends to the queue. *)
Definition accepted_now s (e : host_event) : list InputEvent.t :=
  match e with
  | Message b now =>
      if negb (senders_open s) then [] else
      match decode_input b with
      | None => []
      | Some event =>
          if snd (admit_input event (hi_limiter s) now (admitted_button_mask s)) &&
             is_ok (snd (mpsc_try_send (queue s) event))
          then [event] else []
      end
  | _ => []
  end.

Fixpoint accepted s (es : list host_event) : list InputEvent.t :=
  match es with
  | [] => []
  | e :: es => accepted_now s e ++ accepted (host_step s e) es
  end.

(** The buttons the last [Button] event of a list holds down. *)
Definition mask_after (m : Z) (es : list InputEvent.t) : Z :=
  fold_left (fun m e => if is_button e then held_buttons e else m) es m.

Definition inject_all (i : I) (es : list InputEvent.t) : I := fold_left (fun i e => fst (inject i e)) es i.

(** The events in the queue. *)
Definition pending s : list InputEvent.t := buffered (mpsc_inspect (queue s)).

Lemma mask_after_app m a b : mask_after m (a ++ b) = mask_after (mask_after m a) b.
Proof. apply fold_left_app. Qed.

Lemma inject_all_snoc i es e : inject_all i (es ++ [e]) = fst (inject (inject_all i es) e).
Proof. unfold inject_all. by rewrite fold_left_app. Qed.

Context `{ML : !MpscLaws InputEvent.t Q}.

(** [injected] events have left the queue. *)
Record host_inv (i0 : I) (log : list InputEvent.t) s : Prop := {
  hinv_queue : mpsc_inspect (queue s) = MpscView (pending s) INPUT_QUEUE_DEPTH (senders_open s) (negb (thread_done s));
  hinv_depth : Z.of_nat (length (pending s)) <= INPUT_QUEUE_DEPTH;
  hinv_mask : admitted_button_mask s = mask_after 0 log;
  hinv_fifo : exists injected, log = injected ++ pending s /\
    injector s = (if thread_done s then release_all (inject_all i0 injected) else inject_all i0 injected);
  hinv_done : thread_done s = true -> pending s = [] /\ senders_open s = false;
}.

Lemma forward_input_spec s b now : senders_open s = true ->
  let s' := forward_input s b now in
  let view := mpsc_inspect (queue s) in
  mpsc_inspect (queue s') =
    MpscView (pending s ++ accepted_now s (Message b now)) (max_capacity view) (tx_alive view) (rx_alive view) /\
  (accepted_now s (Message b now) = [] \/ has_room view = true /\ exists e, accepted_now s (Message b now) = [e]) /\
  admitted_button_mask s' = mask_after (admitted_button_mask s) (accepted_now s (Message b now)) /\
  senders_open s' = senders_open s /\ injector s' = injector s /\ thread_done s' = thread_done s.
Proof.
  intros Ho. cbn zeta. unfold accepted_now, forward_input, pending. rewrite Ho. cbn [negb].
  assert (forall v : mpsc_view InputEvent.t, v = MpscView (buffered v ++ []) (max_capacity v) (tx_alive v) (rx_alive v)) as Hv
    by (intros []; cbn; by rewrite app_nil_r).
  destruct (decode_input b) as [event|]; [|split_and!; [apply Hv|by left|done..]].
  destruct (admit_input _ _ _ _) as [l []]; cbn [snd andb]; [|split_and!; [apply Hv|by left|done..]].
  cbn [queue set_limiter]. destruct (try_send_cases (queue s) event) as (q' & r & Et & Hr & Hq). rewrite Et. cbn [snd].
  rewrite Hr. destruct (has_room (mpsc_inspect (queue s))) eqn:Hroom; cbn [andb].
  - assert (rx_alive (mpsc_inspect (queue s)) = true) as Hrx by (unfold has_room in Hroom; by apply andb_true_iff in Hroom as [? _]).
    unfold mask_after, is_button. cbn [fold_left]. case_bool_decide; (split_and!; [by cbn; rewrite Hq, Hrx|by eauto|done..]).
  - split_and!; [cbn [queue set_queue]; rewrite Hq; apply Hv|by left|done..].
Qed.

Lemma turn_inv i0 log s : host_inv i0 log s -> host_inv i0 log (thread_turn s).
Proof.
  intros Hinv. unfold thread_turn. destruct (thread_done s) eqn:Et; [done|].
  destruct Hinv as [Hv Hq Hm (inj & -> & Hi) Hd]. rewrite Et in *. cbn [negb] in Hv.
  destruct (pending s) as [|event rest] eqn:Ep.
  - destruct (recv_empty _ _ _ Hv) as (q' & -> & Hq'). destruct (senders_open s) eqn:Eo.
    + assert (pending (set_queue s q') = []) as Hp by (unfold pending; cbn [queue set_queue]; by rewrite Hq').
      split; rewrite ?Hp; cbn; rewrite ?Et, ?Eo; eauto; done.
    + pose proof (drop_receiver_inspect _ _ Hq') as Hdr. cbn in Hdr.
      split; unfold pending; cbn; rewrite ?Hdr; cbn; [done|done|done| |done].
      exists inj. by rewrite Hi.
  - destruct (recv_oldest _ _ _ _ _ Hv) as (q' & -> & Hq').
    split; unfold pending; cbn; rewrite ?Hq'; cbn; [done|cbn in Hq; lia|done| |done].
    exists (inj ++ [event]). rewrite <- (assoc_L (++)), inject_all_snoc. by rewrite Hi.
Qed.

Lemma host_step_inv i0 log s e : host_inv i0 log s -> host_inv i0 (log ++ accepted_now s e) (host_step s e).
Proof.
  intros Hinv. destruct e as [b now| |]; cbn [host_step].
  - destruct (senders_open s) eqn:Ho; [|cbn [accepted_now]; rewrite Ho; cbn [negb]; by rewrite app_nil_r].
    destruct Hinv as [Hv Hq Hm (inj & -> & Hi) Hd].
    destruct (forward_input_spec s b now Ho) as (Eq & Ea & Em & Eo & Ei & Et). rewrite Hv in Eq, Ea. cbn in Eq.
    assert (pending (forward_input s b now) = pending s ++ accepted_now s (Message b now)) as Hp by (unfold pending at 1; by rewrite Eq).
    split.
    + by rewrite Hp, Eq, Eo, Et.
    + rewrite Hp, length_app. destruct Ea as [->|(Hr & e & ->)]; cbn [length]; [lia|].
      unfold has_room in Hr. cbn in Hr. simplify_bool. lia.
    + by rewrite Em, mask_after_app, Hm.
    + exists inj. rewrite Hp, Et, Ei. by rewrite (assoc_L (++)).
    + rewrite Et. intros T. destruct (Hd T) as [_ ?]. congruence.
  - cbn [accepted_now]. rewrite app_nil_r. by apply turn_inv.
  - cbn [accepted_now]. rewrite app_nil_r. destruct Hinv as [Hv Hq Hm (inj & -> & Hi) Hd].
    pose proof (drop_senders_inspect _ _ Hv) as Hv'. cbn in Hv'.
    assert (pending (drop_senders s) = pending s) as Hp by (unfold pending at 1; cbn [queue drop_senders]; by rewrite Hv').
    split; rewrite ?Hp; cbn [queue drop_senders senders_open thread_done admitted_button_mask injector]; eauto.
    intros T. split; [|done]. by apply Hd.
Qed.

Lemma host_run_inv i0 log s es : host_inv i0 log s -> host_inv i0 (log ++ accepted s es) (host_run s es).
Proof.
  revert log s. induction es as [|e es IH]; intros log s Hs; cbn [accepted host_run fold_left].
  - by rewrite app_nil_r.
  - rewrite (assoc_L (++)). by apply IH, host_step_inv.
Qed.

Lemma host_new_inv i : host_inv i [] (host_input_new i).
Proof.
  pose proof (channel_new (Q := Q) INPUT_QUEUE_DEPTH ltac:(done)) as Hc.
  split; unfold pending; cbn; rewrite ?Hc; cbn; try done. by exists [].
Qed.

Lemma thread_stays_done s n : thread_done s = true -> thread_done (host_run s (replicate n ThreadTurn)) = true.
Proof.
  revert s. induction n as [|n IH]; intros s E; [done|]. cbn [replicate host_run fold_left]. apply IH.
  cbn [host_step]. unfold thread_turn. by rewrite E.
Qed.

(** A turn of the thread empties the queue; when the senders are gone, one more ends it. *)
Lemma thread_drains i0 log s n : host_inv i0 log s -> senders_open s = false -> (length (pending s) < n)%nat ->
  thread_done (host_run s (replicate n ThreadTurn)) = true.
Proof.
  revert s. induction n as [|n IH]; intros s Hinv Ho Hn; [lia|].
  destruct (thread_done s) eqn:Ht; [by apply thread_stays_done|].
  change (host_run s (replicate (S n) ThreadTurn)) with (host_run (thread_turn s) (replicate n ThreadTurn)).
  pose proof (turn_inv _ _ _ Hinv) as Hinv'. destruct Hinv as [Hv _ _ _ _]. rewrite Ht, Ho in Hv. cbn [negb] in Hv.
  revert Hinv'. unfold thread_turn. rewrite Ht. destruct (pending s) as [|e rest] eqn:Ep.
  - destruct (recv_empty _ _ _ Hv) as (q' & -> & _). intros _. by apply thread_stays_done.
  - destruct (recv_oldest _ _ _ _ _ Hv) as (q' & -> & Hq'). intros Hinv'. apply IH; [done|done|].
    unfold pending. cbn [queue]. rewrite Hq'. cbn in *. lia.
Qed.

Lemma accepted_turns s n : accepted s (replicate n ThreadTurn) = [].
Proof. revert s. induction n as [|n IH]; intros s; [done|]. apply IH. Qed.

(** The end of a session, from any reachable state. *)
Lemma teardown_inv i0 log s n : host_inv i0 log s -> (length (pending s) < n)%nat ->
  let s' := host_run s (EndSession :: replicate n ThreadTurn) in
  thread_done s' = true /\ pending s' = [] /\ injector s' = release_all (inject_all i0 log).
Proof.
  cbn zeta. intros Hinv Hn. pose proof (host_run_inv i0 log s (EndSession :: replicate n ThreadTurn) Hinv) as Hend.
  cbn [accepted accepted_now app host_step] in Hend. rewrite accepted_turns, app_nil_r in Hend.
  assert (thread_done (host_run s (EndSession :: replicate n ThreadTurn)) = true) as Ht.
  { pose proof (host_step_inv _ _ _ EndSession Hinv) as Hd. cbn [host_step accepted_now] in Hd. rewrite app_nil_r in Hd.
    change (host_run s _) with (host_run (drop_senders s) (replicate n ThreadTurn)).
    apply (thread_drains i0 log); [done|done|]. destruct Hinv as [Hv _ _ _ _].
    unfold pending. cbn [queue drop_senders]. by rewrite (drop_senders_inspect _ _ Hv). }
  destruct Hend as [_ _ _ (inj' & Hl' & Hi') Hd']. rewrite Ht in *. destruct (Hd' eq_refl) as [Eq _].
  rewrite Eq, app_nil_r in Hl'. by rewrite Hi', Hl'.
Qed.

(** C28. Whatever a peer sends and however the receiving task and the injection thread are
    scheduled, over any channel that behaves as tokio documents: the queue never exceeds its
    depth; the events reach the injector in the order in which they were accepted, none twice
    and none lost once accepted; the receiver's button mask is the one the last accepted button
    event leaves, and, once the queue is empty, the one the last injected button event leaves.
    When the session ends, the thread finishes within one turn per place of the queue and one
    more, and by then the injector has seen every accepted event followed by exactly one
    [release_all]. *)
Theorem input_path_ordered (i : I) es :
  let s := host_run (host_input_new i) es in
  let log := accepted (host_input_new i) es in
  Z.of_nat (length (pending s)) <= INPUT_QUEUE_DEPTH /\
  admitted_button_mask s = mask_after 0 log /\
  (thread_done s = false -> exists injected, log = injected ++ pending s /\ injector s = inject_all i injected /\
     (pending s = [] -> admitted_button_mask s = mask_after 0 injected)) /\
  let s' := host_run s (EndSession :: replicate (S (Z.to_nat INPUT_QUEUE_DEPTH)) ThreadTurn) in
  thread_done s' = true /\ pending s' = [] /\ injector s' = release_all (inject_all i log).
Proof.
  cbn zeta. pose proof (host_run_inv i [] _ es (host_new_inv i)) as Hinv. cbn [app] in Hinv.
  pose proof Hinv as [_ Hq Hm (inj & Hl & Hi) Hd].
  split; [done|]. split; [done|]. split; [|apply teardown_inv; [done|lia]].
  intros Ht. rewrite Ht in Hi. exists inj. split_and!; [done|done|]. intros Ep. rewrite Hm. by rewrite Hl, Ep, app_nil_r.
Qed.

Lemma admit_input_eq event l now m :
  admit_input event l now m = if is_button event && pure_release event m then (l, true) else allow l now.
Proof. unfold admit_input, is_button. by destruct (InputEvent.event_type event); repeat case_bool_decide. Qed.

(** Releases get through: an event that lets go of a held button and presses none is put in the
    queue whenever there is room, whatever state the rate limiter is in, and does not use up its
    budget; any other event is put in the queue exactly when the limiter admits it and there is
    room.  What is not accepted leaves the queued events and the button mask as they were. *)
Lemma input_release_admitted s b now event :
  senders_open s = true -> decode_input b = Some event ->
  let s' := forward_input s b now in
  let room := has_room (mpsc_inspect (queue s)) in
  let exempt := is_button event && pure_release event (admitted_button_mask s) in
  let admitted := exempt || snd (allow (hi_limiter s) now) in
  pending s' = (if admitted && room then pending s ++ [event] else pending s) /\
  hi_limiter s' = (if exempt then hi_limiter s else fst (allow (hi_limiter s) now)) /\
  admitted_button_mask s' = (if admitted && room && is_button event then held_buttons event else admitted_button_mask s) /\
  throttled s' = (if admitted then throttled s else sat_add u64_max (throttled s) 1).
Proof.
  intros Ho Hd. cbn zeta. unfold forward_input, pending. rewrite Hd, admit_input_eq.
  destruct (try_send_cases (queue s) event) as (q' & r & Et & Hr & Hq). unfold is_button.
  set (exempt := bool_decide _ && pure_release _ _). set (room := has_room _) in *.
  destruct exempt eqn:Ex, (allow (hi_limiter s) now) as [l []], room; cbn [fst snd andb orb queue set_limiter];
    rewrite ?Et, ?Hr; try case_bool_decide; cbn [andb queue set_queue set_mask set_limiter set_throttled hi_limiter
      admitted_button_mask throttled]; rewrite ?Hq; done.
Qed.

(** ** How many events a peer can get through *)

(** The times at which the bucket is asked. *)
Definition asked s (e : host_event) : list Z :=
  match e with
  | Message b now =>
      if negb (senders_open s) then [] else
      match decode_input b with
      | Some event => if is_button event && pure_release event (admitted_button_mask s) then [] else [now]
      | None => []
      end
  | _ => []
  end.

Fixpoint bucket_times s (es : list host_event) : list Z :=
  match es with
  | [] => []
  | e :: es => asked s e ++ bucket_times (host_step s e) es
  end.

(** The number of buttons in a mask. *)
Definition buttons_in (m : Z) : Z := Z.b2z (Z.testbit m 0) + Z.b2z (Z.testbit m 1) + Z.b2z (Z.testbit m 2).

Lemma buttons_in_range m : 0 <= buttons_in m <= 3.
Proof. unfold buttons_in. destruct (Z.testbit m 0), (Z.testbit m 1), (Z.testbit m 2); cbn; lia. Qed.

Lemma held_buttons_range e : 0 <= held_buttons e <= 7.
Proof.
  unfold held_buttons. change DEFINED_BUTTON_BITS with (Z.ones 3). rewrite Z.land_ones by lia.
  change (2 ^ 3) with 8. pose proof (Z.mod_pos_bound (InputEvent.button_mask e) 8). lia.
Qed.

(** A pure release leaves fewer buttons. *)
Lemma pure_release_fewer e m : 0 <= m <= 7 -> pure_release e m = true -> buttons_in (held_buttons e) + 1 <= buttons_in m.
Proof.
  pose proof (held_buttons_range e) as Hh. unfold pure_release. generalize (held_buttons e), Hh. clear e Hh. intros c Hc Hm Hp.
  assert (forallb (fun c => forallb (fun m => implb (negb (Z.land m (not_u8 c) =? 0) && (Z.land c (not_u8 m) =? 0))
    (buttons_in c + 1 <=? buttons_in m)) (seqZ 0 8)) (seqZ 0 8) = true) as Hall by reflexivity.
  rewrite forallb_forall in Hall. specialize (Hall c ltac:(apply list_elem_of_In, elem_of_seqZ; lia)).
  rewrite forallb_forall in Hall. specialize (Hall m ltac:(apply list_elem_of_In, elem_of_seqZ; lia)).
  cbn beta in Hall. rewrite Hp in Hall. by apply Z.leb_le.
Qed.

Lemma host_step_count s e : 0 <= admitted_button_mask s <= 7 ->
  let s' := host_step s e in
  0 <= admitted_button_mask s' <= 7 /\
  hi_limiter s' = fst (allow_run (hi_limiter s) (asked s e)) /\
  Z.of_nat (length (accepted_now s e)) + buttons_in (admitted_button_mask s') <=
    4 * snd (allow_run (hi_limiter s) (asked s e)) + buttons_in (admitted_button_mask s).
Proof.
  intros Hm. destruct e as [b now| |]; cbn [host_step asked accepted_now]; [| |split_and!; [cbn; lia|cbn; lia|done|cbn; lia]].
  2: { unfold thread_turn. repeat case_match; (split_and!; [cbn; lia|cbn; lia|done|cbn; lia]). }
  destruct (senders_open s) eqn:Ho; cbn [negb]; [|split_and!; [lia|lia|done|cbn; lia]].
  destruct (decode_input b) as [event|] eqn:Ed; [|unfold forward_input; rewrite Ed; split_and!; [lia|lia|done|cbn; lia]].
  destruct (input_release_admitted s b now event Ho Ed) as (_ & El & Em & _). cbn zeta in El, Em.
  assert (is_ok (snd (mpsc_try_send (queue s) event)) = has_room (mpsc_inspect (queue s))) as ->
    by (by destruct (try_send_cases (queue s) event) as (? & ? & -> & ? & _)).
  set (room := has_room _) in *. set (s' := forward_input s b now) in *.
  pose proof (held_buttons_range event) as Hh. pose proof (buttons_in_range (held_buttons event)). pose proof (buttons_in_range (admitted_button_mask s)).
  rewrite admit_input_eq. destruct (is_button event && _) eqn:Ex.
  - apply andb_true_iff in Ex as [Eb Ep]. rewrite Eb in Em. pose proof (pure_release_fewer event _ Hm Ep).
    rewrite El, Em. cbn [orb andb snd allow_run fst]. destruct room; cbn [andb length]; split_and!; try done; lia.
  - cbn [orb] in El, Em. cbn [allow_run]. destruct (allow (hi_limiter s) now) as [l a] eqn:Eal. cbn [fst snd] in *.
    rewrite El, Em. destruct a, room; cbn [andb length]; try (destruct (is_button event)); split_and!; try done; cbn; lia.
Qed.

Lemma allow_run_app l a b : allow_run l (a ++ b) =
  (fst (allow_run (fst (allow_run l a)) b), snd (allow_run l a) + snd (allow_run (fst (allow_run l a)) b)).
Proof.
  revert l. induction a as [|t a IH]; intros l; cbn [app allow_run fst snd]; [by destruct (allow_run l b)|].
  destruct (allow l t) as [l1 x]. rewrite IH. destruct (allow_run l1 a) as [l2 n]. cbn [fst snd].
  destruct (allow_run l2 b) as [l3 k]. cbn. f_equal. lia.
Qed.

Lemma accepted_count s es : 0 <= admitted_button_mask s <= 7 ->
  Z.of_nat (length (accepted s es)) <= 4 * snd (allow_run (hi_limiter s) (bucket_times s es)) + buttons_in (admitted_button_mask s).
Proof.
  revert s. induction es as [|e es IH]; intros s Hm; cbn [accepted bucket_times].
  { pose proof (buttons_in_range (admitted_button_mask s)). cbn. lia. }
  destruct (host_step_count s e Hm) as (Hm' & Hl & Hc). specialize (IH (host_step s e) Hm').
  rewrite length_app, allow_run_app, Nat2Z.inj_add. cbn [snd]. rewrite <- Hl. lia.
Qed.

Lemma bucket_times_bound t0 T s es :
  (forall b now, Message b now ∈ es -> t0 <= now <= T) -> Forall (fun t => t0 <= t <= T) (bucket_times s es) /\
  (length (bucket_times s es) <= length es)%nat.
Proof.
  revert s. induction es as [|e es IH]; intros s Ht; cbn [bucket_times length]; [done|].
  destruct (IH (host_step s e)) as [H1 H2]; [intros b now Hin; apply (Ht b now); by right|].
  assert (Forall (fun t => t0 <= t <= T) (asked s e) /\ (length (asked s e) <= 1)%nat) as [H3 H4].
  { destruct e as [b now| |]; cbn [asked]; try (split; [done|cbn; lia]).
    pose proof (Ht b now ltac:(left)). repeat case_match; split; cbn; try lia; repeat constructor; lia. }
  rewrite length_app. split; [by apply Forall_app|lia].
Qed.

(** C24. A peer cannot flood the host's input: in any session, under any interleaving, the number of
    events that reach the queue is at most four times the burst plus the rate times the elapsed
    time, whatever mixture of events is sent and although releases pass unthrottled (each needs
    an earlier press that did not).  The bucket's floating-point arithmetic adds less than
    [12 / 2^44] of an event per message.  At one instant a full burst does pass. *)
Theorem input_rate_bounded (i : I) es t0 T : 0 <= t0 -> T < 2 ^ 64 * NANOS_PER_SEC ->
  (forall b now, Message b now ∈ es -> t0 <= now <= T) -> t0 <= T ->
  let n := Z.of_nat (length (accepted (host_input_new i) es)) in
  NANOS_PER_SEC * 2 ^ 44 * n <=
    4 * (2 ^ 44 * (NANOS_PER_SEC * THROTTLED_INPUT_BURST + MAX_THROTTLED_INPUT_PER_SEC * (T - t0)) +
         3 * NANOS_PER_SEC * Z.of_nat (length es)) /\
  snd (allow_run (hi_limiter (host_input_new i)) (replicate 300 t0)) = THROTTLED_INPUT_BURST.
Proof.
  intros H0 HT Ht H0T. cbn zeta. split; [|apply host_burst_any].
  pose proof (accepted_count (host_input_new i) es ltac:(cbn; lia)) as Hc. change (buttons_in _) with 0 in Hc.
  destruct (bucket_times_bound t0 T (host_input_new i) es Ht) as [Hb Hlen]. cbn [hi_limiter host_input_new] in Hc.
  destruct (bucket_times (host_input_new i) es) as [|t ts]; [cbn [allow_run snd] in Hc; unfold NANOS_PER_SEC, THROTTLED_INPUT_BURST, MAX_THROTTLED_INPUT_PER_SEC; lia|].
  pose proof (rate_limiter_caps MAX_THROTTLED_INPUT_PER_SEC THROTTLED_INPUT_BURST 44 t ts T) as Hcap.
  cbn [length] in Hlen. apply Forall_cons_1 in Hb as [Hb0 Hb].
  specialize (Hcap ltac:(done) ltac:(done) ltac:(lia) ltac:(done)). change (Z.max THROTTLED_INPUT_BURST 1) with 120 in Hcap.
  set (N := snd (allow_run _ _)) in *.
  assert (NANOS_PER_SEC * 2 ^ 44 * N <= 2 ^ 44 * (NANOS_PER_SEC * 120 + MAX_THROTTLED_INPUT_PER_SEC * (T - t)) + 3 * NANOS_PER_SEC * Z.of_nat (length ts)) as HN.
  { apply Hcap; [|done]. constructor; [lia|]. eapply list.Forall_impl; [exact Hb|]. cbn. lia. }
  unfold NANOS_PER_SEC, THROTTLED_INPUT_BURST, MAX_THROTTLED_INPUT_PER_SEC in *. lia.
Qed.

End Host.

Definition toy_move : InputEvent.t :=
  {| InputEvent.event_type := InputEvent.PointerMove; InputEvent.modifiers := 0; InputEvent.pointer_x := 7;
     InputEvent.pointer_y := 9; InputEvent.button_mask := 0; InputEvent.key_code := 0; InputEvent.scroll_x := 0;
     InputEvent.scroll_y := 0; InputEvent.pressure := 0 |}.

Lemma input_rate_bounded_witness :
  length (accepted (host_input_new NoopInj) [Message (InputEvent.encode toy_move) 5]) = 1%nat /\
  NANOS_PER_SEC * 2 ^ 44 * 1 <=
    4 * (2 ^ 44 * (NANOS_PER_SEC * THROTTLED_INPUT_BURST + MAX_THROTTLED_INPUT_PER_SEC * (9 - 5)) + 3 * NANOS_PER_SEC * 1).
Proof.
  split; [reflexivity|].
  refine (proj1 (input_rate_bounded NoopInj [Message (InputEvent.encode toy_move) 5] 5 9 ltac:(lia) ltac:(reflexivity) _ ltac:(lia))).
  intros b now H. apply list_elem_of_singleton in H. injection H as -> ->. lia.
Defined.

(** Two movements, one of them injected before the session ends. *)
Lemma input_path_ordered_witness :
  let es := [Message (InputEvent.encode toy_move) 5; ThreadTurn; Message (InputEvent.encode toy_move) 6] in
  let s := host_run (host_input_new (Q := mpsc_view InputEvent.t) recording_injector_new) es in
  pending s = [toy_move] /\
  injector (host_run s (EndSession :: replicate (S (Z.to_nat INPUT_QUEUE_DEPTH)) ThreadTurn)) =
    {| rec_events := [toy_move; toy_move] |}.
Proof.
  split; [vm_compute; reflexivity|].
  pose proof (input_path_ordered (Q := mpsc_view InputEvent.t) recording_injector_new
    [Message (InputEvent.encode toy_move) 5; ThreadTurn; Message (InputEvent.encode toy_move) 6]) as (_ & _ & _ & _ & _ & H).
  refine (eq_trans H _). vm_compute. reflexivity.
Defined.
