(* ===== verification/Desktop.v ===== *)
(** * Injectors and the desktop they act on

    What the injectors of the three platforms have in common.  A method on [&mut self] that may
    fail keeps the state it has reached ([method]).  A desktop is seen as the sequence of presses
    and releases it has received; [DesktopLaws] is the contract of an injector towards it: between
    events exactly the buttons of the tracked mask are down, and [release_all] lets go of them.
    [session_releases] is proved against the contract, for the whole input path. *)

From stdpp Require Import base numbers list option strings.
From S2P Require Import Prelude Decimal ShpMessages InputCore HostInput.

(** ** Methods that may fail *)

Definition method (S A : Type) : Type := S -> S * result InputError A.

Section Method.
Context {S : Type}.

Definition ret {A} (a : A) : method S A := fun i => (i, Ok a).
Definition fail {A} (e : InputError) : method S A := fun i => (i, Err e).
Definition bind {A B} (m : method S A) (f : A -> method S B) : method S B :=
  fun i => match m i with (i, Ok a) => f a i | (i, Err e) => (i, Err e) end.
Definition of_option {A} (o : option A) (e : InputError) : method S A :=
  match o with Some a => ret a | None => fail e end.
(** [let r = m;] keeps the result as a value. *)
Definition attempt {A} (m : method S A) : method S (result InputError A) := fun i => let '(i, r) := m i in (i, Ok r).

(** A [for] loop whose body may return early with an error. *)
Fixpoint for_each {A} (l : list A) (f : A -> method S unit) : method S unit :=
  match l with
  | [] => ret tt
  | a :: l => bind (f a) (fun _ => for_each l f)
  end.

Lemma bind_ok {A B} (m : method S A) (k : A -> method S B) i i1 a : m i = (i1, Ok a) -> bind m k i = k a i1.
Proof. unfold bind. by intros ->. Qed.

Lemma bind_err {A B} (m : method S A) (k : A -> method S B) i i1 e : m i = (i1, Err e) -> bind m k i = (i1, Err e).
Proof. unfold bind. by intros ->. Qed.

(** A loop, of whose steps each extends a log by what [out] gives. *)
Lemma for_each_log {A B} (sends : S -> S -> list B -> Prop) (l : list A) (body : A -> method S unit) (out : A -> list B) :
  (forall i, sends i i []) -> (forall i1 i2 i3 a b, sends i1 i2 a -> sends i2 i3 b -> sends i1 i3 (a ++ b)) ->
  (forall a i, exists i', body a i = (i', Ok tt) /\ sends i i' (out a)) ->
  forall i, exists i', for_each l body i = (i', Ok tt) /\ sends i i' (concat (map out l)).
Proof.
  intros Hr Ht Hb. induction l as [|a l IH]; intros i; [by exists i|].
  destruct (Hb a i) as (i1 & E1 & S1). destruct (IH i1) as (i2 & E2 & S2). exists i2.
  cbn [for_each map concat]. rewrite (bind_ok _ _ _ i1 tt E1). split; [done|]. by eapply Ht.
Qed.
End Method.

Declare Scope method_scope.
Delimit Scope method_scope with method.
Notation "'do' x := m 'in' k" := (bind m (fun x => k)) (at level 10, x name, m at level 100, k at level 200) : method_scope.
Notation "m1 ;; m2" := (bind m1 (fun _ => m2)) (at level 100, right associativity) : method_scope.

Definition backend (msg : string) (e : bytes) : InputError := InputBackend (lit msg ++ e).

(** [Display] of the errors. *)
Definition input_error_text (e : InputError) : bytes :=
  match e with
  | ZeroSizeAxis w h => lit "target rect has zero-size axis: width=" ++ dec 20 w ++ lit " height=" ++ dec 20 h
  | InputUnsupported reason => lit "unsupported event: " ++ lit reason
  | InputBackend msg => lit "injection backend error: " ++ msg
  end.

(** ** Presses and releases *)

Inductive Control := CButton (b : Z) | CKey (k : Z).
#[global] Instance control_eq_dec : EqDecision Control. Proof. solve_decision. Defined.

(** Whether the last event about a control is its press. *)
Definition down_from (d : bool) (l : list (Control * bool)) (c : Control) : bool :=
  fold_left (fun d '(c', press) => if bool_decide (c' = c) then press else d) l d.
Definition is_down := down_from false.

(** The bits of a button mask and the buttons (1 left, 2 middle, 3 right) they stand for: in the
    tables of the three injectors, and in the docs of [DEFINED_BUTTON_BITS] (left, right,
    middle), which the clients follow. *)
Definition INJECTOR_BUTTONS : list (Z * Z) := [(0x01, 1); (0x02, 2); (0x04, 3)].
Definition DOCUMENTED_BUTTONS : list (Z * Z) := [(0x01, 1); (0x02, 3); (0x04, 2)].

(** The controls that a table puts down when the mask is [m]: its buttons, and no key. *)
Definition down_by (table : list (Z * Z)) (m : Z) (c : Control) : bool :=
  match c with
  | CButton b => existsb (fun '(mask, b') => (b' =? b) && negb (Z.land m mask =? 0)) table
  | CKey _ => false
  end.
Definition wanted : Z -> Control -> bool := down_by INJECTOR_BUTTONS.

(** The two tables agree on the masks in which the right and the middle button are both held or
    both up. *)
Lemma tables_agree_iff m :
  (forall c, wanted m c = down_by DOCUMENTED_BUTTONS m c) <-> (Z.land m 0x02 = 0 <-> Z.land m 0x04 = 0).
Proof.
  rewrite <- !Z.eqb_eq. split.
  - intros H. specialize (H (CButton 2)). unfold wanted in H. cbn in H. rewrite !orb_false_r in H.
    by destruct (Z.land m 2 =? 0), (Z.land m 4 =? 0).
  - intros H [b|k]; [|done]. unfold wanted. cbn [down_by existsb INJECTOR_BUTTONS DOCUMENTED_BUTTONS].
    assert ((Z.land m 2 =? 0) = (Z.land m 4 =? 0)) as -> by (destruct (Z.land m 2 =? 0), (Z.land m 4 =? 0); intuition).
    rewrite !orb_false_r. f_equal. apply orb_comm.
Qed.

(** What an injector sends for a new mask, at the end of a session, and for a key. *)
Definition button_effects (curr prev : Z) : list (Control * bool) :=
  concat (map (fun '(mask, b) => if Z.land (Z.lxor curr prev) mask =? 0 then []
                                 else [(CButton b, negb (Z.land curr mask =? 0))]) INJECTOR_BUTTONS).
Definition release_effects (held : Z) : list (Control * bool) :=
  concat (map (fun '(mask, b) => if Z.land held mask =? 0 then [] else [(CButton b, false)]) INJECTOR_BUTTONS).
Definition key_effects (k : Z) (mods : list Z) : list (Control * bool) :=
  map (fun m => (CKey m, true)) mods ++ [(CKey k, true); (CKey k, false)] ++ map (fun m => (CKey m, false)) (rev mods).

Lemma down_from_app d a b c : down_from d (a ++ b) c = down_from (down_from d a c) b c.
Proof. apply fold_left_app. Qed.

Lemma down_app a b c : is_down (a ++ b) c = down_from (is_down a c) b c.
Proof. apply down_from_app. Qed.

Lemma same_masked curr prev mask : Z.land (Z.lxor curr prev) mask = 0 -> Z.land curr mask = Z.land prev mask.
Proof.
  intros H. apply Z.bits_inj'. intros n Hn. apply (f_equal (fun z => Z.testbit z n)) in H.
  rewrite Z.land_spec, Z.lxor_spec, Z.bits_0 in H. rewrite !Z.land_spec.
  destruct (Z.testbit curr n), (Z.testbit prev n), (Z.testbit mask n); done.
Qed.

Lemma masked_zero held mask : Z.land held DEFINED_BUTTON_BITS = 0 -> Z.land DEFINED_BUTTON_BITS mask = mask -> Z.land held mask = 0.
Proof. intros H <-. by rewrite Z.land_assoc, H. Qed.

Lemma wanted_masked m m' c : Z.land m DEFINED_BUTTON_BITS = Z.land m' DEFINED_BUTTON_BITS -> wanted m c = wanted m' c.
Proof.
  intros H. assert (forall mask, Z.land DEFINED_BUTTON_BITS mask = mask -> Z.land m mask = Z.land m' mask) as Hm.
  { intros mask E. by rewrite <- E, !Z.land_assoc, H. }
  destruct c as [b|]; [|done]. unfold wanted; cbn [down_by existsb INJECTOR_BUTTONS]. by rewrite (Hm 1 eq_refl), (Hm 2 eq_refl), (Hm 4 eq_refl).
Qed.

Lemma wanted_none m c : Z.land m DEFINED_BUTTON_BITS = 0 -> wanted m c = false.
Proof. intros H. rewrite (wanted_masked m 0) by done. destruct c; [|done]. unfold wanted; cbn [down_by existsb INJECTOR_BUTTONS]. by rewrite !andb_false_r. Qed.

Lemma wanted_other m b : b ∉ [1; 2; 3] -> wanted m (CButton b) = false.
Proof.
  intros Hb. assert (1 <> b /\ 2 <> b /\ 3 <> b) as (H1%Z.eqb_neq & H2%Z.eqb_neq & H3%Z.eqb_neq).
  { rewrite !elem_of_cons in Hb. intuition congruence. }
  unfold wanted; cbn [down_by existsb INJECTOR_BUTTONS]. by rewrite H1, H2, H3.
Qed.

(** A goal about a button: one of the three of the mask, or another. *)
Ltac which_button b :=
  destruct (Z.eqb_spec 1 b) as [H1|H1];
  [subst b|destruct (Z.eqb_spec 2 b) as [H2|H2]; [subst b|destruct (Z.eqb_spec 3 b) as [H3|H3]; [subst b|]]].
Ltac decide_buttons :=
  repeat first [rewrite (bool_decide_eq_false_2 (CButton _ = CButton _)) by congruence
               |rewrite (bool_decide_eq_true_2 (CButton _ = CButton _)) by congruence].

(** After the effects of a button event the new mask is down. *)
Lemma button_effects_down curr prev c : down_from (wanted prev c) (button_effects curr prev) c = wanted curr c.
Proof.
  destruct c as [b|k].
  - pose proof (same_masked curr prev 1) as S1. pose proof (same_masked curr prev 2) as S2. pose proof (same_masked curr prev 4) as S3.
    unfold button_effects. unfold wanted; cbn [down_by map concat existsb INJECTOR_BUTTONS].
    destruct (Z.eqb_spec (Z.land (Z.lxor curr prev) 1) 0) as [C1|C1], (Z.eqb_spec (Z.land (Z.lxor curr prev) 2) 0) as [C2|C2],
      (Z.eqb_spec (Z.land (Z.lxor curr prev) 4) 0) as [C3|C3];
      rewrite <- ?(S1 C1), <- ?(S2 C2), <- ?(S3 C3); cbn [app down_from fold_left];
      which_button b; decide_buttons; cbn; rewrite ?orb_false_r; done.
  - unfold button_effects. cbn [map concat INJECTOR_BUTTONS]. by repeat case_match.
Qed.

(** [release_all] sends what lets go of the mask. *)
Lemma release_effects_down held c : down_from (wanted held c) (release_effects held) c = false.
Proof.
  destruct c as [b|k].
  - unfold release_effects. unfold wanted; cbn [down_by map concat existsb INJECTOR_BUTTONS].
    destruct (Z.land held 1 =? 0), (Z.land held 2 =? 0), (Z.land held 4 =? 0); cbn [app down_from fold_left negb];
      which_button b; by decide_buttons.
  - unfold release_effects. cbn [map concat INJECTOR_BUTTONS]. by repeat case_match.
Qed.

Lemma presses_down d l c : down_from d (map (fun m => (CKey m, true)) l) c = d || bool_decide (c ∈ map CKey l).
Proof.
  revert d. induction l as [|k l IH]; intros d; cbn [map down_from fold_left]; [by rewrite orb_false_r|].
  unfold down_from in IH. rewrite IH. destruct (decide (CKey k = c)) as [<-|Hk].
  - rewrite bool_decide_eq_true_2 by done. rewrite (bool_decide_eq_true_2 (_ ∈ _ :: _)) by apply list_elem_of_here. by destruct d.
  - rewrite bool_decide_eq_false_2 by done. f_equal. apply bool_decide_ext. rewrite elem_of_cons. intuition congruence.
Qed.

Lemma releases_down d l c : down_from d (map (fun m => (CKey m, false)) l) c = d && bool_decide (c ∉ map CKey l).
Proof.
  revert d. induction l as [|k l IH]; intros d; cbn [map down_from fold_left].
  { rewrite bool_decide_eq_true_2 by apply not_elem_of_nil. by rewrite andb_true_r. }
  unfold down_from in IH. rewrite IH. destruct (decide (CKey k = c)) as [<-|Hk].
  - rewrite bool_decide_eq_true_2 by done. rewrite (bool_decide_eq_false_2 (_ ∉ _ :: _)); [by rewrite andb_false_r|].
    intros []. apply list_elem_of_here.
  - rewrite bool_decide_eq_false_2 by done. f_equal. apply bool_decide_ext. rewrite elem_of_cons. intuition congruence.
Qed.

(** A key and its modifiers are all up again, and no button has moved. *)
Lemma key_effects_down k mods m c : down_from (wanted m c) (key_effects k mods) c = wanted m c.
Proof.
  unfold key_effects. rewrite !down_from_app, presses_down, releases_down. cbn [down_from fold_left].
  destruct c as [b|k']; cbn [wanted].
  - rewrite (bool_decide_eq_false_2 (CKey k = _)) by done.
    assert (forall l, CButton b ∉ map CKey l) as Hn by (intros l (? & ? & _)%list_elem_of_fmap; done).
    rewrite (bool_decide_eq_false_2 (_ ∈ _)) by apply Hn. rewrite (bool_decide_eq_true_2 (_ ∉ _)) by apply Hn.
    by rewrite orb_false_r, andb_true_r.
  - case_bool_decide; [done|]. cbn [orb]. apply andb_false_iff. destruct (decide (CKey k' ∈ map CKey mods)) as [Hk|Hk].
    + right. apply bool_decide_eq_false. intros Hn. apply Hn. rewrite map_rev. by rewrite list_elem_of_In, <- in_rev, <- list_elem_of_In.
    + left. by apply bool_decide_eq_false.
Qed.

(** ** The contract of an injector *)

(** What the desktop has received, and the mask the injector remembers. *)
Class Desktop (I : Type) := { desk : I -> list (Control * bool); tracked : I -> Z }.

Definition mirrors {I} `{Desktop I} (i : I) : Prop := forall c, is_down (desk i) c = wanted (tracked i) c.

(** A step that sends [fs] and sets the tracked mask. *)
Definition acts {I} `{Desktop I} (i i' : I) (fs : list (Control * bool)) (m : Z) : Prop :=
  desk i' = desk i ++ fs /\ tracked i' = m.

(** An event keeps the mirror and tracks the mask of a button event; at the end nothing is down. *)
Class DesktopLaws (I : Type) `{InputInjector I} `{Desktop I} : Prop := {
  inject_mirrors i e : mirrors i -> mirrors (fst (inject i e));
  inject_tracks i e : tracked (fst (inject i e)) = if is_button e then InputEvent.button_mask e else tracked i;
  release_lets_go i c : mirrors i -> is_down (desk (release_all i)) c = false;
}.

(** Steps whose effects leave nothing else down keep the mirror. *)
Lemma acts_mirrors {I} `{Desktop I} (i i' : I) fs m :
  acts i i' fs m -> (forall c, down_from (wanted (tracked i) c) fs c = wanted m c) -> mirrors i -> mirrors i'.
Proof. intros [D T] Hf Hi c. by rewrite D, T, down_app, Hi, Hf. Qed.

Lemma acts_release {I} `{Desktop I} (i i' : I) m : acts i i' (release_effects (tracked i)) m -> mirrors i ->
  forall c, is_down (desk i') c = false.
Proof. intros [D _] Hi c. by rewrite D, down_app, Hi, release_effects_down. Qed.

Lemma mirrors_new {I} `{Desktop I} (i : I) : desk i = [] -> tracked i = 0 -> mirrors i.
Proof. intros D T c. rewrite D, T. symmetry. by apply wanted_none. Qed.

Section Session.
Context {I Q : Type} `{DL : DesktopLaws I} `{ML : MpscLaws InputEvent.t Q}.

Lemma inject_all_mirrors i es : mirrors i -> mirrors (inject_all i es).
Proof. revert i. induction es as [|e es IH]; intros i Hi; [done|]. apply IH. by apply inject_mirrors. Qed.

Lemma inject_all_tracks i es m : Z.land (tracked i) DEFINED_BUTTON_BITS = m ->
  Z.land (tracked (inject_all i es)) DEFINED_BUTTON_BITS = mask_after m es.
Proof.
  revert i m. induction es as [|e es IH]; intros i m Hm; [done|]. apply (IH (fst (inject i e))).
  rewrite inject_tracks. by destruct (is_button e).
Qed.

(** What a session of the host does to the desktop. *)
Definition session_clean (i : I) (es : list host_event) : Prop :=
  let s := host_run (Q := Q) (host_input_new i) es in
  (thread_done s = false ->
     (forall k, is_down (desk (injector s)) (CKey k) = false) /\
     (forall b, b ∉ [1; 2; 3] -> is_down (desk (injector s)) (CButton b) = false) /\
     (pending s = [] -> forall c, is_down (desk (injector s)) c = wanted (admitted_button_mask s) c)) /\
  let s' := host_run s (EndSession :: replicate (S (Z.to_nat INPUT_QUEUE_DEPTH)) ThreadTurn) in
  forall c, is_down (desk (injector s')) c = false.

Lemma session_releases i es : desk i = [] -> tracked i = 0 -> session_clean i es.
Proof.
  intros Hd Ht0. unfold session_clean. cbn zeta. pose proof (mirrors_new i Hd Ht0) as Hi.
  pose proof (host_run_inv (Q := Q) i [] _ es (host_new_inv i)) as Hinv. cbn [app] in Hinv.
  pose proof Hinv as [_ Hq Hm (inj & Hl & Hj) _]. split.
  - intros Ht. rewrite Ht in Hj. rewrite Hj. pose proof (inject_all_mirrors i inj Hi) as Ha.
    split; [intros k; by rewrite Ha|]. split; [intros b Hb; rewrite Ha; by apply wanted_other|].
    intros Eq c. rewrite Eq, app_nil_r in Hl. rewrite Ha, Hm, Hl. apply wanted_masked.
    rewrite (inject_all_tracks i inj 0) by (by rewrite Ht0).
    assert (forall m, Z.land m DEFINED_BUTTON_BITS = m -> forall es, Z.land (mask_after m es) DEFINED_BUTTON_BITS = mask_after m es) as Hma.
    { clear. intros m Hm es. revert m Hm. induction es as [|e es IH]; intros m Hm; [done|]. apply IH. destruct (is_button e); [|done].
      unfold held_buttons. by rewrite <- Z.land_assoc. }
    symmetry. by apply Hma.
  - destruct (teardown_inv i _ _ (S (Z.to_nat INPUT_QUEUE_DEPTH)) Hinv ltac:(lia)) as (_ & _ & ->).
    intros c. apply release_lets_go, inject_all_mirrors, Hi.
Qed.
End Session.
