(* ===== verification/XTest.v ===== *)
(** * Input injection on X11 (crates/sh-platform-linux/src/injector.rs)

    [XTestInjector]: every protocol event becomes XTEST requests on a connection.  The x11rb
    crate is the class [XConn]; its errors are values, and the methods keep the state they have
    reached when a request fails.  [XConnLaws] says what the connection does with requests: those
    that succeed are delivered in order.  Over a connection that delivers, the injector meets the
    contract of Desktop.v. *)

From stdpp Require Import base numbers list option strings sets.
From S2P Require Import Prelude Decimal ShpMessages InputCore Float64 HostInput Desktop.

Definition MOTION_NOTIFY : Z := 6.
Definition BUTTON_PRESS : Z := 4.
Definition BUTTON_RELEASE : Z := 5.
Definition KEY_PRESS : Z := 2.
Definition KEY_RELEASE : Z := 3.

Definition BUTTON_MAP : list (Z * Z) := [(0x01, 1); (0x02, 2); (0x04, 3)].

(** The arguments of [xtest_fake_input] that vary. *)
Record FakeInput := { fi_type : Z; fi_detail : Z; fi_root : Z; fi_x : Z; fi_y : Z }.
Record Screen := { scr_root : Z; width_in_pixels : Z; height_in_pixels : Z }.

(** x11rb: a connection and its requests.  Errors are given as the text they display. *)
Class XConn (X : Type) := {
  x_roots : X -> list Screen;
  x_min_keycode : X -> Z;
  x_max_keycode : X -> Z;
  x_query_extension : X -> X * result bytes unit;
  x_extension_present : X -> X * result bytes bool;
  x_get_keyboard_mapping : X -> Z -> Z -> X * result bytes unit;
  x_keyboard_mapping_reply : X -> X * result bytes (Z * list Z);
  x_fake_input : X -> FakeInput -> X * result bytes unit;
  x_flush : X -> X * result bytes unit;
}.

(** ** Key tables *)

Definition hid_to_keysym (hid : Z) : option Z :=
  match hid with
  | 0x04 => Some 0x0061 | 0x05 => Some 0x0062 | 0x06 => Some 0x0063 | 0x07 => Some 0x0064
  | 0x08 => Some 0x0065 | 0x09 => Some 0x0066 | 0x0A => Some 0x0067 | 0x0B => Some 0x0068
  | 0x0C => Some 0x0069 | 0x0D => Some 0x006A | 0x0E => Some 0x006B | 0x0F => Some 0x006C
  | 0x10 => Some 0x006D | 0x11 => Some 0x006E | 0x12 => Some 0x006F | 0x13 => Some 0x0070
  | 0x14 => Some 0x0071 | 0x15 => Some 0x0072 | 0x16 => Some 0x0073 | 0x17 => Some 0x0074
  | 0x18 => Some 0x0075 | 0x19 => Some 0x0076 | 0x1A => Some 0x0077 | 0x1B => Some 0x0078
  | 0x1C => Some 0x0079 | 0x1D => Some 0x007A | 0x1E => Some 0x0031 | 0x1F => Some 0x0032
  | 0x20 => Some 0x0033 | 0x21 => Some 0x0034 | 0x22 => Some 0x0035 | 0x23 => Some 0x0036
  | 0x24 => Some 0x0037 | 0x25 => Some 0x0038 | 0x26 => Some 0x0039 | 0x27 => Some 0x0030
  | 0x28 => Some 0xFF0D | 0x29 => Some 0xFF1B | 0x2A => Some 0xFF08 | 0x2B => Some 0xFF09
  | 0x2C => Some 0x0020 | 0x2D => Some 0x002D | 0x2E => Some 0x003D | 0x2F => Some 0x005B
  | 0x30 => Some 0x005D | 0x31 => Some 0x005C | 0x33 => Some 0x003B | 0x34 => Some 0x0027
  | 0x35 => Some 0x0060 | 0x36 => Some 0x002C | 0x37 => Some 0x002E | 0x38 => Some 0x002F
  | 0x4F => Some 0xFF53 | 0x50 => Some 0xFF51 | 0x51 => Some 0xFF54 | 0x52 => Some 0xFF52
  | 0x3A => Some 0xFFBE | 0x3B => Some 0xFFBF | 0x3C => Some 0xFFC0 | 0x3D => Some 0xFFC1
  | 0x3E => Some 0xFFC2 | 0x3F => Some 0xFFC3 | 0x40 => Some 0xFFC4 | 0x41 => Some 0xFFC5
  | 0x42 => Some 0xFFC6 | 0x43 => Some 0xFFC7 | 0x44 => Some 0xFFC8 | 0x45 => Some 0xFFC9
  | 0x49 => Some 0xFF63 | 0x4A => Some 0xFF50 | 0x4B => Some 0xFF55 | 0x4C => Some 0xFFFF
  | 0x4D => Some 0xFF57 | 0x4E => Some 0xFF56 | 0xE0 => Some 0xFFE3 | 0xE1 => Some 0xFFE1
  | 0xE2 => Some 0xFFE9 | 0xE3 => Some 0xFFEB | 0xE4 => Some 0xFFE4 | 0xE5 => Some 0xFFE2
  | 0xE6 => Some 0xFFEA | 0xE7 => Some 0xFFEC
  | _ => None
  end.

Definition keysym_lookup (entries : list (Z * Z)) (keysym : Z) : option Z :=
  snd <$> find (fun '(ks, _) => ks =? keysym) entries.

(** [slice::chunks(n)] for [n > 0]; the fuel is the number of elements. *)
Fixpoint chunks (fuel n : nat) (l : list Z) : list (list Z) :=
  match fuel, l with
  | S fuel, _ :: _ => take n l :: chunks fuel n (drop n l)
  | _, _ => []
  end.

Definition add_keysym (keycode : Z) (entries : list (Z * Z)) (ks : Z) : list (Z * Z) :=
  if negb (ks =? 0) && negb (existsb (fun '(k, _) => k =? ks) entries) then entries ++ [(ks, keycode)] else entries.

(** The loop over the chunks with their index. *)
Fixpoint add_chunks (min_keycode kc_offset : Z) (cs : list (list Z)) (entries : list (Z * Z)) : list (Z * Z) :=
  match cs with
  | [] => entries
  | chunk :: cs =>
      let keycode := sat_add 255 min_keycode (if kc_offset <=? 255 then kc_offset else 255) in
      add_chunks min_keycode (kc_offset + 1) cs (fold_left (add_keysym keycode) chunk entries)
  end.

Definition build_keysym_entries (keysyms : list Z) (ks_per_kc min_keycode count : Z) : result InputError (list (Z * Z)) :=
  if ks_per_kc =? 0 then Err (InputBackend (lit "GetKeyboardMapping returned keysyms_per_keycode = 0")) else
  Ok (add_chunks min_keycode 0 (take (Z.to_nat count) (chunks (length keysyms) (Z.to_nat ks_per_kc) keysyms)) []).

Definition MOD_SHIFT : Z := 1.
Definition MOD_CTRL : Z := 2.
Definition MOD_ALT : Z := 4.
Definition MOD_META : Z := 8.

(** [Modifiers::contains] for a single flag. *)
Definition contains (modifiers flag : Z) : bool := Z.land modifiers flag =? flag.

Definition modifier_keycodes (modifiers : Z) (entries : list (Z * Z)) : list (Z * Z) :=
  let candidates := [(0xFFE1, contains modifiers MOD_SHIFT); (0xFFE3, contains modifiers MOD_CTRL);
                     (0xFFE9, contains modifiers MOD_ALT); (0xFFEB, contains modifiers MOD_META)] in
  omap (fun '(ks, _) => pair ks <$> keysym_lookup entries ks) (List.filter snd candidates).

(** ** The injector *)

Record XTestInjector (X : Type) := {
  xt_conn : X;
  xt_root : Z;
  xt_mapper : CoordMapper;
  prev_button_mask : Z;
  keysym_to_keycode : option (list (Z * Z));
}.
Arguments xt_conn {X} _.
Arguments xt_root {X} _.
Arguments xt_mapper {X} _.
Arguments prev_button_mask {X} _.
Arguments keysym_to_keycode {X} _.

Section Injector.
Context {X : Type} `{!XConn X}.
Implicit Types i : XTestInjector X.

Definition with_conn i x : XTestInjector X :=
  {| xt_conn := x; xt_root := xt_root i; xt_mapper := xt_mapper i; prev_button_mask := prev_button_mask i;
     keysym_to_keycode := keysym_to_keycode i |}.
Definition with_prev i m : XTestInjector X :=
  {| xt_conn := xt_conn i; xt_root := xt_root i; xt_mapper := xt_mapper i; prev_button_mask := m;
     keysym_to_keycode := keysym_to_keycode i |}.
Definition with_keymap i k : XTestInjector X :=
  {| xt_conn := xt_conn i; xt_root := xt_root i; xt_mapper := xt_mapper i; prev_button_mask := prev_button_mask i;
     keysym_to_keycode := k |}.

Local Open Scope method_scope.
Definition M (A : Type) : Type := method (XTestInjector X) A.

(** A request on the connection, its error under a message. *)
Definition request {A} (msg : string) (f : X -> X * result bytes A) : M A :=
  fun i => let '(x, r) := f (xt_conn i) in (with_conn i x, map_err (backend msg) r).

Definition fake (msg : string) (ty detail x y : Z) : M unit :=
  fun i => request msg (fun c => x_fake_input c
    {| fi_type := ty; fi_detail := detail; fi_root := xt_root i; fi_x := x; fi_y := y |}) i.

Definition flush : M unit := request "flush failed: " x_flush.

Definition fake_modifier_key (keycode : Z) (press : bool) : M unit :=
  fake "fake_input modifier failed: " (if press then KEY_PRESS else KEY_RELEASE) keycode 0 0.

Definition keysym_map : M (list (Z * Z)) :=
  fun i =>
  match keysym_to_keycode i with
  | Some entries => (i, Ok entries)
  | None =>
      let min_keycode := x_min_keycode (xt_conn i) in
      let max_keycode := x_max_keycode (xt_conn i) in
      let count := sat_add 255 (Z.max 0 (max_keycode - min_keycode)) 1 in
      (request "GetKeyboardMapping send failed: " (fun c => x_get_keyboard_mapping c min_keycode count) ;;
       do mapping := request "GetKeyboardMapping reply failed: " x_keyboard_mapping_reply in
       fun i => match build_keysym_entries (snd mapping) (fst mapping) min_keycode count with
                | Err e => (i, Err e)
                | Ok entries => (with_keymap i (Some entries), Ok entries)
                end) i
  end.

Definition i16_or_max (z : Z) : Z := if (-32768 <=? z) && (z <=? 32767) then z else 32767.

Definition inject_motion (event : InputEvent.t) : M unit :=
  fun i =>
  let pt := coord_map (xt_mapper i) (InputEvent.pointer_x event) (InputEvent.pointer_y event) in
  (fake "fake_input motion failed: " MOTION_NOTIFY 0 (i16_or_max (px pt)) (i16_or_max (py pt)) ;; flush) i.

Definition inject_button (event : InputEvent.t) : M unit :=
  fun i =>
  let curr := InputEvent.button_mask event in
  let changed := Z.lxor curr (prev_button_mask i) in
  (for_each BUTTON_MAP (fun '(mask, x_button) =>
     if Z.land changed mask =? 0 then ret tt else
     let pressed := negb (Z.land curr mask =? 0) in
     fake "fake_input button failed: " (if pressed then BUTTON_PRESS else BUTTON_RELEASE) x_button 0 0) ;;
   flush) (with_prev i curr).

(** One press and release per axis that moves. *)
Definition wheel_axis (delta up down : Z) : M unit :=
  if delta =? 0 then ret tt else
  let btn := if 0 <? delta then up else down in
  fake "fake_input wheel press: " BUTTON_PRESS btn 0 0 ;; fake "fake_input wheel release: " BUTTON_RELEASE btn 0 0.

Definition inject_wheel (event : InputEvent.t) : M unit :=
  wheel_axis (InputEvent.scroll_y event) 4 5 ;; wheel_axis (InputEvent.scroll_x event) 7 6 ;; flush.

Definition inject_key (event : InputEvent.t) : M unit :=
  do keysym := of_option (hid_to_keysym (InputEvent.key_code event))
    (InputUnsupported "USB HID key code not in supported subset; key injection refused") in
  do map := keysym_map in
  do keycode := of_option (keysym_lookup map keysym) (InputUnsupported "keysym has no keycode binding on this X server") in
  let modifiers := List.filter (fun '(_, kc) => negb (kc =? keycode)) (modifier_keycodes (InputEvent.modifiers event) map) in
  for_each modifiers (fun '(_, kc) => fake_modifier_key kc true) ;;
  do key_result := attempt (fake "fake_input key press failed: " KEY_PRESS keycode 0 0 ;;
                            fake "fake_input key release failed: " KEY_RELEASE keycode 0 0) in
  for_each (rev modifiers) (fun '(_, kc) => attempt (fake_modifier_key kc false) ;; ret tt) ;;
  (match key_result with Ok _ => ret tt | Err e => fail e end) ;;
  flush.

Definition xtest_inject (event : InputEvent.t) : M unit :=
  match InputEvent.event_type event with
  | InputEvent.PointerMove => inject_motion event
  | InputEvent.Button => inject_button event
  | InputEvent.Wheel => inject_wheel event
  | InputEvent.Key => inject_key event
  | InputEvent.Touch => fail (InputUnsupported "Touch injection is not yet supported on Linux X11 (deferred: R-LINUX-WAYLAND)")
  | InputEvent.Pen => fail (InputUnsupported "Pen/stylus injection is not yet supported on Linux X11 (deferred: R-LINUX-WAYLAND)")
  end.

(** Results of requests are ignored. *)
Definition xtest_release_all i : XTestInjector X :=
  let held := prev_button_mask i in
  if Z.land held DEFINED_BUTTON_BITS =? 0 then i else
  fst ((for_each BUTTON_MAP (fun '(mask, x_button) =>
          if Z.land held mask =? 0 then ret tt else attempt (fake "" BUTTON_RELEASE x_button 0 0) ;; ret tt) ;;
        attempt flush) (with_prev i 0)).

#[export] Instance xtest_injector : InputInjector (XTestInjector X) := {
  inject i event := xtest_inject event i;
  release_all i := xtest_release_all i;
}.

(** [connected] is the result of [x11rb::connect]: a connection and the number of its screen. *)
Definition xtest_new (connected : result bytes (X * Z)) : result InputError (XTestInjector X) :=
  let? c := map_err (backend "x11rb::connect failed: ") connected in
  let '(conn, screen_num) := c in
  let '(conn, r) := x_query_extension conn in
  let? _ := map_err (backend "query_extension send failed: ") r in
  let '(conn, r) := x_extension_present conn in
  let? present := map_err (backend "query_extension reply failed: ") r in
  if negb present then Err (InputBackend (lit "XTEST extension is not available on this X server")) else
  let? screen := ok_or (x_roots conn !! Z.to_nat screen_num)
    (InputBackend (lit "screen " ++ dec 20 screen_num ++ lit " not found")) in
  let w := width_in_pixels screen in
  let h := height_in_pixels screen in
  let? rect := map_err (fun e => InputBackend (lit "invalid display geometry " ++ dec 20 w ++ [0xC3; 0x97] ++ dec 20 h ++
                                               lit ": " ++ input_error_text e)) (target_rect_new 0 0 w h) in
  let? mapper := map_err (fun e => backend "CoordMapper construction failed: " (input_error_text e)) (coord_mapper_new rect) in
  Ok {| xt_conn := conn; xt_root := scr_root screen; xt_mapper := mapper; prev_button_mask := 0;
        keysym_to_keycode := None |}.

End Injector.

(** ** What the server sees *)

(** Requests that succeed are delivered in order, the others not at all; [x_log] is what has been
    delivered. *)
Class XConnLaws (X : Type) `{XC : XConn X} := {
  x_log : X -> list FakeInput;
  x_log_fake x f : x_log (fst (x_fake_input x f)) =
    x_log x ++ (if is_ok (snd (x_fake_input x f)) then [f] else []);
  x_log_flush x : x_log (fst (x_flush x)) = x_log x;
  x_log_get_mapping x a b : x_log (fst (x_get_keyboard_mapping x a b)) = x_log x;
  x_log_mapping_reply x : x_log (fst (x_keyboard_mapping_reply x)) = x_log x;
}.

(** What a request does to the server's buttons and keys. *)
Definition fake_effect (f : FakeInput) : list (Control * bool) :=
  if fi_type f =? BUTTON_PRESS then [(CButton (fi_detail f), true)] else
  if fi_type f =? BUTTON_RELEASE then [(CButton (fi_detail f), false)] else
  if fi_type f =? KEY_PRESS then [(CKey (fi_detail f), true)] else
  if fi_type f =? KEY_RELEASE then [(CKey (fi_detail f), false)] else [].

Section Server.
Context {X : Type} `{XL : XConnLaws X}.
Implicit Types i : XTestInjector X.

#[export] Instance xtest_desktop : Desktop (XTestInjector X) := {
  desk i := flat_map fake_effect (x_log (xt_conn i));
  tracked i := prev_button_mask i;
}.

(** A step that leaves the tracked mask alone. *)
Definition sends i i' (fs : list (Control * bool)) : Prop := acts i i' fs (prev_button_mask i).

Lemma sends_refl i : sends i i [].
Proof. unfold sends, acts. by rewrite app_nil_r. Qed.

Lemma sends_trans i1 i2 i3 a b : sends i1 i2 a -> sends i2 i3 b -> sends i1 i3 (a ++ b).
Proof. unfold sends, acts. cbn [tracked xtest_desktop]. intros [L1 P1] [L2 P2]. rewrite (assoc_L (++)). split; congruence. Qed.

Lemma bind_sends {A B} (m : method (XTestInjector X) A) (k : A -> method (XTestInjector X) B) i i1 a fs1 fs2 :
  m i = (i1, Ok a) -> sends i i1 fs1 -> sends i1 (fst (k a i1)) fs2 -> sends i (fst (bind m k i)) (fs1 ++ fs2).
Proof. unfold bind. intros -> S1 S2. by apply (sends_trans i i1). Qed.

Lemma flush_sends i : sends i (fst (flush i)) [].
Proof.
  unfold flush, request, sends, acts. cbn [desk tracked xtest_desktop]. pose proof (x_log_flush (xt_conn i)) as H.
  destruct (x_flush _) as [x r]. cbn in *. by rewrite H, app_nil_r.
Qed.

Lemma keysym_map_sends i : sends i (fst (keysym_map i)) [].
Proof.
  unfold keysym_map. destruct (keysym_to_keycode i); [apply sends_refl|].
  unfold bind, request, sends, acts. cbn.
  set (count := sat_add _ _ _). pose proof (x_log_get_mapping (xt_conn i) (x_min_keycode (xt_conn i)) count) as H1.
  destruct (x_get_keyboard_mapping _ _ _) as [x1 [[]|e]]; cbn in *; [|by rewrite H1, app_nil_r].
  pose proof (x_log_mapping_reply x1) as H2. destruct (x_keyboard_mapping_reply x1) as [x2 [m|e]]; cbn in *.
  - by destruct (build_keysym_entries _ _ _ _); cbn; rewrite H2, H1, app_nil_r.
  - by rewrite H2, H1, app_nil_r.
Qed.

(** On a connection that delivers everything. *)
Section Working.
Context (works : forall (x : X) f, snd (x_fake_input x f) = Ok tt).

Lemma fake_sends msg ty d x y i : exists i', fake msg ty d x y i = (i', Ok tt) /\
  sends i i' (fake_effect {| fi_type := ty; fi_detail := d; fi_root := 0; fi_x := x; fi_y := y |}).
Proof.
  unfold fake, request. set (f := {| fi_type := ty |}). pose proof (works (xt_conn i) f) as W.
  pose proof (x_log_fake (xt_conn i) f) as L. destruct (x_fake_input _ f) as [x' r]. cbn in *. subst r.
  eexists. split; [done|]. unfold sends, acts. cbn [desk tracked xtest_desktop with_conn xt_conn prev_button_mask].
  rewrite L, flat_map_app. split; [|done]. f_equal. cbn [flat_map]. apply app_nil_r.
Qed.

Lemma attempt_fake_sends msg ty d i : exists i', bind (attempt (fake msg ty d 0 0)) (fun _ => ret tt) i = (i', Ok tt) /\
  sends i i' (fake_effect {| fi_type := ty; fi_detail := d; fi_root := 0; fi_x := 0; fi_y := 0 |}).
Proof. unfold attempt, bind. destruct (fake_sends msg ty d 0 0 i) as (i' & -> & S). eauto. Qed.

(** A loop of requests. *)
Lemma for_each_sends {A} (l : list A) (body : A -> method (XTestInjector X) unit) (out : A -> list (Control * bool)) i :
  (forall a i, exists i', body a i = (i', Ok tt) /\ sends i i' (out a)) ->
  exists i', for_each l body i = (i', Ok tt) /\ sends i i' (concat (map out l)).
Proof. intros Hb. apply (for_each_log sends); auto using sends_refl. apply sends_trans. Qed.

Lemma concat_singles {A B} (f : A -> B) (l : list A) : concat (map (fun a => [f a]) l) = map f l.
Proof. induction l as [|a l IH]; [done|]. cbn. by rewrite IH. Qed.

Lemma inject_button_acts event i :
  acts i (fst (inject_button event i)) (button_effects (InputEvent.button_mask event) (prev_button_mask i)) (InputEvent.button_mask event).
Proof.
  set (curr := InputEvent.button_mask event). set (i0 := with_prev i curr).
  assert (sends i0 (fst (inject_button event i)) (button_effects curr (prev_button_mask i))) as S; [|exact S].
  unfold inject_button. fold curr. cbn zeta. fold i0.
  edestruct (for_each_sends BUTTON_MAP) with (i := i0) as (i1 & E1 & S1).
  { instantiate (2 := fun '(mask, b) => _). intros [mask b] i'.
    instantiate (1 := fun '(mask, b) => if Z.land (Z.lxor curr (prev_button_mask i)) mask =? 0 then []
                                        else [(CButton b, negb (Z.land curr mask =? 0))]).
    instantiate (1 := if Z.land (Z.lxor curr (prev_button_mask i)) mask =? 0 then ret tt else
      fake "fake_input button failed: " (if negb (Z.land curr mask =? 0) then BUTTON_PRESS else BUTTON_RELEASE) b 0 0).
    cbn beta iota. destruct (Z.land (Z.lxor _ _) mask =? 0); [exists i'; split; [done|apply sends_refl]|].
    destruct (Z.land curr mask =? 0); apply fake_sends. }
  rewrite <- (app_nil_r (button_effects _ _)). eapply (bind_sends _ _ i0 i1); [exact E1|exact S1|apply flush_sends].
Qed.

Lemma wheel_axis_sends delta up down i : exists i', wheel_axis delta up down i = (i', Ok tt) /\
  sends i i' (if delta =? 0 then [] else
    let btn := if 0 <? delta then up else down in [(CButton btn, true); (CButton btn, false)]).
Proof.
  unfold wheel_axis. destruct (delta =? 0); [exists i; split; [done|apply sends_refl]|]. cbn zeta.
  set (btn := if 0 <? delta then up else down). unfold bind.
  destruct (fake_sends "fake_input wheel press: " BUTTON_PRESS btn 0 0 i) as (i1 & -> & S1).
  destruct (fake_sends "fake_input wheel release: " BUTTON_RELEASE btn 0 0 i1) as (i2 & -> & S2). exists i2. split; [done|].
  exact (sends_trans i i1 i2 [_] [_] S1 S2).
Qed.

(** A key: nothing when it is refused, otherwise its modifiers around it. *)
Lemma inject_key_sends event i :
  sends i (fst (inject_key event i)) [] \/
  exists (kc : Z) (mods : list Z), sends i (fst (inject_key event i)) (key_effects kc mods).
Proof.
  remember (inject_key event i) as r eqn:Er. unfold inject_key in Er.
  destruct (hid_to_keysym _) as [ks|]; cbn [of_option] in Er; [|left; subst r; apply sends_refl].
  rewrite (bind_ok _ _ _ i ks eq_refl) in Er. pose proof (keysym_map_sends i) as S0.
  destruct (keysym_map i) as [i0 [km|e]] eqn:E0; cbn [fst] in S0; [|left; rewrite (bind_err _ _ _ i0 e E0) in Er; by subst r].
  rewrite (bind_ok _ _ _ i0 km E0) in Er.
  destruct (keysym_lookup km ks) as [kc|]; cbn [of_option] in Er; [|left; by subst r].
  rewrite (bind_ok _ _ _ i0 kc eq_refl) in Er. cbn zeta in Er.
  set (mods := List.filter _ _) in Er. right. exists kc, (map snd mods).
  destruct (for_each_sends mods (fun '(_, kc0) => fake_modifier_key kc0 true) (fun m => [(CKey (snd m), true)]) i0) as (i1 & E1 & S1).
  { intros [? k] i'. apply fake_sends. }
  rewrite (bind_ok _ _ _ i1 tt E1) in Er.
  destruct (fake_sends "fake_input key press failed: " KEY_PRESS kc 0 0 i1) as (i2 & E2 & S2).
  destruct (fake_sends "fake_input key release failed: " KEY_RELEASE kc 0 0 i2) as (i3 & E3 & S3).
  rewrite (bind_ok _ _ _ i3 (Ok tt)) in Er by (unfold attempt; by rewrite (bind_ok _ _ _ i2 tt E2), E3).
  destruct (for_each_sends (rev mods) (fun '(_, kc0) => bind (attempt (fake_modifier_key kc0 false)) (fun _ => ret tt))
    (fun m => [(CKey (snd m), false)]) i3) as (i4 & E4 & S4).
  { intros [? k] i'. apply (attempt_fake_sends "fake_input modifier failed: " KEY_RELEASE). }
  rewrite (bind_ok _ _ _ i4 tt E4), (bind_ok _ _ _ i4 tt eq_refl) in Er. subst r.
  pose proof (sends_trans _ _ _ _ _ S0 (sends_trans _ _ _ _ _ S1 (sends_trans _ _ _ _ _ S2 (sends_trans _ _ _ _ _ S3
    (sends_trans _ _ _ _ _ S4 (flush_sends i4)))))) as S. cbn [app] in S.
  rewrite app_nil_r, !concat_singles in S. unfold key_effects. rewrite <- map_rev, !map_map. exact S.
Qed.

Lemma sends_mirrors i i' fs : sends i i' fs ->
  (forall c, down_from (wanted (prev_button_mask i) c) fs c = wanted (prev_button_mask i) c) -> mirrors i -> mirrors i'.
Proof. intros S Hf. exact (acts_mirrors i i' fs _ S Hf). Qed.

(** A press and release of a wheel button. *)
Lemma wheel_mirrors delta up down i i' : sends i i' (if delta =? 0 then [] else
    let btn := if 0 <? delta then up else down in [(CButton btn, true); (CButton btn, false)]) ->
  up ∉ [1; 2; 3] -> down ∉ [1; 2; 3] -> mirrors i -> mirrors i'.
Proof.
  intros S Hu Hd. apply (sends_mirrors i i' _ S). intros c. destruct (delta =? 0); [done|]. cbn zeta.
  set (btn := if 0 <? delta then up else down). cbn [down_from fold_left]. case_bool_decide as E; [|done].
  subst c. symmetry. apply wanted_other. subst btn. by destruct (0 <? delta).
Qed.

Lemma inject_motion_sends event i : sends i (fst (inject_motion event i)) [].
Proof.
  unfold inject_motion. set (p := coord_map _ _ _).
  destruct (fake_sends "fake_input motion failed: " MOTION_NOTIFY 0 (i16_or_max (px p)) (i16_or_max (py p)) i) as (i1 & E1 & S1).
  apply (bind_sends _ _ i i1 tt [] []); [done|exact S1|apply flush_sends].
Qed.

Lemma inject_wheel_steps event i : exists i1 i2,
  sends i i1 (if InputEvent.scroll_y event =? 0 then [] else
    let btn := if 0 <? InputEvent.scroll_y event then 4 else 5 in [(CButton btn, true); (CButton btn, false)]) /\
  sends i1 i2 (if InputEvent.scroll_x event =? 0 then [] else
    let btn := if 0 <? InputEvent.scroll_x event then 7 else 6 in [(CButton btn, true); (CButton btn, false)]) /\
  sends i2 (fst (inject_wheel event i)) [].
Proof.
  unfold inject_wheel.
  destruct (wheel_axis_sends (InputEvent.scroll_y event) 4 5 i) as (i1 & E1 & S1). rewrite (bind_ok _ _ _ i1 tt E1).
  destruct (wheel_axis_sends (InputEvent.scroll_x event) 7 6 i1) as (i2 & E2 & S2). rewrite (bind_ok _ _ _ i2 tt E2).
  exists i1, i2. auto using flush_sends.
Qed.

Lemma release_all_acts i :
  exists m, acts i (xtest_release_all i) (release_effects (prev_button_mask i)) m.
Proof.
  unfold xtest_release_all. set (held := prev_button_mask i).
  destruct (Z.eqb_spec (Z.land held DEFINED_BUTTON_BITS) 0) as [E|E].
  { eexists. split; [|done]. unfold release_effects. cbn [map concat INJECTOR_BUTTONS].
    rewrite !(masked_zero held _ E eq_refl). by rewrite app_nil_r. }
  exists 0. set (i0 := with_prev i 0).
  destruct (for_each_sends BUTTON_MAP
    (fun '(mask, x_button) => if Z.land held mask =? 0 then ret tt
                              else bind (attempt (fake "" BUTTON_RELEASE x_button 0 0)) (fun _ => ret tt))
    (fun '(mask, b) => if Z.land held mask =? 0 then [] else [(CButton b, false)]) i0) as (i1 & E1 & S1).
  { intros [mask b] i'. destruct (Z.land held mask =? 0); [exists i'; split; [done|apply sends_refl]|].
    apply (attempt_fake_sends "" BUTTON_RELEASE). }
  rewrite (bind_ok _ _ _ i1 tt E1). unfold attempt. pose proof (flush_sends i1) as Sf. destruct (flush i1) as [i2 r].
  pose proof (sends_trans _ _ _ _ _ S1 Sf) as S. rewrite app_nil_r in S. exact S.
Qed.

(** The injector over a connection that delivers meets the contract. *)
Lemma xtest_desktop_laws : DesktopLaws (XTestInjector X).
Proof.
  split.
  - intros i event. cbn [inject xtest_injector]. unfold xtest_inject. destruct (InputEvent.event_type event); try done.
    + by apply (sends_mirrors i _ _ (inject_motion_sends event i)).
    + apply (acts_mirrors i _ _ _ (inject_button_acts event i)). intros c. apply button_effects_down.
    + destruct (inject_wheel_steps event i) as (i1 & i2 & S1 & S2 & S3). intros Hi.
      apply (sends_mirrors i2 _ _ S3); [done|].
      eapply wheel_mirrors; [exact S2|by apply (bool_decide_unpack _)..|].
      eapply wheel_mirrors; [exact S1|by apply (bool_decide_unpack _)..|done].
    + destruct (inject_key_sends event i) as [S|(kc & mods & S)]; apply (sends_mirrors i _ _ S); [done|].
      intros c. apply key_effects_down.
  - intros i event. cbn [inject xtest_injector]. unfold xtest_inject, is_button.
    destruct (InputEvent.event_type event); rewrite ?bool_decide_eq_true_2, ?(bool_decide_eq_false_2 (_ = _)) by done; try done.
    + apply (inject_motion_sends event i).
    + apply inject_button_acts.
    + destruct (inject_wheel_steps event i) as (i1 & i2 & [_ P1] & [_ P2] & [_ P3]). cbn [tracked xtest_desktop] in *. congruence.
    + destruct (inject_key_sends event i) as [S|(kc & mods & S)]; apply S.
  - intros i c Hi. destruct (release_all_acts i) as [m Hm]. by apply (acts_release i _ m).
Qed.

Lemma xtest_new_prev connected i : xtest_new connected = Ok i -> prev_button_mask i = 0.
Proof.
  unfold xtest_new. destruct connected as [[conn n]|e]; cbn; [|done].
  destruct (x_query_extension conn) as [c1 [[]|e]]; cbn; [|done].
  destruct (x_extension_present c1) as [c2 [[]|e]]; cbn; [|done|done].
  destruct (x_roots c2 !! Z.to_nat n) as [scr|]; cbn; [|done].
  destruct (target_rect_new _ _ _ _) as [r|e]; cbn; [|done]. destruct (coord_mapper_new r); cbn; [|done]. by intros [= <-].
Qed.

Lemma xtest_session_clean `{MpscLaws InputEvent.t Q} connected i es : xtest_new connected = Ok i -> x_log (xt_conn i) = [] -> session_clean (Q := Q) i es.
Proof.
  intros Hnew Hlog. pose proof xtest_desktop_laws. apply session_releases; [|by eapply xtest_new_prev].
  cbn [desk xtest_desktop]. by rewrite Hlog.
Qed.

End Working.
End Server.

(** ** Two concrete connections *)

(** The keyboard of the examples: Shift, Control and the letter a. *)
Definition toy_keysyms : list Z := [0xFFE1; 0xFFE3; 0x61].

(** One that delivers everything, and one that follows a script. *)
Record ToyX := { toy_log : list FakeInput }.
Record FlakyX := { flaky_log : list FakeInput; script : list bool }.

#[export] Instance toy_xconn : XConn ToyX := {
  x_roots _ := [{| scr_root := 1; width_in_pixels := 1920; height_in_pixels := 1080 |}];
  x_min_keycode _ := 8; x_max_keycode _ := 10;
  x_query_extension x := (x, Ok tt); x_extension_present x := (x, Ok true);
  x_get_keyboard_mapping x _ _ := (x, Ok tt); x_keyboard_mapping_reply x := (x, Ok (1, toy_keysyms));
  x_fake_input x f := ({| toy_log := toy_log x ++ [f] |}, Ok tt);
  x_flush x := (x, Ok tt);
}.

#[export] Program Instance toy_xlaws : XConnLaws ToyX := {| x_log := toy_log |}.
Solve All Obligations with done.

#[export] Instance flaky_xconn : XConn FlakyX := {
  x_roots _ := [{| scr_root := 1; width_in_pixels := 1920; height_in_pixels := 1080 |}];
  x_min_keycode _ := 8; x_max_keycode _ := 10;
  x_query_extension x := (x, Ok tt); x_extension_present x := (x, Ok true);
  x_get_keyboard_mapping x _ _ := (x, Ok tt); x_keyboard_mapping_reply x := (x, Ok (1, toy_keysyms));
  x_fake_input x f :=
    if hd true (script x) then ({| flaky_log := flaky_log x ++ [f]; script := tl (script x) |}, Ok tt)
    else ({| flaky_log := flaky_log x; script := tl (script x) |}, Err []);
  x_flush x := (x, Ok tt);
}.

#[export] Program Instance flaky_xlaws : XConnLaws FlakyX := {| x_log := flaky_log |}.
Next Obligation. intros x f. cbn. destruct (hd true (script x)); cbn; [done|by rewrite app_nil_r]. Qed.
Solve All Obligations with done.

Definition toy_xtest : XTestInjector ToyX :=
  {| xt_conn := {| toy_log := [] |}; xt_root := 1;
     xt_mapper := {| rect := {| origin_x := 0; origin_y := 0; width := 1920; height := 1080 |} |};
     prev_button_mask := 0; keysym_to_keycode := None |}.

Definition button_event (mask : Z) : InputEvent.t :=
  {| InputEvent.event_type := InputEvent.Button; InputEvent.modifiers := 0; InputEvent.pointer_x := 0;
     InputEvent.pointer_y := 0; InputEvent.button_mask := mask; InputEvent.key_code := 0; InputEvent.scroll_x := 0;
     InputEvent.scroll_y := 0; InputEvent.pressure := 0 |}.

Definition key_event (key mods : Z) : InputEvent.t :=
  {| InputEvent.event_type := InputEvent.Key; InputEvent.modifiers := mods; InputEvent.pointer_x := 0;
     InputEvent.pointer_y := 0; InputEvent.button_mask := 0; InputEvent.key_code := key; InputEvent.scroll_x := 0;
     InputEvent.scroll_y := 0; InputEvent.pressure := 0 |}.

(** Bit 1 of the mask, the right button of the protocol's clients, presses the server's button 2,
    the middle one; bit 2, their middle button, presses button 3, the right one. *)
Lemma right_button_presses_middle :
  desk (fst (xtest_inject (button_event 0x02) toy_xtest)) = [(CButton 2, true)] /\
  desk (fst (xtest_inject (button_event 0x04) toy_xtest)) = [(CButton 3, true)].
Proof. split; reflexivity. Qed.

(** When the press of the second modifier fails, the first one stays down. *)
Lemma failed_modifier_latches_first :
  let i := {| xt_conn := {| flaky_log := []; script := [true; false] |}; xt_root := 1; xt_mapper := xt_mapper toy_xtest;
              prev_button_mask := 0; keysym_to_keycode := None |} in
  let '(i', r) := xtest_inject (key_event 0x04 (MOD_SHIFT + MOD_CTRL)) i in
  is_ok r = false /\ is_down (desk i') (CKey 8) = true.
Proof. split; reflexivity. Qed.
