(* ===== verification/WinInject.v ===== *)
(** * Input injection on Windows (crates/sh-platform-win)

    keymap.rs, and the [SendInputInjector] of injector.rs: every protocol event becomes calls of
    [SendInput] with one [INPUT] each.  The call is the class [WinUser]: it answers with the number
    of events it inserted, and [WinUserLaws] says that an inserted event is the next one of the
    desktop's input stream.  The injector ignores the answer.  Flags and codes have the values of
    winuser.h. *)

From stdpp Require Import base numbers list option strings.
From S2P Require Import Prelude ShpMessages InputCore HostInput Desktop XTest.

(** ** keymap.rs *)

Definition hid_to_vk (hid : Z) : option Z :=
  if (0x04 <=? hid) && (hid <=? 0x1D) then Some (0x41 + (hid - 0x04)) else
  if (0x1E <=? hid) && (hid <=? 0x26) then Some (0x31 + (hid - 0x1E)) else
  if (0x3A <=? hid) && (hid <=? 0x45) then Some (0x70 + (hid - 0x3A)) else
  match hid with
  | 0x27 => Some 0x30
  | 0x28 => Some 0x0D | 0x29 => Some 0x1B | 0x2A => Some 0x08 | 0x2B => Some 0x09 | 0x2C => Some 0x20
  | 0x2D => Some 0xBD | 0x2E => Some 0xBB | 0x2F => Some 0xDB | 0x30 => Some 0xDD | 0x31 => Some 0xDC
  | 0x33 => Some 0xBA | 0x34 => Some 0xDE | 0x35 => Some 0xC0 | 0x36 => Some 0xBC | 0x37 => Some 0xBE
  | 0x38 => Some 0xBF
  | 0x49 => Some 0x2D | 0x4A => Some 0x24 | 0x4B => Some 0x21 | 0x4C => Some 0x2E | 0x4D => Some 0x23
  | 0x4E => Some 0x22
  | 0x4F => Some 0x27 | 0x50 => Some 0x25 | 0x51 => Some 0x28 | 0x52 => Some 0x26
  | 0xE0 => Some 0xA2 | 0xE1 => Some 0xA0 | 0xE2 => Some 0xA4 | 0xE3 => Some 0x5B
  | 0xE4 => Some 0xA3 | 0xE5 => Some 0xA1 | 0xE6 => Some 0xA5 | 0xE7 => Some 0x5C
  | _ => None
  end.

(** ** injector.rs *)

Definition MOUSEEVENTF_MOVE : Z := 0x0001.
Definition MOUSEEVENTF_LEFTDOWN : Z := 0x0002.
Definition MOUSEEVENTF_LEFTUP : Z := 0x0004.
Definition MOUSEEVENTF_RIGHTDOWN : Z := 0x0008.
Definition MOUSEEVENTF_RIGHTUP : Z := 0x0010.
Definition MOUSEEVENTF_MIDDLEDOWN : Z := 0x0020.
Definition MOUSEEVENTF_MIDDLEUP : Z := 0x0040.
Definition MOUSEEVENTF_WHEEL : Z := 0x0800.
Definition MOUSEEVENTF_HWHEEL : Z := 0x1000.
Definition MOUSEEVENTF_ABSOLUTE : Z := 0x8000.
Definition KEYEVENTF_KEYUP : Z := 0x0002.
Definition WHEEL_DELTA : Z := 120.

Definition VK_SHIFT : Z := 0x10.
Definition VK_CONTROL : Z := 0x11.
Definition VK_MENU : Z := 0x12.
Definition VK_LWIN : Z := 0x5B.

Record MOUSEINPUT := { dx : Z; dy : Z; mouseData : Z; mi_dwFlags : Z; mi_time : Z; mi_dwExtraInfo : Z }.
Record KEYBDINPUT := { wVk : Z; wScan : Z; ki_dwFlags : Z; ki_time : Z; ki_dwExtraInfo : Z }.
Inductive INPUT := INPUT_MOUSE (mi : MOUSEINPUT) | INPUT_KEYBOARD (ki : KEYBDINPUT).

(** [SendInput] with one event. *)
Class WinUser (W : Type) := { SendInput : W -> INPUT -> W * Z }.

Definition WIN_BUTTON_MAP : list (Z * Z * Z) :=
  [(0x01, MOUSEEVENTF_LEFTDOWN, MOUSEEVENTF_LEFTUP);
   (0x02, MOUSEEVENTF_MIDDLEDOWN, MOUSEEVENTF_MIDDLEUP);
   (0x04, MOUSEEVENTF_RIGHTDOWN, MOUSEEVENTF_RIGHTUP)].

(** The injector, next to the session it injects into. *)
Record SendInputInjector (W : Type) := { si_session : W; si_prev_button_mask : Z }.
Arguments si_session {W} _.
Arguments si_prev_button_mask {W} _.

Section Injector.
Context {W : Type} `{!WinUser W}.
Local Open Scope method_scope.

Definition send_input_new (w : W) : result InputError (SendInputInjector W) :=
  Ok {| si_session := w; si_prev_button_mask := 0 |}.

(** A return value of zero is only logged. *)
Definition send_mouse (mi : MOUSEINPUT) : method (SendInputInjector W) unit :=
  fun i => ({| si_session := fst (SendInput (si_session i) (INPUT_MOUSE mi)); si_prev_button_mask := si_prev_button_mask i |}, Ok tt).

Definition send_key (ki : KEYBDINPUT) : method (SendInputInjector W) unit :=
  fun i => ({| si_session := fst (SendInput (si_session i) (INPUT_KEYBOARD ki)); si_prev_button_mask := si_prev_button_mask i |}, Ok tt).

Definition vk_event (vk : Z) (keydown : bool) : method (SendInputInjector W) unit :=
  let flags := if keydown then 0 else KEYEVENTF_KEYUP in
  send_key {| wVk := vk; wScan := 0; ki_dwFlags := flags; ki_time := 0; ki_dwExtraInfo := 0 |}.

Definition active_modifier_vks (modifiers : Z) : list (option Z) :=
  [if contains modifiers MOD_SHIFT then Some VK_SHIFT else None;
   if contains modifiers MOD_CTRL then Some VK_CONTROL else None;
   if contains modifiers MOD_ALT then Some VK_MENU else None;
   if contains modifiers MOD_META then Some VK_LWIN else None].

(** A mouse event that is only its flags and data. *)
Definition mouse_flags (data flags : Z) : MOUSEINPUT :=
  {| dx := 0; dy := 0; mouseData := data; mi_dwFlags := flags; mi_time := 0; mi_dwExtraInfo := 0 |}.

Definition win_button (event : InputEvent.t) : method (SendInputInjector W) unit :=
  fun i =>
  let curr := InputEvent.button_mask event in
  let changed := Z.lxor curr (si_prev_button_mask i) in
  for_each WIN_BUTTON_MAP (fun '(mask, down_flag, up_flag) =>
    if Z.land changed mask =? 0 then ret tt else
    let pressed := negb (Z.land curr mask =? 0) in
    send_mouse (mouse_flags 0 (if pressed then down_flag else up_flag)))
    {| si_session := si_session i; si_prev_button_mask := curr |}.

(** The signed notch as the bits of a [DWORD]. *)
Definition wheel_data (delta : Z) : Z := if 0 <? delta then WHEEL_DELTA else (- WHEEL_DELTA) mod 2 ^ 32.

Definition win_wheel (event : InputEvent.t) : method (SendInputInjector W) unit :=
  (if InputEvent.scroll_y event =? 0 then ret tt
   else send_mouse (mouse_flags (wheel_data (InputEvent.scroll_y event)) MOUSEEVENTF_WHEEL)) ;;
  (if InputEvent.scroll_x event =? 0 then ret tt
   else send_mouse (mouse_flags (wheel_data (InputEvent.scroll_x event)) MOUSEEVENTF_HWHEEL)).

Definition win_key (event : InputEvent.t) : method (SendInputInjector W) unit :=
  do vk := of_option (hid_to_vk (InputEvent.key_code event))
    (InputUnsupported "USB HID key code not in supported subset; key injection refused") in
  let mod_vks := active_modifier_vks (InputEvent.modifiers event) in
  for_each (omap id mod_vks) (fun mv => vk_event mv true) ;;
  do key_result := attempt (vk_event vk true ;; vk_event vk false) in
  for_each (omap id (rev mod_vks)) (fun mv => attempt (vk_event mv false) ;; ret tt) ;;
  match key_result with Ok _ => ret tt | Err e => fail e end.

Definition win_inject (event : InputEvent.t) : method (SendInputInjector W) unit :=
  match InputEvent.event_type event with
  | InputEvent.PointerMove =>
      send_mouse {| dx := InputEvent.pointer_x event; dy := InputEvent.pointer_y event; mouseData := 0;
                    mi_dwFlags := Z.lor MOUSEEVENTF_MOVE MOUSEEVENTF_ABSOLUTE; mi_time := 0; mi_dwExtraInfo := 0 |}
  | InputEvent.Button => win_button event
  | InputEvent.Wheel => win_wheel event
  | InputEvent.Key => win_key event
  | InputEvent.Touch | InputEvent.Pen => fail (InputUnsupported "touch/pen injection not supported on Windows")
  end.

Definition win_release_all (i : SendInputInjector W) : SendInputInjector W :=
  let held := si_prev_button_mask i in
  if Z.land held DEFINED_BUTTON_BITS =? 0 then i else
  fst (for_each WIN_BUTTON_MAP (fun '(mask, _, up_flag) =>
         if Z.land held mask =? 0 then ret tt else attempt (send_mouse (mouse_flags 0 up_flag)) ;; ret tt)
       {| si_session := si_session i; si_prev_button_mask := 0 |}).

#[export] Instance win_injector : InputInjector (SendInputInjector W) := {
  inject i event := win_inject event i;
  release_all i := win_release_all i;
}.

End Injector.

(** ** What the desktop receives *)

Class WinUserLaws (W : Type) `{WU : WinUser W} := {
  win_log : W -> list INPUT;
  win_log_send w x : win_log (fst (SendInput w x)) = win_log w ++ (if snd (SendInput w x) =? 0 then [] else [x]);
}.

(** What each flag of a mouse event does. *)
Definition MOUSE_EFFECTS : list (Z * (Control * bool)) :=
  [(MOUSEEVENTF_LEFTDOWN, (CButton 1, true)); (MOUSEEVENTF_LEFTUP, (CButton 1, false));
   (MOUSEEVENTF_MIDDLEDOWN, (CButton 2, true)); (MOUSEEVENTF_MIDDLEUP, (CButton 2, false));
   (MOUSEEVENTF_RIGHTDOWN, (CButton 3, true)); (MOUSEEVENTF_RIGHTUP, (CButton 3, false))].

Definition input_effect (x : INPUT) : list (Control * bool) :=
  match x with
  | INPUT_MOUSE mi => omap (fun '(flag, e) => if Z.land (mi_dwFlags mi) flag =? 0 then None else Some e) MOUSE_EFFECTS
  | INPUT_KEYBOARD ki => [(CKey (wVk ki), Z.land (ki_dwFlags ki) KEYEVENTF_KEYUP =? 0)]
  end.

Section Desktop.
Context {W : Type} `{WL : WinUserLaws W}.
Implicit Types i : SendInputInjector W.

#[export] Instance win_desktop : Desktop (SendInputInjector W) := {
  desk i := flat_map input_effect (win_log (si_session i));
  tracked i := si_prev_button_mask i;
}.

Definition posts i i' (fs : list (Control * bool)) : Prop := acts i i' fs (si_prev_button_mask i).

Lemma posts_refl i : posts i i [].
Proof. unfold posts, acts. by rewrite app_nil_r. Qed.

Lemma posts_trans i1 i2 i3 a b : posts i1 i2 a -> posts i2 i3 b -> posts i1 i3 (a ++ b).
Proof. unfold posts, acts. cbn [tracked win_desktop]. intros [L1 P1] [L2 P2]. rewrite (assoc_L (++)). split; congruence. Qed.

(** In a session that accepts the input. *)
Section Accepted.
Context (accepted : forall (w : W) x, snd (SendInput w x) <> 0).

Lemma send_posts x i : posts i {| si_session := fst (SendInput (si_session i) x); si_prev_button_mask := si_prev_button_mask i |} (input_effect x).
Proof.
  split; [|done]. cbn [desk win_desktop si_session]. pose proof (accepted (si_session i) x) as A%Z.eqb_neq.
  rewrite win_log_send, A, flat_map_app. f_equal. cbn [flat_map]. apply app_nil_r.
Qed.

Lemma send_mouse_posts mi i : exists i', send_mouse mi i = (i', Ok tt) /\ posts i i' (input_effect (INPUT_MOUSE mi)).
Proof. eexists. split; [done|]. apply send_posts. Qed.

Lemma vk_event_posts vk d i : exists i', vk_event vk d i = (i', Ok tt) /\ posts i i' [(CKey vk, d)].
Proof.
  eexists. split; [done|]. pose proof (send_posts (INPUT_KEYBOARD {| wVk := vk; wScan := 0;
    ki_dwFlags := if d then 0 else KEYEVENTF_KEYUP; ki_time := 0; ki_dwExtraInfo := 0 |}) i) as P. by destruct d.
Qed.

Lemma loop_posts {A} (l : list A) (body : A -> method (SendInputInjector W) unit) (out : A -> list (Control * bool)) i :
  (forall a i, exists i', body a i = (i', Ok tt) /\ posts i i' (out a)) ->
  exists i', for_each l body i = (i', Ok tt) /\ posts i i' (concat (map out l)).
Proof. intros Hb. apply (for_each_log posts); auto using posts_refl. apply posts_trans. Qed.

Lemma win_button_acts event i :
  acts i (fst (win_button event i)) (button_effects (InputEvent.button_mask event) (si_prev_button_mask i)) (InputEvent.button_mask event).
Proof.
  set (curr := InputEvent.button_mask event). set (prev := si_prev_button_mask i).
  set (i0 := {| si_session := si_session i; si_prev_button_mask := curr |}).
  destruct (loop_posts WIN_BUTTON_MAP (fun '(mask, down_flag, up_flag) =>
      if Z.land (Z.lxor curr prev) mask =? 0 then ret tt
      else send_mouse (mouse_flags 0 (if negb (Z.land curr mask =? 0) then down_flag else up_flag)))
    (fun '(mask, down_flag, up_flag) => if Z.land (Z.lxor curr prev) mask =? 0 then []
      else input_effect (INPUT_MOUSE (mouse_flags 0 (if negb (Z.land curr mask =? 0) then down_flag else up_flag)))) i0) as (i1 & E1 & P1).
  { intros [[mask d] u] i'. destruct (Z.land _ mask =? 0); [exists i'; split; [done|apply posts_refl]|]. apply send_mouse_posts. }
  unfold win_button. fold curr prev. cbn zeta. fold i0. rewrite E1. destruct P1 as [P1 T1]. split; [|exact T1].
  cbn [fst]. rewrite P1. f_equal. unfold button_effects, WIN_BUTTON_MAP. cbn [map concat INJECTOR_BUTTONS].
  repeat (destruct (Z.land _ _ =? 0); try done).
Qed.

Lemma win_release_acts i : exists m, acts i (win_release_all i) (release_effects (si_prev_button_mask i)) m.
Proof.
  unfold win_release_all. set (held := si_prev_button_mask i).
  destruct (Z.eqb_spec (Z.land held DEFINED_BUTTON_BITS) 0) as [E|E].
  { eexists. split; [|done]. unfold release_effects. cbn [map concat INJECTOR_BUTTONS].
    rewrite !(masked_zero held _ E eq_refl). by rewrite app_nil_r. }
  exists 0. set (i0 := {| si_session := si_session i; si_prev_button_mask := 0 |}).
  destruct (loop_posts WIN_BUTTON_MAP (fun '(mask, _, up_flag) =>
      if Z.land held mask =? 0 then ret tt else bind (attempt (send_mouse (mouse_flags 0 up_flag))) (fun _ => ret tt))
    (fun '(mask, _, up_flag) => if Z.land held mask =? 0 then [] else input_effect (INPUT_MOUSE (mouse_flags 0 up_flag))) i0) as (i1 & E1 & P1).
  { intros [[mask d] u] i'. destruct (Z.land _ mask =? 0); [exists i'; split; [done|apply posts_refl]|].
    unfold bind, attempt. eexists. split; [done|]. apply send_posts. }
  rewrite E1. destruct P1 as [P1 T1]. split; [|exact T1]. cbn [fst]. rewrite P1. f_equal.
Qed.

(** The wheel and the pointer press nothing. *)
Lemma win_wheel_posts event i : posts i (fst (win_wheel event i)) [].
Proof.
  assert (forall delta flag, flag ∈ [MOUSEEVENTF_WHEEL; MOUSEEVENTF_HWHEEL] -> forall i', exists i1,
    (if delta =? 0 then ret tt else send_mouse (mouse_flags (wheel_data delta) flag)) i' = (i1, Ok tt) /\ posts i' i1 []) as H.
  { intros delta flag Hf i'. destruct (delta =? 0); [exists i'; split; [done|apply posts_refl]|].
    destruct (send_mouse_posts (mouse_flags (wheel_data delta) flag) i') as (i1 & E1 & P1). exists i1. split; [done|].
    rewrite !elem_of_cons, elem_of_nil in Hf. by destruct Hf as [->|[->|[]]]. }
  unfold win_wheel.
  destruct (H (InputEvent.scroll_y event) MOUSEEVENTF_WHEEL ltac:(by apply (bool_decide_unpack _)) i) as (i1 & E1 & P1).
  rewrite (bind_ok _ _ _ i1 tt E1).
  destruct (H (InputEvent.scroll_x event) MOUSEEVENTF_HWHEEL ltac:(by apply (bool_decide_unpack _)) i1) as (i2 & E2 & P2).
  rewrite E2. exact (posts_trans _ _ _ _ _ P1 P2).
Qed.

Lemma omap_rev_id (l : list (option Z)) : omap id (rev l) = rev (omap id l).
Proof. induction l as [|[a|] l IH]; cbn; [done| |]; rewrite omap_app, IH; cbn; by rewrite ?app_nil_r. Qed.

Lemma win_key_posts event i :
  posts i (fst (win_key event i)) [] \/ exists vk mods, posts i (fst (win_key event i)) (key_effects vk mods).
Proof.
  unfold win_key. destruct (hid_to_vk _) as [vk|]; cbn [of_option]; [|left; apply posts_refl].
  rewrite (bind_ok _ _ _ i vk eq_refl). cbn zeta. set (mods := omap id (active_modifier_vks _)). right. exists vk, mods.
  destruct (loop_posts mods (fun mv => vk_event mv true) (fun mv => [(CKey mv, true)]) i) as (i1 & E1 & P1).
  { intros mv i'. apply vk_event_posts. }
  rewrite (bind_ok _ _ _ i1 tt E1).
  destruct (vk_event_posts vk true i1) as (i2 & E2 & P2). destruct (vk_event_posts vk false i2) as (i3 & E3 & P3).
  rewrite (bind_ok _ _ _ i3 (Ok tt)) by (unfold attempt; by rewrite (bind_ok _ _ _ i2 tt E2), E3).
  destruct (loop_posts (omap id (rev (active_modifier_vks (InputEvent.modifiers event))))
    (fun mv => bind (attempt (vk_event mv false)) (fun _ => ret tt)) (fun mv => [(CKey mv, false)]) i3) as (i4 & E4 & P4).
  { intros mv i'. destruct (vk_event_posts mv false i') as (i5 & E5 & P5). exists i5. unfold bind, attempt. by rewrite E5. }
  rewrite (bind_ok _ _ _ i4 tt E4). rewrite omap_rev_id in P4. fold mods in P4.
  pose proof (posts_trans _ _ _ _ _ P1 (posts_trans _ _ _ _ _ P2 (posts_trans _ _ _ _ _ P3 P4))) as P. cbn [app] in P.
  rewrite !concat_singles in P. exact P.
Qed.

(** The injector meets the contract. *)
Lemma win_desktop_laws : DesktopLaws (SendInputInjector W).
Proof.
  split.
  - intros i event. cbn [inject win_injector]. unfold win_inject. destruct (InputEvent.event_type event); try done.
    + edestruct send_mouse_posts as (i' & E & P). rewrite E. by apply (acts_mirrors i _ _ _ P).
    + apply (acts_mirrors i _ _ _ (win_button_acts event i)). intros c. apply button_effects_down.
    + by apply (acts_mirrors i _ _ _ (win_wheel_posts event i)).
    + destruct (win_key_posts event i) as [P|(vk & mods & P)]; apply (acts_mirrors i _ _ _ P); [done|].
      intros c. apply key_effects_down.
  - intros i event. cbn [inject win_injector]. unfold win_inject, is_button.
    destruct (InputEvent.event_type event); rewrite ?bool_decide_eq_true_2, ?(bool_decide_eq_false_2 (_ = _)) by done; try done.
    + apply win_button_acts.
    + apply (win_wheel_posts event i).
    + destruct (win_key_posts event i) as [P|(vk & mods & P)]; apply P.
  - intros i c Hi. destruct (win_release_acts i) as [m Hm]. by apply (acts_release i _ m).
Qed.

Lemma win_session_clean `{MpscLaws InputEvent.t Q} w i es : send_input_new w = Ok i -> win_log w = [] -> session_clean (Q := Q) i es.
Proof.
  intros [= <-] Hlog. pose proof win_desktop_laws. apply session_releases; [|done]. cbn [desk win_desktop si_session]. by rewrite Hlog.
Qed.

End Accepted.
End Desktop.

(** ** A session that follows a script *)

Record ScriptedWin := { sw_log : list INPUT; sw_script : list bool }.

#[export] Instance scripted_win : WinUser ScriptedWin := {
  SendInput w x := if hd true (sw_script w) then ({| sw_log := sw_log w ++ [x]; sw_script := tl (sw_script w) |}, 1)
                   else ({| sw_log := sw_log w; sw_script := tl (sw_script w) |}, 0);
}.

#[export] Program Instance scripted_win_laws : WinUserLaws ScriptedWin := {| win_log := sw_log |}.
Next Obligation. intros w x. cbn. destruct (hd true (sw_script w)); cbn; [done|by rewrite app_nil_r]. Qed.

(** A release that is dropped is reported as delivered and forgotten: [release_all] does not send
    it again, and the button or key stays down. *)
Lemma dropped_release_latches :
  let i := {| si_session := {| sw_log := []; sw_script := [true; false] |}; si_prev_button_mask := 0 |} in
  (let '(i1, r1) := win_inject (button_event 0x01) i in
   let '(i2, r2) := win_inject (button_event 0x00) i1 in
   r1 = Ok tt /\ r2 = Ok tt /\ is_down (desk (win_release_all i2)) (CButton 1) = true) /\
  (let '(i1, r1) := win_inject (key_event 0x04 0) i in
   r1 = Ok tt /\ is_down (desk (win_release_all i1)) (CKey 0x41) = true).
Proof. repeat split; reflexivity. Qed.
