(* ===== verification/MacInject.v ===== *)
(** * Input injection on macOS (crates/sh-platform-mac), and the three injectors together

    keymap.rs, and the [CgEventInjector] of injector.rs: every protocol event becomes CoreGraphics
    events that are created and posted.  The library is the class [CoreGraphics]: an event source or
    an event may fail to be created, and a posted event reaches the desktop when the process has the
    accessibility permission ([CoreGraphicsLaws]). *)

From stdpp Require Import base numbers list option strings.
From S2P Require Import Prelude Decimal Float64 ShpMessages InputCore HostInput Desktop XTest WinInject.

(** ** keymap.rs *)

Definition hid_to_cgkeycode (hid : Z) : option Z :=
  match hid with
  | 0x04 => Some 0x00 | 0x05 => Some 0x0B | 0x06 => Some 0x08 | 0x07 => Some 0x02 | 0x08 => Some 0x0E | 0x09 => Some 0x03
  | 0x0A => Some 0x05 | 0x0B => Some 0x04 | 0x0C => Some 0x22 | 0x0D => Some 0x26 | 0x0E => Some 0x28 | 0x0F => Some 0x25
  | 0x10 => Some 0x2E | 0x11 => Some 0x2D | 0x12 => Some 0x1F | 0x13 => Some 0x23 | 0x14 => Some 0x0C | 0x15 => Some 0x0F
  | 0x16 => Some 0x01 | 0x17 => Some 0x11 | 0x18 => Some 0x20 | 0x19 => Some 0x09 | 0x1A => Some 0x0D | 0x1B => Some 0x07
  | 0x1C => Some 0x10 | 0x1D => Some 0x06 | 0x1E => Some 0x12 | 0x1F => Some 0x13 | 0x20 => Some 0x14 | 0x21 => Some 0x15
  | 0x22 => Some 0x17 | 0x23 => Some 0x16 | 0x24 => Some 0x1A | 0x25 => Some 0x1C | 0x26 => Some 0x19 | 0x27 => Some 0x1D
  | 0x28 => Some 0x24 | 0x29 => Some 0x35 | 0x2A => Some 0x33 | 0x2B => Some 0x30 | 0x2C => Some 0x31 | 0x2D => Some 0x1B
  | 0x2E => Some 0x18 | 0x2F => Some 0x21 | 0x30 => Some 0x1E | 0x31 => Some 0x2A | 0x33 => Some 0x29 | 0x34 => Some 0x27
  | 0x35 => Some 0x32 | 0x36 => Some 0x2B | 0x37 => Some 0x2F | 0x38 => Some 0x2C | 0x3A => Some 0x7A | 0x3B => Some 0x78
  | 0x3C => Some 0x63 | 0x3D => Some 0x76 | 0x3E => Some 0x60 | 0x3F => Some 0x61 | 0x40 => Some 0x62 | 0x41 => Some 0x64
  | 0x42 => Some 0x65 | 0x43 => Some 0x6D | 0x44 => Some 0x67 | 0x45 => Some 0x6F | 0x49 => Some 0x72 | 0x4A => Some 0x73
  | 0x4B => Some 0x74 | 0x4C => Some 0x75 | 0x4D => Some 0x77 | 0x4E => Some 0x79 | 0x4F => Some 0x7C | 0x50 => Some 0x7B
  | 0x51 => Some 0x7D | 0x52 => Some 0x7E | 0xE0 => Some 0x3B | 0xE1 => Some 0x38 | 0xE2 => Some 0x3A | 0xE3 => Some 0x37
  | 0xE4 => Some 0x3E | 0xE5 => Some 0x3C | 0xE6 => Some 0x3D | 0xE7 => Some 0x36
  | _ => None
  end.

(** ** injector.rs *)

Definition FLAG_SHIFT : Z := 0x00020000.
Definition FLAG_CONTROL : Z := 0x00040000.
Definition FLAG_ALTERNATE : Z := 0x00080000.
Definition FLAG_COMMAND : Z := 0x00100000.

(** The event types and buttons the injector uses. *)
Inductive CGEventType :=
| LeftMouseDown | LeftMouseUp | RightMouseDown | RightMouseUp | MouseMoved | OtherMouseDown | OtherMouseUp.
Inductive CGMouseButton := CGLeft | CGRight | CGCenter.

(** An event as it is posted; the flags of a keyboard event are those set last. *)
Inductive CGEvent :=
| MouseEvent (ty : CGEventType) (point : f64 * f64) (button : CGMouseButton)
| KeyboardEvent (keycode : Z) (keydown : bool) (flags : Z).

(** core-graphics: [false] is the failure of a constructor. *)
Class CoreGraphics (G : Type) := {
  cg_source_new : G -> G * bool;
  cg_new_mouse_event : G -> CGEventType -> f64 * f64 -> CGMouseButton -> G * bool;
  cg_new_keyboard_event : G -> Z -> bool -> G * bool;
  cg_post : G -> CGEvent -> G;
  cg_main_size : G -> f64 * f64;
  cg_flags_from_bits_truncate : Z -> Z;
}.

Record CgEventInjector (G : Type) := {
  cg_session : G;
  cg_mapper : CoordMapper;
  cg_prev_button_mask : Z;
  last_point : f64 * f64;
}.
Arguments cg_session {G} _.
Arguments cg_mapper {G} _.
Arguments cg_prev_button_mask {G} _.
Arguments last_point {G} _.

Definition dim_to_u32 (v : f64) : Z :=
  if f_le v f_zero then 0 else if f_le (f_of_Z u32_max) v then u32_max else f_to_u64 v.

Definition CG_BUTTON_MAP : list (Z * CGMouseButton * CGEventType * CGEventType) :=
  [(0x01, CGLeft, LeftMouseDown, LeftMouseUp);
   (0x02, CGCenter, OtherMouseDown, OtherMouseUp);
   (0x04, CGRight, RightMouseDown, RightMouseUp)].

Definition RELEASE_MAP : list (Z * CGMouseButton * CGEventType) :=
  [(0x01, CGLeft, LeftMouseUp); (0x02, CGCenter, OtherMouseUp); (0x04, CGRight, RightMouseUp)].

Section Injector.
Context {G : Type} `{!CoreGraphics G}.
Local Open Scope method_scope.

Definition set_session (i : CgEventInjector G) (g : G) : CgEventInjector G :=
  {| cg_session := g; cg_mapper := cg_mapper i; cg_prev_button_mask := cg_prev_button_mask i; last_point := last_point i |}.
Definition set_prev (i : CgEventInjector G) (m : Z) : CgEventInjector G :=
  {| cg_session := cg_session i; cg_mapper := cg_mapper i; cg_prev_button_mask := m; last_point := last_point i |}.
Definition set_point (i : CgEventInjector G) (p : f64 * f64) : CgEventInjector G :=
  {| cg_session := cg_session i; cg_mapper := cg_mapper i; cg_prev_button_mask := cg_prev_button_mask i; last_point := p |}.

(** A constructor of the library, its failure under a message. *)
Definition create (msg : string) (f : G -> G * bool) : method (CgEventInjector G) unit :=
  fun i => let '(g, ok) := f (cg_session i) in (set_session i g, if ok then Ok tt else Err (InputBackend (lit msg))).

Definition event_source : method (CgEventInjector G) unit := create "CGEventSource::new failed" cg_source_new.

Definition post (e : CGEvent) : method (CgEventInjector G) unit := fun i => (set_session i (cg_post (cg_session i) e), Ok tt).

Definition modifier_flags (modifiers : Z) : Z :=
  let bits := 0 in
  let bits := if contains modifiers MOD_SHIFT then Z.lor bits FLAG_SHIFT else bits in
  let bits := if contains modifiers MOD_CTRL then Z.lor bits FLAG_CONTROL else bits in
  let bits := if contains modifiers MOD_ALT then Z.lor bits FLAG_ALTERNATE else bits in
  let bits := if contains modifiers MOD_META then Z.lor bits FLAG_COMMAND else bits in
  cg_flags_from_bits_truncate bits.

Definition post_mouse (event_type : CGEventType) (button : CGMouseButton) : method (CgEventInjector G) unit :=
  fun i =>
  let point := last_point i in
  (create "CGEvent::new_mouse_event failed" (fun g => cg_new_mouse_event g event_type point button) ;;
   post (MouseEvent event_type point button)) i.

Definition cg_motion (event : InputEvent.t) : method (CgEventInjector G) unit :=
  fun i =>
  let pt := coord_map (cg_mapper i) (InputEvent.pointer_x event) (InputEvent.pointer_y event) in
  let point := (f_of_Z (px pt), f_of_Z (py pt)) in
  (create "CGEvent mouse move failed" (fun g => cg_new_mouse_event g MouseMoved point CGLeft) ;;
   post (MouseEvent MouseMoved point CGLeft)) (set_point i point).

Definition cg_button (event : InputEvent.t) : method (CgEventInjector G) unit :=
  fun i =>
  let curr := InputEvent.button_mask event in
  let changed := Z.lxor curr (cg_prev_button_mask i) in
  for_each CG_BUTTON_MAP (fun '(mask, button, down, up) =>
    if Z.land changed mask =? 0 then ret tt else
    let pressed := negb (Z.land curr mask =? 0) in
    post_mouse (if pressed then down else up) button) (set_prev i curr).

Definition cg_key (event : InputEvent.t) : method (CgEventInjector G) unit :=
  do keycode := of_option (hid_to_cgkeycode (InputEvent.key_code event))
    (InputUnsupported "USB HID key code not in supported subset; key injection refused") in
  let flags := modifier_flags (InputEvent.modifiers event) in
  for_each [true; false] (fun keydown =>
    create "CGEvent keyboard event failed" (fun g => cg_new_keyboard_event g keycode keydown) ;;
    post (KeyboardEvent keycode keydown flags)).

Definition cg_inject (event : InputEvent.t) : method (CgEventInjector G) unit :=
  event_source ;;
  match InputEvent.event_type event with
  | InputEvent.PointerMove => cg_motion event
  | InputEvent.Button => cg_button event
  | InputEvent.Key => cg_key event
  | InputEvent.Wheel => fail (InputUnsupported "scroll wheel injection not yet implemented on macOS (R-MAC-SCROLL)")
  | InputEvent.Touch | InputEvent.Pen => fail (InputUnsupported "touch/pen injection not supported on macOS")
  end.

Definition cg_release_all (i : CgEventInjector G) : CgEventInjector G :=
  let held := cg_prev_button_mask i in
  if Z.land held DEFINED_BUTTON_BITS =? 0 then i else
  match event_source i with
  | (i, Err _) => i
  | (i, Ok _) =>
      fst (for_each RELEASE_MAP (fun '(mask, button, up) =>
             if Z.land held mask =? 0 then ret tt else attempt (post_mouse up button) ;; ret tt) (set_prev i 0))
  end.

#[export] Instance cg_injector : InputInjector (CgEventInjector G) := {
  inject i event := cg_inject event i;
  release_all i := cg_release_all i;
}.

Definition cg_new (g : G) : result InputError (CgEventInjector G) :=
  let '(g, ok) := cg_source_new g in
  let? _ := (if ok then Ok tt else Err (InputBackend (lit "CGEventSource::new failed"))) in
  let width := dim_to_u32 (fst (cg_main_size g)) in
  let height := dim_to_u32 (snd (cg_main_size g)) in
  let? rect := map_err (fun e => InputBackend (lit "invalid main-display bounds " ++ dec 20 width ++ [0xC3; 0x97] ++ dec 20 height ++
                                               lit ": " ++ input_error_text e)) (target_rect_new 0 0 width height) in
  let? mapper := map_err (fun e => backend "CoordMapper construction failed: " (input_error_text e)) (coord_mapper_new rect) in
  Ok {| cg_session := g; cg_mapper := mapper; cg_prev_button_mask := 0; last_point := (f_zero, f_zero) |}.

End Injector.

(** ** What the desktop receives *)

Class CoreGraphicsLaws (G : Type) `{CG : CoreGraphics G} := {
  cg_log : G -> list CGEvent;
  cg_accessible : G -> bool;
  cg_log_source g : cg_log (fst (cg_source_new g)) = cg_log g;
  cg_log_mouse g ty p b : cg_log (fst (cg_new_mouse_event g ty p b)) = cg_log g;
  cg_log_keyboard g k d : cg_log (fst (cg_new_keyboard_event g k d)) = cg_log g;
  cg_log_post g e : cg_log (cg_post g e) = cg_log g ++ (if cg_accessible g then [e] else []);
}.

Definition cg_effect (e : CGEvent) : list (Control * bool) :=
  match e with
  | MouseEvent LeftMouseDown _ _ => [(CButton 1, true)] | MouseEvent LeftMouseUp _ _ => [(CButton 1, false)]
  | MouseEvent OtherMouseDown _ CGCenter => [(CButton 2, true)] | MouseEvent OtherMouseUp _ CGCenter => [(CButton 2, false)]
  | MouseEvent RightMouseDown _ _ => [(CButton 3, true)] | MouseEvent RightMouseUp _ _ => [(CButton 3, false)]
  | MouseEvent _ _ _ => []
  | KeyboardEvent keycode keydown _ => [(CKey keycode, keydown)]
  end.

Section Desktop.
Context {G : Type} `{GL : CoreGraphicsLaws G}.
Implicit Types i : CgEventInjector G.

#[export] Instance cg_desktop : Desktop (CgEventInjector G) := {
  desk i := flat_map cg_effect (cg_log (cg_session i));
  tracked i := cg_prev_button_mask i;
}.

Definition cg_posts i i' (fs : list (Control * bool)) : Prop := acts i i' fs (cg_prev_button_mask i).

Lemma cg_posts_refl i : cg_posts i i [].
Proof. unfold cg_posts, acts. by rewrite app_nil_r. Qed.

Lemma cg_posts_trans i1 i2 i3 a b : cg_posts i1 i2 a -> cg_posts i2 i3 b -> cg_posts i1 i3 (a ++ b).
Proof. unfold cg_posts, acts. cbn [tracked cg_desktop]. intros [L1 P1] [L2 P2]. rewrite (assoc_L (++)). split; congruence. Qed.

(** The library creates what it is asked for, and the process has the permission. *)
Record cg_works : Prop := {
  works_source : forall g : G, snd (cg_source_new g) = true;
  works_mouse : forall (g : G) ty p b, snd (cg_new_mouse_event g ty p b) = true;
  works_keyboard : forall (g : G) k d, snd (cg_new_keyboard_event g k d) = true;
  works_post : forall g : G, cg_accessible g = true;
}.

Section Working.
Context (works : cg_works).

Lemma create_posts msg f i : snd (f (cg_session i)) = true -> cg_log (fst (f (cg_session i))) = cg_log (cg_session i) ->
  exists i', create msg f i = (i', Ok tt) /\ cg_posts i i' [] /\ last_point i' = last_point i.
Proof.
  unfold create. destruct (f (cg_session i)) as [g ok]. cbn [fst snd]. intros -> L. eexists. split; [done|]. split; [|done].
  split; [|done]. cbn [desk cg_desktop set_session cg_session]. by rewrite L, app_nil_r.
Qed.

Lemma event_source_posts i : exists i', event_source i = (i', Ok tt) /\ cg_posts i i' [] /\ last_point i' = last_point i.
Proof. apply create_posts; [apply works|apply cg_log_source]. Qed.

Lemma post_posts e i : exists i', post e i = (i', Ok tt) /\ cg_posts i i' (cg_effect e).
Proof.
  eexists. split; [done|]. split; [|done]. cbn [desk cg_desktop set_session cg_session].
  rewrite cg_log_post, (works_post works), flat_map_app. f_equal. cbn [flat_map]. apply app_nil_r.
Qed.

(** Create, then post. *)
Lemma create_post_posts msg f e i : snd (f (cg_session i)) = true -> cg_log (fst (f (cg_session i))) = cg_log (cg_session i) ->
  exists i', bind (create msg f) (fun _ => post e) i = (i', Ok tt) /\ cg_posts i i' (cg_effect e).
Proof.
  intros H1 H2. destruct (create_posts msg f i H1 H2) as (i1 & E1 & P1 & _). destruct (post_posts e i1) as (i2 & E2 & P2).
  exists i2. rewrite (bind_ok _ _ _ i1 tt E1). split; [done|]. exact (cg_posts_trans _ _ _ [] _ P1 P2).
Qed.

Lemma post_mouse_posts ty b i : exists i', post_mouse ty b i = (i', Ok tt) /\ cg_posts i i' (cg_effect (MouseEvent ty (f_zero, f_zero) b)).
Proof.
  unfold post_mouse. destruct (create_post_posts "CGEvent::new_mouse_event failed"
    (fun g => cg_new_mouse_event g ty (last_point i) b) (MouseEvent ty (last_point i) b) i) as (i' & E & P).
  - apply works. - apply cg_log_mouse.
  - exists i'. split; [done|]. exact P.
Qed.

Lemma cg_loop_posts {A} (l : list A) (body : A -> method (CgEventInjector G) unit) (out : A -> list (Control * bool)) i :
  (forall a i, exists i', body a i = (i', Ok tt) /\ cg_posts i i' (out a)) ->
  exists i', for_each l body i = (i', Ok tt) /\ cg_posts i i' (concat (map out l)).
Proof. intros Hb. apply (for_each_log cg_posts); auto using cg_posts_refl. apply cg_posts_trans. Qed.

Lemma cg_button_acts event i :
  acts i (fst (cg_button event i)) (button_effects (InputEvent.button_mask event) (cg_prev_button_mask i)) (InputEvent.button_mask event).
Proof.
  set (curr := InputEvent.button_mask event). set (prev := cg_prev_button_mask i). set (i0 := set_prev i curr).
  destruct (cg_loop_posts CG_BUTTON_MAP (fun '(mask, button, down, up) =>
      if Z.land (Z.lxor curr prev) mask =? 0 then ret tt else post_mouse (if negb (Z.land curr mask =? 0) then down else up) button)
    (fun '(mask, button, down, up) => if Z.land (Z.lxor curr prev) mask =? 0 then []
      else cg_effect (MouseEvent (if negb (Z.land curr mask =? 0) then down else up) (f_zero, f_zero) button)) i0) as (i1 & E1 & P1).
  { intros [[[mask b] d] u] i'. destruct (Z.land _ mask =? 0); [exists i'; split; [done|apply cg_posts_refl]|]. apply post_mouse_posts. }
  unfold cg_button. fold curr prev. cbn zeta. fold i0. rewrite E1. destruct P1 as [P1 T1]. split; [|exact T1].
  cbn [fst]. rewrite P1. f_equal. unfold button_effects, CG_BUTTON_MAP. cbn [map concat INJECTOR_BUTTONS].
  repeat (destruct (Z.land _ _ =? 0); try done).
Qed.

Lemma cg_release_acts i : exists m, acts i (cg_release_all i) (release_effects (cg_prev_button_mask i)) m.
Proof.
  unfold cg_release_all. set (held := cg_prev_button_mask i).
  destruct (Z.eqb_spec (Z.land held DEFINED_BUTTON_BITS) 0) as [E|E].
  { eexists. split; [|done]. unfold release_effects. cbn [map concat INJECTOR_BUTTONS].
    rewrite !(masked_zero held _ E eq_refl). by rewrite app_nil_r. }
  destruct (event_source_posts i) as (i0 & -> & [D0 _] & _). exists 0.
  destruct (cg_loop_posts RELEASE_MAP (fun '(mask, button, up) =>
      if Z.land held mask =? 0 then ret tt else bind (attempt (post_mouse up button)) (fun _ => ret tt))
    (fun '(mask, button, up) => if Z.land held mask =? 0 then [] else cg_effect (MouseEvent up (f_zero, f_zero) button)) (set_prev i0 0))
    as (i1 & E1 & P1).
  { intros [[mask b] u] i'. destruct (Z.land _ mask =? 0); [exists i'; split; [done|apply cg_posts_refl]|].
    destruct (post_mouse_posts u b i') as (i2 & E2 & P2). exists i2. unfold bind, attempt. by rewrite E2. }
  rewrite E1. destruct P1 as [P1 T1]. split; [|exact T1]. cbn [fst]. rewrite P1.
  change (desk (set_prev i0 0)) with (desk i0). rewrite D0, app_nil_r. f_equal.
Qed.

Lemma cg_key_posts event i :
  cg_posts i (fst (cg_key event i)) [] \/ exists k, cg_posts i (fst (cg_key event i)) (key_effects k []).
Proof.
  unfold cg_key. destruct (hid_to_cgkeycode _) as [k|]; cbn [of_option]; [|left; apply cg_posts_refl].
  rewrite (bind_ok _ _ _ i k eq_refl). cbn zeta. set (flags := modifier_flags _). right. exists k.
  destruct (cg_loop_posts [true; false] (fun keydown =>
      bind (create "CGEvent keyboard event failed" (fun g => cg_new_keyboard_event g k keydown)) (fun _ => post (KeyboardEvent k keydown flags)))
    (fun keydown => cg_effect (KeyboardEvent k keydown flags)) i) as (i1 & E1 & P1).
  { intros d i'. apply create_post_posts; [apply works|apply cg_log_keyboard]. }
  rewrite E1. exact P1.
Qed.

(** Every arm, after the event source. *)
Lemma cg_inject_acts event i : exists fs, acts i (fst (cg_inject event i)) fs
    (if is_button event then InputEvent.button_mask event else cg_prev_button_mask i) /\
  (if is_button event then fs = button_effects (InputEvent.button_mask event) (cg_prev_button_mask i)
   else fs = [] \/ exists k, fs = key_effects k []).
Proof.
  unfold cg_inject, is_button. destruct (event_source_posts i) as (i0 & E0 & [D0 T0] & _).
  rewrite (bind_ok _ _ _ i0 tt E0). cbn [tracked cg_desktop] in T0. rewrite app_nil_r in D0.
  assert (forall i' fs m, acts i0 i' fs m -> acts i i' fs m) as Ht by (intros i' fs m [D T]; split; [by rewrite D, D0|done]).
  destruct (InputEvent.event_type event); rewrite ?bool_decide_eq_true_2, ?(bool_decide_eq_false_2 (_ = _)) by done.
  - exists []. split; [|by left]. apply Ht. unfold cg_motion. set (i1 := set_point i0 _).
    destruct (create_post_posts "CGEvent mouse move failed" (fun g => cg_new_mouse_event g MouseMoved (last_point i1) CGLeft)
      (MouseEvent MouseMoved (last_point i1) CGLeft) i1) as (i2 & E2 & P2); [apply works|apply cg_log_mouse|].
    rewrite <- T0. cbn zeta. change (f_of_Z (px _), f_of_Z (py _)) with (last_point i1). rewrite E2. exact P2.
  - eexists. split; [apply Ht, cg_button_acts|]. by rewrite T0.
  - exists []. split; [|by left]. apply Ht. rewrite <- T0. apply cg_posts_refl.
  - rewrite <- T0. destruct (cg_key_posts event i0) as [P|(k & P)]; eexists; (split; [apply Ht, P|]); eauto.
  - exists []. split; [|by left]. apply Ht. rewrite <- T0. apply cg_posts_refl.
  - exists []. split; [|by left]. apply Ht. rewrite <- T0. apply cg_posts_refl.
Qed.

(** The injector meets the contract. *)
Lemma cg_desktop_laws : DesktopLaws (CgEventInjector G).
Proof.
  split.
  - intros i event. destruct (cg_inject_acts event i) as (fs & A & Hfs). apply (acts_mirrors i _ fs _ A). intros c.
    destruct (is_button event); [subst fs; apply button_effects_down|].
    destruct Hfs as [->|(k & ->)]; [done|apply key_effects_down].
  - intros i event. by destruct (cg_inject_acts event i) as (fs & [_ T] & _).
  - intros i c Hi. destruct (cg_release_acts i) as [m Hm]. by apply (acts_release i _ m).
Qed.

Lemma cg_new_fresh g i : cg_new g = Ok i -> cg_prev_button_mask i = 0 /\ cg_log (cg_session i) = cg_log g.
Proof.
  unfold cg_new. pose proof (cg_log_source g) as L. destruct (cg_source_new g) as [g' []]; cbn [fst] in L; [|done]. cbn.
  destruct (target_rect_new _ _ _ _) as [r|e]; cbn; [|done]. destruct (coord_mapper_new r); cbn; [|done]. by intros [= <-].
Qed.

Lemma cg_session_clean `{MpscLaws InputEvent.t Q} g i es : cg_new g = Ok i -> cg_log g = [] -> session_clean (Q := Q) i es.
Proof.
  intros [Hp Hl]%cg_new_fresh Hlog. pose proof cg_desktop_laws. apply session_releases; [|done].
  cbn [desk cg_desktop]. by rewrite Hl, Hlog.
Qed.

End Working.
End Desktop.

(** ** A library that follows a script *)

(** A screen of 1920 by 1080; the script says which events can be created. *)
Record ScriptedMac := { sm_log : list CGEvent; sm_script : list bool }.

Definition sm_next (g : ScriptedMac) : ScriptedMac * bool := ({| sm_log := sm_log g; sm_script := tl (sm_script g) |}, hd true (sm_script g)).

#[export] Instance scripted_mac : CoreGraphics ScriptedMac := {
  cg_source_new g := (g, true);
  cg_new_mouse_event g _ _ _ := sm_next g;
  cg_new_keyboard_event g _ _ := sm_next g;
  cg_post g e := {| sm_log := sm_log g ++ [e]; sm_script := sm_script g |};
  cg_main_size _ := (f_of_Z 1920, f_of_Z 1080);
  cg_flags_from_bits_truncate bits := bits;
}.

#[export] Program Instance scripted_mac_laws : CoreGraphicsLaws ScriptedMac := {| cg_log := sm_log; cg_accessible _ := true |}.
Solve All Obligations with done.

(** When the release of a key cannot be created, the key stays down, also after [release_all]; and
    so does a button whose release fails, since the mask is updated before. *)
Lemma failed_keyup_latches :
  match cg_new {| sm_log := []; sm_script := [true; false] |} with
  | Ok i =>
      (let '(i1, r) := cg_inject (key_event 0x04 0) i in
       is_ok r = false /\ is_down (desk (cg_release_all i1)) (CKey 0x00) = true) /\
      (let '(i1, r1) := cg_inject (button_event 0x01) i in
       let '(i2, r2) := cg_inject (button_event 0x00) i1 in
       is_ok r1 = true /\ is_ok r2 = false /\ is_down (desk (cg_release_all i2)) (CButton 1) = true)
  | Err _ => False
  end.
Proof. vm_compute. repeat split; reflexivity. Qed.
