(* ===== verification/Platforms.v ===== *)
(** * The injectors of the three platforms

    The key tables of crates/sh-platform-linux, sh-platform-win and sh-platform-mac next to each
    other, and the input session of the host over any of them. *)

From stdpp Require Import base numbers list option.
From S2P Require Import Prelude Float64 ShpMessages InputCore HostInput Desktop XTest WinInject MacInject.

(** ** Key tables *)

Definition hid_codes : list Z := seqZ 0 232.

Lemma hid_code_in (t : Z -> option Z) hid k : (forall hid k, t hid = Some k -> 0 <= hid < 232) -> t hid = Some k -> hid ∈ hid_codes.
Proof. intros Hb H. apply elem_of_seqZ. by apply Hb in H. Qed.

Lemma keysym_range hid k : hid_to_keysym hid = Some k -> 0 <= hid < 232.
Proof. unfold hid_to_keysym. repeat (case_match; try done; try lia). Qed.
Lemma vk_range hid k : hid_to_vk hid = Some k -> 0 <= hid < 232.
Proof.
  unfold hid_to_vk. do 3 (destruct (_ && _) eqn:?; [simplify_bool; lia|]). repeat (case_match; try done; try lia).
Qed.
Lemma cgkeycode_range hid k : hid_to_cgkeycode hid = Some k -> 0 <= hid < 232.
Proof. unfold hid_to_cgkeycode. repeat (case_match; try done; try lia). Qed.

(** A table gives no code twice: on all pairs of its range. *)
Definition no_code_twice (t : Z -> option Z) : bool :=
  bool_decide (NoDup (omap t hid_codes)).

Lemma no_code_twice_inj t hid hid' k : no_code_twice t = true -> (forall hid k, t hid = Some k -> 0 <= hid < 232) ->
  t hid = Some k -> t hid' = Some k -> hid = hid'.
Proof.
  intros Hn%bool_decide_eq_true Hb H H'.
  pose proof (hid_code_in t hid k Hb H) as I. pose proof (hid_code_in t hid' k Hb H') as I'.
  revert Hn I I'. generalize hid_codes. clear -H H'. intros l. induction l as [|a l IH]; [by intros _ ?%elem_of_nil|].
  cbn. intros Hn I I'. apply elem_of_cons in I as [->|I], I' as [->|I']; [done| | |].
  - rewrite H in Hn. apply list.NoDup_cons in Hn as [Hn _]. destruct Hn. apply list_elem_of_omap. eauto.
  - rewrite H' in Hn. apply list.NoDup_cons in Hn as [Hn _]. destruct Hn. apply list_elem_of_omap. eauto.
  - apply IH; [|done|done]. destruct (t a); [by apply list.NoDup_cons in Hn as [_ Hn]|done].
Qed.

(** The three platforms accept the same keys, and on each no two of them become the same key. *)
Lemma key_tables_agree :
  (forall hid, (is_Some (hid_to_keysym hid) <-> is_Some (hid_to_vk hid)) /\ (is_Some (hid_to_vk hid) <-> is_Some (hid_to_cgkeycode hid))) /\
  Forall (fun t => forall hid hid' k, t hid = Some k -> t hid' = Some k -> hid = hid') [hid_to_keysym; hid_to_vk; hid_to_cgkeycode].
Proof.
  assert (Forall (fun hid => bool_decide (is_Some (hid_to_keysym hid)) = bool_decide (is_Some (hid_to_vk hid)) /\
    bool_decide (is_Some (hid_to_vk hid)) = bool_decide (is_Some (hid_to_cgkeycode hid))) hid_codes) as Hall.
  { apply (bool_decide_unpack _). vm_compute. exact I. }
  rewrite list.Forall_forall in Hall. split.
  - assert (forall t t' : Z -> option Z, (forall hid k, t hid = Some k -> 0 <= hid < 232) ->
      (forall hid, hid ∈ hid_codes -> bool_decide (is_Some (t hid)) = bool_decide (is_Some (t' hid))) ->
      forall hid : Z, is_Some (t hid) -> is_Some (t' hid)) as H.
    { intros t t' Hb Ha hid [k Hk]. pose proof (Ha hid (hid_code_in t hid k Hb Hk)) as E.
      rewrite (bool_decide_eq_true_2 (is_Some (t hid))) in E by eauto. symmetry in E. by apply bool_decide_eq_true in E. }
    intros hid. split; split; apply H;
      first [exact keysym_range|exact vk_range|exact cgkeycode_range|intros h Hh; destruct (Hall h Hh); congruence].
  - apply List.Forall_cons; [|apply List.Forall_cons; [|apply List.Forall_cons; [|apply List.Forall_nil]]]; intros hid hid' k.
    + by apply (no_code_twice_inj hid_to_keysym); [vm_compute|exact keysym_range].
    + by apply (no_code_twice_inj hid_to_vk); [vm_compute|exact vk_range].
    + by apply (no_code_twice_inj hid_to_cgkeycode); [vm_compute|exact cgkeycode_range].
Qed.

(** ** The session *)

(** C23. The whole input path on each platform (X11 over a connection that delivers its requests,
    Windows in a session that accepts the input, macOS with the accessibility permission, each
    behind any channel that behaves as tokio documents), whatever bytes the peer sends and
    however the tasks interleave: no key and no wheel button is left down between events; when
    the queue is empty the desktop holds exactly the mouse buttons that the injectors' own table
    gives for the receiver's mask; and when the session has ended, no button and no key is held
    at all.  That table is not the documented one: the buttons held are those the docs promise
    exactly when the bits of the right and the middle button are both set or both clear. *)
Theorem input_session_leaves_nothing_held Q (M : Mpsc InputEvent.t Q) (ML : MpscLaws InputEvent.t Q) :
  (forall X (C : XConn X) (L : XConnLaws X), (forall (x : X) f, snd (x_fake_input x f) = Ok tt) ->
     forall connected (i : XTestInjector X) es, xtest_new connected = Ok i -> x_log (xt_conn i) = [] ->
       session_clean (Q := Q) i es) /\
  (forall W (C : WinUser W) (L : WinUserLaws W), (forall (w : W) x, snd (SendInput w x) <> 0) ->
     forall w (i : SendInputInjector W) es, send_input_new w = Ok i -> win_log w = [] -> session_clean (Q := Q) i es) /\
  (forall G (C : CoreGraphics G) (L : CoreGraphicsLaws G), cg_works (G := G) ->
     forall g (i : CgEventInjector G) es, cg_new g = Ok i -> cg_log g = [] -> session_clean (Q := Q) i es) /\
  (forall m, (forall c, wanted m c = down_by DOCUMENTED_BUTTONS m c) <-> (Z.land m 0x02 = 0 <-> Z.land m 0x04 = 0)).
Proof.
  split_and!; intros; [by eapply xtest_session_clean|by eapply win_session_clean|by eapply cg_session_clean|].
  apply tables_agree_iff.
Qed.

(** A connection, a session and a library that do what they are asked. *)
Record QuietWin := { qw_log : list INPUT }.
#[export] Instance quiet_win : WinUser QuietWin := { SendInput w x := ({| qw_log := qw_log w ++ [x] |}, 1) }.
#[export] Program Instance quiet_win_laws : WinUserLaws QuietWin := {| win_log := qw_log |}.

Record QuietMac := { qm_log : list CGEvent }.
#[export] Instance quiet_mac : CoreGraphics QuietMac := {
  cg_source_new g := (g, true); cg_new_mouse_event g _ _ _ := (g, true); cg_new_keyboard_event g _ _ := (g, true);
  cg_post g e := {| qm_log := qm_log g ++ [e] |}; cg_main_size _ := (f_of_Z 1920, f_of_Z 1080);
  cg_flags_from_bits_truncate bits := bits;
}.
#[export] Program Instance quiet_mac_laws : CoreGraphicsLaws QuietMac := {| cg_log := qm_log; cg_accessible _ := true |}.
Solve All Obligations with done.

(** A press of the left button whose release never comes. *)
Definition toy_session : list host_event := [Message (InputEvent.encode (button_event 0x01)) 5; ThreadTurn].

Lemma input_session_leaves_nothing_held_witness :
  (exists i, xtest_new (X := ToyX) (Ok ({| toy_log := [] |}, 0)) = Ok i /\
     session_clean (Q := mpsc_view InputEvent.t) i toy_session /\
     is_down (desk (injector (host_run (Q := mpsc_view InputEvent.t) (host_input_new i) toy_session))) (CButton 1) = true) /\
  (exists i, send_input_new {| qw_log := [] |} = Ok i /\ session_clean (Q := mpsc_view InputEvent.t) i toy_session) /\
  (exists i, cg_new {| qm_log := [] |} = Ok i /\ session_clean (Q := mpsc_view InputEvent.t) i toy_session).
Proof.
  destruct (input_session_leaves_nothing_held (mpsc_view InputEvent.t) _ _) as (HX & HW & HM & _). split; [|split].
  - exists toy_xtest. split; [vm_compute; reflexivity|]. split; [|vm_compute; reflexivity].
    by apply (HX ToyX toy_xconn toy_xlaws (fun _ _ => eq_refl) (Ok ({| toy_log := [] |}, 0))).
  - eexists. split; [reflexivity|]. by apply (HW QuietWin quiet_win quiet_win_laws (fun _ _ => ltac:(done)) {| qw_log := [] |}).
  - eexists. split; [vm_compute; reflexivity|]. apply (HM QuietMac quiet_mac quiet_mac_laws ltac:(by split) {| qm_log := [] |}); [vm_compute; reflexivity|done].
Defined.
