(* ===== verification/HostClipboard.v ===== *)
(** * The host's clipboard task and channel roles (bins/streamhaul-webrtc-host/src/lib.rs)

    [decode_clipboard_paste], the task [run_clipboard] over any clipboard backend, and
    [classify_channels], which decides what each data channel a peer opened is used for. *)

From stdpp Require Import base numbers list option strings.
From S2P Require Import Prelude Utf8 Types ShpWire ShpMessages Clipboard.

Definition decode_clipboard_paste (b : bytes) : option bytes :=
  match ClipboardUpdate.decode b with
  | Ok update => text ← ClipboardUpdate.as_text update; sanitize_for_paste text
  | Err _ => None
  end.

(** ** [run_clipboard] *)

Section Task.
Context {C E : Type} `{!ClipboardAccess C}.

(** The blocking call may itself be lost ([JoinError]), and the clipboard with it. *)
Definition spawn_blocking {A} (joined : bool) (r : C * A) : option (C * A) := if joined then Some r else None.

(** The offer at the start: the messages sent on the channel, and the clipboard unless it was lost.
    A failed send is only logged. *)
Definition offer_clipboard (sink : C) (joined : bool) : list bytes * option C :=
  match spawn_blocking joined (get_text sink) with
  | Some (returned, Ok (Some text)) =>
      match ClipboardUpdate.text text with
      | Ok update => ([ClipboardUpdate.encode update], Some returned)
      | Err _ => ([], Some returned)
      end
  | Some (returned, Ok None) => ([], Some returned)
  | Some (returned, Err _) => ([], Some returned)
  | None => ([], None)
  end.

(** What the channel delivers, with the fate of the blocking call each paste makes. *)
Definition delivery : Type := result E (option bytes) * bool.

Fixpoint paste_loop (sink : C) (rx : list delivery) : option C :=
  match rx with
  | [] => Some sink
  | (Ok (Some b), joined) :: rx =>
      match decode_clipboard_paste b with
      | None => paste_loop sink rx
      | Some text =>
          match spawn_blocking joined (set_text sink text) with
          | Some (returned, Ok _) => paste_loop returned rx
          | Some (returned, Err _) => paste_loop returned rx
          | None => None
          end
      end
  | (Ok None, _) :: _ => Some sink
  | (Err _, _) :: _ => Some sink
  end.

Definition run_clipboard (sink : C) (offer_joined : bool) (rx : list delivery) : list bytes * option C :=
  match offer_clipboard sink offer_joined with
  | (sent, None) => (sent, None)
  | (sent, Some sink) => (sent, paste_loop sink rx)
  end.

(** ** What reaches the clipboard *)

(** The messages up to the end of the channel. *)
Fixpoint until_closed (rx : list delivery) : list (bytes * bool) :=
  match rx with
  | (Ok (Some b), joined) :: rx => (b, joined) :: until_closed rx
  | _ => []
  end.

(** The texts written, in order, and the backend after them. *)
Definition pastes (ms : list (bytes * bool)) : list (bytes * bool) :=
  omap (fun '(b, joined) => (fun text => (text, joined)) <$> decode_clipboard_paste b) ms.

Fixpoint write_all (sink : C) (ts : list (bytes * bool)) : option C :=
  match ts with
  | [] => Some sink
  | (text, joined) :: ts => if joined then write_all (fst (set_text sink text)) ts else None
  end.

Lemma paste_loop_writes sink rx : paste_loop sink rx = write_all sink (pastes (until_closed rx)).
Proof.
  revert sink. induction rx as [|[[[b|]|e] joined] rx IH]; intros sink; try done.
  cbn [paste_loop until_closed pastes omap list_omap]. destruct (decode_clipboard_paste b) as [text|]; [|apply IH].
  cbn [fmap option_fmap option_map write_all]. destruct joined; cbn [spawn_blocking]; [|done].
  destruct (set_text sink text) as [c [u|e]]; apply IH.
Qed.

(** A text that is safe to paste. *)
Definition paste_safe (text : bytes) : Prop :=
  text <> [] /\ blen text <= ClipboardUpdate.MAX_CLIPBOARD_BYTES /\
  exists cs, utf8_decode text = Some cs /\ Forall (fun c => is_forbidden_in_paste_output c = false) cs.

Lemma decode_paste_safe b text : bytes_ok b -> decode_clipboard_paste b = Some text -> paste_safe text.
Proof.
  intros Hb. unfold decode_clipboard_paste. destruct (ClipboardUpdate.decode b) as [u|] eqn:Ed; [|done].
  apply ClipboardUpdate.decode_iff in Ed as [[Hv Hl] ->]. destruct u as [[] c]. cbn in Hv, Hl, Hb.
  apply Forall_cons_1 in Hb as [_ Hb]. cbn. rewrite Hv. cbn. unfold sanitize_for_paste.
  apply utf8_valid_Some in Hv as [cs Hcs]. destruct (sanitize_decode c cs Hb Hcs) as (_ & Hd & Hs).
  case_bool_decide as Hn; [done|]. intros [= <-]. split; [done|]. split; [lia|].
  eauto using clean_chars_allowed.
Qed.

(** What a peer's update turns into. *)
Lemma decode_paste_update s u : utf8_valid s = true -> ClipboardUpdate.text s = Ok u ->
  decode_clipboard_paste (ClipboardUpdate.encode u) = sanitize_for_paste s.
Proof.
  intros Hv Ht. destruct (ClipboardUpdate.text_wf s u Hv Ht) as [Hwf Hc]. unfold decode_clipboard_paste.
  rewrite (proj2 (ClipboardUpdate.decode_iff _ u)) by done. unfold ClipboardUpdate.as_text.
  destruct u as [[] c]. cbn in *. subst c. by rewrite Hv.
Qed.

(** C29. Whatever a peer sends on the clipboard channel, the host's clipboard is written exactly the
    sanitized texts of its well-formed updates, in the order of their arrival, until the channel
    ends or a write is lost: each is valid UTF-8, not empty, within the size limit and free of
    control, bidirectional and invisible characters; malformed updates and updates with nothing
    left write nothing.  What the host offers at the start is one update with its own text, or
    nothing when there is none or it is too large. *)
Theorem clipboard_writes_safe (sink : C) offer_joined (rx : list delivery) :
  Forall (fun '(b, _) => bytes_ok b) (until_closed rx) ->
  let '(sent, final) := run_clipboard sink offer_joined rx in
  Forall (fun '(text, _) => paste_safe text) (pastes (until_closed rx)) /\
  final = (if offer_joined then write_all (fst (get_text sink)) (pastes (until_closed rx)) else None) /\
  sent = match offer_joined, snd (get_text sink) with
         | true, Ok (Some text) => if blen text <=? ClipboardUpdate.MAX_CLIPBOARD_BYTES then [0 :: text] else []
         | _, _ => []
         end.
Proof.
  intros Hb.
  assert (Forall (fun '(text, _) => paste_safe text) (pastes (until_closed rx))) as Hs.
  { unfold pastes. apply list.Forall_forall. intros [text j] ([b j'] & Hin & Ht)%list_elem_of_omap.
    rewrite list.Forall_forall in Hb. specialize (Hb _ Hin). cbn in Hb.
    destruct (decode_clipboard_paste b) as [t|] eqn:Ed; cbn in Ht; [|done]. injection Ht as <- <-. by eapply decode_paste_safe. }
  unfold run_clipboard, offer_clipboard, spawn_blocking, ClipboardUpdate.text. destruct offer_joined; [|done].
  destruct (get_text sink) as [c [[text|]|e]]; cbn [fst snd]; rewrite ?Z.leb_antisym;
    [destruct (_ <? blen text); cbn [negb]|..]; cbn; by rewrite paste_loop_writes.
Qed.

End Task.

Lemma clipboard_writes_safe_witness :
  let rx : list (delivery (E := unit)) :=
    [(Ok (Some [0; 0x6C; 0x73; 0x0D; 0x0A]), true); (Ok (Some [0; 0x1B]), true); (Ok (Some [7]), true); (Ok None, true)] in
  pastes (until_closed rx) = [([0x6C; 0x73; 0x0A], true)] /\
  Forall (fun '(text, _) => paste_safe text) (pastes (until_closed rx)).
Proof.
  split; [reflexivity|].
  exact (proj1 (clipboard_writes_safe (E := unit) recording_new true
    [(Ok (Some [0; 0x6C; 0x73; 0x0D; 0x0A]), true); (Ok (Some [0; 0x1B]), true); (Ok (Some [7]), true); (Ok None, true)]
    ltac:(repeat constructor; done))).
Defined.

(** ** [classify_channels]

    A channel is what its spec says it is; [Ch] stands for the handle. *)
Section Channels.
Context {Ch : Type} (channel_of : Ch -> ChannelId).

Record AcceptedChannels := { ac_video : Ch; ac_input : option Ch; ac_clipboard : option Ch }.

Definition classify_one (acc : option Ch * option Ch * option Ch) (ch : Ch) : option Ch * option Ch * option Ch :=
  let '(video, input, clipboard) := acc in
  match channel_of ch with
  | Input => (video, Some ch, clipboard)
  | Types.Clipboard => (video, input, Some ch)
  | _ => (match video with None => Some ch | Some v => Some v end, input, clipboard)
  end.

(** [None] is the error that no video channel was opened. *)
Definition classify_channels (channels : list Ch) : option AcceptedChannels :=
  let '(video, input, clipboard) := fold_left classify_one channels (None, None, None) in
  v ← video; Some {| ac_video := v; ac_input := input; ac_clipboard := clipboard |}.

Definition is_input (ch : Ch) : bool := bool_decide (channel_of ch = Input).
Definition is_clipboard (ch : Ch) : bool := bool_decide (channel_of ch = Types.Clipboard).
Definition is_video (ch : Ch) : bool := negb (is_input ch) && negb (is_clipboard ch).

(** The first channel of the remaining kinds is the video channel; of several input or clipboard
    channels it is the last one that is used. *)
Lemma classify_channels_spec channels :
  classify_channels channels =
  (v ← find is_video channels;
   Some {| ac_video := v; ac_input := last (List.filter is_input channels);
           ac_clipboard := last (List.filter is_clipboard channels) |}).
Proof.
  unfold classify_channels.
  assert (forall v i c, fold_left classify_one channels (v, i, c) =
    (match v with Some v => Some v | None => find is_video channels end,
     match last (List.filter is_input channels) with Some x => Some x | None => i end,
     match last (List.filter is_clipboard channels) with Some x => Some x | None => c end)) as ->.
  2: { destruct (find is_video channels); cbn; [|done]. by do 2 case_match. }
  induction channels as [|ch channels IH]; intros v i c; [by destruct v|].
  cbn [fold_left classify_one List.filter find]. unfold is_video, is_input, is_clipboard in *.
  destruct (channel_of ch) eqn:Ec; repeat (case_bool_decide; try done); cbn [negb andb]; rewrite IH;
    rewrite ?last_cons; try by destruct v.
  - by destruct v, (last (List.filter (fun ch => bool_decide (channel_of ch = Input)) channels)).
  - by destruct v, (last (List.filter (fun ch => bool_decide (channel_of ch = Clipboard)) channels)).
Qed.

End Channels.
