(* ===== verification/Packetize.v ===== *)
(** * sh-core: fragmentation and reassembly of video packets

    [fragment] and [Reassembler] of [crates/sh-core/src/packetize.rs].  [ingest] mutates the
    buffer map also on paths that return [None]; it returns the map it leaves. *)

From stdpp Require Import base numbers list option gmap fin_maps strings.
From S2P Require Import Prelude Types ShpWire ShpHeaders.

Record EncodedPacket := {
  ep_data : bytes;
  ep_codec : Codec;
  ep_frame_id : Z;       (* u64 *)
  ep_capture_ts_us : Z;  (* u64 *)
  ep_frame_type : FrameType;
}.

#[global] Instance EncodedPacket_eq_dec : EqDecision EncodedPacket.
Proof. solve_decision. Defined.

Inductive PacketizeError :=
| TooManyFragments (count : Z)
| Protocol (e : ProtocolError)
| PayloadTooLarge
| DatagramTooSmall (max_datagram : Z).

(** ** Fragmenting *)

Definition combined_header : Z := COMMON_HEADER_LEN + VIDEO_HEADER_LEN.

Definition num_frags_of (data : bytes) (chunk_size : Z) : Z :=
  match data with
  | [] => 1
  | _ => (blen data + chunk_size - 1) / chunk_size
  end.

(** [packet.data.slice(start..end)] of one loop iteration. *)
Definition chunk_of (data : bytes) (chunk_size frag_idx : Z) : bytes :=
  let start := sat_mul usize_max frag_idx chunk_size in
  let end_ := Z.min (sat_mul usize_max (sat_add usize_max frag_idx 1) chunk_size) (blen data) in
  take (Z.to_nat (end_ - start)) (drop (Z.to_nat start) data).

(** The body of the loop for one [frag_idx]. *)
Definition fragment_one (packet : EncodedPacket) (seq_start chunk_size num_frags frag_idx : Z)
  : result PacketizeError bytes :=
  let total_frags := num_frags mod 256 in
  let frame_id_masked := Z.land (ep_frame_id packet) MAX_FRAME_ID in
  let ts := Z.land (ep_capture_ts_us packet) 0xFFFFFFFF in
  let chunk := chunk_of (ep_data packet) chunk_size frag_idx in
  let is_last := sat_add usize_max frag_idx 1 =? num_frags in
  let flags := {| fragment_flag := 1 <? total_frags; last_fragment := is_last |} in
  let seq_offset := if frag_idx <=? u16_max then frag_idx else u16_max in
  let sequence := (seq_start + seq_offset) mod 65536 in
  if u16_max <? sat_add usize_max VIDEO_HEADER_LEN (blen chunk) then Err PayloadTooLarge else
  let payload_len := VIDEO_HEADER_LEN + blen chunk in
  if u8_max <? frag_idx then Err (TooManyFragments frag_idx) else
  let common_header :=
    {| channel := Video; flags := flags; sequence := sequence; timestamp_us := ts;
       payload_len := payload_len |} in
  let video_header :=
    {| frame_id := frame_id_masked; frag_index := frag_idx; total_frags := total_frags;
       codec := ep_codec packet; frame_type := ep_frame_type packet; priority := High;
       monitor_id := 0; marker := is_last; encode_ts_us := ts |} in
  let common_bytes := common_encode common_header in
  let? video_bytes := map_err Protocol (video_encode video_header) in
  Ok (common_bytes ++ video_bytes ++ chunk).

(** A [for] loop whose body may return early with an error. *)
Fixpoint collect {A B E} (f : A -> result E B) (l : list A) : result E (list B) :=
  match l with
  | [] => Ok []
  | a :: l' => let? b := f a in let? bs := collect f l' in Ok (b :: bs)
  end.

Definition fragment (packet : EncodedPacket) (seq_start max_datagram : Z)
  : result PacketizeError (list bytes) :=
  if max_datagram <=? combined_header then Err (DatagramTooSmall max_datagram) else
  let chunk_size := sat_sub max_datagram combined_header in
  let num_frags := num_frags_of (ep_data packet) chunk_size in
  if 255 <? num_frags then Err (TooManyFragments num_frags) else
  collect (fragment_one packet seq_start chunk_size num_frags) (seqZ 0 num_frags).

(** ** Reassembling *)

Definition MAX_BUFFERED_FRAMES : nat := 32.

Record FrameBuffer := {
  slots : list (option bytes);
  fb_total_frags : Z;
  received : Z;
  fb_codec : Codec;
  fb_frame_type : FrameType;
  fb_frame_id : Z;
  fb_capture_ts_us : Z;
}.

Abbreviation Reassembler := (gmap Z FrameBuffer).

Definition reassembler_new : Reassembler := ∅.

(** [BTreeMap::keys().next()]: the smallest key. *)
Definition first_key (m : Reassembler) : option Z :=
  map_fold (fun k _ acc => Some (match acc with None => k | Some k' => Z.min k k' end)) None m.

(** The checks before any buffer is touched. *)
Definition ingest_parse (datagram : bytes) : option (CommonHeader * VideoHeader) :=
  common ← ok (common_decode datagram);
  if negb (bool_decide (channel common = Video)) then None else
  rest ← get_from datagram COMMON_HEADER_LEN;
  video ← ok (video_decode rest);
  if total_frags video =? 0 then None else
  if total_frags video <=? frag_index video then None else
  Some (common, video).

Definition new_buffer (common : CommonHeader) (video : VideoHeader) : FrameBuffer :=
  {| slots := replicate (Z.to_nat (total_frags video)) None;
     fb_total_frags := total_frags video;
     received := 0;
     fb_codec := codec video;
     fb_frame_type := frame_type video;
     fb_frame_id := frame_id video;
     fb_capture_ts_us := timestamp_us common |}.

Definition assemble (b : FrameBuffer) : EncodedPacket :=
  {| ep_data := concat (omap id (slots b));
     ep_codec := fb_codec b;
     ep_frame_id := fb_frame_id b;
     ep_capture_ts_us := fb_capture_ts_us b;
     ep_frame_type := fb_frame_type b |}.

Definition ingest (r : Reassembler) (datagram : bytes) : Reassembler * option EncodedPacket :=
  match ingest_parse datagram with
  | None => (r, None)
  | Some (common, video) =>
      let key := Z.land (frame_id video) MAX_FRAME_ID in
      let r := if bool_decide (r !! key = None) && (MAX_BUFFERED_FRAMES <=? size r)%nat
               then match first_key r with Some oldest => delete oldest r | None => r end
               else r in
      let buf := default (new_buffer common video) (r !! key) in
      let r := <[key := buf]> r in
      if negb (total_frags video =? fb_total_frags buf) then (r, None) else
      if fb_total_frags buf <=? frag_index video then (r, None) else
      let i := Z.to_nat (frag_index video) in
      match slots buf !! i with
      | Some (Some _) => (r, None)
      | slot =>
          if blen datagram <? combined_header then (r, None) else
          let chunk := drop (Z.to_nat combined_header) datagram in
          match slot with
          | None => (r, None)
          | Some _ =>
              let buf := {| slots := <[i := Some chunk]> (slots buf);
                            fb_total_frags := fb_total_frags buf;
                            received := sat_add usize_max (received buf) 1;
                            fb_codec := fb_codec buf;
                            fb_frame_type := fb_frame_type buf;
                            fb_frame_id := fb_frame_id buf;
                            fb_capture_ts_us := fb_capture_ts_us buf |} in
              if received buf =? fb_total_frags buf
              then (delete key r, Some (assemble buf))
              else (<[key := buf]> r, None)
          end
      end
  end.

(** Feeding a sequence of datagrams; the completed packets in order of completion. *)
Fixpoint ingest_all (r : Reassembler) (ds : list bytes) : Reassembler * list EncodedPacket :=
  match ds with
  | [] => (r, [])
  | d :: ds' =>
      let '(r, out) := ingest r d in
      let '(r, outs) := ingest_all r ds' in
      (r, match out with Some p => p :: outs | None => outs end)
  end.

(** ** Fragments of a packet *)

(** Rust values: a packet's identifiers are [u64], its data fits in memory. *)
Definition packet_ok (p : EncodedPacket) : Prop :=
  is_u64 (ep_frame_id p) /\ is_u64 (ep_capture_ts_us p) /\ blen (ep_data p) <= usize_max.

(** What survives the wire: the low 24 bits of the frame id, the low 32 of the timestamp. *)
Definition packet_on_wire (p : EncodedPacket) : EncodedPacket :=
  {| ep_data := ep_data p; ep_codec := ep_codec p;
     ep_frame_id := Z.land (ep_frame_id p) MAX_FRAME_ID;
     ep_capture_ts_us := Z.land (ep_capture_ts_us p) 0xFFFFFFFF;
     ep_frame_type := ep_frame_type p |}.

Definition packet_key (p : EncodedPacket) : Z := Z.land (ep_frame_id p) MAX_FRAME_ID.

Lemma num_frags_bounds data cs :
  0 < cs -> let n := num_frags_of data cs in
  1 <= n /\ blen data <= n * cs /\ (n - 1) * cs <= blen data /\
  (data <> [] -> (n - 1) * cs < blen data).
Proof.
  intros Hcs. unfold num_frags_of. destruct data as [|b data]; cbn zeta.
  - change (blen []) with 0. split_and!; try lia. done.
  - set (l := blen (b :: data)). assert (1 <= l) by (unfold l, blen; cbn; lia).
    pose proof (Z.div_mod (l + cs - 1) cs ltac:(lia)) as E.
    pose proof (Z.mod_pos_bound (l + cs - 1) cs Hcs). split_and!; nia.
Qed.

Lemma chunk_of_eq data cs i :
  0 < cs -> blen data <= usize_max -> 0 <= i -> i < num_frags_of data cs ->
  chunk_of data cs i = take (Z.to_nat cs) (drop (Z.to_nat (i * cs)) data).
Proof.
  intros Hcs Hd Hi Hn. destruct (num_frags_bounds data cs Hcs) as (Hn1 & Hn2 & Hn3 & Hn4).
  assert (i * cs <= blen data) as Hle by nia.
  assert (i + 1 <= usize_max) as Hi1.
  { destruct (decide (data = [])) as [->|Hne]; [cbn in *; unfold usize_max, u64_max; lia|].
    specialize (Hn4 Hne). nia. }
  unfold chunk_of, sat_mul, sat_add. rewrite (Z.min_r usize_max (i * cs)) by lia.
  rewrite (Z.min_r usize_max (i + 1)) by lia.
  assert (blen data = Z.of_nat (length data)) as Hb by done.
  destruct (decide ((i + 1) * cs <= blen data)) as [Hfit|Hlast].
  - f_equal. lia.
  - rewrite (Z.min_r _ (blen data)) by lia.
    rewrite !take_ge; [done|rewrite length_drop; lia..].
Qed.

Definition chunks_of (data : bytes) (cs : Z) : list bytes :=
  map (fun i => take (Z.to_nat cs) (drop (i * Z.to_nat cs) data))
      (seq 0 (Z.to_nat (num_frags_of data cs))).

Lemma chunks_concat_take n c (data : bytes) :
  concat (map (fun i => take c (drop (i * c) data)) (seq 0 n)) = take (n * c) data.
Proof.
  induction n as [|n IH]; [done|]. rewrite seq_S, map_app, concat_app, IH. cbn [map concat].
  rewrite app_nil_r. cbn [Nat.add]. rewrite take_take_drop. f_equal. lia.
Qed.

Lemma chunks_concat data cs : 0 < cs -> concat (chunks_of data cs) = data.
Proof.
  intros Hcs. unfold chunks_of. rewrite chunks_concat_take. apply take_ge.
  destruct (num_frags_bounds data cs Hcs) as (Hn1 & Hn2 & _). unfold blen in Hn2. nia.
Qed.

(** A transmission: a packet and the chunks it was cut into. *)
Record tx := { tx_packet : EncodedPacket; tx_chunks : list bytes }.

#[global] Instance tx_eq_dec : EqDecision tx.
Proof. solve_decision. Defined.

Definition tx_key (t : tx) : Z := packet_key (tx_packet t).

Definition tx_ok (t : tx) : Prop :=
  concat (tx_chunks t) = ep_data (tx_packet t) /\ (1 <= length (tx_chunks t) <= 255)%nat.

(** [d] is the datagram of chunk [i] of [t], as the receiver reads it. *)
Definition is_frag (t : tx) (i : nat) (d : bytes) : Prop :=
  exists c v, ingest_parse d = Some (c, v) /\
    tx_chunks t !! i = Some (drop (Z.to_nat combined_header) d) /\ combined_header <= blen d /\
    frame_id v = tx_key t /\ frag_index v = Z.of_nat i /\
    total_frags v = Z.of_nat (length (tx_chunks t)) /\
    codec v = ep_codec (tx_packet t) /\ frame_type v = ep_frame_type (tx_packet t) /\
    timestamp_us c = Z.land (ep_capture_ts_us (tx_packet t)) 0xFFFFFFFF.

Lemma collect_Ok {A B E} (f : A -> result E B) l bs :
  collect f l = Ok bs -> Forall2 (fun a b => f a = Ok b) l bs.
Proof.
  revert bs. induction l as [|a l IH]; intros bs; cbn [collect].
  - intros [= <-]. constructor.
  - destruct (f a) as [b|] eqn:Ea; [|done]. destruct (collect f l) as [bs'|]; [|done].
    intros [= <-]. constructor; auto.
Qed.

Lemma land_mask_range z n : 0 <= n -> 0 <= z -> 0 <= Z.land z (Z.ones n) < 2 ^ n.
Proof. intros Hn Hz. rewrite Z.land_ones by lia. apply Z.mod_pos_bound. lia. Qed.

Lemma ingest_parse_datagram chd vh vb chunk :
  channel chd = Video -> is_u16 (sequence chd) -> is_u16 (payload_len chd) ->
  0 <= frame_id vh -> 0 <= monitor_id vh -> video_encode vh = Ok vb ->
  0 <= frag_index vh < total_frags vh ->
  ingest_parse (common_encode chd ++ vb ++ chunk) = Some (common_on_wire chd, video_on_wire vh).
Proof.
  intros Hc Hs Hp Hf Hm Evb Hi. unfold ingest_parse.
  rewrite common_decode_encode by done. cbn [ok mbind option_bind].
  rewrite bool_decide_eq_true_2 by done. cbn [negb].
  assert (length (common_encode chd) = 9%nat) as Hl by done.
  rewrite get_from_drop by (rewrite blen_app, common_encode_len; pose proof (blen_nonneg (vb ++ chunk)); unfold COMMON_HEADER_LEN; lia).
  change (Z.to_nat COMMON_HEADER_LEN) with 9%nat. rewrite drop_app_length' by done.
  cbn [mbind option_bind]. rewrite (video_decode_encode vh vb chunk Hf Hm Evb). cbn [ok mbind option_bind].
  cbn [total_frags frag_index video_on_wire].
  by rewrite (proj2 (Z.eqb_neq _ _)), (proj2 (Z.leb_gt _ _)) by lia.
Qed.

Lemma fragment_one_frag p seq_start cs i d :
  packet_ok p -> 0 < cs -> is_u16 seq_start ->
  let n := num_frags_of (ep_data p) cs in
  n <= 255 -> (i < Z.to_nat n)%nat ->
  fragment_one p seq_start cs n (Z.of_nat i) = Ok d ->
  is_frag {| tx_packet := p; tx_chunks := chunks_of (ep_data p) cs |} i d /\
  blen d <= combined_header + cs.
Proof.
  intros (Hf & Ht & Hd) Hcs Hs n Hn Hi. unfold fragment_one.
  destruct (num_frags_bounds (ep_data p) cs Hcs) as (Hn1 & _). fold n in Hn1.
  rewrite chunk_of_eq by (fold n; done || lia). set (chunk := take _ _).
  rewrite (Z.mod_small n) by lia.
  destruct (u16_max <? _) eqn:E16; [done|]. simplify_bool.
  destruct (u8_max <? _) eqn:E8; [done|]. simplify_bool.
  set (vh := {| frame_id := _ |}). set (chd := {| channel := _ |}).
  pose proof (land_mask_range (ep_frame_id p) 24 ltac:(lia)) as Hfr. change (Z.ones 24) with MAX_FRAME_ID in Hfr.
  unfold is_u64 in Hf, Ht. specialize (Hfr ltac:(lia)).
  destruct (video_encode_Ok vh) as (vb & Evb & Hvb).
  { cbn. change (2 ^ 24) with (MAX_FRAME_ID + 1) in Hfr. lia. }
  { cbn. unfold MAX_MONITOR_ID. lia. }
  rewrite Evb. cbn [map_err]. intros E. apply Ok_inj in E as <-.
  pose proof (common_encode_len chd) as Hcl.
  assert (length (common_encode chd) = 9%nat) as Hcl' by (unfold blen, COMMON_HEADER_LEN in Hcl; lia).
  assert (length vb = 12%nat) as Hvl by (unfold blen, VIDEO_HEADER_LEN in Hvb; lia).
  assert (0 <= blen chunk <= cs) as Hchunk.
  { unfold blen, chunk. rewrite length_take. lia. }
  assert (blen (common_encode chd ++ vb ++ chunk) = combined_header + blen chunk) as Hlen.
  { rewrite !blen_app, Hcl, Hvb. unfold combined_header. lia. }
  split; [|lia]. exists (common_on_wire chd), (video_on_wire vh). split_and!.
  - apply ingest_parse_datagram; cbn; try done; try lia; [apply Z.mod_pos_bound; lia|].
    unfold sat_add, usize_max, u64_max, u16_max, VIDEO_HEADER_LEN, is_u16 in *. lia.
  - assert (drop (Z.to_nat combined_header) (common_encode chd ++ vb ++ chunk) = chunk) as ->.
    { rewrite app_assoc. apply drop_app_length'. rewrite length_app, Hcl', Hvl. done. }
    cbn [tx_chunks]. unfold chunks_of. rewrite list_lookup_fmap, lookup_seq_lt by lia.
    change (0 + i)%nat with i. cbn [fmap option_fmap option_map]. unfold chunk.
    do 3 f_equal. lia.
  - lia.
  - done.
  - done.
  - cbn [total_frags video_on_wire vh tx_chunks]. unfold chunks_of. rewrite length_map, length_seq.
    fold n. lia.
  - done.
  - done.
  - cbn. apply Z.mod_small. change 4294967295 with (Z.ones 32).
    apply land_mask_range; lia.
Qed.

(** Cutting a packet: between 1 and 255 datagrams, none above the limit, their payloads in
    order are the packet's data. *)
Lemma fragment_spec p seq_start mx frags :
  packet_ok p -> is_u16 seq_start -> fragment p seq_start mx = Ok frags ->
  exists t, tx_packet t = p /\ tx_ok t /\ length frags = length (tx_chunks t) /\
    (forall i d, frags !! i = Some d -> is_frag t i d /\ blen d <= mx).
Proof.
  intros Hp Hs. unfold fragment. destruct (mx <=? combined_header) eqn:Em; [done|]. simplify_bool.
  assert (sat_sub mx combined_header = mx - combined_header) as -> by (unfold sat_sub; lia).
  set (cs := mx - combined_header). assert (0 < cs) as Hcs by lia.
  destruct (255 <? _) eqn:En; [done|]. simplify_bool.
  destruct (num_frags_bounds (ep_data p) cs Hcs) as (Hn1 & _).
  intros Hc%collect_Ok. exists {| tx_packet := p; tx_chunks := chunks_of (ep_data p) cs |}.
  assert (length frags = Z.to_nat (num_frags_of (ep_data p) cs)) as Hlen.
  { apply Forall2_length in Hc. rewrite length_seqZ in Hc. lia. }
  assert (length (chunks_of (ep_data p) cs) = Z.to_nat (num_frags_of (ep_data p) cs)) as Hlc.
  { unfold chunks_of. by rewrite length_map, length_seq. }
  split; [done|]. split; [split; cbn; [by apply chunks_concat|rewrite Hlc; lia]|].
  split; [cbn; congruence|]. intros i d Hd.
  pose proof (lookup_lt_Some _ _ _ Hd) as Hi. rewrite Hlen in Hi.
  destruct (Forall2_lookup_r _ _ _ _ _ Hc Hd) as (z & Hz & Hone).
  apply lookup_seqZ in Hz as [-> _].
  destruct (fragment_one_frag p seq_start cs i d Hp Hcs Hs) as [Hfr Hb]; [lia|done|done|].
  split; [done|lia].
Qed.
