(* ===== verification/Reassembly.v ===== *)
(** * sh-core: reassembly under reordering and interleaving

    The [Reassembler] of [packetize.rs] against its specification: for every frame in
    flight, the set of fragment indices received so far.  The invariant [reasm_inv] ties
    the buffer map to those sets; the theorems follow from one step lemma. *)

From stdpp Require Import base numbers list option gmap fin_maps strings.
From S2P Require Import Prelude Types ShpWire ShpHeaders Packetize.

(** ** The abstract state *)

(** The fragment indices of [t] among the fragments [seen]. *)
Definition idxs (seen : list (tx * nat)) (t : tx) : gset nat :=
  list_to_set (omap (fun '(t', i) => if decide (t' = t) then Some i else None) seen).

Lemma elem_of_idxs seen t i : i ∈ idxs seen t <-> (t, i) ∈ seen.
Proof.
  unfold idxs. rewrite elem_of_list_to_set, list_elem_of_omap. split.
  - intros ([t' j] & Hin & Hd). case_decide; simplify_eq. done.
  - intros Hin. exists (t, i). split; [done|]. by rewrite decide_True.
Qed.

Lemma idxs_cons seen t i t' :
  idxs ((t, i) :: seen) t' = if decide (t = t') then {[i]} ∪ idxs seen t' else idxs seen t'.
Proof.
  apply set_eq. intros j. rewrite elem_of_idxs, elem_of_cons. case_decide as Hd.
  - rewrite elem_of_union, elem_of_singleton, elem_of_idxs. subst.
    split; [intros [[= ->]|]; auto|intros [->|]; auto].
  - rewrite elem_of_idxs. split; [|by right]. intros [[= -> ->]|]; done.
Qed.

(** The slots of a frame with the chunks of [S] received. *)
Definition slots_of (chunks : list bytes) (S : gset nat) : list (option bytes) :=
  imap (fun i c => if decide (i ∈ S) then Some c else None) chunks.

Definition buffer_of (t : tx) (S : gset nat) : FrameBuffer :=
  {| slots := slots_of (tx_chunks t) S;
     fb_total_frags := Z.of_nat (length (tx_chunks t));
     received := Z.of_nat (size S);
     fb_codec := ep_codec (tx_packet t);
     fb_frame_type := ep_frame_type (tx_packet t);
     fb_frame_id := tx_key t;
     fb_capture_ts_us := Z.land (ep_capture_ts_us (tx_packet t)) 0xFFFFFFFF |}.

Definition complete (seen : list (tx * nat)) (t : tx) : Prop :=
  size (idxs seen t) = length (tx_chunks t).

#[global] Instance complete_dec seen t : Decision (complete seen t).
Proof. unfold complete. apply _. Defined.

(** The buffer a frame in flight occupies: none before its first and after its last
    fragment. *)
Definition in_flight (seen : list (tx * nat)) (t : tx) : option FrameBuffer :=
  if decide (idxs seen t = ∅ \/ complete seen t) then None else Some (buffer_of t (idxs seen t)).

Record reasm_inv (txs : list tx) (seen : list (tx * nat)) (r : Reassembler)
    (outs : list EncodedPacket) : Prop := {
  ri_range t i : (t, i) ∈ seen -> t ∈ txs /\ (i < length (tx_chunks t))%nat;
  ri_buffers t : t ∈ txs -> r !! tx_key t = in_flight seen t;
  ri_keys k : is_Some (r !! k) -> k ∈ map tx_key txs;
  ri_outs : outs ≡ₚ map (fun t => packet_on_wire (tx_packet t)) (filter (complete seen) txs);
}.

Lemma slots_lookup chunks S i :
  slots_of chunks S !! i = (fun c => if decide (i ∈ S) then Some c else None) <$> chunks !! i.
Proof. unfold slots_of. apply list_lookup_imap. Qed.

Lemma slots_insert chunks S i c :
  chunks !! i = Some c -> <[i := Some c]> (slots_of chunks S) = slots_of chunks ({[i]} ∪ S).
Proof.
  intros Hc. apply list_eq. intros j. rewrite slots_lookup.
  destruct (decide (i = j)) as [<-|Hne].
  - rewrite list_lookup_insert_eq, Hc; cbn [fmap option_fmap option_map].
    + by rewrite decide_True by set_solver.
    + unfold slots_of. rewrite length_imap. by eapply lookup_lt_Some.
  - rewrite list_lookup_insert_ne, slots_lookup by done. destruct (chunks !! j); [|done]. cbn.
    f_equal. by apply decide_ext; set_solver.
Qed.

Lemma slots_empty chunks : slots_of chunks ∅ = replicate (length chunks) None.
Proof.
  apply list_eq. intros j. rewrite slots_lookup. destruct (chunks !! j) as [c|] eqn:E; cbn.
  - rewrite decide_False by set_solver. symmetry. apply lookup_replicate_2.
    by eapply lookup_lt_Some.
  - symmetry. apply lookup_replicate_None. by apply lookup_ge_None in E.
Qed.

(** A set of [n] indices below [n] holds them all. *)
Lemma full_set (S : gset nat) n :
  (forall i, i ∈ S -> (i < n)%nat) -> size S = n -> forall i, (i < n)%nat -> i ∈ S.
Proof.
  intros Hlt Hsz i Hi. assert (S ≡ set_seq 0 n) as E.
  { apply set_subseteq_size_equiv; [intros j Hj; apply elem_of_set_seq; specialize (Hlt j Hj); lia|].
    by rewrite size_set_seq, Hsz. }
  rewrite E. apply elem_of_set_seq. lia.
Qed.

Lemma slots_full chunks S :
  (forall i, (i < length chunks)%nat -> i ∈ S) -> omap id (slots_of chunks S) = chunks.
Proof.
  intros Hf. assert (slots_of chunks S = Some <$> chunks) as ->.
  { apply list_eq. intros j. rewrite slots_lookup, list_lookup_fmap.
    destruct (chunks !! j) eqn:E; [|done]. cbn. rewrite decide_True; [done|].
    apply Hf. by eapply lookup_lt_Some. }
  clear Hf S. induction chunks as [|c cs IH]; [done|]. cbn. by rewrite IH.
Qed.

(** ** One datagram *)

Lemma new_buffer_of t i d c v :
  ingest_parse d = Some (c, v) -> frame_id v = tx_key t -> frag_index v = Z.of_nat i ->
  total_frags v = Z.of_nat (length (tx_chunks t)) ->
  codec v = ep_codec (tx_packet t) -> frame_type v = ep_frame_type (tx_packet t) ->
  timestamp_us c = Z.land (ep_capture_ts_us (tx_packet t)) 0xFFFFFFFF ->
  new_buffer c v = buffer_of t ∅.
Proof.
  intros _ Hf _ Ht Hc Hft Hts. unfold new_buffer, buffer_of.
  rewrite slots_empty, Hf, Ht, Hc, Hft, Hts, Nat2Z.id. by rewrite size_empty.
Qed.

Lemma assemble_full t S :
  tx_ok t -> (forall i, i ∈ S -> (i < length (tx_chunks t))%nat) ->
  size S = length (tx_chunks t) -> assemble (buffer_of t S) = packet_on_wire (tx_packet t).
Proof.
  intros [Hcat _] Hlt Hsz. unfold assemble, buffer_of, packet_on_wire, tx_key, packet_key.
  cbn [slots fb_codec fb_frame_id fb_capture_ts_us fb_frame_type].
  rewrite slots_full by (by apply full_set). by rewrite Hcat.
Qed.

(** A fragment that was not received before is stored; the last one completes the packet. *)
Lemma ingest_frag (r : Reassembler) t i d S :
  tx_ok t -> is_frag t i d -> i ∉ S ->
  (forall j, j ∈ S -> (j < length (tx_chunks t))%nat) ->
  (r !! tx_key t = Some (buffer_of t S) \/
   r !! tx_key t = None /\ S = ∅ /\ (size r < MAX_BUFFERED_FRAMES)%nat) ->
  ingest r d =
    if decide (size ({[i]} ∪ S) = length (tx_chunks t))
    then (delete (tx_key t) r, Some (packet_on_wire (tx_packet t)))
    else (<[tx_key t := buffer_of t ({[i]} ∪ S)]> r, None).
Proof.
  intros Hok (c & v & Hp & Hch & Hlen & Hf & Hi & Ht & Hco & Hft & Hts) Hnin Hlt Hr.
  pose proof (lookup_lt_Some _ _ _ Hch) as Hin. unfold ingest. rewrite Hp.
  assert (Z.land (frame_id v) MAX_FRAME_ID = tx_key t) as ->.
  { rewrite Hf. unfold tx_key, packet_key. by rewrite <- Z.land_assoc, Z.land_diag. }
  assert ((if bool_decide (r !! tx_key t = None) && (MAX_BUFFERED_FRAMES <=? size r)%nat
           then match first_key r with Some oldest => delete oldest r | None => r end else r) = r) as ->.
  { destruct Hr as [->|(-> & _ & Hsz)]; [done|]. apply Nat.leb_gt in Hsz. rewrite Hsz.
    by rewrite andb_false_r. }
  assert (default (new_buffer c v) (r !! tx_key t) = buffer_of t S) as ->.
  { destruct Hr as [->|(-> & -> & _)]; [done|]. by eapply new_buffer_of. }
  change (fb_total_frags (buffer_of t S)) with (Z.of_nat (length (tx_chunks t))).
  rewrite Ht, Z.eqb_refl, Hi, (proj2 (Z.leb_gt _ _)) by lia. cbn [negb].
  rewrite Nat2Z.id. cbn [slots buffer_of]. rewrite slots_lookup, Hch. cbn [fmap option_fmap option_map].
  rewrite decide_False by done. rewrite (proj2 (Z.ltb_ge _ _)) by lia.
  rewrite slots_insert by done. change (received (buffer_of t S)) with (Z.of_nat (size S)).
  cbn [received fb_total_frags]. assert (sat_add usize_max (Z.of_nat (size S)) 1 = Z.of_nat (size ({[i]} ∪ S))) as ->.
  { rewrite size_union, size_singleton by set_solver. destruct Hok as [_ Hn].
    assert (size S <= length (tx_chunks t))%nat.
    { rewrite <- (size_set_seq (C:=gset nat) 0 (length (tx_chunks t))). apply subseteq_size.
      intros j Hj. apply elem_of_set_seq. specialize (Hlt j Hj). lia. }
    unfold sat_add, usize_max, u64_max. lia. }
  set (b := {| slots := slots_of (tx_chunks t) ({[i]} ∪ S) |}).
  change b with (buffer_of t ({[i]} ∪ S)). case_decide as Hd.
  - rewrite Hd, Z.eqb_refl, delete_insert_eq. by rewrite assemble_full; [|done|set_solver|].
  - rewrite (proj2 (Z.eqb_neq _ _)) by lia. by rewrite insert_insert_eq.
Qed.

(** A fragment already stored is ignored. *)
Lemma ingest_duplicate (r : Reassembler) t i d S :
  is_frag t i d -> i ∈ S -> r !! tx_key t = Some (buffer_of t S) -> ingest r d = (r, None).
Proof.
  intros (c & v & Hp & Hch & Hlen & Hf & Hi & Ht & _) Hin Hr.
  pose proof (lookup_lt_Some _ _ _ Hch) as Hlt. unfold ingest. rewrite Hp.
  assert (Z.land (frame_id v) MAX_FRAME_ID = tx_key t) as ->.
  { rewrite Hf. unfold tx_key, packet_key. by rewrite <- Z.land_assoc, Z.land_diag. }
  rewrite Hr. cbn [bool_decide]. rewrite bool_decide_eq_false_2 by done. cbn [andb].
  rewrite Hr. change (default _ (Some ?x)) with x.
  change (fb_total_frags (buffer_of t S)) with (Z.of_nat (length (tx_chunks t))).
  rewrite Ht, Z.eqb_refl, Hi, (proj2 (Z.leb_gt _ _)) by lia. cbn [negb].
  rewrite Nat2Z.id. cbn [slots buffer_of]. rewrite slots_lookup, Hch. cbn [fmap option_fmap option_map].
  rewrite decide_True by done. f_equal. by apply insert_id.
Qed.

(** ** Interleaved frames *)

Lemma filter_none {A} (P : A -> Prop) `{!forall x, Decision (P x)} (l : list A) :
  (forall x, x ∈ l -> ~ P x) -> filter P l = [].
Proof.
  induction l as [|x l IH]; intros Hn; [done|]. rewrite filter_cons_False by (apply Hn; left).
  apply IH. intros y Hy. apply Hn. by right.
Qed.

(** One element of a duplicate-free list enters a filter. *)
Lemma filter_enter {A} (P Q : A -> Prop) `{!forall x, Decision (P x)} `{!forall x, Decision (Q x)}
    (l : list A) (a : A) :
  NoDup l -> a ∈ l -> ~ P a -> Q a -> (forall x, x ∈ l -> x <> a -> P x <-> Q x) ->
  filter Q l ≡ₚ a :: filter P l.
Proof.
  induction l as [|x l IH]; intros Hnd Hin HP HQ Hext; [by apply not_elem_of_nil in Hin|].
  apply NoDup_cons in Hnd as [Hx Hnd]. destruct (decide (P x)) as [Hpx|Hpx].
  - assert (x <> a) as Hne by congruence. rewrite (filter_cons_True P), (filter_cons_True Q) by
      (done || by apply Hext; [left|..]).
    rewrite IH; [apply Permutation_swap|done| |done|done|].
    + by apply elem_of_cons in Hin as [->|?].
    + intros y Hy. apply Hext. by right.
  - rewrite (filter_cons_False P) by done. apply elem_of_cons in Hin as [<-|Hin].
    + rewrite (filter_cons_True Q) by done. f_equiv. apply reflexive_eq. clear IH.
      assert (forall y, y ∈ l -> P y <-> Q y) as He.
      { intros y Hy. apply Hext; [by right|]. by intros ->. }
      clear -He. induction l as [|y l IH]; [done|].
      assert (filter Q l = filter P l) as IH' by (apply IH; intros z Hz; apply He; by right).
      rewrite !filter_cons, IH'. specialize (He y ltac:(left)). repeat case_decide; tauto.
    + assert (x <> a) by (intros ->; done).
      rewrite (filter_cons_False Q) by (by rewrite <- Hext; [|left|]).
      apply IH; try done. intros y Hy. apply Hext. by right.
Qed.

Lemma reasm_inv_new txs : (forall t, t ∈ txs -> tx_ok t) -> reasm_inv txs [] ∅ [].
Proof.
  intros Hok. split.
  - intros t i []%not_elem_of_nil.
  - intros t Ht. rewrite lookup_empty. unfold in_flight. by rewrite decide_True by (left; done).
  - intros k [? Hk]. by rewrite lookup_empty in Hk.
  - assert (filter (complete []) txs = []) as ->; [|done].
    apply filter_none. intros t Ht E. destruct (Hok t Ht) as [_ Hn].
    unfold complete in E. change (idxs [] t) with (∅ : gset nat) in E. rewrite size_empty in E. lia.
Qed.

Section Interleaving.
Variable txs : list tx.
Hypothesis Hkeys : NoDup (map tx_key txs).
Hypothesis Hok : forall t, t ∈ txs -> tx_ok t.
Hypothesis Hfew : (length txs <= MAX_BUFFERED_FRAMES)%nat.

Lemma tx_key_inj t t' : t ∈ txs -> t' ∈ txs -> tx_key t = tx_key t' -> t = t'.
Proof.
  intros [i Hi]%list_elem_of_lookup [j Hj]%list_elem_of_lookup E.
  assert (i = j) as ->; [|congruence].
  apply (NoDup_lookup (map tx_key txs) i j (tx_key t) Hkeys);
    rewrite list_lookup_fmap, ?Hi, ?Hj; [done|by rewrite E].
Qed.

(** With no more frames than buffers, a frame without a buffer finds room for one. *)
Lemma room_for seen r outs t :
  reasm_inv txs seen r outs -> t ∈ txs -> r !! tx_key t = None ->
  (size r < MAX_BUFFERED_FRAMES)%nat.
Proof.
  intros Hi Ht Hnone. rewrite <- size_dom.
  assert (size (dom r ∪ {[tx_key t]}) <= length txs)%nat as Hle.
  { rewrite <- (length_map tx_key), <- (size_list_to_set (C:=gset Z) (map tx_key txs)) by done.
    apply subseteq_size. intros k [Hk| ->%elem_of_singleton]%elem_of_union; apply elem_of_list_to_set.
    - apply (ri_keys _ _ _ _ Hi). by apply elem_of_dom.
    - by apply list_elem_of_fmap_2. }
  rewrite size_union, size_singleton in Hle; [lia|].
  apply disjoint_singleton_r. by apply not_elem_of_dom.
Qed.

Lemma in_flight_other seen t i t' :
  t <> t' -> in_flight ((t, i) :: seen) t' = in_flight seen t'.
Proof.
  intros Hne. assert (idxs ((t, i) :: seen) t' = idxs seen t') as E
    by (by rewrite idxs_cons, decide_False).
  unfold in_flight, complete. repeat case_decide; rewrite ?E in *; tauto.
Qed.

Lemma complete_other seen t i t' :
  t' <> t -> complete seen t' <-> complete ((t, i) :: seen) t'.
Proof. intros Hne. unfold complete. rewrite idxs_cons, decide_False by congruence. done. Qed.

Lemma reasm_step seen r outs t i d :
  reasm_inv txs seen r outs -> t ∈ txs -> is_frag t i d -> (t, i) ∉ seen ->
  reasm_inv txs ((t, i) :: seen) (ingest r d).1 (option_list (ingest r d).2 ++ outs).
Proof.
  intros Hi Ht Hfr Hnin. set (S := idxs seen t).
  assert (i < length (tx_chunks t))%nat as Hlt by (destruct Hfr as (?&?&_&Hc&_); by eapply lookup_lt_Some).
  assert (i ∉ S) as HiS by (unfold S; by rewrite elem_of_idxs).
  assert (forall j, j ∈ S -> (j < length (tx_chunks t))%nat) as HSlt.
  { intros j Hj. apply elem_of_idxs in Hj. exact (proj2 (ri_range _ _ _ _ Hi _ _ Hj)). }
  assert (~ complete seen t) as Hnc.
  { intros Hc. apply HiS. by apply (full_set S (length (tx_chunks t))). }
  assert (idxs ((t, i) :: seen) t = {[i]} ∪ S) as HS' by (by rewrite idxs_cons, decide_True).
  rewrite (ingest_frag r t i d S (Hok t Ht) Hfr HiS HSlt).
  2: { rewrite (ri_buffers _ _ _ _ Hi t Ht). unfold in_flight. case_decide as Hd; [|by left].
       right. split; [done|]. destruct Hd as [Hd|Hd]; [|done]. split; [done|].
       apply (room_for seen r outs t Hi Ht). rewrite (ri_buffers _ _ _ _ Hi t Ht).
       unfold in_flight. by rewrite decide_True by (by left). }
  assert (forall t' j, (t', j) ∈ (t, i) :: seen -> t' ∈ txs /\ (j < length (tx_chunks t'))%nat) as Hrange.
  { intros t' j [[= -> ->]|Hin]%elem_of_cons; [done|]. exact (ri_range _ _ _ _ Hi _ _ Hin). }
  case_decide as Hd; cbn [fst snd option_list app].
  - split; [done| | |].
    + intros t' Ht'. destruct (decide (t' = t)) as [->|Hne].
      * rewrite lookup_delete_eq. unfold in_flight. rewrite decide_True; [done|]. right.
        unfold complete. by rewrite HS'.
      * rewrite lookup_delete_ne, in_flight_other by (congruence || intros E; apply Hne; by apply tx_key_inj).
        by apply (ri_buffers _ _ _ _ Hi).
    + intros k [b [_ Hk]%lookup_delete_Some]. apply (ri_keys _ _ _ _ Hi). by exists b.
    + rewrite (filter_enter (complete seen) (complete ((t, i) :: seen)) txs t);
        [cbn [map]; apply Permutation_skip, (ri_outs _ _ _ _ Hi)|by eapply NoDup_fmap_1|done|done| |].
      * unfold complete. by rewrite HS'.
      * intros t' _ Hne. by apply complete_other.
  - assert (~ complete ((t, i) :: seen) t) as Hnc' by (unfold complete; by rewrite HS').
    split; [done| | |].
    + intros t' Ht'. destruct (decide (t' = t)) as [->|Hne].
      * rewrite lookup_insert_eq. unfold in_flight. rewrite HS', decide_False; [done|].
        intros [E|?]; [set_solver|done].
      * rewrite lookup_insert_ne, in_flight_other by (congruence || intros E; apply Hne; by apply tx_key_inj).
        by apply (ri_buffers _ _ _ _ Hi).
    + intros k [b [[<- _]|[_ Hk]]%lookup_insert_Some]; [by apply list_elem_of_fmap_2|].
      apply (ri_keys _ _ _ _ Hi). by exists b.
    + rewrite (ri_outs _ _ _ _ Hi).
      rewrite (list_filter_iff (complete seen) (complete ((t, i) :: seen))); [done|].
      intros t'. destruct (decide (t' = t)) as [->|Hne]; [tauto|]. by apply complete_other.
Qed.

Lemma reasm_all (L : list ((tx * nat) * bytes)) seen r outs :
  reasm_inv txs seen r outs ->
  Forall (fun '((t, i), d) => t ∈ txs /\ is_frag t i d) L ->
  NoDup (map fst L ++ seen) ->
  reasm_inv txs (rev (map fst L) ++ seen) (ingest_all r (map snd L)).1
    (rev (ingest_all r (map snd L)).2 ++ outs).
Proof.
  intros Hi HL. revert seen r outs Hi. induction HL as [|[[t i] d] L [Ht Hfr] _ IH];
    intros seen r outs Hi Hnd; [done|].
  cbn [map fst snd ingest_all rev app] in *. apply NoDup_cons in Hnd as [Hnin Hnd].
  assert ((t, i) ∉ seen) as Hns by (intros ?; apply Hnin, elem_of_app; by right).
  pose proof (reasm_step seen r outs t i d Hi Ht Hfr Hns) as Hi'.
  destruct (ingest r d) as [r1 out]. cbn [fst snd] in Hi'.
  specialize (IH ((t, i) :: seen) r1 _ Hi').
  destruct (ingest_all r1 (map snd L)) as [r2 outs2] eqn:Eall. cbn [fst snd] in *.
  rewrite <- app_assoc. cbn [app].
  assert (rev (match out with Some p => p :: outs2 | None => outs2 end) ++ outs
          = rev outs2 ++ option_list out ++ outs) as ->.
  { destruct out; cbn; [by rewrite <- app_assoc|done]. }
  apply IH. rewrite <- Permutation_middle. by constructor.
Qed.

End Interleaving.

(** ** Packets sent, datagrams received *)

(** One call of [fragment]. *)
Record transmission := {
  tr_packet : EncodedPacket;
  tr_seq_start : Z;
  tr_max_datagram : Z;
}.

Definition transmitted (s : transmission) (frags : list bytes) : Prop :=
  packet_ok (tr_packet s) /\ is_u16 (tr_seq_start s) /\
  fragment (tr_packet s) (tr_seq_start s) (tr_max_datagram s) = Ok frags.

(** Every datagram labelled with its packet and index. *)
Definition labelled (t : tx) (frags : list bytes) : list ((tx * nat) * bytes) :=
  imap (fun i d => ((t, i), d)) frags.

Lemma labelled_snd t frags : map snd (labelled t frags) = frags.
Proof.
  unfold labelled. apply list_eq. intros i. rewrite list_lookup_fmap, list_lookup_imap.
  by destruct (frags !! i).
Qed.

Lemma labelled_fst t frags : map fst (labelled t frags) = map (pair t) (seq 0 (length frags)).
Proof.
  unfold labelled. apply list_eq. intros i.
  rewrite list_lookup_fmap, list_lookup_imap, list_lookup_fmap.
  destruct (frags !! i) as [d|] eqn:E.
  - apply lookup_lt_Some in E. by rewrite lookup_seq_lt by lia.
  - apply lookup_ge_None in E. by rewrite lookup_seq_ge by lia.
Qed.

(** What a list of transmissions puts on the wire. *)
Lemma transmitted_labels sent frames :
  Forall2 transmitted sent frames -> NoDup (map (fun s => packet_key (tr_packet s)) sent) ->
  exists txs L, map tx_packet txs = map tr_packet sent /\ concat frames = map snd L /\
    (forall t, t ∈ txs -> tx_ok t) /\
    Forall (fun '((t, i), d) => t ∈ txs /\ is_frag t i d) L /\
    NoDup (map fst L) /\
    (forall t i, t ∈ txs -> (i < length (tx_chunks t))%nat -> (t, i) ∈ map fst L).
Proof.
  induction 1 as [|s frags sent frames (Hp & Hs & Hf) _ IH]; cbn [map]; intros Hnd.
  { exists [], []. split_and!; [done|done| |constructor|constructor|]; intros t;
      [intros Ht|intros i Ht]; by apply not_elem_of_nil in Ht. }
  apply NoDup_cons in Hnd as [Hnin Hnd].
  destruct (IH Hnd) as (txs & L & Hmp & Hcat & Hok & HL & HLnd & Hall).
  destruct (fragment_spec _ _ _ _ Hp Hs Hf) as (t & Htp & Htok & Hlen & Hfr).
  assert (t ∉ txs) as Htn.
  { intros Hin. apply Hnin. rewrite <- Htp. apply list_elem_of_fmap.
    assert (tx_packet t ∈ map tr_packet sent) as Hin2 by (rewrite <- Hmp; by apply list_elem_of_fmap_2).
    apply list_elem_of_fmap in Hin2 as (s' & -> & Hs'). by exists s'. }
  exists (t :: txs), (labelled t frags ++ L). cbn [map concat].
  rewrite !map_app, labelled_snd, labelled_fst, Hmp, Htp, Hcat. split_and!; [done|done| | | |].
  - intros t' [->|?]%elem_of_cons; auto.
  - apply Forall_app. split.
    + apply Forall_lookup. intros i [[t' j] d] Hl. unfold labelled in Hl.
      rewrite list_lookup_imap in Hl. destruct (frags !! i) as [d'|] eqn:E; [|done].
      injection Hl as <- <- <-. split; [left|]. by destruct (Hfr i d' E).
    + eapply Forall_impl; [exact HL|]. intros [[t' j] d] [? ?]. split; [by right|done].
  - apply NoDup_app. split_and!; [|intros [t' j] Hin1 Hin2|done].
    + apply NoDup_fmap_2; [by intros ? ? [= ->]|]. apply NoDup_ListNoDup, seq_NoDup.
    + apply list_elem_of_fmap in Hin1 as (j' & [= -> ->] & _). apply Htn.
      apply list_elem_of_fmap in Hin2 as ([[t' k] d] & [= <- <-] & Hin2).
      rewrite Forall_forall in HL. by destruct (HL _ Hin2).
  - intros t' i [->|Ht']%elem_of_cons Hi; apply elem_of_app; [left|right; auto].
    apply list_elem_of_fmap_2, elem_of_seq. lia.
Qed.

Lemma all_complete txs seen r outs :
  reasm_inv txs seen r outs ->
  (forall t i, t ∈ txs -> (i < length (tx_chunks t))%nat -> (t, i) ∈ seen) ->
  r = ∅ /\ outs ≡ₚ map (fun t => packet_on_wire (tx_packet t)) txs.
Proof.
  intros Hi Hall.
  assert (forall t, t ∈ txs -> complete seen t) as Hc.
  { intros t Ht. unfold complete.
    assert (idxs seen t = set_seq 0 (length (tx_chunks t))) as ->; [|by rewrite size_set_seq].
    apply set_eq. intros i. rewrite elem_of_idxs, elem_of_set_seq. split.
    - intros Hin. destruct (ri_range _ _ _ _ Hi _ _ Hin). lia.
    - intros [_ Hlt]. by apply Hall. }
  split.
  - apply map_eq. intros k. rewrite lookup_empty. apply eq_None_not_Some. intros Hsome.
    pose proof (ri_keys _ _ _ _ Hi k Hsome) as (t & -> & Ht)%list_elem_of_fmap.
    rewrite (ri_buffers _ _ _ _ Hi t Ht) in Hsome. unfold in_flight in Hsome.
    rewrite decide_True in Hsome by (right; auto). by destruct Hsome.
  - rewrite (ri_outs _ _ _ _ Hi). apply reflexive_eq. f_equal.
    clear -Hc. induction txs as [|t txs IH]; [done|].
    rewrite filter_cons_True by (apply Hc; left). f_equal. apply IH. intros t' Ht'. apply Hc. by right.
Qed.

Lemma reassemble_shuffled sent frames ds :
  Forall2 transmitted sent frames ->
  NoDup (map (fun s => packet_key (tr_packet s)) sent) ->
  (length sent <= MAX_BUFFERED_FRAMES)%nat ->
  ds ≡ₚ concat frames ->
  (ingest_all reassembler_new ds).1 = reassembler_new /\
  (ingest_all reassembler_new ds).2 ≡ₚ map (fun s => packet_on_wire (tr_packet s)) sent.
Proof.
  intros Hsent Hnd Hfew Hperm.
  destruct (transmitted_labels sent frames Hsent Hnd) as (txs & L & Hmp & Hcat & Hok & HL & HLnd & Hall).
  rewrite Hcat in Hperm. apply Permutation_map_inv in Hperm as (L' & -> & HLL).
  assert (NoDup (map tx_key txs)) as Hkeys.
  { unfold tx_key. rewrite <- (map_map tx_packet packet_key), Hmp, map_map. done. }
  pose proof (reasm_all txs Hkeys Hok) as Hrun. rewrite <- (length_map tr_packet), <- Hmp, length_map in Hfew.
  specialize (Hrun Hfew L' [] ∅ [] (reasm_inv_new txs Hok)).
  assert (NoDup (map fst L' ++ [])) as HLnd' by (rewrite app_nil_r; by rewrite <- HLL).
  specialize (Hrun (Permutation_Forall HLL HL) HLnd'). rewrite !app_nil_r in Hrun.
  apply all_complete in Hrun as [Hr Ho].
  - split; [done|]. rewrite <- (map_map tr_packet packet_on_wire), <- Hmp, map_map, <- Ho. apply Permutation_rev.
  - intros t i Ht Hi. rewrite list_elem_of_In, <- in_rev, <- list_elem_of_In.
    rewrite <- HLL. auto.
Qed.

(** C6. Reordered and interleaved delivery: cut any packets (at most 32, with different wire
    frame ids) into datagrams, shuffle all the datagrams arbitrarily, and the reassembler
    returns exactly those packets (with their wire-width frame id and timestamp), each once,
    and keeps no buffer. *)
Theorem reassembly_any_order sent frames ds :
  Forall2 transmitted sent frames ->
  NoDup (map (fun s => packet_key (tr_packet s)) sent) ->
  (length sent <= MAX_BUFFERED_FRAMES)%nat ->
  ds ≡ₚ concat frames ->
  (ingest_all reassembler_new ds).1 = reassembler_new /\
  (ingest_all reassembler_new ds).2 ≡ₚ map (fun s => packet_on_wire (tr_packet s)) sent.
Proof. apply reassemble_shuffled. Qed.

Lemma ingest_all_app r ds1 ds2 :
  ingest_all r (ds1 ++ ds2) =
  let '(r1, o1) := ingest_all r ds1 in
  let '(r2, o2) := ingest_all r1 ds2 in (r2, o1 ++ o2).
Proof.
  revert r. induction ds1 as [|d ds1 IH]; intros r; cbn [ingest_all app].
  - by destruct (ingest_all r ds2).
  - destruct (ingest r d) as [r' out]. rewrite IH.
    destruct (ingest_all r' ds1) as [r1 o1]. destruct (ingest_all r1 ds2) as [r2 o2].
    by destruct out.
Qed.

(** ** Bounded memory under arbitrary input *)

Definition filled (l : list (option bytes)) : nat := length (omap id l).

Record buffer_wf (b : FrameBuffer) : Prop := {
  bw_slots : Z.of_nat (length (slots b)) = fb_total_frags b;
  bw_total : 1 <= fb_total_frags b <= 255;
  bw_received : received b = Z.of_nat (filled (slots b));
  bw_partial : received b < fb_total_frags b;
}.

Definition reasm_wf (r : Reassembler) : Prop :=
  (size r <= MAX_BUFFERED_FRAMES)%nat /\ map_Forall (fun _ => buffer_wf) r.

Lemma filled_replicate n : filled (replicate n None) = 0%nat.
Proof. induction n; done. Qed.

Lemma filled_insert (l : list (option bytes)) i c :
  l !! i = Some None -> filled (<[i := Some c]> l) = S (filled l).
Proof.
  unfold filled. revert i. induction l as [|[x|] l IH]; intros [|i] Hi; try done.
  - change (S (length (omap id (<[i := Some c]> l))) = S (S (length (omap id l)))).
    f_equal. by apply IH.
  - change (length (omap id (<[i := Some c]> l)) = S (length (omap id l))). by apply IH.
Qed.

Lemma first_key_dom (r : Reassembler) :
  match first_key r with Some k => is_Some (r !! k) | None => r = ∅ end.
Proof.
  unfold first_key.
  apply (map_fold_weak_ind (fun acc m => match acc with Some k => is_Some (m !! k) | None => m = ∅ end));
    [done|].
  intros k b m [k'|] Hk Hacc; [|rewrite lookup_insert_eq; by eexists].
  apply lookup_insert_is_Some.
  destruct (Z.min_spec k k') as [[_ ->]|[_ ->]]; [by left|right].
  split; [|done]. intros <-. rewrite Hk in Hacc. by destruct Hacc.
Qed.

(** The eviction before a new frame makes room for it. *)
Lemma evict_wf (r : Reassembler) key :
  reasm_wf r ->
  let r' := if bool_decide (r !! key = None) && (MAX_BUFFERED_FRAMES <=? size r)%nat
            then match first_key r with Some oldest => delete oldest r | None => r end
            else r in
  map_Forall (fun _ => buffer_wf) r' /\ r' !! key = r !! key /\
  (size (<[key := default (Build_FrameBuffer [] 0 0 H264 Idr 0 0) (r' !! key)]> r') <= MAX_BUFFERED_FRAMES)%nat.
Proof.
  intros [Hsz Hall]. cbn zeta. destruct (r !! key) as [b|] eqn:Hk.
  - rewrite bool_decide_eq_false_2 by done. cbn [andb]. split_and!; [done|done|].
    rewrite Hk. cbn. rewrite insert_id by done. done.
  - rewrite bool_decide_eq_true_2 by done. cbn [andb].
    destruct (Nat.leb_spec MAX_BUFFERED_FRAMES (size r)) as [Hfull|Hroom].
    2: { split_and!; [done|done|]. rewrite map_size_insert_None by done. lia. }
    pose proof (first_key_dom r) as Hd. destruct (first_key r) as [k|].
    2: { subst. rewrite map_size_empty in Hfull. unfold MAX_BUFFERED_FRAMES in Hfull. lia. }
    assert (delete k r !! key = None) as Hn by (apply lookup_delete_None; by right).
    split_and!; [by apply map_Forall_delete|done|].
    rewrite map_size_insert_None by done. rewrite map_size_delete_Some by done.
    destruct (decide (size r = 0%nat)); unfold MAX_BUFFERED_FRAMES in *; lia.
Qed.

Lemma ingest_parse_wf d c v :
  bytes_ok d -> ingest_parse d = Some (c, v) ->
  buffer_wf (new_buffer c v) /\ 0 <= frag_index v < total_frags v.
Proof.
  intros Hb. unfold ingest_parse. destruct (common_decode d) as [c'|]; [|done]. cbn.
  destruct (negb _); [done|]. destruct (get_from d COMMON_HEADER_LEN) as [rest|] eqn:Er; [|done]. cbn.
  destruct (video_decode rest) as [v'|] eqn:Ev; [|done]. cbn.
  destruct (_ =? 0) eqn:E0; [done|]. destruct (_ <=? _) eqn:El; [done|]. simplify_bool.
  intros [= -> ->].
  assert (bytes_ok rest) as Hrest.
  { apply get_range_Some in Er as (_ & _ & _ & Heq). rewrite Heq in Hb.
    apply Forall_app in Hb as [_ Hb]. by apply Forall_app in Hb as [? _]. }
  destruct (video_decode_canonical rest v Hrest Ev) as [(_ & Hi & Ht & _) _].
  unfold is_u8 in *. split; [|lia].
  split; cbn [new_buffer slots fb_total_frags received]; [rewrite length_replicate; lia|lia| |lia].
  by rewrite filled_replicate.
Qed.

Lemma store_wf b i c :
  buffer_wf b -> slots b !! i = Some None ->
  received b + 1 <> fb_total_frags b ->
  buffer_wf {| slots := <[i := Some c]> (slots b); fb_total_frags := fb_total_frags b;
               received := sat_add usize_max (received b) 1; fb_codec := fb_codec b;
               fb_frame_type := fb_frame_type b; fb_frame_id := fb_frame_id b;
               fb_capture_ts_us := fb_capture_ts_us b |}.
Proof.
  intros [Hs Ht Hr Hp] Hi Hne.
  assert (sat_add usize_max (received b) 1 = received b + 1) as E
    by (unfold sat_add, usize_max, u64_max; lia).
  split; cbn [slots fb_total_frags received]; rewrite ?E.
  - by rewrite length_insert.
  - done.
  - rewrite filled_insert by done. lia.
  - lia.
Qed.

Lemma ingest_wf r d : bytes_ok d -> reasm_wf r -> reasm_wf (ingest r d).1.
Proof.
  intros Hb Hwf. unfold ingest. destruct (ingest_parse d) as [[c v]|] eqn:Hp; [|done].
  destruct (ingest_parse_wf d c v Hb Hp) as [Hnew Hidx].
  set (key := Z.land _ _). destruct (evict_wf r key Hwf) as (Hall & _ & Hsz).
  set (r1 := if _ && _ then _ else r) in *. set (buf := default (new_buffer c v) (r1 !! key)).
  assert (buffer_wf buf) as Hbuf.
  { unfold buf. destruct (r1 !! key) as [b|] eqn:E; [|done]. cbn. by apply (Hall key). }
  assert (forall b, size (<[key := b]> r1) <= MAX_BUFFERED_FRAMES)%nat as Hsz'.
  { intros b. rewrite map_size_insert in *. done. }
  assert (forall b, buffer_wf b -> reasm_wf (<[key := b]> r1)) as Hins.
  { intros b Hbw. split; [done|]. by apply map_Forall_insert_2. }
  destruct (negb _); [by apply Hins|]. destruct (_ <=? _); [by apply Hins|].
  destruct (slots buf !! Z.to_nat (frag_index v)) as [[x|]|] eqn:Eslot; [by apply Hins| |].
  2: { destruct (_ <? _); by apply Hins. }
  destruct (_ <? _); [by apply Hins|]. cbn [received fb_total_frags].
  destruct (_ =? fb_total_frags buf) eqn:Edone; cbn [fst]; simplify_bool.
  - rewrite delete_insert_eq. split; [|by apply map_Forall_delete].
    specialize (Hsz' buf). rewrite map_size_insert in Hsz'. rewrite map_size_delete.
    destruct (r1 !! key); cbn in *; lia.
  - rewrite insert_insert_eq. apply Hins, store_wf; [done|done|].
    destruct Hbuf as [_ Ht Hr Hpart]. unfold sat_add, usize_max, u64_max in Edone. lia.
Qed.

(** Bounded memory: whatever datagrams arrive, the reassembler never holds more than 32
    frames, and every frame it holds is incomplete, has one slot per announced fragment (at
    most 255) and counts its filled slots correctly. *)
Lemma reassembler_bounded ds :
  Forall bytes_ok ds -> reasm_wf (ingest_all reassembler_new ds).1.
Proof.
  assert (reasm_wf reassembler_new) as Hwf.
  { split; [unfold reassembler_new; rewrite map_size_empty; lia|apply map_Forall_empty]. }
  revert Hwf. generalize reassembler_new as r. induction ds as [|d ds IH]; intros r Hwf Hds; [done|].
  rewrite Forall_cons in Hds. destruct Hds as [Hd Hds]. cbn [ingest_all].
  pose proof (ingest_wf r d Hd Hwf) as Hwf'. destruct (ingest r d) as [r1 out].
  specialize (IH r1 Hwf' Hds). by destruct (ingest_all r1 ds).
Qed.

(** ** What [fragment] returns *)

Lemma collect_Err {A B E} (f : A -> result E B) l e :
  collect f l = Err e -> exists a, a ∈ l /\ f a = Err e.
Proof.
  induction l as [|a l IH]; cbn [collect]; [done|].
  destruct (f a) as [b|e'] eqn:Ea.
  - destruct (collect f l) as [bs|e']; [done|]. intros [= ->].
    destruct (IH eq_refl) as (x & Hx & Hfx). exists x. split; [by right|done].
  - intros [= ->]. exists a. split; [left|done].
Qed.

Lemma collect_nth {A B E} (f : A -> result E B) l i a bs :
  collect f l = Ok bs -> l !! i = Some a -> exists b, f a = Ok b.
Proof.
  intros Hc%collect_Ok Hi. destruct (Forall2_lookup_l _ _ _ _ _ Hc Hi) as (b & _ & Hb). eauto.
Qed.

(** The only error of the loop body. *)
Lemma fragment_one_err p seq_start cs n i e :
  packet_ok p -> 0 < cs -> 0 <= i < n -> n <= 255 -> n = num_frags_of (ep_data p) cs ->
  fragment_one p seq_start cs n i = Err e ->
  e = PayloadTooLarge /\ u16_max < VIDEO_HEADER_LEN + Z.min cs (blen (ep_data p)).
Proof.
  intros (Hf & _ & Hd) Hcs Hi Hn -> . unfold fragment_one. rewrite chunk_of_eq by (done || lia).
  set (chunk := take _ _). destruct (u16_max <? _) eqn:E16; simplify_bool.
  - intros [= <-]. split; [done|].
    assert (blen chunk <= Z.min cs (blen (ep_data p))).
    { unfold chunk, blen. rewrite length_take, length_drop. lia. }
    unfold sat_add, usize_max, u64_max, u16_max in *. lia.
  - rewrite (proj2 (Z.ltb_ge _ _)) by (unfold u8_max; lia).
    set (vh := {| frame_id := _ |}). unfold is_u64 in Hf.
    pose proof (land_mask_range (ep_frame_id p) 24 ltac:(lia) ltac:(lia)) as Hfr.
    change (Z.ones 24) with MAX_FRAME_ID in Hfr. change (2 ^ 24) with (MAX_FRAME_ID + 1) in Hfr.
    destruct (video_encode_Ok vh) as (vb & -> & _); [cbn; lia|cbn; unfold MAX_MONITOR_ID; lia|].
    done.
Qed.

(** [fragment] on every input: it succeeds with between 1 and 255 datagrams, none longer
    than the limit, whose payloads in order are the packet's data; or it fails because the
    limit leaves no room for a payload byte, because more than 255 fragments would be needed,
    or because a fragment would not fit the 16-bit length field.  No other error occurs. *)
Lemma fragment_outcome p seq_start mx :
  packet_ok p -> is_u16 seq_start ->
  match fragment p seq_start mx with
  | Ok frags =>
      (1 <= length frags <= 255)%nat /\ Forall (fun d => blen d <= mx) frags /\
      concat (map (drop (Z.to_nat combined_header)) frags) = ep_data p
  | Err (DatagramTooSmall m) => m = mx /\ mx <= combined_header
  | Err (TooManyFragments n) =>
      255 < n /\ n = num_frags_of (ep_data p) (mx - combined_header)
  | Err PayloadTooLarge =>
      u16_max < VIDEO_HEADER_LEN + Z.min (mx - combined_header) (blen (ep_data p))
  | Err (Protocol _) => False
  end.
Proof.
  intros Hp Hs. destruct (fragment p seq_start mx) as [frags|e] eqn:E.
  - destruct (fragment_spec p seq_start mx frags Hp Hs E) as (t & <- & [Hcat Hn] & Hlen & Hfr).
    split; [lia|]. split; [apply Forall_lookup; intros i d Hd; by apply (Hfr i d)|].
    rewrite <- Hcat. f_equal. apply list_eq. intros i. rewrite list_lookup_fmap.
    destruct (frags !! i) as [d|] eqn:Ed; cbn.
    + destruct (Hfr i d Ed) as [(c & v & _ & Hc & _) _]. by rewrite Hc.
    + symmetry. apply lookup_ge_None. apply lookup_ge_None in Ed. lia.
  - unfold fragment in E. destruct (mx <=? combined_header) eqn:Em; simplify_bool.
    { by injection E as <-. }
    assert (sat_sub mx combined_header = mx - combined_header) as Hsat by (unfold sat_sub; lia).
    rewrite Hsat in E. destruct (255 <? _) eqn:En; simplify_bool.
    { by injection E as <-. }
    apply collect_Err in E as (i & Hi & Hone). apply elem_of_seqZ in Hi.
    by destruct (fragment_one_err p seq_start (mx - combined_header)
      (num_frags_of (ep_data p) (mx - combined_header)) i e Hp) as [-> Hbig];
      [lia|lia|done|done|done|].
Qed.

(** Two packets with interleaved datagrams, for the witnesses. *)
Definition toy_packet (id : Z) (data : bytes) : EncodedPacket :=
  {| ep_data := data; ep_codec := H265; ep_frame_id := id; ep_capture_ts_us := 5;
     ep_frame_type := Idr |}.

Definition toy_tr (id : Z) (data : bytes) : transmission :=
  {| tr_packet := toy_packet id data; tr_seq_start := 65535; tr_max_datagram := 23 |}.

Definition toy_frags (id : Z) (data : bytes) : list bytes :=
  match fragment (toy_packet id data) 65535 23 with Ok f => f | Err _ => [] end.

Lemma toy_packet_ok id data : (blen data <=? 100) = true -> (0 <=? id) && (id <? 2 ^ 32) = true ->
  packet_ok (toy_packet id data).
Proof.
  intros Hd Hid. simplify_bool.
  split_and!; cbn; unfold is_u64, usize_max, u64_max; lia.
Qed.

Lemma fragment_outcome_witness :
  let frags := toy_frags 7 [1; 2; 3; 4; 5] in
  length frags = 3%nat /\ concat (map (drop (Z.to_nat combined_header)) frags) = [1; 2; 3; 4; 5].
Proof.
  split; [vm_compute; reflexivity|].
  assert (is_u16 65535) as H16 by (unfold is_u16; lia).
  pose proof (fragment_outcome (toy_packet 7 [1; 2; 3; 4; 5]) 65535 23
    (toy_packet_ok 7 [1; 2; 3; 4; 5] eq_refl eq_refl) H16) as H.
  assert (fragment (toy_packet 7 [1; 2; 3; 4; 5]) 65535 23 = Ok (toy_frags 7 [1; 2; 3; 4; 5])) as E
    by (vm_compute; reflexivity).
  rewrite E in H. exact (proj2 (proj2 H)).
Defined.

Lemma reassembly_any_order_witness :
  let d1 := toy_frags 7 [1; 2; 3; 4; 5] in
  let d2 := toy_frags 16777224 [9; 8; 7] in
  (ingest_all reassembler_new (rev (d1 ++ d2))).2
    ≡ₚ [packet_on_wire (toy_packet 7 [1; 2; 3; 4; 5]); packet_on_wire (toy_packet 16777224 [9; 8; 7])].
Proof.
  intros d1 d2. assert (is_u16 65535) as H16 by (unfold is_u16; lia).
  assert (Forall2 transmitted [toy_tr 7 [1; 2; 3; 4; 5]; toy_tr 16777224 [9; 8; 7]] [d1; d2]) as Ht.
  { repeat (apply Forall2_cons; split;
              [split_and!; [by apply toy_packet_ok|exact H16|vm_compute; reflexivity]|]).
    apply Forall2_nil_2. }
  assert (NoDup (map (fun s => packet_key (tr_packet s)) [toy_tr 7 [1; 2; 3; 4; 5]; toy_tr 16777224 [9; 8; 7]])) as Hnd
    by (apply (bool_decide_unpack _); vm_compute; exact I).
  assert (rev (d1 ++ d2) ≡ₚ concat [d1; d2]) as Hperm
    by (cbn [concat]; rewrite app_nil_r; symmetry; apply Permutation_rev).
  exact (proj2 (reassembly_any_order _ _ _ Ht Hnd ltac:(apply Nat.leb_le; reflexivity) Hperm)).
Defined.

Lemma reassembler_bounded_witness :
  reasm_wf (ingest_all reassembler_new [[1; 2; 3]; []; repeat 65 40]).1.
Proof.
  apply (reassembler_bounded [[1; 2; 3]; []; repeat 65 40]).
  repeat (apply Forall_cons_2; [cbn [repeat]; solve_bytes_ok|]). apply Forall_nil_2.
Defined.
