(* ===== verification/HostVideo.v ===== *)
(** * streamhaul-webrtc-host: the video path

    bins/streamhaul-webrtc-host/src/lib.rs: the fragments of an access unit, the frame sources,
    [send_one_frame] and the two send loops.  Of an error only the message is kept.  A data
    channel takes a number of messages before it fails.  The pacing ticker only delays. *)

From stdpp Require Import base numbers list option gmap strings.
From S2P Require Import Prelude Types ShpWire ShpHeaders ShpMessages InputCore HostInput Packetize Reassembly.

(** ** Fragments *)

Definition build_one_fragment (sequence frame_id ts_us : Z) (frame_type : FrameType) (chunk : bytes)
    (frag_index total_frags : Z) : result string bytes :=
  if u16_max <? blen chunk then Err "SHP fragment exceeds 16-bit payload-length cap" else
  let is_multi := 1 <? total_frags in
  let is_last := (1 <=? total_frags) && (total_frags - 1 =? frag_index) in
  let common := common_encode
    {| channel := Video;
       flags := {| fragment_flag := is_multi; last_fragment := is_multi && is_last |};
       sequence := sequence; timestamp_us := ts_us; payload_len := blen chunk |} in
  let? video := map_err (fun _ => "encode video header") (video_encode
    {| frame_id := frame_id; frag_index := frag_index; total_frags := total_frags; codec := H264;
       frame_type := frame_type; priority := High; monitor_id := 0; marker := is_last;
       encode_ts_us := ts_us |}) in
  Ok (common ++ video ++ chunk).

Definition build_shp_video_frame (sequence frame_id ts_us : Z) (frame_type : FrameType) (payload : bytes)
  : result string bytes :=
  build_one_fragment sequence frame_id ts_us frame_type payload 0 1.

(** The fragments of a frame; [chunks_of] is [payload.chunks(chunk_size)]. *)
Definition build_shp_video_fragments (sequence_start frame_id ts_us : Z) (frame_type : FrameType)
    (payload : bytes) (max_fragment_bytes : Z) : result string (list bytes) :=
  let chunk_size := Z.max 1 (Z.min u16_max max_fragment_bytes) in
  let total := Z.max 1 ((blen payload + chunk_size - 1) / chunk_size) in
  if u8_max <? total then Err "encoded frame needs more than 255 SHP fragments" else
  if bool_decide (payload = [])
  then let? f := build_one_fragment sequence_start frame_id ts_us frame_type [] 0 total in Ok [f]
  else collect (fun ic : nat * bytes =>
         let '(i, chunk) := ic in
         if u8_max <? Z.of_nat i then Err "frag_index overflow (invariant: i < total_frags)" else
         let seq := (sequence_start + Z.of_nat i) mod 65536 in
         build_one_fragment seq frame_id ts_us frame_type chunk (Z.of_nat i) total)
       (imap pair (chunks_of payload chunk_size)).

(** ** Sources *)

Class VideoFrameSource (S : Type) := {
  source_next : S -> S * result string (FrameType * bytes);
  source_request_keyframe : S -> S;
}.

Record BakedFrame := { bf_frame_type : FrameType; bf_payload : bytes }.

(** Every round takes at least five bytes, so [length data] rounds are enough. *)
Fixpoint parse_baked (fuel : nat) (data : bytes) : list BakedFrame :=
  match fuel with
  | O => []
  | S fuel =>
      match data with
      | b0 :: b1 :: b2 :: b3 :: t :: rest =>
          let len := from_be [b3; b2; b1; b0] in
          let frame_type := if t =? 1 then Idr else if t =? 2 then IntraRefresh else Predicted in
          if blen rest <? len then [] else
          {| bf_frame_type := frame_type; bf_payload := take (Z.to_nat len) rest |}
            :: parse_baked fuel (drop (Z.to_nat len) rest)
      | _ => []
      end
  end.

Definition parse_baked_frames (data : bytes) : list BakedFrame := parse_baked (length data) data.

Record BakedFrameSource := { baked_frames : list BakedFrame; baked_index : Z }.

Definition baked_new (fixture : bytes) : BakedFrameSource :=
  {| baked_frames := parse_baked_frames fixture; baked_index := 0 |}.

Definition baked_next (s : BakedFrameSource) : BakedFrameSource * result string (FrameType * bytes) :=
  if bool_decide (baked_frames s = []) then (s, Err "baked H.264 fixture is empty") else
  let idx := baked_index s mod Z.of_nat (length (baked_frames s)) in
  match baked_frames s !! Z.to_nat idx with
  | None => (s, Err "baked frame index out of bounds (internal error)")
  | Some bf =>
      ({| baked_frames := baked_frames s; baked_index := (baked_index s + 1) mod 2 ^ 64 |},
       Ok (bf_frame_type bf, bf_payload bf))
  end.

#[global] Instance baked_source : VideoFrameSource BakedFrameSource := {
  source_next := baked_next;
  source_request_keyframe s := s;
}.

(** ** Sending *)

(** [dc_room] messages are still taken; [None]: all. *)
Record DataChannel := { dc_sent : list bytes; dc_room : option nat }.

Definition dc_send (ch : DataChannel) (msg : bytes) : option DataChannel :=
  match dc_room ch with
  | Some O => None
  | Some (S n) => Some {| dc_sent := dc_sent ch ++ [msg]; dc_room := Some n |}
  | None => Some {| dc_sent := dc_sent ch ++ [msg]; dc_room := None |}
  end.

Fixpoint dc_send_all (ch : DataChannel) (msgs : list bytes) : DataChannel * bool :=
  match msgs with
  | [] => (ch, true)
  | m :: msgs => match dc_send ch m with
                 | Some ch => dc_send_all ch msgs
                 | None => (ch, false)
                 end
  end.

Inductive FrameStep := Sent (num_frags : Z) | Skipped | PeerClosed | StepFailed (e : string).

Section Loops.
Context {S : Type} `{!VideoFrameSource S}.

Definition send_one_frame (ch : DataChannel) (source : S)
    (sent_index per_us sequence max_fragment_bytes : Z) : DataChannel * S * FrameStep :=
  match source_next source with
  | (source, Err e) => (ch, source, StepFailed e)
  | (source, Ok (frame_type, payload)) =>
      let frame_id := Z.land sent_index MAX_FRAME_ID in
      let ts_us := (sent_index * per_us) mod 2 ^ 64 in
      match build_shp_video_fragments sequence frame_id ts_us frame_type payload max_fragment_bytes with
      | Err _ => (ch, source_request_keyframe source, Skipped)
      | Ok fragments =>
          if u16_max <? Z.of_nat (length fragments)
          then (ch, source, StepFailed "fragment count exceeded u16 (invariant)") else
          match dc_send_all ch fragments with
          | (ch, false) => (ch, source, PeerClosed)
          | (ch, true) => (ch, source, Sent (Z.of_nat (length fragments)))
          end
      end
  end.

(** [frames] rounds still to send; a skipped frame does not count, so the loop has fuel. *)
Fixpoint run_video_send_loop (fuel : nat) (ch : DataChannel) (source : S) (frames : nat)
    (sent per_us sequence max_fragment_bytes : Z) : option (DataChannel * S * result string ()) :=
  match frames with
  | O => Some (ch, source, Ok tt)
  | Datatypes.S frames' =>
      match fuel with
      | O => None
      | Datatypes.S fuel =>
          match send_one_frame ch source sent per_us sequence max_fragment_bytes with
          | (ch, source, Sent n) =>
              run_video_send_loop fuel ch source frames' (sent + 1) per_us
                ((sequence + n) mod 65536) max_fragment_bytes
          | (ch, source, Skipped) =>
              run_video_send_loop fuel ch source frames sent per_us sequence max_fragment_bytes
          | (ch, source, PeerClosed) => Some (ch, source, Ok tt)
          | (ch, source, StepFailed e) => Some (ch, source, Err e)
          end
      end
  end.

End Loops.

(** ** The loop with input on the same channel *)

Definition MAX_INPUT_PER_FRAME : nat := 256.

(** What a poll of the channel finds. *)
Inductive Inbound := InMessage (b : bytes) (now : Z) | InClosed | InFailed.

Section Legacy.
Context {S I Q : Type} `{!VideoFrameSource S} `{!InputInjector I} `{!Mpsc InputEvent.t Q}.

(** At most [n] polls of the inbound buffer; whether the channel has ended. *)
Fixpoint drain_input (n : nat) (h : HostInput I Q) (buf : list Inbound) : HostInput I Q * list Inbound * bool :=
  match n with
  | O => (h, buf, false)
  | Datatypes.S n =>
      match buf with
      | [] => (h, [], false)
      | InMessage b now :: buf => drain_input n (forward_input h b now) buf
      | InClosed :: buf => (h, buf, true)
      | InFailed :: buf => (h, buf, true)
      end
  end.

(** [arrivals]: what reaches the buffer in each round. *)
Fixpoint run_video_send_loop_with_input_drain (fuel : nat) (ch : DataChannel) (source : S) (frames : nat)
    (sent per_us sequence max_fragment_bytes : Z) (h : HostInput I Q) (buf : list Inbound)
    (arrivals : list (list Inbound)) : option (DataChannel * S * HostInput I Q * result string ()) :=
  match frames with
  | O => Some (ch, source, h, Ok tt)
  | Datatypes.S frames' =>
      match fuel with
      | O => None
      | Datatypes.S fuel =>
          let buf := buf ++ default [] (head arrivals) in
          match send_one_frame ch source sent per_us sequence max_fragment_bytes with
          | (ch, source, Sent n) =>
              match drain_input MAX_INPUT_PER_FRAME h buf with
              | (h, _, true) => Some (ch, source, h, Ok tt)
              | (h, buf, false) =>
                  run_video_send_loop_with_input_drain fuel ch source frames' (sent + 1) per_us
                    ((sequence + n) mod 65536) max_fragment_bytes h buf (tail arrivals)
              end
          | (ch, source, Skipped) =>
              run_video_send_loop_with_input_drain fuel ch source frames sent per_us sequence
                max_fragment_bytes h buf (tail arrivals)
          | (ch, source, PeerClosed) => Some (ch, source, h, Ok tt)
          | (ch, source, StepFailed e) => Some (ch, source, h, Err e)
          end
      end
  end.

Definition is_message (i : Inbound) : Prop := match i with InMessage _ _ => True | _ => False end.

(** A round handles at most 256 messages, in order, and leaves the others. *)
Lemma drain_input_messages n : forall h buf,
  Forall is_message buf ->
  drain_input n h buf =
  (fold_left (fun h i => match i with InMessage b now => forward_input h b now | _ => h end) (take n buf) h,
   drop n buf, false).
Proof.
  induction n as [|n IH]; intros h buf Hb; [done|]. destruct Hb as [|[b now| |] buf Hm Hb]; cbn [drain_input]; try done.
  cbn [take drop fold_left]. by apply IH.
Qed.

(** Input does not disturb the video: as long as the peer keeps the channel open, the loop with
    the input on the same channel sends what the loop without it sends. *)
Lemma legacy_loop_same_video fuel : forall ch source frames sent per_us sequence mx h buf arrivals,
  Forall is_message buf -> Forall (Forall is_message) arrivals ->
  match run_video_send_loop fuel ch source frames sent per_us sequence mx,
        run_video_send_loop_with_input_drain fuel ch source frames sent per_us sequence mx h buf arrivals with
  | Some (ch1, s1, r1), Some (ch2, s2, _, r2) => ch1 = ch2 /\ s1 = s2 /\ r1 = r2
  | None, None => True
  | _, _ => False
  end.
Proof.
  induction fuel as [|fuel IH]; intros ch source [|frames] sent per_us sequence mx h buf arrivals Hb Ha; try done.
  cbn [run_video_send_loop run_video_send_loop_with_input_drain].
  assert (Forall is_message (buf ++ default [] (head arrivals))) as Hb'.
  { apply Forall_app. split; [done|]. destruct Ha; [constructor|done]. }
  assert (Forall (Forall is_message) (tail arrivals)) as Ha' by (by destruct Ha).
  destruct (send_one_frame ch source sent per_us sequence mx) as [[ch1 s1] [n| | |e]].
  - rewrite drain_input_messages by done. apply IH; [by apply Forall_drop|done].
  - by apply IH.
  - done.
  - done.
Qed.

End Legacy.

(** ** Fragments are reassembled *)

(** Datagrams of one packet, in order. *)
Lemma reassemble_in_order t frags :
  tx_ok t -> length frags = length (tx_chunks t) ->
  (forall i d, frags !! i = Some d -> is_frag t i d) ->
  ingest_all reassembler_new frags = (reassembler_new, [packet_on_wire (tx_packet t)]).
Proof.
  intros Hok Hlen Hfr.
  assert (NoDup (map tx_key [t])) as Hnd by (apply NoDup_singleton).
  assert (forall t', t' ∈ [t] -> tx_ok t') as Hoks by (intros t' ->%list_elem_of_singleton; done).
  pose proof (reasm_all [t] Hnd Hoks ltac:(unfold MAX_BUFFERED_FRAMES; cbn; lia) (labelled t frags) [] ∅ []
                (reasm_inv_new [t] Hoks)) as H.
  rewrite labelled_snd, labelled_fst, !app_nil_r in H.
  assert (reasm_inv [t] (rev (map (pair t) (seq 0 (length frags)))) (ingest_all ∅ frags).1
            (rev (ingest_all ∅ frags).2)) as Hinv.
  { apply H.
    - apply Forall_lookup. intros i [[t' j] d] Hl. unfold labelled in Hl. rewrite list_lookup_imap in Hl.
      destruct (frags !! i) as [d'|] eqn:E; [|done]. injection Hl as <- <- <-. split; [left|by apply Hfr].
    - apply NoDup_fmap_2; [by intros ? ? [= ->]|]. apply NoDup_ListNoDup, seq_NoDup. }
  apply all_complete in Hinv as [Hr Ho].
  - cbn in Ho. apply Permutation_singleton_r in Ho. unfold reassembler_new in *.
    destruct (ingest_all ∅ frags) as [r o]. cbn in Hr, Ho. subst r. f_equal.
    rewrite <- (rev_involutive o), Ho. done.
  - intros t' i ->%list_elem_of_singleton Hi. rewrite list_elem_of_In, <- in_rev, <- list_elem_of_In.
    apply list_elem_of_fmap_2, elem_of_seq. lia.
Qed.

(** The packet a frame is, as the receiver reads it. *)
Definition host_packet (frame_id ts_us : Z) (ft : FrameType) (payload : bytes) : EncodedPacket :=
  {| ep_data := payload; ep_codec := H264; ep_frame_id := frame_id; ep_capture_ts_us := ts_us;
     ep_frame_type := ft |}.

Lemma build_one_fragment_ok seq fid ts ft chunk i n t :
  is_u16 seq -> 0 <= fid <= MAX_FRAME_ID -> is_u64 ts -> blen chunk <= u16_max ->
  (i < n)%nat -> (n <= 255)%nat ->
  tx_packet t = host_packet fid ts ft (ep_data (tx_packet t)) ->
  tx_chunks t !! i = Some chunk -> length (tx_chunks t) = n ->
  exists d, build_one_fragment seq fid ts ft chunk (Z.of_nat i) (Z.of_nat n) = Ok d /\ is_frag t i d.
Proof.
  intros Hs Hf Ht Hc Hi Hn Hp Hch Hlen. unfold build_one_fragment.
  rewrite (proj2 (Z.ltb_ge _ _)) by done. set (chd := {| channel := _ |}). set (vh := {| frame_id := _ |}).
  destruct (video_encode_Ok vh) as (vb & Evb & Hvb); [cbn; lia|cbn; unfold MAX_MONITOR_ID; lia|].
  rewrite Evb. cbn [map_err]. eexists. split; [done|].
  pose proof (common_encode_len chd) as Hcl.
  assert (length (common_encode chd ++ vb) = 21%nat) as Hl.
  { rewrite length_app. unfold blen, COMMON_HEADER_LEN, VIDEO_HEADER_LEN in *. lia. }
  exists (common_on_wire chd), (video_on_wire vh). split_and!.
  - apply ingest_parse_datagram; cbn; try done; try lia. pose proof (blen_nonneg chunk).
    unfold is_u16, u16_max in *. lia.
  - rewrite Hch. f_equal. rewrite app_assoc. symmetry. by apply drop_app_length'.
  - rewrite !blen_app, Hcl, Hvb. pose proof (blen_nonneg chunk). unfold combined_header. lia.
  - cbn. unfold tx_key, packet_key. rewrite Hp. cbn. change MAX_FRAME_ID with (Z.ones 24).
    rewrite Z.land_ones by lia. symmetry. apply Z.mod_small. change (2 ^ 24) with (MAX_FRAME_ID + 1). lia.
  - done.
  - cbn. by rewrite Hlen.
  - by rewrite Hp.
  - by rewrite Hp.
  - rewrite Hp. cbn. change 0xFFFFFFFF with (Z.ones 32). by rewrite Z.land_ones by lia.
Qed.

(** The size of a fragment: at most what the 16-bit length field can say. *)
Definition host_chunk_size (max_fragment_bytes : Z) : Z := Z.max 1 (Z.min u16_max max_fragment_bytes).

Lemma host_total payload cs :
  0 < cs -> Z.max 1 ((blen payload + cs - 1) / cs) = num_frags_of payload cs.
Proof.
  intros Hcs. unfold num_frags_of. destruct payload as [|b p].
  - change (blen []) with 0. rewrite Z.div_small by lia. done.
  - apply Z.max_r. apply Z.div_le_lower_bound; [done|]. unfold blen. cbn [length]. lia.
Qed.

(** A frame that needs at most 255 fragments is cut into fragments that are put together to
    that frame; any other is refused. *)
Lemma fragments_reassemble seq fid ts ft payload mx :
  is_u16 seq -> 0 <= fid <= MAX_FRAME_ID -> is_u64 ts ->
  match build_shp_video_fragments seq fid ts ft payload mx with
  | Ok frags =>
      blen payload <= 255 * host_chunk_size mx /\ (1 <= length frags <= 255)%nat /\
      ingest_all reassembler_new frags
        = (reassembler_new, [packet_on_wire (host_packet fid ts ft payload)])
  | Err _ => 255 * host_chunk_size mx < blen payload
  end.
Proof.
  intros Hs Hf Ht. unfold build_shp_video_fragments. fold (host_chunk_size mx). set (cs := host_chunk_size mx).
  assert (0 < cs <= u16_max) as Hcs by (unfold cs, host_chunk_size, u16_max; lia).
  rewrite host_total by lia. destruct (num_frags_bounds payload cs ltac:(lia)) as (Hn1 & Hn2 & Hn3 & Hn4).
  set (n := num_frags_of payload cs) in *.
  destruct (Z.ltb_spec u8_max n) as [Hbig|Hfit]; unfold u8_max in *.
  { assert (payload <> []) as Hne by (intros ->; unfold n in Hbig; cbn in Hbig; lia). specialize (Hn4 Hne). nia. }
  set (t := {| tx_packet := host_packet fid ts ft payload; tx_chunks := chunks_of payload cs |}).
  assert (length (tx_chunks t) = Z.to_nat n) as Hlen by (cbn; unfold chunks_of; by rewrite length_map, length_seq).
  assert (tx_ok t) as Hok by (split; [by apply chunks_concat; lia|rewrite Hlen; lia]).
  assert (forall i chunk, tx_chunks t !! i = Some chunk -> blen chunk <= u16_max) as Hsmall.
  { intros i chunk Hi. cbn in Hi. unfold chunks_of in Hi. rewrite list_lookup_fmap in Hi.
    destruct (List.seq 0 _ !! i); [|done]. injection Hi as <-. unfold blen. rewrite length_take. lia. }
  assert (forall q i chunk, is_u16 q -> tx_chunks t !! i = Some chunk ->
            exists d, build_one_fragment q fid ts ft chunk (Z.of_nat i) n = Ok d /\ is_frag t i d) as Hone.
  { intros q i chunk Hq Hi. pose proof (lookup_lt_Some _ _ _ Hi).
    replace n with (Z.of_nat (Z.to_nat n)) by lia.
    apply (build_one_fragment_ok q fid ts ft chunk i (Z.to_nat n) t); try done; [by eapply Hsmall|lia..]. }
  assert (forall frags, length frags = Z.to_nat n -> (forall i d, frags !! i = Some d -> is_frag t i d) ->
            blen payload <= 255 * cs /\ (1 <= length frags <= 255)%nat /\
            ingest_all reassembler_new frags = (reassembler_new, [packet_on_wire (tx_packet t)])) as Hdone.
  { intros frags Hl Hfr. split_and!; [nia|lia|lia|]. apply reassemble_in_order; [done|by rewrite Hlen|done]. }
  case_bool_decide as He.
  - subst payload. destruct (Hone seq 0%nat [] Hs) as (d & Hd & Hfr).
    { unfold t, chunks_of. cbn. change (Z.to_nat 1) with 1%nat. cbn. by rewrite take_nil. }
    change (Z.of_nat 0) with 0 in Hd. rewrite Hd. apply Hdone; [done|]. intros [|i] d'; [by intros [= <-]|done].
  - destruct (collect _ _) as [frags|e] eqn:E.
    + apply collect_Ok in E. pose proof (Forall2_length _ _ _ E) as Hl. rewrite length_imap in Hl.
      apply Hdone; [rewrite <- Hl; exact Hlen|]. intros i d Hd.
      destruct (Forall2_lookup_r _ _ _ _ _ E Hd) as ([j chunk] & Hj & Hf1). rewrite list_lookup_imap in Hj.
      destruct (chunks_of payload cs !! i) as [c|] eqn:Ec; [|done]. injection Hj as <- <-.
      destruct (_ <? Z.of_nat i); [done|].
      destruct (Hone ((seq + Z.of_nat i) mod 65536) i c) as (d' & Hd' & Hfr);
        [apply Z.mod_pos_bound; lia|done|]. rewrite Hd' in Hf1. by injection Hf1 as ->.
    + exfalso. apply collect_Err in E as ([j chunk] & Hin & Hf1).
      apply list_elem_of_lookup in Hin as (i & Hi). rewrite list_lookup_imap in Hi.
      destruct (chunks_of payload cs !! i) as [c|] eqn:Ec; [|done]. injection Hi as <- <-.
      pose proof (lookup_lt_Some _ _ _ Ec) as Hlt. cbn in Hlen. rewrite Hlen in Hlt.
      rewrite (proj2 (Z.ltb_ge _ _)) in Hf1 by lia.
      destruct (Hone ((seq + Z.of_nat i) mod 65536) i c) as (d' & Hd' & _);
        [apply Z.mod_pos_bound; lia|done|]. by rewrite Hd' in Hf1.
Qed.

(** ** The stream a peer receives *)

Section Stream.
Context {S : Type} `{!VideoFrameSource S} (per_us mx : Z).

Definition fits (f : FrameType * bytes) : Prop := blen f.2 <= 255 * host_chunk_size mx.

#[global] Instance fits_dec f : Decision (fits f).
Proof. unfold fits. apply _. Defined.

(** What the source gives the loop in [m] rounds: it is asked for a keyframe after a frame that
    does not fit. *)
Fixpoint produced (m : nat) (src : S) : option (list (FrameType * bytes)) :=
  match m with
  | O => Some []
  | Datatypes.S m =>
      match source_next src with
      | (src, Ok f) =>
          fs ← produced m (if decide (fits f) then src else source_request_keyframe src);
          Some (f :: fs)
      | (_, Err _) => None
      end
  end.

(** The [k]-th frame sent, as a receiver reads it. *)
Definition stream_packet (k : Z) (f : FrameType * bytes) : EncodedPacket :=
  packet_on_wire (host_packet (Z.land k MAX_FRAME_ID) ((k * per_us) mod 2 ^ 64) f.1 f.2).

Definition stream_packets (start : Z) (fs : list (FrameType * bytes)) : list EncodedPacket :=
  imap (fun i f => stream_packet (start + Z.of_nat i) f) fs.

Lemma stream_packets_cons start f fs :
  stream_packets start (f :: fs) = stream_packet start f :: stream_packets (start + 1) fs.
Proof.
  unfold stream_packets. rewrite imap_cons. f_equal; [by rewrite Z.add_0_r|].
  apply imap_ext. intros i x _. cbn. f_equal. lia.
Qed.

Lemma dc_send_all_open ch msgs :
  dc_room ch = None -> dc_send_all ch msgs = ({| dc_sent := dc_sent ch ++ msgs; dc_room := None |}, true).
Proof.
  revert ch. induction msgs as [|m msgs IH]; intros [sent room] Hr; cbn in Hr; subst room; cbn [dc_send_all dc_send dc_room dc_sent].
  - by rewrite app_nil_r.
  - rewrite IH by done. cbn. by rewrite <- app_assoc.
Qed.

(** One round. *)
Lemma send_one_frame_spec ch src src' f sent sequence :
  dc_room ch = None -> 0 <= sent -> is_u16 sequence -> source_next src = (src', Ok f) ->
  if decide (fits f)
  then exists frags, (1 <= length frags <= 255)%nat /\
         send_one_frame ch src sent per_us sequence mx
           = ({| dc_sent := dc_sent ch ++ frags; dc_room := None |}, src', Sent (Z.of_nat (length frags))) /\
         ingest_all reassembler_new frags = (reassembler_new, [stream_packet sent f])
  else send_one_frame ch src sent per_us sequence mx = (ch, source_request_keyframe src', Skipped).
Proof.
  intros Hr Hs0 Hs Hn. unfold send_one_frame. rewrite Hn. destruct f as [ft payload].
  pose proof (land_mask_range sent 24 ltac:(lia) Hs0) as Hm. change (Z.ones 24) with MAX_FRAME_ID in Hm.
  change (2 ^ 24) with (MAX_FRAME_ID + 1) in Hm.
  pose proof (fragments_reassemble sequence (Z.land sent MAX_FRAME_ID) ((sent * per_us) mod 2 ^ 64) ft payload mx Hs
                ltac:(lia) ltac:(apply Z.mod_pos_bound; lia)) as Hf.
  destruct (build_shp_video_fragments _ _ _ _ _ _) as [frags|e].
  - destruct Hf as (Hfit & Hl & Hin). rewrite decide_True by done. exists frags. split; [done|].
    rewrite (proj2 (Z.ltb_ge _ _)) by (unfold u16_max; lia). rewrite dc_send_all_open by done. done.
  - rewrite decide_False by (unfold fits; cbn; lia). done.
Qed.

Lemma video_loop_delivers m : forall ch src fs frames sent sequence,
  dc_room ch = None -> 0 <= sent -> is_u16 sequence -> produced m src = Some fs ->
  (frames <= length (filter fits fs))%nat ->
  exists ch' src' msgs,
    run_video_send_loop m ch src frames sent per_us sequence mx = Some (ch', src', Ok tt) /\
    dc_sent ch' = dc_sent ch ++ msgs /\
    ingest_all reassembler_new msgs
      = (reassembler_new, stream_packets sent (take frames (filter fits fs))).
Proof.
  induction m as [|m IH]; intros ch src fs [|frames] sent sequence Hr Hs0 Hs Hp Hn.
  1,3: exists ch, src, []; rewrite app_nil_r; by destruct fs.
  - injection Hp as <-. cbn in Hn. lia.
  - cbn [produced] in Hp. destruct (source_next src) as [src1 [f|e]] eqn:En; [|done].
    destruct (produced m _) as [fs'|] eqn:Ep; [|done]. injection Hp as <-.
    pose proof (send_one_frame_spec ch src src1 f sent sequence Hr Hs0 Hs En) as Hstep.
    cbn [run_video_send_loop]. destruct (decide (fits f)) as [Hf|Hf].
    + destruct Hstep as (frags & Hl & -> & Hin). rewrite filter_cons_True in Hn |- * by done. cbn in Hn.
      destruct (IH {| dc_sent := dc_sent ch ++ frags; dc_room := None |} src1 fs' frames (sent + 1)
                  ((sequence + Z.of_nat (length frags)) mod 65536) eq_refl ltac:(lia)
                  ltac:(apply Z.mod_pos_bound; lia) Ep ltac:(lia)) as (ch' & src' & msgs & -> & Hsent & Hall).
      exists ch', src', (frags ++ msgs). split; [done|]. split; [by rewrite Hsent; cbn; rewrite <- app_assoc|].
      rewrite ingest_all_app, Hin, Hall. cbn [take]. by rewrite stream_packets_cons.
    + rewrite Hstep. rewrite filter_cons_False in Hn |- * by done. by apply IH.
Qed.

End Stream.

(** C30. The video stream of the browser host, whatever the frame source: as long as it delivers
    frames and the channel is open, the loop ends without an error after the requested number
    of frames, every frame of at most 255 fragments arrives whole, in order, with consecutive
    24-bit ids and its timestamp, and a larger frame is left out with a keyframe requested. *)
Theorem host_video_delivered {S} `{!VideoFrameSource S} per_us mx m (src : S) fs frames :
  produced mx m src = Some fs -> (frames <= length (filter (fits mx) fs))%nat ->
  exists ch src',
    run_video_send_loop m {| dc_sent := []; dc_room := None |} src frames 0 per_us 0 mx
      = Some (ch, src', Ok tt) /\
    ingest_all reassembler_new (dc_sent ch)
      = (reassembler_new, stream_packets per_us 0 (take frames (filter (fits mx) fs))).
Proof.
  intros Hp Hn. destruct (video_loop_delivers per_us mx m {| dc_sent := []; dc_room := None |} src fs frames 0 0
    eq_refl ltac:(lia) ltac:(unfold is_u16; lia) Hp Hn) as (ch & src' & msgs & Hrun & Hsent & Hin).
  exists ch, src'. split; [done|]. by rewrite Hsent.
Qed.

(** ** The baked clip *)

Definition bake (f : BakedFrame) : bytes :=
  rev (to_be 4 (blen (bf_payload f))) ++ [frame_type_to_bits (bf_frame_type f)] ++ bf_payload f.

Lemma parse_baked_frame fuel f rest :
  blen (bf_payload f) < 2 ^ 32 ->
  parse_baked (S fuel) (bake f ++ rest) = f :: parse_baked fuel rest.
Proof.
  intros Hl. unfold bake. destruct f as [ft p]. cbn [bf_payload bf_frame_type] in *.
  assert (exists b0 b1 b2 b3, to_be 4 (blen p) = [b0; b1; b2; b3]) as (b0 & b1 & b2 & b3 & Hb) by (repeat eexists).
  assert (from_be [b0; b1; b2; b3] = blen p) as Hv.
  { rewrite <- Hb. apply from_be_to_be_small. pose proof (blen_nonneg p). cbn. lia. }
  rewrite Hb. cbn [rev app parse_baked]. rewrite Hv, blen_app.
  rewrite (proj2 (Z.ltb_ge _ _)) by (pose proof (blen_nonneg rest); lia).
  unfold blen. rewrite Nat2Z.id, take_app_length, drop_app_length. f_equal. by destruct ft.
Qed.

(** The fixture format round-trips. *)
Lemma parse_baked_frames_bake fs :
  Forall (fun f => blen (bf_payload f) < 2 ^ 32) fs -> parse_baked_frames (concat (map bake fs)) = fs.
Proof.
  intros Hfs. unfold parse_baked_frames.
  cut (forall fuel, (length fs <= fuel)%nat -> parse_baked fuel (concat (map bake fs)) = fs).
  { intros H. apply H. clear -Hfs. induction Hfs as [|f fs _ _ IH]; [done|]. cbn [map concat length].
    rewrite length_app. unfold bake at 1. rewrite !length_app. cbn [length]. lia. }
  induction Hfs as [|f fs Hf _ IH]; intros fuel Hl; [by destruct fuel|].
  destruct fuel as [|fuel]; [cbn in Hl; lia|]. cbn [map concat]. rewrite parse_baked_frame by done.
  f_equal. apply IH. cbn in Hl. lia.
Qed.

(** A clip of two frames, the second too large for one fragment of two bytes, three sent. *)
Lemma host_video_delivered_witness :
  exists ch src',
    run_video_send_loop 3 {| dc_sent := []; dc_room := None |}
      (baked_new (concat (map bake [{| bf_frame_type := Idr; bf_payload := [1; 2] |};
                                    {| bf_frame_type := Predicted; bf_payload := [3; 4; 5] |}]))) 3 0 33333 0 2
      = Some (ch, src', Ok tt) /\ length (dc_sent ch) = 4%nat /\
    map ep_data (ingest_all reassembler_new (dc_sent ch)).2 = [[1; 2]; [3; 4; 5]; [1; 2]].
Proof.
  destruct (host_video_delivered 33333 2 3
    (baked_new (concat (map bake [{| bf_frame_type := Idr; bf_payload := [1; 2] |};
                                  {| bf_frame_type := Predicted; bf_payload := [3; 4; 5] |}])))
    [(Idr, [1; 2]); (Predicted, [3; 4; 5]); (Idr, [1; 2])] 3) as (ch & src' & Hrun & Hin).
  - by vm_compute.
  - apply Nat.leb_le. by vm_compute.
  - exists ch, src'. split; [done|]. split.
    + vm_compute in Hrun. injection Hrun as <- _. done.
    + rewrite Hin. by vm_compute.
Defined.
