(* ===== verification/WasmBridge.v ===== *)
(** * sh-wasm: the wire formats in the browser

    [crates/sh-wasm/src/lib.rs]: the functions a browser calls to make and read SHP messages.
    Each one delegates to a codec of sh-protocol; what they add is the conversion of JavaScript's
    values.  A wrapped struct is a record with one field, and its getters are functions on it. *)

From Stdlib Require Import SpecFloat.
From stdpp Require Import base numbers list option strings.
From S2P Require Import Prelude Utf8 Types ShpWire ShpHeaders ShpMessages ShpFile ShpCaps Float64 FloatOrder JsNumber Clipboard HostInput HostClipboard Packetize HostVideo.

(** The errors thrown, by the text they carry. *)
Inductive JsError :=
| JE_Protocol (e : ProtocolError)
| JE_ClipboardTooLarge (e : ProtocolError)
| JE_Negotiation (e : NegotiationError)
| JE_InvalidNumber (field : string) (value : f64)
| JE_UnsafeInteger (field : string) (value : Z)
| JE_InvalidSha256 (len : Z)
| JE_InvalidEventType (other : Z).

Definition proto_err (e : ProtocolError) : JsError := JE_Protocol e.

(** ** Numbers *)

Definition u64_from_f64 (value : f64) (field : string) : result JsError Z :=
  if unsafe_number value then Err (JE_InvalidNumber field value) else Ok (f_to_u64 value).

Definition ensure_safe_u64 (value : Z) (field : string) : result JsError () :=
  if MAX_SAFE_U64 <? value then Err (JE_UnsafeInteger field value) else Ok tt.

Definition sha256_from_slice (sha256 : bytes) : result JsError bytes :=
  if blen sha256 =? 32 then Ok sha256 else Err (JE_InvalidSha256 (blen sha256)).

(** [x as u32] *)
Definition as_u32 (x : Z) : Z := x mod 2 ^ 32.

(** ** Headers *)

Record WasmCommonHeader := { wch_inner : CommonHeader }.

Definition wch_channel (h : WasmCommonHeader) : Z := channel_to_u8 (channel (wch_inner h)).
Definition wch_fragment (h : WasmCommonHeader) : bool := fragment_flag (flags (wch_inner h)).
Definition wch_last_fragment (h : WasmCommonHeader) : bool := last_fragment (flags (wch_inner h)).
Definition wch_sequence (h : WasmCommonHeader) : Z := sequence (wch_inner h).
Definition wch_timestamp_us (h : WasmCommonHeader) : Z := as_u32 (timestamp_us (wch_inner h)).
Definition wch_payload_len (h : WasmCommonHeader) : Z := payload_len (wch_inner h).

Definition decode_common_header (data : bytes) : result JsError WasmCommonHeader :=
  map_err proto_err (let? inner := common_decode data in Ok {| wch_inner := inner |}).

Record WasmVideoHeader := { wvh_inner : VideoHeader }.

Definition wvh_frame_id (h : WasmVideoHeader) : Z := as_u32 (frame_id (wvh_inner h)).
Definition wvh_frag_index (h : WasmVideoHeader) : Z := frag_index (wvh_inner h).
Definition wvh_total_frags (h : WasmVideoHeader) : Z := total_frags (wvh_inner h).
Definition wvh_codec (h : WasmVideoHeader) : Z :=
  match codec (wvh_inner h) with H264 => 0 | H265 => 1 | Av1 => 2 | Raw => 3 end.
Definition frame_type_disc (t : FrameType) : Z := match t with Predicted => 0 | Idr => 1 | IntraRefresh => 2 end.
Definition wvh_frame_type (h : WasmVideoHeader) : Z := frame_type_disc (frame_type (wvh_inner h)).
Definition wvh_priority (h : WasmVideoHeader) : Z :=
  match priority (wvh_inner h) with DropEligible => 0 | Normal => 1 | High => 2 end.
Definition wvh_monitor_id (h : WasmVideoHeader) : Z := monitor_id (wvh_inner h).
Definition wvh_marker (h : WasmVideoHeader) : bool := marker (wvh_inner h).
Definition wvh_encode_ts_us (h : WasmVideoHeader) : Z := as_u32 (encode_ts_us (wvh_inner h)).

Definition decode_video_header (data : bytes) : result JsError WasmVideoHeader :=
  map_err proto_err (let? inner := video_decode data in Ok {| wvh_inner := inner |}).

(** ** Input *)

Definition js_event_type_from_u8 (byte : Z) : result JsError InputEvent.EventType :=
  match byte with
  | 0 => Ok InputEvent.PointerMove | 1 => Ok InputEvent.Button | 2 => Ok InputEvent.Wheel
  | 3 => Ok InputEvent.Key | 4 => Ok InputEvent.Touch | 5 => Ok InputEvent.Pen
  | other => Err (JE_InvalidEventType other)
  end.

Definition encode_input_event (event_type modifiers pointer_x pointer_y button_mask key_code scroll_x scroll_y pressure : Z)
  : result JsError bytes :=
  let? event_type := js_event_type_from_u8 event_type in
  Ok (InputEvent.encode (InputEvent.mk event_type modifiers pointer_x pointer_y button_mask key_code
                           scroll_x scroll_y pressure)).

Record WasmInputEvent := { wie_inner : InputEvent.t }.

Definition wie_event_type (e : WasmInputEvent) : Z :=
  match InputEvent.event_type (wie_inner e) with
  | InputEvent.PointerMove => 0 | InputEvent.Button => 1 | InputEvent.Wheel => 2
  | InputEvent.Key => 3 | InputEvent.Touch => 4 | InputEvent.Pen => 5
  end.

Definition decode_input_event (data : bytes) : result JsError WasmInputEvent :=
  map_err proto_err (let? inner := InputEvent.decode data in Ok {| wie_inner := inner |}).

(** ** Clipboard *)

Definition encode_clipboard_text (text : bytes) : result JsError bytes :=
  let? update := map_err JE_ClipboardTooLarge (ClipboardUpdate.text text) in
  Ok (ClipboardUpdate.encode update).

Definition decode_and_sanitize_clipboard (data : bytes) : option bytes :=
  match ClipboardUpdate.decode data with
  | Ok update => text ← ClipboardUpdate.as_text update; sanitize_for_paste text
  | Err _ => None
  end.

(** ** Feedback and capabilities *)

Definition encode_nack_feedback (report_type ssrc highest_seq cumulative_lost fraction_lost jitter_us rtt_us bwe_kbps nack_bitmap : Z)
  : result JsError bytes :=
  map_err proto_err (NackFeedback.encode (NackFeedback.mk report_type ssrc highest_seq cumulative_lost
    fraction_lost jitter_us rtt_us bwe_kbps nack_bitmap)).

Record WasmNackFeedback := { wnf_inner : NackFeedback.t }.

Definition decode_nack_feedback (data : bytes) : result JsError WasmNackFeedback :=
  map_err proto_err (let? inner := NackFeedback.decode data in Ok {| wnf_inner := inner |}).

Definition js_encode_caps (hw_encode_mask hw_decode_mask : Z) (sw_h264_encode_available is_apple is_browser : bool)
    (selected_codec : Z) : result JsError bytes :=
  let selected := if selected_codec =? 0xFF then None else Some selected_codec in
  map_err proto_err (encode_caps
    {| hw_encode_mask := hw_encode_mask; hw_decode_mask := hw_decode_mask;
       sw_h264_encode_available := sw_h264_encode_available; is_apple := is_apple; is_browser := is_browser;
       selected_codec := selected |}).

Record WasmCodecCaps := { wcc_inner : CodecCapsPayload }.

Definition wcc_selected_codec (c : WasmCodecCaps) : Z := default 0xFF (selected_codec (wcc_inner c)).

Definition js_decode_caps (data : bytes) : result JsError WasmCodecCaps :=
  map_err proto_err (let? inner := decode_caps data in Ok {| wcc_inner := inner |}).

Definition js_encode_transport_caps (quic webrtc : bool) : bytes :=
  encode_transport_caps {| supports_quic := quic; supports_webrtc := webrtc |}.

Record WasmTransportCaps := { wtc_inner : TransportCaps }.

Definition js_decode_transport_caps (data : bytes) : result JsError WasmTransportCaps :=
  map_err proto_err (let? inner := decode_transport_caps data in Ok {| wtc_inner := inner |}).

Definition js_negotiate_transport (local_quic local_webrtc peer_quic peer_webrtc : bool) : result JsError Z :=
  let local := {| supports_quic := local_quic; supports_webrtc := local_webrtc |} in
  let peer := {| supports_quic := peer_quic; supports_webrtc := peer_webrtc |} in
  let? kind := map_err JE_Negotiation (negotiate local peer) in
  Ok (match kind with Quic => 0 | Webrtc => 1 end).

(** ** File messages *)

Definition encode_file_offer (transfer_id total_size : f64) (chunk_size : Z) (sha256 name : bytes)
  : result JsError bytes :=
  let? transfer_id := u64_from_f64 transfer_id "transfer_id" in
  let? total_size := u64_from_f64 total_size "total_size" in
  let? sha := sha256_from_slice sha256 in
  map_err proto_err (offer_encode
    {| fo_transfer_id := transfer_id; fo_total_size := total_size; fo_chunk_size := chunk_size;
       fo_sha256 := sha; fo_name := name |}).

Record WasmFileOffer := { wfo_inner : FileOffer }.

Definition wfo_transfer_id (o : WasmFileOffer) : f64 := f_of_Z (fo_transfer_id (wfo_inner o)).
Definition wfo_total_size (o : WasmFileOffer) : f64 := f_of_Z (fo_total_size (wfo_inner o)).
Definition wfo_chunk_size (o : WasmFileOffer) : Z := fo_chunk_size (wfo_inner o).
Definition wfo_sha256 (o : WasmFileOffer) : bytes := fo_sha256 (wfo_inner o).
Definition wfo_name (o : WasmFileOffer) : bytes := fo_name (wfo_inner o).

Definition decode_file_offer (data : bytes) : result JsError WasmFileOffer :=
  let? inner := map_err proto_err (offer_decode data) in
  let? _ := ensure_safe_u64 (fo_transfer_id inner) "transfer_id" in
  let? _ := ensure_safe_u64 (fo_total_size inner) "total_size" in
  Ok {| wfo_inner := inner |}.

Definition encode_file_chunk_header (transfer_id offset : f64) (len : Z) (last : bool) : result JsError bytes :=
  let? transfer_id := u64_from_f64 transfer_id "transfer_id" in
  let? offset := u64_from_f64 offset "offset" in
  map_err proto_err (chunk_encode
    {| ch_transfer_id := transfer_id; ch_offset := offset; ch_len := len; ch_last := last |}).

Record WasmFileChunkHeader := { wfh_inner : FileChunkHeader }.

Definition wfh_transfer_id (h : WasmFileChunkHeader) : f64 := f_of_Z (ch_transfer_id (wfh_inner h)).
Definition wfh_offset (h : WasmFileChunkHeader) : f64 := f_of_Z (ch_offset (wfh_inner h)).
Definition wfh_len (h : WasmFileChunkHeader) : Z := ch_len (wfh_inner h).
Definition wfh_last (h : WasmFileChunkHeader) : bool := ch_last (wfh_inner h).

Definition decode_file_chunk_header (data : bytes) : result JsError WasmFileChunkHeader :=
  let? inner := map_err proto_err (chunk_decode data) in
  let? _ := ensure_safe_u64 (ch_transfer_id inner) "transfer_id" in
  let? _ := ensure_safe_u64 (ch_offset inner) "offset" in
  Ok {| wfh_inner := inner |}.

Definition encode_file_accept (transfer_id resume_offset : f64) : result JsError bytes :=
  let? transfer_id := u64_from_f64 transfer_id "transfer_id" in
  let? resume_offset := u64_from_f64 resume_offset "resume_offset" in
  Ok (accept_encode {| fa_transfer_id := transfer_id; fa_resume_offset := resume_offset |}).

Record WasmFileAccept := { wfa_inner : FileAccept }.

Definition wfa_transfer_id (a : WasmFileAccept) : f64 := f_of_Z (fa_transfer_id (wfa_inner a)).
Definition wfa_resume_offset (a : WasmFileAccept) : f64 := f_of_Z (fa_resume_offset (wfa_inner a)).

Definition decode_file_accept (data : bytes) : result JsError WasmFileAccept :=
  let? inner := map_err proto_err (accept_decode data) in
  let? _ := ensure_safe_u64 (fa_transfer_id inner) "transfer_id" in
  let? _ := ensure_safe_u64 (fa_resume_offset inner) "resume_offset" in
  Ok {| wfa_inner := inner |}.

Definition encode_file_complete (transfer_id : f64) (ok : bool) : result JsError bytes :=
  let? transfer_id := u64_from_f64 transfer_id "transfer_id" in
  Ok (complete_encode {| fc_transfer_id := transfer_id; fc_ok := ok |}).

Record WasmFileComplete := { wfc_inner : FileComplete }.

Definition wfc_transfer_id (c : WasmFileComplete) : f64 := f_of_Z (fc_transfer_id (wfc_inner c)).
Definition wfc_ok (c : WasmFileComplete) : bool := fc_ok (wfc_inner c).

Definition decode_file_complete (data : bytes) : result JsError WasmFileComplete :=
  let? inner := map_err proto_err (complete_decode data) in
  let? _ := ensure_safe_u64 (fc_transfer_id inner) "transfer_id" in
  Ok {| wfc_inner := inner |}.

(** ** Numbers cross unchanged *)

(** A number that is equal (in the sense of [==]) to a safe integer. *)
Definition js_safe (x : f64) : Prop := exists z, 0 <= z <= MAX_SAFE_U64 /\ f_eq x (f_of_Z z) = true.

Lemma u64_from_f64_Ok x field z : canonical x -> u64_from_f64 x field = Ok z ->
  0 <= z <= MAX_SAFE_U64 /\ f_eq x (f_of_Z z) = true.
Proof.
  unfold u64_from_f64. intros Hc. destruct (unsafe_number x) eqn:E; [done|]. intros [= <-].
  destruct (unsafe_number_spec x Hc E) as (? & ? & _). done.
Qed.

Lemma u64_from_getter z field : 0 <= z <= MAX_SAFE_U64 -> u64_from_f64 (f_of_Z z) field = Ok z.
Proof.
  intros Hz. unfold u64_from_f64. rewrite safe_integer by done. f_equal. apply f_to_u64_of_Z. unfold MAX_SAFE_U64 in Hz. lia.
Qed.

Lemma f_eq_of_Z x z : canonical x -> 0 <= z <= MAX_SAFE_U64 -> f_eq x (f_of_Z z) = true -> x = f_of_Z z \/ (x = S754_zero true /\ z = 0).
Proof.
  intros Hc Hz H. destruct (fval_of_Z z ltac:(unfold MAX_SAFE_U64 in Hz; lia)) as [Ev Hf]. pose proof (f_of_Z_canonical z) as Cz.
  destruct x as [s|s| |s m e]; [|destruct s; destruct (f_of_Z z); cbn in *; try done; by destruct s0|by destruct (f_of_Z z)|].
  - destruct (Z.eq_dec z 0) as [->|]; [destruct s; [by right|by left]|].
    destruct (f_of_Z_exact z ltac:(unfold MAX_SAFE_U64 in Hz; lia)) as (m & E & _). rewrite E in H. done.
  - left. destruct s; [destruct (f_of_Z z) as [| | |[] ? ?]; try done; by destruct Hf|].
    assert (-1074 <= e) as He by (cbn [canonical] in Hc; unfold expo in Hc; lia).
    assert (fin_le (S754_finite false m e) (Zpos m * 2 ^ (e + 1074))) as Hx by (split; [done|split; [done|lia]]).
    unfold f_eq, SFeqb in H. rewrite (f_compare_fval _ _ _ _ Hx Hf Hc Cz) in H.
    destruct (Z.compare_spec (fval (S754_finite false m e)) (fval (f_of_Z z))) as [E| |]; try done.
    eapply fval_inj; [exact Hx|exact Hf|done|done|done|]. cbn [fval]. pose proof (Z.pow_pos_nonneg 2 (e + 1074)). nia.
Qed.

Lemma js_safe_iff x field : canonical x -> js_safe x <-> exists z, u64_from_f64 x field = Ok z.
Proof.
  intros Hc. split.
  - intros (z & Hz & E). destruct (f_eq_of_Z x z Hc Hz E) as [->|[-> ->]]; [|by exists 0]. exists z. by apply u64_from_getter.
  - intros [z Hz]. exists z. by eapply u64_from_f64_Ok.
Qed.

Lemma ensure_safe_Ok z field u : ensure_safe_u64 z field = Ok u -> z <= MAX_SAFE_U64.
Proof. unfold ensure_safe_u64. destruct (Z.ltb_spec MAX_SAFE_U64 z); [done|lia]. Qed.

Lemma ensure_safe z field : z <= MAX_SAFE_U64 -> ensure_safe_u64 z field = Ok tt.
Proof. intros H. unfold ensure_safe_u64. by rewrite (proj2 (Z.ltb_ge _ _)). Qed.

Lemma safe_is_u64 z : 0 <= z <= MAX_SAFE_U64 -> is_u64 z.
Proof. unfold MAX_SAFE_U64, is_u64. lia. Qed.

Lemma u64_nonneg_safe z : is_u64 z -> z <= MAX_SAFE_U64 -> 0 <= z <= MAX_SAFE_U64.
Proof. unfold is_u64. lia. Qed.

#[local] Hint Resolve safe_is_u64 u64_nonneg_safe : shp.

(** ** Messages as JavaScript sees them *)

(** The arguments of an encoder, which the object returned by the decoder has as fields. *)
Class JsBridge (A W : Type) := {
  js_encode : A -> result JsError bytes;
  js_decode : bytes -> result JsError W;
  js_fields : W -> A;
  (** what the binding can be called with, and what the format can carry of it *)
  js_arg : A -> Prop;
  js_valid : A -> Prop;
  (** equal fields, with [==] on numbers *)
  js_same : A -> A -> Prop;
}.

Record js_exact (A W : Type) `{JsBridge A W} : Prop := {
  je_accepts a : js_arg a -> (exists d, js_encode a = Ok d) <-> js_valid a;
  je_roundtrip a d rest : js_arg a -> js_encode a = Ok d ->
    exists w, js_decode (d ++ rest) = Ok w /\ js_same a (js_fields w);
  je_canonical d w : bytes_ok d -> js_decode d = Ok w ->
    exists b rest, d = b ++ rest /\ js_encode (js_fields w) = Ok b;
}.

#[global] Instance offer_bridge : JsBridge (f64 * f64 * Z * bytes * bytes) WasmFileOffer := {
  js_encode '(t, s, c, h, n) := encode_file_offer t s c h n;
  js_decode := decode_file_offer;
  js_fields w := (wfo_transfer_id w, wfo_total_size w, wfo_chunk_size w, wfo_sha256 w, wfo_name w);
  js_arg '(t, s, c, h, n) := canonical t /\ canonical s /\ is_u32 c /\ bytes_ok h /\ bytes_ok n;
  js_valid '(t, s, c, h, n) := js_safe t /\ js_safe s /\ chunk_size_ok c /\ blen h = 32 /\ blen n <= MAX_FILE_NAME;
  js_same '(t, s, c, h, n) '(t', s', c', h', n') :=
    f_eq t t' = true /\ f_eq s s' = true /\ c = c' /\ h = h' /\ n = n';
}.

#[global] Instance chunk_bridge : JsBridge (f64 * f64 * Z * bool) WasmFileChunkHeader := {
  js_encode '(t, o, l, b) := encode_file_chunk_header t o l b;
  js_decode := decode_file_chunk_header;
  js_fields w := (wfh_transfer_id w, wfh_offset w, wfh_len w, wfh_last w);
  js_arg '(t, o, l, _) := canonical t /\ canonical o /\ is_u32 l;
  js_valid '(t, o, l, _) := js_safe t /\ js_safe o /\ chunk_size_ok l;
  js_same '(t, o, l, b) '(t', o', l', b') := f_eq t t' = true /\ f_eq o o' = true /\ l = l' /\ b = b';
}.

#[global] Instance accept_bridge : JsBridge (f64 * f64) WasmFileAccept := {
  js_encode '(t, o) := encode_file_accept t o;
  js_decode := decode_file_accept;
  js_fields w := (wfa_transfer_id w, wfa_resume_offset w);
  js_arg '(t, o) := canonical t /\ canonical o;
  js_valid '(t, o) := js_safe t /\ js_safe o;
  js_same '(t, o) '(t', o') := f_eq t t' = true /\ f_eq o o' = true;
}.

#[global] Instance complete_bridge : JsBridge (f64 * bool) WasmFileComplete := {
  js_encode '(t, b) := encode_file_complete t b;
  js_decode := decode_file_complete;
  js_fields w := (wfc_transfer_id w, wfc_ok w);
  js_arg '(t, _) := canonical t;
  js_valid '(t, _) := js_safe t;
  js_same '(t, b) '(t', b') := f_eq t t' = true /\ b = b';
}.

Lemma map_err_Ok {E E' A} (f : E -> E') (r : result E A) a : map_err f r = Ok a <-> r = Ok a.
Proof. destruct r; cbn; split; congruence. Qed.

(** What a fixed-size codec gives for a value and for a buffer. *)
Lemma wire_core {A} (C : WireCodec A) {L : WireCodecLaws A} a d : wire_ok a -> wire_encode a = Ok d -> forall rest, wire_decode (d ++ rest) = Ok a.
Proof. intros Hok E rest. destruct (wire_roundtrip a rest Hok) as (b & Eb & _ & _ & D). congruence. Qed.

Lemma wire_prefix {A} (C : WireCodec A) {L : WireCodecLaws A} d a : bytes_ok d -> wire_decode d = Ok a ->
  wire_ok a /\ exists b rest, d = b ++ rest /\ wire_encode a = Ok b.
Proof.
  intros Hd E. destruct (wire_canonical d a Hd E) as [Hok Henc]. split; [done|].
  exists (take (Z.to_nat wire_len) d), (drop (Z.to_nat wire_len) d). by rewrite take_drop.
Qed.

(** The steps of an encoder and of a decoder that succeeded. *)
Ltac invert_numbers H :=
  repeat match type of H with
  | context [u64_from_f64 ?x ?f] =>
      let z := fresh "z" in let E := fresh "E" in
      destruct (u64_from_f64 x f) as [z|] eqn:E; [|discriminate H]; apply u64_from_f64_Ok in E as [? ?]; [|done]
  end.
Ltac invert_safe H :=
  repeat match type of H with
  | context [ensure_safe_u64 ?x ?f] =>
      let E := fresh "E" in destruct (ensure_safe_u64 x f) as [[]|] eqn:E; [|discriminate H]; apply ensure_safe_Ok in E
  end.
Ltac safe_number H Hc field :=
  let z := fresh "z" in let E := fresh "E" in
  apply (js_safe_iff _ field Hc) in H as [z E]; rewrite E; apply u64_from_f64_Ok in E as [? _]; [|done].

Lemma accept_bridge_exact : js_exact (f64 * f64) WasmFileAccept.
Proof.
  split.
  - intros [t o] [Ct Co]. cbn [js_encode js_valid accept_bridge]. unfold encode_file_accept. split.
    + intros [d H]. invert_numbers H. split; eexists; eauto.
    + intros [Ht Ho]. safe_number Ht Ct "transfer_id"%string. safe_number Ho Co "resume_offset"%string. by eexists.
  - intros [t o] d rest [Ct Co] H. cbn [js_encode js_decode js_same js_fields accept_bridge] in *. unfold encode_file_accept in H.
    invert_numbers H. unfold decode_file_accept.
    injection H as <-. assert (accept_ok {| fa_transfer_id := z; fa_resume_offset := z0 |}) as Hok by (split; cbn; auto with shp).
    pose proof (wire_core accept_codec _ _ Hok eq_refl rest) as E.
    cbn [wire_decode accept_codec] in E. rewrite E. cbn. rewrite !ensure_safe by lia. by eexists.
  - intros d w Hd H. cbn [js_encode js_decode js_fields accept_bridge] in *. unfold decode_file_accept in H.
    destruct (accept_decode d) as [a|] eqn:E; [|done]. cbn in H. invert_safe H. injection H as <-.
    destruct (wire_prefix accept_codec d a Hd E) as ([H1 H2] & b & rest & -> & Eb). exists b, rest. split; [done|].
    unfold encode_file_accept, wfa_transfer_id, wfa_resume_offset. cbn [wfa_inner].
    rewrite !u64_from_getter by auto with shp. destruct a. injection Eb as <-. done.
Qed.

Lemma complete_bridge_exact : js_exact (f64 * bool) WasmFileComplete.
Proof.
  split.
  - intros [t b] Ct. cbn [js_arg js_encode js_valid complete_bridge] in *. unfold encode_file_complete. split.
    + intros [d H]. invert_numbers H. eexists; eauto.
    + intros Ht. safe_number Ht Ct "transfer_id"%string. by eexists.
  - intros [t b] d rest Ct H. cbn [js_arg js_encode js_decode js_same js_fields complete_bridge] in *. unfold encode_file_complete in H.
    invert_numbers H. unfold decode_file_complete. injection H as <-.
    assert (complete_ok {| fc_transfer_id := z; fc_ok := b |}) as Hok by (unfold complete_ok; cbn; auto with shp).
    pose proof (wire_core complete_codec _ _ Hok eq_refl rest) as E.
    cbn [wire_decode complete_codec] in E. rewrite E. cbn. rewrite ensure_safe by lia. by eexists.
  - intros d w Hd H. cbn [js_encode js_decode js_fields complete_bridge] in *. unfold decode_file_complete in H.
    destruct (complete_decode d) as [a|] eqn:E; [|done]. cbn in H. invert_safe H. injection H as <-.
    destruct (wire_prefix complete_codec d a Hd E) as (H1 & b & rest & -> & Eb). exists b, rest. split; [done|].
    unfold encode_file_complete, wfc_transfer_id, wfc_ok. cbn [wfc_inner].
    rewrite !u64_from_getter by auto with shp. destruct a. injection Eb as <-. done.
Qed.

Lemma chunk_encode_Ok h d : is_u32 (ch_len h) -> chunk_encode h = Ok d -> chunk_size_ok (ch_len h).
Proof.
  unfold chunk_encode, is_u32. intros Hu. destruct (check_chunk_size _) as [[]|] eqn:E; [|done]. intros _. apply check_chunk_size_Ok in E; [done|lia].
Qed.

Lemma chunk_bridge_exact : js_exact (f64 * f64 * Z * bool) WasmFileChunkHeader.
Proof.
  split.
  - intros [[[t o] l] b] (Ct & Co & Hl). cbn [js_encode js_valid chunk_bridge] in *. unfold encode_file_chunk_header. split.
    + intros [d H]. invert_numbers H. apply map_err_Ok in H. apply chunk_encode_Ok in H; [|done].
      split; [eexists; eauto|]. split; [eexists; eauto|done].
    + intros (Ht & Ho & Hs). safe_number Ht Ct "transfer_id"%string. safe_number Ho Co "offset"%string.
      rewrite chunk_encode_eq by done. by eexists.
  - intros [[[t o] l] b] d rest (Ct & Co & Hl) H. cbn [js_encode js_decode js_same js_fields chunk_bridge] in *.
    unfold encode_file_chunk_header in H. invert_numbers H. apply map_err_Ok in H. pose proof (chunk_encode_Ok {| ch_transfer_id := z; ch_offset := z0; ch_len := l; ch_last := b |} d Hl H) as Hs.
    assert (chunk_ok {| ch_transfer_id := z; ch_offset := z0; ch_len := l; ch_last := b |}) as Hok by (split_and!; cbn; auto with shp).
    pose proof (wire_core chunk_codec _ d Hok H rest) as E.
    unfold decode_file_chunk_header. cbn [wire_decode chunk_codec] in E. rewrite E. cbn [map_err ch_transfer_id ch_offset]. 
    rewrite !ensure_safe by lia. by eexists.
  - intros d w Hd H. cbn [js_encode js_decode js_fields chunk_bridge] in *. unfold decode_file_chunk_header in H.
    destruct (chunk_decode d) as [a|] eqn:E; [|done]. cbn [map_err] in H. invert_safe H. injection H as <-.
    destruct (wire_prefix chunk_codec d a Hd E) as ((H1 & H2 & H3) & b & rest & -> & Eb). exists b, rest. split; [done|].
    unfold encode_file_chunk_header, wfh_transfer_id, wfh_offset, wfh_len, wfh_last. cbn [wfh_inner].
    rewrite !u64_from_getter by auto with shp. cbn [wire_encode chunk_codec] in Eb. destruct a. cbn in *. by rewrite Eb.
Qed.

Lemma offer_encode_inv o d : is_u32 (fo_chunk_size o) -> offer_encode o = Ok d ->
  chunk_size_ok (fo_chunk_size o) /\ blen (fo_name o) <= MAX_FILE_NAME.
Proof.
  unfold offer_encode, is_u32. intros Hu. destruct (check_chunk_size _) as [[]|] eqn:E; [|done].
  destruct (Z.ltb_spec u8_max (blen (fo_name o))); [done|]. intros _. apply check_chunk_size_Ok in E; [|lia].
  unfold MAX_FILE_NAME, u8_max in *. split; [done|lia].
Qed.

Lemma offer_bridge_exact : js_exact (f64 * f64 * Z * bytes * bytes) WasmFileOffer.
Proof.
  split.
  - intros [[[[t s] c] h] n] (Ct & Cs & Hc & Hh & Hn). cbn [js_encode js_valid offer_bridge] in *. unfold encode_file_offer, sha256_from_slice. split.
    + intros [d H]. invert_numbers H. destruct (Z.eqb_spec (blen h) 32); [|done]. apply map_err_Ok in H.
      apply offer_encode_inv in H as [? ?]; [|done]. split; [eexists; eauto|]. split; [eexists; eauto|done].
    + intros (Ht & Hs & Hcs & Hl & Hnl). safe_number Ht Ct "transfer_id"%string. safe_number Hs Cs "total_size"%string.
      rewrite Hl. cbn [Z.eqb Pos.eqb]. destruct (offer_encode_Ok {| fo_transfer_id := z; fo_total_size := z0; fo_chunk_size := c;
        fo_sha256 := h; fo_name := n |}) as [d E]; [by split_and!; cbn; auto with shp|]. exists d. by rewrite E.
  - intros [[[[t s] c] h] n] d rest (Ct & Cs & Hc & Hh & Hn) H. cbn [js_encode js_decode js_same js_fields offer_bridge] in *.
    unfold encode_file_offer, sha256_from_slice in H. invert_numbers H. destruct (Z.eqb_spec (blen h) 32); [|done]. apply map_err_Ok in H.
    match type of H with offer_encode ?o = _ => destruct (offer_encode_inv o d Hc H) end. unfold decode_file_offer.
    match type of H with offer_encode ?o = _ => assert (offer_ok o) as Hok by (split_and!; cbn; auto with shp) end.
    rewrite (offer_decode_encode _ d rest Hok H).
    cbn [map_err fo_transfer_id fo_total_size]. rewrite !ensure_safe by lia. by eexists.
  - intros d w Hd H. cbn [js_encode js_decode js_fields offer_bridge] in *. unfold decode_file_offer in H.
    destruct (offer_decode d) as [a|] eqn:E; [|done]. cbn [map_err] in H. invert_safe H. injection H as <-.
    destruct (offer_decode_Ok d a Hd E) as ((H1 & H2 & _ & H3 & _) & b & rest & Eb & ->). exists b, rest. split; [done|].
    unfold encode_file_offer, sha256_from_slice, wfo_transfer_id, wfo_total_size, wfo_chunk_size, wfo_sha256, wfo_name. cbn [wfo_inner].
    rewrite !u64_from_getter by auto with shp. rewrite H3. cbn [Z.eqb Pos.eqb]. destruct a. cbn in *. by rewrite Eb.
Qed.

(** C27. The file messages as a browser makes and reads them.  Its numbers are floating-point: an
    encoder accepts a transfer id, size or offset exactly when it is equal to an integer from 0 to
    [2^53 - 1] (and the chunk size, digest and name fit the format), and refuses NaN, infinities,
    fractions, negative and larger numbers.  What it encodes, decoding gives back in an object
    whose fields are equal to the arguments, whatever bytes follow.  Whatever bytes decode are, up
    to bytes behind the message, what encoding the object's fields gives: no value is rounded on
    the way. *)
Theorem js_file_messages_exact :
  js_exact (f64 * f64 * Z * bytes * bytes) WasmFileOffer /\ js_exact (f64 * f64 * Z * bool) WasmFileChunkHeader /\
  js_exact (f64 * f64) WasmFileAccept /\ js_exact (f64 * bool) WasmFileComplete.
Proof. auto using offer_bridge_exact, chunk_bridge_exact, accept_bridge_exact, complete_bridge_exact. Qed.

(** ** Browser and host *)

Lemma js_event_type_iff ty e : js_event_type_from_u8 ty = Ok e <-> ty = InputEvent.event_type_to_u8 e.
Proof.
  split; [|intros ->; by destruct e]. unfold js_event_type_from_u8.
  repeat (case_match; try done); intros [= <-]; done.
Qed.

(** An event the browser makes is the event the host decodes. *)
Lemma input_reaches_host ty m px py bm kc sx sy pr b :
  InputEvent.wf (InputEvent.mk InputEvent.PointerMove m px py bm kc sx sy pr) ->
  encode_input_event ty m px py bm kc sx sy pr = Ok b ->
  exists e, ty = InputEvent.event_type_to_u8 e /\ decode_input b = Some (InputEvent.mk e m px py bm kc sx sy pr).
Proof.
  intros Hwf. unfold encode_input_event. destruct (js_event_type_from_u8 ty) as [e|] eqn:E; [|done]. intros [= <-].
  apply js_event_type_iff in E. exists e. split; [done|].
  set (ev := InputEvent.mk e m px py bm kc sx sy pr). assert (InputEvent.wf ev) as Hev by done.
  destruct (wire_roundtrip (H := input_codec) ev [] Hev) as (b & Eb & Hl & _ & Hd). injection Eb as <-. rewrite app_nil_r in Hd.
  cbn [wire_decode wire_len input_codec] in Hd, Hl. unfold decode_input. rewrite Hl, Z.eqb_refl. cbn [negb]. by rewrite Hd.
Qed.

(** Both ends read a clipboard update in the same way. *)
Lemma same_clipboard_reader b : decode_and_sanitize_clipboard b = decode_clipboard_paste b.
Proof. done. Qed.

Lemma paste_reaches_host s b : utf8_valid s = true -> encode_clipboard_text s = Ok b ->
  decode_clipboard_paste b = sanitize_for_paste s.
Proof.
  intros Hv. unfold encode_clipboard_text. destruct (ClipboardUpdate.text s) as [u|] eqn:E; [|done]. intros [= <-].
  by apply decode_paste_update.
Qed.

Lemma offer_reaches_browser {C} `{ClipboardAccess C} (sink : C) joined text : utf8_valid text = true ->
  snd (get_text sink) = Ok (Some text) ->
  Forall (fun b => decode_and_sanitize_clipboard b = sanitize_for_paste text) (fst (offer_clipboard sink joined)).
Proof.
  intros Hv Ht. unfold offer_clipboard, spawn_blocking. destruct joined; [|by constructor].
  destruct (get_text sink) as [c r]. cbn in Ht. subst r. destruct (ClipboardUpdate.text text) as [u|] eqn:E; [|by constructor].
  cbn [fst]. apply Forall_cons. split; [|done]. rewrite same_clipboard_reader. by apply decode_paste_update.
Qed.

(** The headers a browser reads off a fragment, and the payload behind them. *)
Lemma fragment_reaches_browser seq fid ts ft chunk i n d :
  is_u16 seq -> 0 <= fid <= MAX_FRAME_ID -> is_u64 ts -> is_u8 i -> is_u8 n ->
  build_one_fragment seq fid ts ft chunk i n = Ok d ->
  exists c v, decode_common_header d = Ok c /\ decode_video_header (drop 9 d) = Ok v /\ drop 21 d = chunk /\
    wch_channel c = channel_to_u8 Video /\ wch_sequence c = seq /\ wch_payload_len c = blen chunk /\
    wch_timestamp_us c = ts mod 2 ^ 32 /\ wch_fragment c = (1 <? n) /\ wch_last_fragment c = (1 <? n) && (n - 1 =? i) /\
    wvh_frame_id v = fid /\ wvh_frag_index v = i /\ wvh_total_frags v = n /\ wvh_codec v = 0 /\
    wvh_frame_type v = frame_type_disc ft /\ wvh_marker v = (1 <=? n) && (n - 1 =? i) /\ wvh_encode_ts_us v = ts mod 2 ^ 32.
Proof.
  intros Hs Hf Ht Hi Hn. unfold build_one_fragment. destruct (Z.ltb_spec u16_max (blen chunk)) as [|Hc]; [done|].
  set (chd := {| channel := _ |}). set (vh := {| frame_id := _ |}).
  destruct (video_encode_Ok vh) as (vb & Evb & Hvb); [cbn; lia|cbn; unfold MAX_MONITOR_ID; lia|].
  rewrite Evb. cbn [map_err]. intros <-%Ok_inj. pose proof (common_encode_len chd) as Hcl. pose proof (blen_nonneg chunk).
  assert (drop 9 (common_encode chd ++ vb ++ chunk) = vb ++ chunk) as E9.
  { apply drop_app_length'. unfold blen, COMMON_HEADER_LEN in Hcl. lia. }
  assert (drop 21 (common_encode chd ++ vb ++ chunk) = chunk) as E21.
  { rewrite app_assoc. apply drop_app_length'. rewrite length_app. unfold blen, COMMON_HEADER_LEN, VIDEO_HEADER_LEN in *. lia. }
  exists {| wch_inner := common_on_wire chd |}, {| wvh_inner := video_on_wire vh |}.
  unfold decode_common_header, decode_video_header. rewrite E9, E21.
  rewrite (common_decode_encode chd), (video_decode_encode vh vb) by (cbn; unfold is_u8, is_u16, u16_max, MAX_MONITOR_ID in *; try done; lia).
  split_and!; try done; [| | |]; unfold wch_timestamp_us, wch_last_fragment, wvh_frame_id, wvh_encode_ts_us, as_u32; cbn [wch_inner wvh_inner common_on_wire
    video_on_wire chd vh timestamp_us frame_id encode_ts_us flags last_fragment].
  - change 4294967296 with (2 ^ 32). by rewrite Z.mod_mod.
  - destruct (Z.ltb_spec 1 n); [|done]. by rewrite (proj2 (Z.leb_le 1 n)) by lia.
  - unfold MAX_FRAME_ID in Hf. apply Z.mod_small. lia.
  - change 4294967296 with (2 ^ 32). by rewrite Z.mod_mod.
Qed.

(** C26. Browser and host read each other's messages alike.  An input event that the browser encodes is
    the event the host decodes, field by field, and only the event types 0 to 5 can be encoded.  A
    text the browser pastes reaches the host's clipboard as its sanitized form, and the text the
    host offers reaches the browser as its sanitized form; longer texts than the limit are refused
    by the encoder.  Off a fragment of a video frame that the host builds, the browser reads the
    channel, sequence number, flags, lengths, frame and fragment numbers, type and (modulo [2^32])
    timestamps the host put in, and the payload behind the two headers is the fragment's. *)
Theorem browser_and_host_agree :
  (forall ty m px py bm kc sx sy pr,
     InputEvent.wf (InputEvent.mk InputEvent.PointerMove m px py bm kc sx sy pr) ->
     match encode_input_event ty m px py bm kc sx sy pr with
     | Ok b => exists e, ty = InputEvent.event_type_to_u8 e /\
                 decode_input b = Some (InputEvent.mk e m px py bm kc sx sy pr)
     | Err _ => forall e, ty <> InputEvent.event_type_to_u8 e
     end) /\
  (forall s, utf8_valid s = true ->
     match encode_clipboard_text s with
     | Ok b => decode_clipboard_paste b = sanitize_for_paste s
     | Err _ => ClipboardUpdate.MAX_CLIPBOARD_BYTES < blen s
     end) /\
  (forall C (A : ClipboardAccess C) (sink : C) joined text, utf8_valid text = true -> snd (get_text sink) = Ok (Some text) ->
     Forall (fun b => decode_and_sanitize_clipboard b = sanitize_for_paste text) (fst (offer_clipboard sink joined))) /\
  (forall seq fid ts ft chunk i n d,
     is_u16 seq -> 0 <= fid <= MAX_FRAME_ID -> is_u64 ts -> is_u8 i -> is_u8 n ->
     build_one_fragment seq fid ts ft chunk i n = Ok d ->
     exists c v, decode_common_header d = Ok c /\ decode_video_header (drop 9 d) = Ok v /\ drop 21 d = chunk /\
       wch_channel c = channel_to_u8 Video /\ wch_sequence c = seq /\ wch_payload_len c = blen chunk /\
       wch_timestamp_us c = ts mod 2 ^ 32 /\ wch_fragment c = (1 <? n) /\ wch_last_fragment c = (1 <? n) && (n - 1 =? i) /\
       wvh_frame_id v = fid /\ wvh_frag_index v = i /\ wvh_total_frags v = n /\ wvh_codec v = 0 /\
       wvh_frame_type v = frame_type_disc ft /\ wvh_marker v = (1 <=? n) && (n - 1 =? i) /\ wvh_encode_ts_us v = ts mod 2 ^ 32).
Proof.
  split_and!.
  - intros ty m px py bm kc sx sy pr Hwf. destruct (encode_input_event _ _ _ _ _ _ _ _ _) as [b|] eqn:E; [by eapply input_reaches_host|].
    unfold encode_input_event in E. destruct (js_event_type_from_u8 ty) eqn:Et; [done|]. intros ev He. apply js_event_type_iff in He. congruence.
  - intros s Hv. destruct (encode_clipboard_text s) as [b|] eqn:E; [by apply paste_reaches_host|].
    unfold encode_clipboard_text, ClipboardUpdate.text in E. by destruct (Z.ltb_spec ClipboardUpdate.MAX_CLIPBOARD_BYTES (blen s)).
  - intros. by apply offer_reaches_browser.
  - intros. by apply fragment_reaches_browser.
Qed.
