(* ===== verification/Media.v ===== *)
(** * sh-media and sh-codec-hw: frames, the encoder interface, the raw codec

    crates/sh-media/src/frame.rs, config.rs, error.rs and the [VideoEncoder] trait of lib.rs;
    crates/sh-codec-hw/src/raw.rs.  Error messages are kept without the values interpolated
    into them. *)

From stdpp Require Import base numbers list option strings.
From S2P Require Import Prelude ShpHeaders Packetize Reassembly.

Inductive MediaError :=
| Capture (msg : string)
| Encode (msg : string)
| Decode (msg : string)
| Unsupported (msg : string)
| FrameSize (expected got : Z).

Inductive PixelFormat := Bgra8 | I420 | Nv12.

Record Resolution := { width : Z; height : Z }.

Definition div_ceil2 (n : Z) : Z := (n + 1) / 2.

Definition frame_len (f : PixelFormat) (r : Resolution) : Z :=
  let w := width r in
  let h := height r in
  match f with
  | Bgra8 => sat_mul u64_max (sat_mul u64_max w h) 4
  | I420 =>
      let luma := sat_mul u64_max w h in
      let chroma := sat_mul u64_max (div_ceil2 w) (div_ceil2 h) in
      sat_add u64_max (sat_add u64_max luma chroma) chroma
  | Nv12 =>
      let luma := sat_mul u64_max w h in
      let chroma := sat_mul u64_max (sat_mul u64_max (div_ceil2 w) (div_ceil2 h)) 2 in
      sat_add u64_max luma chroma
  end.

Record VideoFrame := {
  vf_data : bytes;
  vf_format : PixelFormat;
  vf_resolution : Resolution;
  vf_frame_id : Z;
  vf_capture_ts_us : Z;
}.

Definition validate_len (f : VideoFrame) : result MediaError () :=
  let expected := frame_len (vf_format f) (vf_resolution f) in
  if blen (vf_data f) =? expected then Ok tt else Err (FrameSize expected (blen (vf_data f))).

Record EncoderConfig := {
  cfg_codec : Codec;
  cfg_resolution : Resolution;
  target_fps : Z;
  target_bitrate_kbps : option Z;
}.

(** The trait [VideoEncoder], without the static [caps]: every call may change the encoder. *)
Class VideoEncoder (E : Type) := {
  enc_encode : E -> VideoFrame -> E * result MediaError (option EncodedPacket);
  enc_flush : E -> E * result MediaError (list EncodedPacket);
  enc_request_keyframe : E -> E;
}.

(** ** The raw codec *)

Definition RAW_HEADER_LEN : Z := 10.
Definition RAW_VERSION : Z := 1.

Definition pixel_format_to_u8 (f : PixelFormat) : Z :=
  match f with Bgra8 => 0 | I420 => 1 | Nv12 => 2 end.

Definition pixel_format_from_u8 (b : Z) : option PixelFormat :=
  if b =? 0 then Some Bgra8 else
  if b =? 1 then Some I420 else
  if b =? 2 then Some Nv12 else None.

(** [RawEncoder] and [RawDecoder] have no state. *)
Inductive RawEncoder := raw_new.

Definition raw_encode (frame : VideoFrame) : result MediaError (option EncodedPacket) :=
  let? _ := validate_len frame in
  let buf := [RAW_VERSION; pixel_format_to_u8 (vf_format frame)]
             ++ to_be 4 (width (vf_resolution frame)) ++ to_be 4 (height (vf_resolution frame))
             ++ vf_data frame in
  Ok (Some {| ep_data := buf; ep_codec := Raw; ep_frame_id := vf_frame_id frame;
              ep_capture_ts_us := vf_capture_ts_us frame; ep_frame_type := Idr |}).

#[global] Instance raw_encoder : VideoEncoder RawEncoder := {
  enc_encode e frame := (e, raw_encode frame);
  enc_flush e := (e, Ok []);
  enc_request_keyframe e := e;
}.

Definition raw_decode (packet : EncodedPacket) : result MediaError (option VideoFrame) :=
  if negb (bool_decide (ep_codec packet = Raw)) then Err (Decode "raw: unexpected codec") else
  let? header := ok_or (get_range (ep_data packet) 0 RAW_HEADER_LEN)
                       (Decode "raw: truncated header") in
  let byte i := default 0 (header !! i) in
  if negb (byte 0%nat =? RAW_VERSION) then Err (Decode "raw: unknown version") else
  let? format := ok_or (pixel_format_from_u8 (byte 1%nat)) (Decode "raw: bad format") in
  let resolution := {| width := from_be (take 4 (drop 2 header));
                       height := from_be (take 4 (drop 6 header)) |} in
  if (width resolution =? 0) || (height resolution =? 0)
  then Err (Decode "raw: zero-dimension frame") else
  let pixels := drop (Z.to_nat RAW_HEADER_LEN) (ep_data packet) in
  let expected := frame_len format resolution in
  if negb (blen pixels =? expected) then Err (Decode "raw: pixel length mismatch") else
  Ok (Some {| vf_data := pixels; vf_format := format; vf_resolution := resolution;
              vf_frame_id := ep_frame_id packet; vf_capture_ts_us := ep_capture_ts_us packet |}).

(** ** Round trip *)

Definition resolution_ok (r : Resolution) : Prop :=
  1 <= width r <= u32_max /\ 1 <= height r <= u32_max.

(** A frame a capturer can produce; no Rust buffer is longer than [isize::MAX]. *)
Definition frame_valid (f : VideoFrame) : Prop :=
  resolution_ok (vf_resolution f) /\ bytes_ok (vf_data f) /\
  is_u64 (vf_frame_id f) /\ is_u64 (vf_capture_ts_us f) /\
  validate_len f = Ok tt /\ blen (vf_data f) <= i64_max.

Definition frame_on_wire (f : VideoFrame) : VideoFrame :=
  {| vf_data := vf_data f; vf_format := vf_format f; vf_resolution := vf_resolution f;
     vf_frame_id := Z.land (vf_frame_id f) MAX_FRAME_ID;
     vf_capture_ts_us := Z.land (vf_capture_ts_us f) 0xFFFFFFFF |}.

Definition raw_packet (f : VideoFrame) : EncodedPacket :=
  {| ep_data := [RAW_VERSION; pixel_format_to_u8 (vf_format f)]
                  ++ to_be 4 (width (vf_resolution f)) ++ to_be 4 (height (vf_resolution f))
                  ++ vf_data f;
     ep_codec := Raw; ep_frame_id := vf_frame_id f;
     ep_capture_ts_us := vf_capture_ts_us f; ep_frame_type := Idr |}.

Lemma raw_encode_Ok f p : raw_encode f = Ok (Some p) <-> validate_len f = Ok tt /\ p = raw_packet f.
Proof. unfold raw_encode. destruct (validate_len f) as [[]|e]; naive_solver. Qed.

Lemma validate_len_iff f :
  validate_len f = Ok tt <-> blen (vf_data f) = frame_len (vf_format f) (vf_resolution f).
Proof. unfold validate_len. destruct (Z.eqb_spec (blen (vf_data f)) (frame_len (vf_format f) (vf_resolution f))); naive_solver. Qed.

Lemma pixel_format_from_to f : pixel_format_from_u8 (pixel_format_to_u8 f) = Some f.
Proof. by destruct f. Qed.

(** The header fields of an encoded frame. *)
Lemma raw_header_reads v p w h (data : bytes) :
  let hd := [v; p] ++ to_be 4 w ++ to_be 4 h in
  [v; p] ++ to_be 4 w ++ to_be 4 h ++ data = hd ++ data /\
  get_range (hd ++ data) 0 RAW_HEADER_LEN = Some hd /\
  drop (Z.to_nat RAW_HEADER_LEN) (hd ++ data) = data /\
  take 4 (drop 2 hd) = to_be 4 w /\ take 4 (drop 6 hd) = to_be 4 h.
Proof.
  intros hd.
  assert (length hd = 10%nat) as Hl by (unfold hd; rewrite !length_app, !to_be_length; done).
  split_and!.
  - unfold hd. by rewrite <- !app_assoc.
  - pose proof (get_range_app_exact [] hd data) as H. unfold blen in H. by rewrite Hl in H.
  - by rewrite drop_app_length' by (by rewrite Hl).
  - unfold hd. rewrite drop_app_length' by done. by rewrite take_app_length' by (by rewrite to_be_length).
  - unfold hd. rewrite app_assoc, drop_app_length' by (by rewrite length_app, to_be_length).
    by rewrite take_ge by (by rewrite to_be_length).
Qed.

Lemma raw_decode_encode f p :
  resolution_ok (vf_resolution f) -> raw_encode f = Ok (Some p) ->
  raw_decode (packet_on_wire p) = Ok (Some (frame_on_wire f)).
Proof.
  intros [Hw Hh] [Hv ->]%raw_encode_Ok. unfold u32_max in *. apply validate_len_iff in Hv.
  unfold raw_decode, packet_on_wire, raw_packet. cbn [ep_codec ep_data ep_frame_id ep_capture_ts_us].
  destruct (raw_header_reads RAW_VERSION (pixel_format_to_u8 (vf_format f)) (width (vf_resolution f))
              (height (vf_resolution f)) (vf_data f)) as (-> & -> & -> & Ew & Eh).
  rewrite bool_decide_true by done. cbn [negb ok_or]. rewrite Ew, Eh.
  cbn [app lookup list_lookup default from_option id].
  rewrite Z.eqb_refl, pixel_format_from_to. cbn [negb ok_or].
  rewrite !from_be_to_be_small by (cbn; lia). cbn [width height].
  rewrite !(proj2 (Z.eqb_neq _ 0)) by lia. cbn [orb].
  destruct (vf_resolution f) as [w h] eqn:Er. cbn [width height] in *.
  rewrite Hv, Z.eqb_refl. cbn [negb]. unfold frame_on_wire. by rewrite Er.
Qed.

(** ** Capture to display: encode, cut, deliver in any order, reassemble, decode *)

(** One frame sent with its first sequence number and datagram limit, and its datagrams. *)
Definition frame_sent (s : VideoFrame * Z * Z) (frags : list bytes) : Prop :=
  let '(f, seq_start, max_datagram) := s in
  frame_valid f /\ is_u16 seq_start /\
  exists p, raw_encode f = Ok (Some p) /\ fragment p seq_start max_datagram = Ok frags.

Lemma frame_sent_transmitted s frags :
  frame_sent s frags ->
  exists t, transmitted t frags /\ packet_key (tr_packet t) = Z.land (vf_frame_id s.1.1) MAX_FRAME_ID /\
    raw_decode (packet_on_wire (tr_packet t)) = Ok (Some (frame_on_wire s.1.1)).
Proof.
  destruct s as [[f q] mx]. intros ((Hr & Hb & Hi & Ht & Hv & Hlen) & Hq & p & He & Hf). cbn [fst].
  exists {| tr_packet := p; tr_seq_start := q; tr_max_datagram := mx |}. cbn [tr_packet].
  apply raw_encode_Ok in He as He'. destruct He' as [_ ->].
  split_and!; [|done|by apply raw_decode_encode].
  unfold transmitted. cbn [tr_packet tr_seq_start tr_max_datagram]. split_and!; [|done|done].
  unfold packet_ok, raw_packet. cbn [ep_frame_id ep_capture_ts_us ep_data]. split_and!; [done|done|].
  autorewrite with shp. unfold blen in *. cbn [length].
  unfold i64_max, usize_max, u64_max in *. lia.
Qed.

Lemma frames_sent_transmitted sent frames :
  Forall2 frame_sent sent frames ->
  exists ts, Forall2 transmitted ts frames /\ length ts = length sent /\
    map (fun t => packet_key (tr_packet t)) ts
      = map (fun s => Z.land (vf_frame_id s.1.1) MAX_FRAME_ID) sent /\
    map (fun t => raw_decode (packet_on_wire (tr_packet t))) ts
      = map (fun s => Ok (Some (frame_on_wire s.1.1))) sent.
Proof.
  induction 1 as [|s frags sent frames Hs _ (ts & Ht & Hl & Hk & Hd)]; [by exists []|].
  destruct (frame_sent_transmitted s frags Hs) as (t & ? & Hk1 & Hd1).
  exists (t :: ts). cbn. by rewrite Hl, Hk, Hd, Hk1, Hd1; auto using Forall2_cons.
Qed.

(** The lossless video path from capture to display: encode up to 32 frames with the raw
    codec, cut the packets into datagrams, deliver the datagrams in any order, and decoding
    what the reassembler returns gives back exactly those frames, pixel for pixel (with their
    wire-width id and timestamp), and leaves no buffer behind. *)
Lemma raw_video_path_lossless sent frames ds :
  Forall2 frame_sent sent frames ->
  NoDup (map (fun s => Z.land (vf_frame_id s.1.1) MAX_FRAME_ID) sent) ->
  (length sent <= MAX_BUFFERED_FRAMES)%nat ->
  ds ≡ₚ concat frames ->
  (ingest_all reassembler_new ds).1 = reassembler_new /\
  map raw_decode (ingest_all reassembler_new ds).2
    ≡ₚ map (fun s => Ok (Some (frame_on_wire s.1.1))) sent.
Proof.
  intros Hs Hnd Hl Hp. destruct (frames_sent_transmitted sent frames Hs) as (ts & Ht & Hlt & Hk & Hd).
  rewrite <- Hk in Hnd. rewrite <- Hlt in Hl.
  destruct (reassemble_shuffled ts frames ds Ht Hnd Hl Hp) as [-> Ho]. split; [done|].
  rewrite Ho, map_map, Hd. done.
Qed.

(** ** Witness: two 2x1 frames of different formats, delivered in reverse *)

Definition toy_frame1 : VideoFrame :=
  {| vf_data := [1; 2; 3; 4; 5; 6; 7; 8]; vf_format := Bgra8;
     vf_resolution := {| width := 2; height := 1 |}; vf_frame_id := 7; vf_capture_ts_us := 99 |}.

Definition toy_frame2 : VideoFrame :=
  {| vf_data := [9; 8; 7; 6]; vf_format := Nv12;
     vf_resolution := {| width := 2; height := 1 |}; vf_frame_id := 8; vf_capture_ts_us := 100 |}.

Definition toy_cut (f : VideoFrame) : list bytes :=
  match fragment (raw_packet f) 5 25 with Ok l => l | Err _ => [] end.

Lemma toy_frames_sent :
  Forall2 frame_sent [(toy_frame1, 5, 25); (toy_frame2, 5, 25)]
    [toy_cut toy_frame1; toy_cut toy_frame2].
Proof.
  assert (forall f, frame_valid f -> fragment (raw_packet f) 5 25 = Ok (toy_cut f) ->
                    frame_sent (f, 5, 25) (toy_cut f)) as Hs.
  { intros f Hv Hf. split; [done|]. split; [unfold is_u16; lia|]. exists (raw_packet f).
    split; [|done]. apply raw_encode_Ok. by destruct Hv as (_ & _ & _ & _ & ? & _). }
  assert (frame_valid toy_frame1 /\ frame_valid toy_frame2) as [? ?].
  { unfold frame_valid, resolution_ok, is_u64, u32_max, i64_max. cbn [toy_frame1 toy_frame2 vf_data
      vf_format vf_resolution vf_frame_id vf_capture_ts_us width height].
    split_and!; first [lia | vm_compute; reflexivity | solve [solve_bytes_ok] | vm_compute; discriminate]. }
  repeat (apply Forall2_cons; split; [apply Hs; [done|vm_compute; reflexivity]|]). apply Forall2_nil_2.
Qed.

Lemma raw_video_path_lossless_witness :
  map raw_decode (ingest_all reassembler_new (rev (toy_cut toy_frame1 ++ toy_cut toy_frame2))).2
    ≡ₚ [Ok (Some (frame_on_wire toy_frame1)); Ok (Some (frame_on_wire toy_frame2))].
Proof.
  assert (NoDup (map (fun s => Z.land (vf_frame_id s.1.1) MAX_FRAME_ID)
                   [(toy_frame1, 5, 25); (toy_frame2, 5, 25)])) as Hnd
    by (apply (bool_decide_unpack _); vm_compute; exact I).
  assert (rev (toy_cut toy_frame1 ++ toy_cut toy_frame2)
          ≡ₚ concat [toy_cut toy_frame1; toy_cut toy_frame2]) as Hp
    by (cbn [concat]; rewrite app_nil_r; symmetry; apply Permutation_rev).
  exact (proj2 (raw_video_path_lossless _ _ _ toy_frames_sent Hnd
                  ltac:(apply Nat.leb_le; reflexivity) Hp)).
Defined.
