(* ===== verification/Audio.v ===== *)
(** * Audio: frames, the synthetic source, the raw codec

    crates/sh-media/src/audio_frame.rs, audio_packet.rs, audio_codec.rs, audio_codec_type.rs,
    synthetic_audio.rs and crates/sh-codec-hw/src/raw_audio.rs.  Error messages are kept
    without the values interpolated into them. *)

From stdpp Require Import base numbers list option strings.
From S2P Require Import Prelude Media.

Inductive AudioCodec := RawPcm.

#[global] Instance AudioCodec_eq_dec : EqDecision AudioCodec.
Proof. solve_decision. Defined.

Record AudioFrame := {
  samples : bytes;
  sample_rate : Z;
  channels : Z;
  af_capture_ts_us : Z;
  af_seq : Z;
}.

Record AudioEncodedPacket := {
  ap_data : bytes;
  ap_capture_ts_us : Z;
  ap_seq : Z;
  ap_codec : AudioCodec;
}.

(** [total.checked_rem(ch).unwrap_or(1)] *)
Definition rem_or_one (a b : Z) : Z := if b =? 0 then 1 else a mod b.

Definition audio_validate_len (f : AudioFrame) : result MediaError () :=
  if channels f =? 0 then Err (Unsupported "audio frame has zero channels") else
  if sample_rate f =? 0 then Err (Unsupported "audio frame has zero sample rate") else
  let len := blen (samples f) in
  if negb (len mod 2 =? 0) then Err (FrameSize (sat_sub len 1) len) else
  let total_samples := len / 2 in
  let ch := channels f in
  if 1 <? ch
  then let rem := rem_or_one total_samples ch in
       if negb (rem =? 0)
       then Err (FrameSize (sat_mul usize_max (sat_sub total_samples rem) 2) len)
       else Ok tt
  else Ok tt.

Definition sample_count (f : AudioFrame) : Z := blen (samples f) / 2.

(** ** The encoder and decoder traits *)

Record AudioEncoderCaps := { aec_codec : AudioCodec; sample_rate_hz : Z; aec_channels : Z }.

Class AudioEncoder (E : Type) := {
  audio_encode : E -> AudioFrame -> E * result MediaError (option AudioEncodedPacket);
  audio_enc_flush : E -> E * result MediaError (list AudioEncodedPacket);
  audio_enc_caps : E -> AudioEncoderCaps;
}.

Class AudioDecoder (D : Type) := {
  audio_decode : D -> AudioEncodedPacket -> D * result MediaError (option AudioFrame);
  audio_dec_flush : D -> D * result MediaError (list AudioFrame);
  audio_dec_caps : D -> AudioCodec;
}.

(** ** The raw codec *)

Definition RAW_AUDIO_HEADER_LEN : Z := 8.
Definition RAW_AUDIO_MAGIC : Z := 0xA0.
Definition RAW_AUDIO_VERSION : Z := 1.

Record RawAudioEncoder := { rae_sample_rate : Z; rae_channels : Z }.

Definition raw_audio_encode (e : RawAudioEncoder) (frame : AudioFrame)
  : result MediaError (option AudioEncodedPacket) :=
  if negb (sample_rate frame =? rae_sample_rate e) || negb (channels frame =? rae_channels e)
  then Err (Encode "raw_audio: frame format does not match encoder caps") else
  let? _ := audio_validate_len frame in
  let buf := [RAW_AUDIO_MAGIC; RAW_AUDIO_VERSION] ++ to_be 4 (sample_rate frame)
             ++ [channels frame; 0x00] ++ samples frame in
  Ok (Some {| ap_data := buf; ap_capture_ts_us := af_capture_ts_us frame; ap_seq := af_seq frame;
              ap_codec := RawPcm |}).

#[global] Instance raw_audio_encoder : AudioEncoder RawAudioEncoder := {
  audio_encode e f := (e, raw_audio_encode e f);
  audio_enc_flush e := (e, Ok []);
  audio_enc_caps e := {| aec_codec := RawPcm; sample_rate_hz := rae_sample_rate e;
                         aec_channels := rae_channels e |};
}.

Definition raw_audio_decode (packet : AudioEncodedPacket) : result MediaError (option AudioFrame) :=
  if negb (bool_decide (ap_codec packet = RawPcm)) then Err (Decode "raw_audio: unexpected codec") else
  let? header := ok_or (get_range (ap_data packet) 0 RAW_AUDIO_HEADER_LEN)
                       (Decode "raw_audio: truncated header") in
  let byte i := default 0 (header !! i) in
  if negb (byte 0%nat =? RAW_AUDIO_MAGIC) then Err (Decode "raw_audio: bad magic") else
  if negb (byte 1%nat =? RAW_AUDIO_VERSION) then Err (Decode "raw_audio: unknown version") else
  let rate := from_be (take 4 (drop 2 header)) in
  if rate =? 0 then Err (Decode "raw_audio: zero sample_rate") else
  let ch := byte 6%nat in
  if ch =? 0 then Err (Decode "raw_audio: zero channels") else
  let samples_bytes := drop (Z.to_nat RAW_AUDIO_HEADER_LEN) (ap_data packet) in
  if negb (blen samples_bytes mod 2 =? 0)
  then Err (Decode "raw_audio: odd payload length - not a whole number of i16 samples") else
  let total_samples := blen samples_bytes / 2 in
  if (1 <? ch) && negb (rem_or_one total_samples ch =? 0)
  then Err (Decode "raw_audio: sample count not divisible by channels") else
  Ok (Some {| samples := samples_bytes; sample_rate := rate; channels := ch;
              af_capture_ts_us := ap_capture_ts_us packet; af_seq := ap_seq packet |}).

Inductive RawAudioDecoder := raw_audio_decoder_new.

#[global] Instance raw_audio_decoder : AudioDecoder RawAudioDecoder := {
  audio_decode d p := (d, raw_audio_decode p);
  audio_dec_flush d := (d, Ok []);
  audio_dec_caps _ := RawPcm;
}.

(** ** The synthetic source *)

Definition DEFAULT_SAMPLE_RATE : Z := 48000.
Definition DEFAULT_CHANNELS : Z := 1.
Definition DEFAULT_FRAME_DURATION_US : Z := 20000.

Record SyntheticAudioSource := {
  sas_sample_rate : Z;
  sas_channels : Z;
  sas_frame_duration_us : Z;
  sas_next_seq : Z;
}.

Definition synthetic_audio_new (rate ch frame_duration_us : Z) : SyntheticAudioSource :=
  {| sas_sample_rate := Z.max rate 1; sas_channels := Z.max ch 1;
     sas_frame_duration_us := Z.max frame_duration_us 1; sas_next_seq := 0 |}.

Definition synthetic_audio_default : SyntheticAudioSource :=
  synthetic_audio_new DEFAULT_SAMPLE_RATE DEFAULT_CHANNELS DEFAULT_FRAME_DURATION_US.

(** The i16 of sample [i] as two little-endian bytes. *)
Definition ramp_sample (seq i : Z) : bytes :=
  let val := ((seq * 1000) mod 2 ^ 64 + i) mod 2 ^ 64 mod 65536 in
  [val mod 256; val / 256].

Definition audio_byte_len (s : SyntheticAudioSource) : Z :=
  let samples_per_channel :=
    sat_mul u64_max (sas_sample_rate s) (sas_frame_duration_us s) / 1000000 in
  let total_samples := sat_mul u64_max samples_per_channel (sas_channels s) in
  sat_mul u64_max total_samples 2.

(** [chunks_exact_mut(2)] leaves an odd last byte as it was, zero. *)
Definition render_samples (s : SyntheticAudioSource) (seq : Z) : bytes :=
  let byte_len := audio_byte_len s in
  concat (map (ramp_sample seq) (seqZ 0 (byte_len / 2))) ++ replicate (Z.to_nat (byte_len mod 2)) 0.

Definition audio_next_frame (s : SyntheticAudioSource) : SyntheticAudioSource * AudioFrame :=
  let seq := sas_next_seq s in
  ({| sas_sample_rate := sas_sample_rate s; sas_channels := sas_channels s;
      sas_frame_duration_us := sas_frame_duration_us s; sas_next_seq := (seq + 1) mod 2 ^ 64 |},
   {| samples := render_samples s seq; sample_rate := sas_sample_rate s; channels := sas_channels s;
      af_capture_ts_us := sat_mul u64_max seq (sas_frame_duration_us s); af_seq := seq |}).

(** ** Well-formed frames *)

Lemma audio_validate_iff f :
  0 <= channels f ->
  audio_validate_len f = Ok tt <->
  channels f <> 0 /\ sample_rate f <> 0 /\
  exists n, blen (samples f) = 2 * n * channels f.
Proof.
  intros Hc. unfold audio_validate_len, rem_or_one.
  pose proof (blen_nonneg (samples f)) as Hl. set (len := blen (samples f)) in *.
  pose proof (Z.div_mod len 2 ltac:(lia)) as Hdm. pose proof (Z.mod_pos_bound len 2 ltac:(lia)).
  destruct (Z.eqb_spec (channels f) 0) as [|Hc0]; [naive_solver|].
  destruct (Z.eqb_spec (sample_rate f) 0) as [|Hr0]; [naive_solver|].
  destruct (Z.eqb_spec (len mod 2) 0) as [He|Ho]; cbn [negb].
  2: { split; [done|]. intros (_ & _ & n & Hn). exfalso. nia. }
  pose proof (Z.div_mod (len / 2) (channels f) Hc0) as Hcm.
  destruct (Z.ltb_spec 1 (channels f)).
  - destruct (Z.eqb_spec (len / 2 mod channels f) 0) as [Hr|Hr]; cbn [negb].
    + split; [|done]. intros _. split_and!; [done|done|]. exists (len / 2 / channels f). nia.
    + split; [done|]. intros (_ & _ & n & Hn). exfalso. apply Hr.
      replace (len / 2) with (n * channels f) by nia. by apply Z.mod_mul.
  - split; [|done]. intros _. split_and!; [done|done|]. exists (len / 2). replace (channels f) with 1 by lia. lia.
Qed.

(** ** The raw codec is lossless and accepts nothing else *)

(** The packet of a frame, with [r] in the reserved byte. *)
Definition audio_packet (r : Z) (f : AudioFrame) : AudioEncodedPacket :=
  {| ap_data := [RAW_AUDIO_MAGIC; RAW_AUDIO_VERSION] ++ to_be 4 (sample_rate f)
                ++ [channels f; r] ++ samples f;
     ap_capture_ts_us := af_capture_ts_us f; ap_seq := af_seq f; ap_codec := RawPcm |}.

Lemma raw_audio_encode_iff e f p :
  raw_audio_encode e f = Ok (Some p) <->
  sample_rate f = rae_sample_rate e /\ channels f = rae_channels e /\
  audio_validate_len f = Ok tt /\ p = audio_packet 0 f.
Proof.
  unfold raw_audio_encode.
  destruct (Z.eqb_spec (sample_rate f) (rae_sample_rate e)); [|naive_solver].
  destruct (Z.eqb_spec (channels f) (rae_channels e)); [|naive_solver].
  cbn [negb orb]. destruct (audio_validate_len f) as [[]|]; [|naive_solver].
  split; [intros [= <-]; done|intros (_ & _ & _ & ->); done].
Qed.

(** The decoder on a header taken apart. *)
Lemma raw_audio_decode_parts m v r0 r1 r2 r3 c r data ts q :
  raw_audio_decode {| ap_data := [m; v; r0; r1; r2; r3; c; r] ++ data; ap_capture_ts_us := ts;
                      ap_seq := q; ap_codec := RawPcm |} =
  if negb (m =? RAW_AUDIO_MAGIC) then Err (Decode "raw_audio: bad magic") else
  if negb (v =? RAW_AUDIO_VERSION) then Err (Decode "raw_audio: unknown version") else
  if from_be [r0; r1; r2; r3] =? 0 then Err (Decode "raw_audio: zero sample_rate") else
  if c =? 0 then Err (Decode "raw_audio: zero channels") else
  if negb (blen data mod 2 =? 0)
  then Err (Decode "raw_audio: odd payload length - not a whole number of i16 samples") else
  if (1 <? c) && negb (rem_or_one (blen data / 2) c =? 0)
  then Err (Decode "raw_audio: sample count not divisible by channels") else
  Ok (Some {| samples := data; sample_rate := from_be [r0; r1; r2; r3]; channels := c;
              af_capture_ts_us := ts; af_seq := q |}).
Proof.
  unfold raw_audio_decode. cbn [ap_codec ap_data ap_capture_ts_us ap_seq].
  rewrite bool_decide_true by done. cbn [negb].
  pose proof (get_range_app_exact [] [m; v; r0; r1; r2; r3; c; r] data) as H.
  change (get_range ([m; v; r0; r1; r2; r3; c; r] ++ data) 0 RAW_AUDIO_HEADER_LEN
          = Some [m; v; r0; r1; r2; r3; c; r]) in H. by rewrite H.
Qed.

Lemma audio_validate_decode f :
  audio_validate_len f = Ok tt <->
  (channels f =? 0) = false /\ (sample_rate f =? 0) = false /\ negb (blen (samples f) mod 2 =? 0) = false /\
  (1 <? channels f) && negb (rem_or_one (blen (samples f) / 2) (channels f) =? 0) = false.
Proof.
  unfold audio_validate_len. destruct (channels f =? 0); [naive_solver|].
  destruct (sample_rate f =? 0); [naive_solver|]. destruct (negb _); [naive_solver|].
  destruct (1 <? channels f); [|naive_solver]. destruct (negb _); naive_solver.
Qed.

(** Exactly the well-formed packets decode, each to the frame it was made from; the reserved
    byte alone is not looked at. *)
Lemma raw_audio_decode_iff p f :
  bytes_ok (ap_data p) ->
  raw_audio_decode p = Ok (Some f) <->
  is_u32 (sample_rate f) /\ audio_validate_len f = Ok tt /\ exists r, p = audio_packet r f.
Proof.
  intros Hb. split.
  - destruct p as [data ts q []]. cbn [ap_data] in Hb.
    destruct data as [|m [|v [|r0 [|r1 [|r2 [|r3 [|c [|r data]]]]]]]]; try done.
    change (m :: v :: r0 :: r1 :: r2 :: r3 :: c :: r :: data) with ([m; v; r0; r1; r2; r3; c; r] ++ data) in *.
    rewrite raw_audio_decode_parts. apply Forall_app in Hb as [Hh _].
    assert (bytes_ok [r0; r1; r2; r3]) as Hrb.
    { unfold bytes_ok in *. rewrite !Forall_cons in Hh. rewrite !Forall_cons. naive_solver. }
    destruct (negb (m =? _)) eqn:Em; [done|]. destruct (negb (v =? _)) eqn:Ev; [done|].
    destruct (from_be _ =? 0) eqn:Er; [done|]. destruct (c =? 0) eqn:Ec; [done|].
    destruct (negb (_ mod 2 =? 0)) eqn:El; [done|]. destruct ((1 <? c) && _) eqn:Ed; [done|].
    intros [= <-]. pose proof (from_be_range [r0; r1; r2; r3] Hrb) as Hrange. cbn [sample_rate].
    split; [unfold is_u32; change (256 ^ blen [r0; r1; r2; r3]) with 4294967296 in Hrange; lia|].
    split; [by apply audio_validate_decode|]. exists r. unfold audio_packet.
    cbn [sample_rate channels samples af_capture_ts_us af_seq].
    rewrite (to_be_from_be_len [r0; r1; r2; r3] 4 Hrb eq_refl).
    apply negb_false_iff, Z.eqb_eq in Em, Ev. by subst.
  - intros (Hr & Hv & r & ->). apply audio_validate_decode in Hv as (H1 & H2 & H3 & H4).
    assert (exists r0 r1 r2 r3, to_be 4 (sample_rate f) = [r0; r1; r2; r3]) as (r0 & r1 & r2 & r3 & Ht)
      by (repeat eexists).
    assert (from_be [r0; r1; r2; r3] = sample_rate f) as Hf.
    { rewrite <- Ht. apply from_be_to_be_small. unfold is_u32 in Hr. cbn. lia. }
    unfold audio_packet. rewrite Ht. cbn [app].
    change (RAW_AUDIO_MAGIC :: RAW_AUDIO_VERSION :: r0 :: r1 :: r2 :: r3 :: channels f :: r :: samples f)
      with ([RAW_AUDIO_MAGIC; RAW_AUDIO_VERSION; r0; r1; r2; r3; channels f; r] ++ samples f).
    rewrite raw_audio_decode_parts, Hf, !Z.eqb_refl, H1, H2, H3, H4. by destruct f.
Qed.

(** Encoding and decoding a frame gives it back. *)
Lemma raw_audio_roundtrip e f p :
  is_u32 (sample_rate f) -> is_u8 (channels f) -> bytes_ok (samples f) ->
  raw_audio_encode e f = Ok (Some p) -> raw_audio_decode p = Ok (Some f).
Proof.
  intros Hr Hc Hs (_ & _ & Hv & ->)%raw_audio_encode_iff. apply raw_audio_decode_iff; [|by eauto].
  unfold audio_packet. cbn [ap_data]. apply Forall_app; split; [|apply Forall_app; split; [apply to_be_ok|]];
    repeat (apply Forall_cons; split); try done; unfold RAW_AUDIO_MAGIC, RAW_AUDIO_VERSION, is_u8 in *; lia.
Qed.

(** ** The synthetic source feeds the codec *)

Lemma ramp_sample_ok q i : bytes_ok (ramp_sample q i).
Proof.
  unfold ramp_sample. set (v := _ mod 65536).
  assert (0 <= v < 65536) as Hv by (apply Z.mod_pos_bound; lia).
  apply Forall_cons; split; [apply is_u8_mod|]. apply Forall_cons; split; [|apply Forall_nil_2].
  split; [apply Z.div_pos; lia|apply Z.div_lt_upper_bound; lia].
Qed.

Definition source_ok (s : SyntheticAudioSource) : Prop :=
  1 <= sas_sample_rate s <= u32_max /\ 1 <= sas_channels s <= u8_max /\
  1 <= sas_frame_duration_us s /\ audio_byte_len s <= i64_max.

Lemma render_samples_length s q : source_ok s -> blen (render_samples s q) = audio_byte_len s.
Proof.
  intros (Hr & Hc & Hd & Hl). unfold render_samples, blen. set (len := audio_byte_len s) in *.
  assert (0 <= len) as Hpos.
  { unfold len, audio_byte_len, sat_mul, u64_max.
    assert (0 <= Z.min 18446744073709551615 (sas_sample_rate s * sas_frame_duration_us s) / 1000000)
      by (apply Z.div_pos; nia). nia. }
  rewrite length_app, length_replicate.
  assert (forall l, length (concat (map (ramp_sample q) l)) = (2 * length l)%nat) as ->.
  { induction l as [|z l IH]; [done|]. cbn [map concat]. rewrite length_app, IH. cbn. lia. }
  rewrite length_seqZ. pose proof (Z.div_mod len 2 ltac:(lia)).
  pose proof (Z.mod_pos_bound len 2 ltac:(lia)). assert (0 <= len / 2) by (apply Z.div_pos; lia). lia.
Qed.

(** Every frame of the source is well formed and survives the codec. *)
Lemma synthetic_audio_roundtrip s p :
  source_ok s ->
  let f := (audio_next_frame s).2 in
  audio_validate_len f = Ok tt /\
  (raw_audio_encode {| rae_sample_rate := sas_sample_rate s; rae_channels := sas_channels s |} f = Ok (Some p) ->
   raw_audio_decode p = Ok (Some f)).
Proof.
  intros Hs f. pose proof Hs as (Hr & Hc & Hd & Hl). unfold u32_max, u8_max, i64_max in *. split.
  - apply audio_validate_iff; [cbn; lia|]. cbn. split_and!; [lia|lia|].
    rewrite render_samples_length by done.
    exists (sat_mul u64_max (sas_sample_rate s) (sas_frame_duration_us s) / 1000000).
    revert Hl. unfold audio_byte_len. set (n := _ / 1000000). unfold sat_mul, u64_max. lia.
  - apply raw_audio_roundtrip; cbn; [unfold is_u32; lia|unfold is_u8; lia|].
    unfold render_samples. apply Forall_app. split.
    + apply Forall_concat, list.Forall_forall. intros l Hin.
      apply list_elem_of_fmap in Hin as (k & -> & _). apply ramp_sample_ok.
    + apply Forall_replicate. unfold is_u8. lia.
Qed.
