(* ===== verification/Pipeline.v ===== *)
(** * The media pipeline: capture, encode, send; receive, reassemble, decode, present

    crates/sh-core/src/pipeline.rs, harness.rs and stats.rs, with the sources and sinks they
    connect (crates/sh-media/src/synthetic.rs, sink.rs, the traits of lib.rs), over the
    connection of Transport.v.  The pacing interval of the host only delays a frame and is left
    out.  Instants are nanoseconds since an arbitrary origin. *)

From stdpp Require Import base numbers list option gmap fin_maps sorting strings.
From S2P Require Import Prelude ShpHeaders Transport Packetize Reassembly Media.

(** ** Sources, decoders, sinks *)

Class ScreenCapturer (C : Type) := {
  next_frame : C -> Z -> C * result MediaError (option VideoFrame);  (* timeout in microseconds *)
  cap_resolution : C -> Resolution;
  cap_pixel_format : C -> PixelFormat;
}.

Class VideoDecoder (D : Type) := {
  dec_decode : D -> EncodedPacket -> D * result MediaError (option VideoFrame);
}.

Inductive RenderError := SinkFull (capacity : nat).

Class FrameSink (S : Type) := {
  deliver : S -> VideoFrame -> S * result RenderError ();
}.

Record CollectingSink := { sink_frames : list VideoFrame; sink_capacity : nat }.

Definition collecting_new (capacity : nat) : CollectingSink :=
  {| sink_frames := []; sink_capacity := capacity |}.

Definition collecting_deliver (s : CollectingSink) (frame : VideoFrame)
  : CollectingSink * result RenderError () :=
  if (sink_capacity s <=? length (sink_frames s))%nat then (s, Err (SinkFull (sink_capacity s))) else
  ({| sink_frames := sink_frames s ++ [frame]; sink_capacity := sink_capacity s |}, Ok tt).

#[global] Instance collecting_sink : FrameSink CollectingSink := { deliver := collecting_deliver }.

Inductive NullSink := null_sink_new.

#[global] Instance null_sink : FrameSink NullSink := { deliver s _ := (s, Ok tt) }.

Inductive RawDecoder := raw_decoder_new.

#[global] Instance raw_decoder : VideoDecoder RawDecoder := { dec_decode d p := (d, raw_decode p) }.

Record SyntheticCapturer := {
  syn_resolution : Resolution;
  syn_frame_interval_us : Z;
  syn_next_frame_id : Z;
}.

Definition synthetic_new (resolution : Resolution) (fps : Z) : SyntheticCapturer :=
  let fps := Z.max 1 (Z.min 1000000 fps) in
  {| syn_resolution := resolution; syn_frame_interval_us := Z.max 1 (1000000 / fps);
     syn_next_frame_id := 0 |}.

(** One pixel of the test pattern: blue, green, red, alpha. *)
Definition pattern_pixel (width frame_id idx : Z) : bytes :=
  let x := if width =? 0 then 0 else idx mod width in
  let y := if width =? 0 then 0 else idx / width in
  [Z.land ((x + frame_id) mod 2 ^ 64) 0xFF; Z.land ((y + frame_id) mod 2 ^ 64) 0xFF;
   Z.land frame_id 0xFF; 0xFF].

(** [chunks_exact_mut(4)] leaves a last shorter chunk as it was, zero. *)
Definition render_pattern (c : SyntheticCapturer) (frame_id : Z) : bytes :=
  let len := frame_len Bgra8 (syn_resolution c) in
  concat (map (pattern_pixel (width (syn_resolution c)) frame_id) (seqZ 0 (len / 4)))
  ++ replicate (Z.to_nat (len mod 4)) 0.

Definition synthetic_frame (c : SyntheticCapturer) : VideoFrame :=
  let frame_id := syn_next_frame_id c in
  {| vf_data := render_pattern c frame_id; vf_format := Bgra8; vf_resolution := syn_resolution c;
     vf_frame_id := frame_id;
     vf_capture_ts_us := (frame_id * syn_frame_interval_us c) mod 2 ^ 64 |}.

(** A frame is always ready; the sleep of up to [timeout] before it only passes time. *)
Definition synthetic_next_frame (c : SyntheticCapturer) (timeout : Z)
  : SyntheticCapturer * result MediaError (option VideoFrame) :=
  ({| syn_resolution := syn_resolution c; syn_frame_interval_us := syn_frame_interval_us c;
      syn_next_frame_id := (syn_next_frame_id c + 1) mod 2 ^ 64 |},
   Ok (Some (synthetic_frame c))).

#[global] Instance synthetic_capturer : ScreenCapturer SyntheticCapturer := {
  next_frame := synthetic_next_frame;
  cap_resolution := syn_resolution;
  cap_pixel_format _ := Bgra8;
}.

(** ** The host *)

Inductive PipelineError :=
| PE_Transport (e : TransportError)
| PE_Encode (e : MediaError)
| PE_Decode (e : MediaError)
| PE_Packetize (e : PacketizeError)
| PE_Render (e : RenderError)
| PE_NoDatagramSupport
| PE_Timeout
| PE_NoFrame.

(** [for dg in datagrams { conn.send_datagram_wait(dg).await?; }] *)
Fixpoint send_datagrams (q : Quinn) (c : Connection) (datagrams : list bytes)
  : Connection * result TransportError () :=
  match datagrams with
  | [] => (c, Ok tt)
  | dg :: rest =>
      match send_datagram_wait q c dg with
      | (c, Ok tt) => send_datagrams q c rest
      | (c, Err e) => (c, Err e)
      end
  end.

(** One encoded packet: cut, sent, recorded; and the sequence number after it. *)
Definition send_packet (q : Quinn) (c : Connection) (packet : EncodedPacket) (seq max_datagram : Z)
  : Connection * result PipelineError ((Z * Z) * Z) :=
  match fragment packet seq max_datagram with
  | Err e => (c, Err (PE_Packetize e))
  | Ok datagrams =>
      let num_frags := Z.min u16_max (Z.of_nat (length datagrams)) in
      let '(c, send_instant) := instant_now q c in
      match send_datagrams q c datagrams with
      | (c, Err e) => (c, Err (PE_Transport e))
      | (c, Ok tt) => (c, Ok ((ep_frame_id packet, send_instant), (seq + num_frags) mod 65536))
      end
  end.

Section Host.
Context {C E : Type} `{!ScreenCapturer C, !VideoEncoder E} (q : Quinn).

(** The loop over [frame_count] frames. *)
Fixpoint host_frames (n : nat) (c : Connection) (cap : C) (enc : E) (seq : Z) (results : list (Z * Z))
  : (Connection * C * E) * result PipelineError (Z * list (Z * Z)) :=
  match n with
  | O => ((c, cap, enc), Ok (seq, results))
  | S n =>
      match max_datagram_size q c with
      | (c, None) => ((c, cap, enc), Err PE_NoDatagramSupport)
      | (c, Some max_datagram) =>
          match next_frame cap 0 with
          | (cap, Err e) => ((c, cap, enc), Err (PE_Encode e))
          | (cap, Ok None) => ((c, cap, enc), Err PE_NoFrame)
          | (cap, Ok (Some frame)) =>
              match enc_encode enc frame with
              | (enc, Err e) => ((c, cap, enc), Err (PE_Encode e))
              | (enc, Ok None) => host_frames n c cap enc seq results
              | (enc, Ok (Some packet)) =>
                  match send_packet q c packet seq max_datagram with
                  | (c, Err e) => ((c, cap, enc), Err e)
                  | (c, Ok (sent, seq)) => host_frames n c cap enc seq (results ++ [sent])
                  end
              end
          end
      end
  end.

(** The packets the encoder still held. *)
Fixpoint host_tail (tail : list EncodedPacket) (c : Connection) (seq : Z) (results : list (Z * Z))
  : Connection * result PipelineError (list (Z * Z)) :=
  match tail with
  | [] => (c, Ok results)
  | packet :: tail =>
      match max_datagram_size q c with
      | (c, None) => (c, Err PE_NoDatagramSupport)
      | (c, Some max_datagram) =>
          match send_packet q c packet seq max_datagram with
          | (c, Err e) => (c, Err e)
          | (c, Ok (sent, seq)) => host_tail tail c seq (results ++ [sent])
          end
      end
  end.

Definition run_host_pipeline (c : Connection) (cap : C) (enc : E) (frame_count : nat)
  : Connection * result PipelineError (list (Z * Z)) :=
  match host_frames frame_count c cap enc 0 [] with
  | ((c, _, _), Err e) => (c, Err e)
  | ((c, _, enc), Ok (seq, results)) =>
      match enc_flush enc with
      | (_, Err e) => (c, Err (PE_Encode e))
      | (_, Ok tail) => host_tail tail c seq results
      end
  end.

End Host.

(** ** The client *)

(** What [timeout_at(deadline, conn.read_datagram())] yields, call after call, with the time at
    which a frame completed by it would be recorded; the list ends at the deadline. *)
Abbreviation reads := (list (result ConnectionError bytes * Z)).

Section Client.
Context {D S : Type} `{!VideoDecoder D, !FrameSink S}.

Fixpoint client_loop (frame_count : nat) (r : Reassembler) (dec : D) (sink : S)
    (results : list (Z * Z)) (events : reads) : (D * S) * result PipelineError (list (Z * Z)) :=
  if (frame_count <=? length results)%nat then ((dec, sink), Ok results) else
  match events with
  | [] => ((dec, sink), Ok results)
  | (Err e, _) :: _ => ((dec, sink), Err (PE_Transport (TE_Connection e)))
  | (Ok datagram, now) :: events =>
      match ingest r datagram with
      | (r, None) => client_loop frame_count r dec sink results events
      | (r, Some packet) =>
          match dec_decode dec packet with
          | (dec, Err e) => ((dec, sink), Err (PE_Decode e))
          | (dec, Ok None) => client_loop frame_count r dec sink results events
          | (dec, Ok (Some frame)) =>
              match deliver sink frame with
              | (sink, Err e) => ((dec, sink), Err (PE_Render e))
              | (sink, Ok tt) =>
                  client_loop frame_count r dec sink (results ++ [(vf_frame_id frame, now)]) events
              end
          end
      end
  end.

Definition run_client_pipeline (dec : D) (sink : S) (frame_count : nat) (events : reads)
  : (D * S) * result PipelineError (list (Z * Z)) :=
  client_loop frame_count reassembler_new dec sink [] events.

End Client.

(** ** Latency statistics *)

Definition percentiles (sorted : list Z) : Z * Z * Z * Z :=
  let len := Z.of_nat (length sorted) in
  if len =? 0 then (0, 0, 0, 0) else
  let get i := default 0 (sorted !! Z.to_nat i) in
  let min := default 0 (head sorted) in
  let max := default 0 (last sorted) in
  let median :=
    if len mod 2 =? 1 then get (len / 2)
    else let lo := get (len / 2 - 1) in
         let hi := get (len / 2) in
         lo / 2 + hi / 2 + (lo mod 2 + hi mod 2) / 2 in
  let p95_idx :=
    Z.min (sat_sub (sat_add usize_max (sat_mul usize_max len 95) 99 / 100) 1) (sat_sub len 1) in
  (min, median, get p95_idx, max).

(** ** The loopback harness *)

Record FrameMeasurement := {
  frame_idx : nat;
  fm_send_instant : Z;
  fm_recv_instant : Z;
  lossless_match : bool;
}.

Record HarnessReport := {
  frames_sent : nat;
  frames_received : nat;
  lossless_match_count : nat;
  latency_min_us : Z;
  latency_median_us : Z;
  latency_p95_us : Z;
  latency_max_us : Z;
  measurements : list FrameMeasurement;
}.

(** [iter.collect::<HashMap<_, _>>()]: a later entry replaces an earlier one. *)
Definition collect_map {A} (l : list (Z * A)) : gmap Z A :=
  foldl (fun m kv => <[kv.1 := kv.2]> m) ∅ l.

(** [u64::try_from(recv.duration_since(send).as_micros()).unwrap_or(u64::MAX)];
    [duration_since] is zero for a later instant. *)
Definition latency_us (send recv : Z) : Z := Z.min u64_max (Z.max 0 (recv - send) / 1000).

(** Which source frames arrived with the same pixels. *)
Fixpoint lossless_from (n : nat) (source : SyntheticCapturer) (decoded : gmap Z VideoFrame)
    (m : gmap Z bool) : gmap Z bool :=
  match n with
  | O => m
  | S n =>
      match next_frame source 0 with
      | (source, Ok (Some source_frame)) =>
          let fid := vf_frame_id source_frame in
          let matches := match decoded !! fid with
                         | Some df => bool_decide (vf_data df = vf_data source_frame)
                         | None => false
                         end in
          lossless_from n source decoded (<[fid := matches]> m)
      | (source, _) => lossless_from n source decoded m
      end
  end.

Definition measure (send_map : gmap Z Z) (lossless : gmap Z bool) (i : nat) (e : Z * Z)
  : option FrameMeasurement :=
  send_instant ← send_map !! e.1;
  Some {| frame_idx := i; fm_send_instant := send_instant; fm_recv_instant := e.2;
          lossless_match := default false (lossless !! e.1) |}.

(** The report made from what both pipelines returned and what the sink holds. *)
Definition harness_report (resolution : Resolution) (fps : Z) (frame_count : nat)
    (send_times recv_times : list (Z * Z)) (decoded_frames : list VideoFrame) : HarnessReport :=
  let send_map := collect_map send_times in
  let recv_map := collect_map recv_times in
  let decoded_map := collect_map (map (fun f => (vf_frame_id f, f)) decoded_frames) in
  let lossless_map := lossless_from frame_count (synthetic_new resolution fps) decoded_map ∅ in
  let ordered_recv := sort_by_key fst (map_to_list recv_map) in
  let measurements := omap id (imap (measure send_map lossless_map) ordered_recv) in
  let latencies_us := sort_by_key (fun l => l)
    (map (fun m => latency_us (fm_send_instant m) (fm_recv_instant m)) measurements) in
  let '(lmin, lmedian, lp95, lmax) := percentiles latencies_us in
  {| frames_sent := size send_map; frames_received := size recv_map;
     lossless_match_count := length (filter (fun m => lossless_match m = true) measurements);
     latency_min_us := lmin; latency_median_us := lmedian; latency_p95_us := lp95;
     latency_max_us := lmax; measurements := measurements |}.

(** ** The synthetic source *)

(** The next [n] frames of a capturer. *)
Fixpoint captured (n : nat) (c : SyntheticCapturer) : list VideoFrame :=
  match n with
  | O => []
  | S n => synthetic_frame c :: captured n (synthetic_next_frame c 0).1
  end.

Lemma pattern_pixel_length w i k : length (pattern_pixel w i k) = 4%nat.
Proof. done. Qed.

Lemma pattern_pixel_ok w i k : bytes_ok (pattern_pixel w i k).
Proof.
  assert (forall z, is_u8 (Z.land z 0xFF)) as H.
  { intros z. change 0xFF with (Z.ones 8). rewrite Z.land_ones by lia. apply is_u8_mod. }
  unfold pattern_pixel. repeat constructor; apply H || (unfold is_u8; lia).
Qed.

Lemma concat_length_const {A} (f : Z -> list A) k l :
  (forall z, length (f z) = k) -> length (concat (map f l)) = (k * length l)%nat.
Proof. intros Hf. induction l as [|z l IH]; cbn; [lia|]. rewrite length_app, Hf, IH. lia. Qed.

Lemma bgra_len_nonneg r : resolution_ok r -> 0 <= frame_len Bgra8 r.
Proof. intros [? ?]. unfold frame_len, sat_mul, u64_max. nia. Qed.

Lemma render_pattern_length c i :
  resolution_ok (syn_resolution c) -> blen (render_pattern c i) = frame_len Bgra8 (syn_resolution c).
Proof.
  intros Hr%bgra_len_nonneg. unfold render_pattern, blen.
  set (len := frame_len Bgra8 (syn_resolution c)) in *.
  rewrite length_app, length_replicate, (concat_length_const _ 4%nat) by apply pattern_pixel_length.
  rewrite length_seqZ. pose proof (Z.div_mod len 4 ltac:(lia)).
  pose proof (Z.mod_pos_bound len 4 ltac:(lia)). assert (0 <= len / 4) by (apply Z.div_pos; lia). lia.
Qed.

Lemma render_pattern_ok c i : bytes_ok (render_pattern c i).
Proof.
  unfold render_pattern. apply Forall_app. split.
  - apply Forall_concat, list.Forall_forall. intros l Hl.
    apply list_elem_of_fmap in Hl as (k & -> & _). apply pattern_pixel_ok.
  - apply Forall_replicate. unfold is_u8. lia.
Qed.

(** A capturer of a fixed size that produces frames which fit in memory. *)
Definition capturer_ok (c : SyntheticCapturer) : Prop :=
  resolution_ok (syn_resolution c) /\ frame_len Bgra8 (syn_resolution c) <= i64_max /\
  is_u64 (syn_next_frame_id c).

Lemma synthetic_new_ok res fps :
  resolution_ok res -> frame_len Bgra8 res <= i64_max -> capturer_ok (synthetic_new res fps).
Proof. intros. split_and!; [done|done|]. cbn. unfold is_u64. lia. Qed.

Lemma synthetic_next_ok c : capturer_ok c -> capturer_ok (synthetic_next_frame c 0).1.
Proof.
  intros (? & ? & ?). split_and!; [done|done|]. cbn. unfold is_u64.
  pose proof (Z.mod_pos_bound (syn_next_frame_id c + 1) (2 ^ 64) ltac:(lia)). lia.
Qed.

Lemma synthetic_frame_valid c : capturer_ok c -> frame_valid (synthetic_frame c).
Proof.
  intros (Hr & Hl & Hi). pose proof (render_pattern_length c (syn_next_frame_id c) Hr) as Hlen.
  unfold synthetic_frame. split_and!; cbn; try done.
  - apply render_pattern_ok.
  - unfold is_u64. pose proof (Z.mod_pos_bound (syn_next_frame_id c * syn_frame_interval_us c) (2 ^ 64)). lia.
  - by apply validate_len_iff.
  - by rewrite Hlen.
Qed.

(** ** What the host sends *)

(** quinn takes every datagram, and its limit always lets a packet of [len] bytes be cut into
    at most 255 datagrams. *)
Definition quinn_carries (q : Quinn) (len : Z) : Prop :=
  (forall k d, q_accept q k d = None) /\
  forall k, exists m, q_limit q k = Some m /\ combined_header < m <= u16_max /\ len <= 255 * (m - combined_header).

Lemma send_datagrams_all q c ds :
  (forall k d, q_accept q k d = None) ->
  exists c', send_datagrams q c ds = (c', Ok tt) /\ conn_sent c' = conn_sent c ++ ds.
Proof.
  intros Hq. revert c. induction ds as [|d ds IH]; intros c; cbn [send_datagrams].
  - exists c. by rewrite app_nil_r.
  - unfold send_datagram_wait. rewrite Hq. destruct (IH {| conn_requests := S (conn_requests c);
      conn_sent := conn_sent c ++ [d] |}) as (c' & -> & Hc'). exists c'.
    split; [done|]. rewrite Hc'. cbn. by rewrite <- app_assoc.
Qed.

Lemma num_frags_le data cs n :
  0 < cs -> 1 <= n -> blen data <= n * cs -> num_frags_of data cs <= n.
Proof.
  intros Hcs Hn Hd. unfold num_frags_of. destruct data; [lia|].
  apply Z.lt_succ_r, Z.div_lt_upper_bound; [done|]. nia.
Qed.

Lemma fragment_succeeds p seq_start mx :
  packet_ok p -> is_u16 seq_start -> combined_header < mx <= u16_max ->
  blen (ep_data p) <= 255 * (mx - combined_header) ->
  exists frags, fragment p seq_start mx = Ok frags.
Proof.
  intros Hp Hs Hm Hl. pose proof (fragment_outcome p seq_start mx Hp Hs) as H.
  destruct (fragment p seq_start mx) as [frags|[n|e| |m]] eqn:E; [by exists frags|exfalso..].
  - destruct H as [H ->].
    pose proof (num_frags_le (ep_data p) (mx - combined_header) 255 ltac:(lia) ltac:(lia) Hl). lia.
  - done.
  - assert (VIDEO_HEADER_LEN <= combined_header) by (by vm_compute). lia.
  - lia.
Qed.

(** Sending one captured frame. *)
Lemma send_frame q c f seq :
  frame_valid f -> is_u16 seq -> quinn_carries q (RAW_HEADER_LEN + blen (vf_data f)) ->
  exists m frags c' t seq',
    q_limit q (conn_requests c) = Some m /\ frame_sent (f, seq, m) frags /\ is_u16 seq' /\
    send_packet q (conn_tick c) (raw_packet f) seq m = (c', Ok ((vf_frame_id f, t), seq')) /\
    conn_sent c' = conn_sent c ++ frags.
Proof.
  intros Hv Hs [Hacc Hlim]. destruct (Hlim (conn_requests c)) as (m & Hm & Hmr & Hl).
  pose proof Hv as (_ & _ & Hid & Hts & Hval & Hlen).
  assert (blen (ep_data (raw_packet f)) = RAW_HEADER_LEN + blen (vf_data f)) as Hd.
  { unfold raw_packet, RAW_HEADER_LEN. cbn [ep_data]. autorewrite with shp. unfold blen. cbn [length]. lia. }
  destruct (fragment_succeeds (raw_packet f) seq m) as [frags Hf]; [|done|done|by rewrite Hd|].
  { split_and!; [done|done|]. rewrite Hd. unfold RAW_HEADER_LEN, i64_max, usize_max, u64_max in *. lia. }
  destruct (send_datagrams_all q (conn_tick (conn_tick c)) frags Hacc) as (c' & Hc' & Hsent).
  eexists m, frags, c', _, _. split_and!; [done| | |unfold send_packet, instant_now; by rewrite Hf, Hc'|done].
  - split; [done|]. split; [done|]. exists (raw_packet f). split; [by apply raw_encode_Ok|done].
  - apply Z.mod_pos_bound. lia.
Qed.

Lemma captured_length n c : length (captured n c) = n.
Proof. revert c. induction n as [|n IH]; intros c; cbn; [done|]. by rewrite IH. Qed.

Lemma synthetic_frame_len c :
  capturer_ok c -> blen (vf_data (synthetic_frame c)) = frame_len Bgra8 (syn_resolution c).
Proof. intros (Hr & _). by apply render_pattern_length. Qed.

(** The whole loop: every captured frame is cut and handed to quinn, in order. *)
Lemma host_frames_sends q n c cap seq results :
  capturer_ok cap -> is_u16 seq ->
  quinn_carries q (RAW_HEADER_LEN + frame_len Bgra8 (syn_resolution cap)) ->
  exists c' cap' seq' times sent frames,
    host_frames q n c cap raw_new seq results = ((c', cap', raw_new), Ok (seq', results ++ times)) /\
    map fst times = map vf_frame_id (captured n cap) /\
    map (fun s => s.1.1) sent = captured n cap /\ Forall2 frame_sent sent frames /\
    conn_sent c' = conn_sent c ++ concat frames.
Proof.
  revert c cap seq results. induction n as [|n IH]; intros c cap seq results Hcap Hs Hq.
  { exists c, cap, seq, [], [], []. cbn. rewrite !app_nil_r. by auto. }
  pose proof (synthetic_frame_valid cap Hcap) as Hv.
  destruct (send_frame q c (synthetic_frame cap) seq Hv Hs) as (m & frags & c1 & t & seq1 & Hm & Hf & Hs1 & Hsend & Hc1).
  { by rewrite (synthetic_frame_len cap Hcap). }
  destruct (IH c1 (synthetic_next_frame cap 0).1 seq1 (results ++ [(vf_frame_id (synthetic_frame cap), t)])
              (synthetic_next_ok cap Hcap) Hs1 Hq)
    as (c' & cap' & seq' & times & sent & frames & Hrun & Hid & Hcs & Hfs & Hc').
  exists c', cap', seq', ((vf_frame_id (synthetic_frame cap), t) :: times),
    ((synthetic_frame cap, seq, m) :: sent), (frags :: frames).
  cbn [host_frames]. unfold max_datagram_size. rewrite Hm. cbn [next_frame synthetic_capturer].
  unfold synthetic_next_frame at 1. cbn [enc_encode raw_encoder].
  assert (raw_encode (synthetic_frame cap) = Ok (Some (raw_packet (synthetic_frame cap)))) as ->.
  { apply raw_encode_Ok. split; [|done]. by destruct Hv as (_ & _ & _ & _ & ? & _). }
  rewrite Hsend. unfold synthetic_next_frame in Hrun. cbn [fst] in Hrun. rewrite Hrun.
  split_and!; [by rewrite <- app_assoc|cbn; by rewrite Hid|cbn; by rewrite Hcs|by constructor|].
  rewrite Hc', Hc1. cbn [concat]. by rewrite app_assoc.
Qed.

(** ** What the client makes of it *)

(** Datagrams in the order they were sent: frame after frame, however many. *)
Lemma ingest_in_order sent frames :
  Forall2 frame_sent sent frames ->
  exists ps, ingest_all reassembler_new (concat frames) = (reassembler_new, ps) /\
    map raw_decode ps = map (fun s => Ok (Some (frame_on_wire s.1.1))) sent.
Proof.
  induction 1 as [|s frags sent frames Hs _ (ps & Hps & Hd)]; [by exists []|].
  destruct (frame_sent_transmitted s frags Hs) as (t & Ht & _ & Hdec).
  destruct (reassemble_shuffled [t] [frags] frags) as [Hr Ho].
  - apply Forall2_cons; split; [done|apply Forall2_nil_2].
  - cbn. apply NoDup_singleton.
  - cbn. unfold MAX_BUFFERED_FRAMES. lia.
  - cbn. by rewrite app_nil_r.
  - cbn in Ho. apply Permutation_singleton_r in Ho.
    exists (packet_on_wire (tr_packet t) :: ps). cbn [concat]. rewrite ingest_all_app.
    destruct (ingest_all reassembler_new frags) as [r o]. cbn in Hr, Ho. subst r o.
    rewrite Hps. cbn. by rewrite Hdec, Hd.
Qed.

(** The client against the reassembler's outputs: it decodes and presents them in order, and
    stops once it has [frame_count] frames. *)
Lemma client_loop_outputs frame_count events ds : forall r sink results fs,
  map fst events = map Ok ds ->
  map raw_decode (ingest_all r ds).2 = map (fun f => Ok (Some f)) fs ->
  (length results <= frame_count)%nat ->
  (length (sink_frames sink) + (frame_count - length results) <= sink_capacity sink)%nat ->
  let shown := take (frame_count - length results) fs in
  exists times,
    client_loop frame_count r raw_decoder_new sink results events
      = ((raw_decoder_new, {| sink_frames := sink_frames sink ++ shown;
                              sink_capacity := sink_capacity sink |}), Ok (results ++ times)) /\
    map fst times = map vf_frame_id shown.
Proof.
  revert ds. induction events as [|[e now] events IH]; intros ds r sink results fs Hev Hdec Hn Hcap.
  - destruct ds; [|done]. destruct fs; [|done]. exists []. cbn [client_loop]. rewrite !app_nil_r, take_nil, app_nil_r.
    destruct sink. by destruct (_ <=? _)%nat.
  - destruct ds as [|d ds]; [done|]. cbn in Hev. injection Hev as -> Hev. cbn [client_loop].
    destruct (Nat.leb_spec frame_count (length results)) as [Hle|Hlt].
    { exists []. replace (frame_count - length results)%nat with 0%nat by lia. rewrite take_0, !app_nil_r.
      by destruct sink. }
    cbn [ingest_all] in Hdec. destruct (ingest r d) as [r' out].
    specialize (IH ds r'). destruct (ingest_all r' ds) as [r2 outs]. cbn [snd] in *.
    destruct out as [p|]; [|by apply IH].
    destruct fs as [|f fs]; [done|]. cbn in Hdec. injection Hdec as Hp Hdec.
    cbn [dec_decode raw_decoder]. rewrite Hp. cbn [deliver collecting_sink]. unfold collecting_deliver.
    rewrite (proj2 (Nat.leb_gt _ _)) by lia.
    destruct (IH {| sink_frames := sink_frames sink ++ [f]; sink_capacity := sink_capacity sink |}
                 (results ++ [(vf_frame_id f, now)]) fs Hev Hdec) as (times & -> & Ht).
    { rewrite length_app. cbn. lia. }
    { cbn. rewrite !length_app. cbn. lia. }
    rewrite length_app in *. cbn [length sink_frames sink_capacity] in *.
    exists ((vf_frame_id f, now) :: times).
    replace (frame_count - length results)%nat with (S (frame_count - (length results + 1))) by lia.
    cbn [take map fst]. rewrite Ht, <- !app_assoc. done.
Qed.

(** ** The harness *)

Lemma captured_frame n : forall c f,
  f ∈ captured n c -> is_u64 (syn_next_frame_id c) ->
  syn_next_frame_id c + Z.of_nat n <= 2 ^ 64 ->
  syn_next_frame_id c <= vf_frame_id f < syn_next_frame_id c + Z.of_nat n.
Proof.
  induction n as [|n IH]; intros c f Hf Hu Hn; [by apply elem_of_nil in Hf|].
  unfold is_u64 in *. cbn [captured] in Hf. apply elem_of_cons in Hf as [->|Hf]; [cbn; lia|].
  destruct n as [|n']; [by apply elem_of_nil in Hf|].
  apply IH in Hf; cbn [synthetic_next_frame fst syn_next_frame_id] in *; rewrite Z.mod_small in * by lia; lia.
Qed.

Lemma captured_ids n : forall c,
  is_u64 (syn_next_frame_id c) -> syn_next_frame_id c + Z.of_nat n <= 2 ^ 64 ->
  NoDup (map vf_frame_id (captured n c)).
Proof.
  induction n as [|n IH]; intros c Hu Hn; [constructor|]. unfold is_u64 in *. cbn [captured map].
  destruct n as [|n']; [apply NoDup_singleton|].
  set (c' := (synthetic_next_frame c 0).1).
  assert (syn_next_frame_id c' = syn_next_frame_id c + 1) as Hc'.
  { unfold c'. cbn. rewrite Z.mod_small; lia. }
  constructor; [|apply IH; unfold is_u64; lia].
  intros (f & Hid & Hf)%list_elem_of_fmap. apply captured_frame in Hf; unfold is_u64; [|lia..].
  cbn in Hid. lia.
Qed.

Lemma frame_on_wire_id f : 0 <= vf_frame_id f <= MAX_FRAME_ID -> vf_frame_id (frame_on_wire f) = vf_frame_id f.
Proof.
  intros Hf. cbn. change MAX_FRAME_ID with (Z.ones 24) in *. rewrite Z.land_ones by lia.
  apply Z.mod_small. change (2 ^ 24) with (Z.ones 24 + 1). lia.
Qed.

Lemma collect_map_nodup {A} (l : list (Z * A)) : NoDup (map fst l) -> collect_map l = list_to_map l.
Proof.
  intros Hl. unfold collect_map.
  cut (forall m : gmap Z A, foldl (fun m kv => <[kv.1 := kv.2]> m) m l = list_to_map l ∪ m).
  { intros ->. apply map_union_empty. }
  induction l as [|[k v] l IH]; intros m; cbn; [by rewrite map_empty_union|].
  apply NoDup_cons in Hl as [Hk Hl]. rewrite IH by done.
  rewrite <- insert_union_r by (by apply not_elem_of_list_to_map_1). by rewrite insert_union_l.
Qed.

Lemma collect_map_size {A} (l : list (Z * A)) : NoDup (map fst l) -> size (collect_map l) = length l.
Proof. intros H. by rewrite collect_map_nodup, <- length_map_to_list, map_to_list_to_map. Qed.

Lemma collect_map_lookup {A} (l : list (Z * A)) k v :
  NoDup (map fst l) -> (k, v) ∈ l -> collect_map l !! k = Some v.
Proof. intros. rewrite collect_map_nodup by done. by apply elem_of_list_to_map_1. Qed.

(** Every captured frame found with its pixels is marked. *)
Lemma lossless_from_all n : forall c decoded m k,
  is_u64 (syn_next_frame_id c) -> syn_next_frame_id c + Z.of_nat n <= 2 ^ 64 ->
  (forall f, f ∈ captured n c -> exists df, decoded !! vf_frame_id f = Some df /\ vf_data df = vf_data f) ->
  k ∈ map vf_frame_id (captured n c) \/ m !! k = Some true ->
  lossless_from n c decoded m !! k = Some true.
Proof.
  induction n as [|n IH]; intros c decoded m k Hu Hn Hd Hk; cbn [lossless_from].
  { destruct Hk as [Hk|Hk]; [by apply elem_of_nil in Hk|done]. }
  cbn [next_frame synthetic_capturer]. unfold synthetic_next_frame at 1. cbn [captured] in *.
  destruct (Hd (synthetic_frame c)) as (df & -> & Hdf); [left|]. rewrite bool_decide_true by done.
  destruct n as [|n'].
  { cbn [lossless_from]. destruct (decide (k = vf_frame_id (synthetic_frame c))) as [->|Hne].
    - by rewrite lookup_insert_eq.
    - rewrite lookup_insert_ne by done. destruct Hk as [Hk|Hk]; [|done].
      cbn in Hk. by apply list_elem_of_singleton in Hk. }
  unfold is_u64 in *. apply (IH (synthetic_next_frame c 0).1).
  - cbn. rewrite Z.mod_small; unfold is_u64; lia.
  - cbn [synthetic_next_frame fst syn_next_frame_id]. rewrite Z.mod_small; lia.
  - intros f Hf. apply Hd. by right.
  - destruct (decide (k = vf_frame_id (synthetic_frame c))) as [->|Hne].
    + right. by rewrite lookup_insert_eq.
    + rewrite lookup_insert_ne by done. destruct Hk as [Hk|Hk]; [|by right].
      left. cbn [map] in Hk. apply elem_of_cons in Hk as [?|?]; done.
Qed.

Lemma imap_all_kept {A B} (P : B -> Prop) `{!forall x, Decision (P x)} (g : nat -> A -> option B) l :
  (forall i e, e ∈ l -> exists m, g i e = Some m /\ P m) ->
  length (filter P (omap id (imap g l))) = length l.
Proof.
  revert g. induction l as [|e l IH]; intros g Hg; [done|]. rewrite imap_cons.
  destruct (Hg 0%nat e) as (m & Hm & HP); [left|]. cbn [omap list_omap]. rewrite Hm. cbn [id].
  rewrite filter_cons_True by done. cbn [length]. f_equal. apply IH. intros i x Hx.
  apply (Hg (S i)). by right.
Qed.

(** A run in which every frame was sent and every frame came back. *)
Lemma report_all_match res fps n send_times recv_times :
  let source := captured n (synthetic_new res fps) in
  Z.of_nat n <= MAX_FRAME_ID + 1 ->
  map fst send_times = map vf_frame_id source ->
  map fst recv_times = map vf_frame_id (map frame_on_wire source) ->
  let report := harness_report res fps n send_times recv_times (map frame_on_wire source) in
  frames_sent report = n /\ frames_received report = n /\ lossless_match_count report = n.
Proof.
  intros source Hn Hs Hr report. change (Z.of_nat n <= 2 ^ 24) in Hn.
  assert (forall f, f ∈ source -> vf_frame_id (frame_on_wire f) = vf_frame_id f) as Hid.
  { intros f Hf. apply frame_on_wire_id. apply captured_frame in Hf; cbn in *; unfold is_u64; [|lia..].
    change (MAX_FRAME_ID) with (2 ^ 24 - 1). lia. }
  assert (map vf_frame_id (map frame_on_wire source) = map vf_frame_id source) as Hids.
  { rewrite map_map. apply list_fmap_ext. intros i f Hf. apply Hid. by eapply list_elem_of_lookup_2. }
  rewrite Hids in Hr.
  assert (NoDup (map vf_frame_id source)) as Hnd by (apply captured_ids; cbn; unfold is_u64; lia).
  assert (forall l : list (Z * Z), map fst l = map vf_frame_id source -> length l = n) as Hlen.
  { intros l Hl. rewrite <- (length_map fst), Hl, length_map. apply captured_length. }
  unfold report, harness_report. destruct (percentiles _) as [[[? ?] ?] ?].
  cbn [frames_sent frames_received lossless_match_count].
  rewrite !collect_map_size by (by rewrite ?Hs, ?Hr). rewrite !Hlen by done. split_and!; [done|done|].
  rewrite imap_all_kept.
  { by rewrite sort_by_key_length, length_map_to_list, collect_map_size, Hlen by (by rewrite ?Hr). }
  intros i [k t] Hkt. rewrite sort_by_key_perm in Hkt. apply elem_of_map_to_list in Hkt.
  assert (k ∈ map vf_frame_id source) as Hk.
  { rewrite <- Hr. rewrite collect_map_nodup in Hkt by (by rewrite Hr).
    apply elem_of_list_to_map_2 in Hkt. by apply (list_elem_of_fmap_2 fst) in Hkt. }
  pose proof Hk as Hk'. rewrite <- Hs in Hk'. apply list_elem_of_fmap in Hk' as ([k' t'] & Hk1 & Hk').
  cbn in Hk1. subst k'. unfold measure. cbn [fst snd].
  rewrite (collect_map_lookup _ _ _ ltac:(by rewrite Hs) Hk'). eexists. split; [done|]. cbn [lossless_match].
  erewrite lossless_from_all; [done|unfold is_u64; cbn; lia|cbn; lia| |by left].
  intros f Hf. exists (frame_on_wire f). split; [|done].
  apply collect_map_lookup; [rewrite map_map; change (NoDup (map vf_frame_id (map frame_on_wire source))); by rewrite Hids|].
  apply list_elem_of_fmap. exists (frame_on_wire f). rewrite Hid by done. split; [done|]. by apply list_elem_of_fmap_2.
Qed.

(** The pipelines back to back. *)
Lemma host_pipeline_sends q res fps n :
  capturer_ok (synthetic_new res fps) -> quinn_carries q (RAW_HEADER_LEN + frame_len Bgra8 res) ->
  exists conn send_times sent frames,
    run_host_pipeline q connection_new (synthetic_new res fps) raw_new n = (conn, Ok send_times) /\
    map fst send_times = map vf_frame_id (captured n (synthetic_new res fps)) /\
    map (fun s => s.1.1) sent = captured n (synthetic_new res fps) /\
    Forall2 frame_sent sent frames /\ conn_sent conn = concat frames.
Proof.
  intros Hc Hq.
  destruct (host_frames_sends q n connection_new (synthetic_new res fps) 0 [] Hc)
    as (c' & cap' & seq' & times & sent & frames & Hrun & Hid & Hcs & Hfs & Hc');
    [unfold is_u16; lia|done|].
  exists c', times, sent, frames. unfold run_host_pipeline. by rewrite Hrun.
Qed.

(** C7. The loopback harness measures what it claims: over a connection whose
    datagram size is such that an encoded frame fits in the 255 datagrams a packet may have, and
    that carries the datagrams in order, any number of synthetic frames (up to the 24-bit id
    space, of a size that fits a Rust allocation) is captured, encoded, cut, sent, reassembled, decoded and collected pixel for pixel in capture order,
    both pipelines return without an error, and the report counts every frame as sent,
    received and lossless. *)
Theorem loopback_lossless q res fps n :
  resolution_ok res -> frame_len Bgra8 res <= i64_max -> Z.of_nat n <= MAX_FRAME_ID + 1 ->
  quinn_carries q (RAW_HEADER_LEN + frame_len Bgra8 res) ->
  exists conn send_times,
    run_host_pipeline q connection_new (synthetic_new res fps) raw_new n = (conn, Ok send_times) /\
    forall events, map fst events = map Ok (conn_sent conn) ->
    exists sink recv_times,
      run_client_pipeline raw_decoder_new (collecting_new n) n events
        = ((raw_decoder_new, sink), Ok recv_times) /\
      sink_frames sink = map frame_on_wire (captured n (synthetic_new res fps)) /\
      let report := harness_report res fps n send_times recv_times (sink_frames sink) in
      frames_sent report = n /\ frames_received report = n /\ lossless_match_count report = n.
Proof.
  intros Hr Hl Hn Hq.
  destruct (host_pipeline_sends q res fps n (synthetic_new_ok res fps Hr Hl) Hq)
    as (conn & send_times & sent & frames & Hrun & Hids & Hsent & Hfs & Hconn).
  exists conn, send_times. split; [done|]. intros events Hev.
  destruct (ingest_in_order sent frames Hfs) as (ps & Hps & Hdec).
  rewrite <- Hconn in Hps.
  destruct (client_loop_outputs n events (conn_sent conn) reassembler_new (collecting_new n) []
              (map frame_on_wire (captured n (synthetic_new res fps))) Hev) as (times & Hclient & Htimes).
  - rewrite Hps, <- Hsent. cbn [snd]. by rewrite Hdec, !map_map.
  - cbn. lia.
  - cbn. lia.
  - cbn [length] in Hclient, Htimes. rewrite Nat.sub_0_r in Hclient, Htimes.
    rewrite take_ge in Hclient, Htimes by (rewrite length_map, captured_length; lia).
    eexists _, _. split; [exact Hclient|]. split; [done|]. by apply report_all_match.
Qed.

(** A datagram limit that cuts a 2x1 frame in two; every datagram taken. *)
Definition toy_quinn : Quinn :=
  {| q_limit := fun _ => Some 32; q_accept := fun _ _ => None; q_clock := fun k => Z.of_nat k * 1000 |}.

Lemma loopback_lossless_witness :
  exists conn send_times,
    run_host_pipeline toy_quinn connection_new (synthetic_new {| width := 2; height := 1 |} 30) raw_new 2
      = (conn, Ok send_times) /\ length (conn_sent conn) = 4%nat /\
    exists sink recv_times,
      run_client_pipeline raw_decoder_new (collecting_new 2) 2 (map (fun d => (Ok d, 9000)) (conn_sent conn))
        = ((raw_decoder_new, sink), Ok recv_times) /\
      lossless_match_count (harness_report {| width := 2; height := 1 |} 30 2 send_times recv_times
                              (sink_frames sink)) = 2%nat.
Proof.
  destruct (loopback_lossless toy_quinn {| width := 2; height := 1 |} 30 2) as (conn & times & Hrun & H).
  - split; cbn; unfold u32_max; lia.
  - by vm_compute.
  - by vm_compute.
  - split; [done|]. intros k. exists 32. split_and!; [done|by vm_compute|by vm_compute|by vm_compute].
  - exists conn, times. split; [done|].
    split; [apply (f_equal fst) in Hrun; cbn [fst] in Hrun; rewrite <- Hrun; by vm_compute|].
    destruct (H (map (fun d => (Ok d, 9000)) (conn_sent conn))) as (sink & rt & Hc & _ & _ & _ & Hl).
    + by rewrite map_map.
    + exists sink, rt. by split.
Defined.

(** ** The percentiles *)

Lemma sorted_get (l : list Z) i j :
  StronglySorted Z.le l -> (i <= j < length l)%nat -> default 0 (l !! i) <= default 0 (l !! j).
Proof.
  intros Hs. revert i j. induction Hs as [|x l Hs IH Hx]; intros i j Hij; [cbn in Hij; lia|].
  destruct i as [|i], j as [|j]; cbn [length] in *; [done| |lia|apply (IH i j); lia].
  destruct (lookup_lt_is_Some_2 l j) as [y Hy]; [lia|]. change ((x :: l) !! S j) with (l !! j).
  rewrite Hy. cbn.   by eapply Forall_lookup_1 in Hx.
Qed.

Lemma average_between lo hi :
  lo <= hi -> lo <= lo / 2 + hi / 2 + (lo mod 2 + hi mod 2) / 2 <= hi.
Proof.
  intros H. pose proof (Z.div_mod lo 2 ltac:(lia)). pose proof (Z.div_mod hi 2 ltac:(lia)).
  pose proof (Z.mod_pos_bound lo 2 ltac:(lia)). pose proof (Z.mod_pos_bound hi 2 ltac:(lia)).
  pose proof (Z.div_mod (lo mod 2 + hi mod 2) 2 ltac:(lia)).
  pose proof (Z.mod_pos_bound (lo mod 2 + hi mod 2) 2 ltac:(lia)). lia.
Qed.

(** The four figures of a sorted sample are in order, and lie in the sample's range. *)
Lemma percentiles_ordered l :
  StronglySorted Z.le l -> (1 <= length l)%nat -> Z.of_nat (length l) * 95 + 99 <= usize_max ->
  let '(mn, med, p95, mx) := percentiles l in
  mn = default 0 (head l) /\ mx = default 0 (last l) /\ mn <= med <= p95 /\ p95 <= mx.
Proof.
  intros Hs Hl Hbig. unfold percentiles. set (len := Z.of_nat (length l)) in *.
  rewrite (proj2 (Z.eqb_neq len 0)) by lia.
  set (idx := Z.min _ _). set (get := fun i => default 0 (l !! Z.to_nat i)).
  assert (0 <= len / 2 <= idx /\ idx <= len - 1) as Hidx.
  { unfold idx, sat_sub, sat_add, sat_mul. rewrite (Z.min_r usize_max (len * 95)), (Z.min_r usize_max) by lia. split; [|lia].
    split; [apply Z.div_pos; lia|].
    pose proof (Z.div_mod len 2 ltac:(lia)). pose proof (Z.mod_pos_bound len 2 ltac:(lia)).
    pose proof (Z.div_mod (len * 95 + 99) 100 ltac:(lia)).
    pose proof (Z.mod_pos_bound (len * 95 + 99) 100 ltac:(lia)). lia. }
  assert (forall i j, 0 <= i <= j -> j <= len - 1 -> get i <= get j) as Hget.
  { intros i j Hij Hj. apply sorted_get; [done|]. unfold len in *. lia. }
  replace (default 0 (head l)) with (get 0) by (unfold get; by rewrite <- head_lookup).
  replace (default 0 (last l)) with (get (len - 1)).
  2: { unfold get, len. rewrite last_lookup. do 2 f_equal. lia. }
  split; [done|]. split; [done|]. split; [|apply Hget; lia]. change (default 0 (l !! Z.to_nat idx)) with (get idx).
  destruct (Z.eqb_spec (len mod 2) 1) as [Hodd|Heven]; [split; apply Hget; lia|].
  pose proof (Z.div_mod len 2 ltac:(lia)). pose proof (Z.mod_pos_bound len 2 ltac:(lia)).
  fold (get (len / 2 - 1)) (get (len / 2)).
  pose proof (average_between (get (len / 2 - 1)) (get (len / 2)) ltac:(apply Hget; lia)).
  pose proof (Hget 0 (len / 2 - 1) ltac:(lia) ltac:(lia)).
  pose proof (Hget (len / 2) idx ltac:(lia) ltac:(lia)). lia.
Qed.
