(* ===== verification/InputHarness.v ===== *)
(** * sh-core: the input round-trip harness (crates/sh-core/src/input_harness.rs)

    The client sends an event on the Input channel and waits for its echo before the next; the
    host decodes, injects and echoes.  Each task is a loop over its end of a reliable channel of
    Transport.v, whose receive stream holds what the other side writes; [late k] says that the
    [k]-th receive of a task exceeds its time limit, and the client's clock readings are given.

    [input_rtt_ordered]: over streams that carry what is written, the harness counts every event,
    in order; [rtt_failures] are its refusals. *)

From stdpp Require Import base numbers list option strings.
From S2P Require Import Prelude Types ShpWire ShpMessages InputCore Transport Pipeline.

Inductive InputRttError :=
| IrTransport (e : TransportError)
| IrJoin
| IrTimeout
| IrProtocol (e : ProtocolError)
| IrInjection (e : InputError)
| IrIncompleteStream (received expected : Z)
| IrTooManyEvents (count : Z).

Record InputEventMeasurement := { event_idx : Z; send_instant : Z; recv_instant : Z; rtt_us : Z }.

Record InputRttReport := {
  events_sent : Z; events_echoed : Z; rtt_min_us : Z; rtt_median_us : Z; rtt_p95_us : Z; rtt_max_us : Z;
  all_injected_in_order : bool; rtt_measurements : list InputEventMeasurement;
}.

Definition make_event (index : Z) : InputEvent.t :=
  let idx_u16 := if index <=? 65535 then index else 65535 in
  InputEvent.mk InputEvent.PointerMove 0 idx_u16 ((idx_u16 * 3) mod 65536) 0 0 0 0 0.

Section Harness.
Context {SS RS : Type} `{!SendStream SS} `{!RecvStream RS} (event_count : Z).

(** [tokio::time::timeout(msg_timeout, ch.recv())] and the checks that follow. *)
Definition timed_recv (late : bool) (received : Z) (c : ReliableChannel SS RS) : ReliableChannel SS RS * result InputRttError bytes :=
  if late then (c, Err IrTimeout) else
  match reliable_recv c with
  | (c, Err e) => (c, Err (IrTransport e))
  | (c, Ok None) => (c, Err (IrIncompleteStream received event_count))
  | (c, Ok (Some b)) => (c, Ok b)
  end.

(** The host's loop, with [n] turns left. *)
Fixpoint host_loop (n : nat) (late : nat -> bool) (k : nat) (c : ReliableChannel SS RS) (injector : RecordingInjector) (received_indices : list Z)
  : ReliableChannel SS RS * RecordingInjector * result InputRttError (list Z) :=
  match n with
  | O => (c, injector, Ok received_indices)
  | S n =>
      match timed_recv (late k) (Z.of_nat (length received_indices)) c with
      | (c, Err e) => (c, injector, Err e)
      | (c, Ok b) =>
          match InputEvent.decode b with
          | Err e => (c, injector, Err (IrProtocol e))
          | Ok event =>
              match inject injector event with
              | (injector, Err e) => (c, injector, Err (IrInjection e))
              | (injector, Ok _) =>
                  match reliable_send c b with
                  | (c, Err e) => (c, injector, Err (IrTransport e))
                  | (c, Ok _) => host_loop n late (S k) c injector (received_indices ++ [InputEvent.pointer_x event])
                  end
              end
          end
      end
  end.

Definition host_task (late : nat -> bool) (accepted : result TransportError (ReliableChannel SS RS))
  : result InputRttError (list Z) :=
  let? ch := map_err IrTransport accepted in
  snd (host_loop (Z.to_nat event_count) late 0 ch recording_injector_new []).

(** The client's loop, from event [i] on; [clock] gives the readings around each event, in
    nanoseconds. *)
Fixpoint client_rtt_loop (n : nat) (late : nat -> bool) (clock : nat -> Z * Z) (i : nat) (c : ReliableChannel SS RS) (measurements : list InputEventMeasurement)
  : ReliableChannel SS RS * result InputRttError (list InputEventMeasurement) :=
  match n with
  | O => (c, Ok measurements)
  | S n =>
      let wire := InputEvent.encode (make_event (Z.of_nat i)) in
      let '(t0, t1) := clock i in
      match reliable_send c wire with
      | (c, Err e) => (c, Err (IrTransport e))
      | (c, Ok _) =>
          match timed_recv (late i) (Z.of_nat i) c with
          | (c, Err e) => (c, Err e)
          | (c, Ok b) =>
              match InputEvent.decode b with
              | Err e => (c, Err (IrProtocol e))
              | Ok echo_event =>
                  let elapsed := Z.max 0 (t1 - t0) / 1000 in
                  let m := {| event_idx := InputEvent.pointer_x echo_event; send_instant := t0; recv_instant := t1;
                              rtt_us := if elapsed <=? u64_max then elapsed else u64_max |} in
                  client_rtt_loop n late clock (S i) c (measurements ++ [m])
              end
          end
      end
  end.

Definition client_task (late : nat -> bool) (clock : nat -> Z * Z) (opened : result TransportError (ReliableChannel SS RS))
  : result InputRttError (list InputEventMeasurement) :=
  let? ch := map_err IrTransport opened in
  snd (client_rtt_loop (Z.to_nat event_count) late clock 0 ch []).

(** The [all] over the enumerated indices. *)
Definition injected_in_order (received_indices : list Z) : bool :=
  (Z.of_nat (length received_indices) =? event_count) &&
  forallb (fun '(expected, got) => got =? Z.of_nat expected) (zip (seq 0 (length received_indices)) received_indices).

Definition rtt_report (received_indices : list Z) (measurements : list InputEventMeasurement) : InputRttReport :=
  let rtts := sort_by_key (fun x => x) (map rtt_us measurements) in
  let '(mn, md, p95, mx) := percentiles rtts in
  {| events_sent := event_count; events_echoed := Z.of_nat (length measurements); rtt_min_us := mn; rtt_median_us := md;
     rtt_p95_us := p95; rtt_max_us := mx; all_injected_in_order := injected_in_order received_indices;
     rtt_measurements := measurements |}.

Definition empty_report : InputRttReport :=
  {| events_sent := 0; events_echoed := 0; rtt_min_us := 0; rtt_median_us := 0; rtt_p95_us := 0; rtt_max_us := 0;
     all_injected_in_order := true; rtt_measurements := [] |}.

(** [setup]: the endpoints; [overdue]: the deadline passed before both tasks ended; an inner
    [None] is a task that panicked. *)
Definition run_input_rtt_harness (setup : result InputRttError unit) (overdue : bool)
  (host : option (result InputRttError (list Z))) (client : option (result InputRttError (list InputEventMeasurement)))
  : result InputRttError InputRttReport :=
  if 65535 + 1 <? event_count then Err (IrTooManyEvents event_count) else
  if event_count =? 0 then Ok empty_report else
  let? _ := setup in
  if overdue then Err IrTimeout else
  let? host := ok_or host IrJoin in
  let? received_indices := host in
  let? client := ok_or client IrJoin in
  let? measurements := client in
  Ok (rtt_report received_indices measurements).
End Harness.

(** ** What it counts *)

Definition event_frame (i : nat) : bytes := frame_of (InputEvent.encode (make_event (Z.of_nat i))).
Definition event_frames (i n : nat) : bytes := concat (map event_frame (seq i n)).
Definition never : nat -> bool := fun _ => false.

Lemma make_event_wf i : Z.of_nat i < 65536 -> InputEvent.wf (make_event (Z.of_nat i)) /\ InputEvent.pointer_x (make_event (Z.of_nat i)) = Z.of_nat i.
Proof.
  intros Hi. unfold make_event. rewrite (proj2 (Z.leb_le _ _)) by lia. pose proof (Z.mod_pos_bound (Z.of_nat i * 3) 65536).
  split; [|done]. unfold InputEvent.wf, is_u8, is_u16, is_i16; cbn; repeat split; lia.
Qed.

Lemma event_wire i : Z.of_nat i < 65536 ->
  let b := InputEvent.encode (make_event (Z.of_nat i)) in
  InputEvent.decode b = Ok (make_event (Z.of_nat i)) /\ message_ok b.
Proof.
  intros Hi. destruct (make_event_wf i Hi) as [Hw _].
  destruct (wire_roundtrip (H := input_codec) _ [] Hw) as (b & Eb & Hl & _ & Hd). injection Eb as <-. rewrite app_nil_r in Hd.
  cbn zeta. split; [exact Hd|]. unfold message_ok. cbn [wire_len input_codec] in Hl. rewrite Hl. done.
Qed.

Lemma event_frames_S i n : event_frames i (S n) = event_frame i ++ event_frames (S i) n.
Proof. done. Qed.

Section Loops.
Context {SS RS : Type} `{SL : SendStreamLaws SS} `{RL : RecvStreamLaws RS} (Hnf : never_fails SS) (event_count : Z).
Implicit Types c : ReliableChannel SS RS.

(** Sending leaves the receive stream alone. *)
Lemma send_event c i : Z.of_nat i < 65536 ->
  exists c', reliable_send c (InputEvent.encode (make_event (Z.of_nat i))) = (c', Ok tt) /\
    written (rc_send c') = written (rc_send c) ++ event_frame i /\ rc_recv c' = rc_recv c.
Proof using SL Hnf.
  intros Hi. destruct (event_wire i Hi) as [_ Hm].
  destruct (reliable_send_writes c _ Hm) as (c' & r & t & E & Hw & _ & Ht & _ & Hr & _ & Hn).
  specialize (Hn Hnf). subst r. rewrite (Ht eq_refl) in Hw. by exists c'.
Qed.

Lemma timed_recv_event i received c rest : Z.of_nat i < 65536 -> to_come (rc_recv c) = event_frame i ++ rest ->
  exists r', timed_recv event_count false received c = (with_recv c r', Ok (InputEvent.encode (make_event (Z.of_nat i)))) /\
    to_come r' = rest.
Proof using RL.
  intros Hi Hd. unfold timed_recv. destruct (reliable_recv_frame c _ rest (proj2 (event_wire i Hi)) Hd) as (r' & -> & Hr & _).
  by exists r'.
Qed.

(** The host reads the events, injects them in order and writes them back. *)
Lemma host_loop_echoes n k c inj acc rest : Z.of_nat (k + n) <= 65536 ->
  to_come (rc_recv c) = event_frames k n ++ rest ->
  exists c' inj', host_loop event_count n never k c inj acc = (c', inj', Ok (acc ++ map Z.of_nat (seq k n))) /\
    written (rc_send c') = written (rc_send c) ++ event_frames k n /\
    rec_events inj' = rec_events inj ++ map (fun i => make_event (Z.of_nat i)) (seq k n).
Proof using SL RL Hnf.
  revert k c inj acc. induction n as [|n IH]; intros k c inj acc Hk Hd.
  { exists c, inj. cbn. by rewrite !app_nil_r. }
  rewrite event_frames_S, <- app_assoc in Hd. cbn [host_loop]. unfold never at 1.
  destruct (timed_recv_event k (Z.of_nat (length acc)) c _ ltac:(lia) Hd) as (r' & -> & Hr).
  destruct (event_wire k ltac:(lia)) as [-> Hm].
  cbn [inject recording_injector]. set (c1 := with_recv c _).
  destruct (send_event c1 k ltac:(lia)) as (c2 & E2 & Hw2 & Hd2). rewrite E2.
  destruct (IH (S k) c2 {| rec_events := rec_events inj ++ [make_event (Z.of_nat k)] |} (acc ++ [InputEvent.pointer_x (make_event (Z.of_nat k))]))
    as (c' & inj' & -> & Hw & He); [lia|by rewrite Hd2|].
  exists c', inj'. rewrite Hw, He, Hw2. cbn [seq map rec_events]. rewrite (proj2 (make_event_wf k ltac:(lia))), event_frames_S.
  by rewrite <- !app_assoc.
Qed.

(** The client writes the events and reads their echoes. *)
Lemma client_loop_measures clock n i c acc rest : Z.of_nat (i + n) <= 65536 ->
  to_come (rc_recv c) = event_frames i n ++ rest ->
  exists c' ms, client_rtt_loop event_count n never clock i c acc = (c', Ok (acc ++ ms)) /\
    written (rc_send c') = written (rc_send c) ++ event_frames i n /\ map event_idx ms = map Z.of_nat (seq i n).
Proof using SL RL Hnf.
  revert i c acc. induction n as [|n IH]; intros i c acc Hi Hd.
  { exists c, []. cbn. by rewrite !app_nil_r. }
  rewrite event_frames_S, <- app_assoc in Hd. cbn [client_rtt_loop]. cbn zeta. destruct (clock i) as [t0 t1] eqn:Ec.
  destruct (event_wire i ltac:(lia)) as [Hdec Hm].
  destruct (send_event c i ltac:(lia)) as (c1 & E1 & Hw1 & Hd1). rewrite E1. unfold never at 1. rewrite <- Hd1 in Hd.
  destruct (timed_recv_event i (Z.of_nat i) c1 _ ltac:(lia) Hd) as (r' & -> & Hr).
  rewrite Hdec. set (c2 := with_recv c1 _). set (m := {| event_idx := _ |}).
  destruct (IH (S i) c2 (acc ++ [m])) as (c' & ms & E & Hw & Hms); [lia|done|].
  exists c', (m :: ms). rewrite E, Hw. cbn [rc_send with_recv c2]. rewrite Hw1, event_frames_S, <- !app_assoc.
  split; [done|]. split; [done|]. cbn [map seq]. rewrite Hms. subst m. cbn [event_idx]. by rewrite (proj2 (make_event_wf i ltac:(lia))).
Qed.
End Loops.

Lemma injected_in_order_seq n : injected_in_order (Z.of_nat n) (map Z.of_nat (seq 0 n)) = true.
Proof.
  unfold injected_in_order. rewrite length_map, length_seq, Z.eqb_refl. cbn [andb]. apply forallb_forall. intros [e g] Hin.
  apply list_elem_of_In, list_elem_of_lookup in Hin as [j Hj]. apply lookup_zip_with_Some in Hj as (x & y & [= <- <-] & Hx & Hy).
  rewrite list_lookup_fmap, Hx in Hy. injection Hy as <-. apply Z.eqb_refl.
Qed.

(** The harness over streams that do not fail and carry what is written: the client's stream is
    what the host accepts and reads, the host's echoes are what the client reads, and the report
    counts every event, sent, injected in order and echoed. *)
Lemma input_rtt_ordered `{SL : SendStreamLaws SS} `{RL : RecvStreamLaws RS} event_count clock (s1 s2 : SS) (client_end host_end : RS) :
  never_fails SS -> 1 <= event_count <= 65536 -> written s1 = [] -> written s2 = [] ->
  let n := Z.to_nat event_count in
  to_come client_end = event_frames 0 n ->
  exists client client' ms,
    open_channel (Ok (s1, client_end)) spec_input = Ok (QReliable client) /\
    client_rtt_loop event_count n never clock 0 client [] = (client', Ok ms) /\
    (to_come host_end = written (rc_send client') ->
     exists host host' injector' report,
       accept_channel (Ok (s2, host_end)) = Ok host /\
       host_loop event_count n never 0 host recording_injector_new [] = (host', injector', Ok (map Z.of_nat (seq 0 n))) /\
       written (rc_send host') = to_come client_end /\
       rec_events injector' = map (fun i => make_event (Z.of_nat i)) (seq 0 n) /\
       run_input_rtt_harness event_count (Ok tt) false (Some (host_task event_count never (Ok host)))
         (Some (client_task event_count never clock (Ok client))) = Ok report /\
       events_echoed report = event_count /\ all_injected_in_order report = true /\
       map event_idx (rtt_measurements report) = map Z.of_nat (seq 0 n)).
Proof.
  intros Hnf Hn Hw1 Hw2. cbn zeta. set (n := Z.to_nat event_count). assert (Z.of_nat n = event_count) as En by lia. intros Hce.
  destruct (open_channel_writes spec_input s1 client_end eq_refl Hw1) as [Hopen Hlive]. destruct (Hlive Hnf) as [client Hc].
  destruct (Hopen client Hc) as (Hwc & Hrc & _).
  destruct (client_loop_measures Hnf event_count clock n 0 client [] []) as (client' & ms & Ec & Hw & Hms); [lia|by rewrite app_nil_r, Hrc|].
  cbn [app] in Ec. rewrite Hwc in Hw. exists client, client', ms. split; [done|]. split; [done|]. intros Hhe. rewrite Hw in Hhe.
  destruct (accept_channel_reads spec_input s2 host_end _ eq_refl Hhe) as (r' & Ha & Hr' & _). set (host := Build_ReliableChannel _ _ s2 _ _) in Ha.
  destruct (host_loop_echoes Hnf event_count n 0 host recording_injector_new [] []) as (host' & inj' & Eh & Hwh & Hi);
    [lia|by cbn; rewrite Hr', app_nil_r|].
  exists host, host', inj', (rtt_report event_count (map Z.of_nat (seq 0 n)) ms).
  assert (length ms = n) as Hl by (rewrite <- (length_map event_idx), Hms, length_map; apply length_seq).
  assert (run_input_rtt_harness event_count (Ok tt) false (Some (host_task event_count never (Ok host)))
    (Some (client_task event_count never clock (Ok client))) = Ok (rtt_report event_count (map Z.of_nat (seq 0 n)) ms)) as Hrun.
  { unfold run_input_rtt_harness. rewrite (proj2 (Z.ltb_ge _ _)), (proj2 (Z.eqb_neq _ _)) by lia.
    unfold host_task, client_task. cbn [map_err]. fold n. rewrite Eh, Ec. done. }
  assert (rtt_measurements (rtt_report event_count (map Z.of_nat (seq 0 n)) ms) = ms /\
    events_echoed (rtt_report event_count (map Z.of_nat (seq 0 n)) ms) = event_count /\
    all_injected_in_order (rtt_report event_count (map Z.of_nat (seq 0 n)) ms) = true) as (R1 & R2 & R3).
  { unfold rtt_report. destruct (percentiles _) as [[[? ?] ?] ?]. cbn. rewrite Hl, <- En. split_and!; [done|done|]. apply injected_in_order_seq. }
  rewrite R1, Hce. split_and!; try done. cbn in Hwh. by rewrite Hwh, Hw2.
Qed.

(** Refusals: too many events, a stream that ends early, an answer that does not decode. *)
Lemma rtt_failures :
  (forall host client, run_input_rtt_harness 65537 (Ok tt) false host client = Err (IrTooManyEvents 65537)) /\
  (forall host client, run_input_rtt_harness 0 (Err IrTimeout) false host client = Ok empty_report) /\
  let ch d := {| rc_send := fresh_send; rc_recv := finished d; rc_spec := spec_input |} in
  host_task 2 never (Ok (ch (event_frame 0))) = Err (IrIncompleteStream 1 2) /\
  is_ok (client_task 1 never (fun _ => (0, 5)) (Ok (ch (frame_of [1; 2; 3])))) = false.
Proof. repeat split; reflexivity. Qed.
