(* ===== verification/Classifier.v ===== *)
(** * sh-adaptive: content classification

    [crates/sh-adaptive/src/classifier.rs]: four signals in [f64] are weighted to a score in
    [0, 1], and a state machine with dwell counters turns scores into a content mode.  A
    [clamp] between constant bounds is total; [clamp_unit] is its value. *)

From stdpp Require Import base numbers list option.
From S2P Require Import Prelude Float64.

Definition WEIGHT_A : f64 := f_lit 45 100.
Definition WEIGHT_B : f64 := f_lit 30 100.
Definition WEIGHT_C : f64 := f_lit 15 100.
Definition WEIGHT_D : f64 := f_lit 10 100.
Definition GAME_ENTER_THRESHOLD : f64 := f_lit 65 100.
Definition GAME_EXIT_THRESHOLD : f64 := f_lit 40 100.
Definition GAME_ENTER_DWELL : Z := 8.
Definition GAME_EXIT_DWELL : Z := 30.
Definition SCROLL_ENTER_THRESHOLD : f64 := f_lit 35 100.
Definition SCROLL_EXIT_THRESHOLD : f64 := f_lit 25 100.
Definition SCROLL_ENTER_DWELL : Z := 4.
Definition SCROLL_EXIT_DWELL : Z := 10.
Definition CURSOR_VELOCITY_MAX_PX_S : f64 := f_of_Z 2000.

Inductive AppClass := AppWork | AppMedia | AppGame.

Definition to_signal_c (a : AppClass) : f64 :=
  match a with AppWork => f_zero | AppMedia => f_lit 5 10 | AppGame => f_one end.

Record Signals := { sig_a : f64; sig_b : f64; sig_c : f64; sig_d : f64 }.

(** [clamp_signal] and [Score::new]: NaN counts as zero, the rest is clamped to [0, 1];
    [None] where [f64::clamp] would panic. *)
Definition clamp_unit (v : f64) : option f64 :=
  if is_nan v then Some f_zero else f_clamp v f_zero f_one.

Definition signals_new (a b c d : f64) : option Signals :=
  a ← clamp_unit a; b ← clamp_unit b; c ← clamp_unit c; d ← clamp_unit d;
  Some {| sig_a := a; sig_b := b; sig_c := c; sig_d := d |}.

Definition signals_from_raw (mb_diff_fraction dirty_rect_fraction : f64) (app_class : AppClass)
    (fullscreen_exclusive : bool) (cursor_velocity_px_s : f64) : option Signals :=
  let c := if fullscreen_exclusive then f_one else to_signal_c app_class in
  d ← clamp_unit (f_div cursor_velocity_px_s CURSOR_VELOCITY_MAX_PX_S);
  signals_new mb_diff_fraction dirty_rect_fraction c d.

Class ScoreProvider (P : Type) := score : P -> Signals -> option f64.

Inductive HeuristicScoreProvider := Heuristic.

#[global] Instance heuristic_score : ScoreProvider HeuristicScoreProvider := fun _ s =>
  clamp_unit (f_add (f_add (f_add (f_mul WEIGHT_A (sig_a s)) (f_mul WEIGHT_B (sig_b s)))
                           (f_mul WEIGHT_C (sig_c s))) (f_mul WEIGHT_D (sig_d s))).

Inductive ContentMode := Work | Scrolling | Game.

#[global] Instance ContentMode_eq_dec : EqDecision ContentMode.
Proof. solve_decision. Defined.

Inductive FsmState :=
| FsmWork (scroll_counter : Z)
| FsmWorkToGame (counter : Z)
| FsmScrolling (game_counter exit_counter : Z)
| FsmGame (exit_counter : Z).

Definition fsm_mode (s : FsmState) : ContentMode :=
  match s with
  | FsmWork _ | FsmWorkToGame _ => Work
  | FsmScrolling _ _ => Scrolling
  | FsmGame _ => Game
  end.

Definition fsm_advance (state : FsmState) (score : f64) : FsmState :=
  match state with
  | FsmWork scroll_counter =>
      if f_lt GAME_ENTER_THRESHOLD score then FsmWorkToGame 1
      else if f_lt SCROLL_ENTER_THRESHOLD score then
        let next := sat_add u32_max scroll_counter 1 in
        if SCROLL_ENTER_DWELL <=? next then FsmScrolling 0 0 else FsmWork next
      else FsmWork 0
  | FsmWorkToGame counter =>
      if f_lt GAME_ENTER_THRESHOLD score then
        let next := sat_add u32_max counter 1 in
        if GAME_ENTER_DWELL <=? next then FsmGame 0 else FsmWorkToGame next
      else if f_lt SCROLL_ENTER_THRESHOLD score then FsmWork 1 else FsmWork 0
  | FsmScrolling game_counter exit_counter =>
      if f_lt GAME_ENTER_THRESHOLD score then
        let next_gc := sat_add u32_max game_counter 1 in
        if GAME_ENTER_DWELL <=? next_gc then FsmGame 0 else FsmScrolling next_gc 0
      else if f_lt score SCROLL_EXIT_THRESHOLD then
        let next_ec := sat_add u32_max exit_counter 1 in
        if SCROLL_EXIT_DWELL <=? next_ec then FsmWork 0 else FsmScrolling 0 next_ec
      else FsmScrolling 0 0
  | FsmGame exit_counter =>
      if f_lt score GAME_EXIT_THRESHOLD then
        let next := sat_add u32_max exit_counter 1 in
        if GAME_EXIT_DWELL <=? next then FsmWork 0 else FsmGame next
      else FsmGame 0
  end.

(** The classifier: its provider and its state. *)
Record ContentClassifier (P : Type) := { provider : P; fsm : FsmState }.
Arguments provider {P} _.
Arguments fsm {P} _.

Section Classifier.
Context {P : Type} `{SP : ScoreProvider P}.

Definition classifier_new (p : P) : ContentClassifier P := {| provider := p; fsm := FsmWork 0 |}.

Definition on_tick (c : ContentClassifier P) (signals : Signals)
    : option (ContentClassifier P * ContentMode) :=
  s ← score (provider c) signals;
  let st := fsm_advance (fsm c) s in
  Some ({| provider := provider c; fsm := st |}, fsm_mode st).

Definition current_mode (c : ContentClassifier P) : ContentMode := fsm_mode (fsm c).
End Classifier.

#[local] Opaque f_lit.

(** ** Hysteresis

    [hist] are the scores so far, newest first. *)

Definition in_band (b : f64 -> bool) (n : Z) (hist : list f64) : Prop :=
  0 <= n <= Z.of_nat (length hist) /\ Forall (fun s => b s = true) (take (Z.to_nat n) hist).

Definition game_band (s : f64) : bool := f_lt GAME_ENTER_THRESHOLD s.
Definition scroll_band (s : f64) : bool :=
  negb (f_lt GAME_ENTER_THRESHOLD s) && f_lt SCROLL_ENTER_THRESHOLD s.
Definition scroll_exit_band (s : f64) : bool := f_lt s SCROLL_EXIT_THRESHOLD.
Definition game_exit_band (s : f64) : bool := f_lt s GAME_EXIT_THRESHOLD.

Lemma in_band_0 b hist : in_band b 0 hist.
Proof. split; [lia|constructor]. Qed.

Lemma in_band_cons b n s hist : in_band b n hist -> b s = true -> in_band b (n + 1) (s :: hist).
Proof.
  intros [Hn Hf] Hs. split; [cbn; lia|]. rewrite Z2Nat.inj_add by lia. change (Z.to_nat 1) with 1%nat.
  rewrite Nat.add_1_r. by constructor.
Qed.

(** The counters count the newest scores in the band of the pending change. *)
Definition fsm_inv (hist : list f64) (st : FsmState) : Prop :=
  match st with
  | FsmWork c => c < SCROLL_ENTER_DWELL /\ in_band scroll_band c hist
  | FsmWorkToGame c => c < GAME_ENTER_DWELL /\ in_band game_band c hist
  | FsmScrolling g e =>
      g < GAME_ENTER_DWELL /\ in_band game_band g hist /\
      e < SCROLL_EXIT_DWELL /\ in_band scroll_exit_band e hist /\ (g = 0 \/ e = 0)
  | FsmGame e => e < GAME_EXIT_DWELL /\ in_band game_exit_band e hist
  end.

(** What a change of mode needs: so many newest scores in such a band. *)
Definition change_needs (m m' : ContentMode) : option (Z * (f64 -> bool)) :=
  match m, m' with
  | Work, Scrolling => Some (SCROLL_ENTER_DWELL, scroll_band)
  | Work, Game | Scrolling, Game => Some (GAME_ENTER_DWELL, game_band)
  | Scrolling, Work => Some (SCROLL_EXIT_DWELL, scroll_exit_band)
  | Game, Work => Some (GAME_EXIT_DWELL, game_exit_band)
  | _, _ => None
  end.

Definition change_ok (hist : list f64) (m m' : ContentMode) : Prop :=
  m = m' \/ exists n b, change_needs m m' = Some (n, b) /\ in_band b n hist.

Lemma sat_add_small c : 0 <= c < 100 -> sat_add u32_max c 1 = c + 1.
Proof. unfold sat_add, u32_max. lia. Qed.

Ltac dwell :=
  cbn [fsm_inv]; unfold SCROLL_ENTER_DWELL, GAME_ENTER_DWELL, SCROLL_EXIT_DWELL, GAME_EXIT_DWELL in *; lia.

Lemma fsm_step hist st s :
  fsm_inv hist st ->
  fsm_inv (s :: hist) (fsm_advance st s) /\
  change_ok (s :: hist) (fsm_mode st) (fsm_mode (fsm_advance st s)).
Proof.
  pose proof (in_band_0 scroll_band (s :: hist)) as Z1. pose proof (in_band_0 game_band (s :: hist)) as Z2.
  pose proof (in_band_0 scroll_exit_band (s :: hist)) as Z3. pose proof (in_band_0 game_exit_band (s :: hist)) as Z4.
  destruct st as [c|c|g e|e]; cbn [fsm_inv fsm_advance].
  - intros [Hc Hb]. pose proof (proj1 Hb). unfold SCROLL_ENTER_DWELL in *. rewrite sat_add_small by lia.
    destruct (f_lt GAME_ENTER_THRESHOLD s) eqn:Eg.
    { split; [|by left]. split; [done|]. by apply (in_band_cons game_band 0 s hist (in_band_0 _ _)). }
    destruct (f_lt SCROLL_ENTER_THRESHOLD s) eqn:Es; [|by split; [split|left]].
    assert (in_band scroll_band (c + 1) (s :: hist)) as H1.
    { apply in_band_cons; [done|]. unfold scroll_band. by rewrite Eg, Es. }
    case_match; simplify_bool; [|by split; [split; [dwell|]|left]].
    split; [by split_and!; [..|left]|]. right. exists 4, scroll_band. split; [done|]. by replace 4 with (c + 1) by lia.
  - intros [Hc Hb]. pose proof (proj1 Hb). unfold GAME_ENTER_DWELL in *. rewrite sat_add_small by lia.
    destruct (f_lt GAME_ENTER_THRESHOLD s) eqn:Eg.
    + assert (in_band game_band (c + 1) (s :: hist)) as H1 by (by apply in_band_cons).
      case_match; simplify_bool; [|by split; [split; [dwell|]|left]].
      split; [by split|]. right. exists 8, game_band. split; [done|]. by replace 8 with (c + 1) by lia.
    + destruct (f_lt SCROLL_ENTER_THRESHOLD s) eqn:Es; split; try (by left); [|by split]. split; [done|].
      apply (in_band_cons scroll_band 0 s hist (in_band_0 _ _)). unfold scroll_band. by rewrite Eg, Es.
  - intros (Hg & Hgb & He & Heb & _). pose proof (proj1 Hgb). pose proof (proj1 Heb).
    unfold GAME_ENTER_DWELL, SCROLL_EXIT_DWELL in *. rewrite !sat_add_small by lia.
    destruct (f_lt GAME_ENTER_THRESHOLD s) eqn:Eg.
    { assert (in_band game_band (g + 1) (s :: hist)) as H1 by (by apply in_band_cons).
      case_match; simplify_bool; [|by split; [split_and!; [dwell|..|right]|left]].
      split; [by split|]. right. exists 8, game_band. split; [done|]. by replace 8 with (g + 1) by lia. }
    destruct (f_lt s SCROLL_EXIT_THRESHOLD) eqn:Es; [|by split; [split_and!; [..|left]|left]].
    assert (in_band scroll_exit_band (e + 1) (s :: hist)) as H1 by (by apply in_band_cons).
    case_match; simplify_bool; [|by split; [split_and!; [| |dwell| |left]|left]].
    split; [by split|]. right. exists 10, scroll_exit_band. split; [done|]. by replace 10 with (e + 1) by lia.
  - intros [He Heb]. pose proof (proj1 Heb). unfold GAME_EXIT_DWELL in *. rewrite sat_add_small by lia.
    destruct (f_lt s GAME_EXIT_THRESHOLD) eqn:Es; [|by split; [split|left]].
    assert (in_band game_exit_band (e + 1) (s :: hist)) as H1 by (by apply in_band_cons).
    case_match; simplify_bool; [|by split; [split; [dwell|]|left]].
    split; [by split|]. right. exists 30, game_exit_band. split; [done|]. by replace 30 with (e + 1) by lia.
Qed.

Lemma clamp_unit_ok v : exists s, clamp_unit v = Some s /\
  is_nan s = false /\ f_le f_zero s = true /\ f_le s f_one = true.
Proof.
  unfold clamp_unit. destruct (is_nan v) eqn:E; [by exists f_zero|].
  destruct (f_clamp v f_zero f_one) as [s|] eqn:Ec; [|done]. exists s. split; [done|].
  by apply (f_clamp_bounds v f_zero f_one s).
Qed.

(** The modes and scores of a run over arbitrary signals. *)
Fixpoint classify (c : ContentClassifier HeuristicScoreProvider) (ticks : list Signals)
    : option (list (f64 * ContentMode)) :=
  match ticks with
  | [] => Some []
  | s :: ticks =>
      sc ← score (provider c) s;
      '(c', m) ← on_tick c s;
      rest ← classify c' ticks;
      Some ((sc, m) :: rest)
  end.

(** [log] newest last, after the scores [hist] and in mode [m]. *)
Fixpoint dwell_respected (hist : list f64) (m : ContentMode) (log : list (f64 * ContentMode)) : Prop :=
  match log with
  | [] => True
  | (s, m') :: log =>
      f_le f_zero s = true /\ f_le s f_one = true /\
      change_ok (s :: hist) m m' /\ dwell_respected (s :: hist) m' log
  end.

Lemma classify_dwell hist c ticks :
  fsm_inv hist (fsm c) ->
  exists log, classify c ticks = Some log /\ length log = length ticks /\
    dwell_respected hist (current_mode c) log.
Proof.
  revert hist c. induction ticks as [|s ticks IH]; intros hist c Hi; [by exists []|].
  cbn [classify]. unfold on_tick. destruct (clamp_unit_ok (f_add (f_add (f_add (f_mul WEIGHT_A (sig_a s))
    (f_mul WEIGHT_B (sig_b s))) (f_mul WEIGHT_C (sig_c s))) (f_mul WEIGHT_D (sig_d s)))) as (sc & Es & _ & H0 & H1).
  unfold score, heuristic_score. rewrite Es. cbn [mbind option_bind].
  destruct (fsm_step hist (fsm c) sc Hi) as [Hi' Hc].
  destruct (IH (sc :: hist) {| provider := provider c; fsm := fsm_advance (fsm c) sc |} Hi') as (log & -> & Hl & Hd).
  eexists. split; [reflexivity|]. split; [cbn; lia|]. by split_and!.
Qed.

(** Classification is total and does not flap: whatever the four signals (NaN and
    infinities included), every tick yields a score in [0, 1] and a mode, and a mode changes
    only along the five allowed transitions and only when the newest scores, 8 to enter game
    mode, 30 to leave it, 4 to enter and 10 to leave scrolling, were all in the band of that
    transition. *)
Lemma mode_changes_need_dwell ticks :
  exists log, classify (classifier_new Heuristic) ticks = Some log /\ length log = length ticks /\
    dwell_respected [] Work log.
Proof. apply (classify_dwell [] (classifier_new Heuristic)). split; [done|apply in_band_0]. Qed.
