(* ===== verification/ModeSwitch.v ===== *)
(** * sh-codec-hw: the double-buffered encoder switch

    crates/sh-codec-hw/src/mode_switch.rs, and [ContentMode] of
    crates/sh-adaptive/src/classifier.rs.  The limiter's semaphore is shared by every encoder
    of the process, so it is threaded through all operations; a [SessionGuard] is the permit an
    encoder holds, and dropping it gives the permit back. *)

From stdpp Require Import base numbers list option.
From S2P Require Import Prelude ShpHeaders Packetize Media Classifier.

Inductive ModeSwitchError :=
| NoSessionAvailable (limit active : Z)
| FactoryError (e : MediaError).

Record SwitchOutcome := {
  tail_packets : list EncodedPacket;
  flush_error : option MediaError;
}.

(** ** The session limiter *)

Record SessionLimiter := { available_permits : Z; max_sessions : Z }.

Definition limiter_new (max : Z) : SessionLimiter :=
  {| available_permits := max; max_sessions := max |}.

(** [try_acquire_owned]: a permit leaves the semaphore, or there is none. *)
Definition try_acquire (l : SessionLimiter) : option SessionLimiter :=
  if 0 <? available_permits l
  then Some {| available_permits := available_permits l - 1; max_sessions := max_sessions l |}
  else None.

(** [drop] of a [SessionGuard]. *)
Definition release (l : SessionLimiter) : SessionLimiter :=
  {| available_permits := available_permits l + 1; max_sessions := max_sessions l |}.

Definition active_sessions (l : SessionLimiter) : Z :=
  let available := available_permits l mod 2 ^ 32 in
  sat_sub (max_sessions l) available.

(** ** Backpressure *)

Inductive BackpressurePolicy := DropOldest | SkipCurrent.

Definition for_mode (mode : ContentMode) : BackpressurePolicy :=
  match mode with
  | Game => DropOldest
  | Work => SkipCurrent
  | Scrolling => DropOldest
  end.

Section Encoder.
Context {E : Type} `{VE : VideoEncoder E}.

(** An [EncoderFactory] is an [FnMut]: a state and a call that may change it. *)
Context {F : Type} (factory_call : F -> EncoderConfig -> F * result MediaError E).

Record DoubleBufferedEncoder := {
  active : E;
  factory : F;
  current_mode : ContentMode;
  current_config : EncoderConfig;
}.

Definition dbe_new (l : SessionLimiter) (config : EncoderConfig) (mode : ContentMode) (f : F)
  : SessionLimiter * result ModeSwitchError DoubleBufferedEncoder :=
  match try_acquire l with
  | None => (l, Err (NoSessionAvailable (max_sessions l) (active_sessions l)))
  | Some l1 =>
      match factory_call f config with
      | (_, Err e) => (release l1, Err (FactoryError e))
      | (f, Ok encoder) =>
          (l1, Ok {| active := encoder; factory := f; current_mode := mode;
                     current_config := config |})
      end
  end.

Definition backpressure_policy (d : DoubleBufferedEncoder) : BackpressurePolicy :=
  for_mode (current_mode d).

Definition dbe_encode (d : DoubleBufferedEncoder) (frame : VideoFrame)
  : DoubleBufferedEncoder * result MediaError (option EncodedPacket) :=
  let '(e, res) := enc_encode (active d) frame in
  ({| active := e; factory := factory d; current_mode := current_mode d;
      current_config := current_config d |}, res).

Definition dbe_request_keyframe (d : DoubleBufferedEncoder) : DoubleBufferedEncoder :=
  {| active := enc_request_keyframe (active d); factory := factory d;
     current_mode := current_mode d; current_config := current_config d |}.

Definition request_mode (d : DoubleBufferedEncoder) (mode : ContentMode) : DoubleBufferedEncoder :=
  {| active := active d; factory := factory d; current_mode := mode;
     current_config := current_config d |}.

Definition switch_to (l : SessionLimiter) (d : DoubleBufferedEncoder)
    (new_config : EncoderConfig) (new_mode : ContentMode)
  : SessionLimiter * DoubleBufferedEncoder * result ModeSwitchError SwitchOutcome :=
  match try_acquire l with
  | None => (l, d, Err (NoSessionAvailable (max_sessions l) (active_sessions l)))
  | Some l1 =>
      match factory_call (factory d) new_config with
      | (f, Err err) =>
          (release l1,
           {| active := active d; factory := f; current_mode := current_mode d;
              current_config := current_config d |},
           Err (FactoryError err))
      | (f, Ok new_encoder) =>
          let new_encoder := enc_request_keyframe new_encoder in
          let old_encoder := active d in
          let d := {| active := new_encoder; factory := f; current_mode := new_mode;
                      current_config := new_config |} in
          let '(tail, ferr) := match (enc_flush old_encoder).2 with
                               | Ok pkts => (pkts, None)
                               | Err err => ([], Some err)
                               end in
          (release l1, d, Ok {| tail_packets := tail; flush_error := ferr |})
      end
  end.

(** ** A process: several encoders on one limiter *)

Record process := { limiter : SessionLimiter; encoders : list (option DoubleBufferedEncoder) }.

Inductive process_op :=
| OpNew (config : EncoderConfig) (mode : ContentMode) (f : F)
| OpSwitch (i : nat) (config : EncoderConfig) (mode : ContentMode)
| OpEncode (i : nat) (frame : VideoFrame)
| OpKeyframe (i : nat)
| OpMode (i : nat) (mode : ContentMode)
| OpDrop (i : nat).

Definition live_at (p : process) (i : nat) : option DoubleBufferedEncoder :=
  mjoin (encoders p !! i).

Definition put (p : process) (l : SessionLimiter) (i : nat) (d : option DoubleBufferedEncoder)
  : process := {| limiter := l; encoders := <[i := d]> (encoders p) |}.

Definition process_step (p : process) (o : process_op) : process :=
  match o with
  | OpNew config mode f =>
      match dbe_new (limiter p) config mode f with
      | (l, Ok d) => {| limiter := l; encoders := encoders p ++ [Some d] |}
      | (l, Err _) => {| limiter := l; encoders := encoders p |}
      end
  | OpSwitch i config mode =>
      match live_at p i with
      | Some d => let '(l, d, _) := switch_to (limiter p) d config mode in put p l i (Some d)
      | None => p
      end
  | OpEncode i frame =>
      match live_at p i with
      | Some d => put p (limiter p) i (Some (dbe_encode d frame).1)
      | None => p
      end
  | OpKeyframe i =>
      match live_at p i with
      | Some d => put p (limiter p) i (Some (dbe_request_keyframe d))
      | None => p
      end
  | OpMode i mode =>
      match live_at p i with
      | Some d => put p (limiter p) i (Some (request_mode d mode))
      | None => p
      end
  | OpDrop i =>
      match live_at p i with
      | Some _ => put p (release (limiter p)) i None
      | None => p
      end
  end.

Definition process_run (max : Z) (ops : list process_op) : process :=
  foldl process_step {| limiter := limiter_new max; encoders := [] |} ops.

Definition live (p : process) : Z := Z.of_nat (length (omap id (encoders p))).

(** Every permit is free or held by exactly one live encoder. *)
Definition slots_inv (max : Z) (p : process) : Prop :=
  max_sessions (limiter p) = max /\ 0 <= available_permits (limiter p) /\
  available_permits (limiter p) + live p = max.

Lemma omap_insert_length {A} (l : list (option A)) i a (x : option A) :
  l !! i = Some (Some a) ->
  (S (length (omap id (<[i := x]> l))) = length (omap id l) + length (option_list x))%nat.
Proof.
  revert i. induction l as [|y l IH]; intros [|i] H; [done|done| |].
  - cbn in H. injection H as ->. cbn. destruct x; cbn; lia.
  - specialize (IH i H). cbn [insert list_insert omap list_omap].
    destruct y as [y|]; [exact (f_equal S IH)|exact IH].
Qed.

Lemma live_put p l i d x :
  live_at p i = Some d -> live (put p l i x) = live p - 1 + Z.of_nat (length (option_list x)).
Proof.
  unfold live_at. intros H. destruct (encoders p !! i) as [[d0|]|] eqn:Hi; [|done|done].
  pose proof (omap_insert_length _ i d0 x Hi) as Hl. unfold live, put. cbn [encoders]. lia.
Qed.

Lemma try_acquire_spec l :
  match try_acquire l with
  | Some l1 => 0 < available_permits l /\ release l1 = l /\ max_sessions l1 = max_sessions l
  | None => available_permits l <= 0
  end.
Proof.
  unfold try_acquire, release. destruct (Z.ltb_spec 0 (available_permits l)); [|done].
  cbn. split_and!; [done| |done]. destruct l as [a m]; cbn. f_equal. lia.
Qed.

Lemma switch_to_limiter l d cfg mode : (switch_to l d cfg mode).1.1 = l.
Proof.
  unfold switch_to. pose proof (try_acquire_spec l) as H. destruct (try_acquire l) as [l1|]; [|done].
  destruct H as (_ & Hr & _). destruct (factory_call (factory d) cfg) as [f [e|err]]; cbn; [|done].
  by destruct (enc_flush (active d)).2.
Qed.

Lemma step_slots max p o : slots_inv max p -> slots_inv max (process_step p o).
Proof.
  intros (Hm & Ha & Hs). destruct o as [cfg mode f|i cfg mode|i fr|i|i mode|i]; cbn [process_step];
    [|destruct (live_at p i) as [d|] eqn:Hl; [|done]..].
  { unfold dbe_new. pose proof (try_acquire_spec (limiter p)) as Ht.
    destruct (try_acquire (limiter p)) as [l1|]; [|done]. destruct Ht as (Hpos & Hr & Hmax).
    destruct (factory_call f cfg) as [f' [e|err]]; [|by rewrite Hr].
    apply (f_equal available_permits) in Hr as Hr'. cbn in Hr'.
    unfold slots_inv, live in *. cbn [limiter encoders]. rewrite omap_app, length_app. cbn [omap list_omap id length].
    split_and!; lia. }
  { pose proof (switch_to_limiter (limiter p) d cfg mode) as Hsw.
    destruct (switch_to (limiter p) d cfg mode) as [[l d'] res]. cbn in Hsw. subst l.
    unfold slots_inv. rewrite (live_put _ _ _ d) by done. cbn. lia. }
  all: unfold slots_inv; rewrite (live_put _ _ _ d) by done; cbn; lia.
Qed.

Lemma run_slots max ops : 0 <= max -> slots_inv max (process_run max ops).
Proof.
  intros Hm. unfold process_run.
  assert (slots_inv max {| limiter := limiter_new max; encoders := [] |}) as Hi
    by (unfold slots_inv, live; cbn; lia).
  revert Hi. generalize ({| limiter := limiter_new max; encoders := [] |} : process).
  induction ops as [|o ops IH]; intros p Hp; cbn [foldl]; [done|]. by apply IH, step_slots.
Qed.

Lemma slots_active max p : is_u32 max -> slots_inv max p -> active_sessions (limiter p) = live p.
Proof.
  intros Hu (Hm & Ha & Hs). unfold active_sessions, sat_sub, is_u32 in *. unfold live in *.
  rewrite Hm, Z.mod_small by lia. lia.
Qed.

(** Encoder switching never leaks or loses a session: whatever encoders a process
    creates, switches, uses and drops on one limiter, the sessions counted as active are
    exactly the live encoders and never exceed the limit.  A switch keeps the count.  When it
    fails, the old encoder, its mode and its configuration are untouched, and the cause is
    that every slot is taken, or the factory's error.  When it succeeds, the active encoder is
    the factory's product with a keyframe requested before any frame reaches it, and the
    outcome carries the old encoder's drained packets, or its drain error. *)
Lemma mode_switch_keeps_sessions max ops i d config mode :
  is_u32 max -> live_at (process_run max ops) i = Some d ->
  let p := process_run max ops in
  let '(l', d', res) := switch_to (limiter p) d config mode in
  active_sessions (limiter p) = live p /\ live p <= max /\ l' = limiter p /\
  match res with
  | Ok out =>
      exists e, (factory_call (factory d) config).2 = Ok e /\
        active d' = enc_request_keyframe e /\ current_mode d' = mode /\
        current_config d' = config /\
        match (enc_flush (active d)).2 with
        | Ok pkts => tail_packets out = pkts /\ flush_error out = None
        | Err err => tail_packets out = [] /\ flush_error out = Some err
        end
  | Err e =>
      active d' = active d /\ current_mode d' = current_mode d /\
      current_config d' = current_config d /\
      (e = NoSessionAvailable max (live p) /\ live p = max \/
       exists err, e = FactoryError err /\ (factory_call (factory d) config).2 = Err err)
  end.
Proof.
  intros Hu Hl p. pose proof (run_slots max ops ltac:(unfold is_u32 in Hu; lia)) as Hinv. fold p in Hinv.
  pose proof (slots_active max p Hu Hinv) as Hact. destruct Hinv as (Hm & Ha & Hs).
  pose proof (switch_to_limiter (limiter p) d config mode) as Hlim.
  destruct (switch_to (limiter p) d config mode) as [[l' d'] res] eqn:Esw. cbn in Hlim.
  split_and!; [done|lia|done|]. unfold switch_to in Esw.
  pose proof (try_acquire_spec (limiter p)) as Ht. destruct (try_acquire (limiter p)) as [l1|].
  - destruct (factory_call (factory d) config) as [f [e|err]].
    + destruct ((enc_flush (active d)).2) as [pk|er]; injection Esw as <- <- <-; cbn; eauto 10.
    + injection Esw as <- <- <-. cbn. split_and!; [done..|]. right. eauto.
  - injection Esw as <- <- <-. rewrite Hact, Hm. split_and!; [done..|]. left. split; [done|lia].
Qed.
End Encoder.

(** ** The raw factory *)

Definition raw_encoder_factory (_ : ()) (_ : EncoderConfig) : () * result MediaError RawEncoder :=
  (tt, Ok raw_new).

Definition toy_config : EncoderConfig :=
  {| cfg_codec := Raw; cfg_resolution := {| width := 2; height := 1 |}; target_fps := 60;
     target_bitrate_kbps := None |}.

Definition toy_process_ops : list process_op :=
  [OpNew toy_config Work tt; OpNew toy_config Game tt; OpNew toy_config Game tt; OpDrop 1;
   OpSwitch 0 toy_config Game].

Lemma mode_switch_keeps_sessions_witness :
  let p := process_run raw_encoder_factory 2 toy_process_ops in
  active_sessions (limiter p) = 1 /\ live p = 1.
Proof.
  intros p. split; [|vm_compute; reflexivity].
  exact (proj1 (mode_switch_keeps_sessions raw_encoder_factory 2 toy_process_ops 0
    {| active := raw_new; factory := tt; current_mode := Game; current_config := toy_config |}
    toy_config Work ltac:(unfold is_u32; lia) eq_refl)).
Defined.
