(* ===== verification/Negotiation.v ===== *)
(** * sh-codec-hw: codec negotiation

    [crates/sh-codec-hw/src/negotiation.rs]: the capabilities of an endpoint, the ordered
    degradation ladder of codecs both endpoints support, the choice of the best rung and the
    step down after an encoder failure.  The Cargo feature [hevc] is the boolean argument of
    [from_compile_time]; without it the code cannot build [Commercial]. *)

From stdpp Require Import base numbers list option.
From S2P Require Import Prelude ShpWire ShpHeaders ShpCaps Classifier.

Inductive BuildFlavor := Oss | Commercial.

Definition from_compile_time (hevc : bool) : BuildFlavor := if hevc then Commercial else Oss.

Record CodecCapabilities := {
  cap_hw_encode_mask : Z;
  cap_hw_decode_mask : Z;
  cap_sw_h264_encode_available : bool;
  cap_is_apple : bool;
  cap_is_browser : bool;
}.

Definition from_wire (wire : CodecCapsPayload) : CodecCapabilities :=
  {| cap_hw_encode_mask := hw_encode_mask wire;
     cap_hw_decode_mask := hw_decode_mask wire;
     cap_sw_h264_encode_available := sw_h264_encode_available wire;
     cap_is_apple := is_apple wire;
     cap_is_browser := is_browser wire |}.

Definition to_wire_offer (c : CodecCapabilities) : CodecCapsPayload :=
  {| hw_encode_mask := cap_hw_encode_mask c;
     hw_decode_mask := cap_hw_decode_mask c;
     sw_h264_encode_available := cap_sw_h264_encode_available c;
     is_apple := cap_is_apple c;
     is_browser := cap_is_browser c;
     selected_codec := None |}.

Definition can_hw_encode (c : CodecCapabilities) (disc : Z) : bool :=
  Z.land (Z.shiftr (cap_hw_encode_mask c) disc) 1 =? 1.

Definition can_hw_decode (c : CodecCapabilities) (disc : Z) : bool :=
  Z.land (Z.shiftr (cap_hw_decode_mask c) disc) 1 =? 1.

Definition can_decode (c : CodecCapabilities) (disc : Z) : bool :=
  if can_hw_decode c disc then true else
  if cap_is_browser c && (disc =? CODEC_DISC_H264) then true else false.

Record CodecChoice := { choice_codec : Codec; hardware : bool; rate_limited : bool }.

#[global] Instance CodecChoice_eq_dec : EqDecision CodecChoice.
Proof. solve_decision. Defined.

Definition choice_hw (c : Codec) : CodecChoice :=
  {| choice_codec := c; hardware := true; rate_limited := false |}.

Definition choice_sw_h264 : CodecChoice :=
  {| choice_codec := H264; hardware := false; rate_limited := true |}.

Definition choice_to_discriminant (choice : CodecChoice) : Z :=
  match choice_codec choice with
  | H264 => CODEC_DISC_H264
  | H265 => CODEC_DISC_H265
  | Av1 => CODEC_DISC_AV1
  | Raw => 3
  end.

Definition candidate_rungs (mode : ContentMode) (flavor : BuildFlavor) : list CodecChoice :=
  match flavor, mode with
  | Commercial, _ => [choice_hw H265; choice_hw Av1; choice_hw H264]
  | Oss, (Game | Scrolling) => [choice_hw Av1; choice_hw H264; choice_sw_h264]
  | Oss, Work => [choice_hw Av1; choice_hw H264]
  end.

Definition rung_is_viable (candidate : CodecChoice) (local remote : CodecCapabilities) : bool :=
  let disc := choice_to_discriminant candidate in
  let local_can_encode :=
    if hardware candidate then
      if cap_is_apple local && (disc =? CODEC_DISC_AV1) then false else can_hw_encode local disc
    else (disc =? CODEC_DISC_H264) && cap_sw_h264_encode_available local in
  if negb local_can_encode then false else can_decode remote disc.

Definition ladder (local remote : CodecCapabilities) (mode : ContentMode) (flavor : BuildFlavor)
    : list CodecChoice :=
  fold_left (fun acc candidate =>
               if rung_is_viable candidate local remote then acc ++ [candidate] else acc)
            (candidate_rungs mode flavor) [].

Definition select (l : list CodecChoice) : option CodecChoice := head l.

Definition position (l : list CodecChoice) (current : CodecChoice) : option nat :=
  fst <$> list_find (fun r => r = current) l.

Definition degrade (current : CodecChoice) (l : list CodecChoice) : option CodecChoice :=
  pos ← position l current; l !! S pos.

(** ** The ladder is the filtered preference list, and degrading walks it *)

Lemma ladder_filter local remote mode flavor :
  ladder local remote mode flavor =
  filter (fun c => rung_is_viable c local remote = true) (candidate_rungs mode flavor).
Proof.
  unfold ladder. set (f := fun acc candidate => _).
  assert (forall l acc, fold_left f l acc =
    acc ++ filter (fun c => rung_is_viable c local remote = true) l) as ->; [|done].
  intros l. induction l as [|c l IH]; intros acc; cbn [fold_left].
  - by rewrite app_nil_r.
  - rewrite IH. unfold f. destruct (rung_is_viable c local remote) eqn:E.
    + rewrite filter_cons_True by done. by rewrite <- app_assoc.
    + rewrite filter_cons_False by (by rewrite E). done.
Qed.

Lemma candidate_rungs_NoDup mode flavor : NoDup (candidate_rungs mode flavor).
Proof. destruct mode, flavor; apply (bool_decide_unpack _); vm_compute; exact I. Qed.

Lemma ladder_NoDup local remote mode flavor : NoDup (ladder local remote mode flavor).
Proof. rewrite ladder_filter. apply list.NoDup_filter, candidate_rungs_NoDup. Qed.

Lemma degrade_next l i c : NoDup l -> l !! i = Some c -> degrade c l = l !! S i.
Proof.
  intros Hnd Hi. unfold degrade, position.
  assert (list_find (fun r => r = c) l = Some (i, c)) as ->; [|done].
  apply list_find_Some. split; [done|]. split; [done|].
  intros j y Hj Hlt ->. pose proof (NoDup_lookup _ _ _ _ Hnd Hj Hi). lia.
Qed.

(** The rung in use after [n] encoder failures. *)
Fixpoint after_failures (l : list CodecChoice) (n : nat) : option CodecChoice :=
  match n with
  | O => select l
  | S n' => c ← after_failures l n'; degrade c l
  end.

Lemma after_failures_lookup l n : NoDup l -> after_failures l n = l !! n.
Proof.
  intros Hnd. induction n as [|n IH]; [by destruct l|].
  cbn [after_failures]. rewrite IH. destruct (l !! n) as [c|] eqn:E; cbn [mbind option_bind].
  - by apply degrade_next.
  - symmetry. apply lookup_ge_None in E. apply lookup_ge_None. lia.
Qed.

(** What the two endpoints must offer for a rung, in terms of their masks. *)
Definition encodes (local : CodecCapabilities) (c : CodecChoice) : Prop :=
  if hardware c
  then Z.testbit (cap_hw_encode_mask local) (choice_to_discriminant c) = true /\
       ~ (cap_is_apple local = true /\ choice_codec c = Av1)
  else choice_codec c = H264 /\ cap_sw_h264_encode_available local = true.

Definition decodes (remote : CodecCapabilities) (c : CodecChoice) : Prop :=
  Z.testbit (cap_hw_decode_mask remote) (choice_to_discriminant c) = true \/
  (cap_is_browser remote = true /\ choice_codec c = H264).

Lemma rung_is_viable_iff c local remote :
  rung_is_viable c local remote = true <-> encodes local c /\ decodes remote c.
Proof.
  unfold rung_is_viable, can_decode, can_hw_encode, can_hw_decode, encodes, decodes.
  assert (0 <= choice_to_discriminant c) as Hd by (destruct c as [[] ? ?]; done).
  rewrite !land_shiftr_testbit by done.
  assert ((choice_to_discriminant c =? CODEC_DISC_AV1) = bool_decide (choice_codec c = Av1)) as ->
    by (destruct c as [[] ? ?]; done).
  assert ((choice_to_discriminant c =? CODEC_DISC_H264) = bool_decide (choice_codec c = H264)) as ->
    by (destruct c as [[] ? ?]; done).
  destruct (Z.testbit (cap_hw_encode_mask _) _), (Z.testbit (cap_hw_decode_mask _) _),
    (hardware c), (cap_is_apple local), (cap_is_browser remote), (cap_sw_h264_encode_available local);
    repeat case_bool_decide; cbn; intuition congruence.
Qed.

Definition caps_masks_ok (c : CodecCapabilities) : Prop :=
  mask_ok (cap_hw_encode_mask c) /\ mask_ok (cap_hw_decode_mask c).

(** Codec negotiation, from the offer on the wire to the last fallback: the host reads back
    the capabilities the peer sent; its ladder holds exactly the rungs of the preference list
    that it can encode and the peer can decode (never H.265 in an open-source build, never a
    software rung in work mode, never AV1 encoding on Apple), in preference order and without
    repetition; after [n] encoder failures the host is on rung [n], so every rung is tried
    once and a fourth failure ends the session. *)
Lemma codec_ladder_complete local remote mode hevc rest n c :
  caps_masks_ok remote ->
  exists offer, encode_caps (to_wire_offer remote) = Ok offer /\
    exists wire, decode_caps (offer ++ rest) = Ok wire /\
    let flavor := from_compile_time hevc in
    let l := ladder local (from_wire wire) mode flavor in
    l `sublist_of` candidate_rungs mode flavor /\ NoDup l /\
    (c ∈ l <-> c ∈ candidate_rungs mode flavor /\ encodes local c /\ decodes remote c) /\
    (c ∈ l -> (choice_codec c = H265 -> hevc = true) /\
              (hardware c = false -> mode <> Work /\ rate_limited c = true)) /\
    after_failures l n = l !! n /\ after_failures l 3 = None.
Proof.
  intros [He Hdm].
  assert (caps_ok (to_wire_offer remote)) as Hok by done.
  destruct (@wire_roundtrip _ caps_codec caps_codec_laws _ rest Hok) as (offer & Ho & _ & _ & Hw).
  exists offer. split; [done|]. exists (to_wire_offer remote). split; [done|]. cbv zeta.
  assert (from_wire (to_wire_offer remote) = remote) as -> by (by destruct remote).
  set (flavor := from_compile_time hevc). pose proof (ladder_NoDup local remote mode flavor) as Hnd.
  assert (forall c, c ∈ ladder local remote mode flavor <->
    c ∈ candidate_rungs mode flavor /\ encodes local c /\ decodes remote c) as Hin.
  { intros c'. rewrite ladder_filter, list_elem_of_filter, rung_is_viable_iff. tauto. }
  rewrite !after_failures_lookup by done. split_and!; try done.
  - rewrite ladder_filter. apply sublist_filter.
  - rewrite Hin. intros [Hc _]. subst flavor.
    revert c Hc. apply list.Forall_forall. destruct hevc, mode; repeat constructor; cbn; done.
  - apply lookup_ge_None. rewrite ladder_filter. etrans; [apply length_filter|].
    destruct mode, flavor; cbn; lia.
Qed.

(** A Mac host and a browser that advertises nothing: only hardware H.264 remains, through the
    browser exception, and after it the software encoder. *)
Definition toy_mac : CodecCapabilities :=
  {| cap_hw_encode_mask := 5; cap_hw_decode_mask := 7; cap_sw_h264_encode_available := true;
     cap_is_apple := true; cap_is_browser := false |}.
Definition toy_browser : CodecCapabilities :=
  {| cap_hw_encode_mask := 0; cap_hw_decode_mask := 0; cap_sw_h264_encode_available := false;
     cap_is_apple := false; cap_is_browser := true |}.

Lemma codec_ladder_complete_witness :
  ladder toy_mac toy_browser Game Oss = [choice_hw H264; choice_sw_h264] /\
  after_failures (ladder toy_mac toy_browser Game Oss) 1 = Some choice_sw_h264 /\
  (choice_hw H264 ∈ ladder toy_mac toy_browser Game Oss <->
   choice_hw H264 ∈ candidate_rungs Game Oss /\
   encodes toy_mac (choice_hw H264) /\ decodes toy_browser (choice_hw H264)).
Proof.
  assert (caps_masks_ok toy_browser) as Hm by (vm_compute; repeat split; discriminate || reflexivity).
  destruct (codec_ladder_complete toy_mac toy_browser Game false [9] 1 (choice_hw H264) Hm)
    as (offer & Ho & wire & Hw & _ & _ & Hin & _ & Hn & _).
  vm_compute in Ho. apply Ok_inj in Ho as <-. vm_compute in Hw. apply Ok_inj in Hw as <-.
  split; [vm_compute; reflexivity|]. split; [exact (eq_trans Hn eq_refl)|exact Hin].
Defined.
