(* ===== verification/AvSync.v ===== *)
(** * sh-media: audio/video synchronisation

    crates/sh-media/src/avsync.rs.  The reading of the injected monotonic clock is an argument
    of the two [present] operations. *)

From stdpp Require Import base numbers list option.
From S2P Require Import Prelude.

Record AvSync := {
  capture_epoch : option Z;
  local_epoch : option Z;
  last_video_capture_ts : option Z;
  last_audio_capture_ts : option Z;
}.

Definition avsync_new : AvSync :=
  {| capture_epoch := None; local_epoch := None; last_video_capture_ts := None;
     last_audio_capture_ts := None |}.

(** [i64::try_from(ts).unwrap_or(i64::MAX)] of a [u64]. *)
Definition ts_i64 (ts : Z) : Z := if ts <=? i64_max then ts else i64_max.

Definition playout_time (s : AvSync) (capture_ts_us now : Z) : AvSync * Z :=
  match capture_epoch s, local_epoch s with
  | Some cap_epoch, Some local =>
      let offset := i64_sat_sub (ts_i64 capture_ts_us) (ts_i64 cap_epoch) in
      (s, if 0 <=? offset then sat_add u64_max local offset else local)
  | _, _ =>
      ({| capture_epoch := Some capture_ts_us; local_epoch := Some now;
          last_video_capture_ts := last_video_capture_ts s;
          last_audio_capture_ts := last_audio_capture_ts s |}, now)
  end.

Definition present_video (s : AvSync) (capture_ts_us now : Z) : AvSync * Z :=
  playout_time {| capture_epoch := capture_epoch s; local_epoch := local_epoch s;
                  last_video_capture_ts := Some capture_ts_us;
                  last_audio_capture_ts := last_audio_capture_ts s |} capture_ts_us now.

Definition present_audio (s : AvSync) (capture_ts_us now : Z) : AvSync * Z :=
  playout_time {| capture_epoch := capture_epoch s; local_epoch := local_epoch s;
                  last_video_capture_ts := last_video_capture_ts s;
                  last_audio_capture_ts := Some capture_ts_us |} capture_ts_us now.

Definition skew_us (s : AvSync) : option Z :=
  v ← last_video_capture_ts s;
  a ← last_audio_capture_ts s;
  Some (i64_sat_sub (ts_i64 v) (ts_i64 a)).

Definition in_sync (s : AvSync) (tolerance_us : Z) : bool :=
  match skew_us s with
  | None => false
  | Some skew => Z.abs skew <=? tolerance_us
  end.

Definition MAX_HINT_US : Z := 500000.

(** Integer division of Rust truncates towards zero. *)
Definition audio_correction_hint_us (s : AvSync) : option Z :=
  skew ← skew_us s;
  let hint := Z.quot skew 2 in
  Some (Z.max (- MAX_HINT_US) (Z.min MAX_HINT_US hint)).

(** ** A session of presented frames *)

Inductive stream := VideoStream | AudioStream.

#[global] Instance stream_eq_dec : EqDecision stream.
Proof. solve_decision. Defined.

Definition present (s : AvSync) (f : stream * Z * Z) : AvSync * Z :=
  let '(st, ts, now) := f in
  match st with
  | VideoStream => present_video s ts now
  | AudioStream => present_audio s ts now
  end.

Fixpoint present_all (s : AvSync) (fs : list (stream * Z * Z)) : AvSync * list Z :=
  match fs with
  | [] => (s, [])
  | f :: fs =>
      let '(s, p) := present s f in
      let '(s, ps) := present_all s fs in
      (s, p :: ps)
  end.

(** The last capture time of a stream. *)
Definition last_of (st : stream) (acc : option Z) (fs : list (stream * Z * Z)) : option Z :=
  foldl (fun acc f => if decide (f.1.1 = st) then Some f.1.2 else acc) acc fs.

(** Timestamps that fit the signed range, as every clock that started this millennium. *)
Definition av_frame_ok (f : stream * Z * Z) : Prop :=
  let '(_, ts, now) := f in 0 <= ts <= i64_max /\ 0 <= now <= i64_max.

Definition anchored (cap local : Z) (s : AvSync) : Prop :=
  capture_epoch s = Some cap /\ local_epoch s = Some local.

Lemma ts_i64_small ts : 0 <= ts <= i64_max -> ts_i64 ts = ts.
Proof. intros. unfold ts_i64. destruct (Z.leb_spec ts i64_max); lia. Qed.

Lemma i64_sub_small a b : 0 <= a <= i64_max -> 0 <= b <= i64_max -> i64_sat_sub a b = a - b.
Proof. unfold i64_sat_sub, i64_clamp, i64_min, i64_max. lia. Qed.

(** Once anchored, a frame is scheduled at its distance from the epoch, and only the last
    timestamps change. *)
Lemma present_anchored cap local s f :
  anchored cap local s -> av_frame_ok f -> 0 <= cap <= i64_max -> 0 <= local <= i64_max ->
  anchored cap local (present s f).1 /\
  (present s f).2 = local + Z.max 0 (f.1.2 - cap).
Proof.
  destruct f as [[st ts] now]. intros [Hc Hl] [Hts Hn] ? ?. cbn [fst snd].
  assert (forall s', capture_epoch s' = Some cap -> local_epoch s' = Some local ->
    anchored cap local (playout_time s' ts now).1 /\
    (playout_time s' ts now).2 = local + Z.max 0 (ts - cap)) as Hp.
  { intros s' Hc' Hl'. unfold playout_time. rewrite Hc', Hl'.
    rewrite !ts_i64_small, i64_sub_small by done.
    destruct (Z.leb_spec 0 (ts - cap)); split; try done; cbn [snd].
    - unfold sat_add, u64_max, i64_max in *. lia.
    - lia. }
  destruct st; apply Hp; done.
Qed.

Lemma present_last s f :
  last_video_capture_ts (present s f).1 = last_of VideoStream (last_video_capture_ts s) [f] /\
  last_audio_capture_ts (present s f).1 = last_of AudioStream (last_audio_capture_ts s) [f].
Proof.
  destruct f as [[[] ts] now]; unfold present, present_video, present_audio, playout_time, last_of;
    cbn; destruct (capture_epoch s), (local_epoch s); cbn; repeat case_decide; done.
Qed.

Lemma present_all_cons s f fs :
  present_all s (f :: fs) =
  ((present_all (present s f).1 fs).1, (present s f).2 :: (present_all (present s f).1 fs).2).
Proof. cbn. destruct (present s f) as [s' p]. cbn. by destruct (present_all s' fs). Qed.

Lemma present_all_last s fs :
  last_video_capture_ts (present_all s fs).1 = last_of VideoStream (last_video_capture_ts s) fs /\
  last_audio_capture_ts (present_all s fs).1 = last_of AudioStream (last_audio_capture_ts s) fs.
Proof.
  revert s. induction fs as [|f fs IH]; intros; [done|].
  rewrite present_all_cons. cbn [fst]. destruct (IH (present s f).1) as [-> ->].
  destruct (present_last s f) as [-> ->]. done.
Qed.

Lemma present_all_anchored cap local s fs :
  anchored cap local s -> Forall av_frame_ok fs -> 0 <= cap <= i64_max -> 0 <= local <= i64_max ->
  (present_all s fs).2 = map (fun f => local + Z.max 0 (f.1.2 - cap)) fs.
Proof.
  intros Ha Hfs Hc Hl. revert s Ha. induction Hfs as [|f fs Hf _ IH]; intros s Ha; [done|].
  rewrite present_all_cons. cbn [snd map].
  destruct (present_anchored cap local s f Ha Hf Hc Hl) as [Ha' ->]. by rewrite IH.
Qed.

Lemma last_of_ok st acc fs ts :
  Forall av_frame_ok fs -> (forall t, acc = Some t -> 0 <= t <= i64_max) ->
  last_of st acc fs = Some ts -> 0 <= ts <= i64_max.
Proof.
  intros Hfs. revert acc. induction Hfs as [|[[st' t] n] fs [Ht _] _ IH]; intros acc Hacc; [by apply Hacc|].
  cbn. apply IH. case_decide; [by intros ? [= <-]|done].
Qed.

(** One timeline for both streams: whatever the order of the frames, the first one fixes
    the epoch and every frame is scheduled at its capture distance from it, frames from before
    the epoch immediately; the skew is the difference of the last capture times of the two
    streams, and the correction hint has its sign, at most half of it and at most 500 ms. *)
Lemma avsync_one_timeline st ts0 now0 fs :
  Forall av_frame_ok ((st, ts0, now0) :: fs) ->
  let '(s, playouts) := present_all avsync_new ((st, ts0, now0) :: fs) in
  playouts = map (fun f => now0 + Z.max 0 (f.1.2 - ts0)) ((st, ts0, now0) :: fs) /\
  skew_us s = (v ← last_of VideoStream None ((st, ts0, now0) :: fs);
               a ← last_of AudioStream None ((st, ts0, now0) :: fs);
               Some (v - a)) /\
  (forall skew, skew_us s = Some skew -> exists h, audio_correction_hint_us s = Some h /\
     Z.abs h <= MAX_HINT_US /\ 2 * Z.abs h <= Z.abs skew /\ 0 <= h * skew) /\
  (forall tol, in_sync s tol = true <-> exists skew, skew_us s = Some skew /\ Z.abs skew <= tol).
Proof.
  intros Hfs. destruct (present_all _ _) as [s playouts] eqn:E.
  assert (s = (present_all avsync_new ((st, ts0, now0) :: fs)).1) as Hs by (by rewrite E).
  assert (playouts = (present_all avsync_new ((st, ts0, now0) :: fs)).2) as Hp by (by rewrite E).
  split; [|split; [|split]].
  - apply Forall_cons_1 in Hfs as [[Ht Hn] Hfs']. rewrite Hp, present_all_cons. cbn [snd map].
    rewrite (present_all_anchored ts0 now0 _ fs) by (try done; by destruct st).
    f_equal. cbn. destruct st; cbn; lia.
  - destruct (present_all_last avsync_new ((st, ts0, now0) :: fs)) as [Hv Ha].
    rewrite <- Hs in Hv, Ha. cbn [last_video_capture_ts last_audio_capture_ts avsync_new] in Hv, Ha.
    unfold skew_us. rewrite Hv, Ha.
    destruct (last_of VideoStream None _) as [v|] eqn:Ev; [|done].
    destruct (last_of AudioStream None _) as [a|] eqn:Ea; [|done]. cbn [mbind option_bind].
    apply last_of_ok in Ev; [|done|done]. apply last_of_ok in Ea; [|done|done].
    by rewrite !ts_i64_small, i64_sub_small.
  - intros skew Hk. unfold audio_correction_hint_us. rewrite Hk. cbn [mbind option_bind].
    eexists. split; [done|]. unfold MAX_HINT_US. Z.quot_rem_to_equations. split_and!; nia.
  - intros tol. unfold in_sync. destruct (skew_us s) as [k|]; [|naive_solver].
    rewrite Z.leb_le. naive_solver.
Qed.

Lemma avsync_one_timeline_witness :
  (present_all avsync_new [(AudioStream, 1000, 50); (VideoStream, 900, 51); (VideoStream, 1400, 60)]).2
  = [50; 50; 450].
Proof.
  exact (proj1 (avsync_one_timeline AudioStream 1000 50 [(VideoStream, 900, 51); (VideoStream, 1400, 60)]
    ltac:(repeat constructor; vm_compute; discriminate))).
Defined.
