(* ===== verification/RateAllocator.v ===== *)
(** * sh-adaptive: the cross-channel rate allocator

    crates/sh-adaptive/src/allocator.rs: the send budget is dealt to the six channels in
    priority order.  The reference is a generic waterfall over a list of demands. *)

From stdpp Require Import base numbers list sets.
From S2P Require Import Prelude Types.
Import Types.Bitrate.

Record AllocatorConfig := {
  input_reserve : Bitrate.t;
  control_reserve : Bitrate.t;
  clipboard_reserve : Bitrate.t;
  audio_min : Bitrate.t;
  video_max : Bitrate.t;
}.

Definition allocator_default : AllocatorConfig :=
  {| input_reserve := from_kbps 32; control_reserve := from_kbps 32;
     clipboard_reserve := from_kbps 32; audio_min := from_kbps 96; video_max := from_mbps 20 |}.

Record ChannelAllocation := {
  a_input : Bitrate.t;
  a_control : Bitrate.t;
  a_clipboard : Bitrate.t;
  a_audio : Bitrate.t;
  a_video : Bitrate.t;
  a_file : Bitrate.t;
  a_total : Bitrate.t;
}.

Definition allocation_get (a : ChannelAllocation) (channel : ChannelId) : Bitrate.t :=
  match channel with
  | Input => a_input a
  | Control => a_control a
  | Clipboard => a_clipboard a
  | Audio => a_audio a
  | Video => a_video a
  | File => a_file a
  end.

Definition allocation_sum (a : ChannelAllocation) : Bitrate.t :=
  saturating_add (saturating_add (saturating_add (saturating_add (saturating_add
    (a_input a) (a_control a)) (a_clipboard a)) (a_audio a)) (a_video a)) (a_file a).

Definition allocate (c : AllocatorConfig) (total : Bitrate.t) : ChannelAllocation :=
  let remaining := total in
  let input := clamp (input_reserve c) ZERO remaining in
  let remaining := saturating_sub remaining input in
  let control := clamp (control_reserve c) ZERO remaining in
  let remaining := saturating_sub remaining control in
  let clipboard := clamp (clipboard_reserve c) ZERO remaining in
  let remaining := saturating_sub remaining clipboard in
  let audio := clamp (audio_min c) ZERO remaining in
  let remaining := saturating_sub remaining audio in
  let video := clamp remaining ZERO (video_max c) in
  let remaining := saturating_sub remaining video in
  let file := remaining in
  {| a_input := input; a_control := control; a_clipboard := clipboard; a_audio := audio;
     a_video := video; a_file := file; a_total := total |}.

(** ** Reference: a waterfall over demands *)

(** Each demand takes what it can of what the earlier ones left; the last entry is the
    remainder. *)
Fixpoint waterfall (budget : Z) (demands : list Z) : list Z :=
  match demands with
  | [] => [budget]
  | d :: ds => Z.min d budget :: waterfall (budget - Z.min d budget) ds
  end.

Definition PRIORITY : list ChannelId := [Input; Control; Clipboard; Audio; Video; File].

Definition demands (c : AllocatorConfig) : list Z :=
  map bps [input_reserve c; control_reserve c; clipboard_reserve c; audio_min c; video_max c].

Definition config_ok (c : AllocatorConfig) : Prop := Forall is_u64 (demands c).

Lemma waterfall_length budget ds : length (waterfall budget ds) = S (length ds).
Proof. revert budget. induction ds; intros; cbn; auto. Qed.

Lemma waterfall_sum budget ds : foldr Z.add 0 (waterfall budget ds) = budget.
Proof.
  revert budget. induction ds as [|d ds IH]; intros; cbn [waterfall foldr]; [lia|].
  rewrite IH. lia.
Qed.

Lemma waterfall_nonneg budget ds :
  0 <= budget -> Forall (fun d => 0 <= d) ds -> Forall (fun x => 0 <= x <= budget) (waterfall budget ds).
Proof.
  intros Hb Hds. revert budget Hb. induction Hds as [|d ds Hd _ IH]; intros; cbn [waterfall].
  - constructor; [lia|constructor].
  - constructor; [lia|]. eapply Forall_impl; [apply IH; lia|]. cbn. lia.
Qed.

(** A demand that is not met leaves nothing to any later one. *)
Lemma waterfall_priority budget ds i j x y d :
  0 <= budget -> Forall (fun d => 0 <= d) ds ->
  ds !! i = Some d -> waterfall budget ds !! i = Some x -> x < d ->
  (i < j)%nat -> waterfall budget ds !! j = Some y -> y = 0.
Proof.
  intros Hb Hds. revert budget Hb i j. induction Hds as [|d0 ds Hd0 Hds IH]; intros budget Hb i j; [done|].
  destruct j as [|j]; [lia|]. cbn [waterfall].
  destruct i as [|i]; cbn [lookup list_lookup].
  - intros [= ->] [= <-] Hlt _ Hy.
    replace (budget - d `min` budget) with 0 in Hy by lia.
    pose proof (waterfall_nonneg 0 ds ltac:(lia) Hds) as Hz.
    rewrite Forall_lookup in Hz. specialize (Hz _ _ Hy). lia.
  - intros Hd Hx Hlt Hij Hy. apply (IH (budget - d0 `min` budget)) with i j; auto; lia.
Qed.

(** More budget never takes from a channel. *)
Lemma waterfall_mono budget budget' ds :
  budget <= budget' -> Forall2 Z.le (waterfall budget ds) (waterfall budget' ds).
Proof.
  revert budget budget'. induction ds as [|d ds IH]; intros; cbn [waterfall].
  - by repeat constructor.
  - constructor; [lia|]. apply IH. lia.
Qed.

(** ** The allocator is the waterfall *)

Lemma clamp_zero d r : 0 <= bps d -> 0 <= bps r -> bps (clamp d ZERO r) = Z.min (bps d) (bps r).
Proof.
  intros. unfold clamp. cbn [bps ZERO].
  destruct (Z.ltb_spec (bps d) 0), (Z.ltb_spec (bps r) (bps d)); cbn [bps ZERO]; lia.
Qed.

(** One line of [allocate]: what is taken, and what remains. *)
Lemma deal_spec d r :
  0 <= bps d -> 0 <= bps r ->
  bps (clamp d ZERO r) = Z.min (bps d) (bps r) /\
  bps (saturating_sub r (clamp d ZERO r)) = bps r - Z.min (bps d) (bps r).
Proof.
  intros. rewrite clamp_zero by done. split; [done|]. cbn [bps saturating_sub].
  rewrite clamp_zero by done. unfold sat_sub. lia.
Qed.

Ltac deal d r x r' :=
  destruct (deal_spec d r) as [? ?]; [lia..|];
  set (x := clamp d ZERO r) in *; set (r' := saturating_sub r x) in *.

Lemma allocate_waterfall c total :
  config_ok c -> is_u64 (bps total) ->
  map (fun ch => bps (allocation_get (allocate c total) ch)) PRIORITY
  = waterfall (bps total) (demands c).
Proof.
  intros Hc Ht. unfold config_ok, demands in *. cbn [map] in *.
  rewrite !Forall_cons in Hc. destruct Hc as (Hi & Hk & Hl & Ha & Hv & _). unfold is_u64 in *.
  unfold allocate, PRIORITY. cbn [map allocation_get a_input a_control a_clipboard a_audio a_video a_file].
  deal (input_reserve c) total i r1. deal (control_reserve c) r1 k r2.
  deal (clipboard_reserve c) r2 l r3. deal (audio_min c) r3 a r4.
  pose proof (clamp_zero r4 (video_max c) ltac:(lia) ltac:(lia)) as Ev.
  set (v := clamp r4 ZERO (video_max c)) in *.
  assert (bps (saturating_sub r4 v) = bps r4 - bps v) by (cbn; unfold sat_sub; lia).
  cbn [waterfall]. repeat (f_equal; [lia|]). f_equal. lia.
Qed.

Lemma allocation_sum_list a :
  Forall (fun x => 0 <= x) (map (fun ch => bps (allocation_get a ch)) PRIORITY) ->
  foldr Z.add 0 (map (fun ch => bps (allocation_get a ch)) PRIORITY) <= u64_max ->
  bps (allocation_sum a) = foldr Z.add 0 (map (fun ch => bps (allocation_get a ch)) PRIORITY).
Proof.
  unfold allocation_sum, PRIORITY. cbn [map allocation_get foldr bps saturating_add].
  rewrite !Forall_cons. unfold sat_add, u64_max. lia.
Qed.

Lemma demands_nonneg c : config_ok c -> Forall (fun d => 0 <= d) (demands c).
Proof. intros H. eapply Forall_impl; [exact H|]. unfold is_u64. lia. Qed.

(** The allocator deals the whole budget, for any configuration and any budget: the six
    shares are those of the reference waterfall in the priority order Input, Control,
    Clipboard, Audio, Video, File, and sum exactly to the budget; a channel that gets less
    than its demand leaves nothing to a channel after it; and a larger budget never lowers a
    share. *)
Lemma allocator_waterfall c total total' :
  config_ok c -> is_u64 (bps total) -> is_u64 (bps total') ->
  let share t ch := bps (allocation_get (allocate c t) ch) in
  map (share total) PRIORITY = waterfall (bps total) (demands c) /\
  bps (allocation_sum (allocate c total)) = bps total /\
  (forall i j ch ch' d, PRIORITY !! i = Some ch -> PRIORITY !! j = Some ch' -> (i < j)%nat ->
     demands c !! i = Some d -> share total ch < d -> share total ch' = 0) /\
  (bps total <= bps total' -> forall ch, share total ch <= share total' ch).
Proof.
  intros Hc Ht Ht' share.
  pose proof (allocate_waterfall c total Hc Ht) as Hw. pose proof (allocate_waterfall c total' Hc Ht') as Hw'.
  pose proof (demands_nonneg c Hc) as Hd. unfold is_u64 in Ht, Ht'. split; [done|]. split_and!.
  - rewrite allocation_sum_list; rewrite Hw; [apply waterfall_sum| |].
    + eapply Forall_impl; [apply waterfall_nonneg; [lia|done]|]. cbn. lia.
    + rewrite waterfall_sum. unfold u64_max. lia.
  - intros i j ch ch' d Hi Hj Hij Hdi Hlt.
    apply (waterfall_priority (bps total) (demands c) i j (share total ch) (share total ch') d);
      auto; rewrite <- ?Hw, ?list_lookup_fmap, ?Hi, ?Hj; [lia|done..].
  - intros Hle ch. pose proof (waterfall_mono _ _ (demands c) Hle) as Hm. rewrite <- Hw, <- Hw' in Hm.
    assert (exists i, PRIORITY !! i = Some ch) as [i Hi].
    { apply list_elem_of_lookup. clear; destruct ch; unfold PRIORITY; set_solver. }
    apply (Forall2_lookup_lr _ _ _ i _ _ Hm); by rewrite list_lookup_fmap, Hi.
Qed.

Lemma allocator_waterfall_witness :
  map (fun ch => bps (allocation_get (allocate allocator_default (from_kbps 200)) ch)) PRIORITY
  = waterfall (bps (from_kbps 200)) (demands allocator_default).
Proof.
  exact (proj1 (allocator_waterfall allocator_default (from_kbps 200) (from_kbps 300)
    ltac:(repeat constructor; vm_compute; auto; discriminate)
    ltac:(vm_compute; split; auto; discriminate) ltac:(vm_compute; split; auto; discriminate))).
Defined.
