(* ===== verification/LossRecovery.v ===== *)
(** * sh-adaptive: loss recovery

    [crates/sh-adaptive/src/loss_recovery.rs]: the tiered recovery decision with its keyframe
    suppression, the adaptive FEC ratio, the gap detector over 16-bit sequence numbers and the
    rolling intra refresh.  Loss fractions are [f64] ([Float64]); times are nanoseconds. *)

From stdpp Require Import base numbers list option.
From S2P Require Import Prelude Float64.

Definition RTT_MID_BAND_LOW : Z := from_millis 150.
Definition RTT_HIGH : Z := from_millis 300.
Definition IDR_SUPPRESS_MIN : Z := from_millis 500.
Definition NACK_MAX_CONSECUTIVE_LOSS : Z := 2.
Definition FEC_LOSS_THRESHOLD : f64 := f_lit 5 100.
Definition IDR_FRAME_GAP_THRESHOLD : Z := 3.
Definition IDR_FRAME_GAP_THRESHOLD_MID : Z := 2.
Definition IDR_FRAME_GAP_THRESHOLD_HIGH : Z := 1.
Definition MAX_KEYFRAME_AGE : Z := from_secs 10.
Definition STALE_KEYFRAME_LOSS_THRESHOLD : f64 := f_lit 1 100.

(** A [NackRequest] is its sequence number. *)
Inductive RecoveryAction :=
| RecoveryNone
| Nack (seqs : list Z)
| RelyOnFec
| ForcedIdr.

Record LossState := {
  ls_rtt : Z;
  ls_consecutive_loss : Z;
  ls_loss_5s : f64;
  ls_frame_gap : Z;
  ls_time_since_keyframe : Z;
  ls_fec_ratio : f64;
  ls_missing_seqs : list Z;
}.

Definition suppress_window (rtt : Z) : Z :=
  Z.max IDR_SUPPRESS_MIN (Z.min DURATION_MAX (rtt * 2)).

Definition determine_action (rtt consecutive_loss : Z) (loss_5s : f64) (frame_gap : Z)
    (time_since_keyframe : Z) (fec_ratio : f64) (missing_seqs : list Z) : RecoveryAction :=
  if (rtt <? RTT_MID_BAND_LOW) && (consecutive_loss <=? NACK_MAX_CONSECUTIVE_LOSS)
     && f_lt loss_5s FEC_LOSS_THRESHOLD && (frame_gap <? IDR_FRAME_GAP_THRESHOLD)
     && negb (bool_decide (missing_seqs = []))
  then Nack (take 16 missing_seqs) else
  let idr_gap_threshold :=
    if rtt <? RTT_MID_BAND_LOW then IDR_FRAME_GAP_THRESHOLD
    else if rtt <=? RTT_HIGH then IDR_FRAME_GAP_THRESHOLD_MID
    else IDR_FRAME_GAP_THRESHOLD_HIGH in
  let needs_idr :=
    (idr_gap_threshold <=? frame_gap) || f_le FEC_LOSS_THRESHOLD loss_5s
    || ((MAX_KEYFRAME_AGE <? time_since_keyframe)
        && f_lt STALE_KEYFRAME_LOSS_THRESHOLD loss_5s) in
  if needs_idr then ForcedIdr else
  if f_lt loss_5s fec_ratio && (frame_gap <=? 1) then RelyOnFec else RecoveryNone.

(** The controller is its [last_idr_request]. *)
Record LossRecoveryController := { last_idr_request : option Z }.

Definition loss_recovery_new : LossRecoveryController := {| last_idr_request := None |}.

(** [None] where a [clamp] would panic. *)
Definition recovery_on_feedback (c : LossRecoveryController) (s : LossState) (now : Z)
    : option (LossRecoveryController * RecoveryAction) :=
  let rtt := Z.max (ls_rtt s) (from_micros 100) in
  loss_5s ← f_clamp (ls_loss_5s s) f_zero f_one;
  fec_ratio ← f_clamp (ls_fec_ratio s) f_zero f_one;
  let suppressed :=
    match last_idr_request c with
    | Some last_idr => default 0 (checked_duration_since now last_idr) <? suppress_window rtt
    | None => false
    end in
  if suppressed then Some (c, RecoveryNone) else
  let action := determine_action rtt (ls_consecutive_loss s) loss_5s (ls_frame_gap s)
                  (ls_time_since_keyframe s) fec_ratio (ls_missing_seqs s) in
  match action with
  | ForcedIdr => Some ({| last_idr_request := Some now |}, action)
  | _ => Some (c, action)
  end.

Definition suppression_remaining (c : LossRecoveryController) (rtt now : Z) : option Z :=
  last_idr ← last_idr_request c;
  let window := suppress_window (Z.max rtt (from_micros 100)) in
  let elapsed := default 0 (checked_duration_since now last_idr) in
  if window <? elapsed then None else Some (window - elapsed).

(** ** FEC ratio *)

Record FecPolicy := { min_ratio : f64; max_ratio : f64 }.

Definition fec_default : f64 * f64 := (f_lit 5 100, f_lit 50 100).

Definition fec_new (config_min config_max : f64) : option FecPolicy :=
  lo ← f_clamp config_min f_zero f_one;
  hi ← f_clamp config_max f_zero f_one;
  Some {| min_ratio := lo; max_ratio := hi |}.

Definition target_ratio (p : FecPolicy) (loss_5s : f64) : option f64 :=
  loss ← f_clamp loss_5s f_zero f_one;
  let raw :=
    if f_le loss (f_lit 1 100) then f_lit 5 100
    else if f_le loss (f_lit 3 100) then f_lit 10 100
    else if f_le loss (f_lit 5 100) then f_lit 20 100
    else if f_le loss (f_lit 10 100) then f_lit 30 100
    else f_lit 50 100 in
  f_clamp raw (min_ratio p) (max_ratio p).

(** ** Gap detector *)

Definition u16_sub (a b : Z) : Z := (a - b) mod 65536.

Record GapReport := {
  gr_consecutive_loss : Z;
  gr_frame_gap : Z;
  gr_nack_bitmap : Z;
  gr_missing_seqs : list Z;
}.

Record GapDetector := {
  highest_seq : option Z;
  received_mask : Z;
  last_received_seq : option Z;
  seqs_tracked : Z;
}.

Definition gap_new : GapDetector :=
  {| highest_seq := None; received_mask := 0; last_received_seq := None; seqs_tracked := 0 |}.

(** [u16::trailing_zeros]. *)
Fixpoint count_zeros (n : nat) (x : Z) : Z :=
  match n with
  | O => 0
  | S n' => if Z.odd x then 0 else 1 + count_zeros n' (Z.div2 x)
  end.
Definition trailing_zeros (x : Z) : Z := count_zeros 16 x.

Definition build_report (g : GapDetector) : GapReport :=
  match highest_seq g with
  | None => {| gr_consecutive_loss := 0; gr_frame_gap := 0; gr_nack_bitmap := 0;
               gr_missing_seqs := [] |}
  | Some highest =>
      let frame_gap := match last_received_seq g with
                       | None => 0
                       | Some last => u16_sub highest last
                       end in
      let tracked := seqs_tracked g in
      let tracked_mask := if 16 <=? tracked then 0xFFFF
                          else Z.max 0 (Z.shiftl 1 tracked mod 65536 - 1) in
      let nack_bitmap := Z.land (Z.lxor (received_mask g) 0xFFFF) tracked_mask in
      {| gr_consecutive_loss := Z.min (trailing_zeros (received_mask g)) tracked;
         gr_frame_gap := frame_gap;
         gr_nack_bitmap := nack_bitmap;
         gr_missing_seqs :=
           (fun i => u16_sub highest ((1 + i) mod 65536)) <$>
             filter (fun i => Z.land (Z.shiftr nack_bitmap i) 1 = 1)
               (seqZ 0 (Z.min 16 tracked)) |}
  end.

Definition on_receive (g : GapDetector) (seq : Z) : GapDetector * GapReport :=
  let g' :=
    match highest_seq g with
    | None => {| highest_seq := Some seq; received_mask := 0; last_received_seq := Some seq;
                 seqs_tracked := 0 |}
    | Some highest =>
        let delta := u16_sub seq highest in
        if (0 <? delta) && (delta <? 32768) then
          let shifted := if 16 <=? delta then 0
                         else Z.shiftl (received_mask g) delta mod 65536 in
          let old_highest_bit := if delta <=? 16 then Z.shiftl 1 ((delta - 1) mod 16) else 0 in
          {| highest_seq := Some seq;
             received_mask := Z.lor shifted old_highest_bit;
             last_received_seq := Some seq;
             seqs_tracked := Z.min 16 (Z.min 65535 (seqs_tracked g + Z.min delta 16)) |}
        else if delta =? 0 then
          {| highest_seq := Some highest; received_mask := received_mask g;
             last_received_seq := Some seq; seqs_tracked := seqs_tracked g |}
        else
          let back := u16_sub highest seq in
          if (0 <? back) && (back <=? 16) then
            {| highest_seq := Some highest;
               received_mask := Z.lor (received_mask g) (Z.shiftl 1 ((back - 1) mod 16));
               last_received_seq := last_received_seq g; seqs_tracked := seqs_tracked g |}
          else g
    end in
  (g', build_report g').

(** ** Rolling intra refresh *)

Record RefreshStripe := { stripe_index : Z; stripe_period : Z }.

Record RollingIntraRefresh := { rir_fps : Z; current_stripe : Z; rir_period : Z }.

Definition compute_period (fps : Z) : Z := Z.max ((fps + 3) / 4) 1.

Definition rir_new (fps : Z) : RollingIntraRefresh :=
  {| rir_fps := fps; current_stripe := 0; rir_period := compute_period fps |}.

Definition rir_advance (r : RollingIntraRefresh) : RollingIntraRefresh * RefreshStripe :=
  let stripe := {| stripe_index := current_stripe r; stripe_period := rir_period r |} in
  let next := (current_stripe r + 1) mod 4294967296 in
  ({| rir_fps := rir_fps r;
      current_stripe := if rir_period r <=? next then 0 else next;
      rir_period := rir_period r |}, stripe).

Definition set_fps (r : RollingIntraRefresh) (fps : Z) : RollingIntraRefresh := rir_new fps.

(** ** The detector against the set of received numbers

    Sequence numbers on the wire are the low 16 bits of an unbounded counter; [hist] are the
    counters received so far, [F] the first and [H] the highest of them. *)

Record gap_inv (hist : list Z) (F H : Z) (g : GapDetector) : Prop := {
  gi_highest : highest_seq g = Some (H mod 65536);
  gi_last : last_received_seq g = Some (H mod 65536);
  gi_mask_range : 0 <= received_mask g < 65536;
  gi_mask : forall i, 0 <= i < 16 ->
    Z.testbit (received_mask g) i = bool_decide (H - 1 - i ∈ hist);
  gi_tracked : seqs_tracked g = Z.min 16 (H - F);
  gi_in : H ∈ hist;
  gi_le : Forall (fun x => x <= H) hist;
  gi_first : F <= H;
}.

Lemma u16_sub_mod a b : u16_sub (a mod 65536) (b mod 65536) = (a - b) mod 65536.
Proof. unfold u16_sub. by rewrite <- Zminus_mod. Qed.

Lemma lor_u16 a b : 0 <= a < 65536 -> 0 <= b < 65536 -> 0 <= Z.lor a b < 65536.
Proof. change 65536 with (2 ^ 16). intros ? ?. by apply lor_bound. Qed.

Lemma bit_range k : 0 <= k < 16 -> 0 <= Z.shiftl 1 k < 65536.
Proof.
  intros Hk. rewrite Z.shiftl_1_l. change 65536 with (2 ^ 16). split; [apply Z.pow_nonneg; lia|].
  apply Z.pow_lt_mono_r; lia.
Qed.

Lemma testbit_bit k i : 0 <= k -> 0 <= i -> Z.testbit (Z.shiftl 1 k) i = bool_decide (i = k).
Proof.
  intros Hk Hi. rewrite Z.shiftl_1_l, Z.pow2_bits_eqb by done.
  case_bool_decide; [subst; apply Z.eqb_refl|apply Z.eqb_neq; lia].
Qed.

Lemma not_above hist H x : Forall (fun y => y <= H) hist -> H < x -> x ∉ hist.
Proof. intros Hf Hx Hin. rewrite list.Forall_forall in Hf. specialize (Hf x Hin). cbn in Hf. lia. Qed.

Lemma gap_inv_advance hist F H g x :
  gap_inv hist F H g -> H < x <= H + 32767 ->
  gap_inv (x :: hist) F x (fst (on_receive g (x mod 65536))).
Proof.
  intros [Hh Hl Hr Hm Ht Hin Hle HF] Hx. unfold on_receive. rewrite Hh, u16_sub_mod.
  rewrite (Z.mod_small (x - H)) by lia. set (d := x - H).
  rewrite (proj2 (Z.ltb_lt 0 d)), (proj2 (Z.ltb_lt d 32768)) by lia. cbn [andb fst].
  assert (0 <= (if 16 <=? d then 0 else Z.shiftl (received_mask g) d mod 65536) < 65536) as Hs
    by (destruct (16 <=? d); [lia|apply Z.mod_pos_bound; lia]).
  assert (0 <= (if d <=? 16 then Z.shiftl 1 ((d - 1) mod 16) else 0) < 65536) as Ho.
  { destruct (d <=? 16); [|lia]. apply bit_range. by apply Z.mod_pos_bound. }
  split; cbn [highest_seq last_received_seq received_mask seqs_tracked]; try done.
  - by apply lor_u16.
  - intros i Hi. rewrite Z.lor_spec.
    assert (Z.testbit (if d <=? 16 then Z.shiftl 1 ((d - 1) mod 16) else 0) i = bool_decide (i = d - 1)) as ->.
    { destruct (Z.leb_spec d 16); [rewrite Z.mod_small by lia; by apply testbit_bit; lia|].
      rewrite Z.bits_0. symmetry. apply bool_decide_eq_false. lia. }
    assert (Z.testbit (if 16 <=? d then 0 else Z.shiftl (received_mask g) d mod 65536) i =
            (d <=? i) && bool_decide (H - 1 - (i - d) ∈ hist)) as ->.
    { destruct (Z.leb_spec 16 d); [rewrite Z.bits_0, (proj2 (Z.leb_gt _ _)) by lia; done|].
      change 65536 with (2 ^ 16). rewrite Z.mod_pow2_bits_low, Z.shiftl_spec by lia.
      destruct (Z.leb_spec d i); [apply Hm; lia|by rewrite Z.testbit_neg_r by lia]. }
    destruct (Z.leb_spec d i); cbn [andb].
    + rewrite (bool_decide_eq_false_2 (i = d - 1)), orb_false_r by lia.
      apply bool_decide_ext. rewrite elem_of_cons. replace (H - 1 - (i - d)) with (x - 1 - i) by lia. intuition lia.
    + cbn [orb]. apply bool_decide_ext. rewrite elem_of_cons. split.
      * intros ->. right. by replace (x - 1 - (d - 1)) with H by lia.
      * intros [?|Hi']; [lia|]. destruct (decide (i = d - 1)); [done|]. exfalso.
        eapply (not_above hist H _ Hle); [|done]. lia.
  - lia.
  - by left.
  - constructor; [lia|]. eapply list.Forall_impl; [exact Hle|]. intros; cbn in *; lia.
  - lia.
Qed.

Lemma gap_inv_late hist F H g x :
  gap_inv hist F H g -> H - 32768 <= x <= H ->
  gap_inv (x :: hist) F H (fst (on_receive g (x mod 65536))).
Proof.
  intros [Hh Hl Hr Hm Ht Hin Hle HF] Hx. unfold on_receive. rewrite Hh, !u16_sub_mod.
  assert (Forall (fun y => y <= H) (x :: hist)) as Hle' by (constructor; [lia|done]).
  assert (H ∈ x :: hist) as Hin' by (by right).
  assert (forall i, 0 <= i < 16 -> H - 1 - i <> x ->
    bool_decide (H - 1 - i ∈ x :: hist) = bool_decide (H - 1 - i ∈ hist)) as Hext.
  { intros i Hi Hne. apply bool_decide_ext. rewrite elem_of_cons. intuition lia. }
  destruct (decide (x = H)) as [->|Hne].
  { rewrite Z.sub_diag. cbn [andb fst Z.ltb Z.compare Z.eqb]. change (0 mod 65536) with 0. cbn [andb fst Z.ltb Z.compare Z.eqb].
    split; cbn; try done. intros i Hi. rewrite (Hm i Hi). symmetry. apply Hext; lia. }
  assert ((x - H) mod 65536 = x - H + 65536) as ->
    by (symmetry; apply (Z.mod_unique_pos _ _ (-1)); lia).
  rewrite (proj2 (Z.ltb_ge _ 32768)), andb_false_r by lia.
  rewrite (proj2 (Z.eqb_neq _ 0)) by lia. rewrite (Z.mod_small (H - x)) by lia.
  rewrite (proj2 (Z.ltb_lt 0 (H - x))) by lia. cbn [andb].
  destruct (Z.leb_spec (H - x) 16); cbn [fst].
  2:{ split; try done. intros i Hi. rewrite (Hm i Hi). symmetry. apply Hext; lia. }
  rewrite (Z.mod_small (H - x - 1)) by lia.
  split; cbn [highest_seq last_received_seq received_mask seqs_tracked]; try done.
  - apply lor_u16; [done|]. apply bit_range. lia.
  - intros i Hi. rewrite Z.lor_spec, (Hm i Hi), testbit_bit by lia.
    destruct (decide (i = H - x - 1)) as [->|Hi'].
    + rewrite (bool_decide_eq_true_2 (_ = _)), orb_true_r by done. symmetry. apply bool_decide_eq_true_2.
      apply elem_of_cons. left. lia.
    + rewrite (bool_decide_eq_false_2 (i = _)), orb_false_r by done. symmetry. apply Hext; lia.
Qed.

(** The numbers that may arrive next, and a whole run. *)
Fixpoint in_reach (H : Z) (xs : list Z) : Prop :=
  match xs with
  | [] => True
  | x :: xs => H - 32768 <= x <= H + 32767 /\ in_reach (Z.max H x) xs
  end.

Definition gap_run (g : GapDetector) (seqs : list Z) : GapDetector :=
  fold_left (fun g s => fst (on_receive g s)) seqs g.

Definition wire_seq (x : Z) : Z := x mod 65536.

Lemma gap_inv_run F xs hist H g :
  in_reach H xs -> gap_inv hist F H g ->
  gap_inv (rev xs ++ hist) F (fold_left Z.max xs H) (gap_run g (wire_seq <$> xs)).
Proof.
  revert hist H g. induction xs as [|x xs IH]; intros hist H g Hr Hi; [done|].
  destruct Hr as [Hx Hr]. cbn [fold_left fmap list_fmap rev]. rewrite <- app_assoc. cbn [app].
  apply (IH (x :: hist)); [done|]. destruct (Z.le_gt_cases x H) as [Hle|Hgt].
  - rewrite Z.max_l by lia. apply gap_inv_late; [done|lia].
  - rewrite Z.max_r by lia. apply (gap_inv_advance _ _ H); [done|lia].
Qed.

Lemma gap_inv_first x : gap_inv [x] x x (fst (on_receive gap_new (wire_seq x))).
Proof.
  split; cbn; [done|done|lia| |rewrite Z.sub_diag; done|by left|by repeat constructor|lia].
  intros i Hi. rewrite Z.bits_0. symmetry. apply bool_decide_eq_false. rewrite list_elem_of_singleton. lia.
Qed.

Lemma tracked_bits t i : 0 <= t <= 16 -> 0 <= i < 16 ->
  Z.testbit (if 16 <=? t then 0xFFFF else Z.max 0 (Z.shiftl 1 t mod 65536 - 1)) i = bool_decide (i < t).
Proof.
  intros Ht Hi.
  assert ((if 16 <=? t then 0xFFFF else Z.max 0 (Z.shiftl 1 t mod 65536 - 1)) = Z.ones t) as ->.
  { destruct (Z.leb_spec 16 t); [by replace t with 16 by lia|].
    rewrite Z.ones_equiv, Z.mod_small by (apply bit_range; lia). rewrite Z.shiftl_1_l.
    pose proof (Z.pow_pos_nonneg 2 t). lia. }
  case_bool_decide; [apply Z.ones_spec_low; lia|apply Z.ones_spec_high; lia].
Qed.

Lemma count_zeros_spec n x :
  0 <= count_zeros n x <= Z.of_nat n /\
  (forall i, 0 <= i < count_zeros n x -> Z.testbit x i = false) /\
  (count_zeros n x < Z.of_nat n -> Z.testbit x (count_zeros n x) = true).
Proof.
  revert x. induction n as [|n IH]; intros x; cbn [count_zeros]; [split_and!; [lia|lia|intros; lia|lia]|].
  destruct (Z.odd x) eqn:Ho.
  - split_and!; [lia|lia|intros; lia|]. intros _. by rewrite Z.bit0_odd.
  - destruct (IH (Z.div2 x)) as (H1 & H2 & H3). split_and!; [lia|lia| |].
    + intros i Hi. destruct (decide (i = 0)) as [->|]; [by rewrite Z.bit0_odd|].
      replace i with (Z.succ (i - 1)) by lia. rewrite <- Z.div2_bits, <- Z.div2_div by lia. apply H2. lia.
    + intros Hlt. replace (1 + count_zeros n (Z.div2 x)) with (Z.succ (count_zeros n (Z.div2 x))) by lia.
      rewrite <- Z.div2_bits, <- Z.div2_div by lia. apply H3. lia.
Qed.

Definition window (F H : Z) : list Z := (fun i => H - 1 - i) <$> seqZ 0 (Z.min 16 (H - F)).

(** Filtering and mapping through [h], where the predicates and the results agree. *)
Lemma fmap_filter_through {A B C} (f : A -> C) (g : B -> C) (h : A -> B) (P : A -> Prop) (Q : B -> Prop)
    `{!forall x, Decision (P x), !forall x, Decision (Q x)} (l : list A) :
  (forall x, x ∈ l -> (P x <-> Q (h x)) /\ f x = g (h x)) ->
  f <$> filter P l = g <$> filter Q (h <$> l).
Proof.
  induction l as [|a l IH]; intros Hl; [done|]. cbn [fmap list_fmap].
  destruct (Hl a) as [HP Hf]; [by left|]. rewrite !filter_cons.
  assert (f <$> filter P l = g <$> filter Q (h <$> l)) as E by (apply IH; intros; apply Hl; by right).
  destruct (decide (P a)), (decide (Q (h a))); [|tauto|tauto|done].
  cbn [fmap list_fmap]. by rewrite Hf, E.
Qed.

Lemma report_spec hist F H g :
  gap_inv hist F H g ->
  let r := build_report g in
  gr_missing_seqs r = wire_seq <$> filter (fun s => s ∉ hist) (window F H) /\
  gr_frame_gap r = 0 /\
  (forall i, 0 <= i < 16 ->
     Z.testbit (gr_nack_bitmap r) i = bool_decide (i < H - F /\ H - 1 - i ∉ hist)) /\
  0 <= gr_consecutive_loss r <= Z.min 16 (H - F) /\
  (forall i, 0 <= i < gr_consecutive_loss r -> H - 1 - i ∉ hist) /\
  (gr_consecutive_loss r < Z.min 16 (H - F) -> H - 1 - gr_consecutive_loss r ∈ hist).
Proof.
  intros [Hh Hl Hr Hm Ht Hin Hle HF]. cbv zeta. unfold build_report. rewrite Hh, Hl, Ht.
  cbn [gr_missing_seqs gr_frame_gap gr_nack_bitmap gr_consecutive_loss].
  set (bm := Z.land _ _).
  assert (forall i, 0 <= i < 16 -> Z.testbit bm i = bool_decide (i < H - F /\ H - 1 - i ∉ hist)) as Hbm.
  { intros i Hi. unfold bm. rewrite Z.land_spec, Z.lxor_spec, tracked_bits by lia.
    change 65535 with (Z.ones 16). rewrite Z.ones_spec_low, (Hm i Hi), xorb_true_r by lia.
    rewrite <- bool_decide_not, <- bool_decide_and. apply bool_decide_ext. intuition lia. }
  destruct (count_zeros_spec 16 (received_mask g)) as (Hz & Hz0 & Hz1). fold (trailing_zeros (received_mask g)) in *.
  change (Z.of_nat 16) with 16 in *.
  split; [|split; [by unfold u16_sub; rewrite Z.sub_diag|split; [done|split; [lia|split]]]].
  - unfold window. rewrite (Z.min_r 16) by lia. apply fmap_filter_through.
    intros i Hi. apply elem_of_seqZ in Hi. split.
    + rewrite <- (bool_decide_eq_true (Z.land _ _ = 1)), <- (bool_decide_eq_true (_ ∉ _)).
      assert (bool_decide (Z.land (Z.shiftr bm i) 1 = 1) = Z.testbit bm i) as ->.
      { rewrite <- land_shiftr_testbit by lia. by destruct (Z.eqb_spec (Z.land (Z.shiftr bm i) 1) 1); [rewrite bool_decide_eq_true_2|rewrite bool_decide_eq_false_2]. }
      rewrite Hbm by lia. rewrite !bool_decide_eq_true. intuition lia.
    + unfold wire_seq. rewrite u16_sub_mod. f_equal. lia.
  - intros i Hi. specialize (Hz0 i). rewrite (Hm i) in Hz0 by lia.
    refine (bool_decide_eq_false_1 _ (Hz0 _)). lia.
  - intros Hlt. assert (trailing_zeros (received_mask g) < 16) as Hlt' by lia. rewrite Z.min_l in * by lia.
    specialize (Hz1 Hlt'). rewrite (Hm _) in Hz1 by lia. by apply bool_decide_eq_true in Hz1.
Qed.

(** ** The recovery decision *)

Lemma f_clamp01 x : is_Some (f_clamp x f_zero f_one).
Proof. by eexists. Qed.

(** The feedbacks of a session, with the times at which they are evaluated. *)
Fixpoint recovery_run (c : LossRecoveryController) (fs : list (LossState * Z))
    : option (list (Z * Z * RecoveryAction)) :=
  match fs with
  | [] => Some []
  | (s, now) :: fs =>
      '(c', a) ← recovery_on_feedback c s now;
      rest ← recovery_run c' fs;
      Some ((now, Z.max (ls_rtt s) (from_micros 100), a) :: rest)
  end.

Lemma recovery_step c s now :
  exists a, recovery_on_feedback c s now =
    Some (match a with ForcedIdr => {| last_idr_request := Some now |} | _ => c end, a) /\
    (a = ForcedIdr -> forall t, last_idr_request c = Some t ->
       suppress_window (Z.max (ls_rtt s) (from_micros 100)) <= now - t) /\
    (forall l, a = Nack l ->
       l = take 16 (ls_missing_seqs s) /\ ls_rtt s < RTT_MID_BAND_LOW /\
       ls_frame_gap s < IDR_FRAME_GAP_THRESHOLD).
Proof.
  unfold recovery_on_feedback. destruct (f_clamp01 (ls_loss_5s s)) as [l ->], (f_clamp01 (ls_fec_ratio s)) as [f ->].
  cbn [mbind option_bind]. set (rtt := Z.max _ _).
  assert (IDR_SUPPRESS_MIN <= suppress_window rtt) as Hw by (unfold suppress_window; lia).
  set (a := determine_action _ _ _ _ _ _ _).
  assert (forall l, a = Nack l -> l = take 16 (ls_missing_seqs s) /\ ls_rtt s < RTT_MID_BAND_LOW /\
    ls_frame_gap s < IDR_FRAME_GAP_THRESHOLD) as Hn.
  { intros l'. unfold a, determine_action. case_match; [|repeat case_match; done].
    simplify_bool. intros [= <-]. unfold rtt in *. split_and!; [done|lia|lia]. }
  destruct (last_idr_request c) as [t|] eqn:Ht.
  - unfold checked_duration_since. destruct (Z.ltb_spec now t); cbn [default].
    + rewrite (proj2 (Z.ltb_lt _ _)) by (unfold IDR_SUPPRESS_MIN, from_millis in Hw; cbn; lia).
      exists RecoveryNone. done.
    + cbn [option_union]. destruct (Z.ltb_spec (now - t) (suppress_window rtt)).
      * exists RecoveryNone. rewrite (proj2 (Z.ltb_lt _ _)) by (cbn; lia). done.
      * exists a. rewrite (proj2 (Z.ltb_ge _ _)) by (cbn; lia). split; [by destruct a|]. split; [|done].
        intros _ t' [= <-]. done.
  - exists a. split; [by destruct a|]. done.
Qed.

Lemma recovery_run_spaced c fs :
  exists log, recovery_run c fs = Some log /\ length log = length fs /\
    (forall j tj rj, log !! j = Some (tj, rj, ForcedIdr) ->
       (forall t0, last_idr_request c = Some t0 -> suppress_window rj <= tj - t0) /\
       (forall i ti ri, (i < j)%nat -> log !! i = Some (ti, ri, ForcedIdr) ->
          suppress_window rj <= tj - ti)) /\
    (forall i t r l, log !! i = Some (t, r, Nack l) ->
       (length l <= 16)%nat /\ r < RTT_MID_BAND_LOW).
Proof.
  revert c. induction fs as [|[s now] fs IH]; intros c; [by exists []|].
  destruct (recovery_step c s now) as (a & Hstep & Hidr & Hnack). cbn [recovery_run]. rewrite Hstep.
  cbn [mbind option_bind]. set (c' := match a with ForcedIdr => _ | _ => c end) in *.
  destruct (IH c') as (log & -> & Hlen & Hsp & Hnk). set (rtt := Z.max _ _) in *.
  eexists. split; [reflexivity|]. split; [cbn; lia|].
  assert (forall r, 0 < suppress_window r) as Hw
    by (intros r; unfold suppress_window, IDR_SUPPRESS_MIN, from_millis; lia).
  split.
  - intros [|j] tj rj Hj; cbn in Hj.
    + injection Hj as <- <- ->. split; [by apply Hidr|]. intros i; lia.
    + destruct (Hsp j tj rj Hj) as [H0 H1]. split.
      * intros t0 Ht0. subst c'. destruct a; try by apply H0.
        specialize (H0 now eq_refl). specialize (Hidr eq_refl t0 Ht0). pose proof (Hw rtt). lia.
      * intros [|i] ti ri Hlt Hi; cbn in Hi; [|by apply (H1 i ti ri); [lia|]].
        injection Hi as <- <- ->. by apply H0.
  - intros [|i] t r l Hi; cbn in Hi; [|by apply (Hnk i t r l)].
    injection Hi as <- <- ->. destruct (Hnack l eq_refl) as (-> & Hr & _).
    split; [rewrite length_take; lia|]. unfold rtt, RTT_MID_BAND_LOW, from_millis, from_micros in *. lia.
Qed.

(** Recovery never panics and never floods the sender: whatever loss reports (NaN included)
    and clock readings arrive, every feedback gets an action; two keyframe requests are at
    least 500 ms and two round trips apart, and a retransmission request names at most 16
    packets and is only sent when the round trip is below 150 ms. *)
Lemma keyframe_requests_spaced fs :
  exists log, recovery_run loss_recovery_new fs = Some log /\ length log = length fs /\
    (forall i j ti ri tj rj, (i < j)%nat ->
       log !! i = Some (ti, ri, ForcedIdr) -> log !! j = Some (tj, rj, ForcedIdr) ->
       IDR_SUPPRESS_MIN <= tj - ti /\ Z.min DURATION_MAX (rj * 2) <= tj - ti) /\
    (forall i t r l, log !! i = Some (t, r, Nack l) ->
       (length l <= 16)%nat /\ r < RTT_MID_BAND_LOW).
Proof.
  destruct (recovery_run_spaced loss_recovery_new fs) as (log & Hrun & Hlen & Hsp & Hnk).
  exists log. split_and!; [done|done| |done].
  intros i j ti ri tj rj Hlt Hi Hj. destruct (Hsp j tj rj Hj) as [_ H].
  specialize (H i ti ri Hlt Hi). unfold suppress_window in H. lia.
Qed.

(** The gap detector is exact: for any packets whose numbers stay within half the 16-bit
    range of the highest one, in any order and with duplicates and wrap-around, the report
    lists exactly the numbers of the last 16 before the highest (and not before the first
    one) that never arrived, newest first; bit [i] of the bitmap says the same of the number
    [i + 1] behind, and the consecutive loss is the run of missing numbers behind the
    highest. *)
Lemma gap_reports_exact F xs :
  in_reach F xs ->
  let hist := F :: xs in
  let H := fold_left Z.max xs F in
  let r := build_report (gap_run gap_new (wire_seq <$> hist)) in
  gr_missing_seqs r = wire_seq <$> filter (fun s => s ∉ hist) (window F H) /\
  take 16 (gr_missing_seqs r) = gr_missing_seqs r /\
  (forall i, 0 <= i < 16 ->
     Z.testbit (gr_nack_bitmap r) i = bool_decide (i < H - F /\ H - 1 - i ∉ hist)) /\
  (forall i, 0 <= i < gr_consecutive_loss r -> H - 1 - i ∉ hist) /\
  (gr_consecutive_loss r < Z.min 16 (H - F) -> H - 1 - gr_consecutive_loss r ∈ hist).
Proof.
  intros Hr hist H r.
  assert (forall s, s ∈ rev xs ++ [F] <-> s ∈ hist) as Hmem.
  { intros s. subst hist. rewrite elem_of_app, list_elem_of_singleton, elem_of_cons.
    rewrite !list_elem_of_In, <- in_rev. tauto. }
  pose proof (gap_inv_run F xs [F] F _ Hr (gap_inv_first F)) as Hi. fold H in Hi.
  destruct (report_spec _ _ _ _ Hi) as (Hms & _ & Hbm & _ & Hc1 & Hc2).
  change (gap_run (fst (on_receive gap_new (wire_seq F))) (wire_seq <$> xs))
    with (gap_run gap_new (wire_seq <$> hist)) in *. fold r in Hms, Hbm, Hc1, Hc2.
  assert (gr_missing_seqs r = wire_seq <$> filter (fun s => s ∉ hist) (window F H)) as Hms'.
  { rewrite Hms. f_equal. apply list_filter_iff. intros s. by rewrite Hmem. }
  split_and!; [done| | | |].
  - apply take_ge. rewrite Hms', length_fmap. etrans; [apply length_filter|].
    unfold window. rewrite length_fmap, length_seqZ. lia.
  - intros i Hi16. rewrite (Hbm i Hi16). apply bool_decide_ext. by rewrite Hmem.
  - intros i Hi'. rewrite <- Hmem. by apply Hc1.
  - intros Hlt. rewrite <- Hmem. by apply Hc2.
Qed.

(** The reported frame gap is always zero: a late packet does not move the last received
    number. *)
Lemma gap_frame_gap_zero F xs :
  in_reach F xs -> gr_frame_gap (build_report (gap_run gap_new (wire_seq <$> F :: xs))) = 0.
Proof. intros Hr. by apply (report_spec _ _ _ _ (gap_inv_run F xs [F] F _ Hr (gap_inv_first F))). Qed.

(** Packets 65534, 65536, 65533 (late), 65539: the numbers wrap, 65535, 65537 and 65538 are
    missing. *)
Lemma gap_reports_exact_witness :
  let r := build_report (gap_run gap_new [65534; 0; 65533; 3]) in
  gr_missing_seqs r = [2; 1; 65535] /\ gr_consecutive_loss r = 2 /\
  take 16 (gr_missing_seqs r) = gr_missing_seqs r.
Proof.
  assert (in_reach 65534 [65536; 65533; 65539]) as Hr by (cbn; lia).
  destruct (gap_reports_exact 65534 [65536; 65533; 65539] Hr) as (_ & Ht & _).
  split; [vm_compute; reflexivity|]. split; [vm_compute; reflexivity|]. exact Ht.
Defined.

(** ** FEC ratio and intra refresh *)

(** [target_ratio] panics exactly when the configured bounds are inverted or NaN. *)
Lemma target_ratio_panics p loss :
  target_ratio p loss = None <-> f_le (min_ratio p) (max_ratio p) = false.
Proof.
  unfold target_ratio. destruct (f_clamp01 loss) as [l ->]. cbn [mbind option_bind].
  unfold f_clamp. by destruct (f_le (min_ratio p) (max_ratio p)).
Qed.

Lemma fec_inverted_bounds_panic :
  exists p, fec_new (f_lit 6 10) (f_lit 5 10) = Some p /\ target_ratio p f_zero = None.
Proof. eexists. split; [reflexivity|]. vm_compute. reflexivity. Qed.

Fixpoint rir_run (r : RollingIntraRefresh) (n : nat) : list Z :=
  match n with
  | O => []
  | S n' => let '(r', s) := rir_advance r in stripe_index s :: rir_run r' n'
  end.

(** The [i]-th frame after a start refreshes stripe [i mod period]. *)
Lemma rir_run_mod fps n i :
  0 <= fps < 4294967296 -> (i < n)%nat ->
  rir_run (rir_new fps) n !! i = Some (Z.of_nat i mod compute_period fps).
Proof.
  intros Hf Hi. set (p := compute_period fps).
  assert (1 <= p <= 1073741824) as Hp by (unfold p, compute_period; Z.to_euclidean_division_equations; lia).
  assert (forall k, 0 <= k < p -> rir_run {| rir_fps := fps; current_stripe := k; rir_period := p |} n !! i
    = Some ((k + Z.of_nat i) mod p)) as H; [|by apply (H 0); lia].
  revert i Hi. induction n as [|n IH]; intros i Hi k Hk; [lia|].
  cbn [rir_run rir_advance current_stripe rir_period rir_fps stripe_index]. destruct i as [|i]; cbn [lookup list_lookup].
  { by rewrite Z.add_0_r, Z.mod_small by lia. }
  rewrite (Z.mod_small (k + 1)) by lia. destruct (Z.leb_spec p (k + 1)).
  - rewrite IH by lia. replace (k + Z.of_nat (S i)) with (0 + Z.of_nat i + 1 * p) by lia. by rewrite Z.mod_add by lia.
  - rewrite IH by lia. do 2 f_equal. lia.
Qed.
