(* ===== verification/Congestion.v ===== *)
(** * sh-adaptive: congestion control

    The controller interface and its input ([controller.rs], [stats.rs], [util.rs] of
    [crates/sh-adaptive/src]) and its two implementations, [gcc.rs] (WebRTC path) and
    [scream.rs] (QUIC path), in [f64] arithmetic as the code has it.  A controller step is
    partial: [Duration::from_secs_f64] panics on a negative, infinite or NaN argument. *)

From stdpp Require Import base numbers list option.
From S2P Require Import Prelude Types Float64 FloatOrder.

(** ** Shared *)

Definition from_bps_f64 (bps : f64) : Bitrate.t :=
  if is_nan bps || f_lt bps f_zero then Bitrate.ZERO else
  if negb (f_is_finite bps) then Bitrate.mk u64_max else
  if f_le (f_of_Z u64_max) bps then Bitrate.mk u64_max else
  Bitrate.mk (f_to_u64 bps).

Definition as_bps_f64 (b : Bitrate.t) : f64 := f_of_Z (Bitrate.bps b).

Definition MIN_RTT : Z := from_micros 100.
Definition MAX_RTT : Z := from_secs 10.
Definition MAX_QUEUE_DELAY : Z := from_secs 2.
Definition MIN_RTT_SECS : f64 := f_lit 1 10000.

Definition clamp_rtt (rtt : Z) : Z :=
  if rtt <? MIN_RTT then MIN_RTT else if MAX_RTT <? rtt then MAX_RTT else rtt.

Definition clamp_duration (d max : Z) : Z := if max <? d then max else d.

Record TransportStats := {
  rtt : Z;
  queue_delay : Z;
  bytes_acked : Z;
  bytes_lost : Z;
  loss_fraction_q8 : Z;
  interval : Z;
}.

(** The widths of the fields. *)
Definition stats_wf (fb : TransportStats) : Prop :=
  (is_u32 (bytes_acked fb) /\ is_u32 (bytes_lost fb) /\ is_u8 (loss_fraction_q8 fb)) /\
  0 <= rtt fb /\ 0 <= queue_delay fb /\ 0 <= interval fb.

Definition loss_fraction (fb : TransportStats) : f64 :=
  f_div (f_of_Z (loss_fraction_q8 fb)) (f_of_Z 256).

(** What both controllers compute from a report. *)
Definition loss_frac (fb : TransportStats) : f64 :=
  if 0 <? loss_fraction_q8 fb then loss_fraction fb
  else if 0 <? bytes_lost fb then
    f_min (f_div (f_of_Z (bytes_lost fb)) (f_of_Z (Z.max (bytes_acked fb) 1))) f_one
  else f_zero.

Definition queue_delay_secs (fb : TransportStats) : f64 :=
  as_secs_f64 (clamp_duration (queue_delay fb) MAX_QUEUE_DELAY).

Definition smooth_rtt (srtt : f64) (sample : Z) : f64 :=
  f_add (f_mul (f_lit 875 1000) srtt) (f_mul (f_lit 125 1000) (as_secs_f64 (clamp_rtt sample))).

(** Whether the last decrease is less than one smoothed round trip ago; [None] is a panic. *)
Definition decrease_suppressed (last_decrease : option Z) (srtt : f64) (now : Z) : option bool :=
  match last_decrease with
  | None => Some false
  | Some t =>
      window ← try_from_secs_f64 (f_max srtt MIN_RTT_SECS);
      Some (saturating_duration_since now t <? window)
  end.

Definition PACING_PACKET_BYTES : Z := 1460.

Definition pacing_of (target : Bitrate.t) : Z :=
  let bps := as_bps_f64 target in
  if f_le bps f_zero then from_micros 1 else
  let interval_secs := f_div (f_mul (f_of_Z PACING_PACKET_BYTES) (f_of_Z 8)) bps in
  if negb (f_is_finite interval_secs) || f_le interval_secs f_zero then from_micros 1 else
  from_micros (Z.max (f_to_u64 (f_mul interval_secs (f_of_Z 1000000))) 1).

Definition MIN_UPDATE_INTERVAL : Z := from_millis 1.
Definition MAX_UPDATE_INTERVAL : Z := from_secs 30.

(** What the guard on the clock decides: ignore the report, restart cold, or go on. *)
Inductive FeedbackGuard := GuardIgnore | GuardRestart | GuardUpdate.

Definition feedback_guard (last : option Z) (now : Z) : FeedbackGuard :=
  match last with
  | None => GuardUpdate
  | Some last =>
      match checked_duration_since now last with
      | None => GuardIgnore
      | Some d =>
          if d <? MIN_UPDATE_INTERVAL then GuardIgnore
          else if MAX_UPDATE_INTERVAL <? d then GuardRestart
          else GuardUpdate
      end
  end.

Record CcConfig := {
  min_bitrate : Bitrate.t;
  max_bitrate : Bitrate.t;
  initial_bitrate : Bitrate.t;
  initial_rtt : Z;
}.

(** A configuration the code can represent, with ordered bounds. *)
Definition config_ok (cfg : CcConfig) : Prop :=
  0 <= Bitrate.bps (min_bitrate cfg) <= Bitrate.bps (max_bitrate cfg) /\ Bitrate.wf (max_bitrate cfg).

(** ** The controller interface

    The methods of the trait, and the contract its two implementations share: a report never
    panics, the target stays within the configured bounds, the pacing gap is at least a
    microsecond, a report the clock guard refuses changes nothing, and the quantity the target
    is computed from ([cc_rate]: GCC's bandwidth estimate, SCReAM's congestion window) falls
    only when the time of the last decrease is set, one smoothed round trip after the one
    before. *)

Class CongestionController (C : Type) := {
  cc_on_feedback : C -> TransportStats -> Z -> option C;
  cc_target_bitrate : C -> Bitrate.t;
  cc_pacing_interval : C -> Z;
}.

(** [now] is at least one smoothed round trip, of at least 0.1 ms, after [t]. *)
Definition round_trip_apart (srtt : f64) (t now : Z) : Prop :=
  exists window, try_from_secs_f64 (f_max srtt MIN_RTT_SECS) = Some window /\ window <= now - t.

(** An update keeps the time of the last decrease and does not lower the rate, or it sets that
    time to [now], and then only one smoothed round trip after the one before. *)
Definition decrease_gated (srtt : f64) (now : Z) (before after : option Z) (r r' : f64) : Prop :=
  after = before /\ f_le r r' = true \/
  after = Some now /\ forall t, before = Some t -> t < now -> round_trip_apart srtt t now.

Class CongestionLaws (C : Type) `{CongestionController C} := {
  cc_inv : CcConfig -> C -> Prop;
  cc_last_feedback : C -> option Z;
  cc_last_decrease : C -> option Z;
  cc_srtt : C -> f64;
  cc_rate : C -> f64;
  cc_initial : CcConfig -> f64;
  cc_step cfg c fb now : cc_inv cfg c -> stats_wf fb ->
    exists c', cc_on_feedback c fb now = Some c' /\ cc_inv cfg c' /\
      match feedback_guard (cc_last_feedback c) now with
      | GuardIgnore => c' = c
      | GuardRestart => cc_last_feedback c' = Some now /\ cc_rate c' = cc_initial cfg
      | GuardUpdate => cc_last_feedback c' = Some now /\
          decrease_gated (cc_srtt c') now (cc_last_decrease c) (cc_last_decrease c')
            (cc_rate c) (cc_rate c')
      end;
  cc_target_bounds cfg c : cc_inv cfg c ->
    Bitrate.bps (min_bitrate cfg) <= Bitrate.bps (cc_target_bitrate c)
      <= Bitrate.bps (max_bitrate cfg);
  cc_pacing_positive cfg c : cc_inv cfg c -> from_micros 1 <= cc_pacing_interval c;
}.

Lemma pacing_of_positive b : from_micros 1 <= pacing_of b.
Proof. unfold pacing_of, from_micros. repeat case_match; lia. Qed.

(** A smoothed round trip stays below 16 seconds, so it is always a [Duration]. *)
Definition srtt_ok (s : f64) : Prop := fin_le s (16 * 2 ^ 1074).

Ltac rep_at c k := exists c, k; split; [reflexivity|split; lia].

Lemma rep_int n : 0 <= n < 2 ^ 53 -> rep (n * 2 ^ 1074).
Proof. intros Hn. exists n, 1074. split; [done|]. lia. Qed.

Lemma as_secs_le d n :
  0 <= d -> d <= n * NANOS_PER_SEC -> 0 <= n < 2 ^ 50 -> fin_le (as_secs_f64 d) ((n + 1) * 2 ^ 1074).
Proof.
  intros Hd Hle Hn. unfold as_secs_f64. unfold NANOS_PER_SEC in *.
  assert (rep (n * 2 ^ 1074)) as Rn by (apply rep_int; lia).
  assert (rep (1 * 2 ^ 1074)) as R1 by (apply rep_int; lia).
  pose proof (Z.mod_pos_bound d 1000000000).
  eapply fin_le_add; [exact Rn|exact R1|apply rep_int; lia| | |].
  - apply fin_le_of_Z; [done|apply Z.div_pos; lia|].
    apply Z.mul_le_mono_nonneg_r; [by apply Z.pow_nonneg|]. apply Z.div_le_upper_bound; lia.
  - assert (f_of_Z 1000000000 = SpecFloat.S754_finite false 8388608000000000 (-23)) as -> by (vm_compute; reflexivity).
    eapply fin_le_div; [|done| |lia|].
    + apply (rep_int 1000000000). lia.
    + apply fin_le_of_Z; [apply rep_int; lia|lia|]. apply Z.mul_le_mono_nonneg_r; [by apply Z.pow_nonneg|lia].
    + apply Z.eq_le_incl. vm_compute. reflexivity.
  - lia.
Qed.

Lemma clamp_rtt_range r : MIN_RTT <= clamp_rtt r <= MAX_RTT.
Proof. unfold clamp_rtt, MIN_RTT, MAX_RTT, from_micros, from_secs, NANOS_PER_SEC. repeat case_match; simplify_bool; lia. Qed.

Lemma initial_srtt_ok r : srtt_ok (as_secs_f64 (clamp_rtt r)).
Proof.
  pose proof (clamp_rtt_range r) as H. unfold MIN_RTT, MAX_RTT, from_micros, from_secs in H.
  eapply fin_le_mono; [|apply (as_secs_le _ 10); lia]. vm_compute. discriminate.
Qed.

Lemma smooth_rtt_ok s r : srtt_ok s -> srtt_ok (smooth_rtt s r).
Proof.
  intros Hs. unfold smooth_rtt. pose proof (clamp_rtt_range r) as H. unfold MIN_RTT, MAX_RTT, from_micros, from_secs in H.
  pose proof (as_secs_le (clamp_rtt r) 10) as Hr.
  eapply (fin_le_add _ _ (14 * 2 ^ 1074) (2 * 2 ^ 1074)); [by apply rep_int|by apply rep_int|by apply rep_int| | |lia].
  - eapply (fin_le_mul _ _ (7 * 2 ^ 1071) (16 * 2 ^ 1074)); [rep_at 7 1071|by apply rep_int|by apply rep_int| |done|].
    + vm_compute. split; [done|]. split; discriminate.
    + apply Z.eq_le_incl. vm_compute. reflexivity.
  - eapply (fin_le_mul _ _ (1 * 2 ^ 1071) (11 * 2 ^ 1074)); [rep_at 1 1071|by apply rep_int|by apply rep_int| |apply Hr; lia|].
    + vm_compute. split; [done|]. split; discriminate.
    + vm_compute. discriminate.
Qed.

Lemma suppressed_total last srtt now : srtt_ok srtt ->
  exists b, decrease_suppressed last srtt now = Some b /\
    (b = false -> forall t, last = Some t -> t < now -> round_trip_apart srtt t now).
Proof.
  intros Hs. destruct last as [t|]; [|by exists false]. cbn [decrease_suppressed]. unfold round_trip_apart.
  destruct (fin_le_duration (f_max srtt MIN_RTT_SECS) (16 * 2 ^ 1074)) as [w ->].
  - apply fin_le_max; [done|]. vm_compute. split; [done|]. split; discriminate.
  - vm_compute. reflexivity.
  - cbn [mbind option_bind]. eexists. split; [reflexivity|]. intros Hlt t' [= <-] Ht. exists w. split; [done|].
    simplify_bool. unfold saturating_duration_since in Hlt. lia.
Qed.

Lemma decrease_kept srtt now before r r' : f_le r r' = true -> decrease_gated srtt now before before r r'.
Proof. by left. Qed.

Lemma guard_update_later t now : feedback_guard (Some t) now = GuardUpdate -> t < now.
Proof.
  unfold feedback_guard, checked_duration_since, MIN_UPDATE_INTERVAL, from_millis. intros H.
  repeat case_match; simplify_eq; simplify_bool; lia.
Qed.

(** ** Any controller, any reports *)

Section Contract.
Context {C : Type} `{CL : CongestionLaws C}.

(** The states after each report. *)
Fixpoint cc_run (c : C) (reports : list (TransportStats * Z)) : option (list C) :=
  match reports with
  | [] => Some []
  | (fb, now) :: rest =>
      c' ← cc_on_feedback c fb now;
      cs ← cc_run c' rest;
      Some (c' :: cs)
  end.

(** The controller always has a usable rate. *)
Definition cc_usable (cfg : CcConfig) (c : C) : Prop :=
  Bitrate.bps (min_bitrate cfg) <= Bitrate.bps (cc_target_bitrate c) <= Bitrate.bps (max_bitrate cfg) /\
  from_micros 1 <= cc_pacing_interval c.

(** The states [cs] after the reports, from [c].  An observer keeps the time [heard] of the last
    report that was taken and the time [cut] at which the rate last fell: a report from the past
    or within a millisecond changes nothing, one after 30 silent seconds puts the rate back to
    its initial value [r0], and on any other the rate falls only one smoothed round trip after
    it last fell. *)
Fixpoint cc_trace_ok (cfg : CcConfig) (r0 : f64) (heard cut : option Z) (c : C)
    (reports : list (TransportStats * Z)) (cs : list C) : Prop :=
  match reports, cs with
  | [], [] => True
  | (_, now) :: reports, c' :: cs =>
      cc_usable cfg c' /\
      match feedback_guard heard now with
      | GuardIgnore => c' = c /\ cc_trace_ok cfg r0 heard cut c' reports cs
      | GuardRestart => cc_rate c' = r0 /\ cc_trace_ok cfg r0 (Some now) None c' reports cs
      | GuardUpdate =>
          if f_le (cc_rate c) (cc_rate c') then cc_trace_ok cfg r0 (Some now) cut c' reports cs
          else (forall t, cut = Some t -> round_trip_apart (cc_srtt c') t now) /\
               cc_trace_ok cfg r0 (Some now) (Some now) c' reports cs
      end
  | _, _ => False
  end.

(** What the observer's times say of the controller: the recorded decrease lies between
    the last fall and the last report. *)
Definition observed (heard cut : option Z) (c : C) : Prop :=
  cc_last_feedback c = heard /\
  forall t, cut = Some t -> exists d h, cc_last_decrease c = Some d /\ heard = Some h /\ t <= d <= h.

Lemma observed_kept heard cut now c c' : observed heard cut c -> feedback_guard heard now = GuardUpdate ->
  cc_last_feedback c' = Some now ->
  cc_last_decrease c' = cc_last_decrease c \/ cc_last_decrease c' = Some now ->
  observed (Some now) cut c'.
Proof.
  intros [Hh Hc] Hg Hf Hd. split; [done|]. intros t Ht. destruct (Hc t Ht) as (d & h & Ed & -> & Htd & Hth).
  apply guard_update_later in Hg. destruct Hd as [->| ->]; eexists _, _; (split_and!; [done|done|lia|lia]).
Qed.

Lemma cc_run_ok cfg heard cut c reports : cc_inv cfg c -> observed heard cut c ->
  Forall (fun r => stats_wf r.1) reports ->
  exists cs, cc_run c reports = Some cs /\ cc_trace_ok cfg (cc_initial cfg) heard cut c reports cs.
Proof.
  revert heard cut c. induction reports as [|[fb now] rest IH]; intros heard cut c Hc Ho Hw; [by exists []|].
  inversion Hw as [|?? Hfb Hw']; subst; clear Hw. rename Hw' into Hw. destruct (cc_step cfg c fb now Hc Hfb) as (c' & Hs & Hi & Hg).
  cbn [cc_run]. rewrite Hs. cbn [mbind option_bind].
  assert (forall heard' cut', observed heard' cut' c' -> exists cs, cc_run c' rest = Some cs /\
            cc_trace_ok cfg (cc_initial cfg) heard' cut' c' rest cs) as IH' by (intros; by apply IH).
  assert (cc_usable cfg c') as Hu by (split; [by apply cc_target_bounds|by eapply cc_pacing_positive]).
  rewrite (proj1 Ho) in Hg. cbn [cc_trace_ok]. destruct (feedback_guard heard now) eqn:Eg.
  - subst c'. destruct (IH' heard cut Ho) as (cs & -> & Ht). by exists (c :: cs).
  - destruct Hg as [Hf Hr]. destruct (IH' (Some now) None) as (cs & -> & Ht); [by split|]. by exists (c' :: cs).
  - destruct Hg as [Hf Hg]. destruct (f_le (cc_rate c) (cc_rate c')) eqn:El.
    + destruct (IH' (Some now) cut) as (cs & -> & Ht); [|exists (c' :: cs); cbn [cc_trace_ok]; by rewrite El].
      apply (observed_kept heard cut now c c'); [done..|]. destruct Hg as [[Hg _]|[Hg _]]; auto.
    + destruct Hg as [[_ Hg]|[Hg Hgap]]; [congruence|].
      destruct (IH' (Some now) (Some now)) as (cs & -> & Ht).
      { split; [done|]. intros t [= <-]. exists now, now. split_and!; [done|done|lia..]. }
      exists (c' :: cs). cbn [cc_trace_ok]. rewrite El. split_and!; [done|done| |done].
      intros t Et. destruct (proj2 Ho t Et) as (d & h & Ed & -> & Htd). apply guard_update_later in Eg.
      destruct (Hgap d Ed) as (w & Hw' & Hle); [lia|]. exists w. split; [done|lia].
Qed.
End Contract.
