(* ===== verification/Gcc.v ===== *)
(** * sh-adaptive: the GCC controller

    [crates/sh-adaptive/src/gcc.rs]: the delay state machine, its rate update with the
    operating-point anchor, the loss adjustment and the final target. *)

From stdpp Require Import base numbers list option.
From S2P Require Import Prelude Types Float64 FloatOrder Congestion.

Definition OVERUSE_THRESHOLD_SECS : f64 := f_lit 25 1000.
Definition UNDERUSE_THRESHOLD_SECS : f64 := f_lit 10 1000.
Definition LOSS_HIGH_THRESHOLD : f64 := f_lit 10 100.
Definition LOSS_LOW_THRESHOLD : f64 := f_lit 2 100.
Definition BETA_DECREASE : f64 := f_lit 85 100.
Definition AIMD_INCREASE_BPS : f64 := f_of_Z 8000.
Definition AIMD_HEADROOM_FRACTION : f64 := f_lit 50 100.
Definition MULTIPLICATIVE_INCREASE_FACTOR : f64 := f_lit 108 100.

Inductive State := Hold | Increase | Decrease.

Record GccController := {
  config : CcConfig;
  state : State;
  srtt_secs : f64;
  last_feedback_time : option Z;
  last_decrease_time : option Z;
  estimate_bps : f64;
  target_bitrate : Bitrate.t;
  last_known_rate_bps : option f64;
}.

Definition gcc_default : CcConfig :=
  {| min_bitrate := Bitrate.from_kbps 100; max_bitrate := Bitrate.from_mbps 50;
     initial_bitrate := Bitrate.from_mbps 2; initial_rtt := from_millis 50 |}.

Definition clamped_initial (cfg : CcConfig) : Bitrate.t :=
  Bitrate.clamp (initial_bitrate cfg) (min_bitrate cfg) (max_bitrate cfg).

Definition gcc_new (cfg : CcConfig) : GccController :=
  {| config := cfg; state := Hold; srtt_secs := as_secs_f64 (clamp_rtt (initial_rtt cfg));
     last_feedback_time := None; last_decrease_time := None;
     estimate_bps := as_bps_f64 (clamped_initial cfg); target_bitrate := clamped_initial cfg;
     last_known_rate_bps := None |}.

Definition cold_restart (c : GccController) (now : Z) : GccController :=
  {| config := config c; state := Hold;
     srtt_secs := as_secs_f64 (clamp_rtt (initial_rtt (config c)));
     last_feedback_time := Some now; last_decrease_time := None;
     estimate_bps := as_bps_f64 (clamped_initial (config c));
     target_bitrate := clamped_initial (config c); last_known_rate_bps := None |}.

Definition acked_throughput_bps (fb : TransportStats) : f64 :=
  let interval_secs := as_secs_f64 (interval fb) in
  if f_lt f_zero interval_secs then
    let raw := f_div (f_mul (f_of_Z (bytes_acked fb)) (f_of_Z 8)) interval_secs in
    if f_is_finite raw then raw else f_zero
  else f_zero.

Definition next_state (s : State) (qd : f64) : State :=
  if f_lt OVERUSE_THRESHOLD_SECS qd then Decrease
  else if f_lt qd UNDERUSE_THRESHOLD_SECS then
    match s with Decrease => Hold | Hold => Increase | Increase => Increase end
  else s.

(** [new_est] unless it is not finite. *)
Definition if_finite (new_est old : f64) : f64 := if f_is_finite new_est then new_est else old.

(** The part of the controller a rate update writes. *)
Record Estimate := {
  e_bps : f64;
  e_anchor : option f64;
  e_decreased : option Z;
}.

Definition increase (cfg : CcConfig) (e : Estimate) (loss acked : f64) : Estimate :=
  let anchor :=
    match e_anchor e with
    | Some a => if f_le loss LOSS_LOW_THRESHOLD && f_is_finite acked && f_lt a acked
                then None else Some a
    | None => None
    end in
  let new_est :=
    match anchor with
    | Some last_rate =>
        if f_le (f_mul (f_lit 9 10) last_rate) (e_bps e) then
          let headroom := f_max (f_sub last_rate (e_bps e)) f_zero in
          let step := f_max (f_min AIMD_INCREASE_BPS (f_mul headroom AIMD_HEADROOM_FRACTION)) f_one in
          f_add (e_bps e) step
        else f_mul (e_bps e) MULTIPLICATIVE_INCREASE_FACTOR
    | None =>
        let cap_bps := as_bps_f64 (max_bitrate cfg) in
        if f_lt (e_bps e) (f_mul (f_lit 9 10) cap_bps)
        then f_mul (e_bps e) MULTIPLICATIVE_INCREASE_FACTOR
        else f_add (e_bps e) AIMD_INCREASE_BPS
    end in
  {| e_bps := if_finite new_est (e_bps e); e_anchor := anchor; e_decreased := e_decreased e |}.

Definition delay_update (cfg : CcConfig) (s : State) (srtt : f64) (e : Estimate)
    (loss acked : f64) (now : Z) : option Estimate :=
  match s with
  | Decrease =>
      suppressed ← decrease_suppressed (e_decreased e) srtt now;
      Some (if suppressed : bool then e else
        {| e_bps := if_finite (f_mul (e_bps e) BETA_DECREASE) (e_bps e);
           e_anchor := if f_lt acked (e_bps e) then Some (e_bps e) else e_anchor e;
           e_decreased := Some now |})
  | Hold => Some e
  | Increase => Some (increase cfg e loss acked)
  end.

Definition sanitise (cfg : CcConfig) (e : Estimate) : Estimate :=
  if negb (f_is_finite (e_bps e)) || f_lt (e_bps e) f_zero
  then {| e_bps := as_bps_f64 (min_bitrate cfg); e_anchor := e_anchor e; e_decreased := e_decreased e |}
  else e.

Definition loss_adjust (srtt : f64) (pre : f64) (e : Estimate) (loss : f64) (now : Z)
    : option Estimate :=
  if f_lt LOSS_HIGH_THRESHOLD loss then
    suppressed ← decrease_suppressed (e_decreased e) srtt now;
    Some (if suppressed : bool then e else
      let loss_cut := f_mul pre BETA_DECREASE in
      if f_is_finite loss_cut && f_lt loss_cut (e_bps e)
      then {| e_bps := loss_cut; e_anchor := Some pre; e_decreased := Some now |}
      else e)
  else if f_lt LOSS_LOW_THRESHOLD loss then
    Some (if f_lt pre (e_bps e)
          then {| e_bps := pre; e_anchor := e_anchor e; e_decreased := e_decreased e |}
          else e)
  else Some e.

Definition gcc_update (c : GccController) (fb : TransportStats) (now : Z) : option GccController :=
  let cfg := config c in
  let srtt := if 0 <? rtt fb then smooth_rtt (srtt_secs c) (rtt fb) else srtt_secs c in
  let loss := loss_frac fb in
  let acked := acked_throughput_bps fb in
  let s := next_state (state c) (queue_delay_secs fb) in
  let pre := estimate_bps c in
  e ← delay_update cfg s srtt
        {| e_bps := pre; e_anchor := last_known_rate_bps c; e_decreased := last_decrease_time c |}
        loss acked now;
  e ← loss_adjust srtt pre (sanitise cfg e) loss now;
  let e := sanitise cfg e in
  Some {| config := cfg; state := s; srtt_secs := srtt; last_feedback_time := Some now;
          last_decrease_time := e_decreased e; estimate_bps := e_bps e;
          target_bitrate := Bitrate.clamp (from_bps_f64 (e_bps e)) (min_bitrate cfg) (max_bitrate cfg);
          last_known_rate_bps := e_anchor e |}.

Definition gcc_on_feedback (c : GccController) (fb : TransportStats) (now : Z)
    : option GccController :=
  match feedback_guard (last_feedback_time c) now with
  | GuardIgnore => Some c
  | GuardRestart => Some (cold_restart c now)
  | GuardUpdate => gcc_update c fb now
  end.

#[global] Instance gcc_controller : CongestionController GccController := {|
  cc_on_feedback := gcc_on_feedback;
  cc_target_bitrate := target_bitrate;
  cc_pacing_interval c := pacing_of (target_bitrate c);
|}.

(** ** The estimate is a number, and only a gated decrease lowers it *)

Definition est_ok (e : Estimate) : Prop :=
  nonneg (e_bps e) /\ forall a, e_anchor e = Some a -> canonical a.

Lemma sanitise_ok cfg e : est_ok e -> sanitise cfg e = e.
Proof.
  intros [He _]. unfold sanitise. by rewrite (nonneg_finite_true _ He), (nonneg_not_neg _ He).
Qed.

Lemma f_min_canonical x y : canonical x -> canonical y -> canonical (f_min x y).
Proof. unfold f_min. intros. by repeat case_match. Qed.

Lemma f_max_canonical x y : canonical x -> canonical y -> canonical (f_max x y).
Proof. unfold f_max. intros. by repeat case_match. Qed.

(** The step towards the anchor is at least one bit per second. *)
Lemma aimd_step_ok a x : canonical a -> canonical x ->
  at_least 0 (f_max (f_min AIMD_INCREASE_BPS
    (f_mul (f_max (f_sub a x) f_zero) AIMD_HEADROOM_FRACTION)) f_one).
Proof.
  intros Ha Hx. apply f_max_at_least; [|apply (nonneg_of_Z 1); done].
  apply f_min_canonical; [apply f_of_Z_canonical|]. apply f_mul_canonical; [|apply f_div_canonical].
  apply f_max_canonical; [by apply f_sub_canonical|done].
Qed.

Lemma multiplicative_ge x : nonneg x -> at_least (fval x) (f_mul x MULTIPLICATIVE_INCREASE_FACTOR).
Proof.
  intros Hx. apply (f_mul_ge x MULTIPLICATIVE_INCREASE_FACTOR Hx).
  split; [apply f_div_canonical|vm_compute; split; [done|]; split; discriminate].
Qed.

Lemma beta_ge x : nonneg x -> at_least 0 (f_mul x BETA_DECREASE).
Proof.
  intros Hx. apply (f_mul_nonneg x BETA_DECREASE Hx).
  split; [apply f_div_canonical|vm_compute; split; [done|]; split; discriminate].
Qed.

Lemma increase_ok cfg e loss acked : est_ok e ->
  est_ok (increase cfg e loss acked) /\ fval (e_bps e) <= fval (e_bps (increase cfg e loss acked)).
Proof.
  intros [He Ha]. unfold increase, est_ok. set (anchor := match e_anchor e with Some _ => _ | None => _ end).
  assert (forall a, anchor = Some a -> canonical a) as Ha'.
  { intros a. unfold anchor. destruct (e_anchor e) as [a0|]; [|done]. case_match; [done|]. intros [= <-]. by apply Ha. }
  set (new_est := match anchor with Some _ => _ | None => _ end).
  assert (at_least (fval (e_bps e)) new_est) as Hn.
  { unfold new_est. destruct anchor as [a|]; case_match; try (by apply multiplicative_ge); apply f_add_ge; try done.
    - apply aimd_step_ok; [by apply Ha'|apply He].
    - right. split; [by apply (nonneg_of_Z 8000)|]. apply nonneg_fval. by apply (nonneg_of_Z 8000). }
  cbn [e_bps e_anchor]. unfold if_finite. destruct (finite_or_ge _ _ _ Hn He) as [H1 H2]; [lia|]. done.
Qed.

(** What a partial update may do, from an estimate of [r]. *)
Definition est_step (srtt : f64) (now : Z) (r : Z) (e e' : Estimate) : Prop :=
  est_ok e' /\
  (e_decreased e' = e_decreased e /\ r <= fval (e_bps e') \/
   e_decreased e' = Some now /\ forall t, e_decreased e = Some t -> t < now -> round_trip_apart srtt t now).

Lemma delay_update_ok cfg s srtt e loss acked now : srtt_ok srtt -> est_ok e ->
  exists e', delay_update cfg s srtt e loss acked now = Some e' /\ est_step srtt now (fval (e_bps e)) e e'.
Proof.
  intros Hs He. destruct s; cbn [delay_update].
  - exists e. split; [done|]. split; [done|]. by left.
  - eexists. split; [reflexivity|]. destruct (increase_ok cfg e loss acked He). split; [done|]. by left.
  - destruct (suppressed_total (e_decreased e) srtt now Hs) as (b & -> & Hb). cbn [mbind option_bind].
    eexists. split; [reflexivity|]. destruct b; [split; [done|by left]|]. split; [|right; split; [done|by apply Hb]].
    destruct He as [He Ha]. split; cbn [e_bps e_anchor].
    + unfold if_finite. apply (finite_or_ge 0); [by apply beta_ge|done|by apply nonneg_fval].
    + intros a. case_match; [intros [= <-]; apply He|apply Ha].
Qed.

Lemma loss_adjust_ok srtt pre e loss now : srtt_ok srtt -> est_ok e -> nonneg pre ->
  exists e', loss_adjust srtt pre e loss now = Some e' /\
    est_step srtt now (Z.min (fval pre) (fval (e_bps e))) e e'.
Proof.
  intros Hs He Hp. assert (est_step srtt now (Z.min (fval pre) (fval (e_bps e))) e e) as Hid.
  { split; [done|]. left. split; [done|]. lia. }
  unfold loss_adjust. destruct (f_lt LOSS_HIGH_THRESHOLD loss).
  - destruct (suppressed_total (e_decreased e) srtt now Hs) as (b & -> & Hb). cbn [mbind option_bind].
    eexists. split; [reflexivity|]. destruct b; [done|]. destruct (f_is_finite (f_mul pre BETA_DECREASE)) eqn:Ef; [|done]. cbn [andb]. case_match; [|done].
    split; [|right; split; [done|by apply Hb]]. split; cbn [e_bps e_anchor]; [|intros a [= <-]; apply Hp].
    destruct (beta_ge pre Hp) as [E|[Hn _]]; [|done]. by rewrite E in Ef.
  - destruct (f_lt LOSS_LOW_THRESHOLD loss); eexists; (split; [reflexivity|]); [|done]. case_match; [|done].
    split; [split; [done|apply He]|]. left. split; [done|]. cbn [e_bps]. lia.
Qed.

(** ** The contract *)

Record gcc_inv (cfg : CcConfig) (c : GccController) : Prop := {
  gcc_config : config c = cfg;
  gcc_bounds : config_ok cfg;
  gcc_srtt : srtt_ok (srtt_secs c);
  gcc_est : nonneg (estimate_bps c) /\ forall a, last_known_rate_bps c = Some a -> canonical a;
  gcc_target : Bitrate.bps (min_bitrate cfg) <= Bitrate.bps (target_bitrate c)
                 <= Bitrate.bps (max_bitrate cfg);
}.

Lemma initial_estimate cfg : config_ok cfg -> nonneg (as_bps_f64 (clamped_initial cfg)).
Proof.
  intros [Hb Hw]. apply nonneg_of_Z. unfold Bitrate.wf, is_u64 in *.
  destruct (Bitrate.clamp_spec (initial_bitrate cfg) (min_bitrate cfg) (max_bitrate cfg)) as [? _]; [lia|].
  unfold clamped_initial. lia.
Qed.

Lemma gcc_new_inv cfg : config_ok cfg -> gcc_inv cfg (gcc_new cfg).
Proof.
  intros Hb. split; [done|done|apply initial_srtt_ok|split; [by apply initial_estimate|done]|].
  apply Bitrate.clamp_spec. apply Hb.
Qed.

Lemma gcc_restart_inv cfg c now : gcc_inv cfg c -> gcc_inv cfg (cold_restart c now).
Proof.
  intros [Hc Hb _ _ _]. split; [done|done|apply initial_srtt_ok|rewrite <- Hc in Hb; split; [by apply initial_estimate|done]|].
  cbn [target_bitrate cold_restart]. rewrite Hc. apply Bitrate.clamp_spec. apply Hb.
Qed.

Lemma gcc_update_ok cfg c fb now : gcc_inv cfg c ->
  exists c', gcc_update c fb now = Some c' /\ gcc_inv cfg c' /\ last_feedback_time c' = Some now /\
    decrease_gated (srtt_secs c') now (last_decrease_time c) (last_decrease_time c')
      (estimate_bps c) (estimate_bps c').
Proof.
  intros [Hc Hb Hs He Ht]. unfold gcc_update. set (srtt := if 0 <? rtt fb then _ else _).
  assert (srtt_ok srtt) as Hs' by (unfold srtt; case_match; [by apply smooth_rtt_ok|done]).
  match goal with |- context [delay_update ?g ?s srtt ?e ?l ?a now] =>
    destruct (delay_update_ok g s srtt e l a now Hs' He) as (e1 & -> & O1 & G1) end.
  cbn [mbind option_bind e_bps e_decreased] in *. rewrite (sanitise_ok _ e1 O1).
  match goal with |- context [loss_adjust srtt ?p e1 ?l now] =>
    destruct (loss_adjust_ok srtt p e1 l now Hs' O1 (proj1 He)) as (e2 & -> & O2 & G2) end.
  cbn [mbind option_bind]. rewrite (sanitise_ok _ e2 O2). eexists. split; [reflexivity|]. split; [|split; [done|]].
  - split; [done|done|done|apply O2|]. rewrite Hc. apply Bitrate.clamp_spec. apply Hb.
  - cbn [srtt_secs last_decrease_time estimate_bps]. unfold decrease_gated.
    rewrite (f_le_nonneg _ _ (proj1 He) (proj1 O2)), Z.leb_le.
    destruct G1 as [[E1 L1]|[E1 W1]], G2 as [[E2 L2]|[E2 W2]]; rewrite ?E1 in *;
      [left; split; [done|lia]|right; by split..].
Qed.

#[global] Instance gcc_laws : CongestionLaws GccController.
Proof.
  refine {| cc_inv := gcc_inv; cc_last_feedback := last_feedback_time;
            cc_last_decrease := last_decrease_time; cc_srtt := srtt_secs; cc_rate := estimate_bps;
            cc_initial cfg := as_bps_f64 (clamped_initial cfg) |}.
  - intros cfg c fb now Hi _. cbn [cc_on_feedback gcc_controller]. unfold gcc_on_feedback.
    destruct (feedback_guard (last_feedback_time c) now) eqn:Eg.
    + by exists c.
    + eexists. split_and!; [reflexivity|by apply gcc_restart_inv|done|]. by rewrite <- (gcc_config cfg c Hi).
    + by apply gcc_update_ok.
  - intros cfg c Hi. apply Hi.
  - intros cfg c _. apply pacing_of_positive.
Defined.
