(* ===== verification/Scream.v ===== *)
(** * sh-adaptive: the SCReAM controller

    [crates/sh-adaptive/src/scream.rs]: congestion window, slow start, decrease and the target
    rate; and the theorem on both controllers through their common interface. *)

From stdpp Require Import base numbers list option.
From S2P Require Import Prelude Types Float64 FloatOrder Congestion.
From S2P Require Gcc.

Definition QUEUE_DELAY_HIGH_THRESHOLD_SECS : f64 := f_lit 20 1000.
Definition QUEUE_DELAY_TARGET_SECS : f64 := f_lit 10 1000.
Definition LOSS_THRESHOLD : f64 := f_lit 2 100.
Definition MSS_BYTES : f64 := f_of_Z 1460.
Definition BETA_DECREASE : f64 := f_lit 85 100.
Definition SLOW_START_SCALE : f64 := f_of_Z 8.
Definition MIN_CWND_BYTES : f64 := f_mul (f_of_Z 2) MSS_BYTES.
Definition MAX_CWND_BYTES : f64 := f_of_Z 2500000.

Inductive Phase := SlowStart | SteadyState.

Record ScreamController := {
  config : CcConfig;
  cwnd : f64;
  srtt_secs : f64;
  ssthresh : f64;
  phase : Phase;
  last_feedback_time : option Z;
  last_decrease_time : option Z;
  target_bitrate : Bitrate.t;
}.

Definition clamp_cwnd (x : f64) : option f64 := f_clamp x MIN_CWND_BYTES MAX_CWND_BYTES.

(** [sanitise_cwnd], and the initial window, which follows the same rule. *)
Definition sanitise_cwnd (x : f64) : option f64 :=
  if negb (f_is_finite x) then Some MIN_CWND_BYTES else clamp_cwnd x.

Definition initial_cwnd (cfg : CcConfig) : option f64 :=
  let rtt_secs := as_secs_f64 (clamp_rtt (initial_rtt cfg)) in
  let cwnd_raw := f_div (f_mul (as_bps_f64 (initial_bitrate cfg)) rtt_secs) (f_of_Z 8) in
  if f_is_finite cwnd_raw then clamp_cwnd cwnd_raw else Some MIN_CWND_BYTES.

Definition scream_new (cfg : CcConfig) : option ScreamController :=
  w ← initial_cwnd cfg;
  Some {| config := cfg; cwnd := w; srtt_secs := as_secs_f64 (clamp_rtt (initial_rtt cfg));
          ssthresh := MAX_CWND_BYTES; phase := SlowStart;
          last_feedback_time := None; last_decrease_time := None;
          target_bitrate := Bitrate.clamp (initial_bitrate cfg) (min_bitrate cfg) (max_bitrate cfg) |}.

Definition derive_target (cfg : CcConfig) (w srtt : f64) : Bitrate.t :=
  let srtt := f_max srtt MIN_RTT_SECS in
  let bps := f_div (f_mul w (f_of_Z 8)) srtt in
  let bps := if f_is_finite bps && f_le f_zero bps then bps else as_bps_f64 (min_bitrate cfg) in
  Bitrate.clamp (from_bps_f64 bps) (min_bitrate cfg) (max_bitrate cfg).

(** The part of the controller a window update writes. *)
Record Window := { w_cwnd : f64; w_ssthresh : f64; w_phase : Phase; w_decreased : option Z }.

Definition apply_increase (w : Window) (bytes_acked : Z) (qd : f64) : option Window :=
  let acked := f_of_Z bytes_acked in
  let '(c, p) :=
    match w_phase w with
    | SlowStart =>
        let new_cwnd := f_add (w_cwnd w) (f_mul acked SLOW_START_SCALE) in
        let c := if f_is_finite new_cwnd then new_cwnd else w_cwnd w in
        (c, if f_le (w_ssthresh w) c || f_lt QUEUE_DELAY_TARGET_SECS qd then SteadyState else SlowStart)
    | SteadyState =>
        if f_lt f_zero acked then
          let delta := f_max (f_div (f_mul MSS_BYTES acked) (w_cwnd w)) MSS_BYTES in
          let new_cwnd := f_add (w_cwnd w) delta in
          (if f_is_finite new_cwnd then new_cwnd else w_cwnd w, SteadyState)
        else (w_cwnd w, SteadyState)
    end in
  c ← sanitise_cwnd c;
  Some {| w_cwnd := c; w_ssthresh := w_ssthresh w; w_phase := p; w_decreased := w_decreased w |}.

Definition apply_decrease (w : Window) (now : Z) : option Window :=
  let ssthresh := f_max (f_mul (w_cwnd w) BETA_DECREASE) MIN_CWND_BYTES in
  let new_cwnd := f_mul (w_cwnd w) BETA_DECREASE in
  c ← sanitise_cwnd (if f_is_finite new_cwnd then new_cwnd else w_cwnd w);
  Some {| w_cwnd := c; w_ssthresh := ssthresh; w_phase := SteadyState; w_decreased := Some now |}.

Definition window_update (srtt : f64) (w : Window) (fb : TransportStats) (now : Z) : option Window :=
  let qd := queue_delay_secs fb in
  let congested := f_le QUEUE_DELAY_HIGH_THRESHOLD_SECS qd || f_le LOSS_THRESHOLD (loss_frac fb) in
  if congested then
    suppressed ← decrease_suppressed (w_decreased w) srtt now;
    if suppressed : bool then Some w else apply_decrease w now
  else apply_increase w (bytes_acked fb) qd.

Definition scream_update (c : ScreamController) (fb : TransportStats) (now : Z)
    : option ScreamController :=
  let srtt := if 0 <? rtt fb then smooth_rtt (srtt_secs c) (rtt fb) else srtt_secs c in
  w ← window_update srtt {| w_cwnd := cwnd c; w_ssthresh := ssthresh c; w_phase := phase c;
                            w_decreased := last_decrease_time c |} fb now;
  Some {| config := config c; cwnd := w_cwnd w; srtt_secs := srtt; ssthresh := w_ssthresh w;
          phase := w_phase w; last_feedback_time := Some now;
          last_decrease_time := w_decreased w;
          target_bitrate := derive_target (config c) (w_cwnd w) srtt |}.

Definition scream_restart (c : ScreamController) (now : Z) : option ScreamController :=
  w ← initial_cwnd (config c);
  let srtt := as_secs_f64 (clamp_rtt (initial_rtt (config c))) in
  Some {| config := config c; cwnd := w; srtt_secs := srtt; ssthresh := MAX_CWND_BYTES;
          phase := SlowStart; last_feedback_time := Some now; last_decrease_time := None;
          target_bitrate := derive_target (config c) w srtt |}.

Definition scream_on_feedback (c : ScreamController) (fb : TransportStats) (now : Z)
    : option ScreamController :=
  match feedback_guard (last_feedback_time c) now with
  | GuardIgnore => Some c
  | GuardRestart => scream_restart c now
  | GuardUpdate => scream_update c fb now
  end.

#[global] Instance scream_controller : CongestionController ScreamController := {|
  cc_on_feedback := scream_on_feedback;
  cc_target_bitrate := target_bitrate;
  cc_pacing_interval c := pacing_of (target_bitrate c);
|}.

(** ** The window stays between two and about 1700 segments *)

Definition cwnd_ok (w : f64) : Prop :=
  nonneg w /\ f_le MIN_CWND_BYTES w = true /\ f_le w MAX_CWND_BYTES = true.

Lemma min_cwnd_ok : cwnd_ok MIN_CWND_BYTES.
Proof. split_and!; [|vm_compute; reflexivity..]. by apply nonneg_intro; vm_compute. Qed.

Lemma max_cwnd_ok : cwnd_ok MAX_CWND_BYTES.
Proof. split_and!; [|vm_compute; reflexivity..]. by apply nonneg_intro; vm_compute. Qed.

(** Clamping gives a window, and one that is not below any window the argument reaches. *)
Lemma clamp_cwnd_ok x : canonical x -> f_is_finite x = true ->
  exists w, clamp_cwnd x = Some w /\ cwnd_ok w /\
    forall c, cwnd_ok c -> nonneg x -> fval c <= fval x -> fval c <= fval w.
Proof.
  intros Hc Hf. unfold clamp_cwnd, f_clamp.
  replace (f_le MIN_CWND_BYTES MAX_CWND_BYTES) with true by (vm_compute; reflexivity). eexists. split; [reflexivity|].
  pose proof min_cwnd_ok as Hmin. pose proof max_cwnd_ok as Hmax. cbv zeta.
  destruct (f_lt x MIN_CWND_BYTES) eqn:El.
  - replace (f_lt MAX_CWND_BYTES MIN_CWND_BYTES) with false by (vm_compute; reflexivity). split; [done|].
    intros c Hcw Hx Hle. rewrite (f_lt_nonneg _ _ Hx (proj1 Hmin)), Z.ltb_lt in El. lia.
  - assert (nonneg x) as Hx. { apply nonneg_intro; [done..|]. destruct x as [[]|[]| |[]]; done. }
    destruct (f_lt MAX_CWND_BYTES x) eqn:Eh.
    + split; [done|]. intros c (Hcn & _ & Hcm) _ _. by rewrite (f_le_nonneg _ _ Hcn (proj1 Hmax)), Z.leb_le in Hcm.
    + split; [|done]. split; [done|].
      rewrite (f_lt_nonneg _ _ Hx (proj1 Hmin)), Z.ltb_ge in El. rewrite (f_lt_nonneg _ _ (proj1 Hmax) Hx), Z.ltb_ge in Eh.
      by rewrite (f_le_nonneg _ _ (proj1 Hmin) Hx), (f_le_nonneg _ _ Hx (proj1 Hmax)), !Z.leb_le.
Qed.

Lemma sanitise_cwnd_ok x : canonical x -> exists w, sanitise_cwnd x = Some w /\ cwnd_ok w /\
  forall c, cwnd_ok c -> nonneg x -> fval c <= fval x -> fval c <= fval w.
Proof.
  intros Hc. unfold sanitise_cwnd. destruct (f_is_finite x) eqn:E; cbn [negb]; [by apply clamp_cwnd_ok|].
  exists MIN_CWND_BYTES. split; [done|]. split; [apply min_cwnd_ok|]. intros c _ Hx _.
  by rewrite (nonneg_finite_true x Hx) in E.
Qed.

Lemma initial_cwnd_ok cfg : exists w, initial_cwnd cfg = Some w /\ cwnd_ok w.
Proof.
  unfold initial_cwnd. case_match eqn:E; [|by exists MIN_CWND_BYTES; split; [|apply min_cwnd_ok]].
  destruct (clamp_cwnd_ok _ (f_div_canonical _ _) E) as (w & -> & Hw & _). by exists w.
Qed.

Lemma derive_target_bounds cfg w srtt : config_ok cfg ->
  Bitrate.bps (min_bitrate cfg) <= Bitrate.bps (derive_target cfg w srtt)
    <= Bitrate.bps (max_bitrate cfg).
Proof. intros [H _]. apply Bitrate.clamp_spec. lia. Qed.

(** ** Only a gated decrease lowers the window *)

Lemma mss_nonneg : nonneg MSS_BYTES.
Proof. by apply (nonneg_of_Z 1460). Qed.

Lemma apply_increase_ok w acked qd : is_u32 acked -> cwnd_ok (w_cwnd w) ->
  exists w', apply_increase w acked qd = Some w' /\ cwnd_ok (w_cwnd w') /\
    w_decreased w' = w_decreased w /\ fval (w_cwnd w) <= fval (w_cwnd w').
Proof.
  intros Ha Hw. pose proof Hw as [Hn _]. unfold apply_increase. unfold is_u32 in Ha.
  destruct (match w_phase w with SlowStart => _ | SteadyState => _ end) as [c p] eqn:Ep.
  assert (nonneg (f_of_Z acked)) as Hacked by (apply nonneg_of_Z; unfold is_u64; lia).
  assert (nonneg c /\ fval (w_cwnd w) <= fval c) as [Hcn Hle].
  { destruct (w_phase w); [|destruct (f_lt f_zero (f_of_Z acked))]; injection Ep as <- <-; [..|done].
    - apply finite_or_ge; [|done|lia]. apply f_add_ge; [done|]. by apply f_mul_nonneg; [|apply (nonneg_of_Z 8)].
    - apply finite_or_ge; [|done|lia]. apply f_add_ge; [done|].
      apply f_max_at_least; [apply f_div_canonical|apply mss_nonneg]. }
  destruct (sanitise_cwnd_ok c (proj1 Hcn)) as (c' & -> & Hc' & Hge). eexists. split; [reflexivity|].
  split_and!; [done|done|]. by apply Hge.
Qed.

Lemma window_update_ok srtt w fb now : srtt_ok srtt -> cwnd_ok (w_cwnd w) -> stats_wf fb ->
  exists w', window_update srtt w fb now = Some w' /\ cwnd_ok (w_cwnd w') /\
    decrease_gated srtt now (w_decreased w) (w_decreased w') (w_cwnd w) (w_cwnd w').
Proof.
  intros Hs Hw [[Ha _] _]. unfold window_update, decrease_gated. case_match.
  - destruct (suppressed_total (w_decreased w) srtt now Hs) as (b & -> & Hb). cbn [mbind option_bind].
    destruct b.
    + exists w. split_and!; [done..|]. left. split; [done|]. by rewrite (f_le_nonneg _ _ (proj1 Hw) (proj1 Hw)), Z.leb_refl.
    + unfold apply_decrease. pose proof Hw as [[Hcan _] _].
      match goal with |- context [sanitise_cwnd ?x] => destruct (sanitise_cwnd_ok x) as (c & -> & Hc & _) end.
      { case_match; [|done]. apply f_mul_canonical; [done|apply f_div_canonical]. }
      eexists. split; [reflexivity|]. split; [done|]. right. split; [done|]. by apply Hb.
  - destruct (apply_increase_ok w (bytes_acked fb) (queue_delay_secs fb) Ha Hw) as (w' & -> & Hw' & Hd & Hle).
    exists w'. split_and!; [done..|]. left. by rewrite (f_le_nonneg _ _ (proj1 Hw) (proj1 Hw')), Z.leb_le.
Qed.

(** ** The contract *)

Record scream_inv (cfg : CcConfig) (c : ScreamController) : Prop := {
  sc_config : config c = cfg;
  sc_bounds : config_ok cfg;
  sc_srtt : srtt_ok (srtt_secs c);
  sc_cwnd : cwnd_ok (cwnd c);
  sc_target : Bitrate.bps (min_bitrate cfg) <= Bitrate.bps (target_bitrate c)
                <= Bitrate.bps (max_bitrate cfg);
}.

Lemma scream_new_inv cfg : config_ok cfg ->
  exists c, scream_new cfg = Some c /\ scream_inv cfg c /\
    last_feedback_time c = None /\ initial_cwnd cfg = Some (cwnd c).
Proof.
  intros Hb. unfold scream_new. destruct (initial_cwnd_ok cfg) as (w & -> & Hw). eexists. split; [reflexivity|].
  split; [|done]. split; [done|done|apply initial_srtt_ok|done|]. apply Bitrate.clamp_spec. apply Hb.
Qed.

Lemma scream_restart_ok cfg c now : scream_inv cfg c ->
  exists c', scream_restart c now = Some c' /\ scream_inv cfg c' /\
    last_feedback_time c' = Some now /\ initial_cwnd cfg = Some (cwnd c').
Proof.
  intros [Hc Hb _ _ _]. unfold scream_restart. rewrite Hc. destruct (initial_cwnd_ok cfg) as (w & -> & Hw).
  eexists. split; [reflexivity|]. split; [|done].
  split; [done|done|apply initial_srtt_ok|done|by apply derive_target_bounds].
Qed.

Lemma scream_update_ok cfg c fb now : scream_inv cfg c -> stats_wf fb ->
  exists c', scream_update c fb now = Some c' /\ scream_inv cfg c' /\ last_feedback_time c' = Some now /\
    decrease_gated (srtt_secs c') now (last_decrease_time c) (last_decrease_time c') (cwnd c) (cwnd c').
Proof.
  intros [Hc Hb Hs Hw Ht] Hfb. unfold scream_update. set (srtt := if 0 <? rtt fb then _ else _).
  assert (srtt_ok srtt) as Hs' by (unfold srtt; case_match; [by apply smooth_rtt_ok|done]).
  match goal with |- context [window_update srtt ?w fb now] =>
    destruct (window_update_ok srtt w fb now Hs' Hw Hfb) as (w' & -> & Hw' & Hg) end.
  eexists. split; [reflexivity|]. split; [|done]. rewrite Hc.
  split; [done|done|done|done|by apply derive_target_bounds].
Qed.

#[global] Instance scream_laws : CongestionLaws ScreamController.
Proof.
  refine {| cc_inv := scream_inv; cc_last_feedback := last_feedback_time;
            cc_last_decrease := last_decrease_time; cc_srtt := srtt_secs; cc_rate := cwnd;
            cc_initial cfg := default MIN_CWND_BYTES (initial_cwnd cfg) |}.
  - intros cfg c fb now Hi Hfb. cbn [cc_on_feedback scream_controller]. unfold scream_on_feedback.
    destruct (feedback_guard (last_feedback_time c) now) eqn:Eg.
    + by exists c.
    + destruct (scream_restart_ok cfg c now Hi) as (c' & Hr & Hi' & Hf & Hw). exists c'.
      split_and!; [done..|]. by rewrite Hw.
    + by apply scream_update_ok.
  - intros cfg c Hi. apply Hi.
  - intros cfg c _. apply pacing_of_positive.
Defined.

(** ** Both controllers keep the contract *)

(** C38. Congestion control is total, bounded and paced on both transports: started from any
    configuration with ordered bounds, a GCC and a SCReAM controller take any sequence of
    reports, at any times (the clock may jump or run backwards), without a panic.  After every
    report the target rate lies within the configured bounds and the pacing gap is at least one
    microsecond; a report from the past, or less than a millisecond after the last one taken,
    changes nothing; one more than 30 seconds after it puts the controller's rate back to its
    initial value; and on every other report that rate falls, whatever the cause (queueing delay
    or loss), only if at least one smoothed round trip has passed since it last fell.  The rate
    meant here is the quantity the target is computed from: the bandwidth estimate of GCC, the
    congestion window of SCReAM.  SCReAM's target divides the window by the smoothed round trip,
    so it also falls when that rises. *)
Theorem congestion_always_usable cfg reports :
  config_ok cfg -> Forall (fun r => stats_wf r.1) reports ->
  (let c := Gcc.gcc_new cfg in
   exists cs, cc_run c reports = Some cs /\ cc_trace_ok cfg (Gcc.estimate_bps c) None None c reports cs) /\
  (exists c cs, scream_new cfg = Some c /\ cc_run c reports = Some cs /\
                cc_trace_ok cfg (cwnd c) None None c reports cs).
Proof.
  intros Hb Hr. split.
  - apply (cc_run_ok (CL := Gcc.gcc_laws)); [by apply Gcc.gcc_new_inv|by split|done].
  - destruct (scream_new_inv cfg Hb) as (c & Hc & Hi & Hf & Hw). exists c.
    destruct (cc_run_ok (CL := scream_laws) cfg None None c reports Hi) as (cs & Hrun & Ht); [by split|done|].
    exists cs. cbn [cc_initial scream_laws] in Ht. by rewrite Hw in Ht.
Qed.

(** Ten reports of a congested link, 20 ms apart. *)
Definition toy_report : TransportStats :=
  {| rtt := from_millis 50; queue_delay := from_millis 40; bytes_acked := 20000; bytes_lost := 0;
     loss_fraction_q8 := 0; interval := from_millis 20 |}.
Definition toy_reports : list (TransportStats * Z) :=
  (fun i => (toy_report, from_millis (20 * i))) <$> seqZ 1 10.

Lemma congestion_always_usable_witness :
  exists cs, cc_run (Gcc.gcc_new Gcc.gcc_default) toy_reports = Some cs /\
    cc_trace_ok Gcc.gcc_default (f_of_Z 2000000) None None (Gcc.gcc_new Gcc.gcc_default) toy_reports cs /\
    map (fun c => Bitrate.bps (cc_target_bitrate c)) cs =
      [1700000; 1700000; 1700000; 1445000; 1445000; 1445000; 1228250; 1228250; 1228250; 1044012].
Proof.
  assert (config_ok Gcc.gcc_default) as Hb by (vm_compute; split; [split; discriminate|split; [discriminate|reflexivity]]).
  assert (Forall (fun r => stats_wf r.1) toy_reports) as Hw.
  { unfold toy_reports. apply list.Forall_forall. intros r (i & -> & _)%list_elem_of_fmap. cbn [fst].
    unfold stats_wf, is_u32, is_u8. cbn. unfold from_millis. lia. }
  destruct (proj1 (congestion_always_usable Gcc.gcc_default toy_reports Hb Hw)) as (cs & Hr & Ht).
  exists cs. split; [exact Hr|]. split; [exact Ht|].
  assert (match cc_run (Gcc.gcc_new Gcc.gcc_default) toy_reports with
          | Some cs => map (fun c => Bitrate.bps (cc_target_bitrate c)) cs | None => [] end =
    [1700000; 1700000; 1700000; 1445000; 1445000; 1445000; 1228250; 1228250; 1228250; 1044012]) as E
    by (vm_compute; reflexivity).
  rewrite Hr in E. exact E.
Defined.
