(* ===== verification/Capabilities.v ===== *)
(** * sh-core: capabilities and the revocation floor

    [crates/sh-core/src/authz/capabilities.rs] and [epoch.rs].  [Capabilities] is a
    [bitflags] [u32]; [MinEpochStore] is the interface the authorizer is written against,
    with the in-memory store as its instance. *)

From stdpp Require Import base numbers list option.
From S2P Require Import Prelude.

(** ** Capabilities *)

Definition VIEW : Z := Z.shiftl 1 0.
Definition CONTROL : Z := Z.shiftl 1 1.
Definition CLIPBOARD : Z := Z.shiftl 1 2.
Definition FILE : Z := Z.shiftl 1 3.
Definition AUDIO : Z := Z.shiftl 1 4.
Definition ELEVATION : Z := Z.shiftl 1 5.

(** [Capabilities::all()]. *)
Definition caps_all : Z :=
  Z.lor (Z.lor (Z.lor VIEW CONTROL) (Z.lor CLIPBOARD FILE)) (Z.lor AUDIO ELEVATION).

(** [contains]: every bit of [b] is set in [a]. *)
Definition caps_contains (a b : Z) : bool := Z.land a b =? b.

Definition from_bits_truncate (bits : Z) : Z := Z.land bits caps_all.

Lemma caps_contains_and a b c : caps_contains (Z.land a b) c = caps_contains a c && caps_contains b c.
Proof.
  unfold caps_contains. apply eq_true_iff_eq. rewrite andb_true_iff, !Z.eqb_eq.
  split; [intros E; split|intros [Ea Eb]]; apply Z.bits_inj'; intros n Hn.
  - apply (f_equal (fun z => Z.testbit z n)) in E. rewrite !Z.land_spec in *.
    destruct (Z.testbit a n), (Z.testbit b n), (Z.testbit c n); done.
  - apply (f_equal (fun z => Z.testbit z n)) in E. rewrite !Z.land_spec in *.
    destruct (Z.testbit a n), (Z.testbit b n), (Z.testbit c n); done.
  - apply (f_equal (fun z => Z.testbit z n)) in Ea, Eb. rewrite !Z.land_spec in *.
    destruct (Z.testbit a n), (Z.testbit b n), (Z.testbit c n); done.
Qed.

(** ** The revocation floor *)

Class MinEpochStore (S : Type) := {
  store_current : S -> Z;
  (** raises the floor; the store afterwards and the floor it returns *)
  store_bump : S -> Z -> S * Z;
}.

(** The default method of the trait. *)
Definition bump_min_epoch {S} `{MinEpochStore S} (s : S) : S * Z :=
  let cur := store_current s in
  store_bump s (sat_add u64_max cur 1).

(** What the trait documents: [bump] raises the floor to the maximum, never lowers it, and
    returns the new floor. *)
Class MinEpochStoreLaws (S : Type) `{MinEpochStore S} : Prop := {
  store_bump_max s f : store_current (store_bump s f).1 = Z.max (store_current s) f;
  store_bump_ret s f : (store_bump s f).2 = store_current (store_bump s f).1;
}.

Record InMemoryMinEpochStore := { floor : Z }.

Definition in_memory_new (initial : Z) : InMemoryMinEpochStore := {| floor := initial |}.

(** [fetch_max] stores the maximum and returns the old value. *)
Definition in_memory_bump (s : InMemoryMinEpochStore) (new_floor : Z)
  : InMemoryMinEpochStore * Z :=
  let old := floor s in
  ({| floor := Z.max old new_floor |}, Z.max old new_floor).

#[global] Instance in_memory_store : MinEpochStore InMemoryMinEpochStore := {|
  store_current s := floor s;
  store_bump := in_memory_bump;
|}.

#[global] Instance in_memory_store_laws : MinEpochStoreLaws InMemoryMinEpochStore.
Proof. split; done. Qed.

Section Store.
Context {S : Type} `{MinEpochStoreLaws S}.

Lemma bump_min_epoch_current s :
  store_current s < u64_max -> store_current (bump_min_epoch s).1 = store_current s + 1.
Proof. intros Hlt. unfold bump_min_epoch. rewrite store_bump_max. unfold sat_add. lia. Qed.

Lemma bump_min_epoch_mono s : store_current s <= store_current (bump_min_epoch s).1.
Proof. unfold bump_min_epoch. rewrite store_bump_max. lia. Qed.
End Store.

(** ** Concurrent kills

    The default [bump_min_epoch] is a load followed by an atomic [fetch_max].  Each thread
    is in one of three states; a schedule picks which thread moves next. *)

Inductive bumper := Ready | Loaded (cur : Z) | Finished.

Definition bump_step (st : Z * list bumper) (i : nat) : Z * list bumper :=
  let '(fl, ts) := st in
  match ts !! i with
  | Some Ready => (fl, <[i := Loaded fl]> ts)
  | Some (Loaded cur) => (Z.max fl (sat_add u64_max cur 1), <[i := Finished]> ts)
  | _ => (fl, ts)
  end.

Definition bump_run (fl : Z) (n : nat) (sched : list nat) : Z * list bumper :=
  foldl bump_step (fl, replicate n Ready) sched.

Fixpoint finished_count (ts : list bumper) : nat :=
  match ts with
  | [] => 0
  | Finished :: ts' => S (finished_count ts')
  | _ :: ts' => finished_count ts'
  end.

Lemma finished_count_finish ts i cur :
  ts !! i = Some (Loaded cur) -> finished_count (<[i := Finished]> ts) = S (finished_count ts).
Proof.
  revert i. induction ts as [|b ts IH]; intros [|i] Hi; try done.
  - by injection Hi as ->.
  - change (<[S i := Finished]> (b :: ts)) with (b :: <[i := Finished]> ts).
    cbn [finished_count]. rewrite (IH i Hi). by destruct b.
Qed.

Lemma finished_count_load ts i cur :
  ts !! i = Some Ready -> finished_count (<[i := Loaded cur]> ts) = finished_count ts.
Proof.
  revert i. induction ts as [|b ts IH]; intros [|i] Hi; try done.
  - by injection Hi as ->.
  - change (<[S i := Loaded cur]> (b :: ts)) with (b :: <[i := Loaded cur]> ts).
    cbn [finished_count]. by rewrite (IH i Hi).
Qed.

Lemma finished_count_le ts : (finished_count ts <= length ts)%nat.
Proof. induction ts as [|[] ts IH]; cbn; lia. Qed.

(** The floor never falls, gains at most one per finished thread, and is above the initial
    floor as soon as one thread finished. *)
Record bump_inv (fl0 : Z) (n : nat) (st : Z * list bumper) : Prop := {
  bi_len : length st.2 = n;
  bi_floor : fl0 <= st.1 <= fl0 + Z.of_nat (finished_count st.2);
  bi_loaded i cur : st.2 !! i = Some (Loaded cur) -> fl0 <= cur <= st.1;
  bi_finished i : st.2 !! i = Some Finished -> fl0 + 1 <= st.1;
}.

Lemma bump_step_inv fl0 n st i :
  fl0 + Z.of_nat n <= u64_max -> bump_inv fl0 n st -> bump_inv fl0 n (bump_step st i).
Proof.
  intros Hmax Hi. pose proof Hi as [Hl Hf Hld Hfin]. destruct st as [fl ts]; cbn [fst snd] in *.
  unfold bump_step. destruct (ts !! i) as [[|cur|]|] eqn:E; try done.
  - split; cbn [fst snd].
    + by rewrite length_insert.
    + by rewrite (finished_count_load _ _ _ E).
    + intros j c [(_ & [= <-] & _)|[_ Hj]]%list_lookup_insert_Some; [lia|by apply (Hld j)].
    + intros j [(_ & [=] & _)|[_ Hj]]%list_lookup_insert_Some. by apply (Hfin j).
  - pose proof (Hld i cur E) as Hc. pose proof (finished_count_le (<[i := Finished]> ts)) as Hle.
    rewrite (finished_count_finish _ _ _ E), length_insert in Hle.
    assert (Z.max fl (sat_add u64_max cur 1) = Z.max fl (cur + 1)) as ->.
    { unfold sat_add. lia. }
    split; cbn [fst snd].
    + by rewrite length_insert.
    + rewrite (finished_count_finish _ _ _ E). lia.
    + intros j c [(_ & [=] & _)|[_ Hj]]%list_lookup_insert_Some. specialize (Hld j c Hj). lia.
    + intros j _. lia.
Qed.

(** Concurrent kill-switches: under any interleaving of the load and the [fetch_max] of
    [n] threads calling [bump_min_epoch], the floor never goes back, rises by at least one
    as soon as one call has returned, and by at most one per call. *)
Lemma concurrent_bumps fl n sched :
  0 <= fl -> fl + Z.of_nat n <= u64_max ->
  let '(fl', ts) := bump_run fl n sched in
  fl <= fl' <= fl + Z.of_nat n /\ (Finished ∈ ts -> fl < fl').
Proof.
  intros H0 Hmax. assert (bump_inv fl n (bump_run fl n sched)) as Hinv.
  { unfold bump_run. assert (bump_inv fl n (fl, replicate n Ready)) as Hi.
    { split; cbn [fst snd]; [by rewrite length_replicate|lia| |];
        intros i; [intros cur|]; by intros [[=] _]%lookup_replicate. }
    revert Hi. generalize (fl, replicate n Ready) as st.
    induction sched as [|i sched IH]; intros st Hi; [done|]. by apply IH, bump_step_inv. }
  destruct (bump_run fl n sched) as [fl' ts]. destruct Hinv as [Hl Hf _ Hfin]. cbn [fst snd] in *.
  pose proof (finished_count_le ts). split; [lia|].
  intros [i Hi]%list_elem_of_lookup. specialize (Hfin i Hi). lia.
Qed.

Lemma concurrent_bumps_witness :
  bump_run 5 2 [0%nat; 1%nat; 1%nat; 0%nat] = (6, [Finished; Finished]) /\ 5 < 6.
Proof.
  split; [vm_compute; reflexivity|].
  pose proof (concurrent_bumps 5 2 [0%nat; 1%nat; 1%nat; 0%nat] ltac:(lia)
    ltac:(vm_compute; discriminate)) as H.
  change (bump_run 5 2 [0%nat; 1%nat; 1%nat; 0%nat]) with (6, [Finished; Finished]) in H.
  apply (proj2 H). left.
Defined.
