(* ===== verification/Ugc.v ===== *)
(** * sh-core: unattended grant certificates

    [crates/sh-core/src/authz/ugc.rs]: the 73-byte to-be-signed structure, its wire form,
    issuance and the ordered checks of [verify].  The keystore's signing operation is an
    argument; SHA-256 and Ed25519 verification are the operations of [SigPrims].  A
    [DeviceIdentity] is its 32-byte public key. *)

From stdpp Require Import base numbers list option gmap strings.
From S2P Require Import Prelude CryptoTypes Identity PeerAuth Signaling BindCert Capabilities.

Definition DOMAIN_TAG : bytes := lit "SHP-UGC" ++ [0; 0; 0; 0].
Definition TBS_VERSION : Z := 1.
Definition FIELD_COUNT : Z := 5.
Definition UGC_TBS_LEN : Z := 73.
Definition UGC_WIRE_LEN : Z := 4 + UGC_TBS_LEN + 64.
Definition CLOCK_SKEW_TOLERANCE_SECS : Z := 300.
Definition OFF_DOMAIN_TAG : Z := 0.
Definition OFF_TBS_VERSION : Z := 11.
Definition OFF_FIELD_COUNT : Z := 12.
Definition OFF_GRANTEE_DEVICE_ID : Z := 13.
Definition OFF_CAPS : Z := 45.
Definition OFF_EPOCH : Z := 49.
Definition OFF_NOT_AFTER : Z := 57.
Definition OFF_ISSUED_AT : Z := 65.

Record UgcFields := {
  grantee_device_id : bytes;
  caps_raw : Z;
  ugc_epoch : Z;
  not_after : Z;
  issued_at : Z;
}.

Record Ugc := {
  tbs_bytes : bytes;
  signature : bytes;
  fields : UgcFields;
}.

Definition build_tbs (gid : bytes) (caps_raw epoch not_after issued_at : Z) : bytes :=
  let tbs := replicate (Z.to_nat UGC_TBS_LEN) 0 in
  let tbs := copy_at tbs OFF_DOMAIN_TAG DOMAIN_TAG in
  let tbs := <[Z.to_nat OFF_TBS_VERSION := TBS_VERSION]> tbs in
  let tbs := <[Z.to_nat OFF_FIELD_COUNT := FIELD_COUNT]> tbs in
  let tbs := copy_at tbs OFF_GRANTEE_DEVICE_ID gid in
  let tbs := copy_at tbs OFF_CAPS (to_be 4 caps_raw) in
  let tbs := copy_at tbs OFF_EPOCH (to_be 8 epoch) in
  let tbs := copy_at tbs OFF_NOT_AFTER (to_be 8 not_after) in
  copy_at tbs OFF_ISSUED_AT (to_be 8 issued_at).

Definition ugc_decode (wire : bytes) : result CryptoError Ugc :=
  if negb (blen wire =? UGC_WIRE_LEN)
  then Err (MalformedUgc "UGC wire length must be exactly 141 bytes (4+73+64)") else
  let? tbs_len_prefix := ok_or (get_range wire 0 4) (MalformedUgc "lp32 prefix conversion failed") in
  if negb (from_be tbs_len_prefix =? UGC_TBS_LEN)
  then Err (MalformedUgc "lp32 length must be exactly 73 (UGC_TBS_LEN)") else
  let? tbs := ok_or (get_range wire 4 (4 + UGC_TBS_LEN)) (MalformedUgc "wire too short for TBS") in
  let? sig_bytes := ok_or (get_from wire (4 + UGC_TBS_LEN))
                          (MalformedUgc "wire too short for signature") in
  let? sig := map_err (fun _ => MalformedUgc "signature bytes must be exactly 64 bytes")
                      (signature_decode sig_bytes) in
  let? tag := ok_or (get_range tbs OFF_DOMAIN_TAG (OFF_DOMAIN_TAG + 11))
                    (MalformedUgc "TBS too short for domain tag") in
  if negb (bytes_eqb tag DOMAIN_TAG) then Err (MalformedUgc "domain tag mismatch") else
  let? version := ok_or (tbs !! Z.to_nat OFF_TBS_VERSION)
                        (MalformedUgc "TBS too short for version byte") in
  if negb (version =? TBS_VERSION) then Err (MalformedUgc "unsupported TBS version") else
  let? field_count := ok_or (tbs !! Z.to_nat OFF_FIELD_COUNT)
                            (MalformedUgc "TBS too short for field count") in
  if negb (field_count =? FIELD_COUNT) then Err (MalformedUgc "field count mismatch") else
  let? gid := ok_or (get_range tbs OFF_GRANTEE_DEVICE_ID (OFF_GRANTEE_DEVICE_ID + 32))
                    (MalformedUgc "TBS too short for GRANTEE_DEVICE_ID") in
  let? caps_arr := ok_or (get_range tbs OFF_CAPS (OFF_CAPS + 4))
                         (MalformedUgc "TBS too short for CAPS") in
  let? epoch_arr := ok_or (get_range tbs OFF_EPOCH (OFF_EPOCH + 8))
                          (MalformedUgc "TBS too short for EPOCH") in
  let? na_arr := ok_or (get_range tbs OFF_NOT_AFTER (OFF_NOT_AFTER + 8))
                       (MalformedUgc "TBS too short for NOT_AFTER") in
  let na := to_signed 64 (from_be na_arr) in
  let? ia_arr := ok_or (get_range tbs OFF_ISSUED_AT (OFF_ISSUED_AT + 8))
                       (MalformedUgc "TBS too short for ISSUED_AT") in
  let ia := to_signed 64 (from_be ia_arr) in
  if na <=? ia then Err (MalformedUgc "NOT_AFTER must be strictly greater than ISSUED_AT") else
  Ok {| tbs_bytes := tbs;
        signature := sig;
        fields := {| grantee_device_id := gid; caps_raw := from_be caps_arr;
                     ugc_epoch := from_be epoch_arr; not_after := na; issued_at := ia |} |}.

Definition wire_bytes (u : Ugc) : bytes :=
  to_be 4 UGC_TBS_LEN ++ tbs_bytes u ++ signature u.

Section Sig.
Context `{SP : SigPrims}.

(** [sign] is [keystore.sign], [now] the injected clock. *)
Definition ugc_encode (sign : bytes -> result CryptoError bytes) (grantee : bytes)
    (caps epoch not_after now : Z) : result CryptoError Ugc :=
  let issued_at := now in
  if not_after <=? issued_at
  then Err (MalformedUgc "not_after must be strictly greater than issued_at") else
  let gid := sha256 grantee in
  let tbs := build_tbs gid caps epoch not_after issued_at in
  let? sig := sign tbs in
  Ok {| tbs_bytes := tbs; signature := sig;
        fields := {| grantee_device_id := gid; caps_raw := caps; ugc_epoch := epoch;
                     not_after := not_after; issued_at := issued_at |} |}.

Definition ugc_verify (u : Ugc) (host_identity grantee_peer_identity : bytes)
    (min_epoch now : Z) : result CryptoError Z :=
  if negb (ed25519_verify host_identity (tbs_bytes u) (signature u)) then Err UgcBadSignature else
  if negb (bytes_eqb (grantee_device_id (fields u)) (sha256 grantee_peer_identity))
  then Err UgcWrongGrantee else
  if i64_sat_add (not_after (fields u)) CLOCK_SKEW_TOLERANCE_SECS <=? now then Err UgcExpired else
  if i64_sat_add now CLOCK_SKEW_TOLERANCE_SECS <? issued_at (fields u) then Err UgcExpired else
  if ugc_epoch (fields u) <? min_epoch then Err UgcRevoked else
  Ok (from_bits_truncate (caps_raw (fields u))).
End Sig.

(** ** Layout *)

Definition fields_ok (f : UgcFields) : Prop :=
  blen (grantee_device_id f) = 32 /\ bytes_ok (grantee_device_id f) /\
  is_u32 (caps_raw f) /\ is_u64 (ugc_epoch f) /\
  is_i64 (not_after f) /\ is_i64 (issued_at f) /\ issued_at f < not_after f.

Definition tbs_of (f : UgcFields) : bytes :=
  DOMAIN_TAG ++ [TBS_VERSION; FIELD_COUNT] ++ grantee_device_id f ++ to_be 4 (caps_raw f)
  ++ to_be 8 (ugc_epoch f) ++ to_be 8 (not_after f) ++ to_be 8 (issued_at f).

Lemma build_tbs_eq f :
  blen (grantee_device_id f) = 32 ->
  build_tbs (grantee_device_id f) (caps_raw f) (ugc_epoch f) (not_after f) (issued_at f) = tbs_of f.
Proof.
  unfold blen. destruct f as [gid caps ep na ia]; cbn [grantee_device_id caps_raw ugc_epoch not_after issued_at].
  intros Hl. assert (length gid = 32%nat) as H32 by lia. clear Hl.
  do 32 (destruct gid as [|? gid]; [done|]). destruct gid; [|done]. reflexivity.
Qed.

(** The pieces of a 73-byte TBS. *)
Record tbs_pieces (tbs tag gid caps ep na ia : bytes) (ver fc : Z) : Prop := {
  tp_eq : tbs = tag ++ [ver; fc] ++ gid ++ caps ++ ep ++ na ++ ia;
  tp_tag : blen tag = 11; tp_gid : blen gid = 32; tp_caps : blen caps = 4;
  tp_ep : blen ep = 8; tp_na : blen na = 8; tp_ia : blen ia = 8;
}.

Lemma tbs_split tbs :
  blen tbs = UGC_TBS_LEN -> exists tag gid caps ep na ia ver fc,
    tbs_pieces tbs tag gid caps ep na ia ver fc.
Proof.
  intros Hl. destruct (split_blen tbs 11 62 Hl) as (tag & r1 & -> & ? & Hr1); [lia..|].
  destruct (split_blen r1 1 61 Hr1) as (v & r2 & -> & Hv & Hr2); [lia..|].
  destruct (split_blen r2 1 60 Hr2) as (c & r3 & -> & Hc & Hr3); [lia..|].
  destruct (split_blen r3 32 28 Hr3) as (gid & r4 & -> & ? & Hr4); [lia..|].
  destruct (split_blen r4 4 24 Hr4) as (caps & r5 & -> & ? & Hr5); [lia..|].
  destruct (split_blen r5 8 16 Hr5) as (ep & r6 & -> & ? & Hr6); [lia..|].
  destruct (split_blen r6 8 8 Hr6) as (na & ia & -> & ? & ?); [lia..|].
  destruct (singleton_blen v Hv) as [ver ->]. destruct (singleton_blen c Hc) as [fc ->].
  exists tag, gid, caps, ep, na, ia, ver, fc. by split.
Qed.

(** The reads of [decode] return the pieces. *)
Lemma tbs_reads tbs tag gid caps ep na ia ver fc :
  tbs_pieces tbs tag gid caps ep na ia ver fc ->
  get_range tbs OFF_DOMAIN_TAG (OFF_DOMAIN_TAG + 11) = Some tag /\
  tbs !! Z.to_nat OFF_TBS_VERSION = Some ver /\ tbs !! Z.to_nat OFF_FIELD_COUNT = Some fc /\
  get_range tbs OFF_GRANTEE_DEVICE_ID (OFF_GRANTEE_DEVICE_ID + 32) = Some gid /\
  get_range tbs OFF_CAPS (OFF_CAPS + 4) = Some caps /\
  get_range tbs OFF_EPOCH (OFF_EPOCH + 8) = Some ep /\
  get_range tbs OFF_NOT_AFTER (OFF_NOT_AFTER + 8) = Some na /\
  get_range tbs OFF_ISSUED_AT (OFF_ISSUED_AT + 8) = Some ia.
Proof.
  intros [-> Ht Hg Hc He Hn Hi].
  assert (length tag = 11%nat) as Hl by (unfold blen in Ht; lia).
  unfold OFF_DOMAIN_TAG, OFF_GRANTEE_DEVICE_ID, OFF_CAPS, OFF_EPOCH, OFF_NOT_AFTER, OFF_ISSUED_AT.
  split_and!.
  - by apply (get_range_at _ [] tag ([ver; fc] ++ gid ++ caps ++ ep ++ na ++ ia)).
  - change (Z.to_nat OFF_TBS_VERSION) with 11%nat. rewrite lookup_app_r, Hl by lia. done.
  - change (Z.to_nat OFF_FIELD_COUNT) with 12%nat. rewrite lookup_app_r, Hl by lia. done.
  - apply (get_range_at _ (tag ++ [ver; fc]) gid (caps ++ ep ++ na ++ ia));
      [by rewrite <- !app_assoc|rewrite !blen_app; unfold blen in *; cbn [length]; lia|lia].
  - apply (get_range_at _ (tag ++ [ver; fc] ++ gid) caps (ep ++ na ++ ia));
      [by rewrite <- !app_assoc|rewrite !blen_app; unfold blen in *; cbn [length]; lia|lia].
  - apply (get_range_at _ (tag ++ [ver; fc] ++ gid ++ caps) ep (na ++ ia));
      [by rewrite <- !app_assoc|rewrite !blen_app; unfold blen in *; cbn [length]; lia|lia].
  - apply (get_range_at _ (tag ++ [ver; fc] ++ gid ++ caps ++ ep) na ia);
      [by rewrite <- !app_assoc|rewrite !blen_app; unfold blen in *; cbn [length]; lia|lia].
  - apply (get_range_at _ (tag ++ [ver; fc] ++ gid ++ caps ++ ep ++ na) ia []);
      [by rewrite app_nil_r, <- !app_assoc|rewrite !blen_app; unfold blen in *; cbn [length]; lia|lia].
Qed.

Lemma tbs_of_pieces f :
  blen (grantee_device_id f) = 32 ->
  tbs_pieces (tbs_of f) DOMAIN_TAG (grantee_device_id f) (to_be 4 (caps_raw f)) (to_be 8 (ugc_epoch f))
    (to_be 8 (not_after f)) (to_be 8 (issued_at f)) TBS_VERSION FIELD_COUNT.
Proof. intros H. split; try done. Qed.

Lemma blen_tbs_of f : blen (grantee_device_id f) = 32 -> blen (tbs_of f) = UGC_TBS_LEN.
Proof. intros H. unfold tbs_of. rewrite !blen_app, H, !blen_to_be. reflexivity. Qed.

(** A certificate as [encode] builds it. *)
Definition ugc_of (f : UgcFields) (sig : bytes) : Ugc :=
  {| tbs_bytes := tbs_of f; signature := sig; fields := f |}.

Lemma ugc_decode_encode f sig :
  fields_ok f -> blen sig = 64 -> ugc_decode (wire_bytes (ugc_of f sig)) = Ok (ugc_of f sig).
Proof.
  intros (Hg & _ & Hc & He & Hn & Hi & Hlt) Hs. unfold is_u32, is_u64 in *.
  pose proof (blen_tbs_of f Hg) as Htl. unfold wire_bytes, ugc_of. cbn [tbs_bytes signature].
  unfold ugc_decode. rewrite !blen_app, blen_to_be, Htl, Hs. cbn [negb]. change (_ =? UGC_WIRE_LEN) with true. cbn [negb].
  rewrite (get_range_at _ [] (to_be 4 UGC_TBS_LEN) (tbs_of f ++ sig)) by done. cbn [ok_or].
  change (from_be (to_be 4 UGC_TBS_LEN) =? UGC_TBS_LEN) with true. cbn [negb].
  rewrite (get_range_at _ (to_be 4 UGC_TBS_LEN) (tbs_of f) sig) by (done || by rewrite Htl). cbn [ok_or].
  rewrite (get_from_at _ (to_be 4 UGC_TBS_LEN ++ tbs_of f) sig) by
    (by rewrite <- ?app_assoc || by rewrite blen_app, Htl). cbn [ok_or].
  unfold signature_decode. rewrite Hs. cbn [Z.eqb map_err]. change (64 =? 64) with true. cbn [map_err].
  destruct (tbs_reads _ _ _ _ _ _ _ _ _ (tbs_of_pieces f Hg)) as (-> & -> & -> & -> & -> & -> & -> & ->).
  cbn [ok_or]. unfold bytes_eqb. rewrite bool_decide_eq_true_2 by done. rewrite !Z.eqb_refl. cbn [negb].
  rewrite !to_signed_be by done. rewrite (proj2 (Z.leb_gt _ _)) by lia.
  rewrite !from_be_to_be_small by (cbn; lia). by destruct f.
Qed.

Lemma ugc_decode_canonical w u :
  bytes_ok w -> ugc_decode w = Ok u ->
  fields_ok (fields u) /\ blen (signature u) = 64 /\ u = ugc_of (fields u) (signature u) /\
  wire_bytes u = w.
Proof.
  intros Hb. unfold ugc_decode.
  destruct (blen w =? UGC_WIRE_LEN) eqn:Hl; [|done]. cbn [negb]. apply Z.eqb_eq in Hl.
  destruct (split_blen w 4 137 Hl) as (pre & r & -> & Hp & Hr); [lia..|].
  destruct (split_blen r 73 64 Hr) as (tbs & sig & -> & Ht & Hs); [lia..|].
  rewrite (get_range_at _ [] pre (tbs ++ sig)) by (done || by rewrite Hp). cbn [ok_or].
  destruct (from_be pre =? UGC_TBS_LEN) eqn:Ep; [|done]. cbn [negb]. apply Z.eqb_eq in Ep.
  rewrite (get_range_at _ pre tbs sig) by (done || by rewrite Ht). cbn [ok_or].
  rewrite (get_from_at _ (pre ++ tbs) sig) by (by rewrite <- ?app_assoc || by rewrite blen_app, Hp, Ht).
  cbn [ok_or]. unfold signature_decode. rewrite Hs. change (64 =? 64) with true. cbn [map_err].
  destruct (tbs_split tbs Ht) as (tag & gid & caps & ep & na & ia & ver & fc & Hpc).
  destruct (tbs_reads _ _ _ _ _ _ _ _ _ Hpc) as (-> & -> & -> & -> & -> & -> & -> & ->). cbn [ok_or].
  unfold bytes_eqb. case_bool_decide as Etag; [|done]. cbn [negb].
  destruct (Z.eqb_spec ver TBS_VERSION) as [->|]; [|done]. cbn [negb].
  destruct (Z.eqb_spec fc FIELD_COUNT) as [->|]; [|done]. cbn [negb].
  destruct (_ <=? _) eqn:Elt; [done|]. simplify_bool. intros E. apply Ok_inj in E as <-.
  cbn [fields signature]. destruct Hpc as [-> _ Hg Hc He Hn Hi]. unfold bytes_ok in Hb. subst tag.
  rewrite !Forall_app in Hb. destruct Hb as (Hbp & (_ & _ & Hbg & Hbc & Hbe & Hbn & Hbi) & _).
  destruct (be_to_signed na Hbn Hn) as [Hna Ena]. destruct (be_to_signed ia Hbi Hi) as [Hia Eia].
  pose proof (from_be_range caps Hbc) as Rc. pose proof (from_be_range ep Hbe) as Re.
  rewrite Hc in Rc. rewrite He in Re.
  assert (forall l n, bytes_ok l -> blen l = Z.of_nat n -> to_be n (from_be l) = l) as Hbe'.
  { intros l n Hbl Hnl. replace n with (length l) by (unfold blen in Hnl; lia). by apply to_be_from_be. }
  assert (DOMAIN_TAG ++ [TBS_VERSION; FIELD_COUNT] ++ gid ++ caps ++ ep ++ na ++ ia =
    tbs_of {| grantee_device_id := gid; caps_raw := from_be caps; ugc_epoch := from_be ep;
              not_after := to_signed 64 (from_be na); issued_at := to_signed 64 (from_be ia) |}) as Etbs.
  { unfold tbs_of. cbn [grantee_device_id caps_raw ugc_epoch not_after issued_at].
    by rewrite Ena, Eia, (Hbe' caps 4%nat), (Hbe' ep 8%nat). }
  split_and!; try done.
  - unfold ugc_of. by rewrite Etbs.
  - unfold wire_bytes. cbn [tbs_bytes signature]. f_equal. rewrite <- Ep. by apply Hbe'.
Qed.

(** The certificate wire form has exactly one encoding: 141 bytes decode to [u] iff they
    are the wire bytes of [u] and [u] is a certificate [encode] can build (32-byte grantee,
    fields in range, [ISSUED_AT < NOT_AFTER], 64-byte signature). *)
Lemma ugc_wire_canonical w u :
  bytes_ok w ->
  ugc_decode w = Ok u <->
  fields_ok (fields u) /\ blen (signature u) = 64 /\ u = ugc_of (fields u) (signature u) /\
  w = wire_bytes u.
Proof.
  intros Hb. split.
  - intros Hd. destruct (ugc_decode_canonical w u Hb Hd) as (? & ? & ? & ?). done.
  - intros (Hf & Hs & Hu & ->). pose proof (ugc_decode_encode _ _ Hf Hs) as E. by rewrite <- Hu in E.
Qed.

Section Verify.
Context `{SP : SigPrims} `{SL : !SigLaws}.

(** C34. [verify] grants exactly when every ordered check holds: the host's signature over the
    received bytes, the grantee digest of the authenticated peer, the validity interval
    widened by 300 seconds on both sides, and the revocation floor; it then returns the
    granted bits without the reserved ones. *)
Theorem ugc_verify_iff u host peer min_epoch now caps :
  is_i64 (not_after (fields u)) -> is_i64 (issued_at (fields u)) -> i64_min <= now < i64_max ->
  ugc_verify u host peer min_epoch now = Ok caps <->
  ed25519_verify host (tbs_bytes u) (signature u) = true /\
  grantee_device_id (fields u) = sha256 peer /\
  issued_at (fields u) - CLOCK_SKEW_TOLERANCE_SECS <= now
    < not_after (fields u) + CLOCK_SKEW_TOLERANCE_SECS /\
  min_epoch <= ugc_epoch (fields u) /\
  caps = from_bits_truncate (caps_raw (fields u)).
Proof.
  unfold is_i64, i64_min, i64_max. intros Hn Hi Hnow. unfold ugc_verify, CLOCK_SKEW_TOLERANCE_SECS.
  unfold i64_sat_add, i64_clamp, i64_min, i64_max, bytes_eqb.
  destruct (ed25519_verify _ _ _); cbn [negb]; [|split; [done|by intros [? _]]].
  case_bool_decide as Hg; cbn [negb]; [|split; [done|by intros (_ & ? & _)]].
  repeat (case_match; simplify_bool; [split; [done|intros (?&?&?&?&?); lia]|]).
  split; [intros [= <-]; split_and!; done || lia|intros (_&_&_&_&->); done].
Qed.

(** Issue and use: a certificate the host signs for a peer survives the wire unchanged and
    verifies for that peer, with the granted capabilities, at every time of its validity and
    under every floor not above its epoch. *)
Lemma ugc_issue_then_verify sign host peer caps epoch na now u min_epoch now' :
  is_u32 caps -> is_u64 epoch -> is_i64 na -> is_i64 now -> i64_min <= now' < i64_max ->
  (forall m s, sign m = Ok s -> blen s = 64 /\ ed25519_verify host m s = true) ->
  ugc_encode sign peer caps epoch na now = Ok u ->
  now <= now' < na -> min_epoch <= epoch ->
  ugc_decode (wire_bytes u) = Ok u /\
  ugc_verify u host peer min_epoch now' = Ok (from_bits_truncate caps).
Proof.
  intros Hc He Hna Hnow Hnow' Hsign Henc Hin Hmin. unfold ugc_encode in Henc.
  destruct (na <=? now) eqn:Elt; [done|]. simplify_bool.
  set (f := {| grantee_device_id := sha256 peer; caps_raw := caps; ugc_epoch := epoch;
               not_after := na; issued_at := now |}) in *.
  pose proof (build_tbs_eq f (sha256_len peer)) as Etbs.
  cbn [f grantee_device_id caps_raw ugc_epoch not_after issued_at] in Etbs. fold f in Etbs.
  rewrite Etbs in Henc. destruct (sign (tbs_of f)) as [sig|] eqn:Es; [|done].
  apply Ok_inj in Henc as <-. destruct (Hsign _ _ Es) as [Hl Hv].
  split.
  - apply (ugc_decode_encode f sig); [|done]. split_and!; try done; [apply sha256_len|apply sha256_bytes].
  - unfold ugc_verify. cbn [tbs_bytes signature fields]. rewrite Hv. cbn [negb].
    unfold bytes_eqb. rewrite bool_decide_eq_true_2 by done. cbn [negb].
    cbn [f grantee_device_id caps_raw ugc_epoch not_after issued_at].
    unfold CLOCK_SKEW_TOLERANCE_SECS, i64_sat_add, i64_clamp, is_i64, i64_min, i64_max in *.
    rewrite (proj2 (Z.leb_gt _ _)) by lia. rewrite !(proj2 (Z.ltb_ge _ _)) by lia. done.
Qed.
End Verify.

(** A certificate for the witnesses: the host key [9; 9] grants [VIEW | CONTROL | FILE]. *)
Definition toy_ugc : Ugc :=
  match ugc_encode (fun m => Ok (toy_sign [9; 9] m)) [4; 5] 11 3 5000 1000 with
  | Ok u => u
  | Err _ => ugc_of {| grantee_device_id := []; caps_raw := 0; ugc_epoch := 0; not_after := 0;
                       issued_at := 0 |} []
  end.

Lemma toy_ugc_encoded :
  ugc_encode (fun m => Ok (toy_sign [9; 9] m)) [4; 5] 11 3 5000 1000 = Ok toy_ugc.
Proof. vm_compute. reflexivity. Qed.

Lemma toy_signs m s : Ok (toy_sign [9; 9] m) = @Ok CryptoError bytes s ->
  blen s = 64 /\ ed25519_verify [9; 9] m s = true.
Proof.
  intros H. apply Ok_inj in H as <-. split; [apply (blen_to_be 64)|].
  cbn -[toy_sign]. unfold bytes_eqb. by apply bool_decide_eq_true_2.
Qed.

Lemma ugc_issue_then_verify_witness :
  from_bits_truncate 11 = 11 /\
  ugc_decode (wire_bytes toy_ugc) = Ok toy_ugc /\
  ugc_verify toy_ugc [9; 9] [4; 5] 2 4999 = Ok (from_bits_truncate 11).
Proof.
  split; [reflexivity|].
  assert (is_u32 11) as H1 by (unfold is_u32; lia).
  assert (is_u64 3) as H2 by (unfold is_u64; lia).
  assert (is_i64 5000) as H3 by (unfold is_i64, i64_min, i64_max; lia).
  assert (is_i64 1000) as H4 by (unfold is_i64, i64_min, i64_max; lia).
  assert (i64_min <= 4999 < i64_max) as H5 by (unfold i64_min, i64_max; lia).
  assert (1000 <= 4999 < 5000) as H6 by lia.
  assert (2 <= 3) as H7 by lia.
  exact (ugc_issue_then_verify (fun m => Ok (toy_sign [9; 9] m)) [9; 9] [4; 5] 11 3 5000 1000
           toy_ugc 2 4999 H1 H2 H3 H4 H5 toy_signs toy_ugc_encoded H6 H7).
Defined.

(** 299 seconds after [NOT_AFTER] the certificate still verifies; one second later not. *)
Lemma ugc_verify_iff_witness :
  not_after (fields toy_ugc) = 5000 /\
  ugc_verify toy_ugc [9; 9] [4; 5] 3 5299 = Ok 11 /\
  ugc_verify toy_ugc [9; 9] [4; 5] 3 5300 = Err UgcExpired.
Proof.
  split; [vm_compute; reflexivity|]. split; [|vm_compute; reflexivity].
  assert (is_i64 (not_after (fields toy_ugc))) as Hn by (vm_compute; split; discriminate).
  assert (is_i64 (issued_at (fields toy_ugc))) as Hi by (vm_compute; split; discriminate).
  refine (proj2 (ugc_verify_iff toy_ugc [9; 9] [4; 5] 3 5299 11 Hn Hi _) _).
  - vm_compute; split; (discriminate || reflexivity).
  - split_and!; vm_compute; (discriminate || reflexivity).
Defined.

(** ** Signed documents on the wire

    The four documents a device signs or presents before it trusts anything else (the grant
    certificate, the binding certificate of [BindCert], the identity proof of [PeerAuth]) and
    the signaling envelope that carries them have one byte form each. *)

(** Grant certificates, binding certificates, identity proofs and signaling envelopes have
    exactly one encoding: bytes decode to a document iff they are the encoding of that
    document (for an envelope, start with it) and the document is one that can be issued:
    its signed part is the layout of its fields, those are in range and the signature has
    64 bytes. Nobody can re-encode a signed document into other bytes that are accepted. *)
Lemma signed_documents_canonical w u c p env :
  bytes_ok w ->
  (ugc_decode w = Ok u <->
     fields_ok (fields u) /\ blen (signature u) = 64 /\
     u = ugc_of (fields u) (signature u) /\ w = wire_bytes u) /\
  (bind_cert_decode w = Ok c <->
     tbs_fields_ok (bc_fields c) /\ blen (bc_signature c) = SIGNATURE_LEN /\
     c = cert_of (bc_fields c) (bc_signature c) /\ w = bind_cert_encode c) /\
  (proof_decode w = Ok p <-> proof_ok p /\ w = proof_encode p) /\
  (envelope_decode w = Ok env <->
     envelope_ok env /\ exists b rest, envelope_encode env = Ok b /\ w = b ++ rest).
Proof.
  intros Hw. split_and!.
  - by apply ugc_wire_canonical.
  - by apply bind_cert_wire_canonical.
  - apply proof_decode_iff.
  - by apply envelope_decode_iff.
Qed.

Lemma signed_documents_canonical_witness :
  fields_ok (fields toy_ugc) /\ tbs_fields_ok (bc_fields toy_cert) /\
  bind_cert_decode (bind_cert_encode toy_cert) = Ok toy_cert.
Proof.
  pose (p := {| device_pubkey := []; proof_challenge := []; proof_signature := [] |}).
  pose (env := {| kind := Offer; session_id := []; from_fp := []; to_fp := []; payload := [] |}).
  assert (bytes_ok (wire_bytes toy_ugc)) as H1 by (apply bytes_okb_ok; vm_compute; reflexivity).
  assert (bytes_ok (bind_cert_encode toy_cert)) as H2 by (apply bytes_okb_ok; vm_compute; reflexivity).
  assert (ugc_decode (wire_bytes toy_ugc) = Ok toy_ugc) as D1 by (vm_compute; reflexivity).
  assert (bind_cert_decode (bind_cert_encode toy_cert) = Ok toy_cert) as D2 by (vm_compute; reflexivity).
  destruct (signed_documents_canonical (wire_bytes toy_ugc) toy_ugc toy_cert p env H1) as (C1 & _).
  destruct (signed_documents_canonical (bind_cert_encode toy_cert) toy_ugc toy_cert p env H2)
    as (_ & C2 & _).
  split; [|split].
  - exact (proj1 (proj1 C1 D1)).
  - exact (proj1 (proj1 C2 D2)).
  - exact D2.
Defined.
