(* ===== verification/Authorizer.v ===== *)
(** * sh-core: the session authorizer and the kill-switch

    [SessionAuthorizer] of [crates/sh-core/src/authz/authorizer.rs], generic in the
    revocation store through the interface [MinEpochStore]; [kill] acts on the session keys
    of [ChannelCrypto]. *)

From stdpp Require Import base numbers list option strings.
From S2P Require Import Prelude Types CryptoTypes ChannelFrame Handshake ChannelCrypto.
From S2P Require Import Ratchet ChannelSession ChannelDelivery Capabilities Ugc.

(** Unix seconds at which the human granted elevation. *)
Record FreshPresence := { granted_at : Z }.

Definition ELEVATION_FRESHNESS_WINDOW_SECS : Z := 600.

Inductive PrivilegedAction :=
| ViewFrame | InjectPointer | InjectKey | ReadClipboard | WriteClipboard
| StartFileTransfer | ReceiveFile | PlayAudio | ElevatedAction.

#[global] Instance PrivilegedAction_eq_dec : EqDecision PrivilegedAction.
Proof. solve_decision. Defined.

Definition required_cap (a : PrivilegedAction) : Z :=
  match a with
  | ViewFrame => VIEW
  | InjectPointer | InjectKey => CONTROL
  | ReadClipboard | WriteClipboard => CLIPBOARD
  | StartFileTransfer | ReceiveFile => FILE
  | PlayAudio => AUDIO
  | ElevatedAction => ELEVATION
  end.

Inductive Denied :=
| CapabilityMissing (action : PrivilegedAction) (required held : Z)
| ElevationRequiresFreshPresence
| Killed.

Record SessionAuthorizer (S : Type) := {
  sealed_caps : Z;
  killed : bool;
  fresh_presence : option FreshPresence;
  epoch_store : S;
}.
Arguments sealed_caps {S} _.
Arguments killed {S} _.
Arguments fresh_presence {S} _.
Arguments epoch_store {S} _.
Arguments Build_SessionAuthorizer {S} _ _ _ _.

Section Authorizer.
Context {S : Type} `{Store : MinEpochStore S}.

(** [SessionAuthorizer::seal]. *)
Definition seal_mask (device_acl_caps ugc_caps attended_selection account_policy_caps : Z)
    (store : S) : SessionAuthorizer S :=
  {| sealed_caps := Z.land (Z.land (Z.land device_acl_caps ugc_caps) attended_selection)
                           account_policy_caps;
     killed := false;
     fresh_presence := None;
     epoch_store := store |}.

Definition set_fresh_presence (a : SessionAuthorizer S) (p : FreshPresence) : SessionAuthorizer S :=
  if negb (killed a)
  then {| sealed_caps := sealed_caps a; killed := killed a; fresh_presence := Some p;
          epoch_store := epoch_store a |}
  else a.

Definition authorize (a : SessionAuthorizer S) (action : PrivilegedAction) : result Denied () :=
  if killed a then Err Killed else
  if bool_decide (action = ElevatedAction) then Err ElevationRequiresFreshPresence else
  let required := required_cap action in
  if negb (caps_contains (sealed_caps a) required)
  then Err (CapabilityMissing action required (sealed_caps a))
  else Ok tt.

Definition is_fresh (p : option FreshPresence) (now : Z) : bool :=
  match p with
  | None => false
  | Some fp =>
      if now <? granted_at fp then false else
      let age := i64_sat_sub now (granted_at fp) in
      age <=? ELEVATION_FRESHNESS_WINDOW_SECS
  end.

Definition authorize_with_clock (a : SessionAuthorizer S) (action : PrivilegedAction) (now : Z)
  : result Denied () :=
  if killed a then Err Killed else
  let required := required_cap action in
  if bool_decide (action = ElevatedAction) then
    if negb (caps_contains (sealed_caps a) ELEVATION)
    then Err (CapabilityMissing action required (sealed_caps a)) else
    if negb (is_fresh (fresh_presence a) now) then Err ElevationRequiresFreshPresence else
    Ok tt
  else
  if negb (caps_contains (sealed_caps a) required)
  then Err (CapabilityMissing action required (sealed_caps a))
  else Ok tt.

Definition kill (a : SessionAuthorizer S) (keys : SessionKeys)
  : SessionAuthorizer S * SessionKeys :=
  if killed a then (a, keys) else
  let keys := zeroize_all keys in
  let store := (bump_min_epoch (epoch_store a)).1 in
  ({| sealed_caps := sealed_caps a; killed := true; fresh_presence := fresh_presence a;
      epoch_store := store |}, keys).

(** ** The life of an authorizer *)

Inductive auth_op := SetPresence (p : FreshPresence) | Kill.

Definition auth_step (st : SessionAuthorizer S * SessionKeys) (o : auth_op)
  : SessionAuthorizer S * SessionKeys :=
  match o with
  | SetPresence p => (set_fresh_presence st.1 p, st.2)
  | Kill => kill st.1 st.2
  end.

Definition auth_run (st : SessionAuthorizer S * SessionKeys) (ops : list auth_op)
  : SessionAuthorizer S * SessionKeys := foldl auth_step st ops.

(** Whether a kill occurred. *)
Definition has_kill (ops : list auth_op) : bool :=
  existsb (fun o => match o with Kill => true | SetPresence _ => false end) ops.

(** The presence in force: the last one set before the first kill. *)
Definition last_presence (ops : list auth_op) : option FreshPresence :=
  foldl (fun acc o => match o with SetPresence p => Some p | Kill => acc end) None ops.

Lemma auth_run_spec a keys ops :
  let '(a', keys') := auth_run (a, keys) ops in
  sealed_caps a' = sealed_caps a /\
  killed a' = killed a || has_kill ops /\
  (killed a' = false ->
     keys' = keys /\ epoch_store a' = epoch_store a /\
     fresh_presence a' =
       foldl (fun acc o => match o with SetPresence p => Some p | Kill => acc end)
             (fresh_presence a) ops).
Proof.
  unfold auth_run. revert a keys. induction ops as [|o ops IH]; intros a keys; cbn [foldl has_kill existsb].
  { by rewrite orb_false_r. }
  destruct o as [p|]; cbn [auth_step fst snd].
  - specialize (IH (set_fresh_presence a p) keys). unfold set_fresh_presence in *.
    destruct (killed a) eqn:Ek; cbn [negb sealed_caps killed fresh_presence epoch_store orb] in *;
      destruct (foldl auth_step _ ops) as [a' k']; destruct IH as (Hc & Hk & Hf);
      rewrite ?Ek in *; split_and!; try done.
    cbn [orb] in Hk. intros Hk'. congruence.
  - unfold kill. destruct (killed a) eqn:Ek.
    + specialize (IH a keys). destruct (foldl auth_step _ ops) as [a' k'].
      destruct IH as (Hc & Hk & Hf). rewrite Ek in *. split_and!; try done.
    + specialize (IH {| sealed_caps := sealed_caps a; killed := true; fresh_presence := fresh_presence a;
                        epoch_store := (bump_min_epoch (epoch_store a)).1 |} (zeroize_all keys)).
      destruct (foldl auth_step _ ops) as [a' k'] eqn:E. cbn [sealed_caps killed orb] in *.
      destruct IH as (Hc & Hk & Hf). split_and!; try done. intros Hk'. by rewrite Hk in Hk'.
Qed.

Definition presence_ok (o : auth_op) : Prop :=
  match o with SetPresence p => is_i64 (granted_at p) | Kill => True end.

Lemma last_presence_i64 ops p :
  Forall presence_ok ops -> last_presence ops = Some p -> is_i64 (granted_at p).
Proof.
  intros Hops. unfold last_presence.
  assert (forall acc p, (forall q, acc = Some q -> is_i64 (granted_at q)) ->
    foldl (fun acc o => match o with SetPresence p => Some p | Kill => acc end) acc ops = Some p ->
    is_i64 (granted_at p)) as Hgen; [|by apply Hgen].
  clear p. induction Hops as [|o ops Ho _ IH]; intros acc p Hacc; cbn [foldl]; [apply Hacc|].
  apply IH. destruct o; [by intros q [= <-]|done].
Qed.

Lemma is_fresh_iff ops now :
  is_i64 now -> Forall presence_ok ops ->
  is_fresh (last_presence ops) now = true <->
  exists p, last_presence ops = Some p /\
    granted_at p <= now <= granted_at p + ELEVATION_FRESHNESS_WINDOW_SECS.
Proof.
  intros Hnow Hops. pose proof (last_presence_i64 ops) as Hi64.
  destruct (last_presence ops) as [p|]; cbn [is_fresh]; [|split; [done|by intros (? & ? & _)]].
  specialize (Hi64 p Hops eq_refl). unfold is_i64, i64_min, i64_max in *.
  unfold ELEVATION_FRESHNESS_WINDOW_SECS, i64_sat_sub, i64_clamp, i64_min, i64_max.
  destruct (now <? granted_at p) eqn:E; simplify_bool.
  - split; [done|]. intros (q & [= <-] & ?). lia.
  - rewrite Z.leb_le. split; [intros ?; exists p; split; [done|lia]|intros (q & [= <-] & ?); lia].
Qed.

(** C9. No escalation: whatever operations run, an action is authorized exactly when no kill
    has happened and each of the four sources granted its capability; an elevated action needs
    the clock and the last presence proof, not future-dated and at most 600 seconds old. *)
Theorem authorize_iff_all_sources acl ugc attended policy store keys ops action now :
  is_i64 now -> Forall presence_ok ops ->
  let a := (auth_run (seal_mask acl ugc attended policy store, keys) ops).1 in
  let granted := caps_contains acl (required_cap action) && caps_contains ugc (required_cap action)
                 && caps_contains attended (required_cap action)
                 && caps_contains policy (required_cap action) in
  (authorize a action = Ok tt <->
     has_kill ops = false /\ granted = true /\ action <> ElevatedAction) /\
  (authorize_with_clock a action now = Ok tt <->
     has_kill ops = false /\ granted = true /\
     (action = ElevatedAction ->
        exists p, last_presence ops = Some p /\
                  granted_at p <= now <= granted_at p + ELEVATION_FRESHNESS_WINDOW_SECS)).
Proof.
  intros Hnow Hops a granted. pose proof (auth_run_spec (seal_mask acl ugc attended policy store) keys ops) as Hs.
  subst a. destruct (auth_run _ ops) as [a k]. destruct Hs as (Hc & Hk & Hf). cbn [fst].
  assert (caps_contains (sealed_caps a) (required_cap action) = granted) as Hg.
  { rewrite Hc. cbn [seal_mask sealed_caps]. by rewrite !caps_contains_and. }
  cbn [seal_mask killed orb] in Hk. unfold authorize, authorize_with_clock.
  destruct (killed a); rewrite <- Hk; [split; split; done || by intros [? _]|].
  destruct (Hf eq_refl) as (_ & _ & Hp). cbn [seal_mask fresh_presence] in Hp.
  fold (last_presence ops) in Hp. rewrite Hg. case_bool_decide as Ha.
  - subst action. change (required_cap ElevatedAction) with ELEVATION in Hg. rewrite Hg, Hp.
    split; [split; [done|by intros (_ & _ & ?)]|].
    destruct granted; cbn [negb]; [|split; [done|by intros (_ & ? & _)]].
    pose proof (is_fresh_iff ops now Hnow Hops) as Hfr.
    destruct (is_fresh (last_presence ops) now); cbn [negb]; split; try done.
    + intros _. split_and!; try done. intros _. by apply Hfr.
    + intros (_ & _ & Hex). specialize (Hex eq_refl). by apply Hfr in Hex.
  - destruct granted; cbn [negb]; split; split; try done; try (by intros (_ & ? & _)).
Qed.

Section Kill.
Context `{SP : SigPrims} `{SL : !MinEpochStoreLaws S} `{CP : CryptoPrims} `{CL : !CryptoLaws}.

(** Below the certificate's epoch the floor does not matter. *)
Lemma ugc_verify_below u host peer f f' now :
  f <= ugc_epoch (fields u) -> f' <= ugc_epoch (fields u) ->
  ugc_verify u host peer f now = ugc_verify u host peer f' now.
Proof.
  intros Hf Hf'. unfold ugc_verify.
  by rewrite (proj2 (Z.ltb_ge (ugc_epoch (fields u)) f)), (proj2 (Z.ltb_ge (ugc_epoch (fields u)) f')).
Qed.

Lemma ugc_verify_revoked u host peer f now :
  ugc_epoch (fields u) < f -> is_ok (ugc_verify u host peer f now) = false.
Proof.
  intros Hlt. unfold ugc_verify. do 4 (case_match; [done|]).
  by rewrite (proj2 (Z.ltb_lt _ _)).
Qed.

(** No key of a chain is left, the prior epoch is gone, and the root key is zeros. *)
Definition keys_erased (keys : SessionKeys) : Prop :=
  Forall (fun st => live_keys (ratchet st) = ∅) (ek_states (current keys)) /\
  prior keys = None /\ Forall (eq 0) (prk (session keys)).

Lemma zeroize_erases keys : keys_erased (zeroize_all keys).
Proof.
  split_and!; [|done|].
  - cbn. induction (ek_states (current keys)) as [|st l IH]; cbn; by constructor.
  - cbn. induction (prk (session keys)) as [|b l IH]; cbn; by constructor.
Qed.

(** C37. What the kill-switch does on the host.  Every action is denied from then on, with or
    without a clock and whatever presence proof arrives later, and a second kill changes nothing.
    No live key is left: every chain of the current epoch is empty, the prior epoch is dropped and
    the root key is overwritten with zeros; on any session that a handshake started, nothing can
    be sealed and no frame of the current or an earlier epoch opens.  The floor rises by one, and
    no certificate with an epoch up to the old floor verifies any more.  (Frames of the next
    epoch, for which keys are derived from the zeroed root, and certificates with a later epoch
    are not stopped: [killed_session_accepts_forged_frame], [kill_keeps_later_epochs].) *)
Theorem kill_denies_and_erases (a : SessionAuthorizer S) keys ops :
  killed a = false -> store_current (epoch_store a) < u64_max ->
  let '(a', keys') := kill a keys in
  keys_erased keys' /\
  (forall o now s0 sops, blen (prk (transport o)) = 32 -> from_outcome o now = Ok s0 -> Forall op_ok sops ->
     Z.of_nat (length sops) < u64_max -> keys = (session_run s0 sops).1 ->
     (forall ch m, is_ok (seal keys' ch m).2 = false) /\
     (forall ch frame now' h, bytes_ok frame -> frame_header frame = Some h ->
        fh_epoch h <= ek_epoch (current keys) -> is_ok (open keys' ch frame now').2 = false)) /\
  store_current (epoch_store a') = store_current (epoch_store a) + 1 /\
  auth_run (a', keys') ops = (a', keys') /\
  (forall action now, authorize a' action = Err Killed /\
                      authorize_with_clock a' action now = Err Killed) /\
  (forall u host peer now, ugc_epoch (fields u) <= store_current (epoch_store a) ->
     is_ok (ugc_verify u host peer (store_current (epoch_store a')) now) = false).
Proof.
  intros Hk Hmax. unfold kill. rewrite Hk. cbn [epoch_store].
  pose proof (bump_min_epoch_current (epoch_store a) Hmax) as Hb.
  split_and!; [apply zeroize_erases| |done| |done|].
  - intros o now s0 sops Hl Hs Hops Hn ->. destruct (kill_stops_live_keys o now s0 sops Hl Hs Hops Hn) as [H1 H2].
    split; [intros ch m; by destruct (H1 ch m) as [->| ->]|exact H2].
  - unfold auth_run. induction ops as [|o ops IH]; [done|]. by destruct o.
  - intros u host peer now Hle. apply ugc_verify_revoked. lia.
Qed.

(** The kill raises the floor by one only: a certificate issued with an epoch above the
    floor that was in force keeps verifying after the kill, unchanged, so the same
    certificate reconnects. *)
Lemma kill_keeps_later_epochs (a : SessionAuthorizer S) keys u host peer now caps :
  killed a = false -> store_current (epoch_store a) < u64_max ->
  store_current (epoch_store a) < ugc_epoch (fields u) ->
  ugc_verify u host peer (store_current (epoch_store a)) now = Ok caps ->
  ugc_verify u host peer (store_current (epoch_store (kill a keys).1)) now = Ok caps.
Proof.
  intros Hk Hmax Hep. unfold kill. rewrite Hk. cbn [fst epoch_store].
  rewrite (bump_min_epoch_current _ Hmax). intros <-. apply ugc_verify_below; lia.
Qed.

End Kill.
End Authorizer.

(** An authorizer for the witnesses. *)
Definition toy_auth : SessionAuthorizer InMemoryMinEpochStore :=
  seal_mask 63 11 63 47 (in_memory_new 2).

Definition toy_auth_ops : list auth_op :=
  [SetPresence {| granted_at := 100 |}; SetPresence {| granted_at := 400 |}].

Lemma authorize_iff_all_sources_witness :
  let a := (auth_run (seal_mask 63 43 63 63 (in_memory_new 2), toy_session Responder) toy_auth_ops).1 in
  authorize_with_clock a ElevatedAction 1000 = Ok tt /\
  authorize_with_clock a ElevatedAction 1001 = Err ElevationRequiresFreshPresence /\
  ~ authorize a ElevatedAction = Ok tt.
Proof.
  intros a.
  assert (Forall presence_ok toy_auth_ops) as Hp
    by (repeat (apply Forall_cons_2; [unfold presence_ok, is_i64, i64_min, i64_max; cbn; lia|]); apply Forall_nil_2).
  assert (is_i64 1000) as Hn by (unfold is_i64, i64_min, i64_max; lia).
  pose proof (authorize_iff_all_sources 63 43 63 63 (in_memory_new 2) (toy_session Responder)
    toy_auth_ops ElevatedAction 1000 Hn Hp) as [H1 H2].
  split; [|split; [vm_compute; reflexivity|]].
  - apply (proj2 H2). split; [reflexivity|]. split; [reflexivity|]. intros _.
    exists {| granted_at := 400 |}. split; [reflexivity|]. vm_compute. split; discriminate.
  - intros E. apply (proj1 H1) in E. destruct E as (_ & _ & Hne). apply Hne. reflexivity.
Defined.

Lemma kill_denies_and_erases_witness :
  let '(a', keys') := kill toy_auth (session_run (toy_session Responder) toy_ops).1 in
  store_current (epoch_store a') = 3 /\ authorize a' ViewFrame = Err Killed /\
  is_ok (seal keys' Video [1]).2 = false.
Proof.
  pose proof (kill_denies_and_erases toy_auth (session_run (toy_session Responder) toy_ops).1 [Kill] eq_refl eq_refl) as H.
  destruct (kill toy_auth _) as [a' keys'].
  destruct H as (_ & Hs & Hf & _ & Ha & _). split; [exact Hf|]. split; [exact (proj1 (Ha ViewFrame 0))|].
  refine (proj1 (Hs (toy_outcome Responder) 1000 (toy_session Responder) toy_ops (toy_prk_len _) (toy_session_ok _)
    toy_ops_ok _ eq_refl) Video [1]). vm_compute. reflexivity.
Defined.

Lemma kill_keeps_later_epochs_witness :
  ugc_verify toy_ugc [9; 9] [4; 5]
    (store_current (epoch_store (kill toy_auth (toy_session Responder)).1)) 2000 = Ok 11.
Proof.
  assert (ugc_verify toy_ugc [9; 9] [4; 5] (store_current (epoch_store toy_auth)) 2000 = Ok 11) as E
    by (vm_compute; reflexivity).
  exact (kill_keeps_later_epochs toy_auth (toy_session Responder) toy_ugc [9; 9] [4; 5] 2000 11
    eq_refl eq_refl eq_refl E).
Defined.
