(* ===== verification/FileTransfer.v ===== *)
(** * sh-core: file-transfer orchestration

    [crates/sh-core/src/file.rs]: the sender and receiver state machines over the framing of
    [ShpFile].  The streaming hasher is the bytes fed to it; [finalize] is [sha256] of them.
    The driving loop is the one of the module's documentation. *)

From stdpp Require Import base numbers list option strings.
From S2P Require Import Prelude Utf8 ShpWire ShpFile CryptoTypes Capabilities.

Inductive FileError :=
| CapabilityDenied
| NameRejected (why : string)
| ResumeBeyondSize (resume total : Z)
| TooLarge (total cap : Z)
| UnknownTransfer (got expected : Z)
| OffsetMismatch (expected got : Z)
| ChunkBeyondSize (offset len total : Z)
| LenMismatch (declared actual : Z)
| LastChunkNotAtEnd (end_ total : Z)
| InvalidChunkSize (size : Z)
| FileIntegrityFailed
| Framing (e : ProtocolError).

(** [str::contains(char)] on the decoded scalar values. *)
Definition str_contains (s : list Z) (c : Z) : bool := existsb (Z.eqb c) s.

(** Returns the name as its scalar values ([&str]). *)
Definition sanitize_name (name : bytes) : result FileError (list Z) :=
  match name with
  | [] => Err (NameRejected "empty")
  | _ =>
    if MAX_FILE_NAME <? blen name then Err (NameRejected "too long") else
    let? s := ok_or (utf8_decode name) (NameRejected "not UTF-8") in
    if str_contains s 47 || str_contains s 92
    then Err (NameRejected "contains a path separator") else
    if existsb is_control s then Err (NameRejected "contains a control character") else
    if bytes_eqb name (lit "..") || bytes_eqb name (lit ".")
    then Err (NameRejected "path traversal") else
    Ok s
  end.

Section Transfer.
Context `{SP : SigPrims}.

(** ** Sender *)

Record FileSender := {
  fs_transfer_id : Z;
  fs_name : bytes;
  fs_data : bytes;
  fs_chunk_size : Z;
  fs_sha256 : bytes;
  cursor : Z;
}.

Definition sender_new (transfer_id : Z) (name data : bytes) (chunk_size : Z)
  : result FileError FileSender :=
  let? _ := sanitize_name name in
  if (chunk_size =? 0) || (MAX_FILE_CHUNK <? chunk_size) then Err (InvalidChunkSize chunk_size) else
  Ok {| fs_transfer_id := transfer_id; fs_name := name; fs_data := data;
        fs_chunk_size := chunk_size; fs_sha256 := sha256 data; cursor := 0 |}.

Definition sender_offer (s : FileSender) : FileOffer :=
  {| fo_transfer_id := fs_transfer_id s; fo_total_size := blen (fs_data s);
     fo_chunk_size := fs_chunk_size s; fo_sha256 := fs_sha256 s; fo_name := fs_name s |}.

Definition set_cursor (s : FileSender) (c : Z) : FileSender :=
  {| fs_transfer_id := fs_transfer_id s; fs_name := fs_name s; fs_data := fs_data s;
     fs_chunk_size := fs_chunk_size s; fs_sha256 := fs_sha256 s; cursor := c |}.

Definition on_accept (s : FileSender) (accept : FileAccept) : FileSender * result FileError () :=
  if negb (fa_transfer_id accept =? fs_transfer_id s)
  then (s, Err (UnknownTransfer (fa_transfer_id accept) (fs_transfer_id s))) else
  if blen (fs_data s) <? fa_resume_offset accept
  then (s, Err (ResumeBeyondSize (fa_resume_offset accept) (blen (fs_data s)))) else
  (set_cursor s (fa_resume_offset accept), Ok tt).

Definition next_chunk (s : FileSender) : FileSender * result FileError (option bytes) :=
  let total := blen (fs_data s) in
  if total <=? cursor s then (s, Ok None) else
  if usize_max <? cursor s then (s, Ok None) else
  let start := cursor s in
  let remaining := sat_sub (blen (fs_data s)) start in
  let chunk := fs_chunk_size s in
  let take_ := Z.min remaining chunk in
  let take_len := if take_ <=? u32_max then take_ else fs_chunk_size s in
  let end_ := sat_add usize_max start take_ in
  let payload := default [] (get_range (fs_data s) start end_) in
  let last := total <=? end_ in
  match chunk_encode {| ch_transfer_id := fs_transfer_id s; ch_offset := cursor s;
                        ch_len := take_len; ch_last := last |} with
  | Err e => (s, Err (Framing e))
  | Ok header => (set_cursor s end_, Ok (Some (header ++ payload)))
  end.

Definition is_done (s : FileSender) : bool := blen (fs_data s) <=? cursor s.

(** ** Receiver *)

Record FileReceiver := {
  fr_transfer_id : Z;
  fr_total_size : Z;
  expected_sha : bytes;
  hasher : bytes;
  fr_received : bytes;
  fr_cap : Z;
}.

Definition accept_offer (caps : Z) (offer : FileOffer) (already_have : bytes) (cap : Z)
  : result FileError (FileReceiver * FileAccept) :=
  if negb (caps_contains caps FILE) then Err CapabilityDenied else
  let? _ := sanitize_name (fo_name offer) in
  if cap <? fo_total_size offer then Err (TooLarge (fo_total_size offer) cap) else
  let resume := blen already_have in
  if fo_total_size offer <? resume then Err (ResumeBeyondSize resume (fo_total_size offer)) else
  Ok ({| fr_transfer_id := fo_transfer_id offer; fr_total_size := fo_total_size offer;
         expected_sha := fo_sha256 offer; hasher := already_have; fr_received := already_have;
         fr_cap := cap |},
      {| fa_transfer_id := fo_transfer_id offer; fa_resume_offset := resume |}).

Definition on_chunk (r : FileReceiver) (frame : bytes) : FileReceiver * result FileError bool :=
  match get_range frame 0 FILE_CHUNK_HEADER_LEN with
  | None => (r, Err (Framing (Truncated FILE_CHUNK_HEADER_LEN (blen frame))))
  | Some header_bytes =>
  match chunk_decode header_bytes with
  | Err e => (r, Err (Framing e))
  | Ok header =>
    let payload := default [] (get_from frame FILE_CHUNK_HEADER_LEN) in
    if negb (ch_transfer_id header =? fr_transfer_id r)
    then (r, Err (UnknownTransfer (ch_transfer_id header) (fr_transfer_id r))) else
    if negb (ch_len header =? blen payload)
    then (r, Err (LenMismatch (ch_len header) (blen payload))) else
    let expected := blen (fr_received r) in
    if negb (ch_offset header =? expected)
    then (r, Err (OffsetMismatch expected (ch_offset header))) else
    let end_ := sat_add u64_max (ch_offset header) (ch_len header) in
    if fr_total_size r <? end_
    then (r, Err (ChunkBeyondSize (ch_offset header) (ch_len header) (fr_total_size r))) else
    if fr_cap r <? end_ then (r, Err (TooLarge end_ (fr_cap r))) else
    if ch_last header && negb (end_ =? fr_total_size r)
    then (r, Err (LastChunkNotAtEnd end_ (fr_total_size r))) else
    let r := {| fr_transfer_id := fr_transfer_id r; fr_total_size := fr_total_size r;
                expected_sha := expected_sha r; hasher := hasher r ++ payload;
                fr_received := fr_received r ++ payload; fr_cap := fr_cap r |} in
    (r, Ok (fr_total_size r <=? blen (fr_received r)))
  end
  end.

Definition finish (r : FileReceiver) : result FileError (bytes * FileComplete) :=
  let digest := sha256 (hasher r) in
  let ok := bytes_eqb digest (expected_sha r) && (blen (fr_received r) =? fr_total_size r) in
  if negb ok then Err FileIntegrityFailed
  else Ok (fr_received r, {| fc_transfer_id := fr_transfer_id r; fc_ok := ok |}).

Definition bytes_received (r : FileReceiver) : Z := blen (fr_received r).
Definition is_complete (r : FileReceiver) : bool := fr_total_size r <=? blen (fr_received r).

(** ** The driving loop

    [while let Some(frame) = sender.next_chunk()? { if receiver.on_chunk(&frame)? { break; } }]
    followed by [receiver.finish()]; [None] when the fuel ran out. *)
Fixpoint drive (fuel : nat) (s : FileSender) (r : FileReceiver)
  : option (result FileError (bytes * FileComplete)) :=
  match fuel with
  | O => None
  | S fuel' =>
      match next_chunk s with
      | (_, Err e) => Some (Err e)
      | (_, Ok None) => Some (finish r)
      | (s', Ok (Some frame)) =>
          match on_chunk r frame with
          | (_, Err e) => Some (Err e)
          | (r', Ok true) => Some (finish r')
          | (r', Ok false) => drive fuel' s' r'
          end
      end
  end.

(** The whole exchange: offer, accept (resuming from [already_have]), chunks, finish. *)
Definition transfer (fuel : nat) (id : Z) (name data : bytes) (chunk_size : Z)
    (caps : Z) (already_have : bytes) (cap : Z)
  : option (result FileError (bytes * FileComplete)) :=
  match sender_new id name data chunk_size with
  | Err e => Some (Err e)
  | Ok s =>
      match accept_offer caps (sender_offer s) already_have cap with
      | Err e => Some (Err e)
      | Ok (r, acc) =>
          match on_accept s acc with
          | (_, Err e) => Some (Err e)
          | (s', Ok _) => drive fuel s' r
          end
      end
  end.

(** ** The chunk stream *)

(** A sender mid-transfer. *)
Definition sender_ok (s : FileSender) : Prop :=
  is_u64 (fs_transfer_id s) /\ chunk_size_ok (fs_chunk_size s) /\
  blen (fs_data s) <= usize_max /\ 0 <= cursor s.

(** The receiver holds exactly the sender's first [cursor] bytes. *)
Definition in_step (s : FileSender) (r : FileReceiver) : Prop :=
  fr_transfer_id r = fs_transfer_id s /\ fr_total_size r = blen (fs_data s) /\
  fr_total_size r <= fr_cap r /\ expected_sha r = sha256 (fs_data s) /\
  fr_received r = take (Z.to_nat (cursor s)) (fs_data s) /\ hasher r = fr_received r /\
  cursor s <= blen (fs_data s).

Definition chunk_len (s : FileSender) : Z := Z.min (blen (fs_data s) - cursor s) (fs_chunk_size s).

Definition chunk_header (s : FileSender) : FileChunkHeader :=
  {| ch_transfer_id := fs_transfer_id s; ch_offset := cursor s; ch_len := chunk_len s;
     ch_last := blen (fs_data s) <=? cursor s + chunk_len s |}.

Definition chunk_payload (s : FileSender) : bytes :=
  take (Z.to_nat (chunk_len s)) (drop (Z.to_nat (cursor s)) (fs_data s)).

Lemma chunk_len_bounds s :
  sender_ok s -> cursor s < blen (fs_data s) -> chunk_size_ok (chunk_len s) /\
  cursor s + chunk_len s <= blen (fs_data s).
Proof. intros (_ & Hc & _ & _). unfold chunk_size_ok, chunk_len in *. lia. Qed.

Lemma chunk_payload_len s :
  sender_ok s -> cursor s < blen (fs_data s) -> blen (chunk_payload s) = chunk_len s.
Proof.
  intros Hs Hlt. destruct (chunk_len_bounds s Hs Hlt) as [Hc Hb]. destruct Hs as (_ & _ & _ & H0).
  unfold chunk_payload, blen, chunk_size_ok in *. rewrite length_take, length_drop. lia.
Qed.

Lemma next_chunk_spec s :
  sender_ok s -> cursor s < blen (fs_data s) ->
  exists hb, chunk_encode (chunk_header s) = Ok hb /\ blen hb = FILE_CHUNK_HEADER_LEN /\
    chunk_decode hb = Ok (chunk_header s) /\
    next_chunk s = (set_cursor s (cursor s + chunk_len s), Ok (Some (hb ++ chunk_payload s))).
Proof.
  intros Hs Hlt. destruct (chunk_len_bounds s Hs Hlt) as [Hc Hb].
  pose proof Hs as (Hid & Hcs & Hd & H0). unfold usize_max, u64_max, chunk_size_ok, MAX_FILE_CHUNK in *.
  assert (chunk_ok (chunk_header s)) as Hok.
  { split_and!; [done|cbn; unfold is_u64; lia|]. unfold chunk_size_ok, MAX_FILE_CHUNK. cbn. lia. }
  destruct (@wire_roundtrip _ chunk_codec chunk_codec_laws (chunk_header s) [] Hok) as (hb & He & Hl & _ & Hdec).
  cbv [wire_encode wire_len wire_decode chunk_codec] in He, Hl, Hdec. rewrite app_nil_r in Hdec.
  exists hb. split_and!; try done. unfold next_chunk, usize_max, u64_max.
  rewrite (proj2 (Z.leb_gt _ _)) by lia. rewrite (proj2 (Z.ltb_ge _ _)) by lia.
  assert (sat_sub (blen (fs_data s)) (cursor s) = blen (fs_data s) - cursor s) as -> by (unfold sat_sub; lia).
  fold (chunk_len s). assert ((chunk_len s <=? u32_max) = true) as -> by (apply Z.leb_le; unfold u32_max; lia).
  assert (sat_add 18446744073709551615 (cursor s) (chunk_len s) = cursor s + chunk_len s) as ->
    by (unfold sat_add; lia).
  fold (chunk_header s). rewrite He. do 4 f_equal.
  unfold get_range. repeat (rewrite (proj2 (Z.leb_le _ _)) by lia). cbn [andb].
  unfold chunk_payload. change (default [] (Some ?x)) with x. do 2 f_equal. lia.
Qed.

Definition grow (r : FileReceiver) (payload : bytes) : FileReceiver :=
  {| fr_transfer_id := fr_transfer_id r; fr_total_size := fr_total_size r;
     expected_sha := expected_sha r; hasher := hasher r ++ payload;
     fr_received := fr_received r ++ payload; fr_cap := fr_cap r |}.

(** [on_chunk] on a frame whose header decodes. *)
Lemma on_chunk_frame r hb h payload :
  blen hb = FILE_CHUNK_HEADER_LEN -> chunk_decode hb = Ok h ->
  ch_transfer_id h = fr_transfer_id r -> ch_len h = blen payload ->
  ch_offset h = blen (fr_received r) -> blen (fr_received r) + blen payload <= fr_total_size r ->
  fr_total_size r <= fr_cap r -> fr_total_size r <= u64_max ->
  (ch_last h = true -> blen (fr_received r) + blen payload = fr_total_size r) ->
  on_chunk r (hb ++ payload)
  = (grow r payload, Ok (fr_total_size r <=? blen (fr_received r) + blen payload)).
Proof.
  intros Hl Hd Hid Hlen Hoff Hle Hcap Hmax Hlast. unfold on_chunk.
  pose proof (get_range_app_exact [] hb payload) as Hr. cbn [app] in Hr.
  change (blen []) with 0 in Hr. rewrite Z.add_0_l, Hl in Hr. rewrite Hr, Hd.
  rewrite get_from_drop by (rewrite blen_app, Hl; pose proof (blen_nonneg payload); unfold FILE_CHUNK_HEADER_LEN; lia).
  rewrite drop_app_length' by (unfold blen in Hl; lia). change (default [] (Some ?x)) with x.
  rewrite Hid, Z.eqb_refl, Hlen, Z.eqb_refl, Hoff, Z.eqb_refl. cbn [negb].
  assert (sat_add u64_max (blen (fr_received r)) (blen payload) = blen (fr_received r) + blen payload) as ->
    by (unfold sat_add; lia).
  rewrite !(proj2 (Z.ltb_ge _ _)) by lia.
  assert (ch_last h && negb (blen (fr_received r) + blen payload =? fr_total_size r) = false) as ->.
  { destruct (ch_last h); [|done]. by rewrite (Hlast eq_refl), Z.eqb_refl. }
  unfold grow. cbn [fr_received fr_total_size]. by rewrite blen_app.
Qed.

Lemma in_step_progress s r :
  sender_ok s -> in_step s r -> cursor s < blen (fs_data s) ->
  exists frame, next_chunk s = (set_cursor s (cursor s + chunk_len s), Ok (Some frame)) /\
    on_chunk r frame = (grow r (chunk_payload s), Ok (blen (fs_data s) <=? cursor s + chunk_len s)) /\
    in_step (set_cursor s (cursor s + chunk_len s)) (grow r (chunk_payload s)).
Proof.
  intros Hs (Hid & Ht & Hcap & Hsha & Hrec & Hh & Hcur) Hlt.
  destruct (next_chunk_spec s Hs Hlt) as (hb & He & Hl & Hd & Hn).
  pose proof (chunk_payload_len s Hs Hlt) as Hpl. destruct (chunk_len_bounds s Hs Hlt) as [Hc Hb].
  destruct Hs as (_ & _ & Hmax & H0).
  assert (blen (fr_received r) = cursor s) as Hrl.
  { rewrite Hrec. unfold blen in *. rewrite length_take. lia. }
  exists (hb ++ chunk_payload s). split; [done|]. split.
  - rewrite (on_chunk_frame r hb (chunk_header s)); try done; cbn [ch_last chunk_header ch_len ch_offset];
      rewrite ?Hpl, ?Hrl, ?Ht; try done; try lia.
  - unfold in_step, grow, set_cursor; cbn. unfold chunk_size_ok in Hc. split_and!; try done.
    + rewrite Hrec. unfold chunk_payload. rewrite take_take_drop. f_equal. lia.
    + by rewrite Hh.
Qed.

Lemma finish_in_step s r :
  in_step s r -> cursor s = blen (fs_data s) ->
  finish r = Ok (fs_data s, {| fc_transfer_id := fs_transfer_id s; fc_ok := true |}).
Proof.
  intros (Hid & Ht & _ & Hsha & Hrec & Hh & _) Hc. unfold finish.
  assert (fr_received r = fs_data s) as Hr.
  { rewrite Hrec, Hc. apply take_ge. unfold blen. lia. }
  rewrite Hh, Hr, Hsha, Ht, Hid, Z.eqb_refl. unfold bytes_eqb.
  rewrite bool_decide_eq_true_2 by done. done.
Qed.

(** The loop ends within one iteration per missing byte, plus one. *)
Lemma drive_completes fuel s r :
  sender_ok s -> in_step s r -> blen (fs_data s) - cursor s < Z.of_nat fuel ->
  drive fuel s r = Some (Ok (fs_data s, {| fc_transfer_id := fs_transfer_id s; fc_ok := true |})).
Proof.
  revert s r. induction fuel as [|fuel IH]; intros s r Hs Hi Hf.
  { destruct Hi as (_ & _ & _ & _ & _ & _ & ?). lia. }
  cbn [drive]. destruct (decide (cursor s < blen (fs_data s))) as [Hlt|Hge].
  - destruct (in_step_progress s r Hs Hi Hlt) as (frame & -> & -> & Hi').
    destruct (chunk_len_bounds s Hs Hlt) as [Hc Hb]. unfold chunk_size_ok in Hc.
    destruct (_ <=? _) eqn:E; simplify_bool.
    + rewrite (finish_in_step _ _ Hi'); [done|]. cbn. lia.
    + rewrite (IH _ _); [done| |done|cbn; lia]. destruct Hs as (?&?&?&?). split_and!; cbn; try done. lia.
  - assert (cursor s = blen (fs_data s)) as Hc by (destruct Hi as (_ & _ & _ & _ & _ & _ & ?); lia).
    unfold next_chunk. rewrite (proj2 (Z.leb_le _ _)) by lia. by rewrite (finish_in_step s).
Qed.

(** C33. A transfer completes: with the [FILE] capability, a safe name, a legal chunk size and a
    file within the receiver's cap, the sender and receiver loops end after at most one
    iteration per byte and the receiver returns exactly the file with [ok = true], also when
    it resumes from any prefix it already holds. *)
Theorem transfer_completes id name data chunk_size caps k cap s0 :
  is_u64 id -> sanitize_name name = Ok s0 -> chunk_size_ok chunk_size ->
  caps_contains caps FILE = true -> blen data <= usize_max -> blen data <= cap ->
  transfer (S (length data)) id name data chunk_size caps (take k data) cap
  = Some (Ok (data, {| fc_transfer_id := id; fc_ok := true |})).
Proof.
  intros Hid Hname Hcs Hcaps Hmax Hcap. unfold transfer, sender_new. rewrite Hname.
  assert ((chunk_size =? 0) || (MAX_FILE_CHUNK <? chunk_size) = false) as ->.
  { unfold chunk_size_ok in Hcs. apply orb_false_iff. rewrite Z.eqb_neq, Z.ltb_ge. lia. }
  unfold accept_offer, sender_offer. cbn [fo_name fo_total_size fo_transfer_id fo_sha256 fs_data fs_name fs_transfer_id fs_sha256].
  rewrite Hcaps, Hname. cbn [negb]. assert (0 <= blen (take k data) <= blen data) as Hk.
  { unfold blen. rewrite length_take. lia. }
  rewrite !(proj2 (Z.ltb_ge _ _)) by lia. unfold on_accept. cbn [fa_transfer_id fs_transfer_id fa_resume_offset fs_data].
  rewrite Z.eqb_refl, (proj2 (Z.ltb_ge _ _)) by lia. cbn [negb].
  set (s := set_cursor _ _). set (r := {| fr_transfer_id := _ |}).
  rewrite (drive_completes _ s r); [done| | |].
  - split_and!; cbn; done || lia.
  - split_and!; cbn; try done; [|lia].
    replace (Z.to_nat (blen (take k data))) with (Nat.min k (length data))
      by (unfold blen; rewrite length_take; lia).
    destruct (decide (k <= length data)%nat); [by rewrite Nat.min_l by lia|].
    rewrite Nat.min_r by lia. by rewrite !take_ge by lia.
  - cbn. unfold blen in *. lia.
Qed.

(** ** Arbitrary frames *)

Definition feed (r : FileReceiver) (frames : list bytes) : FileReceiver :=
  foldl (fun r f => (on_chunk r f).1) r frames.

(** Every outcome of [on_chunk]. *)
Lemma on_chunk_cases r frame :
  fr_total_size r < u64_max ->
  (exists e, on_chunk r frame = (r, Err e)) \/
  exists payload b, on_chunk r frame = (grow r payload, Ok b) /\
    blen (fr_received r) + blen payload <= fr_total_size r.
Proof.
  intros Hmax. unfold on_chunk.
  destruct (get_range frame 0 FILE_CHUNK_HEADER_LEN) as [hb|]; [|eauto].
  destruct (chunk_decode hb) as [h|e]; [|eauto]. set (payload := default [] _).
  destruct (ch_transfer_id h =? _); cbn [negb]; [|eauto].
  destruct (Z.eqb_spec (ch_len h) (blen payload)) as [Hlen|]; cbn [negb]; [|eauto].
  destruct (Z.eqb_spec (ch_offset h) (blen (fr_received r))) as [Hoff|]; cbn [negb]; [|eauto].
  destruct (fr_total_size r <? _) eqn:E1; [eauto|]. destruct (fr_cap r <? _); [eauto|].
  destruct (_ && _); [eauto|]. right. exists payload. eexists. split; [reflexivity|].
  simplify_bool. unfold sat_add in E1. lia.
Qed.

Lemma feed_inv r frames :
  fr_total_size r < u64_max -> blen (fr_received r) <= fr_total_size r -> hasher r = fr_received r ->
  let r' := feed r frames in
  fr_total_size r' = fr_total_size r /\ expected_sha r' = expected_sha r /\
  fr_received r `prefix_of` fr_received r' /\
  blen (fr_received r') <= fr_total_size r' /\ hasher r' = fr_received r'.
Proof.
  unfold feed. revert r. induction frames as [|f frames IH]; intros r Hmax Hb Hh; cbn [foldl].
  { done. }
  destruct (on_chunk_cases r f Hmax) as [[e ->]|(p & b & -> & Hp)]; cbn [fst]; [by apply IH|].
  destruct (IH (grow r p)) as (Ht & He & Hpre & Hle & Hhr); cbn [grow fr_total_size fr_received hasher] in *;
    [done|rewrite blen_app; lia|by rewrite Hh|].
  cbn zeta. split_and!; try done. by eapply prefix_app_l.
Qed.

(** C36. The receiver is safe against any sender: with a cap below the largest [u64] (where
    the saturating end of a chunk could no longer tell), whatever frames arrive, it never holds more
    than the offered size, itself at most the cap; it keeps the prefix it had; and [finish]
    succeeds only on a byte string of exactly the offered size with the offered SHA-256. *)
Theorem receiver_bounded_and_verified caps offer prefix cap r acc frames :
  accept_offer caps offer prefix cap = Ok (r, acc) -> cap < u64_max ->
  let r' := feed r frames in
  blen (fr_received r') <= fo_total_size offer <= cap /\
  prefix `prefix_of` fr_received r' /\
  match finish r' with
  | Ok (out, c) => out = fr_received r' /\ fc_ok c = true /\
      sha256 out = fo_sha256 offer /\ blen out = fo_total_size offer
  | Err e => e = FileIntegrityFailed /\
      (sha256 (fr_received r') <> fo_sha256 offer \/ blen (fr_received r') <> fo_total_size offer)
  end.
Proof.
  unfold accept_offer. intros Ha Hcap. destruct (caps_contains caps FILE); [|done]. cbn [negb] in Ha.
  destruct (sanitize_name _); [|done].
  destruct (cap <? _) eqn:E1; [done|]. destruct (fo_total_size offer <? _) eqn:E2; [done|].
  simplify_bool. injection Ha as <- <-.
  set (r := {| fr_transfer_id := fo_transfer_id offer |}).
  destruct (feed_inv r frames) as (Ht & He & Hp & Hle & Hh); [cbn; lia|cbn; lia|done|].
  cbn [r fr_total_size expected_sha fr_received] in Ht, He, Hp. rewrite Ht in Hle. cbn zeta.
  split; [lia|]. split; [done|]. unfold finish. rewrite Hh, He, Ht. unfold bytes_eqb.
  case_bool_decide as Hs; cbn [andb negb]; [|auto].
  destruct (Z.eqb_spec (blen (fr_received (feed r frames))) (fo_total_size offer)); cbn [negb]; auto.
Qed.

End Transfer.

(** ** Names *)

Lemma str_contains_iff s c : str_contains s c = true <-> c ∈ s.
Proof.
  unfold str_contains. rewrite existsb_exists. split.
  - intros (x & Hx & E). apply Z.eqb_eq in E as ->. by apply list_elem_of_In.
  - intros Hin. exists c. split; [by apply list_elem_of_In|apply Z.eqb_refl].
Qed.

(** [sanitize_name] accepts exactly the names of 1 to 255 bytes of valid UTF-8 that contain
    no byte [/] or [\], no control character, and are not [.] or [..]. *)
Lemma sanitize_name_iff name :
  is_ok (sanitize_name name) = true <->
  1 <= blen name <= MAX_FILE_NAME /\ (47 ∉ name) /\ (92 ∉ name) /\
  name <> lit "." /\ name <> lit ".." /\
  exists cs, utf8_decode name = Some cs /\ Forall (fun c => is_control c = false) cs.
Proof.
  unfold sanitize_name. destruct name as [|b name'] eqn:En.
  { split; [done|]. intros [H _]. change (blen []) with 0 in H. lia. }
  rewrite <- En. assert (1 <= blen name) by (rewrite En; unfold blen; cbn; lia). clear En b name'.
  destruct (MAX_FILE_NAME <? blen name) eqn:El; simplify_bool; [split; [done|lia]|].
  destruct (utf8_decode name) as [cs|] eqn:Ed; cbn [ok_or].
  2: { split; [done|]. by intros (_ & _ & _ & _ & _ & ? & ? & _). }
  pose proof (utf8_ascii_iff name cs 47 Ed ltac:(lia)) as H47.
  pose proof (utf8_ascii_iff name cs 92 Ed ltac:(lia)) as H92.
  rewrite <- H47, <- H92, <- !str_contains_iff.
  destruct (str_contains cs 47), (str_contains cs 92); cbn [orb];
    try (split; [done|intros (_ & Hn1 & Hn2 & _); first [by destruct Hn1|by destruct Hn2]]).
  assert (existsb is_control cs = false <-> Forall (fun c => is_control c = false) cs) as Hctl.
  { clear. induction cs as [|c cs IH]; cbn; [done|]. rewrite orb_false_iff, Forall_cons, IH. done. }
  destruct (existsb is_control cs).
  { split; [done|]. intros (_ & _ & _ & _ & _ & cs' & [= <-] & Hf). by apply Hctl in Hf. }
  unfold bytes_eqb. repeat case_bool_decide; cbn [orb is_ok];
    (split; [intros E|intros (_ & _ & _ & ? & ? & _)]); try done.
  split_and!; try done. exists cs. split; [done|]. by apply Hctl.
Qed.

Lemma transfer_completes_witness :
  transfer (S 5) 7 (lit "a.txt") [1; 2; 3; 4; 5] 2 63 (take 3 [1; 2; 3; 4; 5]) 100
  = Some (Ok ([1; 2; 3; 4; 5], {| fc_transfer_id := 7; fc_ok := true |})).
Proof.
  assert (is_u64 7) as H1 by (unfold is_u64; lia).
  assert (chunk_size_ok 2) as H2 by (unfold chunk_size_ok, MAX_FILE_CHUNK; lia).
  exact (transfer_completes 7 (lit "a.txt") [1; 2; 3; 4; 5] 2 63 3 100 (lit "a.txt") H1
    ltac:(vm_compute; reflexivity) H2 eq_refl ltac:(vm_compute; discriminate)
    ltac:(vm_compute; discriminate)).
Defined.

Definition toy_offer : FileOffer :=
  {| fo_transfer_id := 7; fo_total_size := 5; fo_chunk_size := 2; fo_sha256 := sha256 [1; 2; 3; 4; 5];
     fo_name := lit "a.txt" |}.

Lemma receiver_bounded_and_verified_witness :
  exists r acc, accept_offer 63 toy_offer [1] 100 = Ok (r, acc) /\
    blen (fr_received (feed r [[0]; [1; 2]])) <= 5.
Proof.
  destruct (accept_offer 63 toy_offer [1] 100) as [[r acc]|e] eqn:E; [|vm_compute in E; discriminate].
  exists r, acc. split; [reflexivity|].
  exact (proj1 (proj1 (receiver_bounded_and_verified 63 toy_offer [1] 100 r acc [[0]; [1; 2]] E
    ltac:(vm_compute; reflexivity)))).
Defined.
